(* ===== verification/_CoqProject ===== *)
-Q . S2P
Prelude.v
Coding.v
WriteBatch.v
Bloom.v
Slices.v
HandleTable.v
LruCache.v
Cache.v
TagTable.v
Cuckoo.v
Crc32c.v
Buffers.v
KeyBlock.v
KeyBlockSpec.v
KeyBlockTheorems.v
SktFormat.v
SktRows.v
SktColumns.v
SktBuild.v
SktFinish.v
SktHolds.v
SktTheorems.v
SktRecovery.v
Log.v
LogSpec.v
LogTheorems.v
TrxnGroups.v
TrxnRecovery.v
Random.v
SkipList2.v
SkipListInv.v
SkipListOps.v
SkipListEdit.v
SkipListMap.v
SkipListSplit.v
SkipListEvict.v
KvFifo.v
KvCmd.v
KvState.v
KvHash.v
KvIosched.v
KvCore.v
KvInv.v
KvExec.v
KvHashSpec.v
KvTrans.v
KvView.v
KvDaemons.v
KvSubmit.v
KvFrame.v
KvAsync.v
KvSync.v
KvBatch.v
KvFlush.v
KvSleep.v
KvSystem.v
KvDurable.v
KvDemo.v
KvTheorems.v
KvFindings.v
