(* ===== verification/Prelude.v ===== *)
(** * KVRocks: the key-value scheduling driver and the building blocks of InSDB

    KVRocks stores key-value pairs on a key-value SSD.  The development models
    four parts of it.

    The first is the kernel driver, under
    src/kv_kernel_driver/iosched_dd_kr_new/nvme_iosched_driver_new/.  A client
    sends put, get and delete commands with an ioctl.  A synchronous command
    goes to the SSD at once; an asynchronous one is buffered in the active memory
    queue of its CPU.  The scheduling daemon hands the queue to a submission
    daemon, which gives the requests to the block layer; the interrupt handler
    puts a finished request in the completion ring, and the completion daemon
    releases it, wakes the threads that wait for it and releases the request
    that was pending on the same key.  A hash table finds the request of a key, so
    that a command meets an earlier one of its key: it merges with it, makes it
    void, waits for it or becomes pending on it.  A second hash table holds the
    data of completed asynchronous gets (read-ahead data).

    The second is the library part of InSDB, the store on top of the driver,
    under src/insdb/: encodings, write batches, the Bloom filter, the bytewise
    comparator, the block cache, the checksum, the random numbers, the cuckoo
    filters that go with a table of keys, and the skip list that orders the keys
    of a table in memory, with the splitting of a table and the eviction of its
    keys.

    The third is the data path of its database engine, in src/insdb/db/.  Values that
    clients write are packed into key blocks; each request belongs to a transaction,
    and transactions are counted in groups.  Sorted key tables map user keys to key
    blocks: a flush merges the keys in memory with the previous table, splits it when
    it is full, numbers and seals the tables and writes them, the main one last.
    After a crash a recovery walks along the tables, removes what an interrupted flush
    left, and drops the columns of transactions that are incomplete.

    The fourth is the write-ahead log of kvdb, under src/kvdb/db/: records cut into
    fragments that fill blocks of 32 KiB, each with a checksum, and the reader that
    finds them again after a crash.

    ** The files of the driver

    - KvFifo.v: kv_fifo.h, the completion ring, with the interface [Fifo] the
      daemons are proved against.
    - KvCmd.v: the commands and opcodes of linux_nvme.h, linux_nvme_ioctl.h and
      nvme.h, [set_kv_cmd], the hash of a key and the comparison of keys.
    - KvState.v: the structures of kv_iosched.h as the record [driver], and the
      monad [M] the handlers run in.  Pointers are keys of finite maps, so that a
      use after free, a NULL dereference, a BUG_ON, a lock taken twice and an
      unlock of a free lock are the values of the type [fault].  A call that can
      fail (kmalloc, copy_from_user) consumes one element of [s_fails].
    - KvHash.v: kv_hash.c, function by function.
    - KvIosched.v: kv_iosched.c (the daemons, [kv_iosched_init],
      [kv_iosched_destroy]), with the submission loop and the interrupt handler
      of kv_core.c.
    - KvCore.v: the ioctl handlers of kv_core.c: [nvme_kv_cmd],
      [nvme_kv_multi_cmd], [nvme_kv_iosched_cmd], [nvme_kv_multi_iosched_cmd],
      [nvme_kv_flush_cmd], [nvme_kv_discard_readahead_cmd],
      [nvme_kv_read_from_readahead_cmd].
    - KvInv.v: the invariant [Inv] of the driver between two handlers.
    - KvExec.v, KvHashSpec.v: what the hash operations do, as equations.
    - KvTrans.v, KvView.v: the invariant and the clients' map under the
      elementary transitions of a request; the contract [KvDevice] of the SSD.
    - KvDaemons.v, KvSubmit.v, KvAsync.v, KvSync.v, KvBatch.v, KvFlush.v: the
      daemons and the handlers keep the invariant and act on the map.
    - KvFrame.v, KvSleep.v: what the daemons leave alone, and what happens while
      a thread sleeps.
    - KvSystem.v: start-up, events and runs.  KvDurable.v: a round of the daemons.
    - KvDemo.v: a device, hash functions and runs to evaluate.
    - KvTheorems.v: the theorems, with their instances on the demonstration
      platform.  KvFindings.v: runs in which the code goes wrong.

    ** The files of InSDB

    - Coding.v: util/coding.cc and coding.h.
    - WriteBatch.v: the class WriteBatch of db/write_batch.cc.
    - Bloom.v: util/hash.cc and util/bloom.cc.
    - Slices.v: Slice::compare, util/comparator.cc, the numbers of util/logging.cc.
    - HandleTable.v, LruCache.v, Cache.v: util/cache.cc, the hash table of the
      cache, one LRU shard, and the sharded cache with its clients.
    - TagTable.v, Cuckoo.v: util/cuckoo.cc, the packed table of tags and the
      cuckoo filter over it with its stored form.
    - Crc32c.v: util/crc32c.cc and crc32c.h.
    - Random.v: util/random.h.
    - SkipList2.v: db/skiplist2.h at the level of its pointers, with the walks
      of db/sktable.cc that split a key map and evict keys from it.
      SkipListInv.v: the invariant of the list.  SkipListOps.v: the searches.
      SkipListEdit.v: insertion and removal on the towers.  SkipListMap.v: the
      operations as a sorted list.  SkipListSplit.v and SkipListEvict.v: the two
      walks, the split also after evictions, as [FlushSKTableMem] runs them.

    ** The files of the engine

    - Buffers.v: raw memory, and the classes of what lies below: [RawMalloc], the
      device [Env] ([ReliableEnv], [KeyedEnv]) and [Snappy] ([SnappyLaws]).
    - KeyBlock.v: user values and key blocks, from write_batch.cc, the worker of
      db_impl.cc and manifest.cc.  KeyBlockSpec.v: the layout of a block.
      KeyBlockTheorems.v: reading back, and a device that is a list of pairs.
    - SktFormat.v: sorted key tables: [SKTDFCacheNode], [DeviceFormatBuilder] and
      [FlushSKTableMem] of sktable.cc, [InsertColumnNodes] of userkey.cc.
      SktRows.v: the rows of a table and the binary search.  SktColumns.v: the
      columns of a row.  SktBuild.v: the walk of the builder as a merge.
      SktFinish.v: the finished and sealed table, and loading it.  SktHolds.v: the
      keys and columns that a table stands for.  SktTheorems.v: whole flushes.
    - SktRecovery.v: the first table of a database, and the walk of a recovery along
      the tables (manifest.cc).
    - TrxnGroups.v: the transaction numbers and the completed groups of manifest.cc.
      TrxnRecovery.v: the transactions in a recovery.

    ** The files of the log

    - Log.v: db/log_format.h, log_writer.cc and log_reader.cc, function by
      function; the files below them are the classes [WritableFile] and
      [SequentialFile].
    - LogSpec.v: the layout of a log as a function of its records, what the writer
      appends and what the reader returns from every position of the layout.
    - LogTheorems.v: the theorems, and files that are lists of bytes.

    This file holds what the others share: machine words ([wrap], [u8] to [u64]),
    bits of a state word, record update, lemmas on lists and the tactics [b2p],
    [split_match] and the hint databases [kv] and [flags].

    ** What the theorems show

    - The driver is a map ([driver_refines_map], with the lemma [event_simulates],
      [sync_command_correct], [async_command_correct], [batch_correct],
      [flush_and_discard_correct]): from start-up, whatever the order of client
      commands, daemon runs and interrupts, no handler faults, and the clients
      see a plain map from keys to values.  Read-ahead data is the value of the
      map too, unless a command for the key was sent while an asynchronous get of
      it was in flight: the keys for which the clients may do that are the
      predicate [raced], and for those the answer of a read-ahead is any value.
    - Progress ([writes_reach_device], [submission_daemon_correct],
      [completion_daemon_correct]), and for every run from start-up, with any
      interleaving, that a request is in exactly one place ([no_request_lost]) and
      that the device has one request of a key at a time
      ([one_in_flight_per_key]).
    - Errors ([invalid_commands_rejected]) and the ring ([ring_refines_list]).
    - The cache ([cache_never_faults], [lookup_coherent], [insert_then_lookup],
      [deleters_run_once]): for every sequence of requests.
    - Write batches refine lists of updates and are read back
      ([batch_ops_refine_list], [iterate_replays]); varints are read back and the
      decoders stay in their buffer ([varint_roundtrip],
      [varint_decoders_bounded]); the separators of the comparator lie in between
      ([separators_between]).
    - Filters: an added key matches, for the Bloom filter
      ([bloom_no_false_negatives]) and for the cuckoo filter while no insertion
      failed ([cuckoo_no_false_negatives]); the packed table is an array of tags
      ([packed_tags_correct]) and a stored filter answers as the original
      ([cuckoo_stored_filter]).  The loads of a bucket read behind the table:
      [load_bucket] is given the bytes there and has no result without them
      ([load_bucket_overreads]).
    - The skip list answers every sequence of operations as a sorted list of pairs
      does, without an invalid access, and frees what it allocated
      ([skiplist_refines_sorted_list]); eviction removes the clean keys
      ([eviction_removes_clean_keys]), and the split that follows it hands every
      key to the table of its range ([split_distributes_keys]).  The generator of the heights has the full
      period ([random_full_cycle]).
    - Key blocks: what clients write is read back from the block in memory and from
      the device, compressed or not ([key_blocks_read_back]).  The list of completed
      transaction groups has exactly the groups that are finished, for fewer than
      2^27 - 1 transactions ([completed_groups_correct]; after as many the numbers
      may start over, [trxn_numbers_wrap]).
    - Sorted key tables: a flush leaves tables that load, that follow one another, and
      that stand for the merge of what was there with what was in memory
      ([flush_leaves_tables]); looking up a key in a table answers as that merge says
      ([table_answers]); a flush that is interrupted changes no table that was there
      ([flush_is_atomic]).
    - Recovery: what an interrupted flush left is removed
      ([interrupted_flush_undone]), the tables are found in order
      ([recovery_finds_tables]) unless a first row ends after 2048 bytes, a new
      database opens ([new_database_opens]), and the
      columns that are dropped are those of the least set of transactions that is
      closed under merging ([resolve_least_closed]).
    - The log: wherever the file of a log is cut off, the reader ends and returns
      exactly the complete records ([log_recovers_prefix]), and goes on where it
      stopped when the file has grown ([log_tailing]).  The checksum is the
      CRC with its polynomial, however it is computed ([crc32c_correct]), and
      notices a change of up to four bytes ([crc32c_detects_bursts]).
    - Runs that go wrong, most of them evaluations of the definitions on one input:
      [wrong_answers], [requests_that_crash], [dirty_queue_is_reused],
      [racing_enqueues_lose_queue], [cuckoo_limits],
      [eviction_leaves_dangling_prev], [log_limits], [trxn_numbers_wrap],
      [time_becomes_sequence_number], [recovered_begin_keys_empty],
      [split_after_recovery_replaces_next], [new_database_not_recovered],
      [completing_column_lost] and [split_transaction_dropped].

    ** Choices

    The driver is a sequential program whose steps are the handlers, the work
    functions and the interrupts; a step runs to its end except where the source
    sleeps, where the argument [sleep] runs, which stands for the other threads.
    The theorems ask of it [WakingSleep] (and [PassiveSleep] for progress), and
    KvSleep.v shows that letting the device and the completion daemon finish
    satisfies both.  So a wait ends when what it waits for has happened; that a
    killable wait returns early because its thread is killed is not covered.
    Memory queues that are freed go to a list of free queues as they are, and an
    allocation takes one from there if it can, as the slab does, whose constructor
    runs only once.  Preemption inside a handler is not modelled: where the code
    relies on spin locks the locks are modelled, and using one wrongly is a
    fault.  [goto restart] is recursion on fuel; the theorems give the fuel that is
    enough (one or two rounds, as the sleep ends the reason for the restart), and
    the loops of the daemons have one round per queue or ring element.

    The theorems about the driver are for puts, gets and deletes with keys of at
    most 16 bytes, padded with zeros, and values of whole dwords ([cmd_ok],
    [sync_cmd_ok]), with one read length per key; batches have no blocking key, and
    flushes and discards no key ([event_ok]); kernel calls do not fail unless a
    theorem says so.  The invariant does not cover a reference held across a sleep by a flush of one
    key or by a batch with a blocking key.  The hash functions of the kernel and
    the SSD are the classes [KernelHash] and [KvDevice].

    The cache is modelled without its mutexes; an operation on a shard is one
    step.  Its assertions are kept, that of the growing table on the number of moved
    entries included; the one of [LRUHandle::key] has no counterpart, as the heads of
    the two lists are not entries.  Its table is proved correct for fewer than 2^31 entries, which bounds
    the number of requests of a client.

    The skip list, the cuckoo filter and the log are sequential programs in a
    build with NDEBUG, except that the assertions of the cuckoo filter are kept
    and proved.  Allocation succeeds and gives an address that is not in use (the
    class [Malloc]).  The searches of the skip list have one unit of fuel per node
    of the memory, the walks one per key, the writer two rounds more than the record has bytes, and
    the reader one round more than the file has bytes; the theorems show that none
    of them runs out.  The key order is any total preorder ([KeyOrder]); which
    keys are dirty or referenced is the argument [busy] of the eviction.  The
    files under the log are [WritableFile] and [SequentialFile], and the theorems
    on them hold for files whose calls do not fail ([ReliableWrite],
    [ReliableRead]); the instruction of SSE 4.2 is the class [Processor].

    The engine is modelled in a build with NDEBUG on a little-endian machine: where
    the code casts a pointer, the theorems ask for [kLittleEndian = true].  An access
    outside of a buffer and a call of [abort] have no result ([None]), and the theorems
    show that there is one.  The operations of the manifest on transactions are single
    steps under their locks; [DecTrxnGroup], which takes two locks one after the other,
    is two ([dec_count], [enter_completed]).  A user key comes with the columns that a flush records,
    as a function of those fetched from the previous table, with or without their
    sequence numbers ([HasBeenFlushed], either in the theorems).  The sizes that tables rely
    on are the record [Limits]: header, two keys and two rows fit in 4096 bytes.
    The walk of the builder has one unit of fuel per key and row, the loop of a flush
    one per table, of which there are no more than keys and rows; the cleanup and the
    walk of a recovery one per table; resolving transactions one per column.  The
    theorems show that this is enough.  The device keeps what was put under a key, and
    a put of one key leaves the others ([ReliableEnv], [KeyedEnv], [DeletingEnv]).

    ** Not modelled

    The statistics, traces and log messages of the driver; the stock NVMe code
    (core.c, pci.c, scsi.c, lightnvm.c); the copy of the driver for kernel 4.4;
    kv_bench.  Of the database engine of InSDB: the choice of the versions of a
    column that a flush records, which depends on snapshots, iterators and the state of
    the key blocks; the metadata of key blocks and its update lists; reading ahead,
    iterators, garbage collection, the hash map of user keys and the threads
    (db_impl.cc, manifest.cc, userkey.cc, gc.cc, snapshot.cc and sktable.cc beyond the
    functions above): its classes share objects, atomics and threads.  Of skiplist2.h,
    [ReplaceOrInsert] and the iterator, which no code uses and which do not
    compile when they are instantiated.  Its environment, port, tests and
    benchmarks.  kvdb apart from the log and the checksum, folly, snappy, gflags
    and the patches: other projects' sources. *)

From Stdlib Require Import ZArith Lia Bool Btauto.
From stdpp Require Import base list gmap.

#[global] Open Scope Z_scope.

(** ** Machine words

    A C unsigned integer of width [w] is a [Z]; the wrap-around of the
    arithmetic is written out with [wrap]. *)

Definition wrap (w x : Z) : Z := x mod 2 ^ w.
Definition u8 (x : Z) : Z := wrap 8 x.
Definition u16 (x : Z) : Z := wrap 16 x.
Definition u32 (x : Z) : Z := wrap 32 x.
Definition u64 (x : Z) : Z := wrap 64 x.

(** The C shift and mask idioms read as in the source inside [cword_scope]. *)
Declare Scope cword_scope.
Delimit Scope cword_scope with cword.
Infix "<<" := Z.shiftl (at level 35) : cword_scope.
Infix ">>" := Z.shiftr (at level 35) : cword_scope.
Infix "&" := Z.land (at level 40, left associativity) : cword_scope.
Infix "|:" := Z.lor (at level 50, left associativity) : cword_scope.

(** A byte, and a buffer of bytes. *)
Definition byte_ok (b : Z) : Prop := 0 <= b < 256.
Definition bytes_ok (l : list Z) : Prop := Forall byte_ok l.

Lemma bytes_ok_take n l : bytes_ok l -> bytes_ok (take n l).
Proof. apply Forall_take. Qed.
Lemma bytes_ok_drop n l : bytes_ok l -> bytes_ok (drop n l).
Proof. apply Forall_drop. Qed.

Create HintDb kv.
Create Rewrite HintDb kv.

Lemma wrap_small w x : 0 <= x < 2 ^ w -> wrap w x = x.
Proof. apply Z.mod_small. Qed.

Lemma wrap_range w x : 0 <= w -> 0 <= wrap w x < 2 ^ w.
Proof. intros ?. apply Z.mod_pos_bound. lia. Qed.

Lemma wrap_land w x : 0 <= w -> wrap w x = Z.land x (Z.ones w).
Proof. intros. unfold wrap. symmetry. by apply Z.land_ones. Qed.

Lemma wrap_testbit w x i : 0 <= w -> 0 <= i ->
  Z.testbit (wrap w x) i = (i <? w) && Z.testbit x i.
Proof.
  intros. unfold wrap. destruct (Z.ltb_spec i w).
  - by rewrite Z.mod_pow2_bits_low by lia.
  - by rewrite Z.mod_pow2_bits_high by lia.
Qed.

Lemma byte_ok_u8 x : byte_ok (u8 x).
Proof. apply (wrap_range 8 x). lia. Qed.

#[export] Hint Resolve byte_ok_u8 bytes_ok_take bytes_ok_drop : kv.
#[export] Hint Constructors Forall : kv.

(** A value below [2 ^ w] has no bit at or above [w]. *)
Lemma testbit_high x w i : 0 <= x < 2 ^ w -> 0 <= w <= i -> Z.testbit x i = false.
Proof.
  intros Hx Hi. rewrite <- (Z.mod_small x (2 ^ w)) by done.
  by apply Z.mod_pow2_bits_high.
Qed.

Lemma bits_ext x y : (forall i, 0 <= i -> Z.testbit x i = Z.testbit y i) -> x = y.
Proof. intros. by apply Z.bits_inj'. Qed.

(** A number whose high bits all vanish is below [2 ^ w]. *)
Lemma below_pow2 x w : 0 <= w -> 0 <= x ->
  (forall i, w <= i -> Z.testbit x i = false) -> x < 2 ^ w.
Proof.
  intros Hw Hx Hb. destruct (Z.eq_dec x 0) as [->|Hne]; [lia|].
  apply Z.log2_lt_pow2; [lia|].
  destruct (Z.lt_ge_cases (Z.log2 x) w) as [|Hge]; [done|].
  pose proof (Hb _ Hge) as Hf. rewrite Z.bit_log2 in Hf by lia. done.
Qed.

Lemma lor_range x y w : 0 <= w -> 0 <= x < 2 ^ w -> 0 <= y < 2 ^ w ->
  0 <= Z.lor x y < 2 ^ w.
Proof.
  intros Hw Hx Hy. split; [apply Z.lor_nonneg; lia|].
  apply below_pow2; [lia|apply Z.lor_nonneg; lia|].
  intros i Hi. rewrite Z.lor_spec, (testbit_high x w), (testbit_high y w) by lia. done.
Qed.

Lemma lxor_range x y w : 0 <= w -> 0 <= x < 2 ^ w -> 0 <= y < 2 ^ w ->
  0 <= Z.lxor x y < 2 ^ w.
Proof.
  intros Hw Hx Hy. assert (0 <= Z.lxor x y) by (apply Z.lxor_nonneg; lia). split; [done|].
  apply below_pow2; [lia|done|].
  intros i Hi. rewrite Z.lxor_spec, (testbit_high x w), (testbit_high y w) by lia. done.
Qed.

(** Or-ing two words with disjoint bits adds them. *)
Lemma lor_disjoint_add x y w : 0 <= w -> 0 <= x < 2 ^ w ->
  Z.lor x (Z.shiftl y w) = x + y * 2 ^ w.
Proof.
  intros Hw Hx. rewrite Z.add_nocarry_lxor.
  - rewrite <- Z.shiftl_mul_pow2 by lia. apply bits_ext; intros i Hi.
    rewrite Z.lor_spec, Z.lxor_spec, Z.shiftl_spec by lia.
    destruct (Z.lt_ge_cases i w) as [Hlt|Hge].
    + rewrite (Z.testbit_neg_r y) by lia. by rewrite orb_false_r, xorb_false_r.
    + by rewrite (testbit_high x w) by lia.
  - rewrite <- Z.shiftl_mul_pow2 by lia. apply bits_ext; intros i Hi.
    rewrite Z.land_spec, Z.shiftl_spec, Z.bits_0 by lia.
    destruct (Z.lt_ge_cases i w) as [Hlt|Hge].
    + rewrite (Z.testbit_neg_r y) by lia. by rewrite andb_false_r.
    + by rewrite (testbit_high x w) by lia.
Qed.

(** ** Bit flags of a state word ([set_bit], [clear_bit], [test_bit] of the kernel) *)
Definition test_bit (n w : Z) : bool := Z.testbit w n.
Definition set_bit (n w : Z) : Z := Z.setbit w n.
Definition clear_bit (n w : Z) : Z := Z.clearbit w n.

Arguments test_bit n w : simpl never.
Arguments set_bit n w : simpl never.
Arguments clear_bit n w : simpl never.

Lemma test_set_bit n w : 0 <= n -> test_bit n (set_bit n w) = true.
Proof. intros. unfold test_bit, set_bit. by apply Z.setbit_eq. Qed.
Lemma test_set_bit_ne n m w : 0 <= n -> n <> m -> test_bit m (set_bit n w) = test_bit m w.
Proof. intros. unfold test_bit, set_bit. by apply Z.setbit_neq. Qed.
Lemma test_clear_bit n w : test_bit n (clear_bit n w) = false.
Proof. unfold test_bit, clear_bit. apply Z.clearbit_eq. Qed.
Lemma test_clear_bit_ne n m w : n <> m -> test_bit m (clear_bit n w) = test_bit m w.
Proof. intros. unfold test_bit, clear_bit. by apply Z.clearbit_neq. Qed.

#[export] Hint Rewrite test_clear_bit : kv.
#[export] Hint Rewrite test_set_bit test_set_bit_ne test_clear_bit_ne using lia : kv.

(** ** Lists *)

(** [l] read from index [n] on; the source's pointer plus offset. *)
Lemma take_app_exact {A} (l k : list A) n : length l = n -> take n (l ++ k) = l.
Proof. intros <-. apply take_app_length. Qed.
Lemma drop_app_exact {A} (l k : list A) n : length l = n -> drop n (l ++ k) = k.
Proof. intros <-. apply drop_app_length. Qed.

(** Removing an element that is not there, or is there once. *)
Lemma filter_notin {A} `{EqDecision A} (i : A) (l : list A) : i ∉ l -> filter (fun j => j <> i) l = l.
Proof.
  induction l as [|j l IH]; intros Hi; [done|]. apply not_elem_of_cons in Hi as [Hne Hi].
  rewrite filter_cons_True by congruence. by rewrite IH.
Qed.

Lemma length_filter_once {A} `{EqDecision A} (i : A) (l : list A) : NoDup l -> i ∈ l ->
  Z.of_nat (length (filter (fun j => j <> i) l)) = Z.of_nat (length l) - 1.
Proof.
  intros Hnd Hi. induction Hnd as [|j l Hj Hnd IH]; [by apply elem_of_nil in Hi|].
  destruct (decide (j = i)) as [->|Hne].
  - rewrite filter_cons_False, filter_notin by tauto. simpl. lia.
  - apply elem_of_cons in Hi as [->|Hi]; [done|]. rewrite filter_cons_True by done.
    simpl. specialize (IH Hi). lia.
Qed.

Lemma filter_once_perm {A} `{EqDecision A} (i : A) (l : list A) : NoDup l -> i ∈ l -> l ≡ₚ i :: filter (fun j => j <> i) l.
Proof.
  intros Hnd Hi. induction Hnd as [|j l Hj Hnd IH]; [by apply elem_of_nil in Hi|].
  destruct (decide (j = i)) as [->|Hne].
  - by rewrite filter_cons_False, filter_notin by tauto.
  - apply elem_of_cons in Hi as [->|Hi]; [done|]. rewrite filter_cons_True by done. rewrite (IH Hi) at 1. constructor.
Qed.

(** A decidable fact about all the values of a small word, by enumeration. *)
Lemma forall_below (n : nat) (P : Z -> bool) :
  forallb P (map Z.of_nat (seq 0 n)) = true -> forall x, 0 <= x < Z.of_nat n -> P x = true.
Proof.
  intros Hall x Hx. rewrite forallb_forall in Hall. apply Hall.
  apply in_map_iff. exists (Z.to_nat x). split; [lia|]. apply in_seq. lia.
Qed.

(** ** Updating one field of a record

    [r <| field := v |>] is [r] with [field] replaced.  A record type gives its
    eta expansion as an instance of [Eta]; the setter of a projection is that
    expansion with the projection abstracted. *)

Class Eta (R : Type) : Type := eta_expand : R -> R.
Class Setter {R E : Type} (proj : R -> E) : Type := upd : (E -> E) -> R -> R.
Arguments upd {R E} proj {_} f r.

Ltac make_setter R proj :=
  let i := constr:(_ : Eta R) in
  let h := lazymatch i with ?g _ _ _ => g | ?g _ _ => g | ?g _ => g | ?g => g end in
  let e := eval cbv beta delta [h] in i in
  lazymatch eval pattern proj in e with
  | ?b _ => let t := eval cbv beta in (fun f => b (fun r => f (proj r))) in exact t
  end.

#[export] Hint Extern 1 (@Setter ?R _ ?proj) => make_setter R proj : typeclass_instances.

Notation "r <| proj := v |>" := (upd proj (fun _ => v) r)
  (at level 1, proj constr at level 1, v at level 200, left associativity).
Notation "r <| proj ::= f |>" := (upd proj f r)
  (at level 1, proj constr at level 1, f at level 200, left associativity).

(** ** Tactics *)

(** Case analysis on every [if]/[match] scrutinee of the goal, keeping the equation. *)
Ltac split_match :=
  repeat match goal with
  | |- context [match ?x with _ => _ end] =>
      lazymatch x with
      | context [match _ with _ => _ end] => fail
      | _ => destruct x eqn:?
      end
  end.

(** The same on a hypothesis. *)
Ltac split_match_in H :=
  repeat match type of H with
  | context [match ?x with _ => _ end] =>
      lazymatch x with
      | context [match _ with _ => _ end] => fail
      | _ => destruct x eqn:?; try discriminate H
      end
  end.

(** Turn the boolean comparisons of the code into propositions. *)
Ltac b2p :=
  repeat match goal with
  | H : (_ <? _) = true |- _ => apply Z.ltb_lt in H
  | H : (_ <? _) = false |- _ => apply Z.ltb_ge in H
  | H : (_ <=? _) = true |- _ => apply Z.leb_le in H
  | H : (_ <=? _) = false |- _ => apply Z.leb_gt in H
  | H : (_ =? _) = true |- _ => apply Z.eqb_eq in H
  | H : (_ =? _) = false |- _ => apply Z.eqb_neq in H
  | H : (_ && _) = true |- _ => apply andb_true_iff in H as [? ?]
  | H : (_ || _) = false |- _ => apply orb_false_iff in H as [? ?]
  | H : negb _ = true |- _ => apply negb_true_iff in H
  | H : negb _ = false |- _ => apply negb_false_iff in H
  end.
