(* ===== verification/Coding.v ===== *)
(** * Integer and string encodings of InSDB

    Models src/insdb/util/coding.cc and coding.h: the fixed-width
    little-endian encoders, the varint encoders and decoders, and the
    length-prefixed slices every on-device format of InSDB is built from.
    A [std::string] or a [Slice] is the list of its bytes; a decoder that
    moves a pointer returns the bytes that remain, and [None] for the NULL
    or [false] of the source. *)

From Stdlib Require Import ZArith Lia Bool.
From stdpp Require Import base list.
From S2P Require Import Prelude.

(** ** Fixed-width integers *)

(** The object representation of an [n]-byte unsigned integer on a
    little-endian machine: what [memcpy(buf, &value, n)] copies. *)
Fixpoint le_bytes (n : nat) (v : Z) : list Z :=
  match n with
  | O => []
  | S n' => u8 v :: le_bytes n' (Z.shiftr v 8)
  end.

(** The integer a little-endian machine loads from those bytes. *)
Fixpoint le_value (l : list Z) : Z :=
  match l with
  | [] => 0
  | b :: l' => Z.lor b (Z.shiftl (le_value l') 8)
  end.

Section Fixed.
  (** [port::kLittleEndian]. *)
  Variable kLittleEndian : bool.
  Local Open Scope cword_scope.

Definition EncodeFixed16 (value : Z) : list Z :=
  if kLittleEndian then le_bytes 2 value
  else [value & 0xff; (value >> 8) & 0xff].

Definition EncodeFixed32 (value : Z) : list Z :=
  if kLittleEndian then le_bytes 4 value
  else [value & 0xff; (value >> 8) & 0xff; (value >> 16) & 0xff; (value >> 24) & 0xff].

Definition EncodeFixed64 (value : Z) : list Z :=
  if kLittleEndian then le_bytes 8 value
  else [value & 0xff; (value >> 8) & 0xff; (value >> 16) & 0xff; (value >> 24) & 0xff;
        (value >> 32) & 0xff; (value >> 40) & 0xff; (value >> 48) & 0xff; (value >> 56) & 0xff].

(** [ptr[i]]: the decoders read without bounds checking, so reading past the
    buffer has no value here. *)
Definition DecodeFixed16 (ptr : list Z) : option Z :=
  match ptr with
  | p0 :: p1 :: _ =>
      Some (if kLittleEndian then le_value [p0; p1] else p0 |: (p1 << 8))
  | _ => None
  end.

Definition DecodeFixed32 (ptr : list Z) : option Z :=
  match ptr with
  | p0 :: p1 :: p2 :: p3 :: _ =>
      Some (if kLittleEndian then le_value [p0; p1; p2; p3]
            else p0 |: (p1 << 8) |: (p2 << 16) |: (p3 << 24))
  | _ => None
  end.

Definition DecodeFixed64 (ptr : list Z) : option Z :=
  if kLittleEndian then
    if (8 <=? length ptr)%nat then Some (le_value (take 8 ptr)) else None
  else
    lo ← DecodeFixed32 ptr;
    hi ← DecodeFixed32 (drop 4 ptr);
    Some (u64 (hi << 32) |: lo).

Definition PutFixed16 (dst : list Z) (value : Z) : list Z := dst ++ EncodeFixed16 value.
Definition PutFixed32 (dst : list Z) (value : Z) : list Z := dst ++ EncodeFixed32 value.
Definition PutFixed64 (dst : list Z) (value : Z) : list Z := dst ++ EncodeFixed64 value.
End Fixed.

(** ** Varint encoders *)

Section VarintEncode.
  Local Open Scope cword_scope.

(** Each [*(ptr++) = e] stores the low byte of [e]. *)
Definition EncodeVarint16 (v : Z) : list Z :=
  if v <? 1 << 7 then [u8 v]
  else if v <? 1 << 14 then [u8 (v |: 128); u8 (v >> 7)]
  else [u8 (v |: 128); u8 ((v >> 7) |: 128); u8 (v >> 14)].

Definition EncodeVarint32 (v : Z) : list Z :=
  if v <? 1 << 7 then [u8 v]
  else if v <? 1 << 14 then [u8 (v |: 128); u8 (v >> 7)]
  else if v <? 1 << 21 then [u8 (v |: 128); u8 ((v >> 7) |: 128); u8 (v >> 14)]
  else if v <? 1 << 28 then
    [u8 (v |: 128); u8 ((v >> 7) |: 128); u8 ((v >> 14) |: 128); u8 (v >> 21)]
  else [u8 (v |: 128); u8 ((v >> 7) |: 128); u8 ((v >> 14) |: 128);
        u8 ((v >> 21) |: 128); u8 (v >> 28)].

(** The [while (v >= B)] loop; one iteration per unit of fuel. *)
Fixpoint EncodeVarint64_loop (fuel : nat) (v : Z) : list Z :=
  match fuel with
  | O => []
  | S fuel' =>
      if 128 <=? v then ((v & 127) |: 128) :: EncodeVarint64_loop fuel' (v >> 7)
      else [u8 v]
  end.

Definition EncodeVarint64 (v : Z) : list Z :=
  EncodeVarint64_loop (S (Z.to_nat (Z.log2 v))) v.

Fixpoint VarintLength_loop (fuel : nat) (v len : Z) : Z :=
  match fuel with
  | O => len
  | S fuel' => if 128 <=? v then VarintLength_loop fuel' (v >> 7) (len + 1) else len
  end.

Definition VarintLength (v : Z) : Z := VarintLength_loop (S (Z.to_nat (Z.log2 v))) v 1.
End VarintEncode.

Definition PutVarint16 (dst : list Z) (v : Z) : list Z := dst ++ EncodeVarint16 v.
Definition PutVarint32 (dst : list Z) (v : Z) : list Z := dst ++ EncodeVarint32 v.
Definition PutVarint64 (dst : list Z) (v : Z) : list Z := dst ++ EncodeVarint64 v.

(** [value.size()] is a [size_t] passed as a [uint32_t]. *)
Definition PutLengthPrefixedSlice (dst value : list Z) : list Z :=
  PutVarint32 dst (u32 (Z.of_nat (length value))) ++ value.

(** ** Varint decoders *)

Section VarintDecode.
  Local Open Scope cword_scope.

(** The loop the three decoders share: [w] is the width of [result], [bound]
    the last shift; [p < limit] is "bytes remain". *)
Fixpoint varint_loop (w bound shift result : Z) (p : list Z) : option (Z * list Z) :=
  match p with
  | [] => None
  | byte :: p' =>
      if shift <=? bound then
        if negb (byte & 128 =? 0) then
          varint_loop w bound (shift + 7) (wrap w (result |: ((byte & 127) << shift))) p'
        else Some (wrap w (result |: (byte << shift)), p')
      else None
  end.

Definition GetVarint16PtrFallback (p : list Z) : option (Z * list Z) := varint_loop 16 14 0 0 p.
Definition GetVarint32PtrFallback (p : list Z) : option (Z * list Z) := varint_loop 32 28 0 0 p.
Definition GetVarint64Ptr (p : list Z) : option (Z * list Z) := varint_loop 64 63 0 0 p.

Definition GetVarint32Ptr (p : list Z) : option (Z * list Z) :=
  match p with
  | result :: p' => if result & 128 =? 0 then Some (result, p') else GetVarint32PtrFallback p
  | [] => GetVarint32PtrFallback p
  end.

Definition GetVarint16Ptr (p : list Z) : option (Z * list Z) :=
  match p with
  | result :: p' => if result & 128 =? 0 then Some (result, p') else GetVarint16PtrFallback p
  | [] => GetVarint16PtrFallback p
  end.
End VarintDecode.

(** The [Slice] wrappers advance the slice on success and leave it on failure;
    the pair is the value and the advanced slice. *)
Definition GetVarint16 (input : list Z) : option (Z * list Z) := GetVarint16Ptr input.
Definition GetVarint32 (input : list Z) : option (Z * list Z) := GetVarint32Ptr input.
Definition GetVarint64 (input : list Z) : option (Z * list Z) := GetVarint64Ptr input.

(** Result slice and what follows it. *)
Definition GetLengthPrefixedSliceInplace (p : list Z) : option (list Z * list Z) :=
  '(len, p) ← GetVarint32Ptr p;
  if Z.of_nat (length p) <? len then None
  else Some (take (Z.to_nat len) p, drop (Z.to_nat len) p).

(** [false] with the slice already advanced when the length does not fit. *)
Definition GetLengthPrefixedSlice (input : list Z) : option (list Z) * list Z :=
  match GetVarint32 input with
  | Some (len, input) =>
      if len <=? Z.of_nat (length input) then
        (Some (take (Z.to_nat len) input), drop (Z.to_nat len) input)
      else (None, input)
  | None => (None, input)
  end.

(** ** Lemmas: fixed-width integers *)

Lemma length_le_bytes n v : length (le_bytes n v) = n.
Proof. revert v; induction n; intros; simpl; auto. Qed.

Lemma le_bytes_ok n v : bytes_ok (le_bytes n v).
Proof. revert v; induction n; intros; simpl; constructor; auto with kv. apply IHn. Qed.

Lemma le_value_le_bytes n v : le_value (le_bytes n v) = wrap (8 * Z.of_nat n) v.
Proof.
  revert v. induction n as [|n IH]; intros v; simpl le_bytes; cbn [le_value].
  - unfold wrap. by rewrite Z.mod_1_r.
  - rewrite IH. apply bits_ext; intros i Hi. unfold u8.
    rewrite Z.lor_spec, Z.shiftl_spec, (wrap_testbit 8), (wrap_testbit (8 * Z.of_nat (S n))) by lia.
    destruct (Z.ltb_spec i 8); simpl.
    + rewrite (Z.testbit_neg_r _ (i - 8)) by lia.
      destruct (Z.ltb_spec i (8 * Z.of_nat (S n))); [|lia]. by rewrite orb_false_r.
    + rewrite wrap_testbit, Z.shiftr_spec by lia. replace (i - 8 + 8) with i by lia.
      f_equal. destruct (Z.ltb_spec (i - 8) (8 * Z.of_nat n)),
        (Z.ltb_spec i (8 * Z.of_nat (S n))); lia.
Qed.

Lemma le_value_inj l1 l2 : bytes_ok l1 -> bytes_ok l2 -> length l1 = length l2 ->
  le_value l1 = le_value l2 -> l1 = l2.
Proof.
  intros H1. revert l2. induction H1 as [|b1 l1 Hb1 _ IH]; intros [|b2 l2] H2 Hlen Heq; try done.
  inversion H2 as [|?? Hb2 H2']; subst. cbn [le_value] in Heq. unfold byte_ok in *.
  rewrite !lor_disjoint_add in Heq by lia.
  f_equal; [|apply IH; [done| simpl in Hlen; lia|]]; lia.
Qed.

Lemma shiftr_shiftr8 v n : 0 <= n -> Z.shiftr (Z.shiftr v n) 8 = Z.shiftr v (n + 8).
Proof. intros. by apply Z.shiftr_shiftr. Qed.

Lemma land_ff v : Z.land v 0xff = u8 v.
Proof. unfold u8. rewrite wrap_land by lia. reflexivity. Qed.

(** Both arms of the [port::kLittleEndian] test store the same bytes. *)
Lemma EncodeFixed16_le e v : EncodeFixed16 e v = le_bytes 2 v.
Proof. destruct e; [done|]. cbn [EncodeFixed16 le_bytes]. by rewrite !land_ff. Qed.

Lemma EncodeFixed32_le e v : EncodeFixed32 e v = le_bytes 4 v.
Proof.
  destruct e; [done|]. cbn [EncodeFixed32 le_bytes].
  by rewrite !land_ff, !shiftr_shiftr8 by lia.
Qed.

Lemma EncodeFixed64_le e v : EncodeFixed64 e v = le_bytes 8 v.
Proof.
  destruct e; [done|]. cbn [EncodeFixed64 le_bytes].
  by rewrite !land_ff, !shiftr_shiftr8 by lia.
Qed.

Lemma length_EncodeFixed16 e v : length (EncodeFixed16 e v) = 2%nat.
Proof. rewrite EncodeFixed16_le. apply length_le_bytes. Qed.
Lemma length_EncodeFixed32 e v : length (EncodeFixed32 e v) = 4%nat.
Proof. rewrite EncodeFixed32_le. apply length_le_bytes. Qed.

Lemma le_value_4 p0 p1 p2 p3 :
  le_value [p0; p1; p2; p3] =
  Z.lor (Z.lor (Z.lor p0 (Z.shiftl p1 8)) (Z.shiftl p2 16)) (Z.shiftl p3 24).
Proof.
  cbn [le_value]. rewrite Z.shiftl_0_l, Z.lor_0_r.
  rewrite !Z.shiftl_lor, !Z.shiftl_shiftl by lia. simpl Z.add. by rewrite !Z.lor_assoc.
Qed.

(** The byte order of the machine does not change the decoded value either. *)
Lemma DecodeFixed16_le e p : DecodeFixed16 e p = DecodeFixed16 true p.
Proof.
  destruct e; [done|]. destruct p as [|p0 [|p1 p]]; try done. cbn [DecodeFixed16 le_value].
  by rewrite Z.shiftl_0_l, Z.lor_0_r.
Qed.

Lemma DecodeFixed32_le e p : DecodeFixed32 e p = DecodeFixed32 true p.
Proof.
  destruct e; [done|]. destruct p as [|p0 [|p1 [|p2 [|p3 p]]]]; try done.
  unfold DecodeFixed32. by rewrite le_value_4.
Qed.

Lemma DecodeFixed16_app e v rest :
  DecodeFixed16 e (EncodeFixed16 e v ++ rest) = Some (u16 v).
Proof.
  rewrite DecodeFixed16_le, EncodeFixed16_le. cbn [le_bytes app DecodeFixed16]. f_equal.
  apply (le_value_le_bytes 2 v).
Qed.

Lemma DecodeFixed32_app e v rest :
  DecodeFixed32 e (EncodeFixed32 e v ++ rest) = Some (u32 v).
Proof.
  rewrite DecodeFixed32_le, EncodeFixed32_le. cbn [le_bytes app DecodeFixed32]. f_equal.
  apply (le_value_le_bytes 4 v).
Qed.

#[export] Hint Rewrite length_EncodeFixed16 length_EncodeFixed32
  DecodeFixed16_app DecodeFixed32_app : kv.

(** ** Lemmas: varints *)

Lemma log2_shiftr7 v : 128 <= v -> Z.log2 (Z.shiftr v 7) = Z.log2 v - 7.
Proof.
  intros Hv. rewrite Z.log2_shiftr by lia.
  pose proof (Z.log2_le_mono 128 v Hv) as Hl. change (Z.log2 128) with 7 in Hl. lia.
Qed.

Lemma shiftr7_pos v : 128 <= v -> 0 < Z.shiftr v 7 < v.
Proof.
  intros Hv. rewrite Z.shiftr_div_pow2 by lia. change (2 ^ 7) with 128.
  split; [apply Z.div_str_pos; lia|apply Z.div_lt; lia].
Qed.

Lemma EncodeVarint64_loop_fuel f1 f2 v : 0 <= v ->
  Z.log2 v < Z.of_nat f1 -> Z.log2 v < Z.of_nat f2 ->
  EncodeVarint64_loop f1 v = EncodeVarint64_loop f2 v.
Proof.
  revert f2 v. induction f1 as [|f1 IH]; intros f2 v Hv H1 H2;
    [pose proof (Z.log2_nonneg v); lia|].
  destruct f2 as [|f2]; [pose proof (Z.log2_nonneg v); lia|]. simpl.
  destruct (Z.leb_spec 128 v) as [Hge|]; [|done]. f_equal.
  pose proof (shiftr7_pos v Hge). pose proof (log2_shiftr7 v Hge). apply IH; lia.
Qed.

(** The fuel is enough: one unfolding of the source's loop. *)
Lemma EncodeVarint64_eq v : 0 <= v ->
  EncodeVarint64 v =
  if 128 <=? v then Z.lor (Z.land v 127) 128 :: EncodeVarint64 (Z.shiftr v 7) else [u8 v].
Proof.
  intros Hv. unfold EncodeVarint64 at 1. cbn [EncodeVarint64_loop].
  destruct (Z.leb_spec 128 v) as [Hge|]; [|done]. f_equal.
  pose proof (shiftr7_pos v Hge). pose proof (log2_shiftr7 v Hge).
  pose proof (Z.log2_nonneg (Z.shiftr v 7)).
  apply EncodeVarint64_loop_fuel; lia.
Qed.

Lemma VarintLength_loop_encode f v len : 0 <= v -> Z.log2 v < Z.of_nat f ->
  VarintLength_loop f v len = len - 1 + Z.of_nat (length (EncodeVarint64_loop f v)).
Proof.
  revert v len. induction f as [|f IH]; intros v len Hv Hf;
    [pose proof (Z.log2_nonneg v); lia|]. simpl.
  destruct (Z.leb_spec 128 v) as [Hge|]; [|simpl; lia].
  pose proof (shiftr7_pos v Hge). pose proof (log2_shiftr7 v Hge).
  rewrite IH by lia. simpl. lia.
Qed.

Lemma u8_lor128 v : u8 (Z.lor v 128) = Z.lor (Z.land v 127) 128.
Proof.
  apply bits_ext; intros i Hi. unfold u8. rewrite wrap_testbit, !Z.lor_spec, Z.land_spec by lia.
  change 127 with (Z.ones 7). change 128 with (2 ^ 7). rewrite Z.pow2_bits_eqb by lia.
  destruct (Z.lt_ge_cases i 7) as [Hlt|Hge].
  - rewrite Z.ones_spec_low by lia. destruct (Z.ltb_spec i 8); [|lia]. by rewrite andb_true_r.
  - rewrite Z.ones_spec_high, andb_false_r by lia.
    destruct (Z.eqb_spec 7 i); [subst; by rewrite orb_true_r|].
    destruct (Z.ltb_spec i 8); [lia|done].
Qed.

Lemma continuation_bits v : 0 <= v ->
  byte_ok (Z.lor (Z.land v 127) 128) /\
  (Z.land (Z.lor (Z.land v 127) 128) 128 =? 0) = false /\
  Z.land (Z.lor (Z.land v 127) 128) 127 = v mod 128.
Proof.
  intros Hv. assert (Hm : Z.land v 127 = v mod 128) by (apply (Z.land_ones v 7); lia).
  rewrite Hm. pose proof (Z.mod_pos_bound v 128 ltac:(lia)) as Hr.
  pose proof (forall_below 128 (fun x => (0 <=? Z.lor x 128) && (Z.lor x 128 <? 256) &&
    negb (Z.land (Z.lor x 128) 128 =? 0) && (Z.land (Z.lor x 128) 127 =? x))
    ltac:(vm_compute; reflexivity) (v mod 128) Hr) as H.
  cbv beta in H. b2p. unfold byte_ok. repeat split; try lia; by apply Z.eqb_neq.
Qed.

Lemma final_bits v : 0 <= v < 128 -> u8 v = v /\ (Z.land v 128 =? 0) = true.
Proof.
  intros Hv.
  pose proof (forall_below 128 (fun x => (u8 x =? x) && (Z.land x 128 =? 0))
    ltac:(vm_compute; reflexivity) v Hv) as H. cbv beta in H. b2p.
  split; [done|]. by apply Z.eqb_eq.
Qed.

(** Decoding what was encoded, from any intermediate loop state. *)
Lemma varint_loop_encode w bound v : 0 <= v -> forall k result rest,
  0 <= k -> (0 < v \/ k = 0) -> 0 <= result < 2 ^ (7 * k) ->
  result + v * 2 ^ (7 * k) < 2 ^ w -> 0 < w <= bound + 7 -> bound mod 7 = 0 ->
  varint_loop w bound (7 * k) result (EncodeVarint64 v ++ rest) =
  Some (result + v * 2 ^ (7 * k), rest).
Proof.
  intros Hv. pattern v. revert v Hv. apply Zlt_0_ind.
  intros v IH Hv k result rest Hk Hpos Hr Hw Hb Hb7.
  assert (Hp : 0 < 2 ^ (7 * k)) by (apply Z.pow_pos_nonneg; lia).
  assert (Hsh : 7 * k <= bound).
  { pose proof (Z.div_mod bound 7 ltac:(lia)). destruct Hpos as [Hpos | ->]; [|lia].
    assert (Hlt : 2 ^ (7 * k) < 2 ^ w) by nia. apply Z.pow_lt_mono_r_iff in Hlt; lia. }
  rewrite EncodeVarint64_eq by done. destruct (Z.leb_spec 128 v) as [Hge|Hlt].
  - destruct (continuation_bits v Hv) as (_ & Hc & Hlow).
    pose proof (shiftr7_pos v Hge) as Hs. cbn [app varint_loop]. rewrite Hc, Hlow. cbn [negb].
    destruct (Z.leb_spec (7 * k) bound); [|lia].
    rewrite lor_disjoint_add by lia.
    pose proof (Z.div_mod v 128 ltac:(lia)) as Hdm.
    pose proof (Z.mod_pos_bound v 128 ltac:(lia)) as Hmb.
    rewrite Z.shiftr_div_pow2 in * by lia. change (2 ^ 7) with 128 in *.
    assert (Hp7 : 2 ^ (7 * (k + 1)) = 128 * 2 ^ (7 * k)).
    { replace (7 * (k + 1)) with (7 + 7 * k) by lia. by rewrite Z.pow_add_r by lia. }
    rewrite wrap_small by nia. replace (7 * k + 7) with (7 * (k + 1)) by lia.
    rewrite IH; [| lia | lia | left; lia | rewrite Hp7; nia | rewrite Hp7; nia | lia | done].
    rewrite Hp7. do 2 f_equal. nia.
  - destruct (final_bits v ltac:(lia)) as [-> Hz]. cbn [app varint_loop]. rewrite Hz.
    destruct (Z.leb_spec (7 * k) bound); [|lia]. cbn [negb].
    rewrite lor_disjoint_add by lia. by rewrite wrap_small by nia.
Qed.

(** The loop never produces more than [w] bits, and only consumes a prefix. *)
Lemma varint_loop_sound w bound : 0 <= w -> forall p shift result v rest,
  varint_loop w bound shift result p = Some (v, rest) ->
  0 <= v < 2 ^ w /\ exists used, p = used ++ rest /\ used <> [] /\
  shift + 7 * (Z.of_nat (length used) - 1) <= bound.
Proof.
  intros Hw. induction p as [|b p IH]; intros shift result v rest; simpl; [done|].
  destruct (Z.leb_spec shift bound); [|done].
  destruct (Z.land b 128 =? 0); cbn [negb]; intros H'.
  - simplify_eq. split; [by apply wrap_range|]. exists [b]. simpl. repeat split; auto. lia.
  - apply IH in H' as [Hv (used & -> & Hne & Hlen)]. split; [done|].
    exists (b :: used). simpl length. repeat split; auto. lia.
Qed.

Lemma EncodeVarint64_shift n m v : 0 <= v -> 0 <= n -> m = n + 7 ->
  EncodeVarint64 (Z.shiftr v n) =
  if v <? Z.shiftl 1 m then [u8 (Z.shiftr v n)]
  else u8 (Z.lor (Z.shiftr v n) 128) :: EncodeVarint64 (Z.shiftr v m).
Proof.
  intros Hv Hn ->. assert (Hs : 0 <= Z.shiftr v n) by (by apply Z.shiftr_nonneg).
  rewrite EncodeVarint64_eq by done.
  rewrite u8_lor128, Z.shiftr_shiftr, Z.shiftl_mul_pow2, Z.mul_1_l by lia.
  assert (Heq : (128 <=? Z.shiftr v n) = negb (v <? 2 ^ (n + 7))).
  { rewrite Z.shiftr_div_pow2, Z.pow_add_r by lia. change (2 ^ 7) with 128.
    assert (0 < 2 ^ n) by lia.
    destruct (Z.leb_spec 128 (v / 2 ^ n)) as [Hge|Hlt], (Z.ltb_spec v (2 ^ n * 128)); simpl; try done.
    - assert (v / 2 ^ n < 128) by (by apply Z.div_lt_upper_bound). lia.
    - assert (128 <= v / 2 ^ n) by (by apply Z.div_le_lower_bound). lia. }
  rewrite Heq. by destruct (v <? 2 ^ (n + 7)).
Qed.

(** The unrolled encoders write what the loop of [EncodeVarint64] writes. *)
#[local] Opaque EncodeVarint64.

Lemma EncodeVarint16_64 v : 0 <= v < 2 ^ 16 -> EncodeVarint16 v = EncodeVarint64 v.
Proof.
  intros Hv. pose proof (EncodeVarint64_shift 0 7 v) as H0. rewrite Z.shiftr_0_r in H0.
  rewrite H0, (EncodeVarint64_shift 7 14), (EncodeVarint64_shift 14 21) by lia.
  unfold EncodeVarint16. change (Z.shiftl 1 21) with 2097152.
  destruct (Z.ltb_spec v 2097152); [|lia]. split_match; reflexivity.
Qed.

Lemma EncodeVarint32_64 v : 0 <= v < 2 ^ 32 -> EncodeVarint32 v = EncodeVarint64 v.
Proof.
  intros Hv. pose proof (EncodeVarint64_shift 0 7 v) as H0. rewrite Z.shiftr_0_r in H0.
  rewrite H0, (EncodeVarint64_shift 7 14), (EncodeVarint64_shift 14 21), (EncodeVarint64_shift 21 28),
    (EncodeVarint64_shift 28 35) by lia.
  unfold EncodeVarint32. change (Z.shiftl 1 35) with 34359738368.
  destruct (Z.ltb_spec v 34359738368); [|lia]. split_match; reflexivity.
Qed.

Lemma length_EncodeVarint64 v n : 0 <= v < 2 ^ (7 * Z.of_nat n) -> (0 < n)%nat ->
  (length (EncodeVarint64 v) <= n)%nat.
Proof.
  revert v. induction n as [|n IH]; [lia|]. intros v Hv _.
  rewrite EncodeVarint64_eq by lia. destruct (Z.leb_spec 128 v) as [Hge|]; simpl; [|lia].
  pose proof (shiftr7_pos v Hge) as Hs. rewrite Z.shiftr_div_pow2 in * by lia.
  change (2 ^ 7) with 128 in *.
  replace (7 * Z.of_nat (S n)) with (7 + 7 * Z.of_nat n) in Hv by lia.
  rewrite Z.pow_add_r in Hv by lia. change (2 ^ 7) with 128 in *.
  destruct n as [|n]; [simpl in Hv; lia|].
  apply le_n_S, IH; [|lia]. split; [lia|]. apply Z.div_lt_upper_bound; lia.
Qed.

Lemma EncodeVarint64_bytes_ok v : 0 <= v -> bytes_ok (EncodeVarint64 v).
Proof.
  intros Hv. pattern v. revert v Hv. apply Zlt_0_ind. intros v IH Hv.
  rewrite EncodeVarint64_eq by done. destruct (Z.leb_spec 128 v) as [Hge|].
  - pose proof (shiftr7_pos v Hge). constructor; [apply (continuation_bits v Hv)|apply IH; lia].
  - constructor; auto with kv.
Qed.

(** The fast path of the 16- and 32-bit decoders agrees with the loop. *)
Lemma fast_path w bound p : 8 <= w -> 0 <= bound -> bytes_ok p ->
  match p with
  | b :: p' => if Z.land b 128 =? 0 then Some (b, p') else varint_loop w bound 0 0 p
  | [] => varint_loop w bound 0 0 p
  end = varint_loop w bound 0 0 p.
Proof.
  intros Hw Hb Hp. destruct p as [|b p]; [done|].
  cbn [varint_loop]. destruct (Z.land b 128 =? 0) eqn:E; [|done]. cbn [negb].
  destruct (Z.leb_spec 0 bound); [|lia]. rewrite Z.lor_0_l, Z.shiftl_0_r.
  inversion Hp as [|?? Hbok]; subst. unfold byte_ok in Hbok. rewrite wrap_small; [done|].
  pose proof (Z.pow_le_mono_r 2 8 w ltac:(lia) Hw). change (2 ^ 8) with 256 in *. lia.
Qed.

Lemma GetVarint_encode w bound v rest : 0 <= v < 2 ^ w -> 0 < w <= bound + 7 -> bound mod 7 = 0 ->
  varint_loop w bound 0 0 (EncodeVarint64 v ++ rest) = Some (v, rest).
Proof.
  intros Hv Hw Hb. pose proof (varint_loop_encode w bound v ltac:(lia) 0 0 rest) as H.
  change (7 * 0) with 0 in H. rewrite H; simpl; try lia. do 2 f_equal. lia.
Qed.

(** The fast path on encoded bytes. *)
Lemma GetVarint32_app v rest : 0 <= v < 2 ^ 32 ->
  GetVarint32 (EncodeVarint32 v ++ rest) = Some (v, rest).
Proof.
  intros Hv. rewrite EncodeVarint32_64 by done.
  unfold GetVarint32, GetVarint32Ptr, GetVarint32PtrFallback.
  pose proof (GetVarint_encode 32 28 v rest Hv ltac:(lia) ltac:(done)) as Hl.
  rewrite EncodeVarint64_eq in * by lia. destruct (Z.leb_spec 128 v) as [Hge|].
  - destruct (continuation_bits v ltac:(lia)) as (_ & Hc & _). cbn [app] in *. by rewrite Hc.
  - destruct (final_bits v ltac:(lia)) as [Hu Hz]. cbn [app] in *. rewrite Hu in *. by rewrite Hz.
Qed.

Lemma GetVarint16_app v rest : 0 <= v < 2 ^ 16 ->
  GetVarint16 (EncodeVarint16 v ++ rest) = Some (v, rest).
Proof.
  intros Hv. rewrite EncodeVarint16_64 by done.
  unfold GetVarint16, GetVarint16Ptr, GetVarint16PtrFallback.
  pose proof (GetVarint_encode 16 14 v rest Hv ltac:(lia) ltac:(done)) as Hl.
  rewrite EncodeVarint64_eq in * by lia. destruct (Z.leb_spec 128 v) as [Hge|].
  - destruct (continuation_bits v ltac:(lia)) as (_ & Hc & _). cbn [app] in *. by rewrite Hc.
  - destruct (final_bits v ltac:(lia)) as [Hu Hz]. cbn [app] in *. rewrite Hu in *. by rewrite Hz.
Qed.

Lemma GetVarint64_app v rest : 0 <= v < 2 ^ 64 ->
  GetVarint64 (EncodeVarint64 v ++ rest) = Some (v, rest).
Proof. intros Hv. by apply (GetVarint_encode 64 63). Qed.

Lemma VarintLength_length v : 0 <= v -> VarintLength v = Z.of_nat (length (EncodeVarint64 v)).
Proof.
  intros Hv. unfold VarintLength. rewrite VarintLength_loop_encode by (pose proof (Z.log2_nonneg v); lia).
  change (EncodeVarint64_loop _ v) with (EncodeVarint64 v). lia.
Qed.

Lemma DecodeFixed64_le e p : bytes_ok p -> DecodeFixed64 e p = DecodeFixed64 true p.
Proof.
  intros Hp. destruct e; [done|]. unfold DecodeFixed64.
  rewrite (DecodeFixed32_le false p), (DecodeFixed32_le false (drop 4 p)).
  destruct p as [|p0 [|p1 [|p2 [|p3 [|p4 [|p5 [|p6 [|p7 p]]]]]]]]; try done.
  cbn [DecodeFixed32 drop mbind option_bind length Nat.leb take].
  unfold u64. rewrite wrap_small.
  - f_equal. cbn [le_value]. rewrite !Z.shiftl_0_l, !Z.lor_0_r, !Z.shiftl_lor, !Z.shiftl_shiftl by lia.
    simpl Z.add. rewrite Z.lor_comm, !Z.lor_assoc. done.
  - assert (H : 0 <= le_value [p4; p5; p6; p7] < 2 ^ 32).
    { unfold bytes_ok, byte_ok in Hp. rewrite !Forall_cons in Hp. cbn [le_value]. rewrite Z.shiftl_0_l, Z.lor_0_r.
      rewrite !(lor_disjoint_add _ _ 8) by lia. lia. }
    rewrite Z.shiftl_mul_pow2 by lia. lia.
Qed.

Lemma DecodeFixed64_app e v rest : bytes_ok rest ->
  DecodeFixed64 e (EncodeFixed64 e v ++ rest) = Some (u64 v).
Proof.
  intros Hr. rewrite EncodeFixed64_le, DecodeFixed64_le
    by (apply Forall_app; split; [apply le_bytes_ok|done]).
  cbn [le_bytes app DecodeFixed64 length Nat.leb take]. f_equal. apply (le_value_le_bytes 8 v).
Qed.

Lemma GetLengthPrefixedSlice_app s rest : Z.of_nat (length s) < 2 ^ 32 ->
  GetLengthPrefixedSlice (PutLengthPrefixedSlice [] s ++ rest) = (Some s, rest).
Proof.
  intros Hs. unfold GetLengthPrefixedSlice, PutLengthPrefixedSlice, PutVarint32. cbn [app].
  unfold u32. rewrite wrap_small, <- app_assoc, GetVarint32_app by lia.
  rewrite length_app. destruct (Z.leb_spec (Z.of_nat (length s)) (Z.of_nat (length s + length rest))); [|lia].
  rewrite Nat2Z.id. f_equal; [f_equal; by apply take_app_exact|by apply drop_app_exact].
Qed.

(** ** The sequence of slices a record is made of *)

(** [PutLengthPrefixedSlice] called once per field. *)
Definition PutSlices (dst : list Z) (fields : list (list Z)) : list Z :=
  fold_left PutLengthPrefixedSlice fields dst.

(** [GetLengthPrefixedSlice] called [n] times, stopping at the first failure. *)
Fixpoint GetSlices (n : nat) (input : list Z) : option (list (list Z)) * list Z :=
  match n with
  | O => (Some [], input)
  | S n' =>
      match GetLengthPrefixedSlice input with
      | (Some s, input) =>
          let '(r, input) := GetSlices n' input in (option_map (cons s) r, input)
      | (None, input) => (None, input)
      end
  end.

Lemma PutLengthPrefixedSlice_dst dst s :
  PutLengthPrefixedSlice dst s = dst ++ PutLengthPrefixedSlice [] s.
Proof. unfold PutLengthPrefixedSlice, PutVarint32. by rewrite <- app_assoc. Qed.

Lemma PutSlices_cons dst s fields :
  PutSlices dst (s :: fields) = PutSlices (PutLengthPrefixedSlice dst s) fields.
Proof. reflexivity. Qed.

Lemma PutSlices_dst fields dst : PutSlices dst fields = dst ++ PutSlices [] fields.
Proof.
  revert dst. induction fields as [|f fields IH]; intros dst; [by rewrite app_nil_r|].
  rewrite !PutSlices_cons, IH, (IH (PutLengthPrefixedSlice [] f)).
  by rewrite PutLengthPrefixedSlice_dst, <- app_assoc.
Qed.

(** ** Properties *)

(** C32: every varint encoder is undone by its decoder, whatever bytes follow,
    and the decoder stops exactly at the end of the encoding. *)
Theorem varint_roundtrip (v : Z) (rest : list Z) :
  0 <= v ->
  (v < 2 ^ 16 -> GetVarint16 (EncodeVarint16 v ++ rest) = Some (v, rest)) /\
  (v < 2 ^ 32 -> GetVarint32 (EncodeVarint32 v ++ rest) = Some (v, rest)) /\
  (v < 2 ^ 64 -> GetVarint64 (EncodeVarint64 v ++ rest) = Some (v, rest)).
Proof.
  intros Hv. split; [|split]; intros;
    auto using GetVarint16_app, GetVarint32_app, GetVarint64_app.
Qed.

Lemma varint_roundtrip_witness :
  GetVarint32 (EncodeVarint32 300 ++ [7]) = Some (300, [7]) /\ EncodeVarint32 300 = [172; 2].
Proof.
  destruct (varint_roundtrip 300 [7] ltac:(lia)) as (_ & H & _).
  split; [apply H; lia | reflexivity].
Defined.

(** The unrolled 16- and 32-bit encoders and [VarintLength] agree with the
    64-bit loop: same bytes, and the predicted length, at most 3, 5 and 10
    bytes, which is what the stack buffers of the [Put] functions hold. *)
Theorem varint_encoders_agree (v : Z) :
  0 <= v < 2 ^ 64 ->
  (v < 2 ^ 16 -> EncodeVarint16 v = EncodeVarint64 v /\ (length (EncodeVarint16 v) <= 3)%nat) /\
  (v < 2 ^ 32 -> EncodeVarint32 v = EncodeVarint64 v /\ (length (EncodeVarint32 v) <= 5)%nat) /\
  VarintLength v = Z.of_nat (length (EncodeVarint64 v)) /\ (length (EncodeVarint64 v) <= 10)%nat /\
  bytes_ok (EncodeVarint64 v).
Proof.
  intros Hv. split; [|split; [|split; [|split]]].
  - intros. rewrite EncodeVarint16_64 by lia. split; [done|]. apply length_EncodeVarint64; lia.
  - intros. rewrite EncodeVarint32_64 by lia. split; [done|]. apply length_EncodeVarint64; lia.
  - apply VarintLength_length; lia.
  - apply length_EncodeVarint64; lia.
  - apply EncodeVarint64_bytes_ok; lia.
Qed.

(** C33: on any input, also a malformed one, a varint decoder that succeeds
    returns a value of its width and has consumed a non-empty prefix of at
    most 3, 5 or 10 bytes; it never moves past the limit. *)
Theorem varint_decoders_bounded (p : list Z) (v : Z) (rest : list Z) :
  bytes_ok p ->
  (GetVarint16 p = Some (v, rest) -> 0 <= v < 2 ^ 16 /\
     exists used, p = used ++ rest /\ (1 <= length used <= 3)%nat) /\
  (GetVarint32 p = Some (v, rest) -> 0 <= v < 2 ^ 32 /\
     exists used, p = used ++ rest /\ (1 <= length used <= 5)%nat) /\
  (GetVarint64 p = Some (v, rest) -> 0 <= v < 2 ^ 64 /\
     exists used, p = used ++ rest /\ (1 <= length used <= 10)%nat).
Proof.
  intros Hp.
  assert (Hgen : forall w bound (n : nat), 0 <= w -> bound = 7 * Z.of_nat n ->
    varint_loop w bound 0 0 p = Some (v, rest) ->
    0 <= v < 2 ^ w /\ exists used, p = used ++ rest /\ (1 <= length used <= S n)%nat).
  { intros w bound n Hw Hn H. apply varint_loop_sound in H as [Hv (used & -> & Hne & Hl)]; [|done].
    split; [done|]. exists used. split; [done|]. destruct used; [done|]. simpl length in *. lia. }
  split; [|split].
  - unfold GetVarint16, GetVarint16Ptr, GetVarint16PtrFallback. rewrite fast_path by (done || lia).
    by apply (Hgen 16 14 2%nat).
  - unfold GetVarint32, GetVarint32Ptr, GetVarint32PtrFallback. rewrite fast_path by (done || lia).
    by apply (Hgen 32 28 4%nat).
  - by apply (Hgen 64 63 9%nat).
Qed.

Lemma varint_decoders_bounded_witness :
  exists used, [172; 2; 9] = used ++ [9] /\ (1 <= length used <= 5)%nat.
Proof.
  apply (varint_decoders_bounded [172; 2; 9] 300 [9]); [|reflexivity].
  repeat constructor; unfold byte_ok; lia.
Defined.

(** The fixed-width encoders store the same bytes on machines of either
    byte order, and the decoders return the stored value modulo the width. *)
Theorem fixed_roundtrip (e e' : bool) (v : Z) (rest : list Z) :
  bytes_ok rest ->
  DecodeFixed16 e' (PutFixed16 e [] v ++ rest) = Some (u16 v) /\
  DecodeFixed32 e' (PutFixed32 e [] v ++ rest) = Some (u32 v) /\
  DecodeFixed64 e' (PutFixed64 e [] v ++ rest) = Some (u64 v).
Proof.
  intros Hr. unfold PutFixed16, PutFixed32, PutFixed64. cbn [app].
  rewrite EncodeFixed16_le, EncodeFixed32_le, EncodeFixed64_le.
  rewrite <- (EncodeFixed16_le e'), <- (EncodeFixed32_le e'), <- (EncodeFixed64_le e').
  auto using DecodeFixed16_app, DecodeFixed32_app, DecodeFixed64_app.
Qed.

(** A record written field by field with [PutLengthPrefixedSlice] is read
    back field by field, leaving exactly the bytes that follow it. *)
Theorem slices_roundtrip (fields : list (list Z)) (rest : list Z) :
  Forall (fun s => Z.of_nat (length s) < 2 ^ 32) fields ->
  GetSlices (length fields) (PutSlices [] fields ++ rest) = (Some fields, rest).
Proof.
  induction 1 as [|s fields Hs _ IH]; [done|]. rewrite PutSlices_cons, PutSlices_dst. cbn [length GetSlices].
  rewrite <- app_assoc, GetLengthPrefixedSlice_app by done. by rewrite IH.
Qed.

