(* ===== verification/WriteBatch.v ===== *)
(** * Write batches

    Models WriteBatch of src/insdb/db/write_batch.cc: the batch is one byte
    string, a 32-bit count followed by the records of the updates in the order
    they were added, which [Iterate] hands to a handler and
    [GetEntryFromDataOffset] reads one by one.

    The promise is that of a list of updates: [batch_ops_refine_list] relates
    the operations to the list, [iterate_replays] the iteration. *)

From Stdlib Require Import ZArith Lia Bool String.
From stdpp Require Import base list.
From S2P Require Import Prelude Coding.
Local Open Scope Z_scope.

(** ** The format *)

(** [enum ValueType] of dbformat.h. *)
Definition kTypeDeletion : Z := 0x0.
Definition kTypeValue : Z := 0x1.
Definition kTypeMerge : Z := 0x2.

Definition kHeader : nat := 4.

(** The [Status] values the batch returns; a merge may return any of them. *)
Inductive Status : Type :=
  | OK
  | NotFound (msg : string)
  | Corruption (msg : string)
  | NotSupported (msg : string)
  | NotAvailable (msg : string)
  | InvalidArgument (msg : string)
  | IOError (msg : string).
#[export] Instance Status_eq : EqDecision Status.
Proof. solve_decision. Defined.

(** [enum WriteType]; the batch uses the first three. *)
Inductive WriteType : Type :=
  | kPutRecord | kMergeRecord | kDeleteRecord | kSingleDeleteRecord | kDeleteRangeRecord | kLogDataRecord | kXIDRecord.

(** [WriteBatch::Handler] over the state [S] of the object behind it. *)
Record Handler (S : Type) : Type := {
  h_put : list Z -> list Z -> Z -> S -> S;
  h_merge : list Z -> list Z -> Z -> S -> S * Status;
  h_delete : list Z -> Z -> S -> S;
  h_continue : S -> bool;
}.
Arguments h_put {S}.
Arguments h_merge {S}.
Arguments h_delete {S}.
Arguments h_continue {S}.

(** [Slice::remove_prefix]: beyond the end the [assert] fails. *)
Definition remove_prefix (n : nat) (input : list Z) : option (list Z) :=
  if (n <=? length input)%nat then Some (drop n input) else None.

(** [WriteBatch::Clear]. *)
Definition Clear : list Z := replicate kHeader 0.
(** [ResizeData]: [std::string::resize]. *)
Definition ResizeData (rep : list Z) (size : nat) : list Z := take size rep ++ replicate (size - length rep) 0.
Definition ApproximateSize (rep : list Z) : nat := length rep.
Definition GetFirstOffset : nat := kHeader.

Section Batch.
  (** [port::kLittleEndian]. *)
  Variable e : bool.

Definition Count (rep : list Z) : option Z := DecodeFixed32 e rep.

(** [EncodeFixed32(&rep_[0], n)]: the string has room for it. *)
Definition SetCount (rep : list Z) (n : Z) : option (list Z) :=
  if (kHeader <=? length rep)%nat then Some (EncodeFixed32 e n ++ drop kHeader rep) else None.

Definition Append (rep src : list Z) : option (list Z) :=
  c1 ← Count rep;
  c2 ← Count src;
  rep ← SetCount rep (u32 (c1 + c2));
  Some (rep ++ drop kHeader src).

(** The count goes up by one. *)
Definition bump_count (rep : list Z) : option (list Z) := n ← DecodeFixed32 e rep; SetCount rep (u32 (n + 1)).

(** [key.size()] is a [size_t] passed as a [uint32_t]. *)
Definition put_string (rep s : list Z) : list Z := PutFixed32 e rep (u32 (Z.of_nat (length s))) ++ s.

Definition Put (rep key value : list Z) (col_id : Z) : option (list Z) :=
  rep ← bump_count rep;
  Some (PutFixed16 e (put_string (put_string (rep ++ [kTypeValue]) key) value) col_id).

Definition Merge (rep key value : list Z) (col_id : Z) : option (list Z) :=
  rep ← bump_count rep;
  Some (PutFixed16 e (put_string (put_string (rep ++ [kTypeMerge]) key) value) col_id).

Definition Delete (rep key : list Z) (col_id : Z) : option (list Z) :=
  rep ← bump_count rep;
  Some (PutFixed16 e (put_string (rep ++ [kTypeDeletion]) key) col_id).

(** ** Reading *)

(** [len = DecodeFixed32(...); assert(len <= input.size()); remove_prefix(4);
    Slice(data, len); remove_prefix(len)]. *)
Definition read_string (input : list Z) : option (list Z * list Z) :=
  len ← DecodeFixed32 e input;
  if Z.of_nat (length input) <? len then None else
  input ← remove_prefix 4 input;
  rest ← remove_prefix (Z.to_nat len) input;
  Some (take (Z.to_nat len) input, rest).

Definition read_col (input : list Z) : option (Z * list Z) :=
  col_id ← DecodeFixed16 e input;
  rest ← remove_prefix 2 input;
  Some (col_id, rest).

(** The body of the loop of [Iterate] after the tag: the handler's new state,
    the rest of the input, and the status when the function returns there. *)
Definition Iterate_record {S} (h : Handler S) (s : S) (tag : Z) (input : list Z) : option (S * (Status + list Z)) :=
  '(key, input) ← read_string input;
  if tag =? kTypeValue then
    '(value, input) ← read_string input;
    '(col_id, input) ← read_col input;
    Some (h_put h key value col_id s, inr input)
  else if tag =? kTypeMerge then
    '(value, input) ← read_string input;
    '(col_id, input) ← read_col input;
    let '(s, st) := h_merge h key value col_id s in
    Some (s, match st with OK => inr input | _ => inl st end)
  else if tag =? kTypeDeletion then
    '(col_id, input) ← read_col input;
    Some (h_delete h key col_id s, inr input)
  else Some (s, inl (Corruption "unknown WriteBatch tag")).

(** [while (!input.empty() && handler->Continue())]: the number of records and
    the status when the function returns inside the loop.  Every iteration takes
    the tag off the input. *)
Fixpoint Iterate_loop {S} (h : Handler S) (fuel : nat) (s : S) (input : list Z) (found : Z) : option (S * (Status + Z)) :=
  match fuel, input with
  | _, [] => Some (s, inr found)
  | O, _ => None
  | Datatypes.S fuel', tag :: input =>
      if h_continue h s then
        '(s, r) ← Iterate_record h s tag input;
        match r with
        | inl st => Some (s, inl st)
        | inr input => Iterate_loop h fuel' s input (found + 1)
        end
      else Some (s, inr found)
  end.

(** [None] is an access beyond the buffer or a failed [assert]. *)
Definition Iterate {S} (h : Handler S) (rep : list Z) (s : S) : option (S * Status) :=
  if (length rep <? kHeader)%nat then Some (s, Corruption "malformed WriteBatch (too small)")
  else
    '(s, r) ← Iterate_loop h (length rep) s (drop kHeader rep) 0;
    match r with
    | inl st => Some (s, st)
    | inr found =>
        n ← DecodeFixed32 e rep;
        Some (s, if negb (u32 found =? n) then Corruption "WriteBatch has wrong count" else OK)
    end.

(** What [ReadRecordFromWriteBatch] returns and writes to its output
    parameters; [None] is a parameter it leaves alone. *)
Record record_out : Type := {
  ro_status : Status;
  ro_tag : Z;
  ro_column_family : Z;
  ro_key : list Z;
  ro_value : option (list Z);
  ro_input : list Z;
}.

Definition ReadRecordFromWriteBatch (input : list Z) : option record_out :=
  match input with
  | [] => None
  | tag :: input =>
      '(key, input) ← read_string input;
      if (tag =? kTypeValue) || (tag =? kTypeMerge) then
        '(value, input) ← read_string input;
        '(col_id, input) ← read_col input;
        Some {| ro_status := OK; ro_tag := tag; ro_column_family := col_id; ro_key := key; ro_value := Some value; ro_input := input |}
      else if tag =? kTypeDeletion then
        '(col_id, input) ← read_col input;
        Some {| ro_status := OK; ro_tag := tag; ro_column_family := col_id; ro_key := key; ro_value := None; ro_input := input |}
      else
        Some {| ro_status := Corruption "unknown WriteBatch tag"; ro_tag := tag; ro_column_family := 0; ro_key := key;
                ro_value := None; ro_input := input |}
  end.

(** The status, and the type, key and value it has set.  [outputs] says that no
    output parameter is NULL. *)
Definition GetEntryFromDataOffset (outputs : bool) (rep : list Z) (data_offset : nat) :
    option (Status * option (WriteType * list Z * option (list Z))) :=
  if negb outputs then Some (InvalidArgument "Output parameters cannot be null", None)
  else if (data_offset =? length rep)%nat then Some (NotFound "reached end of batch", None)
  else if (length rep <? data_offset)%nat then Some (InvalidArgument "data offset exceed write batch size", None)
  else
    r ← ReadRecordFromWriteBatch (drop data_offset rep);
    let out ty := Some (OK, Some (ty, ro_key r, ro_value r)) in
    if ro_tag r =? kTypeValue then out kPutRecord
    else if ro_tag r =? kTypeDeletion then out kDeleteRecord
    else if ro_tag r =? kTypeMerge then out kMergeRecord
    else Some (Corruption "unknown WriteBatch tag", None).

Definition ReadKeyFromWriteBatchEntry (input : list Z) : option (list Z * list Z) :=
  input ← remove_prefix 1 input;
  read_string input.
End Batch.

(** ** The specification: a list of updates *)

Inductive update : Type :=
  | UPut (key value : list Z) (col_id : Z)
  | UMerge (key value : list Z) (col_id : Z)
  | UDelete (key : list Z) (col_id : Z).

Definition string_ok (s : list Z) : Prop := Z.of_nat (length s) < 2 ^ 32.
Definition update_ok (u : update) : Prop :=
  match u with
  | UPut k v c | UMerge k v c => string_ok k /\ string_ok v /\ 0 <= c < 2 ^ 16
  | UDelete k c => string_ok k /\ 0 <= c < 2 ^ 16
  end.

(** Operations on a batch; [BAppend] appends a batch made by other operations. *)
Inductive batch_op : Type :=
  | BClear
  | BUpdate (u : update)
  | BAppend (us : list update).

Definition spec_op (us : list update) (o : batch_op) : list update :=
  match o with BClear => [] | BUpdate u => us ++ [u] | BAppend us' => us ++ us' end.

(** A handler's run over the updates: its state, how many it was given and the
    status of the merge that failed. *)
Fixpoint replay {S} (h : Handler S) (us : list update) (s : S) (n : Z) : S * (Status + Z) :=
  match us with
  | [] => (s, inr n)
  | u :: us' =>
      if h_continue h s then
        match u with
        | UPut k v c => replay h us' (h_put h k v c s) (n + 1)
        | UDelete k c => replay h us' (h_delete h k c s) (n + 1)
        | UMerge k v c =>
            let '(s, st) := h_merge h k v c s in
            match st with OK => replay h us' s (n + 1) | _ => (s, inl st) end
        end
      else (s, inr n)
  end.

Section Refinement.
  Variable e : bool.

(** What the string holds for a list of updates. *)
Definition encode_string (s : list Z) : list Z := EncodeFixed32 e (u32 (Z.of_nat (length s))) ++ s.

Definition encode_update (u : update) : list Z :=
  match u with
  | UPut k v c => kTypeValue :: encode_string k ++ encode_string v ++ EncodeFixed16 e c
  | UMerge k v c => kTypeMerge :: encode_string k ++ encode_string v ++ EncodeFixed16 e c
  | UDelete k c => kTypeDeletion :: encode_string k ++ EncodeFixed16 e c
  end.

Definition encode_updates (us : list update) : list Z := concat (map encode_update us).

Definition rep_of (us : list update) : list Z := EncodeFixed32 e (u32 (Z.of_nat (length us))) ++ encode_updates us.

(** The operation on the string. *)
Definition run_update (rep : list Z) (u : update) : option (list Z) :=
  match u with
  | UPut k v c => Put e rep k v c
  | UMerge k v c => Merge e rep k v c
  | UDelete k c => Delete e rep k c
  end.

(** [for (u : us) batch.run(u)]. *)
Fixpoint run_updates (rep : list Z) (us : list update) : option (list Z) :=
  match us with [] => Some rep | u :: us' => rep ← run_update rep u; run_updates rep us' end.

Definition run_op (rep : list Z) (o : batch_op) : option (list Z) :=
  match o with
  | BClear => Some Clear
  | BUpdate u => run_update rep u
  | BAppend us => src ← run_updates Clear us; Append e rep src
  end.

Fixpoint run_ops (rep : list Z) (os : list batch_op) : option (list Z) :=
  match os with [] => Some rep | o :: os' => rep ← run_op rep o; run_ops rep os' end.

(** ** Lemmas *)

Lemma take_encoded32 n l : take 4 (EncodeFixed32 e n ++ l) = EncodeFixed32 e n.
Proof. apply take_app_exact, length_EncodeFixed32. Qed.
Lemma drop_encoded32 n l : drop 4 (EncodeFixed32 e n ++ l) = l.
Proof. apply drop_app_exact, length_EncodeFixed32. Qed.

Lemma length_rep_of us : (4 <= length (rep_of us))%nat.
Proof. unfold rep_of. rewrite length_app, length_EncodeFixed32. lia. Qed.

Lemma drop_rep_of us : drop kHeader (rep_of us) = encode_updates us.
Proof. apply drop_encoded32. Qed.

Lemma count_rep_of us : DecodeFixed32 e (rep_of us) = Some (u32 (Z.of_nat (length us))).
Proof. unfold rep_of. rewrite DecodeFixed32_app. by rewrite (wrap_small 32 (u32 _)) by (apply wrap_range; lia). Qed.

Lemma SetCount_rep_of us n : SetCount e (rep_of us) n = Some (EncodeFixed32 e n ++ encode_updates us).
Proof.
  unfold SetCount. pose proof (length_rep_of us). rewrite (proj2 (Nat.leb_le _ _)) by (unfold kHeader; lia). by rewrite drop_rep_of.
Qed.

Lemma encode_updates_app us us' : encode_updates (us ++ us') = encode_updates us ++ encode_updates us'.
Proof. unfold encode_updates. by rewrite map_app, concat_app. Qed.

Lemma u32_add x y : u32 (u32 x + y) = u32 (x + y).
Proof. unfold u32, wrap. by rewrite Zplus_mod_idemp_l. Qed.

Lemma bump_rep_of us : bump_count e (rep_of us) =
  Some (EncodeFixed32 e (u32 (Z.of_nat (length us) + 1)) ++ encode_updates us).
Proof. unfold bump_count. rewrite count_rep_of. simpl. by rewrite SetCount_rep_of, u32_add. Qed.

Lemma put_string_eq rep s : put_string e rep s = rep ++ encode_string s.
Proof. unfold put_string, encode_string, PutFixed32. by rewrite app_assoc. Qed.

Lemma rep_of_snoc us u : rep_of (us ++ [u]) =
  EncodeFixed32 e (u32 (Z.of_nat (length us) + 1)) ++ encode_updates us ++ encode_update u.
Proof.
  unfold rep_of. rewrite encode_updates_app, length_app. unfold encode_updates at 2. simpl. rewrite app_nil_r. do 3 f_equal. lia.
Qed.

Lemma run_update_rep us u : run_update (rep_of us) u = Some (rep_of (us ++ [u])).
Proof.
  rewrite rep_of_snoc. destruct u as [k v c|k v c|k c]; simpl; unfold Put, Merge, Delete; rewrite bump_rep_of; simpl;
    rewrite !put_string_eq; unfold PutFixed16; rewrite <- !app_assoc; done.
Qed.

Lemma run_updates_rep us' : forall us, run_updates (rep_of us) us' = Some (rep_of (us ++ us')).
Proof.
  induction us' as [|u us' IH]; intros us; simpl; [by rewrite app_nil_r|].
  rewrite run_update_rep. simpl. rewrite IH, <- app_assoc. done.
Qed.

Lemma Clear_rep : Clear = rep_of [].
Proof. unfold rep_of. rewrite EncodeFixed32_le. done. Qed.

Lemma run_op_rep us o : run_op (rep_of us) o = Some (rep_of (spec_op us o)).
Proof.
  destruct o as [|u|us']; simpl; [by rewrite Clear_rep|apply run_update_rep|].
  rewrite Clear_rep, (run_updates_rep us' []). simpl. unfold Append, Count. rewrite !count_rep_of. simpl.
  rewrite SetCount_rep_of. simpl. unfold rep_of. rewrite encode_updates_app, length_app, drop_encoded32, <- app_assoc.
  do 3 f_equal. rewrite u32_add, (Z.add_comm (Z.of_nat (length us))), u32_add. f_equal. lia.
Qed.

Lemma run_ops_rep os : forall us, run_ops (rep_of us) os = Some (rep_of (fold_left spec_op os us)).
Proof. induction os as [|o os IH]; intros us; simpl; [done|]. rewrite run_op_rep. simpl. apply IH. Qed.

(** Reading back what was written. *)
Lemma remove_prefix_app l rest n : length l = n -> remove_prefix n (l ++ rest) = Some rest.
Proof.
  intros Hl. unfold remove_prefix. rewrite length_app, Hl, (proj2 (Nat.leb_le n (n + length rest))) by lia.
  by rewrite drop_app_exact.
Qed.

Lemma read_string_encoded s rest : string_ok s -> read_string e (encode_string s ++ rest) = Some (s, rest).
Proof.
  intros Hs. unfold string_ok in Hs. unfold read_string, encode_string. rewrite <- app_assoc, DecodeFixed32_app. simpl.
  unfold u32. rewrite !(wrap_small 32) by (rewrite ?wrap_small; lia).
  rewrite !length_app, length_EncodeFixed32.
  destruct (Z.ltb_spec (Z.of_nat (4 + (length s + length rest))) (Z.of_nat (length s))); [lia|].
  rewrite (remove_prefix_app _ _ 4) by apply length_EncodeFixed32. simpl. rewrite Nat2Z.id.
  rewrite (remove_prefix_app s rest) by done. simpl. by rewrite take_app_exact.
Qed.

Lemma read_col_encoded c rest : 0 <= c < 2 ^ 16 -> read_col e (EncodeFixed16 e c ++ rest) = Some (c, rest).
Proof.
  intros Hc. unfold read_col. rewrite DecodeFixed16_app. simpl. unfold u16. rewrite wrap_small by done.
  by rewrite (remove_prefix_app _ _ 2) by apply length_EncodeFixed16.
Qed.

(** One update, then the loop goes on with the rest. *)
Lemma Iterate_record_encoded {S} (h : Handler S) s u rest : update_ok u ->
  match encode_update u ++ rest with
  | [] => False
  | tag :: input => Iterate_record e h s tag input =
      Some (match u with
            | UPut k v c => (h_put h k v c s, inr rest)
            | UDelete k c => (h_delete h k c s, inr rest)
            | UMerge k v c => let '(s, st) := h_merge h k v c s in (s, match st with OK => inr rest | _ => inl st end)
            end)
  end.
Proof.
  intros Hu. destruct u as [k v c|k v c|k c]; simpl in *; unfold Iterate_record.
  - destruct Hu as (Hk & Hv & Hc). rewrite <- !app_assoc, read_string_encoded by done. simpl.
    rewrite read_string_encoded by done. simpl. by rewrite read_col_encoded.
  - destruct Hu as (Hk & Hv & Hc). rewrite <- !app_assoc, read_string_encoded by done. simpl.
    rewrite read_string_encoded by done. simpl. rewrite read_col_encoded by done. simpl. by destruct (h_merge h k v c s).
  - destruct Hu as (Hk & Hc). rewrite <- app_assoc, read_string_encoded by done. simpl. by rewrite read_col_encoded.
Qed.

Lemma length_encode_update u : (1 <= length (encode_update u))%nat.
Proof. destruct u; simpl; lia. Qed.

Lemma Iterate_loop_replay {S} (h : Handler S) us : Forall update_ok us -> forall fuel s n,
  (length (encode_updates us) <= fuel)%nat -> Iterate_loop e h fuel s (encode_updates us) n = Some (replay h us s n).
Proof.
  induction 1 as [|u us Hu Hus IH]; intros fuel s n Hf; [by destruct fuel|].
  assert (Hcons : encode_updates (u :: us) = encode_update u ++ encode_updates us) by done.
  pose proof (Iterate_record_encoded h s u (encode_updates us) Hu) as Hrec. pose proof (length_encode_update u) as Hlen.
  rewrite Hcons, length_app in Hf. rewrite Hcons. destruct (encode_update u ++ encode_updates us) as [|tag input] eqn:Heq; [done|].
  destruct fuel as [|fuel]; [lia|]. cbn [Iterate_loop replay]. destruct (h_continue h s); [|done]. rewrite Hrec. simpl.
  destruct u as [k v c|k v c|k c].
  - apply IH. lia.
  - destruct (h_merge h k v c s) as [s' []]; try done. apply IH. lia.
  - apply IH. lia.
Qed.

(** ** The properties *)

(** C29: the byte string of a batch, whatever sequence of [Put], [Merge],
    [Delete], [Append] and [Clear] made it, is the encoding of the list of
    updates these operations mean, with its length as the count. *)
Theorem batch_ops_refine_list (os : list batch_op) :
  run_ops Clear os = Some (rep_of (fold_left spec_op os [])) /\
  DecodeFixed32 e (rep_of (fold_left spec_op os [])) = Some (u32 (Z.of_nat (length (fold_left spec_op os [])))).
Proof. split; [rewrite Clear_rep; apply run_ops_rep|apply count_rep_of]. Qed.

(** C36: [Iterate] hands the updates of a batch, fewer than 2^32 and with keys and
    values of fewer than 2^32 bytes, to the handler in the order they were added, each with its key, value and column, until the handler stops it
    or a merge fails, and then returns the status of the merge, or a corruption
    when the handler stopped early, or OK. *)
Theorem iterate_replays {S} (h : Handler S) (os : list batch_op) (rep : list Z) (s : S) :
  let us := fold_left spec_op os [] in
  run_ops Clear os = Some rep -> Forall update_ok us -> Z.of_nat (length us) < 2 ^ 32 ->
  Iterate e h rep s =
    Some (let '(s', r) := replay h us s 0 in
          (s', match r with
               | inl st => st
               | inr n => if negb (u32 n =? Z.of_nat (length us)) then Corruption "WriteBatch has wrong count" else OK
               end)).
Proof.
  intros us Hrun Hok Hlen. rewrite Clear_rep, run_ops_rep in Hrun. injection Hrun as <-. fold us.
  unfold Iterate. pose proof (length_rep_of us) as Hge. rewrite (proj2 (Nat.ltb_ge _ _)) by (unfold kHeader; lia).
  rewrite drop_rep_of, Iterate_loop_replay; [|done|unfold rep_of; rewrite length_app; lia]. simpl.
  destruct (replay h us s 0) as [s' [st|n]]; simpl; [done|]. rewrite count_rep_of. simpl.
  unfold u32 at 2. by rewrite (wrap_small 32 (Z.of_nat (length us))) by lia.
Qed.

(** Walking a batch by offsets.  At the offset of a record
    [GetEntryFromDataOffset] gives its type, key and value, and at the end of
    the batch [NotFound]. *)
Theorem entries_by_offset (us us' : list update) (u : update) : update_ok u ->
  GetEntryFromDataOffset e true (rep_of (us ++ u :: us')) (GetFirstOffset + length (encode_updates us)) =
    Some (OK, Some (match u with
                    | UPut k v _ => (kPutRecord, k, Some v)
                    | UMerge k v _ => (kMergeRecord, k, Some v)
                    | UDelete k _ => (kDeleteRecord, k, None)
                    end)) /\
  GetEntryFromDataOffset e true (rep_of us) (length (rep_of us)) = Some (NotFound "reached end of batch", None).
Proof.
  intros Hu. split; [|unfold GetEntryFromDataOffset; cbn [negb]; by rewrite Nat.eqb_refl].
  assert (Hrep : rep_of (us ++ u :: us') = (EncodeFixed32 e (u32 (Z.of_nat (length (us ++ u :: us')))) ++ encode_updates us) ++
    encode_update u ++ encode_updates us') by (unfold rep_of; rewrite encode_updates_app, <- app_assoc; done).
  assert (Hpre : length (EncodeFixed32 e (u32 (Z.of_nat (length (us ++ u :: us')))) ++ encode_updates us) =
    (GetFirstOffset + length (encode_updates us))%nat) by (rewrite length_app, length_EncodeFixed32; done).
  pose proof (length_encode_update u) as Hlen. unfold GetEntryFromDataOffset. cbn [negb].
  rewrite Hrep. rewrite (drop_app_exact _ _ _ Hpre), length_app, Hpre, length_app.
  rewrite (proj2 (Nat.eqb_neq _ _)), (proj2 (Nat.ltb_ge _ _)) by lia.
  destruct u as [k v c|k v c|k c]; simpl in *.
  - destruct Hu as (Hk & Hv & Hc). rewrite <- !app_assoc, read_string_encoded by done. simpl.
    rewrite read_string_encoded by done. simpl. by rewrite read_col_encoded.
  - destruct Hu as (Hk & Hv & Hc). rewrite <- !app_assoc, read_string_encoded by done. simpl.
    rewrite read_string_encoded by done. simpl. by rewrite read_col_encoded.
  - destruct Hu as (Hk & Hc). rewrite <- app_assoc, read_string_encoded by done. simpl. by rewrite read_col_encoded.
Qed.
End Refinement.

(** ** Examples *)

(** A handler that logs what it is given and stops after [limit] updates. *)
Definition logger (limit : nat) : Handler (list update) := {|
  h_put k v c l := l ++ [UPut k v c];
  h_merge k v c l := (l ++ [UMerge k v c], OK);
  h_delete k c l := l ++ [UDelete k c];
  h_continue l := (length l <? limit)%nat |}.

Definition sample_ops : list batch_op :=
  [BUpdate (UPut [1] [9] 0); BClear; BUpdate (UPut [107] [118; 49] 0); BAppend [UDelete [107] 1; UMerge [108] [5] 2]].

Lemma iterate_replays_witness : exists rep, run_ops true Clear sample_ops = Some rep /\
  Iterate true (logger 5) rep [] = Some ([UPut [107] [118; 49] 0; UDelete [107] 1; UMerge [108] [5] 2], OK).
Proof.
  eexists. split; [vm_compute; reflexivity|].
  apply (iterate_replays true (logger 5) sample_ops); [vm_compute; reflexivity| |vm_compute; reflexivity].
  repeat (apply Forall_cons; split); try apply Forall_nil; repeat split; unfold string_ok; simpl; lia.
Defined.

(** A handler that stops the iteration is told that the batch is corrupt,
    although nothing is wrong with it. *)
Theorem early_stop_reports_corruption : exists rep, run_ops true Clear sample_ops = Some rep /\
  Iterate true (logger 1) rep [] = Some ([UPut [107] [118; 49] 0], Corruption "WriteBatch has wrong count").
Proof. eexists. split; [vm_compute; reflexivity|]. vm_compute. reflexivity. Qed.
