(* ===== verification/Bloom.v ===== *)
(** * The hash function and the Bloom filter of InSDB

    Models src/insdb/util/hash.cc ([Hash], a murmur-like 32-bit hash) and the
    [BloomFilterPolicy] of src/insdb/util/bloom.cc.  A filter may answer yes for
    a key that was not added, never no for one that was. *)

From Stdlib Require Import ZArith Lia Bool.
From stdpp Require Import base list.
From S2P Require Import Prelude Coding.

(** ** [Hash] *)

Section Hash.
  (** [port::kLittleEndian]. *)
  Variable e : bool.
  Local Open Scope cword_scope.

(** Four bytes at a time, then the remaining ones (the [switch] falls through). *)
Fixpoint Hash_loop (h : Z) (data : list Z) : Z :=
  let m := 0xc6a4a793 in
  let r := 24 in
  match data with
  | p0 :: p1 :: p2 :: p3 :: data' =>
      let w := default 0 (DecodeFixed32 e [p0; p1; p2; p3]) in
      let h := u32 (h + w) in
      let h := u32 (h * m) in
      Hash_loop (Z.lxor h (h >> 16)) data'
  | [p0; p1; p2] =>
      let h := u32 (h + (p2 << 16)) in
      let h := u32 (h + (p1 << 8)) in
      let h := u32 (u32 (h + p0) * m) in
      Z.lxor h (h >> r)
  | [p0; p1] =>
      let h := u32 (h + (p1 << 8)) in
      let h := u32 (u32 (h + p0) * m) in
      Z.lxor h (h >> r)
  | [p0] =>
      let h := u32 (u32 (h + p0) * m) in
      Z.lxor h (h >> r)
  | [] => h
  end.

(** [n * m] is a [size_t]; the result of the [^] is stored in 32 bits. *)
Definition Hash (data : list Z) (seed : Z) : Z :=
  Hash_loop (u32 (Z.lxor seed (u64 (Z.of_nat (length data) * 0xc6a4a793)))) data.

(** The hash is a 32-bit value. *)
Lemma lxor_shiftr_range h n : 0 <= h < 2 ^ 32 -> 0 <= n -> 0 <= Z.lxor h (h >> n) < 2 ^ 32.
Proof.
  intros Hh Hn. assert (Hx : 0 <= Z.lxor h (h >> n)) by (apply Z.lxor_nonneg; rewrite Z.shiftr_nonneg; lia).
  split; [done|]. apply below_pow2; [lia|done|]. intros i Hi. rewrite Z.lxor_spec, Z.shiftr_spec by lia.
  by rewrite !(testbit_high h 32) by lia.
Qed.

Lemma Hash_loop_range n data : forall h, (length data <= n)%nat -> 0 <= h < 2 ^ 32 -> 0 <= Hash_loop h data < 2 ^ 32.
Proof.
  revert data. induction n as [|n IH]; intros data h Hlen Hh; [by destruct data; [|simpl in Hlen; lia]|].
  assert (Hu : forall x, 0 <= u32 x < 2 ^ 32) by (intros x; apply wrap_range; lia).
  destruct data as [|p0 [|p1 [|p2 [|p3 data]]]]; cbn [Hash_loop]; cbv zeta; try (apply lxor_shiftr_range; [apply Hu|lia]); [done|].
  apply IH; [simpl in Hlen; lia|]. apply lxor_shiftr_range; [apply Hu|lia].
Qed.

Lemma Hash_range data seed : 0 <= Hash data seed < 2 ^ 32.
Proof. apply (Hash_loop_range (length data)); [done|]. apply wrap_range. lia. Qed.
End Hash.

(** ** [BloomFilterPolicy] *)

(** Rounding to the 53 significant bits of a [double], ties to even. *)
Definition round53 (n : Z) : Z :=
  let s := Z.log2 n - 52 in
  if s <=? 0 then n else
  let q := Z.shiftr n s in
  let r := n - Z.shiftl q s in
  let half := Z.shiftl 1 (s - 1) in
  let q := if r <? half then q else if half <? r then q + 1 else if Z.even q then q else q + 1 in
  Z.shiftl q s.

(** [static_cast<size_t>(bits_per_key * 0.69)], for [bits_per_key >= 0]: the
    [double] 0.69 is [0x16147ae147ae14 * 2^-53]. *)
Definition times_069 (bits_per_key : Z) : Z := Z.shiftr (round53 (bits_per_key * 0x16147ae147ae14)) 53.

Arguments times_069 : simpl never.

Record BloomFilterPolicy : Type := {
  bits_per_key_ : Z;
  k_ : Z;
}.

(** The constructor. *)
Definition NewBloomFilterPolicy (bits_per_key : Z) : BloomFilterPolicy :=
  let k := times_069 bits_per_key in
  let k := if k <? 1 then 1 else k in
  let k := if 30 <? k then 30 else k in
  {| bits_per_key_ := bits_per_key; k_ := k |}.
Arguments NewBloomFilterPolicy : simpl never.

Section Bloom.
  Variable e : bool.
  Local Open Scope cword_scope.

Definition BloomHash (key : list Z) : Z := Hash e key 0xbc9f1d34.

(** Rotate right 17 bits. *)
Definition delta_of (h : Z) : Z := (h >> 17) |: u32 (h << 15).

(** [array[bitpos/8] |= (1 << (bitpos % 8))]. *)
Definition set_bit_at (bitpos : Z) (array : list Z) : list Z :=
  let i := Z.to_nat (bitpos / 8) in
  <[i := u8 (default 0 (array !! i) |: (1 << (bitpos mod 8)))]> array.

(** The loop over the [k] probes of a key. *)
Fixpoint set_probes (k : nat) (bits h delta : Z) (array : list Z) : list Z :=
  match k with
  | O => array
  | S k' => set_probes k' bits (u32 (h + delta)) delta (set_bit_at (h mod bits) array)
  end.

Definition add_key (k bits : Z) (array key : list Z) : list Z :=
  let h := BloomHash key in set_probes (Z.to_nat k) bits h (delta_of h) array.

(** The number of bytes of the array for [n] keys. *)
Definition filter_bytes (p : BloomFilterPolicy) (n : Z) : Z :=
  let bits := u64 (n * bits_per_key_ p) in
  let bits := if bits <? 64 then 64 else bits in
  u64 (bits + 7) / 8.

Definition CreateFilter (p : BloomFilterPolicy) (keys : list (list Z)) (dst : list Z) : list Z :=
  let bytes := filter_bytes p (Z.of_nat (length keys)) in
  let bits := bytes * 8 in
  dst ++ fold_left (add_key (k_ p) bits) keys (replicate (Z.to_nat bytes) 0) ++ [u8 (k_ p)].

(** [(array[bitpos/8] & (1 << (bitpos % 8))) == 0]. *)
Definition test_bit_at (bitpos : Z) (array : list Z) : bool :=
  negb (default 0 (array !! Z.to_nat (bitpos / 8)) & (1 << (bitpos mod 8)) =? 0).

Fixpoint test_probes (k : nat) (bits h delta : Z) (array : list Z) : bool :=
  match k with
  | O => true
  | S k' => if test_bit_at (h mod bits) array then test_probes k' bits (u32 (h + delta)) delta array else false
  end.

(** The last byte is a [char]: from 128 on it becomes a [size_t] above 30. *)
Definition KeyMayMatch (key bloom_filter : list Z) : bool :=
  let len := length bloom_filter in
  if (len <? 2)%nat then false else
  let bits := (Z.of_nat len - 1) * 8 in
  let k := default 0 (bloom_filter !! (len - 1)%nat) in
  if 30 <? k then true else
  let h := BloomHash key in
  test_probes (Z.to_nat k) bits h (delta_of h) bloom_filter.

(** ** Lemmas *)

(** Every bit set in [a] is set in [b]. *)
Definition bits_le (a b : list Z) : Prop := forall p, 0 <= p -> test_bit_at p a = true -> test_bit_at p b = true.

#[local] Instance bits_le_preorder : PreOrder bits_le.
Proof. split; [by intros a p|]. intros a b c Hab Hbc p Hp Hpa. auto. Qed.

Lemma test_bit_at_spec p a : 0 <= p -> test_bit_at p a = Z.testbit (default 0 (a !! Z.to_nat (p / 8))) (p mod 8).
Proof.
  intros Hp. unfold test_bit_at. set (x := default 0 _). pose proof (Z.mod_pos_bound p 8 ltac:(lia)) as Hm. set (i := p mod 8) in *.
  assert (Hl : x & (1 << i) = if Z.testbit x i then 1 << i else 0).
  { apply Z.bits_inj'. intros j Hj. rewrite Z.land_spec, Z.shiftl_1_l, Z.pow2_bits_eqb by lia. destruct (Z.eqb_spec i j) as [->|Hne].
    - destruct (Z.testbit x j); [by rewrite Z.pow2_bits_true by lia|by rewrite Z.testbit_0_l].
    - rewrite andb_false_r. destruct (Z.testbit x i); [by rewrite Z.pow2_bits_false by lia|by rewrite Z.testbit_0_l]. }
  rewrite Hl. destruct (Z.testbit x i); [|done]. rewrite Z.shiftl_1_l. destruct (Z.eqb_spec (2 ^ i) 0); [lia|done].
Qed.

Lemma set_bit_at_length p a : length (set_bit_at p a) = length a.
Proof. apply length_insert. Qed.

(** The bytes of the array stay bytes, so storing them keeps their bits. *)
Lemma lookup_set_bit p a i : 0 <= p -> default 0 (set_bit_at p a !! i) =
  if decide (i = Z.to_nat (p / 8) /\ (i < length a)%nat)
  then u8 (default 0 (a !! i) |: (1 << (p mod 8))) else default 0 (a !! i).
Proof.
  intros Hp. unfold set_bit_at. destruct (decide _) as [[-> Hlt]|Hne]; [by rewrite list_lookup_insert_eq|].
  destruct (decide (i = Z.to_nat (p / 8))) as [->|Hi]; [|by rewrite list_lookup_insert_ne].
  rewrite list_insert_ge; [done|]. lia.
Qed.

Lemma set_bit_at_sets p a : 0 <= p < 8 * Z.of_nat (length a) -> test_bit_at p (set_bit_at p a) = true.
Proof.
  intros Hp. rewrite test_bit_at_spec, lookup_set_bit by lia. pose proof (Z.mod_pos_bound p 8 ltac:(lia)).
  rewrite decide_True by (split; [done|]; assert (p / 8 < Z.of_nat (length a)) by (apply Z.div_lt_upper_bound; lia);
    pose proof (Z.div_pos p 8 ltac:(lia) ltac:(lia)); lia).
  unfold u8. rewrite wrap_testbit, Z.lor_spec, Z.shiftl_1_l, Z.pow2_bits_true, orb_true_r by lia.
  destruct (Z.ltb_spec (p mod 8) 8); [done|lia].
Qed.

Lemma set_bit_at_mono p a : 0 <= p -> bits_le a (set_bit_at p a).
Proof.
  intros Hp q Hq0 Hq. rewrite test_bit_at_spec in Hq by done. rewrite test_bit_at_spec, lookup_set_bit by lia. destruct (decide _) as [_|_]; [|done].
  pose proof (Z.mod_pos_bound q 8 ltac:(lia)). unfold u8. rewrite wrap_testbit, Z.lor_spec by lia. rewrite Hq.
  destruct (Z.ltb_spec (q mod 8) 8); [done|lia].
Qed.

Lemma set_probes_length k : forall bits h delta a, length (set_probes k bits h delta a) = length a.
Proof. induction k as [|k IH]; intros; simpl; [done|]. by rewrite IH, set_bit_at_length. Qed.

Lemma set_probes_mono k : forall bits h delta a, 0 < bits -> bits_le a (set_probes k bits h delta a).
Proof.
  induction k as [|k IH]; intros bits h delta a Hb; simpl; [done|]. etransitivity; [|by apply IH].
  apply set_bit_at_mono. by apply Z.mod_pos_bound.
Qed.

Lemma set_probes_sets k : forall bits h delta a, 0 < bits -> bits <= 8 * Z.of_nat (length a) ->
  test_probes k bits h delta (set_probes k bits h delta a) = true.
Proof.
  induction k as [|k IH]; intros bits h delta a Hb Hl; simpl; [done|]. pose proof (Z.mod_pos_bound h bits Hb).
  rewrite (set_probes_mono k) by (done || lia || (apply set_bit_at_sets; lia)). apply IH; [done|]. by rewrite set_bit_at_length.
Qed.

Lemma test_probes_mono k : forall bits h delta a b, 0 < bits -> bits_le a b -> test_probes k bits h delta a = true ->
  test_probes k bits h delta b = true.
Proof.
  induction k as [|k IH]; intros bits h delta a b Hb Hab; simpl; [done|].
  destruct (test_bit_at (h mod bits) a) eqn:Ht; [|done]. rewrite (Hab _ (proj1 (Z.mod_pos_bound h bits Hb)) Ht). by apply IH.
Qed.

Lemma add_keys_length k bits keys : forall a, length (fold_left (add_key k bits) keys a) = length a.
Proof. induction keys as [|key keys IH]; intros a; simpl; [done|]. rewrite IH. apply set_probes_length. Qed.

Lemma add_keys_mono k bits keys : 0 < bits -> forall a, bits_le a (fold_left (add_key k bits) keys a).
Proof. intros Hb. induction keys as [|key keys IH]; intros a; simpl; [done|]. etransitivity; [|apply IH]. by apply set_probes_mono. Qed.

Lemma add_keys_sets k bits keys key : 0 < bits -> key ∈ keys -> forall a, bits <= 8 * Z.of_nat (length a) ->
  test_probes (Z.to_nat k) bits (BloomHash key) (delta_of (BloomHash key)) (fold_left (add_key k bits) keys a) = true.
Proof.
  intros Hb. induction keys as [|key' keys IH]; intros Hin a Hl; [by apply elem_of_nil in Hin|]. simpl.
  apply elem_of_cons in Hin as [<-|Hin].
  - eapply test_probes_mono; [done|by apply add_keys_mono|]. by apply set_probes_sets.
  - apply IH; [done|]. unfold add_key. by rewrite set_probes_length.
Qed.

Lemma bits_le_app a b : bits_le a (a ++ b).
Proof.
  intros p _. unfold test_bit_at. destruct (a !! Z.to_nat (p / 8)) as [x|] eqn:Hx; [by rewrite (lookup_app_l_Some _ _ _ _ Hx)|].
  done.
Qed.

Lemma filter_bytes_range p n : 0 <= bits_per_key_ p -> 0 <= n -> n * bits_per_key_ p + 7 < 2 ^ 64 -> 8 <= filter_bytes p n.
Proof.
  intros Hb Hn Hlt. unfold filter_bytes. cbv zeta. unfold u64. rewrite (wrap_small 64 (n * _)) by nia.
  destruct (Z.ltb_spec (n * bits_per_key_ p) 64); rewrite wrap_small by nia; [done|]. apply Z.div_le_lower_bound; lia.
Qed.

Lemma policy_probes bits_per_key : 1 <= k_ (NewBloomFilterPolicy bits_per_key) <= 30.
Proof.
  unfold NewBloomFilterPolicy. generalize (times_069 bits_per_key). intros k. cbv zeta. cbn [k_].
  destruct (Z.ltb_spec k 1); [done|]. destruct (Z.ltb_spec 30 k); lia.
Qed.

Lemma CreateFilter_matches p keys key dst : 0 <= bits_per_key_ p -> 0 <= k_ p <= 30 ->
  Z.of_nat (length keys) * bits_per_key_ p + 7 < 2 ^ 64 -> key ∈ keys ->
  exists bloom_filter, CreateFilter p keys dst = dst ++ bloom_filter /\ KeyMayMatch key bloom_filter = true /\ (9 <= length bloom_filter)%nat.
Proof.
  intros Hb Hk Hlt Hin. pose proof (filter_bytes_range p (Z.of_nat (length keys)) Hb ltac:(lia) Hlt) as Hbytes.
  unfold CreateFilter. cbv zeta. set (bytes := filter_bytes p (Z.of_nat (length keys))) in *. clearbody bytes.
  set (array := fold_left (add_key (k_ p) (bytes * 8)) keys (replicate (Z.to_nat bytes) 0)).
  exists (array ++ [u8 (k_ p)]). assert (Hlen : length array = Z.to_nat bytes) by (unfold array; by rewrite add_keys_length, length_replicate).
  split; [done|]. unfold KeyMayMatch. cbv zeta. rewrite !length_app, Hlen. cbn [length]. split; [|lia].
  rewrite (proj2 (Nat.ltb_ge _ _)) by lia. rewrite Nat.add_sub, (lookup_app_r array) by lia. rewrite Hlen, Nat.sub_diag.
  change (default 0 ([u8 (k_ p)] !! 0%nat)) with (u8 (k_ p)).
  unfold u8. rewrite wrap_small by lia. rewrite (proj2 (Z.ltb_ge _ _)) by lia.
  replace ((Z.of_nat (Z.to_nat bytes + 1) - 1) * 8) with (bytes * 8) by lia.
  eapply test_probes_mono; [lia|apply bits_le_app|]. apply add_keys_sets; [lia|done|]. rewrite length_replicate. lia.
Qed.

(** ** The property *)

(** C34: no false negatives.  A key given to [CreateFilter] matches the filter it
    made, wherever the filter was appended; the number of probes is between 1
    and 30 and the filter has at least 8 bytes. *)
Theorem bloom_no_false_negatives (bits_per_key : Z) (keys : list (list Z)) (key dst : list Z) :
  0 <= bits_per_key -> Z.of_nat (length keys) * bits_per_key + 7 < 2 ^ 64 -> key ∈ keys ->
  1 <= k_ (NewBloomFilterPolicy bits_per_key) <= 30 /\
  exists bloom_filter, CreateFilter (NewBloomFilterPolicy bits_per_key) keys dst = dst ++ bloom_filter /\
    KeyMayMatch key bloom_filter = true /\ (9 <= length bloom_filter)%nat.
Proof.
  intros Hb Hlt Hin. pose proof (policy_probes bits_per_key) as Hk. split; [done|]. apply CreateFilter_matches; [done|lia|done|done].
Qed.
End Bloom.

Lemma bloom_no_false_negatives_witness :
  1 <= k_ (NewBloomFilterPolicy 10) <= 30 /\
  exists bloom_filter, CreateFilter true (NewBloomFilterPolicy 10) [[104; 101; 108; 108; 111]; [119; 111]] [7] = [7] ++ bloom_filter /\
    KeyMayMatch true [119; 111] bloom_filter = true /\ (9 <= length bloom_filter)%nat.
Proof.
  refine (bloom_no_false_negatives true 10 [[104; 101; 108; 108; 111]; [119; 111]] [119; 111] [7] _ _ _); [lia|simpl; lia|].
  right. left.
Defined.
