(* ===== verification/Slices.v ===== *)
(** * Comparing slices and printing numbers

    Models [Slice::compare] of src/insdb/include/insdb/slice.h, the bytewise
    comparator of src/insdb/util/comparator.cc, which orders the keys of InSDB
    and shortens the keys its index holds, and the numbers of
    src/insdb/util/logging.cc. *)

From Stdlib Require Import ZArith Lia Bool.
From stdpp Require Import base list.
From S2P Require Import Prelude.

(** ** Comparison *)

(** [memcmp], with -1 and 1 for its negative and positive results. *)
Fixpoint memcmp (a b : list Z) (n : nat) : Z :=
  match n, a, b with
  | S n', x :: a', y :: b' => if x <? y then -1 else if y <? x then 1 else memcmp a' b' n'
  | _, _, _ => 0
  end.

(** [Slice::compare]. *)
Definition compare (a b : list Z) : Z :=
  let min_len := if (length a <? length b)%nat then length a else length b in
  let r := memcmp a b min_len in
  if r =? 0 then
    if (length a <? length b)%nat then -1 else if (length b <? length a)%nat then 1 else r
  else r.

(** The loop that finds the length of the common prefix. *)
Fixpoint diff_index (start limit : list Z) : nat :=
  match start, limit with
  | x :: start', y :: limit' => if x =? y then S (diff_index start' limit') else O
  | _, _ => O
  end.

Definition FindShortestSeparator (start limit : list Z) : list Z :=
  let min_length := Nat.min (length start) (length limit) in
  let i := diff_index start limit in
  if (min_length <=? i)%nat then start
  else
    let diff_byte := default 0 (start !! i) in
    if (diff_byte <? 0xff) && (diff_byte + 1 <? default 0 (limit !! i))
    then take i start ++ [u8 (diff_byte + 1)]
    else start.

(** The loop over the key; [None] when it ends without finding a byte. *)
Fixpoint short_successor (key : list Z) : option (list Z) :=
  match key with
  | [] => None
  | byte :: key' => if negb (byte =? 0xff) then Some [u8 (byte + 1)] else cons byte <$> short_successor key'
  end.

Definition FindShortSuccessor (key : list Z) : list Z := default key (short_successor key).

(** ** Numbers *)

(** The digits of a number, least significant first; 20 are enough for 64 bits. *)
Fixpoint digits_rev (fuel : nat) (n : Z) : list Z :=
  match fuel with
  | O => []
  | S fuel' => if n <? 10 then [n] else n mod 10 :: digits_rev fuel' (n / 10)
  end.

(** [snprintf(buf, sizeof(buf), "%llu", num)]. *)
Definition print_llu (num : Z) : list Z := map (Z.add 48) (rev (digits_rev 20 num)).

Definition AppendNumberTo (str : list Z) (num : Z) : list Z := str ++ print_llu num.
Definition NumberToString (num : Z) : list Z := AppendNumberTo [] num.

Definition kMaxUint64 : Z := 2 ^ 64 - 1.

(** The loop: [None] is the overflow. *)
Fixpoint consume_loop (v : Z) (digits : nat) (input : list Z) : option (Z * nat * list Z) :=
  match input with
  | c :: input' =>
      if (48 <=? c) && (c <=? 57) then
        let delta := c - 48 in
        if (kMaxUint64 / 10 <? v) || ((v =? kMaxUint64 / 10) && (kMaxUint64 mod 10 <? delta)) then None
        else consume_loop (u64 (u64 (v * 10) + delta)) (S digits) input'
      else Some (v, digits, input)
  | [] => Some (v, digits, [])
  end.

(** The value and the rest when there are digits; [None] is [false]. *)
Definition ConsumeDecimalNumber (input : list Z) : option (Z * list Z) :=
  '(v, digits, rest) ← consume_loop 0 0 input;
  if (0 <? digits)%nat then Some (v, rest) else None.

(** ** Lemmas: the order *)

(** Lexicographic order, as a decision. *)
Fixpoint lex (a b : list Z) : comparison :=
  match a, b with
  | [], [] => Eq
  | [], _ :: _ => Lt
  | _ :: _, [] => Gt
  | x :: a', y :: b' => match x ?= y with Eq => lex a' b' | c => c end
  end.

Definition sign (c : comparison) : Z := match c with Eq => 0 | Lt => -1 | Gt => 1 end.

Lemma compare_lex a : forall b, compare a b = sign (lex a b).
Proof.
  induction a as [|x a IH]; intros [|y b]; try done. specialize (IH b). unfold compare in *. cbv zeta in *. cbn [length lex].
  change (S (length a) <? S (length b))%nat with (length a <? length b)%nat.
  change (S (length b) <? S (length a))%nat with (length b <? length a)%nat.
  set (lt := (length a <? length b)%nat) in *.
  assert (Hm : memcmp (x :: a) (y :: b) (if lt then S (length a) else S (length b)) =
    if x <? y then -1 else if y <? x then 1 else memcmp a b (if lt then length a else length b)) by by destruct lt.
  rewrite !Hm. destruct (Z.ltb_spec x y) as [Hxy|Hxy]; [by rewrite (proj2 (Z.compare_lt_iff x y))|].
  destruct (Z.ltb_spec y x) as [Hyx|Hyx]; [by rewrite (proj2 (Z.compare_gt_iff x y))|].
  assert (x = y) as -> by lia. by rewrite Z.compare_refl.
Qed.

Lemma lex_refl a : lex a a = Eq.
Proof. induction a as [|x a IH]; simpl; [done|]. by rewrite Z.compare_refl. Qed.
Lemma lex_eq a : forall b, lex a b = Eq -> a = b.
Proof. induction a as [|x a IH]; intros [|y b]; simpl; try done. destruct (Z.compare_spec x y); try done. intros ?%IH. congruence. Qed.
Lemma lex_antisym a : forall b, lex b a = CompOpp (lex a b).
Proof. induction a as [|x a IH]; intros [|y b]; simpl; try done. rewrite (Z.compare_antisym x y). destruct (x ?= y); simpl; auto. Qed.
Lemma lex_trans a : forall b c, lex a b = Lt -> lex b c = Lt -> lex a c = Lt.
Proof.
  induction a as [|x a IH]; intros [|y b] [|z c]; simpl; try done.
  destruct (Z.compare_spec x y), (Z.compare_spec y z); intros; try done; subst.
  - rewrite Z.compare_refl. eauto.
  - by rewrite (proj2 (Z.compare_lt_iff _ _)).
  - by rewrite (proj2 (Z.compare_lt_iff _ _)).
  - rewrite (proj2 (Z.compare_lt_iff x z)); [done|lia].
Qed.

Lemma compare_lt a b : compare a b < 0 <-> lex a b = Lt.
Proof. rewrite compare_lex. by destruct (lex a b). Qed.
Lemma compare_le a b : compare a b <= 0 <-> lex a b <> Gt.
Proof. rewrite compare_lex. by destruct (lex a b). Qed.

(** ** Lemmas: separators *)

Lemma lex_cons x a b : lex (x :: a) (x :: b) = lex a b.
Proof. simpl. by rewrite Z.compare_refl. Qed.
Lemma lex_head x y a b : x < y -> lex (x :: a) (y :: b) = Lt.
Proof. intros Hxy. simpl. by rewrite (proj2 (Z.compare_lt_iff x y)). Qed.

Lemma separator_cons x a b : FindShortestSeparator (x :: a) (x :: b) = x :: FindShortestSeparator a b.
Proof.
  unfold FindShortestSeparator. cbn [length diff_index]. rewrite Z.eqb_refl. rewrite <- Nat.succ_min_distr. cbn [Nat.leb].
  destruct (_ <=? _)%nat; [done|]. cbn [lookup list_lookup]. by destruct (_ && _).
Qed.

Lemma separator_head x y a b : x < y -> FindShortestSeparator (x :: a) (y :: b) =
  if (x <? 0xff) && (x + 1 <? y) then [u8 (x + 1)] else x :: a.
Proof. intros Hxy. unfold FindShortestSeparator. cbn [length diff_index]. by rewrite (proj2 (Z.eqb_neq x y)) by lia. Qed.

Lemma separator_spec start : forall limit, bytes_ok start -> lex start limit = Lt ->
  lex start (FindShortestSeparator start limit) <> Gt /\ lex (FindShortestSeparator start limit) limit = Lt /\
  (length (FindShortestSeparator start limit) <= length start)%nat.
Proof.
  induction start as [|x start IH]; intros limit Hb Hlt; [done|]. destruct limit as [|y limit]; [done|].
  apply Forall_cons in Hb as [Hx Hb]. unfold byte_ok in Hx. destruct (Z.lt_trichotomy x y) as [Hxy|[<-|Hxy]].
  - rewrite separator_head by done. destruct (Z.ltb_spec x 255), (Z.ltb_spec (x + 1) y); cbn [andb];
      try (rewrite lex_refl, lex_head by done; done).
    unfold u8. rewrite wrap_small, !lex_head by lia. split; [done|]. split; [done|simpl; lia].
  - rewrite lex_cons in Hlt. rewrite separator_cons, !lex_cons. destruct (IH limit Hb Hlt) as (? & ? & ?). split; [done|]. split; [done|simpl; lia].
  - simpl in Hlt. rewrite (proj2 (Z.compare_gt_iff x y)) in Hlt by lia. done.
Qed.

Lemma successor_spec key : bytes_ok key -> match short_successor key with
  | Some r => lex key r = Lt /\ (length r <= length key)%nat
  | None => Forall (fun b => b = 0xff) key
  end.
Proof.
  induction 1 as [|x key Hx _ IH]; simpl; [constructor|]. unfold byte_ok in Hx. destruct (Z.eqb_spec x 255) as [->|Hne]; simpl.
  - destruct (short_successor key) as [r|]; simpl; [|by constructor]. destruct IH as [? ?]. split; [done|lia].
  - unfold u8. rewrite wrap_small by lia. rewrite (proj2 (Z.compare_lt_iff x (x + 1))) by lia. split; [done|lia].
Qed.

(** ** Lemmas: numbers *)

(** The value of digits, most significant first. *)
Definition digits_value (l : list Z) : Z := fold_left (fun v d => 10 * v + d) l 0.
Definition digit (d : Z) : Prop := 0 <= d <= 9.

Lemma fold_digits_mono l : Forall digit l -> forall v, 0 <= v -> v <= fold_left (fun v d => 10 * v + d) l v.
Proof. induction 1 as [|d l Hd _ IH]; intros v Hv; simpl; [lia|]. unfold digit in Hd. specialize (IH (10 * v + d)). lia. Qed.

Lemma consume_digits l : Forall digit l -> forall v n rest, 0 <= v < 2 ^ 64 ->
  consume_loop v n (map (Z.add 48) l ++ rest) =
  if fold_left (fun v d => 10 * v + d) l v <? 2 ^ 64
  then consume_loop (fold_left (fun v d => 10 * v + d) l v) (n + length l) rest else None.
Proof.
  induction 1 as [|d l Hd Hl IH]; intros v n rest Hv.
  - simpl. rewrite Nat.add_0_r. destruct (Z.ltb_spec v (2 ^ 64)); [done|lia].
  - unfold digit in Hd. cbn [map app consume_loop fold_left length]. rewrite (proj2 (Z.leb_le 48 (48 + d))), (proj2 (Z.leb_le (48 + d) 57)) by lia.
    cbn [andb]. replace (48 + d - 48) with d by lia. change (kMaxUint64 / 10) with 1844674407370955161. change (kMaxUint64 mod 10) with 5.
    pose proof (fold_digits_mono l Hl (10 * v + d) ltac:(lia)) as Hm. destruct (_ || _) eqn:Hov.
    + assert (2 ^ 64 <= 10 * v + d).
      { apply orb_true_iff in Hov as [?%Z.ltb_lt|[?%Z.eqb_eq ?%Z.ltb_lt]%andb_true_iff]; lia. }
      destruct (Z.ltb_spec (fold_left (fun v d => 10 * v + d) l (10 * v + d)) (2 ^ 64)); [lia|done].
    + assert (10 * v + d < 2 ^ 64).
      { apply orb_false_iff in Hov as [?%Z.ltb_ge [?%Z.eqb_neq|?%Z.ltb_ge]%andb_false_iff]; lia. }
      unfold u64. rewrite !wrap_small by (rewrite ?wrap_small; lia). replace (v * 10 + d) with (10 * v + d) by lia.
      rewrite IH by lia. by rewrite <- Nat.add_succ_comm.
Qed.

(** The input ends or goes on with something else. *)
Definition no_digit (rest : list Z) : Prop := match rest with c :: _ => c < 48 \/ 57 < c | [] => True end.

Lemma consume_stop v n rest : no_digit rest -> consume_loop v n rest = Some (v, n, rest).
Proof.
  destruct rest as [|c rest]; [done|]. cbn [consume_loop no_digit]. intros Hc.
  destruct (Z.leb_spec 48 c), (Z.leb_spec c 57); cbn [andb]; try done. lia.
Qed.

Lemma digits_rev_spec fuel : forall n, 0 <= n < 10 ^ Z.of_nat fuel -> (0 < fuel)%nat ->
  Forall digit (digits_rev fuel n) /\ digits_value (rev (digits_rev fuel n)) = n /\ digits_rev fuel n <> [].
Proof.
  induction fuel as [|fuel IH]; intros n Hn Hf; [lia|]. simpl. destruct (Z.ltb_spec n 10).
  { split; [repeat constructor; unfold digit; lia|]. done. }
  pose proof (Z.div_mod n 10 ltac:(lia)). pose proof (Z.mod_pos_bound n 10 ltac:(lia)).
  rewrite Nat2Z.inj_succ, Z.pow_succ_r in Hn by lia. assert (Hdiv : 0 < n / 10 < 10 ^ Z.of_nat fuel).
  { split; [apply Z.div_str_pos; lia|apply Z.div_lt_upper_bound; lia]. }
  destruct (IH (n / 10)) as (Hd & Hv & _); [lia|destruct fuel; [simpl in Hdiv; lia|lia]|].
  split; [constructor; [unfold digit; lia|done]|]. split; [|done]. simpl. unfold digits_value in *.
  rewrite fold_left_app, Hv. simpl. lia.
Qed.

(** ** The properties *)

(** The bytewise comparator is a total order on byte strings: it is 0 exactly
    for equal strings, swapping the arguments negates it, and it is transitive;
    it is the lexicographic order. *)
Lemma bytewise_total_order (a b c : list Z) :
  (compare a b = 0 <-> a = b) /\ compare b a = - compare a b /\ (compare a b < 0 -> compare b c < 0 -> compare a c < 0) /\
  compare a b = sign (lex a b).
Proof.
  rewrite !compare_lex. split; [|split; [|split; [|done]]].
  - split; [|intros ->; by rewrite lex_refl]. destruct (lex a b) eqn:Hab; try done. intros _. by apply lex_eq.
  - rewrite (lex_antisym a b). by destruct (lex a b).
  - destruct (lex a b) eqn:Hab, (lex b c) eqn:Hbc; try done. by rewrite (lex_trans a b c).
Qed.

(** [FindShortestSeparator] of a key and a larger limit gives a key between
    them (at least the key, below the limit) that is no longer than the key;
    [FindShortSuccessor] gives a key that is larger and no longer, except for a
    run of 0xff bytes, which it leaves alone. *)
Theorem separators_between (start limit key : list Z) : bytes_ok start -> bytes_ok key -> compare start limit < 0 ->
  (compare start (FindShortestSeparator start limit) <= 0 /\ compare (FindShortestSeparator start limit) limit < 0 /\
   (length (FindShortestSeparator start limit) <= length start)%nat) /\
  (compare key (FindShortSuccessor key) <= 0 /\ (length (FindShortSuccessor key) <= length key)%nat /\
   (FindShortSuccessor key = key <-> Forall (fun b => b = 0xff) key)).
Proof.
  intros Hs Hk Hlt%compare_lt. rewrite compare_lt, !compare_le. split; [by apply separator_spec|].
  pose proof (successor_spec key Hk) as Hsp. unfold FindShortSuccessor.
  destruct (short_successor key) as [r|] eqn:Hr; simpl; [|rewrite lex_refl; done].
  destruct Hsp as [Hl Hlen]. split; [by rewrite Hl|]. split; [done|]. split; [intros ->; by rewrite lex_refl in Hl|].
  intros Hff. exfalso. clear -Hr Hff. revert r Hr. induction Hff as [|x key -> _ IH]; simpl; [done|].
  intros r Hr. destruct (short_successor key) as [r'|]; [exact (IH r' eq_refl)|done].
Qed.

Lemma decimal_roundtrip (num : Z) (rest : list Z) : 0 <= num < 2 ^ 64 ->
  no_digit rest ->
  ConsumeDecimalNumber (NumberToString num ++ rest) = Some (num, rest).
Proof.
  intros Hn Hrest. destruct (digits_rev_spec 20 num) as (Hd & Hv & Hne); [simpl; lia|lia|].
  unfold ConsumeDecimalNumber, NumberToString, AppendNumberTo, print_llu. cbn [app].
  rewrite consume_digits by (try apply Forall_rev; done). fold (digits_value (rev (digits_rev 20 num))). rewrite Hv.
  rewrite (proj2 (Z.ltb_lt num (2 ^ 64))) by lia. rewrite length_rev.
  rewrite consume_stop by done. destruct (digits_rev 20 num); [done|reflexivity].
Qed.

Lemma decimal_overflow (l rest : list Z) : Forall digit l -> l <> [] ->
  no_digit rest ->
  ConsumeDecimalNumber (map (Z.add 48) l ++ rest) =
  if digits_value l <? 2 ^ 64 then Some (digits_value l, rest) else None.
Proof.
  intros Hd Hne Hrest. unfold ConsumeDecimalNumber. rewrite consume_digits by done. fold (digits_value l).
  destruct (digits_value l <? 2 ^ 64); [|done].
  rewrite consume_stop by done. by destruct l.
Qed.

(** A 64-bit number printed by [AppendNumberTo] is read back by
    [ConsumeDecimalNumber], which stops at the first byte that is not a digit.  Any
    other digits [l], leading zeros included, are read as their value when that
    fits in 64 bits and rejected otherwise: no number that wrapped is returned. *)
Theorem decimal_numbers (num : Z) (l rest : list Z) : 0 <= num < 2 ^ 64 -> Forall digit l -> l <> [] -> no_digit rest ->
  ConsumeDecimalNumber (NumberToString num ++ rest) = Some (num, rest) /\
  ConsumeDecimalNumber (map (Z.add 48) l ++ rest) = if digits_value l <? 2 ^ 64 then Some (digits_value l, rest) else None.
Proof. auto using decimal_roundtrip, decimal_overflow. Qed.

