(* ===== verification/HandleTable.v ===== *)
(** * The hash table of the cache

    Models [LRUHandle] and [HandleTable] of src/insdb/util/cache.cc: an array of
    chains of cache entries that doubles when it has more entries than buckets.
    The entries live in a heap of pointers; the [next_hash] links of a bucket are
    the list of its entries.  A slot that [FindPointer] returns is the chain
    before it and from it on; [None] is a dangling pointer or a failed [assert].

    The table is a set of entries with one entry per hash and key: this is what
    [Lookup_spec], [Insert_spec] and [Remove_spec] say, for every growth of the
    array. *)

From Stdlib Require Import ZArith Lia Bool.
From stdpp Require Import base list gmap.
From S2P Require Import Prelude.

(** The list links [next], [prev] are modelled by the lists of the cache.  The
    dummy heads of those lists are not entries, so the assertion of
    [LRUHandle::key] that its handle is not the head of an empty list
    ([next != this]) holds of everything [key] is asked of here. *)
Record LRUHandle : Type := {
  lh_value : Z;
  lh_deleter : Z;
  lh_charge : Z;
  lh_key : list Z;
  lh_in_cache : bool;
  lh_refs : Z;
  lh_hash : Z;
}.
#[export] Instance eta_LRUHandle : Eta LRUHandle := fun r =>
  {| lh_value := lh_value r; lh_deleter := lh_deleter r; lh_charge := lh_charge r; lh_key := lh_key r;
     lh_in_cache := lh_in_cache r; lh_refs := lh_refs r; lh_hash := lh_hash r |}.

Abbreviation heap := (gmap positive LRUHandle).

Record HandleTable : Type := {
  length_ : Z;
  elems_ : Z;
  list_ : list (list positive);
}.

(** The loop of [FindPointer] goes on while this is false of the entry. *)
Definition matches (key : list Z) (hash : Z) (h : LRUHandle) : bool := (lh_hash h =? hash) && bool_decide (lh_key h = key).

(** The [while] loop of [FindPointer]. *)
Fixpoint find_slot (H : heap) (key : list Z) (hash : Z) (chain : list positive) : option (list positive * list positive) :=
  match chain with
  | [] => Some ([], [])
  | e :: chain' =>
      h ← H !! e;
      if matches key hash h then Some ([], chain)
      else '(pre, suf) ← find_slot H key hash chain'; Some (e :: pre, suf)
  end.

Definition bucket_of (len hash : Z) : nat := Z.to_nat (Z.land hash (len - 1)).

Definition FindPointer (H : heap) (t : HandleTable) (key : list Z) (hash : Z) : option (nat * list positive * list positive) :=
  let i := bucket_of (length_ t) hash in
  chain ← list_ t !! i;
  '(pre, suf) ← find_slot H key hash chain;
  Some (i, pre, suf).

Definition Lookup (H : heap) (t : HandleTable) (key : list Z) (hash : Z) : option (option positive) :=
  '(_, _, suf) ← FindPointer H t key hash; Some (head suf).

(** [while (new_length < elems_) new_length *= 2]. *)
Fixpoint grow (fuel : nat) (new_length elems : Z) : option Z :=
  match fuel with
  | O => None
  | S fuel' => if new_length <? elems then grow fuel' (u32 (new_length * 2)) elems else Some new_length
  end.

(** The entries of a chain go to the front of their new chains; [count] counts
    them. *)
Fixpoint rehash_chain (H : heap) (new_length : Z) (chain : list positive) (new_list : list (list positive)) (count : Z)
    : option (list (list positive) * Z) :=
  match chain with
  | [] => Some (new_list, count)
  | e :: chain' =>
      h ← H !! e;
      let i := bucket_of new_length (lh_hash h) in
      c ← new_list !! i;
      rehash_chain H new_length chain' (<[i := e :: c]> new_list) (u32 (count + 1))
  end.

Fixpoint rehash (H : heap) (new_length : Z) (chains : list (list positive)) (new_list : list (list positive)) (count : Z)
    : option (list (list positive) * Z) :=
  match chains with
  | [] => Some (new_list, count)
  | chain :: chains' => '(l, count) ← rehash_chain H new_length chain new_list count; rehash H new_length chains' l count
  end.

(** Thirty doublings take 4 beyond 2^31.  [assert(elems_ == count)] fails when the
    array does not hold as many entries as the table says. *)
Definition Resize (H : heap) (t : HandleTable) : option HandleTable :=
  new_length ← grow 31 4 (elems_ t);
  '(l, count) ← rehash H new_length (list_ t) (replicate (Z.to_nat new_length) []) 0;
  if negb (elems_ t =? count) then None
  else Some {| length_ := new_length; elems_ := elems_ t; list_ := l |}.

(** The constructor: [Resize] of the empty table. *)
Definition NewHandleTable : HandleTable := {| length_ := 4; elems_ := 0; list_ := replicate 4 [] |}.

Lemma NewHandleTable_resizes H : Resize H {| length_ := 0; elems_ := 0; list_ := [] |} = Some NewHandleTable.
Proof. reflexivity. Qed.

(** Returns the entry that had the key. *)
Definition Insert (H : heap) (t : HandleTable) (e : positive) : option (HandleTable * option positive) :=
  h ← H !! e;
  '(i, pre, suf) ← FindPointer H t (lh_key h) (lh_hash h);
  let l := <[i := pre ++ e :: tail suf]> (list_ t) in
  match head suf with
  | None =>
      let t := {| length_ := length_ t; elems_ := u32 (elems_ t + 1); list_ := l |} in
      t ← (if length_ t <? elems_ t then Resize H t else Some t);
      Some (t, None)
  | Some old => Some ({| length_ := length_ t; elems_ := elems_ t; list_ := l |}, Some old)
  end.

Definition Remove (H : heap) (t : HandleTable) (key : list Z) (hash : Z) : option (HandleTable * option positive) :=
  '(i, pre, suf) ← FindPointer H t key hash;
  match suf with
  | [] => Some (t, None)
  | result :: rest =>
      Some ({| length_ := length_ t; elems_ := u32 (elems_ t - 1); list_ := <[i := pre ++ rest]> (list_ t) |}, Some result)
  end.

(** ** The invariant *)

(** The entries of the table. *)
Definition entries (t : HandleTable) : list positive := concat (list_ t).

Record table_ok (H : heap) (t : HandleTable) : Prop := {
  to_length : exists k, 2 <= k <= 31 /\ length_ t = 2 ^ k;
  to_buckets : length (list_ t) = Z.to_nat (length_ t);
  to_elems : elems_ t = Z.of_nat (length (entries t));
  to_nodup : NoDup (entries t);
  to_home i c e : list_ t !! i = Some c -> e ∈ c -> exists h, H !! e = Some h /\ bucket_of (length_ t) (lh_hash h) = i;
  to_uniq e1 e2 h1 h2 : e1 ∈ entries t -> e2 ∈ entries t -> H !! e1 = Some h1 -> H !! e2 = Some h2 ->
    lh_hash h1 = lh_hash h2 -> lh_key h1 = lh_key h2 -> e1 = e2;
}.

(** ** Chains *)

(** One chain and the rest of the table. *)
Lemma concat_split (l : list (list positive)) i c : l !! i = Some c ->
  exists rest, concat l ≡ₚ c ++ rest /\ forall c', concat (<[i := c']> l) ≡ₚ c' ++ rest.
Proof.
  intros Hi. exists (concat (take i l) ++ concat (drop (S i) l)).
  assert (Hlt : (i < length l)%nat) by by eapply lookup_lt_Some. split.
  - rewrite <- (take_drop_middle l i c Hi) at 1. rewrite concat_app. simpl. solve_Permutation.
  - intros c'. rewrite insert_take_drop by done. rewrite concat_app. simpl. solve_Permutation.
Qed.

Lemma concat_replicate_nil n : concat (replicate n (@nil positive)) = [].
Proof. by induction n. Qed.

Lemma in_entries t e : e ∈ entries t <-> exists i c, list_ t !! i = Some c /\ e ∈ c.
Proof.
  unfold entries. split.
  - intros He%list_elem_of_In%in_concat. destruct He as (c & Hc & He). apply list_elem_of_In in Hc, He.
    apply list_elem_of_lookup in Hc as [i Hi]. eauto.
  - intros (i & c & Hi & He). apply list_elem_of_In, in_concat. exists c. split; apply list_elem_of_In; [by eapply list_elem_of_lookup_2|done].
Qed.

Lemma matches_spec key hash h : matches key hash h = true <-> lh_hash h = hash /\ lh_key h = key.
Proof. unfold matches. by rewrite andb_true_iff, Z.eqb_eq, bool_decide_eq_true. Qed.

(** The loop stops at the first match. *)
Lemma find_slot_spec H key hash chain : (forall e, e ∈ chain -> is_Some (H !! e)) ->
  exists pre suf, find_slot H key hash chain = Some (pre, suf) /\ chain = pre ++ suf /\
    (forall e h, e ∈ pre -> H !! e = Some h -> matches key hash h = false) /\
    match suf with [] => True | e :: _ => exists h, H !! e = Some h /\ matches key hash h = true end.
Proof.
  induction chain as [|e chain IH]; intros Hall; cbn [find_slot].
  - exists [], []. split; [done|]. split; [done|]. split; [|done]. intros e h He. by apply elem_of_nil in He.
  - destruct (Hall e ltac:(left)) as [h Hh]. rewrite Hh. cbn [mbind option_bind]. destruct (matches key hash h) eqn:Hm.
    + exists [], (e :: chain). split; [done|]. split; [done|]. split; [|eauto]. intros e' h' He. by apply elem_of_nil in He.
    + destruct IH as (pre & suf & Hf & -> & Hpre & Hsuf); [intros x Hx; apply Hall; by right|]. rewrite Hf. cbn [mbind option_bind].
      exists (e :: pre), suf. split; [done|]. split; [done|]. split; [|done].
      intros x hx [->|Hx]%elem_of_cons Hhx; [congruence|eauto].
Qed.

Section Table.
  Variables (H : heap) (t : HandleTable) (Hok : table_ok H t).

Lemma entry_alloc e : e ∈ entries t -> exists h, H !! e = Some h.
Proof. intros (i & c & Hi & He)%in_entries. destruct (to_home _ _ Hok i c e Hi He) as (h & Hh & _). eauto. Qed.

Lemma bucket_range hash : 0 <= hash -> (bucket_of (length_ t) hash < length (list_ t))%nat.
Proof.
  intros Hh. destruct (to_length _ _ Hok) as (k & Hk & Hlen). rewrite (to_buckets _ _ Hok). unfold bucket_of. rewrite Hlen.
  replace (2 ^ k - 1) with (Z.ones k) by (rewrite Z.ones_equiv; lia). rewrite Z.land_ones by lia.
  pose proof (Z.mod_pos_bound hash (2 ^ k) ltac:(lia)). lia.
Qed.

(** The slot of a key: the chain of its bucket around it, and whether an entry
    has the key. *)
Lemma FindPointer_spec key hash : 0 <= hash ->
  exists i pre suf, FindPointer H t key hash = Some (i, pre, suf) /\ list_ t !! i = Some (pre ++ suf) /\ i = bucket_of (length_ t) hash /\
    match suf with
    | [] => forall e h, e ∈ entries t -> H !! e = Some h -> matches key hash h = false
    | e :: _ => exists h, e ∈ entries t /\ H !! e = Some h /\ matches key hash h = true
    end.
Proof.
  intros Hhash. set (i := bucket_of (length_ t) hash).
  destruct (lookup_lt_is_Some_2 (list_ t) i (bucket_range hash Hhash)) as [c Hc].
  destruct (find_slot_spec H key hash c) as (pre & suf & Hf & -> & Hpre & Hsuf).
  { intros e He. destruct (to_home _ _ Hok i c e Hc He) as (h & Hh & _). eauto. }
  exists i, pre, suf. unfold FindPointer. fold i. rewrite Hc. cbn [mbind option_bind]. rewrite Hf. split; [done|]. split; [done|]. split; [done|].
  destruct suf as [|e suf].
  - intros e h (j & c' & Hj & He)%in_entries Hh. destruct (matches key hash h) eqn:Hm; [|done].
    destruct (to_home _ _ Hok j c' e Hj He) as (h' & Hh' & Hhome). simplify_eq. apply matches_spec in Hm as Hm'. destruct Hm' as [Hhash' _].
    rewrite Hhash' in Hj. fold i in Hj. rewrite Hc, app_nil_r in Hj. injection Hj as <-. by rewrite (Hpre e h He Hh) in Hm.
  - destruct Hsuf as (h & Hh & Hm). exists h. split; [|done]. apply in_entries. exists i, (pre ++ e :: suf). split; [done|].
    apply elem_of_app. right. left.
Qed.

(** [Lookup] returns the entry with the hash and the key. *)
Lemma Lookup_spec key hash : 0 <= hash ->
  exists r, Lookup H t key hash = Some r /\
    match r with
    | Some e => exists h, e ∈ entries t /\ H !! e = Some h /\ lh_hash h = hash /\ lh_key h = key
    | None => forall e h, e ∈ entries t -> H !! e = Some h -> ~ (lh_hash h = hash /\ lh_key h = key)
    end.
Proof.
  intros Hhash. destruct (FindPointer_spec key hash Hhash) as (i & pre & suf & Hf & _ & _ & Hs). unfold Lookup. rewrite Hf.
  exists (head suf). split; [done|]. destruct suf as [|e suf]; simpl.
  - intros e h He Hh Hm%matches_spec. by rewrite (Hs e h He Hh) in Hm.
  - destruct Hs as (h & He & Hh & Hm%matches_spec). eauto.
Qed.

(** [Remove] takes that entry out. *)
Lemma Remove_spec key hash : 0 <= hash -> Z.of_nat (length (entries t)) < 2 ^ 32 ->
  exists t' r, Remove H t key hash = Some (t', r) /\ Lookup H t key hash = Some r /\ table_ok H t' /\
    match r with
    | Some e => entries t ≡ₚ e :: entries t'
    | None => t' = t
    end.
Proof.
  intros Hhash Hlt. destruct (FindPointer_spec key hash Hhash) as (i & pre & suf & Hf & Hi & _ & Hs). unfold Remove, Lookup. rewrite Hf.
  destruct suf as [|e suf]; simpl; [by exists t, None|]. eexists _, (Some e). split; [done|]. split; [done|].
  destruct (concat_split _ _ _ Hi) as (rest & Hc & Hc'). set (l' := <[i := pre ++ suf]> (list_ t)).
  assert (Hperm : entries t ≡ₚ e :: concat l') by (unfold entries, l'; rewrite Hc, Hc'; solve_Permutation).
  split; [|done]. destruct Hok as [Hlen Hb He Hn Hh Hu].
  assert (Hin : forall x, x ∈ concat l' -> x ∈ entries t) by (intros x Hx; rewrite Hperm; by right).
  split; simpl; unfold entries in *; simpl; fold l'.
  - done.
  - unfold l'. by rewrite length_insert.
  - rewrite Hperm in He, Hlt. simpl in He, Hlt. unfold u32. rewrite wrap_small; lia.
  - rewrite Hperm in Hn. by apply NoDup_cons in Hn as [_ Hn].
  - intros j c x Hj Hx. unfold l' in Hj. apply list_lookup_insert_Some in Hj as [(<- & <- & _)|[_ Hj]]; [|by eapply Hh].
    eapply Hh; [exact Hi|]. apply elem_of_app in Hx as [Hx|Hx]; apply elem_of_app; [by left|right; by right].
  - eauto.
Qed.
End Table.

(** ** Growing *)

Lemma grow_spec fuel : forall j elems, 2 <= j -> j + Z.of_nat fuel = 33 -> 0 <= elems <= 2 ^ 31 -> (2 <= fuel)%nat ->
  exists k, 2 <= k <= 31 /\ grow fuel (2 ^ j) elems = Some (2 ^ k).
Proof.
  induction fuel as [|fuel IH]; intros j elems Hj Hf He Hfu; [lia|]. cbn [grow]. destruct (Z.ltb_spec (2 ^ j) elems) as [Hlt|Hge].
  - assert (Hj' : j < 31) by (apply (Z.pow_lt_mono_r_iff 2); lia).
    unfold u32. replace (2 ^ j * 2) with (2 ^ (j + 1)) by (rewrite Z.pow_add_r by lia; lia).
    rewrite wrap_small by (split; [lia|apply Z.pow_lt_mono_r; lia]). apply IH; lia.
  - exists j. split; [|done]. lia.
Qed.

Lemma u32_add_l a b : u32 (u32 a + b) = u32 (a + b).
Proof. apply Zplus_mod_idemp_l. Qed.

Lemma u32_u32 a : u32 a = u32 (u32 a).
Proof. symmetry. apply Zmod_mod. Qed.

(** Moving entries to chains of an array of [2 ^ k] keeps them and counts them. *)
Lemma rehash_chain_spec H k chain : 0 <= k -> (forall e, e ∈ chain -> exists h, H !! e = Some h /\ 0 <= lh_hash h) -> forall l n,
  length l = Z.to_nat (2 ^ k) -> n = u32 n ->
  exists l', rehash_chain H (2 ^ k) chain l n = Some (l', u32 (n + Z.of_nat (length chain))) /\ length l' = length l /\ concat l' ≡ₚ chain ++ concat l /\
    forall (P : nat -> positive -> Prop),
      (forall i c e, l !! i = Some c -> e ∈ c -> P i e) ->
      (forall e h, e ∈ chain -> H !! e = Some h -> P (bucket_of (2 ^ k) (lh_hash h)) e) ->
      forall i c e, l' !! i = Some c -> e ∈ c -> P i e.
Proof.
  intros Hk. induction chain as [|e chain IH]; intros Hall l n Hl Hn; cbn [rehash_chain];
    [exists l; cbn [length]; rewrite Z.add_0_r, <- Hn; eauto|].
  destruct (Hall e ltac:(left)) as (h & Hh & Hhash). rewrite Hh. cbn [mbind option_bind]. set (i := bucket_of (2 ^ k) (lh_hash h)).
  assert (Hi : (i < length l)%nat).
  { unfold i, bucket_of. replace (2 ^ k - 1) with (Z.ones k) by (rewrite Z.ones_equiv; lia). rewrite Z.land_ones by lia.
    pose proof (Z.mod_pos_bound (lh_hash h) (2 ^ k) ltac:(lia)). lia. }
  destruct (lookup_lt_is_Some_2 l i Hi) as [c Hc]. rewrite Hc. cbn [mbind option_bind].
  destruct (IH ltac:(intros x Hx; apply Hall; by right) (<[i := e :: c]> l) (u32 (n + 1))) as (l' & Hr & Hlen & Hp & HP);
    [by rewrite length_insert|apply u32_u32|].
  exists l'. split; [rewrite Hr, u32_add_l; do 3 f_equal; cbn [length]; lia|]. rewrite length_insert in Hlen. split; [done|]. split.
  - destruct (concat_split l i c Hc) as (rest & Hc1 & Hc2). rewrite Hp, Hc1, Hc2. solve_Permutation.
  - intros P HPl HPc. apply HP; [|intros x hx Hx; apply HPc; by right].
    intros j cj x Hj Hx. apply list_lookup_insert_Some in Hj as [(<- & <- & _)|[_ Hj]]; [|by eapply HPl].
    apply elem_of_cons in Hx as [->|Hx]; [by apply (HPc e h ltac:(left))|by eapply HPl].
Qed.

Lemma rehash_spec H k chains : 0 <= k -> (forall e, e ∈ concat chains -> exists h, H !! e = Some h /\ 0 <= lh_hash h) -> forall l n,
  length l = Z.to_nat (2 ^ k) -> n = u32 n ->
  exists l', rehash H (2 ^ k) chains l n = Some (l', u32 (n + Z.of_nat (length (concat chains)))) /\ length l' = length l /\ concat l' ≡ₚ concat chains ++ concat l /\
    forall (P : nat -> positive -> Prop),
      (forall i c e, l !! i = Some c -> e ∈ c -> P i e) ->
      (forall e h, e ∈ concat chains -> H !! e = Some h -> P (bucket_of (2 ^ k) (lh_hash h)) e) ->
      forall i c e, l' !! i = Some c -> e ∈ c -> P i e.
Proof.
  intros Hk. induction chains as [|chain chains IH]; intros Hall l n Hl Hn; cbn [rehash];
    [exists l; cbn [length concat]; rewrite Z.add_0_r, <- Hn; eauto|]. cbn [concat] in *.
  destruct (rehash_chain_spec H k chain Hk ltac:(intros x Hx; apply Hall, elem_of_app; by left) l n Hl Hn) as (l1 & Hr1 & Hl1 & Hp1 & HP1).
  rewrite Hr1. cbn [mbind option_bind].
  destruct (IH ltac:(intros x Hx; apply Hall, elem_of_app; by right) l1 (u32 (n + Z.of_nat (length chain)))) as (l2 & Hr2 & Hl2 & Hp2 & HP2);
    [congruence|apply u32_u32|].
  exists l2. split; [rewrite Hr2, u32_add_l, length_app; do 3 f_equal; lia|]. split; [congruence|]. split; [simpl; rewrite Hp2, Hp1; solve_Permutation|].
  intros P HPl HPc. simpl in HPc. apply HP2; [apply HP1; [done|]|]; intros x hx Hx; apply HPc, elem_of_app; auto.
Qed.

(** The entries have 32-bit hashes. *)
Definition hashes_ok (H : heap) : Prop := forall e h, H !! e = Some h -> 0 <= lh_hash h < 2 ^ 32.

Lemma Resize_spec H t : hashes_ok H -> table_ok H t -> Z.of_nat (length (entries t)) <= 2 ^ 31 ->
  exists t', Resize H t = Some t' /\ table_ok H t' /\ entries t' ≡ₚ entries t.
Proof.
  intros Hhash [Hlen Hb He Hn Hh Hu] Hle. unfold Resize.
  destruct (grow_spec 31 2 (elems_ t)) as (k & Hk & Hg); [lia|lia|lia|lia|]. change (2 ^ 2) with 4 in Hg. rewrite Hg. cbn [mbind option_bind].
  destruct (rehash_spec H k (list_ t)) with (l := replicate (Z.to_nat (2 ^ k)) (@nil positive)) (n := 0) as (l' & Hr & Hl' & Hp & HP).
  - lia.
  - intros e He'. apply (in_entries t) in He' as (i & c & Hi & Hc). destruct (Hh i c e Hi Hc) as (h & Hh' & _). exists h.
    split; [done|]. by apply (Hhash e h).
  - apply length_replicate.
  - done.
  - rewrite Hr. cbn [mbind option_bind]. fold (entries t). unfold u32. rewrite Z.add_0_l, wrap_small, <- He, Z.eqb_refl by lia. cbn [negb].
    eexists. split; [done|].
    rewrite concat_replicate_nil, app_nil_r in Hp. rewrite length_replicate in Hl'. split; [|exact Hp]. split; unfold entries in *; simpl.
    + eauto.
    + done.
    + by rewrite Hp.
    + by rewrite Hp.
    + apply (HP (fun i e => exists h, H !! e = Some h /\ bucket_of (2 ^ k) (lh_hash h) = i)); [|eauto].
      intros i c e Hi Hc. apply lookup_replicate in Hi as [-> _]. by apply elem_of_nil in Hc.
    + intros e1 e2 h1 h2. rewrite !Hp. apply Hu.
Qed.

(** ** Inserting *)

(** The new entry [e] replaces the one with its key. *)
Lemma Insert_spec H t e h : hashes_ok H -> table_ok H t -> H !! e = Some h -> e ∉ entries t -> Z.of_nat (length (entries t)) < 2 ^ 31 ->
  exists t' old, Insert H t e = Some (t', old) /\ Lookup H t (lh_key h) (lh_hash h) = Some old /\ table_ok H t' /\
    match old with
    | Some o => exists rest, entries t ≡ₚ o :: rest /\ entries t' ≡ₚ e :: rest
    | None => entries t' ≡ₚ e :: entries t
    end.
Proof.
  intros Hhash Hok Hh Hni Hlt. pose proof (Hhash e h Hh) as Hrange.
  destruct (FindPointer_spec H t Hok (lh_key h) (lh_hash h) ltac:(lia)) as (i & pre & suf & Hf & Hi & Hib & Hs).
  unfold Insert, Lookup. rewrite Hh. cbn [mbind option_bind]. rewrite Hf. cbn [mbind option_bind].
  destruct (concat_split _ _ _ Hi) as (rest & Hc & Hc'). set (l' := <[i := pre ++ e :: tail suf]> (list_ t)).
  pose proof Hok as [Hlen Hb He Hn Hhome Hu].
  assert (Hbl : length l' = Z.to_nat (length_ t)) by (unfold l'; by rewrite length_insert).
  assert (Hhome' : forall j c x, l' !! j = Some c -> x ∈ c -> exists hx, H !! x = Some hx /\ bucket_of (length_ t) (lh_hash hx) = j).
  { intros j c x Hj Hx. unfold l' in Hj. apply list_lookup_insert_Some in Hj as [(<- & <- & _)|[_ Hj]]; [|by eapply Hhome].
    apply elem_of_app in Hx as [Hx|[->|Hx]%elem_of_cons]; [eapply Hhome; [exact Hi|]; apply elem_of_app; by left|eauto|].
    eapply Hhome; [exact Hi|]. apply elem_of_app. right. destruct suf; [by apply elem_of_nil in Hx|by right]. }
  destruct suf as [|o suf]; simpl in *.
  - assert (Hp : concat l' ≡ₚ e :: entries t) by (unfold l', entries; rewrite Hc', Hc; solve_Permutation).
    set (t1 := {| length_ := length_ t; elems_ := u32 (elems_ t + 1); list_ := l' |}).
    assert (Hok1 : table_ok H t1).
    { split; unfold t1, entries in *; simpl; try done.
      - rewrite Hp. simpl. unfold u32. rewrite wrap_small; lia.
      - rewrite Hp. by constructor.
      - assert (Hfresh : forall y hy, y ∈ concat (list_ t) -> H !! y = Some hy -> lh_hash hy = lh_hash h -> lh_key hy = lh_key h -> False).
        { intros y hy Hy Hhy E1 E2. specialize (Hs y hy Hy Hhy). by rewrite (proj2 (matches_spec _ _ hy)) in Hs. }
        intros x y hx hy. rewrite !Hp. intros [->|Hx]%elem_of_cons [->|Hy]%elem_of_cons Hhx Hhy E1 E2; simplify_eq; try done.
        + destruct (Hfresh y hy); auto.
        + destruct (Hfresh x hx); auto.
        + by eapply Hu. }
    destruct (Z.ltb_spec (length_ t) (u32 (elems_ t + 1))).
    + destruct (Resize_spec H t1 Hhash Hok1) as (t2 & Hr & Hok2 & Hp2); [unfold t1, entries in *; simpl; rewrite Hp; simpl; lia|].
      change (elems_ t1) with (u32 (elems_ t + 1)). fold t1. rewrite Hr. exists t2, None. split; [done|]. split; [done|]. split; [done|]. by rewrite Hp2.
    + exists t1, None. split; [done|]. split; [done|]. by split.
  - destruct Hs as (ho & Ho & Hho & Hm%matches_spec). destruct Hm as [Ehash Ekey].
    assert (Hp : entries t ≡ₚ o :: pre ++ suf ++ rest) by (unfold entries; rewrite Hc; solve_Permutation).
    assert (Hp' : concat l' ≡ₚ e :: pre ++ suf ++ rest) by (unfold l'; rewrite Hc'; solve_Permutation).
    eexists _, (Some o). split; [done|]. split; [done|]. split; [|exists (pre ++ suf ++ rest); split; [done|exact Hp']].
    assert (Hold : forall x, x ∈ pre ++ suf ++ rest -> x ∈ entries t /\ x <> o /\ x <> e).
    { rewrite Hp in Hn. apply NoDup_cons in Hn as [Hno _]. intros x Hx. rewrite Hp. split; [by right|]. split; [by intros ->|].
      intros ->. apply Hni. rewrite Hp. by right. }
    split; unfold entries in *; simpl; try done.
    + rewrite Hp in He. rewrite Hp'. done.
    + rewrite Hp'. rewrite Hp in Hn. apply NoDup_cons in Hn as [_ Hn]. constructor; [|done]. intros Hin. by apply (Hold e Hin).
    + assert (Hfresh : forall y hy, y ∈ pre ++ suf ++ rest -> H !! y = Some hy -> lh_hash hy = lh_hash h -> lh_key hy = lh_key h -> False).
      { intros y hy Hy Hhy E1 E2. destruct (Hold y Hy) as (Hy' & Hne & _). apply Hne. eapply Hu; eauto; congruence. }
      intros x y hx hy. rewrite !Hp'. intros [->|Hx]%elem_of_cons [->|Hy]%elem_of_cons Hhx Hhy E1 E2; simplify_eq; try done.
      * destruct (Hfresh y hy); auto.
      * destruct (Hfresh x hx); auto.
      * eapply Hu; eauto; by apply Hold.
Qed.

Lemma new_table_ok H : table_ok H NewHandleTable.
Proof.
  split; simpl; try done.
  - by exists 2.
  - constructor.
  - intros i c e Hi He. change [[]; []; []; []] with (replicate 4 (@nil positive)) in Hi. apply lookup_replicate in Hi as [-> _]. by apply elem_of_nil in He.
  - intros e1 e2 h1 h2 He. by apply elem_of_nil in He.
Qed.
