(* ===== verification/LruCache.v ===== *)
(** * The LRU cache

    Models [LRUCache] of src/insdb/util/cache.cc, one shard of the cache: the
    entries with their reference counts, the hash table, the list of the entries
    no client uses in the order of their last use ([lru_]) and the list of those
    in use ([in_use_]).  The circular lists are lists, oldest first.  [None] is a
    failed [assert] or an access to a freed entry.

    [CInv] is the invariant of the comment at the top of cache.cc: an entry is
    cached exactly when the table has it, a cached entry is in exactly one of
    the two lists, and its reference count is that of the cache and of the
    clients.  Every operation keeps it, as long as the clients release what they
    hold, and never fails. *)

From Stdlib Require Import ZArith Lia Bool.
From stdpp Require Import base list gmap.
From S2P Require Import Prelude HandleTable.

(** [c_heap] holds the allocated entries and [c_deleted] the calls of the
    deleters: the entry, the deleter, the key and the value. *)
Record LRUCache : Type := {
  capacity_ : Z;
  usage_ : Z;
  lru_ : list positive;
  in_use_ : list positive;
  table_ : HandleTable;
  c_heap : heap;
  c_deleted : list (positive * (Z * list Z * Z));
}.
#[export] Instance eta_LRUCache : Eta LRUCache := fun r =>
  {| capacity_ := capacity_ r; usage_ := usage_ r; lru_ := lru_ r; in_use_ := in_use_ r; table_ := table_ r;
     c_heap := c_heap r; c_deleted := c_deleted r |}.

(** The constructor and [SetCapacity]. *)
Definition NewShard (capacity : Z) : LRUCache :=
  {| capacity_ := capacity; usage_ := 0; lru_ := []; in_use_ := []; table_ := NewHandleTable; c_heap := ∅; c_deleted := [] |}.

Definition LRU_Remove (c : LRUCache) (e : positive) : option LRUCache :=
  if decide (e ∈ lru_ c) then Some (c <| lru_ ::= filter (fun x => x <> e) |>)
  else if decide (e ∈ in_use_ c) then Some (c <| in_use_ ::= filter (fun x => x <> e) |>)
  else None.

Definition LRU_Append_lru (c : LRUCache) (e : positive) : LRUCache := c <| lru_ ::= fun l => l ++ [e] |>.
Definition LRU_Append_in_use (c : LRUCache) (e : positive) : LRUCache := c <| in_use_ ::= fun l => l ++ [e] |>.

Definition set_entry (e : positive) (h : LRUHandle) (c : LRUCache) : LRUCache := c <| c_heap ::= <[e := h]> |>.

Definition Ref (c : LRUCache) (e : positive) : option LRUCache :=
  h ← c_heap c !! e;
  c ← (if (lh_refs h =? 1) && lh_in_cache h then c ← LRU_Remove c e; Some (LRU_Append_in_use c e) else Some c);
  Some (set_entry e (h <| lh_refs := u32 (lh_refs h + 1) |>) c).

Definition Unref (c : LRUCache) (e : positive) : option LRUCache :=
  h ← c_heap c !! e;
  if negb (0 <? lh_refs h) then None else
  let h := h <| lh_refs := lh_refs h - 1 |> in
  let c := set_entry e h c in
  if lh_refs h =? 0 then
    if lh_in_cache h then None
    else Some (c <| c_deleted ::= fun l => l ++ [(e, (lh_deleter h, lh_key h, lh_value h))] |> <| c_heap ::= delete e |>)
  else if lh_in_cache h && (lh_refs h =? 1) then c ← LRU_Remove c e; Some (LRU_Append_lru c e)
  else Some c.

Definition Lookup (c : LRUCache) (key : list Z) (hash : Z) : option (LRUCache * option positive) :=
  e ← HandleTable.Lookup (c_heap c) (table_ c) key hash;
  match e with
  | Some e => c ← Ref c e; Some (c, Some e)
  | None => Some (c, None)
  end.

Definition Release (c : LRUCache) (e : positive) : option LRUCache := Unref c e.

(** The flag is [e != NULL]. *)
Definition FinishErase (c : LRUCache) (e : option positive) : option (LRUCache * bool) :=
  match e with
  | None => Some (c, false)
  | Some e =>
      h ← c_heap c !! e;
      if negb (lh_in_cache h) then None else
      c ← LRU_Remove c e;
      let c := set_entry e (h <| lh_in_cache := false |>) c in
      c ← Unref (c <| usage_ := u64 (usage_ c - lh_charge h) |>) e;
      Some (c, true)
  end.

(** One entry of the LRU list leaves the cache. *)
Definition evict_oldest (c : LRUCache) (old : positive) : option LRUCache :=
  h ← c_heap c !! old;
  if negb (lh_refs h =? 1) then None else
  '(t, r) ← Remove (c_heap c) (table_ c) (lh_key h) (lh_hash h);
  '(c, erased) ← FinishErase (c <| table_ := t |>) r;
  if erased : bool then Some c else None.

(** [while (usage_ > capacity_ && lru_.next != &lru_)]. *)
Fixpoint evict (fuel : nat) (c : LRUCache) : option LRUCache :=
  match lru_ c with
  | [] => Some c
  | old :: _ =>
      if capacity_ c <? usage_ c then
        match fuel with
        | O => None
        | S fuel' => c ← evict_oldest c old; evict fuel' c
        end
      else Some c
  end.

(** The branch of [Insert] that puts the new entry in the cache. *)
Definition Insert_cached (c : LRUCache) (e : positive) (h : LRUHandle) : option LRUCache :=
  if 0 <? capacity_ c then
    let h := h <| lh_refs := lh_refs h + 1 |> <| lh_in_cache := true |> in
    let c := LRU_Append_in_use (set_entry e h c) e in
    let c := c <| usage_ := u64 (usage_ c + lh_charge h) |> in
    '(t, old) ← HandleTable.Insert (c_heap c) (table_ c) e;
    '(c, _) ← FinishErase (c <| table_ := t |>) old;
    Some c
  else Some (set_entry e h c).

(** [e] is the memory [malloc] returns. *)
Definition Insert (c : LRUCache) (e : positive) (key : list Z) (hash value charge deleter : Z) : option LRUCache :=
  let h := {| lh_value := value; lh_deleter := deleter; lh_charge := charge; lh_key := key; lh_in_cache := false; lh_refs := 1;
              lh_hash := hash |} in
  c ← Insert_cached c e h;
  evict (length (lru_ c)) c.

Definition Erase (c : LRUCache) (key : list Z) (hash : Z) : option LRUCache :=
  '(t, r) ← Remove (c_heap c) (table_ c) key hash;
  '(c, _) ← FinishErase (c <| table_ := t |>) r;
  Some c.

Fixpoint Prune_loop (fuel : nat) (c : LRUCache) : option LRUCache :=
  match lru_ c, fuel with
  | [], _ => Some c
  | e :: _, S fuel' => c ← evict_oldest c e; Prune_loop fuel' c
  | _, O => None
  end.

Definition Prune (c : LRUCache) : option LRUCache := Prune_loop (length (lru_ c)) c.

Definition TotalCharge (c : LRUCache) : Z := usage_ c.

(** The destructor: the entries of the LRU list lose the reference of the cache. *)
Fixpoint destroy_loop (l : list positive) (c : LRUCache) : option LRUCache :=
  match l with
  | [] => Some c
  | e :: l' =>
      h ← c_heap c !! e;
      if negb (lh_in_cache h) || negb (lh_refs h =? 1) then None else
      c ← Unref (set_entry e (h <| lh_in_cache := false |>) c) e;
      destroy_loop l' c
  end.

Definition DestroyShard (c : LRUCache) : option LRUCache :=
  match in_use_ c with [] => destroy_loop (lru_ c) c | _ => None end.

(** ** The invariant *)

Definition charge_of (H : heap) (e : positive) : Z := default 0 (lh_charge <$> H !! e).
Definition charge_sum (H : heap) (E : list positive) : Z := foldr (fun e n => charge_of H e + n) 0 E.

(** How many handles of an entry the clients hold. *)
Abbreviation holders := (positive -> Z).
Definition hold (held : holders) (e : positive) (d : Z) : holders := fun x => if decide (x = e) then held x + d else held x.

(** What a shard that has the entries [E] in its cache satisfies. *)
Record CInv (held : holders) (E : list positive) (c : LRUCache) : Prop := {
  ci_hashes : hashes_ok (c_heap c);
  ci_nodup : NoDup E;
  ci_cached e : e ∈ E <-> exists h, c_heap c !! e = Some h /\ lh_in_cache h = true;
  ci_refs e h : c_heap c !! e = Some h -> lh_refs h = (if lh_in_cache h then 1 else 0) + held e /\ 0 < lh_refs h;
  ci_held e : 0 <= held e /\ (0 < held e -> is_Some (c_heap c !! e));
  ci_lists : NoDup (lru_ c) /\ NoDup (in_use_ c);
  ci_lru e : e ∈ lru_ c <-> e ∈ E /\ held e = 0;
  ci_in_use e : e ∈ in_use_ c <-> e ∈ E /\ 0 < held e;
  ci_usage : usage_ c = u64 (charge_sum (c_heap c) E);
  ci_deleted : NoDup (map fst (c_deleted c)) /\ forall e, e ∈ map fst (c_deleted c) -> c_heap c !! e = None;
}.

Definition Inv (held : holders) (c : LRUCache) : Prop :=
  CInv held (entries (table_ c)) c /\ table_ok (c_heap c) (table_ c).

(** ** Frames *)

(** The table only looks at the keys and hashes of its entries. *)
Lemma table_ok_frame (H H' : heap) t : table_ok H t ->
  (forall e h, e ∈ entries t -> H !! e = Some h -> exists h', H' !! e = Some h' /\ lh_key h' = lh_key h /\ lh_hash h' = lh_hash h) ->
  table_ok H' t.
Proof.
  intros Hok Hf. pose proof Hok as [Hlen Hb He Hn Hh Hu]. split; try done.
  - intros i c e Hi Hc. destruct (Hh i c e Hi Hc) as (h & Hhe & <-).
    destruct (Hf e h) as (h' & ? & ? & E); [apply in_entries; eauto|done|]. exists h'. by rewrite E.
  - intros e1 e2 h1 h2 H1 H2 E1 E2. destruct (entry_alloc H t Hok e1 H1) as [g1 G1], (entry_alloc H t Hok e2 H2) as [g2 G2].
    destruct (Hf e1 g1 H1 G1) as (? & ? & ? & ?), (Hf e2 g2 H2 G2) as (? & ? & ? & ?). simplify_eq. intros. eapply (Hu e1 e2); eauto; congruence.
Qed.

#[export] Instance charge_sum_perm H : Proper ((≡ₚ) ==> eq) (charge_sum H).
Proof. intros l1 l2 Hp. unfold charge_sum. induction Hp; simpl; lia. Qed.

Lemma charge_sum_frame (H H' : heap) E : (forall e, e ∈ E -> charge_of H' e = charge_of H e) -> charge_sum H' E = charge_sum H E.
Proof.
  induction E as [|e E IH]; intros Hf; [done|]. simpl. rewrite Hf by left. rewrite IH; [done|]. intros x Hx. apply Hf. by right.
Qed.

Lemma CInv_perm held E E' c : E ≡ₚ E' -> CInv held E c -> CInv held E' c.
Proof.
  intros Hp [? Hn Hc ? ? ? Hl Hu Hs ?]. split; try done.
  - by rewrite <- Hp.
  - intros e. by rewrite <- Hp.
  - intros e. by rewrite <- Hp.
  - intros e. by rewrite <- Hp.
  - by rewrite <- Hp.
Qed.

Lemma Inv_ext held held' c : (forall x, held x = held' x) -> Inv held c -> Inv held' c.
Proof.
  intros Hx [[? ? ? Hr Hh ? Hl Hu ? ?] ?]. split; [split|]; try done.
  - intros e h. rewrite <- Hx. apply Hr.
  - intros e. rewrite <- Hx. apply Hh.
  - intros e. rewrite <- Hx. apply Hl.
  - intros e. rewrite <- Hx. apply Hu.
Qed.

Lemma u64_sub x y : u64 (u64 x - y) = u64 (x - y).
Proof. unfold u64, wrap. by rewrite Zminus_mod_idemp_l. Qed.
Lemma u64_add x y : u64 (u64 x + y) = u64 (x + y).
Proof. unfold u64, wrap. by rewrite Zplus_mod_idemp_l. Qed.

Lemma hold_eq held e d : hold held e d e = held e + d.
Proof. unfold hold. by rewrite decide_True. Qed.
Lemma hold_ne held e d x : x <> e -> hold held e d x = held x.
Proof. intros. unfold hold. by rewrite decide_False. Qed.

(** ** Leaving the cache *)

(** An entry is on the list its holders say. *)
Lemma LRU_Remove_ok held E c e : CInv held E c -> e ∈ E ->
  LRU_Remove c e = Some (if decide (held e = 0) then c <| lru_ ::= filter (fun x => x <> e) |>
                         else c <| in_use_ ::= filter (fun x => x <> e) |>).
Proof.
  intros I He. unfold LRU_Remove. pose proof (proj1 (ci_held _ _ _ I e)). destruct (decide (held e = 0)).
  - rewrite decide_True; [done|]. by apply (ci_lru _ _ _ I).
  - rewrite decide_False by (intros Hx; apply (ci_lru _ _ _ I) in Hx; lia).
    rewrite decide_True; [done|]. apply (ci_in_use _ _ _ I). split; [done|lia].
Qed.

Lemma charge_sum_insert (H : heap) E e h : e ∉ E -> charge_sum (<[e := h]> H) E = charge_sum H E.
Proof.
  intros He. apply charge_sum_frame. intros x Hx. unfold charge_of. rewrite lookup_insert_ne; [done|]. by intros ->.
Qed.
Lemma charge_sum_delete (H : heap) E e : e ∉ E -> charge_sum (delete e H) E = charge_sum H E.
Proof.
  intros He. apply charge_sum_frame. intros x Hx. unfold charge_of. rewrite lookup_delete_ne; [done|]. by intros ->.
Qed.

Lemma hashes_insert (H : heap) e h : hashes_ok H -> 0 <= lh_hash h < 2 ^ 32 -> hashes_ok (<[e := h]> H).
Proof. intros HH Hh x g. rewrite lookup_insert_Some. intros [[_ <-]|[_ Hx]]; [done|]. by apply (HH x). Qed.
Lemma hashes_delete (H : heap) e : hashes_ok H -> hashes_ok (delete e H).
Proof. intros HH x g Hx. apply lookup_delete_Some in Hx as [_ Hx]. by apply (HH x). Qed.

(** [FinishErase] of a cached entry: a held entry stays allocated, without the
    reference of the cache; an entry nobody holds is passed to its deleter and
    freed.  Other entries are untouched. *)
Definition after_erase (held : holders) (o : positive) (h : LRUHandle) (c : LRUCache) : LRUCache :=
  if decide (held o = 0) then
    c <| lru_ ::= filter (fun x => x <> o) |> <| usage_ := u64 (usage_ c - lh_charge h) |> <| c_heap ::= delete o |>
      <| c_deleted ::= fun l => l ++ [(o, (lh_deleter h, lh_key h, lh_value h))] |>
  else
    c <| in_use_ ::= filter (fun x => x <> o) |> <| usage_ := u64 (usage_ c - lh_charge h) |>
      <| c_heap ::= <[o := h <| lh_in_cache := false |> <| lh_refs := held o |>]> |>.

Lemma FinishErase_eq held E c o h : CInv held (o :: E) c -> c_heap c !! o = Some h ->
  FinishErase c (Some o) = Some (after_erase held o h c, true).
Proof.
  intros I Ho. destruct (proj1 (ci_cached _ _ _ I o)) as (h' & Ho' & Hin); [left|]. simplify_eq.
  destruct (ci_refs _ _ _ I o h Ho) as [Hr Hr0]. rewrite Hin in Hr.
  unfold FinishErase, after_erase. rewrite Ho. simpl. rewrite Hin. simpl.
  rewrite (LRU_Remove_ok held (o :: E)) by (done || left).
  destruct (decide (held o = 0)) as [H0|H0]; simpl; unfold Unref; simpl; rewrite lookup_insert_eq; simpl.
  - rewrite Hr, H0. simpl. unfold set_entry, upd. simpl. by rewrite insert_insert_eq, delete_insert_eq.
  - pose proof (proj1 (ci_held _ _ _ I o)). replace (0 <? lh_refs h) with true by (symmetry; lia). simpl.
    replace (lh_refs h - 1 =? 0) with false by (symmetry; lia). unfold set_entry, upd. simpl. rewrite insert_insert_eq.
    by replace (lh_refs h - 1) with (held o) by lia.
Qed.

Lemma after_erase_inv held E c o h : CInv held (o :: E) c -> c_heap c !! o = Some h -> CInv held E (after_erase held o h c).
Proof.
  intros I Ho. pose proof I as [Hh Hn Hc Hr Hheld [Hl1 Hl2] Hlru Huse Hus [Hd1 Hd2]].
  apply NoDup_cons in Hn as [HoE HnE].
  assert (Hus' : u64 (usage_ c - lh_charge h) = u64 (charge_sum (c_heap c) E)).
  { rewrite Hus, u64_sub. simpl. f_equal. unfold charge_of. rewrite Ho. simpl. lia. }
  assert (Hcase : forall e, e <> o -> e ∈ E <-> e ∈ o :: E) by (intros e He; rewrite elem_of_cons; naive_solver).
  unfold after_erase. destruct (decide (held o = 0)) as [H0|H0]; split; simpl; try done.
  - by apply hashes_delete.
  - intros e. destruct (decide (e = o)) as [->|He].
    + rewrite lookup_delete_eq. naive_solver.
    + rewrite lookup_delete_ne by done. by rewrite Hcase.
  - intros e h' He. apply lookup_delete_Some in He as [_ He]. by apply Hr.
  - intros e. split; [apply Hheld|]. intros He. rewrite lookup_delete_ne by (intros ->; lia). by apply Hheld.
  - split; [by apply NoDup_filter|done].
  - intros e. rewrite list_elem_of_filter, Hlru. destruct (decide (e = o)) as [->|He]; [naive_solver|]. rewrite Hcase by done. naive_solver.
  - intros e. rewrite Huse. destruct (decide (e = o)) as [->|He]; [split; intros [??]; [lia|done]|]. by rewrite Hcase.
  - by rewrite charge_sum_delete.
  - rewrite map_app. simpl. split.
    + apply NoDup_app. split; [done|]. split; [|apply NoDup_singleton]. intros e He ->%list_elem_of_singleton.
      apply Hd2 in He. congruence.
    + intros e He. apply elem_of_app in He as [He| ->%list_elem_of_singleton]; [|by apply lookup_delete_eq].
      rewrite lookup_delete_ne by (intros ->; apply Hd2 in He; congruence). by apply Hd2.
  - apply hashes_insert; [done|]. exact (Hh o h Ho).
  - intros e. destruct (decide (e = o)) as [->|He].
    + rewrite lookup_insert_eq. split; [done|]. intros (? & ? & ?). by simplify_eq.
    + rewrite lookup_insert_ne by done. by rewrite Hcase.
  - intros e h'. rewrite lookup_insert_Some. intros [[<- <-]|[_ He]]; [|by apply Hr]. simpl. pose proof (proj1 (Hheld o)). lia.
  - intros e. split; [apply Hheld|]. intros He. apply lookup_insert_is_Some'. right. by apply Hheld.
  - split; [done|by apply NoDup_filter].
  - intros e. rewrite Hlru. destruct (decide (e = o)) as [->|He]; [naive_solver|]. by rewrite Hcase.
  - intros e. rewrite list_elem_of_filter, Huse. destruct (decide (e = o)) as [->|He]; [naive_solver|]. rewrite Hcase by done. naive_solver.
  - by rewrite charge_sum_insert.
  - split; [done|]. intros e He. rewrite lookup_insert_ne by (intros <-; apply Hd2 in He; congruence). by apply Hd2.
Qed.

Lemma CInv_table held E c t : CInv held E c -> CInv held E (c <| table_ := t |>).
Proof. by intros []. Qed.

Lemma after_erase_heap_ne held o h c x : x <> o -> c_heap (after_erase held o h c) !! x = c_heap c !! x.
Proof.
  intros Hx. unfold after_erase. destruct (decide _); simpl; [by rewrite lookup_delete_ne|by rewrite lookup_insert_ne].
Qed.
Lemma after_erase_table held o h c : table_ (after_erase held o h c) = table_ c.
Proof. unfold after_erase. by destruct (decide _). Qed.

(** The last step of every removal: the table has lost [o], the rest follows. *)
Lemma FinishErase_ok held c t o h : CInv held (o :: entries t) c -> table_ok (c_heap c) t -> c_heap c !! o = Some h ->
  FinishErase (c <| table_ := t |>) (Some o) = Some (after_erase held o h (c <| table_ := t |>), true) /\
  Inv held (after_erase held o h (c <| table_ := t |>)).
Proof.
  intros I Ht Ho. apply (CInv_table _ _ _ t) in I. split; [by apply (FinishErase_eq _ (entries t))|].
  unfold Inv. rewrite after_erase_table. simpl. split; [by apply after_erase_inv|].
  pose proof (ci_nodup _ _ _ I) as [HoE _]%NoDup_cons.
  apply (table_ok_frame (c_heap c)); [done|]. intros e g He Hg. exists g. split; [|done].
  rewrite after_erase_heap_ne; [done|]. by intros ->.
Qed.

(** The bound on the number of entries under which the counters of the table do
    not wrap. *)
Definition small (c : LRUCache) : Prop := Z.of_nat (length (entries (table_ c))) < 2 ^ 31.

(** [FinishErase(table_.Remove(key, hash))]. *)
Lemma drop_ok held c key hash : Inv held c -> small c -> 0 <= hash ->
  exists t r c', Remove (c_heap c) (table_ c) key hash = Some (t, r) /\
    HandleTable.Lookup (c_heap c) (table_ c) key hash = Some r /\
    FinishErase (c <| table_ := t |>) r = Some (c', bool_decide (is_Some r)) /\ Inv held c' /\
    match r with
    | None => c' = c
    | Some e => exists h, c_heap c !! e = Some h /\ c' = after_erase held e h (c <| table_ := t |>) /\
                  entries (table_ c) ≡ₚ e :: entries t
    end.
Proof.
  intros [I Ht] Hs Hh. unfold small in Hs. destruct (Remove_spec _ _ Ht key hash Hh) as (t & r & Hr & Hl & Ht' & Hsp); [lia|].
  exists t, r. destruct r as [e|].
  - destruct (entry_alloc _ _ Ht e) as [h He]; [rewrite Hsp; left|].
    destruct (FinishErase_ok held c t e h) as [Hf HI]; [by apply (CInv_perm _ _ _ _ Hsp)|done|done|]. eauto 10.
  - subst t. exists c. simpl. replace (c <| table_ := table_ c |>) with c by by destruct c. done.
Qed.

(** ** Eviction *)

(** [c'] is [c] after the oldest entries of the LRU list left. *)
Definition evicted (c c' : LRUCache) : Prop :=
  capacity_ c' = capacity_ c /\ in_use_ c' = in_use_ c /\
  exists out, lru_ c = out ++ lru_ c' /\ entries (table_ c) ≡ₚ out ++ entries (table_ c') /\
    map fst (c_deleted c') = map fst (c_deleted c) ++ out /\
    forall x, c_heap c' !! x = if decide (x ∈ out) then None else c_heap c !! x.

Lemma evicted_refl c : evicted c c.
Proof.
  split; [done|]. split; [done|]. exists []. split_and!; [done|done|by rewrite app_nil_r|].
  intros x. by rewrite decide_False by apply not_elem_of_nil.
Qed.

Lemma evicted_trans c1 c2 c3 : evicted c1 c2 -> evicted c2 c3 -> evicted c1 c3.
Proof.
  intros (C & U & o & L & E & D & H) (C' & U' & o' & L' & E' & D' & H').
  split; [congruence|]. split; [congruence|]. exists (o ++ o'). rewrite L, L', D', D, E, E', !app_assoc. split_and!; try done.
  intros x. rewrite H', H. repeat case_decide; set_solver.
Qed.

Lemma evicted_small c c' : evicted c c' -> small c -> small c'.
Proof. intros (_ & _ & o & _ & E & _) Hs. unfold small in *. rewrite E, length_app in Hs. lia. Qed.

Lemma filter_head (e : positive) l : NoDup (e :: l) -> filter (fun x => x <> e) (e :: l) = l.
Proof.
  intros [He _]%NoDup_cons. rewrite filter_cons_False by naive_solver.
  induction l as [|x l IH]; [done|]. rewrite filter_cons_True by set_solver. rewrite IH; [done|]. set_solver.
Qed.

Lemma evict_oldest_ok held c old l : Inv held c -> small c -> lru_ c = old :: l ->
  exists c', evict_oldest c old = Some c' /\ Inv held c' /\ evicted c c' /\ lru_ c' = l.
Proof.
  intros [I Ht] Hs Hl. destruct (proj1 (ci_lru _ _ _ I old)) as [HE H0]; [rewrite Hl; left|].
  destruct (proj1 (ci_cached _ _ _ I old) HE) as (h & Hh & Hin). destruct (ci_refs _ _ _ I old h Hh) as [Hr _].
  pose proof (ci_hashes _ _ _ I old h Hh) as Hrange.
  destruct (drop_ok held c (lh_key h) (lh_hash h)) as (t & r & c' & Hrem & Hlook & Hf & HI & Hr'); [done|done|lia|].
  unfold evict_oldest. rewrite Hh. simpl. rewrite Hr, Hin, H0. simpl. rewrite Hrem. simpl. rewrite Hf. simpl.
  destruct (Lookup_spec _ _ Ht (lh_key h) (lh_hash h)) as (r2 & Hl2 & Hm); [lia|]. rewrite Hlook in Hl2. simplify_eq.
  destruct r2 as [e|]; [|by destruct (Hm old h)]. destruct Hm as (g & Hg & Hge & ? & ?).
  assert (e = old) as -> by by apply (to_uniq _ _ Ht e old g h). destruct Hr' as (g' & ? & -> & Hp). simplify_eq.
  rewrite bool_decide_eq_true_2 by eauto. simpl. eexists. split; [done|]. split; [done|].
  unfold after_erase, evicted. rewrite decide_True by done. simpl. rewrite Hl, filter_head by (rewrite <- Hl; apply (ci_lists _ _ _ I)).
  split; [|done]. split; [done|]. split; [done|]. exists [old]. rewrite map_app. split_and!; try done.
  intros x. destruct (decide (x = old)) as [->|Hx].
  - by rewrite lookup_delete_eq, decide_True by set_solver.
  - by rewrite lookup_delete_ne, decide_False by set_solver.
Qed.

(** The loop of [Insert] stops, when the charges fit or nothing is left to evict. *)
Lemma evict_ok held : forall n c, length (lru_ c) = n -> Inv held c -> small c ->
  exists c', evict n c = Some c' /\ Inv held c' /\ evicted c c' /\ (usage_ c' <= capacity_ c' \/ lru_ c' = []).
Proof.
  induction n as [|n IH]; intros c Hn I Hs.
  - apply length_zero_iff_nil in Hn. simpl. rewrite Hn. eauto 10 using evicted_refl.
  - destruct (lru_ c) as [|old l] eqn:Hl; [done|]. simpl. rewrite Hl. destruct (_ <? _) eqn:Hu.
    + destruct (evict_oldest_ok held c old l I Hs Hl) as (c1 & -> & I1 & V1 & L1). simpl.
      destruct (IH c1) as (c' & -> & I' & V' & U'); [rewrite L1; simpl in Hn; lia|done|by apply (evicted_small c)|].
      eauto 10 using evicted_trans.
    + b2p. eauto 10 using evicted_refl.
Qed.

Lemma Prune_loop_ok held : forall n c, length (lru_ c) = n -> Inv held c -> small c ->
  exists c', Prune_loop n c = Some c' /\ Inv held c' /\ evicted c c' /\ lru_ c' = [].
Proof.
  induction n as [|n IH]; intros c Hn I Hs.
  - apply length_zero_iff_nil in Hn. simpl. rewrite Hn. eauto 10 using evicted_refl.
  - destruct (lru_ c) as [|old l] eqn:Hl; [done|]. simpl. rewrite Hl.
    destruct (evict_oldest_ok held c old l I Hs Hl) as (c1 & -> & I1 & V1 & L1). simpl.
    destruct (IH c1) as (c' & -> & I' & V' & U'); [rewrite L1; simpl in Hn; lia|done|by apply (evicted_small c)|].
    eauto 10 using evicted_trans.
Qed.

(** ** References *)

Lemma charge_sum_same (H : heap) E e h g : H !! e = Some h -> lh_charge g = lh_charge h -> charge_sum (<[e := g]> H) E = charge_sum H E.
Proof.
  intros Hh Hg. apply charge_sum_frame. intros x _. unfold charge_of.
  destruct (decide (x = e)) as [->|]; [rewrite lookup_insert_eq, Hh; simpl; by rewrite Hg|by rewrite lookup_insert_ne].
Qed.

Lemma table_ok_same H t e h g : table_ok H t -> H !! e = Some h -> lh_key g = lh_key h -> lh_hash g = lh_hash h ->
  table_ok (<[e := g]> H) t.
Proof.
  intros Ht Hh Hk Hs. apply (table_ok_frame H); [done|]. intros x h' _ Hx. destruct (decide (x = e)) as [->|].
  - simplify_eq. exists g. by rewrite lookup_insert_eq.
  - exists h'. by rewrite lookup_insert_ne.
Qed.

(** A client takes ([d = 1]) or gives back ([d = -1]) a reference of [e], which
    stays allocated. *)
Lemma recount_ok held c e h d lru use : Inv held c -> c_heap c !! e = Some h -> 0 <= held e + d -> 0 < lh_refs h + d ->
  NoDup lru -> NoDup use ->
  (forall x, x ∈ lru <-> x ∈ entries (table_ c) /\ hold held e d x = 0) ->
  (forall x, x ∈ use <-> x ∈ entries (table_ c) /\ 0 < hold held e d x) ->
  Inv (hold held e d) (c <| lru_ := lru |> <| in_use_ := use |> <| c_heap ::= <[e := h <| lh_refs := lh_refs h + d |>]> |>).
Proof.
  intros [I Ht] Hh Hd Hr N1 N2 L1 L2. pose proof I as [Hhash Hn Hc Hrefs Hheld _ _ _ Hus [Hd1 Hd2]].
  split; [split; simpl; try done|simpl; by apply (table_ok_same _ _ e h)].
  - apply hashes_insert; [done|]. exact (Hhash e h Hh).
  - intros x. rewrite Hc. destruct (decide (x = e)) as [->|]; [rewrite lookup_insert_eq|by rewrite lookup_insert_ne].
    rewrite Hh. split; intros (g & ? & ?); simplify_eq; [|simpl in *]; eauto.
  - intros x g. rewrite lookup_insert_Some. intros [[<- <-]|[Hx Hg]].
    + rewrite hold_eq. simpl. destruct (Hrefs e h Hh). split; [lia|done].
    + rewrite hold_ne by done. by apply Hrefs.
  - intros x. destruct (decide (x = e)) as [->|].
    + rewrite hold_eq, lookup_insert_eq. split; [done|]. eauto.
    + rewrite hold_ne, lookup_insert_ne by done. apply Hheld.
  - by rewrite (charge_sum_same _ _ e h).
  - split; [done|]. intros x Hx. rewrite lookup_insert_ne by (intros <-; apply Hd2 in Hx; congruence). by apply Hd2.
Qed.

Lemma NoDup_move (e : positive) l : NoDup l -> e ∉ l -> NoDup (l ++ [e]).
Proof. intros. apply NoDup_app. split; [done|]. split; [set_solver|apply NoDup_singleton]. Qed.

Lemma Ref_ok held c e h : Inv held c -> e ∈ entries (table_ c) -> c_heap c !! e = Some h -> held e + 2 < 2 ^ 32 ->
  exists c', Ref c e = Some c' /\ Inv (hold held e 1) c' /\ table_ c' = table_ c /\ capacity_ c' = capacity_ c /\
    c_deleted c' = c_deleted c /\ c_heap c' = <[e := h <| lh_refs := lh_refs h + 1 |>]> (c_heap c).
Proof.
  intros HI He Hh Hb. pose proof HI as [I _]. destruct (proj1 (ci_cached _ _ _ I e) He) as (h' & ? & Hin). simplify_eq.
  destruct (ci_refs _ _ _ I e h Hh) as [Hr Hr0]. rewrite Hin in Hr. pose proof (proj1 (ci_held _ _ _ I e)) as Hp.
  destruct (ci_lists _ _ _ I) as [N1 N2].
  assert (Hu : u32 (lh_refs h + 1) = lh_refs h + 1) by (apply Z.mod_small; lia).
  unfold Ref. rewrite Hh. simpl. rewrite Hin, Hu, andb_true_r. destruct (decide (held e = 0)) as [H0|H0].
  - replace (lh_refs h =? 1) with true by (symmetry; lia). rewrite (LRU_Remove_ok held _ c e I He), decide_True by done. simpl.
    eexists. split; [done|]. split; [|done].
    apply (recount_ok held c e h 1 (filter (fun x => x <> e) (lru_ c)) (in_use_ c ++ [e])); try done; try lia.
    + by apply NoDup_filter.
    + apply NoDup_move; [done|]. intros Hx%(ci_in_use _ _ _ I). lia.
    + intros x. rewrite list_elem_of_filter, (ci_lru _ _ _ I). unfold hold. case_decide; subst; [split; [naive_solver|lia]|naive_solver].
    + intros x. rewrite elem_of_app, list_elem_of_singleton, (ci_in_use _ _ _ I). unfold hold. case_decide; subst; [|naive_solver].
      split; [intros _; split; [done|lia]|by right].
  - replace (lh_refs h =? 1) with false by (symmetry; lia). eexists. split; [done|]. split; [|done].
    apply (recount_ok held c e h 1 (lru_ c) (in_use_ c)); try done; try lia.
    + intros x. rewrite (ci_lru _ _ _ I). unfold hold. case_decide; subst; [split; [naive_solver|lia]|done].
    + intros x. rewrite (ci_in_use _ _ _ I). unfold hold. case_decide; subst; [|done]. split; intros [? _]; (split; [done|lia]).
Qed.

(** The last client of an entry that has left the cache releases it. *)
Lemma last_ref_ok held c e h x : Inv held c -> c_heap c !! e = Some h -> lh_in_cache h = false -> held e = 1 ->
  Inv (hold held e (-1)) (c <| c_deleted ::= fun l => l ++ [(e, x)] |> <| c_heap ::= delete e |>).
Proof.
  intros [I Ht] Hh Hin H1. pose proof I as [Hhash Hn Hc Hrefs Hheld Hl Hlru Huse Hus [Hd1 Hd2]].
  assert (HE : e ∉ entries (table_ c)) by (intros (? & ? & ?)%Hc; congruence).
  assert (Hfar : forall y, y ∈ entries (table_ c) -> y <> e) by (intros y Hy ->; done).
  split; [split; simpl; try done|simpl; apply (table_ok_frame (c_heap c)); [done|]].
  - by apply hashes_delete.
  - intros y. rewrite Hc. destruct (decide (y = e)) as [->|]; [|by rewrite lookup_delete_ne]. rewrite lookup_delete_eq, Hh. naive_solver.
  - intros y g [Hy Hg]%lookup_delete_Some. rewrite hold_ne by done. by apply Hrefs.
  - intros y. destruct (decide (y = e)) as [->|]; [rewrite hold_eq; lia|]. rewrite hold_ne, lookup_delete_ne by done. apply Hheld.
  - intros y. rewrite Hlru. split; intros [Hy ?]; (split; [done|]); rewrite hold_ne in * by auto; done.
  - intros y. rewrite Huse. split; intros [Hy ?]; (split; [done|]); rewrite hold_ne in * by auto; done.
  - by rewrite charge_sum_delete.
  - rewrite map_app. simpl. split; [apply NoDup_move; [done|]; intros Hy%Hd2; congruence|].
    intros y [Hy| ->%list_elem_of_singleton]%elem_of_app; [|apply lookup_delete_eq].
    rewrite lookup_delete_ne by (intros ->; apply Hd2 in Hy; congruence). by apply Hd2.
  - intros y g Hy Hg. exists g. by rewrite lookup_delete_ne by (intros ->; done).
Qed.

Lemma Release_ok held c e h : Inv held c -> 0 < held e -> c_heap c !! e = Some h ->
  exists c', Release c e = Some c' /\ Inv (hold held e (-1)) c' /\ table_ c' = table_ c /\ capacity_ c' = capacity_ c /\
    c_heap c' = (if lh_refs h =? 1 then delete e (c_heap c) else <[e := h <| lh_refs := lh_refs h - 1 |>]> (c_heap c)) /\
    c_deleted c' = c_deleted c ++ (if lh_refs h =? 1 then [(e, (lh_deleter h, lh_key h, lh_value h))] else []).
Proof.
  intros HI Hp Hh. pose proof HI as [I _]. destruct (ci_refs _ _ _ I e h Hh) as [Hr Hr0]. destruct (ci_lists _ _ _ I) as [N1 N2].
  unfold Release, Unref. rewrite Hh. simpl. replace (0 <? lh_refs h) with true by (symmetry; lia). simpl.
  destruct (lh_in_cache h) eqn:Hin.
  - assert (He : e ∈ entries (table_ c)) by (apply (ci_cached _ _ _ I); eauto).
    replace (lh_refs h - 1 =? 0) with false by (symmetry; lia). replace (lh_refs h =? 1) with false by (symmetry; lia). simpl.
    destruct (lh_refs h - 1 =? 1) eqn:H2; b2p; simpl.
    + unfold LRU_Remove. simpl. rewrite decide_False by (intros [_ ?]%(ci_lru _ _ _ I); lia).
      rewrite decide_True by by apply (ci_in_use _ _ _ I). simpl. eexists. split; [done|].
      split; [|split_and!; [done|done|done|by rewrite app_nil_r]].
      apply (recount_ok held c e h (-1) (lru_ c ++ [e]) (filter (fun x => x <> e) (in_use_ c))); try done; try lia.
      * apply NoDup_move; [done|]. intros [_ ?]%(ci_lru _ _ _ I). lia.
      * by apply NoDup_filter.
      * intros x. rewrite elem_of_app, list_elem_of_singleton, (ci_lru _ _ _ I). unfold hold. case_decide; subst; [|naive_solver].
        split; [intros _; split; [done|lia]|by right].
      * intros x. rewrite list_elem_of_filter, (ci_in_use _ _ _ I). unfold hold. case_decide; subst; [split; [naive_solver|lia]|naive_solver].
    + eexists. split; [done|]. split; [|split_and!; [done|done|done|by rewrite app_nil_r]].
      apply (recount_ok held c e h (-1) (lru_ c) (in_use_ c)); try done; try lia.
      * intros x. rewrite (ci_lru _ _ _ I). unfold hold. case_decide; subst; [split; lia|done].
      * intros x. rewrite (ci_in_use _ _ _ I). unfold hold. case_decide; subst; [|done]. split; intros [? _]; (split; [done|lia]).
  - destruct (lh_refs h =? 1) eqn:H1; b2p.
    + rewrite H1. simpl. eexists. split; [done|]. unfold set_entry, upd. simpl. rewrite delete_insert_eq.
      split; [|done]. apply (last_ref_ok held c e h _ HI Hh Hin). lia.
    + replace (lh_refs h - 1 =? 0) with false by (symmetry; lia). eexists. split; [done|].
      split; [|split_and!; [done|done|done|by rewrite app_nil_r]].
      assert (He : e ∉ entries (table_ c)) by (intros (? & ? & ?)%(ci_cached _ _ _ I); congruence).
      apply (recount_ok held c e h (-1) (lru_ c) (in_use_ c)); try done; try lia.
      * intros x. rewrite (ci_lru _ _ _ I). unfold hold. case_decide; subst; [split; intros [? _]; done|done].
      * intros x. rewrite (ci_in_use _ _ _ I). unfold hold. case_decide; subst; [split; intros [? _]; done|done].
Qed.

(** ** What an operation does to a shard *)

Definition same_data (h h' : LRUHandle) : Prop :=
  lh_key h' = lh_key h /\ lh_hash h' = lh_hash h /\ lh_value h' = lh_value h /\ lh_deleter h' = lh_deleter h /\
  lh_charge h' = lh_charge h.

(** The operation allocates [new] and takes the entry of the key [gone] out of
    the cache: what a client can see of the others does not change, an entry in
    use stays cached, and the freed entries are the ones passed to a deleter. *)
Record effect (held : holders) (new : option positive) (gone : option (list Z * Z)) (c c' : LRUCache) : Prop := {
  ef_capacity : capacity_ c' = capacity_ c;
  ef_heap x h' : c_heap c' !! x = Some h' -> new <> Some x -> exists h, c_heap c !! x = Some h /\ same_data h h';
  ef_entries x h : x ∈ entries (table_ c') -> new <> Some x -> c_heap c !! x = Some h ->
    x ∈ entries (table_ c) /\ gone <> Some (lh_key h, lh_hash h);
  ef_stay x h : x ∈ entries (table_ c) -> c_heap c !! x = Some h -> 0 < held x -> gone <> Some (lh_key h, lh_hash h) ->
    x ∈ entries (table_ c');
  ef_deleted x : x ∈ map fst (c_deleted c') <-> x ∈ map fst (c_deleted c) \/ (is_Some (c_heap c !! x) /\ c_heap c' !! x = None);
}.

Lemma same_data_refl h : same_data h h.
Proof. done. Qed.
Lemma same_data_refs h r : same_data h (h <| lh_refs := r |>).
Proof. done. Qed.
Lemma same_data_out h b r : same_data h (h <| lh_in_cache := b |> <| lh_refs := r |>).
Proof. done. Qed.
#[export] Hint Resolve same_data_refl same_data_refs same_data_out : core.

Lemma updated_not_freed (H : heap) e g x : is_Some (H !! x) -> <[e := g]> H !! x = None -> False.
Proof. intros [h Hx] [Hn _]%lookup_insert_None. congruence. Qed.

Lemma freed_delete (H : heap) e h x (D : Prop) : H !! e = Some h -> D \/ x = e <-> D \/ (is_Some (H !! x) /\ delete e H !! x = None).
Proof.
  intros He. split; (intros [?|Hx]; [by left|right]).
  - subst x. rewrite lookup_delete_eq. eauto.
  - destruct Hx as [[g Hg] [->|Hx]%lookup_delete_None]; [done|congruence].
Qed.

Lemma effect_none held new gone c : (forall e h, e ∈ entries (table_ c) -> c_heap c !! e = Some h -> gone <> Some (lh_key h, lh_hash h)) ->
  effect held new gone c c.
Proof.
  intros Hg. split; eauto. intros x. split; [auto|]. intros [?|[[h Hx] Hn]]; [done|congruence].
Qed.

Lemma Lookup_ok held c key hash : Inv held c -> 0 <= hash -> (forall e, held e + 2 < 2 ^ 32) ->
  exists c' r, Lookup c key hash = Some (c', r) /\ effect held None None c c' /\ table_ c' = table_ c /\
    HandleTable.Lookup (c_heap c) (table_ c) key hash = Some r /\
    match r with Some e => Inv (hold held e 1) c' | None => c' = c end.
Proof.
  intros HI Hh Hb. pose proof HI as [I Ht]. unfold Lookup. destruct (Lookup_spec _ _ Ht key hash Hh) as ([e|] & -> & Hm); simpl.
  - destruct Hm as (h & He & Hhe & _). destruct (Ref_ok held c e h HI He Hhe (Hb e)) as (c' & -> & HI' & HT & HC & HD & HH). simpl.
    exists c', (Some e). split_and!; try done. split; try done.
    + intros x h' Hx _. rewrite HH in Hx. apply lookup_insert_Some in Hx as [[<- <-]|[_ ?]]; eauto.
    + rewrite HT. naive_solver.
    + by rewrite HT.
    + intros x. rewrite HD, HH. split; [naive_solver|]. intros [?|[? ?%updated_not_freed]]; done.
  - exists c, None. split_and!; try done. by apply effect_none.
Qed.

Lemma Release_effect held c e : Inv held c -> 0 < held e ->
  exists c', Release c e = Some c' /\ effect held None None c c' /\ table_ c' = table_ c /\ Inv (hold held e (-1)) c'.
Proof.
  intros HI Hp. pose proof HI as [I Ht]. destruct (proj2 (ci_held _ _ _ I e) Hp) as [h Hh].
  destruct (Release_ok held c e h HI Hp Hh) as (c' & -> & HI' & HT & HC & HH & HD).
  exists c'. split_and!; try done. split; try done.
  - intros x h' Hx _. rewrite HH in Hx. destruct (_ =? _); [apply lookup_delete_Some in Hx as [_ ?]; eauto|].
    apply lookup_insert_Some in Hx as [[<- <-]|[_ ?]]; eauto.
  - rewrite HT. naive_solver.
  - by rewrite HT.
  - intros x. rewrite HD, HH, map_app. destruct (_ =? _); simpl.
    + rewrite elem_of_app, list_elem_of_singleton. by apply (freed_delete _ e h).
    + rewrite app_nil_r. split; [naive_solver|]. intros [?|[? ?%updated_not_freed]]; done.
Qed.

Lemma after_erase_deleted held o h c : c_heap c !! o = Some h ->
  forall x, x ∈ map fst (c_deleted (after_erase held o h c)) <->
    x ∈ map fst (c_deleted c) \/ (is_Some (c_heap c !! x) /\ c_heap (after_erase held o h c) !! x = None).
Proof.
  intros Ho x. unfold after_erase. destruct (decide _); simpl.
  - rewrite map_app, elem_of_app. simpl. rewrite list_elem_of_singleton. by apply (freed_delete _ o h).
  - split; [naive_solver|]. intros [?|[? ?%updated_not_freed]]; done.
Qed.

Lemma after_erase_heap held o h c x h' : c_heap c !! o = Some h -> c_heap (after_erase held o h c) !! x = Some h' ->
  exists g, c_heap c !! x = Some g /\ same_data g h'.
Proof.
  intros Ho. unfold after_erase. destruct (decide _); simpl.
  - intros [_ ?]%lookup_delete_Some. eauto.
  - intros [[<- <-]|[_ ?]]%lookup_insert_Some; eauto.
Qed.

Lemma Erase_ok held c key hash : Inv held c -> small c -> 0 <= hash ->
  exists c', Erase c key hash = Some c' /\ effect held None (Some (key, hash)) c c' /\ Inv held c'.
Proof.
  intros HI Hs Hh. pose proof HI as [I Ht]. destruct (drop_ok held c key hash HI Hs Hh) as (t & r & c' & Hrem & Hl & Hf & HI' & Hr).
  unfold Erase. rewrite Hrem. simpl. rewrite Hf. simpl. exists c'. split_and!; try done.
  destruct (Lookup_spec _ _ Ht key hash Hh) as (r' & Hl' & Hm). rewrite Hl in Hl'. injection Hl' as <-. destruct r as [e|].
  - destruct Hr as (h & He & -> & Hp). destruct Hm as (h' & HE & ? & Hhash & Hkey). simplify_eq.
    pose proof (ci_nodup _ _ _ I) as HN. rewrite Hp in HN. apply NoDup_cons in HN as [HeE _].
    split.
    + unfold after_erase. by destruct (decide _).
    + intros x h' Hx _. by eapply after_erase_heap in Hx.
    + rewrite after_erase_table. simpl. intros x g Hx _ Hg. split; [rewrite Hp; by right|]. intros [= E1 E2].
      assert (x = e) by (apply (to_uniq _ _ Ht x e g h); try done; rewrite Hp; by right). by subst.
    + rewrite after_erase_table. simpl. intros x g Hx Hg _ Hne. rewrite Hp in Hx. apply elem_of_cons in Hx as [->|?]; [|done]. naive_solver.
    + intros x. by refine (after_erase_deleted held e h (c <| table_ := t |>) _ x).
  - subst c'. apply effect_none. intros e h He Hg [= E1 E2]. by apply (Hm e h).
Qed.

Lemma evicted_effect held c c' : Inv held c -> evicted c c' -> effect held None None c c'.
Proof.
  intros [I _] (HC & _ & out & HL & HE & HD & HH).
  assert (Hout : forall x, x ∈ out -> x ∈ entries (table_ c) /\ held x = 0).
  { intros x Hx. apply (ci_lru _ _ _ I). rewrite HL. set_solver. }
  split; try done.
  - intros x h' Hx _. rewrite HH in Hx. case_decide; [done|eauto].
  - intros x h Hx _ _. split; [rewrite HE; set_solver|done].
  - intros x h Hx _ Hp _. rewrite HE in Hx. apply elem_of_app in Hx as [[_ ?]%Hout|?]; [lia|done].
  - intros x. rewrite HD, elem_of_app, HH. case_decide as Hx.
    + split; [|by intros _; right]. intros _. right. split; [|done].
      apply Hout in Hx as [(h & ? & _)%(ci_cached _ _ _ I) _]. eauto.
    + split; [naive_solver|]. intros [?|[[g Hg] Hn]]; [by left|congruence].
Qed.

Lemma Prune_ok held c : Inv held c -> small c ->
  exists c', Prune c = Some c' /\ effect held None None c c' /\ Inv held c' /\ lru_ c' = [].
Proof.
  intros HI Hs. destruct (Prune_loop_ok held _ c eq_refl HI Hs) as (c' & ? & ? & ? & ?).
  exists c'. split_and!; try done. by apply evicted_effect.
Qed.

(** ** Inserting *)

(** [malloc] returns memory that no entry of this shard has had. *)
Definition fresh_entry (c : LRUCache) (e : positive) : Prop := c_heap c !! e = None /\ e ∉ map fst (c_deleted c).

Lemma fresh_facts held c p : Inv held c -> fresh_entry c p -> held p = 0 /\ p ∉ entries (table_ c).
Proof.
  intros [I _] [Hp _]. destruct (ci_held _ _ _ I p) as [H0 H1]. split.
  - destruct (decide (held p = 0)); [done|]. destruct H1 as [h ?]; [lia|congruence].
  - intros (h & ? & _)%(ci_cached _ _ _ I). congruence.
Qed.

(** The new entry, held by the client and by the cache if that has room. *)
Lemma alloc_ok held c p h use us : Inv held c -> fresh_entry c p -> 0 <= lh_hash h < 2 ^ 32 ->
  lh_refs h = (if lh_in_cache h then 1 else 0) + 1 ->
  use = in_use_ c ++ (if lh_in_cache h then [p] else []) ->
  us = (if lh_in_cache h then u64 (usage_ c + lh_charge h) else usage_ c) ->
  CInv (hold held p 1) ((if lh_in_cache h then [p] else []) ++ entries (table_ c))
    (c <| c_heap ::= <[p := h]> |> <| in_use_ := use |> <| usage_ := us |>).
Proof.
  intros HI Hf Hh Hr -> ->. destruct (fresh_facts held c p HI Hf) as [Hp0 HpE]. destruct Hf as [Hp Hpd].
  destruct HI as [[Hhash Hn Hc Hrefs Hheld [Hl1 Hl2] Hlru Huse Hus [Hd1 Hd2]] _].
  assert (Hpu : p ∉ in_use_ c) by (intros [? _]%Huse; done). assert (Hpl : p ∉ lru_ c) by (intros [? _]%Hlru; done).
  assert (Hx : forall x, x <> p -> x ∈ (if lh_in_cache h then [p] else []) ++ entries (table_ c) <-> x ∈ entries (table_ c))
    by (intros; destruct (lh_in_cache h); set_solver).
  assert (Hpin : p ∈ (if lh_in_cache h then [p] else []) ++ entries (table_ c) <-> lh_in_cache h = true)
    by (destruct (lh_in_cache h); set_solver).
  split; simpl.
  - by apply hashes_insert.
  - destruct (lh_in_cache h); simpl; [by apply NoDup_cons|done].
  - intros x. destruct (decide (x = p)) as [->|Hne].
    + rewrite Hpin, lookup_insert_eq. naive_solver.
    + rewrite Hx, lookup_insert_ne by done. apply Hc.
  - intros x g. rewrite lookup_insert_Some. intros [[<- <-]|[? ?]].
    + rewrite hold_eq, Hp0, Hr. destruct (lh_in_cache h); lia.
    + rewrite hold_ne by done. by apply Hrefs.
  - intros x. destruct (decide (x = p)) as [->|Hne].
    + rewrite hold_eq, lookup_insert_eq. split; [lia|eauto].
    + rewrite hold_ne, lookup_insert_ne by done. apply Hheld.
  - split; [done|]. destruct (lh_in_cache h); [by apply NoDup_move|by rewrite app_nil_r].
  - intros x. destruct (decide (x = p)) as [->|Hne]; [rewrite hold_eq; split; [done|lia]|]. rewrite hold_ne, Hx by done. apply Hlru.
  - intros x. destruct (decide (x = p)) as [->|Hne].
    + rewrite hold_eq, Hpin, elem_of_app. destruct (lh_in_cache h); rewrite ?list_elem_of_singleton, ?elem_of_nil.
      * split; [intros _; split; [done|lia]|by right].
      * split; [by intros [?|?]|by intros [? _]].
    + rewrite hold_ne, Hx, <- Huse, elem_of_app by done. destruct (lh_in_cache h); rewrite ?list_elem_of_singleton, ?elem_of_nil; naive_solver.
  - destruct (lh_in_cache h); simpl; rewrite ?charge_sum_insert, Hus by done; [|done].
    unfold charge_of. rewrite lookup_insert_eq, u64_add. simpl. f_equal. lia.
  - split; [done|]. intros x Hxd. rewrite lookup_insert_ne by (intros <-; done). by apply Hd2.
Qed.

(** The table counts its entries in a 32-bit word. *)
Definition room (c : LRUCache) : Prop := Z.of_nat (length (entries (table_ c))) + 1 < 2 ^ 31.

Lemma table_ok_fresh c p h held : Inv held c -> fresh_entry c p -> table_ok (<[p := h]> (c_heap c)) (table_ c).
Proof.
  intros HI Hf. destruct (fresh_facts _ _ _ HI Hf) as [_ HpE]. apply (table_ok_frame (c_heap c)); [apply HI|].
  intros x g Hx Hg. exists g. by rewrite lookup_insert_ne by (intros ->; done).
Qed.

(** The entry as the cache has it: the steps of [Insert] before [table_.Insert]. *)
Definition entered (c : LRUCache) (p : positive) (h : LRUHandle) : LRUCache :=
  c <| c_heap ::= <[p := h]> |> <| in_use_ := in_use_ c ++ [p] |> <| usage_ := u64 (usage_ c + lh_charge h) |>.

(** A table that had no entry of the key gets the new one. *)
Lemma entered_effect held c p h t : Inv held c -> fresh_entry c p ->
  entries t ≡ₚ p :: entries (table_ c) ->
  (forall e g, e ∈ entries (table_ c) -> <[p := h]> (c_heap c) !! e = Some g -> ~ (lh_hash g = lh_hash h /\ lh_key g = lh_key h)) ->
  effect held (Some p) (Some (lh_key h, lh_hash h)) c ((entered c p h) <| table_ := t |>).
Proof.
  intros HI Hf Hp Hno. destruct (fresh_facts _ _ _ HI Hf) as [_ HpE]. destruct Hf as [Hf1 Hf2]. split; simpl; try done.
  - intros x g. rewrite lookup_insert_Some. intros [[-> _]|[_ ?]]; [done|eauto].
  - intros x g Hx Hne Hg. rewrite Hp in Hx. apply elem_of_cons in Hx as [->|Hx]; [done|]. split; [done|].
    intros [= E1 E2]. apply (Hno x g); [done|by rewrite lookup_insert_ne by congruence|done].
  - intros x g Hx _ _ _. rewrite Hp. by right.
  - intros x. split; [auto|]. intros [?|[? ?%updated_not_freed]]; done.
Qed.

(** A table that had one replaces it. *)
Lemma replaced_effect held held' c p h t o ho rest : Inv held c -> fresh_entry c p -> held' o = held o ->
  entries (table_ c) ≡ₚ o :: rest -> entries t ≡ₚ p :: rest -> c_heap c !! o = Some ho ->
  lh_hash ho = lh_hash h -> lh_key ho = lh_key h ->
  effect held (Some p) (Some (lh_key h, lh_hash h)) c (after_erase held' o ho ((entered c p h) <| table_ := t |>)).
Proof.
  intros HI Hf Hho Hp Hp' Ho E1 E2. destruct (fresh_facts _ _ _ HI Hf) as [_ HpE]. destruct Hf as [Hf1 Hf2]. pose proof HI as [I Ht].
  assert (Hop : o <> p) by (intros ->; congruence).
  assert (HoR : o ∉ rest) by (pose proof (ci_nodup _ _ _ I) as HN; rewrite Hp in HN; by apply NoDup_cons in HN as [? _]).
  assert (Ho' : c_heap ((entered c p h) <| table_ := t |>) !! o = Some ho) by (simpl; by rewrite lookup_insert_ne).
  split; rewrite ?after_erase_table; simpl.
  - unfold after_erase. by destruct (decide _).
  - intros x g Hx Hne. destruct (after_erase_heap _ _ _ _ _ _ Ho' Hx) as (g' & Hg' & ?). simpl in Hg'.
    rewrite lookup_insert_ne in Hg' by congruence. eauto.
  - intros x g Hx Hne Hg. rewrite Hp' in Hx. apply elem_of_cons in Hx as [->|Hx]; [done|].
    split; [rewrite Hp; by right|]. intros [= K1 K2].
    assert (x = o) by (apply (to_uniq _ _ Ht x o g ho); rewrite ?Hp; first [done|congruence|by left|by right]). by subst.
  - intros x g Hx Hg _ Hne. rewrite Hp in Hx. rewrite Hp'. apply elem_of_cons in Hx as [->|Hx]; [|by right].
    simplify_eq. by rewrite E1, E2 in Hne.
  - intros x. rewrite (after_erase_deleted held' o ho _ Ho' x). simpl. split; (intros [?|[[g Hg] Hn]]; [by left|]).
    + destruct (decide (x = o)) as [->|Hx]; [right; eauto|]. rewrite after_erase_heap_ne in Hn by done. simpl in Hn. congruence.
    + right. split; [|done]. rewrite lookup_insert_ne by (intros ->; congruence). eauto.
Qed.

Lemma store_entry_ok held c p h : Inv held c -> room c -> fresh_entry c p -> 0 <= lh_hash h < 2 ^ 32 -> lh_refs h = 2 -> lh_in_cache h = true ->
  exists t old c1 b, HandleTable.Insert (<[p := h]> (c_heap c)) (table_ c) p = Some (t, old) /\
    FinishErase ((entered c p h) <| table_ := t |>) old = Some (c1, b) /\ Inv (hold held p 1) c1 /\ small c1 /\
    effect held (Some p) (Some (lh_key h, lh_hash h)) c c1 /\ c_heap c1 !! p = Some h.
Proof.
  intros HI Hroom Hf Hh Hr Hin. pose proof (fresh_facts _ _ _ HI Hf) as [_ HpE]. pose proof (table_ok_fresh c p h held HI Hf) as Ht.
  pose proof (alloc_ok held c p h (in_use_ c ++ [p]) (u64 (usage_ c + lh_charge h)) HI Hf Hh) as HA. rewrite Hin in HA.
  specialize (HA ltac:(lia) eq_refl eq_refl). fold (entered c p h) in HA. simpl in HA. unfold room in Hroom.
  destruct (Insert_spec _ _ p h (hashes_insert _ p h (ci_hashes _ _ _ (proj1 HI)) Hh) Ht (lookup_insert_eq _ _ _) HpE)
    as (t & old & Hins & Hl & Ht' & Hold); [lia|].
  destruct (Lookup_spec _ _ Ht (lh_key h) (lh_hash h)) as (r & Hl' & Hm); [lia|]. rewrite Hl in Hl'. injection Hl' as <-.
  exists t, old. destruct old as [o|].
  - destruct Hm as (ho & HoE & Ho & E1 & E2). destruct Hold as (rest & Hp & Hp').
    assert (Hop : o <> p) by (intros ->; done).
    destruct (FinishErase_ok (hold held p 1) (entered c p h) t o ho) as [Hfe HI1]; [|done|done|].
    { apply (CInv_perm _ (p :: entries (table_ c))); [|done]. rewrite Hp, Hp'. by apply Permutation_swap. }
    rewrite lookup_insert_ne in Ho by done. eexists _, _. split_and!; [done|exact Hfe|done| |by apply (replaced_effect _ _ _ _ _ _ _ _ rest); rewrite ?hold_ne|].
    + unfold small. rewrite after_erase_table. simpl. apply Permutation_length in Hp, Hp'. rewrite Hp'. rewrite Hp in Hroom. simpl in *. lia.
    + rewrite after_erase_heap_ne by done. simpl. apply lookup_insert_eq.
  - eexists _, _. split_and!; [done|done| | |by apply entered_effect|simpl; apply lookup_insert_eq].
    + split; [|done]. apply CInv_table. by apply (CInv_perm _ (p :: entries (table_ c))).
    + unfold small. simpl. apply Permutation_length in Hold. rewrite Hold. simpl. lia.
Qed.

(** A cache without entries has none to lose. *)
Lemma effect_empty held new gone gone' c c' : entries (table_ c) = [] -> effect held new gone c c' -> effect held new gone' c c'.
Proof.
  intros HE [A1 A2 A3 A4 A5]. split; try done.
  - intros x h Hx Hne Hh. destruct (A3 x h Hx Hne Hh) as [Hn _]. rewrite HE in Hn. by apply not_elem_of_nil in Hn.
  - rewrite HE. by intros x h ?%not_elem_of_nil.
Qed.

Lemma same_data_trans h1 h2 h3 : same_data h1 h2 -> same_data h2 h3 -> same_data h1 h3.
Proof. intros (?&?&?&?&?) (?&?&?&?&?). split_and!; congruence. Qed.

(** The entries evicted after an insertion add to its effect. *)
Lemma effect_evict held held' p gone c c1 c' : effect held (Some p) gone c c1 -> effect held' None None c1 c' ->
  (forall x, held x <= held' x) -> is_Some (c_heap c' !! p) -> c_heap c !! p = None ->
  (forall x h, c_heap c !! x = Some h -> x ∈ entries (table_ c1) -> is_Some (c_heap c1 !! x)) ->
  (forall x, x ∈ entries (table_ c') -> is_Some (c_heap c' !! x)) -> effect held (Some p) gone c c'.
Proof.
  intros [A1 A2 A3 A4 A5] [B1 B2 B3 B4 B5] Hle Hp Hp0 Hal1 Hal. split.
  - congruence.
  - intros x h' Hx Hne. destruct (B2 x h' Hx) as (h1 & H1 & S1); [done|]. destruct (A2 x h1 H1 Hne) as (h & H0 & S0).
    exists h. split; [done|]. by apply (same_data_trans _ h1).
  - intros x h Hx Hne Hh. destruct (Hal x Hx) as [h' H']. destruct (B2 x h' H') as (h1 & H1 & _); [done|].
    destruct (B3 x h1) as [HE _]; [done|done|done|]. by apply A3.
  - intros x h Hx Hh Hpos Hg. pose proof (A4 x h Hx Hh Hpos Hg) as HE. destruct (Hal1 x h Hh HE) as [h1 H1].
    apply (B4 x h1); [done|done| |done]. specialize (Hle x). lia.
  - intros x. rewrite B5, A5. split.
    + intros [[?|[? Hn]]|[[h1 H1] Hn]]; [by left| |].
      * right. split; [done|]. destruct (c_heap c' !! x) as [h'|] eqn:H'; [|done]. destruct (B2 x h' H') as (? & ? & _); [done|congruence].
      * right. split; [|done]. destruct (A2 x h1 H1) as (h & ? & _); [|by eauto]. intros [= ->]. rewrite Hn in Hp. by destruct Hp.
    + intros [?|[Hs Hn]]; [by left; left|]. destruct (c_heap c1 !! x) eqn:H1; [right; eauto|by left; right].
Qed.

Lemma Insert_cached_ok held c p h : Inv held c -> room c -> fresh_entry c p -> 0 <= lh_hash h < 2 ^ 32 ->
  lh_refs h = 1 -> lh_in_cache h = false ->
  exists c1 h1, Insert_cached c p h = Some c1 /\ Inv (hold held p 1) c1 /\ small c1 /\
    effect held (Some p) (if 0 <? capacity_ c then Some (lh_key h, lh_hash h) else None) c c1 /\
    c_heap c1 !! p = Some h1 /\ same_data h h1 /\ lh_in_cache h1 = (0 <? capacity_ c).
Proof.
  intros HI Hroom Hf Hh Hr Hin. unfold Insert_cached. destruct (0 <? capacity_ c).
  - set (h1 := h <| lh_refs := lh_refs h + 1 |> <| lh_in_cache := true |>).
    destruct (store_entry_ok held c p h1) as (t & old & c1 & b & Hins & Hfe & HI1 & Hs1 & He1 & Hh1); try done; [simpl; lia|].
    exists c1, h1. simpl. rewrite Hins. simpl. unfold entered, LRU_Append_in_use, set_entry, upd in *. simpl in *. by rewrite Hfe.
  - exists (set_entry p h c), h. pose proof (fresh_facts _ _ _ HI Hf) as [_ HpE].
    split_and!; [done| | | |apply lookup_insert_eq|done|done].
    + pose proof (alloc_ok held c p h (in_use_ c) (usage_ c) HI Hf Hh) as HA. rewrite Hin, app_nil_r in HA.
      specialize (HA ltac:(lia) eq_refl eq_refl). split; [by destruct c|]. simpl. by apply (table_ok_fresh _ _ _ held).
    + unfold small, room in *. simpl. lia.
    + split; simpl; try done.
      * intros x g. rewrite lookup_insert_Some. intros [[-> _]|[_ ?]]; [done|eauto].
      * intros x. split; [auto|]. intros [?|[? ?%updated_not_freed]]; done.
Qed.

(** [Insert] never fails; the client holds the new entry, which is cached if the
    cache has a capacity, in place of an older entry of the key; the charges fit
    or only entries in use are left. *)
Lemma Insert_ok held c p key hash value charge deleter : Inv held c -> room c -> fresh_entry c p -> 0 <= hash < 2 ^ 32 ->
  exists c' h, Insert c p key hash value charge deleter = Some c' /\ Inv (hold held p 1) c' /\
    effect held (Some p) (if 0 <? capacity_ c then Some (key, hash) else None) c c' /\
    (usage_ c' <= capacity_ c' \/ lru_ c' = []) /\
    c_heap c' !! p = Some h /\ lh_key h = key /\ lh_hash h = hash /\ lh_value h = value /\ lh_in_cache h = (0 <? capacity_ c).
Proof.
  intros HI Hroom Hf Hh. unfold Insert. set (h := Build_LRUHandle _ _ _ _ _ _ _).
  destruct (Insert_cached_ok held c p h HI Hroom Hf Hh eq_refl eq_refl) as (c1 & h1 & -> & HI1 & Hs1 & He1 & Hh1 & (? & ? & ? & _) & Hin). simpl.
  destruct (evict_ok (hold held p 1) _ c1 eq_refl HI1 Hs1) as (c' & Hev & HI' & Hvic & Hu).
  pose proof (evicted_effect _ _ _ HI1 Hvic) as Hef. destruct (fresh_facts _ _ _ HI Hf) as [Hp0 _].
  assert (Hp : c_heap c' !! p = Some h1).
  { destruct Hvic as (_ & _ & out & HL & _ & _ & HH). rewrite HH, decide_False; [done|]. intros Hx.
    assert (Hxl : p ∈ lru_ c1) by (rewrite HL; set_solver). apply (ci_lru _ _ _ (proj1 HI1)) in Hxl as [_ Hx0]. rewrite hold_eq in Hx0. lia. }
  exists c', h1. split_and!; try done.
  apply (effect_evict held (hold held p 1) p _ c c1 c'); try done.
  - intros x. unfold hold. case_decide; lia.
  - apply Hf.
  - intros x g _ Hx. apply (ci_cached _ _ _ (proj1 HI1)) in Hx as (? & ? & _). eauto.
  - intros x Hx. apply (ci_cached _ _ _ (proj1 HI')) in Hx as (? & ? & _). eauto.
Qed.

(** ** Creating and destroying a shard *)

Lemma NewShard_inv capacity : Inv (fun _ => 0) (NewShard capacity).
Proof.
  split; [|apply new_table_ok]. change (entries (table_ (NewShard capacity))) with (@nil positive).
  assert (Hnil : forall e, e ∉ @nil positive) by (intros; apply not_elem_of_nil). split; simpl.
  - intros e h He. done.
  - constructor.
  - intros e. split; [by intros ?%Hnil|by intros (? & ? & _)].
  - done.
  - done.
  - split; constructor.
  - intros e. split; [by intros ?%Hnil|by intros [? _]].
  - intros e. split; [by intros ?%Hnil|by intros [? _]].
  - done.
  - split; [constructor|by intros e ?%Hnil].
Qed.

(** The entries of the list are freed one by one. *)
Lemma destroy_loop_ok l : forall c, NoDup l ->
  (forall e, e ∈ l -> exists h, c_heap c !! e = Some h /\ lh_in_cache h = true /\ lh_refs h = 1) ->
  exists c', destroy_loop l c = Some c' /\ map fst (c_deleted c') = map fst (c_deleted c) ++ l /\
    forall x, c_heap c' !! x = if decide (x ∈ l) then None else c_heap c !! x.
Proof.
  induction l as [|e l IH]; intros c Hn Hl; simpl.
  - exists c. by rewrite app_nil_r.
  - destruct (Hl e) as (h & Hh & Hin & Hr); [left|]. apply NoDup_cons in Hn as [He Hn]. rewrite Hh. simpl. rewrite Hin, Hr. simpl.
    unfold Unref. simpl. rewrite lookup_insert_eq. simpl. rewrite Hr. simpl.
    match goal with |- context [destroy_loop l ?c1] => destruct (IH c1 Hn) as (c' & -> & HD & HH) end.
    { intros x Hx. simpl. rewrite lookup_delete_ne, !lookup_insert_ne by (intros ->; done). apply Hl. by right. }
    exists c'. split; [done|]. split; [rewrite HD; simpl; by rewrite map_app, <- app_assoc|].
    intros x. rewrite HH. simpl. destruct (decide (x = e)) as [->|Hx].
    + rewrite lookup_delete_eq, (decide_True (P := e ∈ e :: l)) by left. by case_decide.
    + rewrite lookup_delete_ne, !lookup_insert_ne by done. repeat case_decide; set_solver.
Qed.

(** A cache none of whose entries is in use is destroyed without a trace. *)
Lemma DestroyShard_ok held c : Inv held c -> (forall e, held e = 0) ->
  exists c', DestroyShard c = Some c' /\ c_heap c' = ∅ /\ map fst (c_deleted c') = map fst (c_deleted c) ++ lru_ c.
Proof.
  intros [I _] H0.
  assert (Hlru : forall e h, c_heap c !! e = Some h -> lh_in_cache h = true /\ e ∈ lru_ c).
  { intros e h He. destruct (ci_refs _ _ _ I e h He) as [Hr Hp]. rewrite (H0 e) in Hr. destruct (lh_in_cache h) eqn:Hin; [|lia].
    split; [done|]. apply (ci_lru _ _ _ I). split; [|done]. apply (ci_cached _ _ _ I). eauto. }
  assert (Hu : in_use_ c = []).
  { destruct (in_use_ c) as [|e l] eqn:E; [done|]. assert (Hin : e ∈ in_use_ c) by (rewrite E; left).
    apply (ci_in_use _ _ _ I) in Hin as [_ ?]. rewrite (H0 e) in *. lia. }
  unfold DestroyShard. rewrite Hu.
  destruct (destroy_loop_ok (lru_ c) c) as (c' & -> & HD & HH); [apply (ci_lists _ _ _ I)| |].
  { intros e [HE _]%(ci_lru _ _ _ I). apply (ci_cached _ _ _ I) in HE as (h & Hh & Hin). exists h.
    destruct (ci_refs _ _ _ I e h Hh) as [Hr _]. rewrite Hin, (H0 e) in Hr. done. }
  exists c'. split_and!; try done. apply map_eq. intros x. rewrite HH, lookup_empty. case_decide as Hx; [done|].
  destruct (c_heap c !! x) as [h|] eqn:E; [|done]. by destruct (Hlru x h E).
Qed.
