(* ===== verification/Cache.v ===== *)
(** * The sharded cache and its clients

    Models [ShardedLRUCache] of src/insdb/util/cache.cc: sixteen shards, chosen by
    the upper bits of the hash of the key, behind the interface [Cache].  The
    memory of the entries is the disjoint union of the heaps of the shards.

    A client is a sequence of requests.  Its ghost state counts the handles it
    holds and remembers, per key, the last value it inserted and has not erased:
    the cache never fails, answers with the remembered value or not at all,
    answers for what is in use, and passes every entry to its deleter once. *)

From Stdlib Require Import ZArith Lia Bool.
From stdpp Require Import base list gmap.
From S2P Require Import Prelude Bloom HandleTable LruCache.

Definition kNumShardBits : Z := 4.
Definition kNumShards : Z := Z.shiftl 1 kNumShardBits.

Record ShardedLRUCache : Type := { shard_ : list LRUCache; last_id_ : Z }.
#[export] Instance eta_ShardedLRUCache : Eta ShardedLRUCache := fun r => {| shard_ := shard_ r; last_id_ := last_id_ r |}.

Section Cache.
  (** [port::kLittleEndian]. *)
  Variable little : bool.

Definition HashSlice (s : list Z) : Z := Hash little s 0.
Definition Shard (hash : Z) : Z := Z.shiftr hash (32 - kNumShardBits).

Definition per_shard (capacity : Z) : Z := u64 (capacity + (kNumShards - 1)) / kNumShards.

Definition NewLRUCache (capacity : Z) : ShardedLRUCache :=
  {| shard_ := replicate (Z.to_nat kNumShards) (NewShard (per_shard capacity)); last_id_ := 0 |}.

(** An operation of the shard of a hash. *)
Definition on_shard {A} (sc : ShardedLRUCache) (hash : Z) (f : LRUCache -> option (LRUCache * A)) : option (ShardedLRUCache * A) :=
  let i := Z.to_nat (Shard hash) in
  s ← shard_ sc !! i;
  '(s, r) ← f s;
  Some (sc <| shard_ ::= <[i := s]> |>, r).

Definition no_result (o : option LRUCache) : option (LRUCache * unit) := s ← o; Some (s, tt).

(** [e] is the memory [malloc] returns. *)
Definition Insert (sc : ShardedLRUCache) (e : positive) (key : list Z) (value charge deleter : Z) : option ShardedLRUCache :=
  let hash := HashSlice key in
  fst <$> on_shard sc hash (fun s => no_result (LruCache.Insert s e key hash value charge deleter)).

Definition Lookup (sc : ShardedLRUCache) (key : list Z) : option (ShardedLRUCache * option positive) :=
  let hash := HashSlice key in
  on_shard sc hash (fun s => LruCache.Lookup s key hash).

(** The memory behind a handle. *)
Definition deref (sc : ShardedLRUCache) (e : positive) : option LRUHandle := head (omap (fun s => c_heap s !! e) (shard_ sc)).

Definition Release (sc : ShardedLRUCache) (e : positive) : option ShardedLRUCache :=
  h ← deref sc e;
  fst <$> on_shard sc (lh_hash h) (fun s => no_result (LruCache.Release s e)).

Definition Erase (sc : ShardedLRUCache) (key : list Z) : option ShardedLRUCache :=
  let hash := HashSlice key in
  fst <$> on_shard sc hash (fun s => no_result (LruCache.Erase s key hash)).

Definition Value (sc : ShardedLRUCache) (e : positive) : option Z := lh_value <$> deref sc e.

Definition NewId (sc : ShardedLRUCache) : ShardedLRUCache * Z :=
  let id := u64 (last_id_ sc + 1) in
  (sc <| last_id_ := id |>, id).

Definition Prune (sc : ShardedLRUCache) : option ShardedLRUCache :=
  ss ← mapM LruCache.Prune (shard_ sc);
  Some (sc <| shard_ := ss |>).

Definition TotalCharge (sc : ShardedLRUCache) : Z := fold_left (fun total s => u64 (total + LruCache.TotalCharge s)) (shard_ sc) 0.

(** The destructor destroys the shards. *)
Definition DestroyCache (sc : ShardedLRUCache) : option (list LRUCache) := mapM DestroyShard (shard_ sc).

(** The entries passed to a deleter. *)
Definition deleted_entries (ss : list LRUCache) : list positive := concat (map (fun s => map fst (c_deleted s)) ss).

(** ** Clients *)

Inductive request : Type :=
| RInsert (key : list Z) (value charge deleter : Z)
| RLookup (key : list Z)
| RRelease (e : positive)
| RErase (key : list Z)
| RPrune.

(** [cl_next] is the next allocation, [cl_held] the handles the client holds,
    [cl_map] what it last inserted under a key. *)
Record client : Type := {
  cl_cache : ShardedLRUCache;
  cl_next : positive;
  cl_held : positive -> Z;
  cl_map : gmap (list Z) (positive * Z);
}.

Inductive outcome : Type := Ran (cl : client) | Misused | Faulted.

Definition serve (cl : client) (r : request) : outcome :=
  match r with
  | RInsert key value charge deleter =>
      let e := cl_next cl in
      match Insert (cl_cache cl) e key value charge deleter with
      | Some sc => Ran {| cl_cache := sc; cl_next := Pos.succ e; cl_held := hold (cl_held cl) e 1;
                          cl_map := <[key := (e, value)]> (cl_map cl) |}
      | None => Faulted
      end
  | RLookup key =>
      match Lookup (cl_cache cl) key with
      | Some (sc, r) => Ran {| cl_cache := sc; cl_next := cl_next cl;
                               cl_held := match r with Some e => hold (cl_held cl) e 1 | None => cl_held cl end;
                               cl_map := cl_map cl |}
      | None => Faulted
      end
  | RRelease e =>
      if 0 <? cl_held cl e then
        match Release (cl_cache cl) e with
        | Some sc => Ran {| cl_cache := sc; cl_next := cl_next cl; cl_held := hold (cl_held cl) e (-1); cl_map := cl_map cl |}
        | None => Faulted
        end
      else Misused
  | RErase key =>
      match Erase (cl_cache cl) key with
      | Some sc => Ran {| cl_cache := sc; cl_next := cl_next cl; cl_held := cl_held cl; cl_map := delete key (cl_map cl) |}
      | None => Faulted
      end
  | RPrune =>
      match Prune (cl_cache cl) with
      | Some sc => Ran {| cl_cache := sc; cl_next := cl_next cl; cl_held := cl_held cl; cl_map := cl_map cl |}
      | None => Faulted
      end
  end.

Fixpoint serve_all (cl : client) (rs : list request) : outcome :=
  match rs with
  | [] => Ran cl
  | r :: rs' => match serve cl r with Ran cl' => serve_all cl' rs' | o => o end
  end.

Definition new_client (capacity : Z) : client :=
  {| cl_cache := NewLRUCache capacity; cl_next := 1; cl_held := fun _ => 0; cl_map := ∅ |}.

Arguments HashSlice : simpl never.
Arguments Shard : simpl never.
Arguments on_shard : simpl never.
Arguments LruCache.Insert : simpl never.
Arguments LruCache.Lookup : simpl never.
Arguments LruCache.Release : simpl never.
Arguments LruCache.Erase : simpl never.

(** ** The invariant of a client and its cache *)

(** The handles of the entries of one shard. *)
Definition local (s : LRUCache) (held : positive -> Z) : positive -> Z :=
  fun x => if decide (is_Some (c_heap s !! x)) then held x else 0.

(** The shard has allocated the entry, which may have been freed since. *)
Definition known (s : LRUCache) (e : positive) : Prop := is_Some (c_heap s !! e) \/ e ∈ map fst (c_deleted s).

Abbreviation shards cl := (shard_ (cl_cache cl)).

(** After at most [n] requests; [cap] is the capacity of a shard. *)
Record SInv (cap n : Z) (cl : client) : Prop := {
  si_shards : length (shards cl) = Z.to_nat kNumShards;
  si_shard i s : shards cl !! i = Some s ->
    Inv (local s (cl_held cl)) s /\ capacity_ s = cap /\ Z.of_nat (length (entries (table_ s))) <= n /\ (cap <= 0 -> entries (table_ s) = []);
  si_home i s e h : shards cl !! i = Some s -> c_heap s !! e = Some h -> lh_hash h = HashSlice (lh_key h) /\ i = Z.to_nat (Shard (lh_hash h));
  si_alloc e : (e < cl_next cl)%positive <-> exists i s, shards cl !! i = Some s /\ known s e;
  si_apart i j s s' e : shards cl !! i = Some s -> shards cl !! j = Some s' -> known s e -> known s' e -> i = j;
  si_held e : 0 <= cl_held cl e <= n /\ (0 < cl_held cl e -> exists i s, shards cl !! i = Some s /\ is_Some (c_heap s !! e));
  si_map i s e h : shards cl !! i = Some s -> e ∈ entries (table_ s) -> c_heap s !! e = Some h ->
    cl_map cl !! lh_key h = Some (e, lh_value h);
  si_key k e v : cl_map cl !! k = Some (e, v) -> (e < cl_next cl)%positive /\
    forall i s h, shards cl !! i = Some s -> c_heap s !! e = Some h -> lh_key h = k /\ lh_value h = v;
  si_live k e v : cl_map cl !! k = Some (e, v) -> 0 < cl_held cl e -> 0 < cap ->
    exists i s, shards cl !! i = Some s /\ e ∈ entries (table_ s);
}.

Lemma effect_known held new gone s s' e : effect held new gone s s' -> (forall p, new = Some p -> known s' p) ->
  known s' e <-> known s e \/ new = Some e.
Proof.
  intros [_ A2 _ _ A5] Hnew. unfold known in *. split.
  - intros [[h' H']|[?|[? _]]%A5]; [|auto|auto]. destruct (decide (new = Some e)); [auto|].
    destruct (A2 e h' H') as (h & ? & _); [done|]. eauto.
  - intros [[?|?]| ?%Hnew]; [|right; apply A5; auto|done].
    destruct (c_heap s' !! e) eqn:E; [eauto|]. right. apply A5. auto.
Qed.

Lemma entry_known held s e : Inv held s -> e ∈ entries (table_ s) -> exists h, c_heap s !! e = Some h /\ lh_in_cache h = true.
Proof. intros [I _] He. by apply (ci_cached _ _ _ I). Qed.

Lemma effect_length held held' new gone s s' : effect held new gone s s' -> Inv held s -> Inv held' s' ->
  (length (entries (table_ s')) <= S (length (entries (table_ s))))%nat.
Proof.
  intros [_ A2 A3 _ _] HI HI'.
  destruct (decide (entries (table_ s') = [])) as [->|Hne]; [simpl; lia|].
  assert (Hsub : exists y, entries (table_ s') ⊆+ y :: entries (table_ s)).
  { destruct new as [p|]; [exists p|destruct (entries (table_ s')) as [|y l] eqn:E; [done|exists y; rewrite <- E]];
      (apply NoDup_submseteq; [apply (ci_nodup _ _ _ (proj1 HI'))|]; intros x Hx; apply elem_of_cons);
      destruct (entry_known _ _ _ HI' Hx) as (h' & H' & _).
    - destruct (decide (x = p)); [by left|right]. destruct (A2 x h' H') as (h & Hh & _); [congruence|].
      by destruct (A3 x h) as [? _]; [done|congruence|done|].
    - right. destruct (A2 x h' H') as (h & Hh & _); [done|]. rewrite E in Hx. by destruct (A3 x h) as [? _]. }
  destruct Hsub as [y Hsub]. by apply submseteq_length in Hsub.
Qed.

(** ** One step *)

Section Step.
  Context (cap n : Z) (cl cl' : client) (new : option positive) (gone : option (list Z)).
  Local Abbreviation gone_key := ((fun k => (k, HashSlice k)) <$> gone).
  Hypothesis Hinv : SInv cap n cl.
  Hypothesis Hlen : length (shards cl') = length (shards cl).
  Hypothesis Hshard : forall i s s', shards cl !! i = Some s -> shards cl' !! i = Some s' ->
    effect (local s (cl_held cl)) new gone_key s s' /\ Inv (local s' (cl_held cl')) s' /\
    (forall e, 0 < cl_held cl' e -> is_Some (c_heap s !! e) -> is_Some (c_heap s' !! e)).
  (** A new entry is in one shard, and is what the key maps to. *)
  Hypothesis Hnew : match new with
    | None => cl_next cl' = cl_next cl
    | Some p => p = cl_next cl /\ cl_next cl' = Pos.succ p /\
        exists i s h, shards cl' !! i = Some s /\ c_heap s !! p = Some h /\ lh_hash h = HashSlice (lh_key h) /\
          i = Z.to_nat (Shard (lh_hash h)) /\ cl_map cl' !! lh_key h = Some (p, lh_value h) /\ lh_in_cache h = (0 <? cap) /\
          (forall j s, shards cl' !! j = Some s -> known s p -> j = i)
    end.
  Hypothesis Hheld : forall e, 0 <= cl_held cl' e <= n + 1 /\
    (0 < cl_held cl' e -> 0 < cl_held cl e \/ exists i s h, shards cl' !! i = Some s /\ c_heap s !! e = Some h /\ lh_in_cache h = (0 <? cap)).
  (** Only the entry of the key [gone] changes. *)
  Hypothesis Hmap : forall k, gone <> Some k -> cl_map cl' !! k = cl_map cl !! k.
  Hypothesis Hgone : forall k e v, gone = Some k -> cl_map cl' !! k = Some (e, v) -> new = Some e /\
    forall i s h, shards cl' !! i = Some s -> c_heap s !! e = Some h -> lh_key h = k /\ lh_value h = v.

Lemma shard_pair i s' : shards cl' !! i = Some s' -> exists s, shards cl !! i = Some s /\
  effect (local s (cl_held cl)) new gone_key s s' /\ Inv (local s' (cl_held cl')) s' /\
  (forall e, 0 < cl_held cl' e -> is_Some (c_heap s !! e) -> is_Some (c_heap s' !! e)).
Proof.
  intros Hi. destruct (lookup_lt_is_Some_2 (shards cl) i) as [s Hs]; [rewrite <- Hlen; by eapply lookup_lt_Some|]. eauto.
Qed.

Lemma shard_next i s : shards cl !! i = Some s -> exists s', shards cl' !! i = Some s'.
Proof. intros Hi. apply lookup_lt_is_Some_2. rewrite Hlen. by eapply lookup_lt_Some. Qed.

(** The new entry, wherever it is found. *)
Lemma new_entry p j s h : new = Some p -> shards cl' !! j = Some s -> c_heap s !! p = Some h ->
  lh_hash h = HashSlice (lh_key h) /\ j = Z.to_nat (Shard (lh_hash h)) /\ cl_map cl' !! lh_key h = Some (p, lh_value h) /\
  lh_in_cache h = (0 <? cap).
Proof.
  intros E Hj Hh. pose proof Hnew as Hn. rewrite E in Hn. destruct Hn as (_ & _ & i & s0 & h0 & Hi & Hh0 & ? & ? & ? & ? & Hu).
  assert (j = i) as -> by (apply (Hu j s Hj); left; eauto). rewrite Hi in Hj. simplify_eq. done.
Qed.

Lemma new_unknown p : new = Some p -> forall i s, shards cl !! i = Some s -> ~ known s p.
Proof.
  intros E i s Hi Hk. pose proof Hnew as Hn. rewrite E in Hn. destruct Hn as (-> & _).
  assert (cl_next cl < cl_next cl)%positive; [|lia]. apply (si_alloc _ _ _ Hinv). eauto.
Qed.

(** An entry that is not new was there before, with the same data. *)
Lemma old_entry i s s' e h' : shards cl !! i = Some s -> shards cl' !! i = Some s' -> c_heap s' !! e = Some h' -> new <> Some e ->
  exists h, c_heap s !! e = Some h /\ same_data h h'.
Proof. intros Hi Hi' He Hne. destruct (Hshard i s s' Hi Hi') as (Hef & _). by apply (ef_heap _ _ _ _ _ Hef). Qed.

Lemma step_known i s s' e : shards cl !! i = Some s -> shards cl' !! i = Some s' -> known s' e -> known s e \/ new = Some e.
Proof.
  intros Hi Hi' [[h' He]|Hd].
  - destruct (decide (new = Some e)); [auto|]. destruct (old_entry _ _ _ _ _ Hi Hi' He) as (h & ? & _); [done|]. left. left. eauto.
  - destruct (Hshard i s s' Hi Hi') as (Hef & _). apply (ef_deleted _ _ _ _ _ Hef) in Hd as [?|[? _]]; left; [by right|by left].
Qed.

Lemma step_known_2 i s s' e : shards cl !! i = Some s -> shards cl' !! i = Some s' -> known s e -> known s' e.
Proof.
  intros Hi Hi' Hk. destruct (Hshard i s s' Hi Hi') as (Hef & _). destruct (c_heap s' !! e) eqn:E; [left; eauto|].
  right. apply (ef_deleted _ _ _ _ _ Hef). destruct Hk; auto.
Qed.

Lemma step_shard i s : shards cl' !! i = Some s ->
  Inv (local s (cl_held cl')) s /\ capacity_ s = cap /\ Z.of_nat (length (entries (table_ s))) <= n + 1 /\
  (cap <= 0 -> entries (table_ s) = []).
Proof.
  intros Hi'. destruct (shard_pair i s Hi') as (s0 & Hi & Hef & HI' & _). destruct (si_shard _ _ _ Hinv i s0 Hi) as (HI & Hc & Hn & Hz).
  split_and!; [done|rewrite (ef_capacity _ _ _ _ _ Hef); done| |].
  - pose proof (effect_length _ _ _ _ _ _ Hef HI HI'). lia.
  - intros Hcap. specialize (Hz Hcap). destruct (entries (table_ s)) as [|x l] eqn:E; [done|]. exfalso.
    assert (Hx : x ∈ entries (table_ s)) by (rewrite E; left). destruct (entry_known _ _ _ HI' Hx) as (h' & Hh' & Hin).
    destruct (decide (new = Some x)) as [Hnx|Hnx].
    + destruct (new_entry x i s h' Hnx Hi' Hh') as (_ & _ & _ & Hin'). rewrite Hin in Hin'. symmetry in Hin'. b2p. lia.
    + destruct (old_entry i s0 s x h' Hi Hi' Hh' Hnx) as (h & Hh & _). destruct (ef_entries _ _ _ _ _ Hef x h Hx Hnx Hh) as [Hx0 _].
      rewrite Hz in Hx0. by apply not_elem_of_nil in Hx0.
Qed.

Lemma step_home i s e h : shards cl' !! i = Some s -> c_heap s !! e = Some h ->
  lh_hash h = HashSlice (lh_key h) /\ i = Z.to_nat (Shard (lh_hash h)).
Proof.
  intros Hi' Hh. destruct (decide (new = Some e)) as [Hne|Hne]; [by destruct (new_entry e i s h) as (? & ? & _)|].
  destruct (shard_pair i s Hi') as (s0 & Hi & _). destruct (old_entry i s0 s e h Hi Hi' Hh Hne) as (h0 & Hh0 & Hk & Hs & _).
  rewrite Hs, Hk. by apply (si_home _ _ _ Hinv i s0 e).
Qed.

Lemma step_alloc e : (e < cl_next cl')%positive <-> exists i s, shards cl' !! i = Some s /\ known s e.
Proof.
  assert (Hnx : (e < cl_next cl')%positive <-> (e < cl_next cl)%positive \/ new = Some e).
  { pose proof Hnew as Hn. destruct new as [p|]; [destruct Hn as (-> & -> & _)|rewrite Hn].
    - rewrite Pos.lt_succ_r, Pos.le_lteq. split; intros [?|?]; auto; [right; congruence|right; congruence].
    - split; [auto|]. by intros [?|?]. }
  rewrite Hnx, (si_alloc _ _ _ Hinv e). split.
  - intros [(i & s & Hi & Hk)|E].
    + destruct (shard_next i s Hi) as [s' Hi']. exists i, s'. split; [done|]. by apply (step_known_2 i s).
    + pose proof Hnew as Hn. rewrite E in Hn. destruct Hn as (_ & _ & i & s & h & Hi & Hh & _). exists i, s. split; [done|]. left. eauto.
  - intros (i & s' & Hi' & Hk). destruct (shard_pair i s' Hi') as (s & Hi & _).
    destruct (step_known i s s' e Hi Hi' Hk); [left|by right]. eauto.
Qed.

Lemma step_apart i j s s' e : shards cl' !! i = Some s -> shards cl' !! j = Some s' -> known s e -> known s' e -> i = j.
Proof.
  intros Hi' Hj' Hk Hk'. destruct (decide (new = Some e)) as [E|E].
  - pose proof Hnew as Hn. rewrite E in Hn. destruct Hn as (_ & _ & k & s0 & h0 & _ & _ & _ & _ & _ & _ & Hu).
    by rewrite (Hu i s), (Hu j s').
  - destruct (shard_pair i s Hi') as (t & Hi & _), (shard_pair j s' Hj') as (t' & Hj & _).
    destruct (step_known i t s e Hi Hi' Hk), (step_known j t' s' e Hj Hj' Hk'); try done. by apply (si_apart _ _ _ Hinv i j t t' e).
Qed.

(** What the key of an entry of a shard says about the request's key. *)
Lemma not_gone i s e h : shards cl !! i = Some s -> c_heap s !! e = Some h -> gone_key <> Some (lh_key h, lh_hash h) <-> gone <> Some (lh_key h).
Proof.
  intros Hi Hh. destruct (si_home _ _ _ Hinv i s e h Hi Hh) as [-> _]. destruct gone as [k|]; simpl; [|done].
  split; intros Hne; contradict Hne; by simplify_eq.
Qed.

Lemma cached_entry i s e h : shards cl' !! i = Some s -> c_heap s !! e = Some h -> lh_in_cache h = true -> e ∈ entries (table_ s).
Proof. intros Hi Hh Hin. destruct (step_shard i s Hi) as ([I _] & _). apply (ci_cached _ _ _ I). eauto. Qed.

Lemma step_held e : 0 <= cl_held cl' e <= n + 1 /\ (0 < cl_held cl' e -> exists i s, shards cl' !! i = Some s /\ is_Some (c_heap s !! e)).
Proof.
  destruct (Hheld e) as [Hr Hp]. split; [done|]. intros H'. destruct (Hp H') as [H0|(i & s & h & Hi & Hh & _)]; [|eauto].
  destruct (proj2 (si_held _ _ _ Hinv e) H0) as (i & s & Hi & Hh). destruct (shard_next i s Hi) as [s' Hi'].
  exists i, s'. split; [done|]. destruct (Hshard i s s' Hi Hi') as (_ & _ & Hk). auto.
Qed.

Lemma step_map i s e h : shards cl' !! i = Some s -> e ∈ entries (table_ s) -> c_heap s !! e = Some h ->
  cl_map cl' !! lh_key h = Some (e, lh_value h).
Proof.
  intros Hi' He Hh. destruct (decide (new = Some e)) as [E|E]; [by destruct (new_entry e i s h) as (_ & _ & ? & _)|].
  destruct (shard_pair i s Hi') as (s0 & Hi & Hef & _). destruct (old_entry i s0 s e h Hi Hi' Hh E) as (h0 & Hh0 & Hk & _ & Hv & _).
  destruct (ef_entries _ _ _ _ _ Hef e h0 He E Hh0) as [He0 Hg]. rewrite Hk, Hv, Hmap by (by apply (not_gone i s0 e)).
  by apply (si_map _ _ _ Hinv i s0).
Qed.

Lemma next_le : (cl_next cl <= cl_next cl')%positive.
Proof. pose proof Hnew as Hn. destruct new; [destruct Hn as (-> & -> & _)|rewrite Hn]; lia. Qed.

Lemma step_key k e v : cl_map cl' !! k = Some (e, v) -> (e < cl_next cl')%positive /\
  forall i s h, shards cl' !! i = Some s -> c_heap s !! e = Some h -> lh_key h = k /\ lh_value h = v.
Proof.
  intros Hk. destruct (decide (gone = Some k)) as [E|E].
  - destruct (Hgone k e v E Hk) as [En Hd]. split; [|done]. pose proof Hnew as Hn. rewrite En in Hn. destruct Hn as (_ & -> & _). lia.
  - rewrite Hmap in Hk by done. destruct (si_key _ _ _ Hinv k e v Hk) as [Hlt Hd]. split; [pose proof next_le; lia|].
    intros i s h Hi' Hh. destruct (shard_pair i s Hi') as (s0 & Hi & _).
    destruct (old_entry i s0 s e h Hi Hi' Hh) as (h0 & Hh0 & -> & _ & -> & _); [|by apply (Hd i s0)].
    intros En. pose proof Hnew as Hn. rewrite En in Hn. destruct Hn as (-> & _). lia.
Qed.

Lemma step_live k e v : cl_map cl' !! k = Some (e, v) -> 0 < cl_held cl' e -> 0 < cap ->
  exists i s, shards cl' !! i = Some s /\ e ∈ entries (table_ s).
Proof.
  intros Hk Hp Hcap. assert (Hc : (0 <? cap) = true) by lia. destruct (decide (gone = Some k)) as [E|E].
  - destruct (Hgone k e v E Hk) as [En _]. pose proof Hnew as Hn. rewrite En, Hc in Hn.
    destruct Hn as (_ & _ & i & s & h & Hi & Hh & _ & _ & _ & Hin & _). exists i, s. split; [done|]. by apply (cached_entry i s e h).
  - destruct (proj2 (Hheld e) Hp) as [H0|(i & s & h & Hi & Hh & Hin)].
    + rewrite Hmap in Hk by done. destruct (si_live _ _ _ Hinv k e v Hk H0 Hcap) as (i & s & Hi & He).
      destruct (shard_next i s Hi) as [s' Hi']. exists i, s'. split; [done|]. destruct (Hshard i s s' Hi Hi') as (Hef & _).
      destruct (si_shard _ _ _ Hinv i s Hi) as (HI & _). destruct (entry_known _ _ _ HI He) as (h & Hh & _).
      apply (ef_stay _ _ _ _ _ Hef e h); [done|done|unfold local; rewrite decide_True by eauto; done|].
      apply (not_gone i s e h Hi Hh). destruct (si_key _ _ _ Hinv k e v Hk) as [_ Hd]. by destruct (Hd i s h Hi Hh) as [-> _].
    + exists i, s. split; [done|]. apply (cached_entry i s e h); [done|done|congruence].
Qed.

Lemma step_inv : SInv cap (n + 1) cl'.
Proof.
  split; [rewrite Hlen; apply (si_shards _ _ _ Hinv)|exact step_shard|exact step_home|exact step_alloc|exact step_apart|exact step_held
         |exact step_map|exact step_key|exact step_live].
Qed.
End Step.

(** The count of the handles of a shard follows that of the client. *)
Lemma relocal hl held held' new gone s s' : Inv hl s' -> effect held new gone s s' ->
  (forall x, is_Some (c_heap s !! x) \/ new = Some x -> hl x = held' x) ->
  Inv (local s' held') s' /\ (forall e, 0 < held' e -> is_Some (c_heap s !! e) -> is_Some (c_heap s' !! e)).
Proof.
  intros HI Hef Heq. split.
  - apply (Inv_ext hl); [|done]. intros x. unfold local. case_decide as Hx.
    + apply Heq. destruct (decide (new = Some x)); [by right|left]. destruct Hx as [h' Hx].
      destruct (ef_heap _ _ _ _ _ Hef x h' Hx) as (h & ? & _); [done|eauto].
    + destruct (ci_held _ _ _ (proj1 HI) x) as [H0 H1]. destruct (decide (hl x = 0)); [done|]. destruct Hx. apply H1. lia.
  - intros e Hp He. apply (ci_held _ _ _ (proj1 HI)). rewrite Heq; auto.
Qed.

Lemma Shard_range hash : 0 <= hash < 2 ^ 32 -> (Z.to_nat (Shard hash) < Z.to_nat kNumShards)%nat.
Proof.
  intros Hh. assert (Hs : 0 <= Shard hash < 16); [|change kNumShards with 16; lia].
  unfold Shard. change (32 - kNumShardBits) with 28. rewrite Z.shiftr_div_pow2 by lia.
  split; [apply Z.div_pos; lia|]. apply Z.div_lt_upper_bound; lia.
Qed.

Lemma HashSlice_range key : 0 <= HashSlice key < 2 ^ 32.
Proof. apply Hash_range. Qed.
#[local] Hint Resolve HashSlice_range : core.

Lemma shard_of cap n cl hash : SInv cap n cl -> 0 <= hash < 2 ^ 32 -> exists s, shards cl !! Z.to_nat (Shard hash) = Some s.
Proof. intros HS Hh. apply lookup_lt_is_Some_2. rewrite (si_shards _ _ _ HS). by apply Shard_range. Qed.

Lemma on_shard_eq {A} sc hash (f : LRUCache -> option (LRUCache * A)) s s' r :
  shard_ sc !! Z.to_nat (Shard hash) = Some s -> f s = Some (s', r) ->
  on_shard sc hash f = Some (sc <| shard_ ::= <[Z.to_nat (Shard hash) := s']> |>, r).
Proof. intros Hs Hf. unfold on_shard. rewrite Hs. simpl. by rewrite Hf. Qed.

(** A step of one shard is a step of all. *)
Lemma one_shard cap n cl cl' i s s' new gone hl : SInv cap n cl -> shards cl !! i = Some s -> shards cl' = <[i := s']> (shards cl) ->
  let gone_key := (fun k => (k, HashSlice k)) <$> gone in
  effect (local s (cl_held cl)) new gone_key s s' -> Inv hl s' ->
  (forall x, is_Some (c_heap s !! x) \/ new = Some x -> hl x = cl_held cl' x) ->
  (forall j t x, j <> i -> shards cl !! j = Some t -> is_Some (c_heap t !! x) -> cl_held cl' x = cl_held cl x) ->
  (forall k, gone = Some k -> i = Z.to_nat (Shard (HashSlice k))) ->
  forall j t t', shards cl !! j = Some t -> shards cl' !! j = Some t' ->
    effect (local t (cl_held cl)) new gone_key t t' /\ Inv (local t' (cl_held cl')) t' /\
    (forall e, 0 < cl_held cl' e -> is_Some (c_heap t !! e) -> is_Some (c_heap t' !! e)).
Proof.
  intros HS Hi -> gone_key Hef HI Heq Hfar Hg j t t' Hj Hj'. destruct (decide (j = i)) as [->|Hne].
  - rewrite list_lookup_insert_eq in Hj' by (by eapply lookup_lt_Some). simplify_eq. split; [done|]. by apply (relocal hl _ _ _ _ _ _ HI Hef).
  - rewrite list_lookup_insert_ne in Hj' by done. assert (t' = t) as -> by congruence. destruct (si_shard _ _ _ HS j t Hj) as (HIt & _).
    split_and!; [|apply (Inv_ext (local t (cl_held cl))); [|done]|done].
    + apply effect_none. intros e h _ Hh Hk. destruct (si_home _ _ _ HS j t e h Hj Hh) as [_ Hjj]. unfold gone_key in Hk.
      destruct gone as [k|]; [|done]. injection Hk as Hk1 Hk2. specialize (Hg k eq_refl). congruence.
    + intros x. unfold local. case_decide; [|done]. symmetry. by apply (Hfar j t).
Qed.

Lemma head_omap {A B} (f : A -> option B) (l : list A) i x y : l !! i = Some x -> f x = Some y ->
  (forall j z, l !! j = Some z -> is_Some (f z) -> j = i) -> head (omap f l) = Some y.
Proof.
  revert i. induction l as [|a l IH]; intros i Hi Hf Hu; [done|]. simpl. destruct (f a) as [b|] eqn:Ha.
  - assert (0%nat = i) as <- by (apply (Hu 0%nat a); eauto). simpl in Hi. by simplify_eq.
  - destruct i as [|i]; [simpl in Hi; congruence|]. apply (IH i); [done|done|]. intros j z Hj Hz. by apply eq_add_S, (Hu (S j) z).
Qed.

(** A handle leads to the memory of its entry. *)
Lemma deref_ok cap n cl i s e h : SInv cap n cl -> shards cl !! i = Some s -> c_heap s !! e = Some h -> deref (cl_cache cl) e = Some h.
Proof.
  intros HS Hi Hh. apply (head_omap _ _ i s); [done|done|]. intros j t Hj Ht. apply (si_apart _ _ _ HS j i t s e); [done|done|by left|left; eauto].
Qed.

(** ** The requests *)

Section Requests.
  Context (cap n : Z) (cl : client) (Hinv : SInv cap n cl) (Hn : 0 <= n /\ n + 3 < 2 ^ 31).

Lemma next_fresh i s : shards cl !! i = Some s -> ~ known s (cl_next cl).
Proof. intros Hi Hk. assert (cl_next cl < cl_next cl)%positive; [|lia]. apply (si_alloc _ _ _ Hinv). eauto. Qed.

Lemma next_not_held : cl_held cl (cl_next cl) = 0.
Proof.
  destruct (si_held _ _ _ Hinv (cl_next cl)) as [H0 H1]. destruct (decide (cl_held cl (cl_next cl) = 0)); [done|].
  destruct H1 as (i & s & Hi & Hs); [lia|]. destruct (next_fresh i s Hi). by left.
Qed.

Lemma shard_small i s : shards cl !! i = Some s -> room s /\ small s.
Proof. intros Hi. destruct (si_shard _ _ _ Hinv i s Hi) as (_ & _ & Hl & _). unfold room, small. lia. Qed.

Lemma local_eq s x : is_Some (c_heap s !! x) -> local s (cl_held cl) x = cl_held cl x.
Proof. intros Hx. unfold local. by rewrite decide_True. Qed.

Lemma local_none s x : c_heap s !! x = None -> local s (cl_held cl) x = 0.
Proof. intros Hx. unfold local. rewrite decide_False; [done|]. rewrite Hx. by intros [? ?]. Qed.

Lemma serve_insert key value charge deleter :
  exists cl' s, serve cl (RInsert key value charge deleter) = Ran cl' /\ SInv cap (n + 1) cl' /\
    shards cl' !! Z.to_nat (Shard (HashSlice key)) = Some s /\ (usage_ s <= cap \/ lru_ s = []).
Proof.
  set (i := Z.to_nat (Shard (HashSlice key))). set (p := cl_next cl).
  destruct (shard_of cap n cl (HashSlice key) Hinv) as [s Hi]; [done|]. destruct (si_shard _ _ _ Hinv _ s Hi) as (HI & Hc & _ & Hz).
  destruct (shard_small _ s Hi) as [Hroom _].
  assert (Hf : fresh_entry s p) by (pose proof (next_fresh _ s Hi) as Hk; unfold known in Hk; split; [apply eq_None_not_Some|]; tauto).
  destruct (Insert_ok _ s p key (HashSlice key) value charge deleter HI Hroom Hf (HashSlice_range key))
    as (s' & h & Hins & HI' & Hef & Hu & Hh & Hk & Hhs & Hv & Hin).
  assert (Hef' : effect (local s (cl_held cl)) (Some p) (Some (key, HashSlice key)) s s').
  { destruct (0 <? capacity_ s) eqn:E; [done|]. b2p. apply (effect_empty _ _ None); [apply Hz; lia|done]. }
  unfold serve, Insert. fold p. rewrite (on_shard_eq _ _ _ s s' tt Hi) by (cbv beta; by rewrite Hins). cbn [fmap option_fmap option_map fst].
  eexists _, s'. split; [done|].
  assert (Hlook : <[i := s']> (shards cl) !! i = Some s') by (apply list_lookup_insert_eq; by eapply lookup_lt_Some).
  split; [|split; [exact Hlook|rewrite <- Hc, <- (ef_capacity _ _ _ _ _ Hef); exact Hu]].
  assert (Hother : forall j t, shards cl !! j = Some t -> is_Some (c_heap t !! p) -> False)
    by (intros j t Hj Ht; apply (next_fresh j t Hj); by left).
  match goal with |- SInv _ _ ?c => set (cl' := c) end.
  assert (Hs' : shards cl' = <[i := s']> (shards cl)) by done.
  assert (Hh' : cl_held cl' = hold (cl_held cl) p 1) by done. assert (Hm' : cl_map cl' = <[key := (p, value)]> (cl_map cl)) by done.
  apply (step_inv cap n cl cl' (Some p) (Some key)); [done|rewrite Hs'; apply length_insert| | | | |].
  - apply (one_shard cap n cl cl' i s s' (Some p) (Some key) (hold (local s (cl_held cl)) p 1)); try done; rewrite ?Hh'.
    + intros x [Hx|[= <-]].
      * rewrite !hold_ne by (intros ->; exact (Hother _ _ Hi Hx)). by apply local_eq.
      * rewrite !hold_eq, local_none by apply Hf. pose proof next_not_held. fold p in H. lia.
    + intros j t x _ Hj Hx. apply hold_ne. intros ->. exact (Hother _ _ Hj Hx).
    + by intros k [= <-].
  - split; [done|]. split; [done|]. exists i, s', h. rewrite Hs', Hm', Hin, Hc, Hk, Hhs, Hv, lookup_insert_eq. split_and!; try done.
    intros j t Hj Ht. destruct (decide (j = i)) as [|Hne]; [done|]. rewrite list_lookup_insert_ne in Hj by done. destruct (next_fresh j t Hj Ht).
  - intros e. rewrite Hh', Hs'. destruct (si_held _ _ _ Hinv e) as [H0 _]. destruct (decide (e = p)) as [->|Hne].
    + rewrite hold_eq. split; [pose proof next_not_held; unfold p; lia|]. intros _. right. exists i, s', h. by rewrite Hin, Hc.
    + rewrite hold_ne by done. split; [lia|auto].
  - intros k Hne. rewrite Hm'. apply lookup_insert_ne. congruence.
  - intros k e v [= <-]. rewrite Hm', Hs', lookup_insert_eq. intros [= <- <-]. split; [done|]. intros j t g Hj Hg.
    destruct (decide (j = i)) as [->|Hne]; [rewrite Hlook in Hj; by simplify_eq|].
    rewrite list_lookup_insert_ne in Hj by done. destruct (Hother j t Hj). eauto.
Qed.

(** Requests that allocate nothing, on one shard. *)
Lemma quiet_step cl' i s s' gone hl : shards cl !! i = Some s -> shards cl' = <[i := s']> (shards cl) ->
  cl_next cl' = cl_next cl -> cl_map cl' = (match gone with Some k => delete k (cl_map cl) | None => cl_map cl end) ->
  effect (local s (cl_held cl)) None ((fun k => (k, HashSlice k)) <$> gone) s s' -> Inv hl s' ->
  (forall x, is_Some (c_heap s !! x) -> hl x = cl_held cl' x) ->
  (forall x, ~ is_Some (c_heap s !! x) -> cl_held cl' x = cl_held cl x) ->
  (forall x, 0 <= cl_held cl' x <= n + 1) ->
  (forall x, cl_held cl x <= 0 -> 0 < cl_held cl' x -> x ∈ entries (table_ s')) ->
  (forall k, gone = Some k -> i = Z.to_nat (Shard (HashSlice k))) -> SInv cap (n + 1) cl'.
Proof.
  intros Hi Hs' Hn' Hm' Hef HI Hin Hout Hr Hnew Hg.
  assert (Hlook : shards cl' !! i = Some s') by (rewrite Hs'; apply list_lookup_insert_eq; by eapply lookup_lt_Some).
  apply (step_inv cap n cl cl' None gone); [done|rewrite Hs'; apply length_insert| |done| | |].
  - apply (one_shard cap n cl cl' i s s' None gone hl); try done.
    + intros x [Hx|?]; [by apply Hin|done].
    + intros j t x Hne Hj Hx. apply Hout. intros Hx'. apply Hne. by apply (si_apart _ _ _ Hinv j i t s x Hj Hi); left.
  - intros e. split; [apply Hr|]. intros Hp. destruct (decide (0 < cl_held cl e)) as [|H0]; [by left|right].
    specialize (Hnew e ltac:(lia) Hp). destruct (entry_known _ _ _ HI Hnew) as (h & Hh & Hic). exists i, s', h. split_and!; try done.
    rewrite Hic. destruct (si_shard _ _ _ Hinv i s Hi) as (_ & _ & _ & Hz). symmetry. apply Z.ltb_lt.
    destruct (decide (0 < cap)); [done|]. destruct (ef_heap _ _ _ _ _ Hef e h Hh) as (g & Hgs & _); [done|].
    destruct (ef_entries _ _ _ _ _ Hef e g Hnew) as [He _]; [done|done|]. rewrite Hz in He by lia. by apply not_elem_of_nil in He.
  - intros k Hne. rewrite Hm'. destruct gone as [k'|]; [|done]. apply lookup_delete_ne. congruence.
  - intros k e v E. rewrite Hm', E, lookup_delete_eq. done.
Qed.

Lemma local_range s x : 0 <= local s (cl_held cl) x <= n.
Proof. destruct (si_held _ _ _ Hinv x) as [? _]. unfold local. case_decide; lia. Qed.

Lemma held_here s x : ~ is_Some (c_heap s !! x) -> local s (cl_held cl) x = 0.
Proof. intros Hx. unfold local. by rewrite decide_False. Qed.

Lemma serve_lookup key : exists sc r s,
  Lookup (cl_cache cl) key = Some (sc, r) /\ shards cl !! Z.to_nat (Shard (HashSlice key)) = Some s /\
  HandleTable.Lookup (c_heap s) (table_ s) key (HashSlice key) = Some r /\
  exists cl', serve cl (RLookup key) = Ran cl' /\ cl_cache cl' = sc /\ SInv cap (n + 1) cl'.
Proof.
  destruct (shard_of cap n cl (HashSlice key) Hinv) as [s Hi]; [done|]. destruct (si_shard _ _ _ Hinv _ s Hi) as (HI & _).
  destruct (Lookup_ok _ s key (HashSlice key) HI) as (s' & r & Hl & Hef & Ht & Hr & Hm); [apply HashSlice_range|intros e; pose proof (local_range s e); lia|].
  unfold serve. unfold Lookup at 1 2. rewrite (on_shard_eq _ _ _ s s' r Hi Hl).
  eexists _, r, s. split; [done|]. split; [done|]. split; [done|]. eexists. split; [done|]. split; [done|].
  destruct (Lookup_spec _ _ (proj2 HI) key (HashSlice key)) as (r' & Hr' & Hsp); [apply HashSlice_range|].
  rewrite Hr in Hr'. injection Hr' as <-. destruct r as [e|].
  - destruct Hsp as (h & HeE & Hh & _).
    refine (quiet_step _ _ s s' None (hold (local s (cl_held cl)) e 1) Hi _ _ _ Hef Hm _ _ _ _ _); try done; cbn [cl_held].
    + intros x Hx. unfold hold. case_decide; rewrite local_eq; done.
    + intros x Hx. apply hold_ne. intros ->. eauto.
    + intros x. destruct (si_held _ _ _ Hinv x) as [? _]. unfold hold. case_decide; lia.
    + intros x H0 H1. destruct (decide (x = e)) as [->|Hne]; [by rewrite Ht|]. rewrite hold_ne in H1 by done. lia.
  - subst s'. refine (quiet_step _ _ s s None (local s (cl_held cl)) Hi _ _ _ Hef HI _ _ _ _ _); try done; cbn [cl_held].
    + intros x Hx. by apply local_eq.
    + intros x. destruct (si_held _ _ _ Hinv x) as [? _]. lia.
    + intros x. lia.
Qed.

Lemma serve_erase key : exists cl', serve cl (RErase key) = Ran cl' /\ SInv cap (n + 1) cl'.
Proof.
  destruct (shard_of cap n cl (HashSlice key) Hinv) as [s Hi]; [done|]. destruct (si_shard _ _ _ Hinv _ s Hi) as (HI & _).
  destruct (shard_small _ s Hi) as [_ Hs].
  destruct (Erase_ok _ s key (HashSlice key) HI Hs) as (s' & He & Hef & HI'); [apply HashSlice_range|].
  unfold serve, Erase. rewrite (on_shard_eq _ _ _ s s' tt Hi) by (cbv beta; by rewrite He). cbn [fmap option_fmap option_map fst].
  eexists. split; [done|].
  refine (quiet_step _ _ s s' (Some key) (local s (cl_held cl)) Hi _ _ _ Hef HI' _ _ _ _ _); try done; cbn [cl_held].
  - intros x Hx. by apply local_eq.
  - intros x. destruct (si_held _ _ _ Hinv x) as [? _]. lia.
  - intros x. lia.
  - by intros k [= <-].
Qed.

Lemma serve_release e : 0 < cl_held cl e -> exists cl', serve cl (RRelease e) = Ran cl' /\ SInv cap (n + 1) cl'.
Proof.
  intros Hp. destruct (proj2 (si_held _ _ _ Hinv e) Hp) as (i & s & Hi & h & Hh).
  destruct (si_home _ _ _ Hinv i s e h Hi Hh) as [Hhs ->]. destruct (si_shard _ _ _ Hinv _ s Hi) as (HI & _).
  destruct (Release_effect _ s e HI) as (s' & He & Hef & Ht & HI'); [rewrite local_eq; eauto|].
  unfold serve, Release. rewrite (deref_ok cap n cl _ s e h Hinv Hi Hh), (proj2 (Z.ltb_lt _ _) Hp). cbn [mbind option_bind].
  rewrite (on_shard_eq _ _ _ s s' tt Hi) by (cbv beta; by rewrite He). cbn [fmap option_fmap option_map fst].
  eexists. split; [done|].
  refine (quiet_step _ _ s s' None (hold (local s (cl_held cl)) e (-1)) Hi _ _ _ Hef HI' _ _ _ _ _); try done; cbn [cl_held].
  - intros x Hx. unfold hold. case_decide; rewrite local_eq; done.
  - intros x Hx. apply hold_ne. intros ->. eauto.
  - intros x. destruct (si_held _ _ _ Hinv x) as [? _]. unfold hold. case_decide; subst; lia.
  - intros x. unfold hold. case_decide; lia.
Qed.

Lemma serve_prune : exists cl', serve cl RPrune = Ran cl' /\ SInv cap (n + 1) cl'.
Proof.
  assert (Hall : Forall (fun s => exists s', LruCache.Prune s = Some s') (shards cl)).
  { apply Forall_lookup. intros i s Hi. destruct (si_shard _ _ _ Hinv _ s Hi) as (HI & _). destruct (shard_small _ s Hi) as [_ Hs].
    destruct (Prune_ok _ s HI Hs) as (s' & ? & _). eauto. }
  apply mapM_is_Some_2 in Hall as [ss Hss]. unfold serve, Prune. rewrite Hss. cbn [mbind option_bind].
  eexists. split; [done|]. apply mapM_Some_1 in Hss.
  match goal with |- SInv _ _ ?c => set (cl' := c) end. assert (Hs' : shards cl' = ss) by done.
  apply (step_inv cap n cl cl' None None); try done; try (intros; by destruct H).
  - rewrite Hs'. symmetry. by apply Forall2_length in Hss.
  - intros i s s' Hi Hi'. pose proof (Forall2_lookup_lr _ _ _ _ _ _ Hss Hi Hi') as Hpr.
    destruct (si_shard _ _ _ Hinv _ s Hi) as (HI & _). destruct (shard_small _ s Hi) as [_ Hs].
    destruct (Prune_ok _ s HI Hs) as (t & Ht & Hef & HI' & _). assert (t = s') as -> by congruence. split; [done|].
    apply (relocal _ _ _ _ _ _ _ HI' Hef). intros x [Hx|?]; [by apply local_eq|done].
  - intros e. destruct (si_held _ _ _ Hinv e) as [? _]. split; [simpl; lia|]. by left.
Qed.

(** A request is served, or is the release of a handle the client does not hold. *)
Lemma serve_ok r : match serve cl r with
  | Ran cl' => SInv cap (n + 1) cl'
  | Misused => exists e, r = RRelease e /\ cl_held cl e <= 0
  | Faulted => False
  end.
Proof.
  destruct r as [key value charge deleter|key|e|key|].
  - by destruct (serve_insert key value charge deleter) as (cl' & s & -> & ? & _).
  - by destruct (serve_lookup key) as (sc & r & s & _ & _ & _ & cl' & -> & _ & ?).
  - destruct (0 <? cl_held cl e) eqn:E.
    + b2p. by destruct (serve_release e E) as (cl' & -> & ?).
    + unfold serve. rewrite E. b2p. eauto.
  - by destruct (serve_erase key) as (cl' & -> & ?).
  - by destruct serve_prune as (cl' & -> & ?).
Qed.
End Requests.

Lemma SInv_weaken cap n m cl : SInv cap n cl -> n <= m -> SInv cap m cl.
Proof.
  intros [? Hs ? ? ? Hh ? ? ?] Hle. split; try done.
  - intros i s Hi. destruct (Hs i s Hi) as (? & ? & ? & ?). split_and!; try done. lia.
  - intros e. destruct (Hh e) as [? ?]. split; [lia|done].
Qed.

Lemma serve_all_ok cap rs : forall cl n, SInv cap n cl -> 0 <= n -> n + Z.of_nat (length rs) + 3 < 2 ^ 31 ->
  match serve_all cl rs with
  | Ran cl' => SInv cap (n + Z.of_nat (length rs)) cl'
  | Misused => True
  | Faulted => False
  end.
Proof.
  induction rs as [|r rs IH]; intros cl n HS Hn Hlt; simpl.
  - by rewrite Z.add_0_r.
  - simpl in Hlt. pose proof (serve_ok cap n cl HS) as Hok. specialize (Hok ltac:(lia) r).
    destruct (serve cl r) as [cl'| |]; [|done|done]. specialize (IH cl' (n + 1) Hok ltac:(lia) ltac:(lia)).
    destruct (serve_all cl' rs); try done. by replace (n + Z.of_nat (S (length rs))) with (n + 1 + Z.of_nat (length rs)) by lia.
Qed.

Lemma new_client_inv capacity : SInv (per_shard capacity) 0 (new_client capacity).
Proof.
  assert (Hs : forall i s, shards (new_client capacity) !! i = Some s -> s = NewShard (per_shard capacity)).
  { intros i s Hi. by apply lookup_replicate in Hi as [-> _]. }
  split; try (by intros i s e h ->%Hs).
  - done.
  - intros i s ->%Hs. split; [|done]. apply (Inv_ext (fun _ => 0)); [intros x; unfold local; by case_decide|]. apply NewShard_inv.
  - intros e. split; [simpl; lia|]. intros (i & s & ->%Hs & [[? ?]|?%not_elem_of_nil]); done.
  - intros i j s s' e ->%Hs _ [[? ?]|?%not_elem_of_nil]; done.
  - done.
  - done.
  - done.
Qed.

(** ** Deleters *)

Lemma elem_of_deleted ss e : e ∈ deleted_entries ss <-> exists i s, ss !! i = Some s /\ e ∈ map fst (c_deleted s).
Proof.
  unfold deleted_entries. induction ss as [|a ss IH]; simpl.
  - split; [by intros ?%not_elem_of_nil|]. by intros (i & s & Hi & _).
  - rewrite elem_of_app, IH. split.
    + intros [?|(i & s & ? & ?)]; [by exists 0%nat, a|by exists (S i), s].
    + intros ([|i] & s & Hi & ?); simpl in Hi; [simplify_eq; by left|right; eauto].
Qed.

Lemma NoDup_deleted ss : (forall i s, ss !! i = Some s -> NoDup (map fst (c_deleted s))) ->
  (forall i j s t e, ss !! i = Some s -> ss !! j = Some t -> e ∈ map fst (c_deleted s) -> e ∈ map fst (c_deleted t) -> i = j) ->
  NoDup (deleted_entries ss).
Proof.
  unfold deleted_entries. induction ss as [|a ss IH]; intros Hn Ha; simpl; [constructor|].
  apply NoDup_app. split_and!; [by apply (Hn 0%nat)| |apply IH].
  - intros e He (i & s & Hi & Hs)%elem_of_deleted. assert (0%nat = S i); [|done]. by apply (Ha 0%nat (S i) a s e).
  - intros i s Hi. by apply (Hn (S i)).
  - intros i j s t e Hi Hj Hs Ht. apply eq_add_S. by apply (Ha (S i) (S j) s t e).
Qed.

Lemma deleted_once cap n cl : SInv cap n cl ->
  NoDup (deleted_entries (shards cl)) /\
  forall e, (e < cl_next cl)%positive <-> is_Some (deref (cl_cache cl) e) \/ e ∈ deleted_entries (shards cl).
Proof.
  intros HS. split.
  - apply NoDup_deleted.
    + intros i s Hi. destruct (si_shard _ _ _ HS i s Hi) as ([I _] & _). apply (ci_deleted _ _ _ I).
    + intros i j s t e Hi Hj Hs Ht. by apply (si_apart _ _ _ HS i j s t e Hi Hj); right.
  - intros e. rewrite (si_alloc _ _ _ HS e), elem_of_deleted. split.
    + intros (i & s & Hi & [[h Hh]|Hd]); [left|right; eauto]. rewrite (deref_ok cap n cl i s e h HS Hi Hh). eauto.
    + intros [[h Hh]|(i & s & Hi & Hd)]; [|exists i, s; split; [done|by right]].
      unfold deref in Hh. apply head_Some_elem_of in Hh. apply list_elem_of_omap in Hh as (s & Hs & Hh).
      apply list_elem_of_lookup in Hs as [i Hi]. exists i, s. split; [done|]. left. eauto.
Qed.

Lemma deleted_or_alive cap n cl e : SInv cap n cl -> is_Some (deref (cl_cache cl) e) -> e ∈ deleted_entries (shards cl) -> False.
Proof.
  intros HS [h Hh] (j & t & Hj & Ht)%elem_of_deleted. unfold deref in Hh. apply head_Some_elem_of in Hh.
  apply list_elem_of_omap in Hh as (s & Hs & Hh). apply list_elem_of_lookup in Hs as [i Hi].
  assert (i = j) as -> by (apply (si_apart _ _ _ HS i j s t e Hi Hj); [left; eauto|by right]). assert (t = s) as -> by congruence.
  destruct (si_shard _ _ _ HS j s Hi) as ([I _] & _). apply (ci_deleted _ _ _ I) in Ht. congruence.
Qed.

Lemma destroy_shard cap n cl i s : SInv cap n cl -> (forall e, cl_held cl e = 0) -> shards cl !! i = Some s ->
  exists s', DestroyShard s = Some s' /\ NoDup (map fst (c_deleted s')) /\ forall e, e ∈ map fst (c_deleted s') <-> known s e.
Proof.
  intros HS H0 Hi. destruct (si_shard _ _ _ HS i s Hi) as (HI & _).
  assert (Hz : forall e, local s (cl_held cl) e = 0) by (intros e; unfold local; by case_decide).
  destruct (DestroyShard_ok _ s HI Hz) as (s' & Hs' & _ & HD). exists s'. split; [done|]. rewrite HD. destruct HI as [I _].
  assert (Hl : forall e, e ∈ lru_ s <-> is_Some (c_heap s !! e)).
  { intros e. rewrite (ci_lru _ _ _ I), (ci_cached _ _ _ I). split; [intros [(h & ? & _) _]; eauto|]. intros [h Hh].
    split; [|done]. exists h. split; [done|]. destruct (ci_refs _ _ _ I e h Hh) as [Hr ?]. rewrite Hz in Hr. destruct (lh_in_cache h); [done|lia]. }
  destruct (ci_deleted _ _ _ I) as [D1 D2]. split.
  - apply NoDup_app. split_and!; [done| |apply (ci_lists _ _ _ I)]. intros e He Hx%Hl. apply D2 in He. rewrite He in Hx. by destruct Hx.
  - intros e. rewrite elem_of_app, Hl. unfold known. tauto.
Qed.

Lemma destroy_ok cap n cl : SInv cap n cl -> (forall e, cl_held cl e = 0) ->
  exists ss, DestroyCache (cl_cache cl) = Some ss /\ NoDup (deleted_entries ss) /\ forall e, e ∈ deleted_entries ss <-> (e < cl_next cl)%positive.
Proof.
  intros HS H0. pose proof (fun i s => destroy_shard cap n cl i s HS H0) as Hd.
  destruct (mapM_is_Some_2 DestroyShard (shards cl)) as [ss Hss].
  { apply Forall_lookup. intros i s Hi. destruct (Hd i s Hi) as (s' & ? & _). eauto. }
  exists ss. split; [done|]. apply mapM_Some_1 in Hss.
  assert (Hback : forall i s', ss !! i = Some s' -> exists s, shards cl !! i = Some s /\ NoDup (map fst (c_deleted s')) /\
     forall e, e ∈ map fst (c_deleted s') <-> known s e).
  { intros i s' Hi'. destruct (Forall2_lookup_r _ _ _ _ _ Hss Hi') as (s & Hi & Hs). destruct (Hd i s Hi) as (t & Ht & ?).
    assert (t = s') as -> by congruence. eauto. }
  split; [apply NoDup_deleted|].
  - intros i s' Hi'. by destruct (Hback i s' Hi') as (s & _ & ? & _).
  - intros i j s' t' e Hi' Hj' Hs Ht. destruct (Hback i s' Hi') as (s & Hi & _ & Hks), (Hback j t' Hj') as (t & Hj & _ & Hkt).
    apply (si_apart _ _ _ HS i j s t e); [done|done|by apply Hks|by apply Hkt].
  - intros e. rewrite elem_of_deleted, (si_alloc _ _ _ HS e). split.
    + intros (i & s' & Hi' & He). destruct (Hback i s' Hi') as (s & Hi & _ & Hk). exists i, s. split; [done|]. by apply Hk.
    + intros (i & s & Hi & Hk). destruct (Forall2_lookup_l _ _ _ _ _ Hss Hi) as (s' & Hi' & _).
      destruct (Hback i s' Hi') as (s0 & Hi0 & _ & Hk'). assert (s0 = s) as -> by congruence. exists i, s'. split; [done|]. by apply Hk'.
Qed.

(** ** The contract of the cache *)

Lemma run_inv capacity rs cl : Z.of_nat (length rs) + 3 < 2 ^ 31 -> serve_all (new_client capacity) rs = Ran cl ->
  SInv (per_shard capacity) (Z.of_nat (length rs)) cl.
Proof.
  intros Hlt Hrun. pose proof (serve_all_ok (per_shard capacity) rs _ 0 (new_client_inv capacity)) as H.
  rewrite Hrun in H. apply H; lia.
Qed.

Lemma misused_split rs : forall cl, serve_all cl rs = Misused ->
  exists before e after cl', rs = before ++ RRelease e :: after /\ serve_all cl before = Ran cl' /\ cl_held cl' e <= 0.
Proof.
  induction rs as [|r rs IH]; intros cl; [done|]. simpl. destruct (serve cl r) as [cl1| |] eqn:E; [| |done].
  - intros (before & e & after & cl' & -> & Hr & Hh)%IH. exists (r :: before), e, after, cl'. simpl. by rewrite E.
  - intros _. exists [].
    destruct r as [k v ch d|k|e|k|]; simpl in E.
    + by destruct (Insert _ _ _ _ _ _).
    + by destruct (Lookup _ _) as [[? ?]|].
    + exists e, rs, cl. split; [done|]. split; [done|]. destruct (0 <? cl_held cl e) eqn:H0; [by destruct (Release _ _)|]. by b2p.
    + by destruct (Erase _ _).
    + by destruct (Prune _).
Qed.

(** C17: whatever a client asks of the cache in fewer than 2^31 - 3 requests, none of
    its assertions on reference counts, on cached flags, on the entry found for an
    eviction and on the number of entries the table moves when it grows fails and
    no freed entry is touched, unless the client releases a handle it does not
    hold; and the shards keep their invariant: an entry is cached exactly when the hash
    table has it, its reference count is that of the cache and of the clients, the
    LRU list and the in-use list split the cached entries without duplicates (no
    entry is its own successor), and the usage is the sum of their charges modulo
    2^64.  The assertion of [LRUHandle::key] that its handle is not a list head has
    no counterpart: list heads are not entries of the model. *)
Theorem cache_never_faults (capacity : Z) (rs : list request) :
  Z.of_nat (length rs) + 3 < 2 ^ 31 ->
  match serve_all (new_client capacity) rs with
  | Ran cl => forall i s, shards cl !! i = Some s -> Inv (local s (cl_held cl)) s
  | Misused => exists before e after cl, rs = before ++ RRelease e :: after /\
                 serve_all (new_client capacity) before = Ran cl /\ cl_held cl e <= 0
  | Faulted => False
  end.
Proof.
  intros Hlt. pose proof (serve_all_ok (per_shard capacity) rs _ 0 (new_client_inv capacity) ltac:(lia) ltac:(lia)) as H.
  destruct (serve_all (new_client capacity) rs) as [cl| |] eqn:E; [|by apply misused_split|done].
  intros i s Hi. by destruct (si_shard _ _ _ H i s Hi) as (? & _).
Qed.

Lemma lookup_answer cap n cl key : SInv cap n cl -> 0 <= n /\ n + 3 < 2 ^ 31 ->
  exists sc r, Lookup (cl_cache cl) key = Some (sc, r) /\
    match r with
    | Some e => exists v, cl_map cl !! key = Some (e, v) /\ Value sc e = Some v
    | None => forall e v, cl_map cl !! key = Some (e, v) -> 0 < cap -> cl_held cl e = 0
    end.
Proof.
  intros HS Hn. destruct (serve_lookup cap n cl HS Hn key) as (sc & r & s & Hl & Hi & Ht & cl' & Hserve & Hsc & HS').
  exists sc, r. split; [done|]. destruct (si_shard _ _ _ HS _ s Hi) as (HI & _).
  destruct (Lookup_spec _ _ (proj2 HI) key (HashSlice key)) as (r' & Hr' & Hsp); [apply HashSlice_range|].
  rewrite Ht in Hr'. injection Hr' as <-.
  assert (Hcl' : cl_map cl' = cl_map cl /\ (forall e, r = Some e -> 0 < cl_held cl' e)).
  { unfold serve in Hserve. rewrite Hl in Hserve. injection Hserve as <-. split; [done|]. intros e ->. cbn [cl_held]. rewrite hold_eq.
    destruct (si_held _ _ _ HS e) as [? _]. lia. }
  destruct r as [e|].
  - destruct Hsp as (h & HeE & Hh & _ & Hk). exists (lh_value h). pose proof (si_map _ _ _ HS _ s e h Hi HeE Hh) as Hm. rewrite Hk in Hm.
    split; [done|]. destruct Hcl' as [Hmap Hp]. destruct (proj2 (si_held _ _ _ HS' e) (Hp e eq_refl)) as (i' & s' & Hi' & h' & Hh').
    unfold Value. rewrite <- Hsc, (deref_ok cap (n + 1) cl' i' s' e h' HS' Hi' Hh'). simpl. f_equal.
    rewrite <- Hmap in Hm. by destruct (proj2 (si_key _ _ _ HS' key e _ Hm) i' s' h' Hi' Hh').
  - intros e v Hm Hcap. destruct (si_held _ _ _ HS e) as [H0 _]. destruct (decide (cl_held cl e = 0)) as [|Hne]; [done|].
    destruct (si_live _ _ _ HS key e v Hm) as (i & t & Hit & He); [lia|done|]. destruct (si_shard _ _ _ HS _ t Hit) as (HIt & _).
    destruct (entry_known _ _ _ HIt He) as (h & Hh & _). destruct (proj2 (si_key _ _ _ HS key e v Hm) i t h Hit Hh) as [Hkey _].
    destruct (si_home _ _ _ HS i t e h Hit Hh) as [Hhash ->]. rewrite Hhash, Hkey in *. assert (t = s) as -> by congruence.
    by destruct (Hsp e h He Hh).
Qed.

(** C19: the cache answers with what was last inserted under the key and not erased
    since, or not at all; with a capacity it does answer as long as a client
    holds the entry. *)
Theorem lookup_coherent (capacity : Z) (rs : list request) (cl : client) (key : list Z) :
  Z.of_nat (length rs) + 3 < 2 ^ 31 -> serve_all (new_client capacity) rs = Ran cl ->
  exists sc r, Lookup (cl_cache cl) key = Some (sc, r) /\
    match r with
    | Some e => exists v, cl_map cl !! key = Some (e, v) /\ Value sc e = Some v
    | None => forall e v, cl_map cl !! key = Some (e, v) -> 0 < per_shard capacity -> cl_held cl e = 0
    end.
Proof.
  intros Hlt Hrun. apply (lookup_answer _ (Z.of_nat (length rs))); [by apply run_inv|lia].
Qed.

(** C35: after fewer than 2^31 - 4 requests of any kind, an insertion succeeds and is
    found by the next lookup of the key, with its value, when the cache has a
    capacity; and it leaves the charges of its shard within the
    capacity, or nothing in the shard but entries in use. *)
Theorem insert_then_lookup (capacity : Z) (rs : list request) (cl : client) (key : list Z) (value charge deleter : Z) :
  Z.of_nat (length rs) + 4 < 2 ^ 31 -> serve_all (new_client capacity) rs = Ran cl ->
  exists cl' s, serve cl (RInsert key value charge deleter) = Ran cl' /\
    shards cl' !! Z.to_nat (Shard (HashSlice key)) = Some s /\
    (usage_ s <= per_shard capacity \/ lru_ s = []) /\
    (0 < per_shard capacity -> exists sc, Lookup (cl_cache cl') key = Some (sc, Some (cl_next cl)) /\ Value sc (cl_next cl) = Some value).
Proof.
  intros Hlt Hrun. pose proof (run_inv capacity rs cl ltac:(lia) Hrun) as HS.
  destruct (serve_insert _ _ cl HS ltac:(lia) key value charge deleter) as (cl' & s & Hserve & HS' & Hi & Hu).
  exists cl', s. split_and!; try done. intros Hcap. destruct (lookup_answer _ _ cl' key HS' ltac:(lia)) as (sc & r & Hl & Hr).
  exists sc. rewrite Hl. unfold serve in Hserve. destruct (Insert _ _ _ _ _ _); [|done]. injection Hserve as <-.
  cbn [cl_map cl_held] in Hr. rewrite lookup_insert_eq in Hr. destruct r as [e|].
  - destruct Hr as (v & [= <- <-] & Hv). done.
  - specialize (Hr _ _ eq_refl Hcap). rewrite hold_eq, (next_not_held _ _ cl HS) in Hr. lia.
Qed.

(** C28: every entry ever inserted is either still allocated or was passed to its
    deleter, once; an entry a client holds is still allocated; and destroying a
    cache nobody holds a handle of passes all the others to their deleters. *)
Theorem deleters_run_once (capacity : Z) (rs : list request) (cl : client) :
  Z.of_nat (length rs) + 3 < 2 ^ 31 -> serve_all (new_client capacity) rs = Ran cl ->
  NoDup (deleted_entries (shards cl)) /\
  (forall e, (e < cl_next cl)%positive <-> is_Some (Value (cl_cache cl) e) \/ e ∈ deleted_entries (shards cl)) /\
  (forall e, is_Some (Value (cl_cache cl) e) -> e ∉ deleted_entries (shards cl)) /\
  (forall e, 0 < cl_held cl e -> is_Some (Value (cl_cache cl) e)) /\
  ((forall e, cl_held cl e = 0) -> exists ss, DestroyCache (cl_cache cl) = Some ss /\ NoDup (deleted_entries ss) /\
     forall e, e ∈ deleted_entries ss <-> (e < cl_next cl)%positive).
Proof.
  intros Hlt Hrun. pose proof (run_inv capacity rs cl Hlt Hrun) as HS. destruct (deleted_once _ _ _ HS) as [Hn Hd].
  unfold Value. split_and!.
  - done.
  - intros e. rewrite Hd, fmap_is_Some. done.
  - intros e He Hde. apply fmap_is_Some in He. by apply (deleted_or_alive _ _ _ e HS).
  - intros e Hp. destruct (proj2 (si_held _ _ _ HS e) Hp) as (i & s & Hi & h & Hh). rewrite (deref_ok _ _ cl i s e h HS Hi Hh). simpl. eauto.
  - intros H0. by apply (destroy_ok _ _ cl HS).
Qed.

End Cache.

(** ** Examples *)

Abbreviation shards cl := (shard_ (cl_cache cl)).

Definition k1 : list Z := [104; 101; 108; 108; 111].
Definition k2 : list Z := [119; 111].

(** Three insertions, two of the same key, a lookup, releases and an erasure. *)
Definition demo_requests : list request :=
  [RInsert k1 41 1 7; RInsert k2 42 1 7; RRelease 1; RInsert k1 43 1 7; RLookup k2; RRelease 3; RErase k1].

Definition demo_client : client :=
  match serve_all true (new_client 100) demo_requests with Ran cl => cl | _ => new_client 0 end.

Lemma cache_never_faults_witness :
  match serve_all true (new_client 100) demo_requests with
  | Ran cl => forall i s, shards cl !! i = Some s -> Inv (local s (cl_held cl)) s
  | Misused => exists before e after cl, demo_requests = before ++ RRelease e :: after /\
                 serve_all true (new_client 100) before = Ran cl /\ cl_held cl e <= 0
  | Faulted => False
  end.
Proof. apply (cache_never_faults true 100 demo_requests). vm_compute. reflexivity. Defined.

Lemma demo_runs : serve_all true (new_client 100) demo_requests = Ran demo_client.
Proof. vm_compute. reflexivity. Qed.

Lemma lookup_coherent_witness :
  exists sc r, Lookup true (cl_cache demo_client) k2 = Some (sc, r) /\
    match r with
    | Some e => exists v, cl_map demo_client !! k2 = Some (e, v) /\ Value sc e = Some v
    | None => forall e v, cl_map demo_client !! k2 = Some (e, v) -> 0 < per_shard 100 -> cl_held demo_client e = 0
    end.
Proof. apply (lookup_coherent true 100 demo_requests demo_client k2); [vm_compute; reflexivity|exact demo_runs]. Defined.

Lemma insert_then_lookup_witness :
  exists cl' s, serve true demo_client (RInsert k1 44 3 7) = Ran cl' /\
    shards cl' !! Z.to_nat (Shard (HashSlice true k1)) = Some s /\
    (usage_ s <= per_shard 100 \/ lru_ s = []) /\
    (0 < per_shard 100 -> exists sc, Lookup true (cl_cache cl') k1 = Some (sc, Some (cl_next demo_client)) /\ Value sc (cl_next demo_client) = Some 44).
Proof. apply (insert_then_lookup true 100 demo_requests demo_client k1 44 3 7); [vm_compute; reflexivity|exact demo_runs]. Defined.

Lemma deleters_run_once_witness :
  NoDup (deleted_entries (shards demo_client)) /\
  (forall e, (e < cl_next demo_client)%positive <-> is_Some (Value (cl_cache demo_client) e) \/ e ∈ deleted_entries (shards demo_client)) /\
  (forall e, is_Some (Value (cl_cache demo_client) e) -> e ∉ deleted_entries (shards demo_client)) /\
  (forall e, 0 < cl_held demo_client e -> is_Some (Value (cl_cache demo_client) e)) /\
  ((forall e, cl_held demo_client e = 0) -> exists ss, DestroyCache (cl_cache demo_client) = Some ss /\ NoDup (deleted_entries ss) /\
     forall e, e ∈ deleted_entries ss <-> (e < cl_next demo_client)%positive).
Proof. apply (deleters_run_once true 100 demo_requests demo_client); [vm_compute; reflexivity|exact demo_runs]. Defined.

(** Of the three entries one is in use, two were passed to the deleter. *)
Lemma demo_state : deleted_entries (shards demo_client) = [1%positive; 3%positive] /\ cl_held demo_client 2 = 2 /\ Value (cl_cache demo_client) 2 = Some 42.
Proof. vm_compute. repeat split. Qed.
