(* ===== verification/TagTable.v ===== *)
(** * The tag table of the cuckoo filter

    Models [SingleTable] of src/insdb/util/cuckoo.cc: buckets of four tags of
    [bits_per_tag_] bits packed in one byte array, read and written with
    unaligned loads and stores of one, two or four bytes, and searched with a
    64-bit load and the zero-in-word trick.  An access outside of the array has no
    value, except for the 64-bit loads of the search, which read up to seven
    bytes past the array; [after] is what the memory holds there.

    Every width the code knows ends up in bits of the array: slot [j] of bucket [i]
    is the bits from [8 * kBytesPerBucket_ * i + bits_per_tag_ * j] on.
    [ReadTag_spec], [WriteTag_spec] and [FindTag_spec] say that the packed array is
    an array of tags, and that the word trick finds exactly the tags that are
    there, whatever follows the array. *)

From Stdlib Require Import ZArith Lia Bool.
From stdpp Require Import base list.
From S2P Require Import Prelude Coding.

(** ** The search for a tag in a word *)

Section Words.
  Local Open Scope cword_scope.

Definition haszero4 (x : Z) : Z := u64 (x - 0x1111) & u64 (Z.lnot x) & 0x8888.
Definition hasvalue4 (x n : Z) : Z := haszero4 (Z.lxor x (u64 (0x1111 * n))).
Definition haszero8 (x : Z) : Z := u64 (x - 0x01010101) & u64 (Z.lnot x) & 0x80808080.
Definition hasvalue8 (x n : Z) : Z := haszero8 (Z.lxor x (u64 (0x01010101 * n))).
Definition haszero12 (x : Z) : Z := u64 (x - 0x001001001001) & u64 (Z.lnot x) & 0x800800800800.
Definition hasvalue12 (x n : Z) : Z := haszero12 (Z.lxor x (u64 (0x001001001001 * n))).
Definition haszero16 (x : Z) : Z := u64 (x - 0x0001000100010001) & u64 (Z.lnot x) & 0x8000800080008000.
Definition hasvalue16 (x n : Z) : Z := haszero16 (Z.lxor x (u64 (0x0001000100010001 * n))).

(** Smallest power of two that is not below [x]. *)
Definition upperpower2 (x : Z) : Z :=
  let x := u64 (x - 1) in
  let x := x |: (x >> 1) in
  let x := x |: (x >> 2) in
  let x := x |: (x >> 4) in
  let x := x |: (x >> 8) in
  let x := x |: (x >> 16) in
  let x := x |: (x >> 32) in
  u64 (x + 1).
End Words.

(** ** Memory *)

(** Loads and stores of [n] bytes at the offset [p] of an array. *)
Definition load (n : nat) (mem : list Z) (p : Z) : option Z :=
  if (0 <=? p) && (p + Z.of_nat n <=? Z.of_nat (length mem)) then Some (le_value (take n (drop (Z.to_nat p) mem))) else None.

Definition store (n : nat) (mem : list Z) (p v : Z) : option (list Z) :=
  if (0 <=? p) && (p + Z.of_nat n <=? Z.of_nat (length mem))
  then Some (take (Z.to_nat p) mem ++ le_bytes n v ++ drop (Z.to_nat p + n) mem) else None.

(** ** [SingleTable] *)

Definition kTagsPerBucket : nat := 4.

Record SingleTable : Type := {
  bits_per_tag_ : Z;
  num_buckets_ : Z;
  kBytesPerBucket_ : Z;
  kTagMask_ : Z;
  bits_data_ : list Z;
}.
#[export] Instance eta_SingleTable : Eta SingleTable := fun r =>
  {| bits_per_tag_ := bits_per_tag_ r; num_buckets_ := num_buckets_ r; kBytesPerBucket_ := kBytesPerBucket_ r;
     kTagMask_ := kTagMask_ r; bits_data_ := bits_data_ r |}.

Section Table.
  Local Open Scope cword_scope.
  (** The memory behind [bits_data_]. *)
  Variable after : list Z.

Definition bytes_per_bucket (bits_per_tag : Z) : Z := (bits_per_tag * Z.of_nat kTagsPerBucket + 7) >> 3.
Definition tag_mask (bits_per_tag : Z) : Z := u64 (u64 (1 << bits_per_tag) - 1).

(** The constructors, with a zeroed array and with a copy of [bitmap]. *)
Definition NewSingleTable (bits_per_tag num : Z) : SingleTable :=
  {| bits_per_tag_ := bits_per_tag; num_buckets_ := num; kBytesPerBucket_ := bytes_per_bucket bits_per_tag;
     kTagMask_ := tag_mask bits_per_tag; bits_data_ := replicate (Z.to_nat (bytes_per_bucket bits_per_tag * num)) 0 |}.

Definition LoadSingleTable (bits_per_tag num : Z) (bitmap : list Z) : option SingleTable :=
  if Z.of_nat (length bitmap) =? bytes_per_bucket bits_per_tag * num then
    Some {| bits_per_tag_ := bits_per_tag; num_buckets_ := num; kBytesPerBucket_ := bytes_per_bucket bits_per_tag;
            kTagMask_ := tag_mask bits_per_tag; bits_data_ := bitmap |}
  else None.

Definition GetBitMap (t : SingleTable) : list Z := take (Z.to_nat (kBytesPerBucket_ t * num_buckets_ t)) (bits_data_ t).
Definition NumBuckets (t : SingleTable) : Z := num_buckets_ t.
Definition SizeInBytes (t : SingleTable) : Z := kBytesPerBucket_ t * num_buckets_ t.
Definition SizeInTags (t : SingleTable) : Z := Z.of_nat kTagsPerBucket * num_buckets_ t.

(** [buckets_[i]], as an offset of [bits_data_]. *)
Definition bucket (t : SingleTable) (i : Z) : option Z :=
  if (0 <=? i) && (i <? num_buckets_ t) then Some (kBytesPerBucket_ t * i) else None.

Definition ReadTag (t : SingleTable) (i j : Z) : option Z :=
  p ← bucket t i;
  let w := bits_per_tag_ t in
  tag ← (if w =? 2 then v ← load 1 (bits_data_ t) p; Some (v >> (j * 2))
         else if w =? 4 then v ← load 1 (bits_data_ t) (p + (j >> 1)); Some (v >> ((j & 1) << 2))
         else if w =? 8 then load 1 (bits_data_ t) (p + j)
         else if w =? 12 then v ← load 2 (bits_data_ t) (p + (j + (j >> 1))); Some (v >> ((j & 1) << 2))
         else if w =? 16 then load 2 (bits_data_ t) (p + (j << 1))
         else if w =? 32 then load 4 (bits_data_ t) (p + 4 * j)
         else Some 0);
  Some (u32 (tag & kTagMask_ t)).

Definition WriteTag (t : SingleTable) (i j tg : Z) : option SingleTable :=
  p ← bucket t i;
  let w := bits_per_tag_ t in
  let tag := u32 (tg & kTagMask_ t) in
  let mem := bits_data_ t in
  mem ← (if w =? 2 then v ← load 1 mem p; store 1 mem p (v |: (tag << (2 * j)))
         else if w =? 4 then
           let p := p + (j >> 1) in
           v ← load 1 mem p;
           if (j & 1) =? 0 then store 1 mem p ((v & 0xf0) |: tag) else store 1 mem p ((v & 0x0f) |: (tag << 4))
         else if w =? 8 then store 1 mem (p + j) tag
         else if w =? 12 then
           let p := p + (j + (j >> 1)) in
           v ← load 2 mem p;
           if (j & 1) =? 0 then store 2 mem p ((v & 0xf000) |: tag) else store 2 mem p ((v & 0x000f) |: (tag << 4))
         else if w =? 16 then store 2 mem (p + 2 * j) tag
         else if w =? 32 then store 4 mem (p + 4 * j) tag
         else Some mem);
  Some (t <| bits_data_ := mem |>).

(** [*((uint64_t * )p)]. *)
Definition load_bucket (t : SingleTable) (i : Z) : option Z := p ← bucket t i; load 8 (bits_data_ t ++ after) p.

(** The loops over the slots of a bucket. *)
Fixpoint find_loop (t : SingleTable) (i tag : Z) (js : list Z) : option bool :=
  match js with
  | [] => Some false
  | j :: js' => v ← ReadTag t i j; if v =? tag then Some true else find_loop t i tag js'
  end.

Fixpoint find_both_loop (t : SingleTable) (i1 i2 tag : Z) (js : list Z) : option bool :=
  match js with
  | [] => Some false
  | j :: js' =>
      v1 ← ReadTag t i1 j;
      if v1 =? tag then Some true else
      v2 ← ReadTag t i2 j;
      if v2 =? tag then Some true else find_both_loop t i1 i2 tag js'
  end.

Definition slots : list Z := map Z.of_nat (seq 0 kTagsPerBucket).

Definition nonzero (x : Z) : bool := negb (x =? 0).

Definition FindTagInBuckets (t : SingleTable) (i1 i2 tag : Z) : option bool :=
  v1 ← load_bucket t i1;
  v2 ← load_bucket t i2;
  let w := bits_per_tag_ t in
  if w =? 4 then Some (nonzero (hasvalue4 v1 tag) || nonzero (hasvalue4 v2 tag))
  else if w =? 8 then Some (nonzero (hasvalue8 v1 tag) || nonzero (hasvalue8 v2 tag))
  else if w =? 12 then Some (nonzero (hasvalue12 v1 tag) || nonzero (hasvalue12 v2 tag))
  else if w =? 16 then Some (nonzero (hasvalue16 v1 tag) || nonzero (hasvalue16 v2 tag))
  else find_both_loop t i1 i2 tag slots.

Definition FindTagInBucket (t : SingleTable) (i tag : Z) : option bool :=
  let w := bits_per_tag_ t in
  if w =? 4 then v ← load_bucket t i; Some (nonzero (hasvalue4 v tag))
  else if w =? 8 then v ← load_bucket t i; Some (nonzero (hasvalue8 v tag))
  else if w =? 12 then v ← load_bucket t i; Some (nonzero (hasvalue12 v tag))
  else if w =? 16 then v ← load_bucket t i; Some (nonzero (hasvalue16 v tag))
  else find_loop t i tag slots.

Fixpoint delete_loop (t : SingleTable) (i tag : Z) (js : list Z) : option (SingleTable * bool) :=
  match js with
  | [] => Some (t, false)
  | j :: js' =>
      v ← ReadTag t i j;
      if v =? tag then
        found ← FindTagInBucket t i tag;
        if negb found then None else
        t ← WriteTag t i j 0;
        Some (t, true)
      else delete_loop t i tag js'
  end.

Definition DeleteTagFromBucket (t : SingleTable) (i tag : Z) : option (SingleTable * bool) := delete_loop t i tag slots.

Fixpoint insert_loop (t : SingleTable) (i tag : Z) (js : list Z) : option (SingleTable * bool) :=
  match js with
  | [] => Some (t, false)
  | j :: js' =>
      v ← ReadTag t i j;
      if v =? 0 then t ← WriteTag t i j tag; Some (t, true) else insert_loop t i tag js'
  end.

(** [r] is what [rand] returns if it is called.  The result has the value of
    [oldtag] after the call. *)
Definition InsertTagToBucket (r : Z) (t : SingleTable) (i tag : Z) (kickout : bool) (oldtag : Z) : option (SingleTable * bool * Z) :=
  '(t, done) ← insert_loop t i tag slots;
  if done : bool then Some (t, true, oldtag)
  else if kickout then
    let r := r mod Z.of_nat kTagsPerBucket in
    oldtag ← ReadTag t i r;
    t ← WriteTag t i r tag;
    Some (t, false, oldtag)
  else Some (t, false, oldtag).

Fixpoint count_tags (t : SingleTable) (i : Z) (js : list Z) : option Z :=
  match js with
  | [] => Some 0
  | j :: js' => v ← ReadTag t i j; n ← count_tags t i js'; Some (if negb (v =? 0) then n + 1 else n)
  end.

Definition NumTagsInBucket (t : SingleTable) (i : Z) : option Z := count_tags t i slots.
End Table.

(** ** Lanes of a word

    [lane w x j] is the [j]-th field of [w] bits of [x]. *)

Definition lane (w x : Z) (j : nat) : Z := Z.shiftr x (w * Z.of_nat j) mod 2 ^ w.

(** One in every lane, and the highest bit of every lane. *)
Fixpoint lows (w : Z) (k : nat) : Z := match k with O => 0 | S k' => 1 + 2 ^ w * lows w k' end.
Fixpoint highs (w : Z) (k : nat) : Z := match k with O => 0 | S k' => 2 ^ (w - 1) + 2 ^ w * highs w k' end.

Lemma lane_0 w x : lane w x 0 = x mod 2 ^ w.
Proof. unfold lane. by rewrite Z.mul_0_r, Z.shiftr_0_r. Qed.

Lemma lane_S w x j : 0 <= w -> lane w x (S j) = lane w (x / 2 ^ w) j.
Proof. intros Hw. unfold lane. rewrite <- Z.shiftr_div_pow2, Z.shiftr_shiftr by lia. do 2 f_equal. lia. Qed.

(** The bits of a sum of a low part and a multiple. *)
Lemma testbit_split a y w i : 0 <= w -> 0 <= a < 2 ^ w -> 0 <= i ->
  Z.testbit (a + 2 ^ w * y) i = if i <? w then Z.testbit a i else Z.testbit y (i - w).
Proof.
  intros Hw Ha Hi. rewrite (Z.mul_comm (2 ^ w)), <- lor_disjoint_add, Z.lor_spec, Z.shiftl_spec by lia.
  destruct (Z.ltb_spec i w).
  - by rewrite (Z.testbit_neg_r y), orb_false_r by lia.
  - by rewrite (testbit_high a w) by lia.
Qed.

(** The trick: the lowest zero lane borrows, and no lane below it does. *)
Lemma zero_lane w k : 0 < w -> forall x,
  Z.land (Z.land (x - lows w k) (Z.lnot x)) (highs w k) <> 0 <-> exists j, (j < k)%nat /\ lane w x j = 0.
Proof.
  intros Hw. induction k as [|k IH]; intros x.
  { simpl. rewrite Z.land_0_r. split; [done|]. intros (j & ? & _). lia. }
  set (a := x mod 2 ^ w). set (y := x / 2 ^ w).
  assert (Hx : x = a + 2 ^ w * y) by (unfold a, y; pose proof (Z.div_mod x (2 ^ w)); lia).
  assert (Ha : 0 <= a < 2 ^ w) by (apply Z.mod_pos_bound; lia).
  assert (Hpow : 2 ^ w = 2 * 2 ^ (w - 1)) by (rewrite <- Z.pow_succ_r by lia; f_equal; lia).
  assert (Hhalf : 0 < 2 ^ (w - 1)) by lia.
  assert (Hsplit : (exists j, (j < S k)%nat /\ lane w x j = 0) <-> a = 0 \/ exists j, (j < k)%nat /\ lane w y j = 0).
  { split.
    - intros ([|j] & Hj & Hl); [left; by rewrite lane_0 in Hl|right]. exists j. rewrite lane_S in Hl by lia. split; [lia|done].
    - intros [H0|(j & Hj & Hl)]; [exists 0%nat; rewrite lane_0; split; [lia|done]|]. exists (S j). rewrite lane_S by lia. split; [lia|done]. }
  rewrite Hsplit. cbn [lows highs]. destruct (decide (a = 0)) as [H0|H0].
  - split; [by left|]. intros _ Hz. apply (f_equal (fun z => Z.testbit z (w - 1))) in Hz.
    rewrite !Z.land_spec, Z.bits_0, Z.lnot_spec in Hz by lia.
    replace (x - (1 + 2 ^ w * lows w k)) with ((2 ^ w - 1) + 2 ^ w * (y - lows w k - 1)) in Hz by lia.
    rewrite !testbit_split in Hz by lia. rewrite Hx, testbit_split in Hz by lia. rewrite (proj2 (Z.ltb_lt (w - 1) w)) in Hz by lia.
    rewrite H0, Z.bits_0, Z.pow2_bits_true in Hz by lia. replace (2 ^ w - 1) with (Z.ones w) in Hz by (rewrite Z.ones_equiv; lia).
    by rewrite Z.ones_spec_low in Hz by lia.
  - assert (Heq : Z.land (Z.land (x - (1 + 2 ^ w * lows w k)) (Z.lnot x)) (2 ^ (w - 1) + 2 ^ w * highs w k) =
                  2 ^ w * Z.land (Z.land (y - lows w k) (Z.lnot y)) (highs w k)).
    { replace (x - (1 + 2 ^ w * lows w k)) with ((a - 1) + 2 ^ w * (y - lows w k)) by lia.
      apply bits_ext. intros i Hi. rewrite (Z.mul_comm (2 ^ w) (Z.land _ _)), !Z.land_spec, Z.lnot_spec, !testbit_split by lia.
      rewrite Hx at 1. rewrite testbit_split by lia. destruct (Z.ltb_spec i w) as [Hlt|Hge].
      - rewrite Z.mul_pow2_bits_low by lia. destruct (decide (i = w - 1)) as [->|Hne]; [|rewrite Z.pow2_bits_false by lia; by rewrite andb_false_r].
        destruct (Z.testbit a (w - 1)) eqn:Hb; [by rewrite andb_false_r|].
        rewrite (testbit_high (a - 1) (w - 1)); [done| |lia]. split; [lia|].
        destruct (Z.lt_ge_cases a (2 ^ (w - 1))); [lia|]. exfalso.
        assert (Ht : Z.testbit a (w - 1) = true); [|congruence].
        apply Z.testbit_true; [lia|]. replace (a / 2 ^ (w - 1)) with 1; [done|]. apply Z.div_unique with (a - 2 ^ (w - 1)); lia.
      - rewrite Z.mul_pow2_bits by lia. rewrite !Z.land_spec, Z.lnot_spec by lia. done. }
    rewrite Heq, <- IH. split; [|lia].
    intros Hne. right. lia.
Qed.

Lemma land_u64 a b h : 0 <= h < 2 ^ 64 -> Z.land (Z.land (u64 a) (u64 b)) h = Z.land (Z.land a b) h.
Proof.
  intros Hh. apply bits_ext. intros i Hi. rewrite !Z.land_spec. unfold u64. rewrite !wrap_testbit by lia.
  destruct (Z.ltb_spec i 64); [done|]. rewrite (testbit_high h 64) by lia. by rewrite !andb_false_r.
Qed.

Lemma lane_lxor w x y j : 0 <= w -> lane w (Z.lxor x y) j = Z.lxor (lane w x j) (lane w y j).
Proof.
  intros Hw. unfold lane. rewrite Z.shiftr_lxor, <- !Z.land_ones by lia. apply bits_ext. intros i Hi.
  rewrite !Z.lxor_spec, !Z.land_spec, Z.lxor_spec. by destruct (Z.testbit (Z.ones w) i); rewrite ?andb_true_r, ?andb_false_r.
Qed.

Lemma lane_lows w n : 0 <= w -> 0 <= n < 2 ^ w -> forall k j, (j < k)%nat -> lane w (lows w k * n) j = n.
Proof.
  intros Hw Hn k. induction k as [|k IH]; intros j Hj; [lia|]. cbn [lows].
  replace ((1 + 2 ^ w * lows w k) * n) with (n + lows w k * n * 2 ^ w) by lia. destruct j as [|j].
  - rewrite lane_0, Z.mod_add, Z.mod_small by lia. done.
  - rewrite lane_S, Z.div_add, Z.div_small by lia. simpl. apply IH. lia.
Qed.

Lemma lane_range w x j : 0 <= w -> 0 <= lane w x j < 2 ^ w.
Proof. intros. apply Z.mod_pos_bound. lia. Qed.

Lemma value_lane w k x n : 0 < w -> 0 <= n < 2 ^ w ->
  0 <= lows w k * n < 2 ^ 64 -> 0 <= highs w k < 2 ^ 64 ->
  let x' := Z.lxor x (u64 (lows w k * n)) in
  Z.land (Z.land (u64 (x' - lows w k)) (u64 (Z.lnot x'))) (highs w k) <> 0 <-> exists j, (j < k)%nat /\ lane w x j = n.
Proof.
  intros Hw Hn Hl Hh. cbv zeta. rewrite land_u64, zero_lane by done. unfold u64. rewrite (wrap_small 64) by done.
  split; intros (j & Hj & Hlane); exists j; (split; [done|]); rewrite lane_lxor, lane_lows in * by (done || lia).
  - by apply Z.lxor_eq.
  - by rewrite Hlane, Z.lxor_nilpotent.
Qed.

(** The four lanes hold the tag. *)
Definition has_lane (w v tag : Z) : bool := existsb (fun j => lane w v j =? tag) (seq 0 kTagsPerBucket).

Lemma has_lane_spec w v tag : has_lane w v tag = true <-> exists j, (j < kTagsPerBucket)%nat /\ lane w v j = tag.
Proof.
  unfold has_lane. rewrite existsb_exists. split.
  - intros (j & Hj & E%Z.eqb_eq). exists j. apply in_seq in Hj. split; [lia|done].
  - intros (j & Hj & E). exists j. rewrite in_seq, Z.eqb_eq. split; [lia|done].
Qed.

Lemma nonzero_value w x n v : 0 < w -> 0 <= n < 2 ^ w -> 0 <= lows w kTagsPerBucket * n < 2 ^ 64 -> 0 <= highs w kTagsPerBucket < 2 ^ 64 ->
  v = (let x' := Z.lxor x (u64 (lows w kTagsPerBucket * n)) in
       Z.land (Z.land (u64 (x' - lows w kTagsPerBucket)) (u64 (Z.lnot x'))) (highs w kTagsPerBucket)) ->
  nonzero v = has_lane w x n.
Proof.
  intros Hw Hn Hl Hh ->. apply eq_true_iff_eq. rewrite has_lane_spec, <- (value_lane w) by done.
  unfold nonzero. rewrite negb_true_iff. apply Z.eqb_neq.
Qed.

Lemma nonzero4 x n : 0 <= n < 2 ^ 4 -> nonzero (hasvalue4 x n) = has_lane 4 x n.
Proof. intros Hn. apply nonzero_value; [lia|done| |done|done]. change (lows 4 kTagsPerBucket) with 0x1111. lia. Qed.
Lemma nonzero8 x n : 0 <= n < 2 ^ 8 -> nonzero (hasvalue8 x n) = has_lane 8 x n.
Proof. intros Hn. apply nonzero_value; [lia|done| |done|done]. change (lows 8 kTagsPerBucket) with 0x01010101. lia. Qed.
Lemma nonzero12 x n : 0 <= n < 2 ^ 12 -> nonzero (hasvalue12 x n) = has_lane 12 x n.
Proof. intros Hn. apply nonzero_value; [lia|done| |done|done]. change (lows 12 kTagsPerBucket) with 0x001001001001. lia. Qed.
Lemma nonzero16 x n : 0 <= n < 2 ^ 16 -> nonzero (hasvalue16 x n) = has_lane 16 x n.
Proof. intros Hn. apply nonzero_value; [lia|done| |done|done]. change (lows 16 kTagsPerBucket) with 0x0001000100010001. lia. Qed.

(** ** Bits of the array *)

Definition membit (mem : list Z) (k : Z) : bool := Z.testbit (default 0 (mem !! Z.to_nat (k / 8))) (k mod 8).

Lemma membit_drop mem p b : 0 <= b -> membit (drop p mem) b = membit mem (8 * Z.of_nat p + b).
Proof.
  intros Hb. unfold membit. rewrite lookup_drop, (Z.mul_comm 8), (Z.add_comm (_ * _)), Z.div_add, Z.mod_add by lia.
  pose proof (Z.div_pos b 8). do 3 f_equal. lia.
Qed.

Lemma membit_take mem n b : 0 <= b < 8 * Z.of_nat n -> membit (take n mem) b = membit mem b.
Proof. intros Hb. unfold membit. rewrite lookup_take_lt; [done|]. pose proof (Z.div_lt_upper_bound b 8 (Z.of_nat n)). lia. Qed.

Lemma membit_app l1 l2 k : 0 <= k ->
  membit (l1 ++ l2) k = if k <? 8 * Z.of_nat (length l1) then membit l1 k else membit l2 (k - 8 * Z.of_nat (length l1)).
Proof.
  intros Hk. unfold membit. destruct (Z.ltb_spec k (8 * Z.of_nat (length l1))).
  - rewrite lookup_app_l; [done|]. pose proof (Z.div_lt_upper_bound k 8 (Z.of_nat (length l1))). lia.
  - pose proof (Z.div_le_lower_bound k 8 (Z.of_nat (length l1))). rewrite lookup_app_r by lia.
    replace (k - 8 * Z.of_nat (length l1)) with (k + - Z.of_nat (length l1) * 8) by lia. rewrite Z.div_add, Z.mod_add by lia.
    do 3 f_equal. lia.
Qed.

Lemma testbit_le_value l : bytes_ok l -> forall b, 0 <= b -> Z.testbit (le_value l) b = membit l b.
Proof.
  induction 1 as [|x l Hx Hl IH]; intros b Hb; cbn [le_value].
  - unfold membit. by rewrite lookup_nil, !Z.bits_0.
  - rewrite Z.lor_spec, Z.shiftl_spec by lia. unfold byte_ok in Hx. change (x :: l) with ([x] ++ l). rewrite membit_app by lia. simpl length.
    destruct (Z.ltb_spec b 8) as [Hlt|Hge].
    + rewrite (Z.testbit_neg_r (le_value l)), orb_false_r, (proj2 (Z.ltb_lt b (8 * Z.of_nat 1))) by lia. unfold membit.
      rewrite Z.div_small, Z.mod_small by lia. done.
    + rewrite (testbit_high x 8), (proj2 (Z.ltb_ge b (8 * Z.of_nat 1))) by lia. simpl. rewrite IH by lia. done.
Qed.

Lemma load_spec n mem p : bytes_ok mem -> 0 <= p -> p + Z.of_nat n <= Z.of_nat (length mem) ->
  exists v, load n mem p = Some v /\ 0 <= v < 2 ^ (8 * Z.of_nat n) /\
    forall b, 0 <= b < 8 * Z.of_nat n -> Z.testbit v b = membit mem (8 * p + b).
Proof.
  intros Hm Hp Hn. unfold load. rewrite (proj2 (Z.leb_le 0 p)), (proj2 (Z.leb_le _ _)) by done. simpl. eexists. split; [done|].
  assert (Hok : bytes_ok (take n (drop (Z.to_nat p) mem))) by auto using bytes_ok_take, bytes_ok_drop.
  assert (Hlen : length (take n (drop (Z.to_nat p) mem)) = n) by (rewrite length_take, length_drop; lia).
  assert (Hbits : forall b, 0 <= b -> Z.testbit (le_value (take n (drop (Z.to_nat p) mem))) b =
                  membit (take n (drop (Z.to_nat p) mem)) b) by (intros; by apply testbit_le_value).
  split.
  - assert (H0 : 0 <= le_value (take n (drop (Z.to_nat p) mem))).
    { clear Hbits Hlen. induction Hok as [|x l Hx _ IH]; simpl; [lia|]. apply Z.lor_nonneg. split; [apply Hx|by apply Z.shiftl_nonneg]. }
    split; [done|]. apply below_pow2; [lia|done|]. intros i Hi. rewrite Hbits by lia. unfold membit.
    rewrite lookup_ge_None_2; [by rewrite Z.bits_0|]. rewrite Hlen. pose proof (Z.div_le_lower_bound i 8 (Z.of_nat n)). lia.
  - intros b Hb. rewrite Hbits, membit_take, membit_drop by lia. f_equal. lia.
Qed.

Lemma store_spec n mem p v : bytes_ok mem -> 0 <= p -> p + Z.of_nat n <= Z.of_nat (length mem) ->
  exists mem', store n mem p v = Some mem' /\ bytes_ok mem' /\ length mem' = length mem /\
    forall k, 0 <= k -> membit mem' k =
      if (8 * p <=? k) && (k <? 8 * (p + Z.of_nat n)) then Z.testbit v (k - 8 * p) else membit mem k.
Proof.
  intros Hm Hp Hn. unfold store. rewrite (proj2 (Z.leb_le 0 p)), (proj2 (Z.leb_le _ _)) by done. simpl. eexists. split; [done|].
  split; [|split].
  - apply Forall_app. split; [by apply bytes_ok_take|]. apply Forall_app. split; [apply le_bytes_ok|by apply bytes_ok_drop].
  - rewrite !length_app, length_take, length_drop, length_le_bytes. lia.
  - intros k Hk. rewrite membit_app by lia. rewrite length_take.
    replace (Z.of_nat (Z.to_nat p `min` length mem)) with p by lia.
    destruct (Z.ltb_spec k (8 * p)).
    + rewrite membit_take by lia. rewrite (proj2 (Z.leb_gt (8 * p) k)) by lia. done.
    + rewrite membit_app, length_le_bytes by lia. rewrite (proj2 (Z.leb_le (8 * p) k)) by lia. destruct (Z.ltb_spec (k - 8 * p) (8 * Z.of_nat n)).
      * rewrite (proj2 (Z.ltb_lt k _)) by lia. simpl.
        rewrite <- testbit_le_value, le_value_le_bytes, wrap_testbit by (apply le_bytes_ok || lia). by rewrite (proj2 (Z.ltb_lt _ _)) by lia.
      * rewrite (proj2 (Z.ltb_ge k _)) by lia. simpl. rewrite membit_drop by lia. f_equal. lia.
Qed.

(** ** The table is an array of tags *)

(** The widths every function of the table knows. *)
Definition width_ok (w : Z) : Prop := w = 4 \/ w = 8 \/ w = 12 \/ w = 16 \/ w = 32.

Record tags_ok (t : SingleTable) : Prop := {
  tk_width : width_ok (bits_per_tag_ t);
  tk_bytes : kBytesPerBucket_ t = bytes_per_bucket (bits_per_tag_ t);
  tk_mask : kTagMask_ t = tag_mask (bits_per_tag_ t);
  tk_length : Z.of_nat (length (bits_data_ t)) = kBytesPerBucket_ t * num_buckets_ t;
  tk_data : bytes_ok (bits_data_ t);
}.

(** The first bit of a slot. *)
Definition base (t : SingleTable) (i j : Z) : Z := bits_per_tag_ t * (4 * i + j).

Lemma read_bits n mem p s w : bytes_ok mem -> 0 <= p -> p + Z.of_nat n <= Z.of_nat (length mem) ->
  0 <= s -> 0 < w <= 32 -> s + w <= 8 * Z.of_nat n ->
  exists L, load n mem p = Some L /\ 0 <= u32 (Z.land (Z.shiftr L s) (Z.ones w)) < 2 ^ w /\
    forall b, 0 <= b < w -> Z.testbit (u32 (Z.land (Z.shiftr L s) (Z.ones w))) b = membit mem (8 * p + s + b).
Proof.
  intros Hm Hp Hn Hs Hw Hsw. destruct (load_spec n mem p Hm Hp Hn) as (L & HL & _ & Hb). exists L. split; [done|].
  rewrite Z.land_ones by lia. assert (Hr : 0 <= Z.shiftr L s mod 2 ^ w < 2 ^ w) by (apply Z.mod_pos_bound; lia).
  assert (2 ^ w <= 2 ^ 32) by (apply Z.pow_le_mono_r; lia). unfold u32. rewrite wrap_small by lia. split; [done|].
  intros b Hbw. rewrite Z.mod_pow2_bits_low, Z.shiftr_spec, Hb by lia. f_equal. lia.
Qed.

Lemma bucket_eq t i : 0 <= i < num_buckets_ t -> bucket t i = Some (kBytesPerBucket_ t * i).
Proof. intros Hi. unfold bucket. by rewrite (proj2 (Z.leb_le 0 i)), (proj2 (Z.ltb_lt i _)) by lia. Qed.

(** The size of the loads and stores of a width. *)
Definition unit_bytes (w : Z) : nat := if w <=? 8 then 1 else if w <=? 16 then 2 else 4.

(** Four values of a slot number, five widths. *)
Ltac slot_cases :=
  intros; match goal with H : 0 <= ?j < 4 |- _ => assert (j = 0 \/ j = 1 \/ j = 2 \/ j = 3) as [->|[->|[->| ->]]] by lia; reflexivity end.

Lemma half_slot j : 0 <= j < 4 -> Z.shiftr j 1 = 4 * j / 8.
Proof. slot_cases. Qed.
Lemma half_shift j : 0 <= j < 4 -> Z.shiftl (Z.land j 1) 2 = (4 * j) mod 8.
Proof. slot_cases. Qed.
Lemma three_halves_slot j : 0 <= j < 4 -> j + Z.shiftr j 1 = 12 * j / 8.
Proof. slot_cases. Qed.
Lemma three_halves_shift j : 0 <= j < 4 -> Z.shiftl (Z.land j 1) 2 = (12 * j) mod 8.
Proof. slot_cases. Qed.
Lemma byte_slot j : 0 <= j < 4 -> j = 8 * j / 8.
Proof. slot_cases. Qed.
Lemma word_slot j : 0 <= j < 4 -> Z.shiftl j 1 = 16 * j / 8.
Proof. slot_cases. Qed.
Lemma long_slot j : 0 <= j < 4 -> 4 * j = 32 * j / 8.
Proof. slot_cases. Qed.
Lemma aligned_shift w j : w mod 8 = 0 -> (w * j) mod 8 = 0.
Proof. intros Hw. rewrite Z.mul_mod, Hw by lia. done. Qed.

(** Every width reads one unit and shifts it. *)
Lemma ReadTag_eq t i j : tags_ok t -> 0 <= i < num_buckets_ t -> 0 <= j < 4 ->
  ReadTag t i j =
    L ← load (unit_bytes (bits_per_tag_ t)) (bits_data_ t) (kBytesPerBucket_ t * i + bits_per_tag_ t * j / 8);
    Some (u32 (Z.land (Z.shiftr L ((bits_per_tag_ t * j) mod 8)) (Z.ones (bits_per_tag_ t)))).
Proof.
  intros [Hw _ Hm _ _] Hi Hj. unfold ReadTag. rewrite (bucket_eq t i Hi), Hm. cbn [mbind option_bind].
  destruct Hw as [->|[->|[->|[->| ->]]]]; cbn [Z.eqb Pos.eqb].
  - rewrite half_slot, half_shift by done. by destruct (load _ _ _).
  - rewrite (byte_slot j) at 1 by done. rewrite aligned_shift by done. destruct (load _ _ _); [|done]. simpl. by rewrite Z.shiftr_0_r.
  - rewrite three_halves_slot, three_halves_shift by done. by destruct (load _ _ _).
  - rewrite word_slot, aligned_shift by done. destruct (load _ _ _); [|done]. cbn [mbind option_bind]. by rewrite Z.shiftr_0_r.
  - rewrite long_slot, aligned_shift by done. destruct (load _ _ _); [|done]. cbn [mbind option_bind]. by rewrite Z.shiftr_0_r.
Qed.

(** A unit of a slot is inside of the array, and its bits are those of the slot. *)
Lemma slot_unit t i j : tags_ok t -> 0 <= i < num_buckets_ t -> 0 <= j < 4 ->
  let w := bits_per_tag_ t in
  let p := kBytesPerBucket_ t * i + w * j / 8 in
  let n := Z.of_nat (unit_bytes w) in
  0 <= p /\ p + n <= Z.of_nat (length (bits_data_ t)) /\ 0 <= (w * j) mod 8 /\ 0 < w <= 32 /\
  (w * j) mod 8 + w <= 8 * n /\ 8 * p + (w * j) mod 8 = base t i j.
Proof.
  intros [Hw Hb _ Hl _] Hi Hj. cbv zeta. rewrite Hl, Hb. unfold base.
  assert (j = 0 \/ j = 1 \/ j = 2 \/ j = 3) as Hj' by lia.
  destruct Hw as [->|[->|[->|[->| ->]]]]; destruct Hj' as [->|[->|[->| ->]]];
    match goal with |- context [bytes_per_bucket ?w] => let k := eval vm_compute in (bytes_per_bucket w) in change (bytes_per_bucket w) with k end;
    match goal with |- context [unit_bytes ?w] => let k := eval vm_compute in (Z.of_nat (unit_bytes w)) in change (Z.of_nat (unit_bytes w)) with k end;
    repeat match goal with |- context [(?a * ?b) mod 8] => let k := eval vm_compute in ((a * b) mod 8) in change ((a * b) mod 8) with k end;
    repeat match goal with |- context [?a * ?b / 8] => let k := eval vm_compute in (a * b / 8) in change (a * b / 8) with k end; lia.
Qed.

Lemma ReadTag_spec t i j : tags_ok t -> 0 <= i < num_buckets_ t -> 0 <= j < 4 ->
  exists v, ReadTag t i j = Some v /\ 0 <= v < 2 ^ bits_per_tag_ t /\
    forall b, 0 <= b < bits_per_tag_ t -> Z.testbit v b = membit (bits_data_ t) (base t i j + b).
Proof.
  intros Ht Hi Hj. destruct (slot_unit t i j Ht Hi Hj) as (H1 & H2 & H3 & H4 & H5 & H6).
  rewrite (ReadTag_eq t i j Ht Hi Hj). destruct (read_bits _ _ _ _ _ (tk_data _ Ht) H1 H2 H3 H4 H5) as (L & -> & Hr & Hb).
  cbn [mbind option_bind]. eexists. split; [done|]. split; [done|]. intros b Hbw. rewrite Hb, H6 by done. done.
Qed.

(** Replacing [w] bits of a unit at the bit [s]. *)
Definition replaces (n : nat) (s w v tag nv : Z) : Prop :=
  forall b, 0 <= b < 8 * Z.of_nat n -> Z.testbit nv b = if (s <=? b) && (b <? s + w) then Z.testbit tag (b - s) else Z.testbit v b.

Lemma write_bits n mem p s w tag : bytes_ok mem -> 0 <= p -> p + Z.of_nat n <= Z.of_nat (length mem) ->
  0 <= s -> 0 < w -> s + w <= 8 * Z.of_nat n ->
  exists L, load n mem p = Some L /\ 0 <= L < 2 ^ (8 * Z.of_nat n) /\ forall nv, replaces n s w L tag nv ->
    exists mem', store n mem p nv = Some mem' /\ bytes_ok mem' /\ length mem' = length mem /\
      forall k, 0 <= k -> membit mem' k =
        if (8 * p + s <=? k) && (k <? 8 * p + s + w) then Z.testbit tag (k - (8 * p + s)) else membit mem k.
Proof.
  intros Hm Hp Hn Hs Hw Hsw. destruct (load_spec n mem p Hm Hp Hn) as (L & HL & Hr & Hb). exists L. split; [done|]. split; [done|].
  intros nv Hnv. destruct (store_spec n mem p nv Hm Hp Hn) as (mem' & Hst & Hok & Hlen & Hbits). exists mem'. split_and!; try done.
  intros k Hk. rewrite Hbits by done. destruct (Z.leb_spec (8 * p) k) as [H1|H1]; simpl.
  - destruct (Z.ltb_spec k (8 * (p + Z.of_nat n))) as [H2|H2].
    + rewrite Hnv by lia. replace (s <=? k - 8 * p) with (8 * p + s <=? k) by (apply eq_true_iff_eq; rewrite !Z.leb_le; lia).
      replace (k - 8 * p <? s + w) with (k <? 8 * p + s + w) by (apply eq_true_iff_eq; rewrite !Z.ltb_lt; lia).
      destruct (_ && _); [f_equal; lia|]. rewrite Hb by lia. f_equal. lia.
    + rewrite (proj2 (Z.ltb_ge k _)) by lia. by rewrite andb_false_r.
  - rewrite (proj2 (Z.leb_gt _ k)) by lia. done.
Qed.

(** The masks of the half-byte widths. *)
Lemma replaces_low (n : nat) (m : Z) w v tag : 0 < w -> m = 2 ^ w * Z.ones (8 * Z.of_nat n - w) -> 0 <= tag < 2 ^ w -> w <= 8 * Z.of_nat n ->
  replaces n 0 w v tag (Z.lor (Z.land v m) tag).
Proof.
  intros Hw -> Ht Hn b Hb. rewrite Z.lor_spec, Z.land_spec. replace (2 ^ w * Z.ones _) with (0 + 2 ^ w * Z.ones (8 * Z.of_nat n - w)) by lia.
  rewrite testbit_split by lia. rewrite (proj2 (Z.leb_le 0 b)), Z.add_0_l by lia. simpl. destruct (Z.ltb_spec b w) as [H|H].
  - rewrite Z.bits_0, andb_false_r, Z.sub_0_r. done.
  - rewrite Z.ones_spec_low by lia. rewrite (testbit_high tag w) by lia. by rewrite andb_true_r, orb_false_r.
Qed.

Lemma replaces_high (n : nat) s w v tag : 0 <= s -> 0 < w -> 0 <= tag < 2 ^ w -> s + w = 8 * Z.of_nat n ->
  replaces n s w v tag (Z.lor (Z.land v (Z.ones s)) (Z.shiftl tag s)).
Proof.
  intros Hs Hw Ht Hn b Hb. rewrite Z.lor_spec, Z.land_spec, Z.shiftl_spec by lia. destruct (Z.leb_spec s b) as [H|H]; simpl.
  - rewrite Z.ones_spec_high by lia. rewrite (proj2 (Z.ltb_lt b _)) by lia. by rewrite andb_false_r.
  - rewrite Z.ones_spec_low by lia. rewrite (Z.testbit_neg_r tag) by lia. by rewrite andb_true_r, orb_false_r.
Qed.

Lemma replaces_all (n : nat) w v tag : w = 8 * Z.of_nat n -> replaces n 0 w v tag tag.
Proof. intros -> b Hb. by rewrite (proj2 (Z.leb_le 0 b)), (proj2 (Z.ltb_lt b _)), Z.sub_0_r by lia. Qed.

Lemma odd_slot j : 0 <= j < 4 -> (Z.land j 1 =? 0) = ((4 * j) mod 8 =? 0) /\ ((4 * j) mod 8 = 0 \/ (4 * j) mod 8 = 4).
Proof. intros Hj. assert (j = 0 \/ j = 1 \/ j = 2 \/ j = 3) as [->|[->|[->| ->]]] by lia; auto. Qed.
Lemma odd_slot12 j : 0 <= j < 4 -> (12 * j) mod 8 = (4 * j) mod 8.
Proof. slot_cases. Qed.
Lemma pair_slot j : 0 <= j < 4 -> 2 * j = 16 * j / 8.
Proof. slot_cases. Qed.

Lemma WriteTag_bits t i j tag : tags_ok t -> 0 <= i < num_buckets_ t -> 0 <= j < 4 -> 0 <= tag < 2 ^ bits_per_tag_ t ->
  exists mem', WriteTag t i j tag = Some (t <| bits_data_ := mem' |>) /\ bytes_ok mem' /\ length mem' = length (bits_data_ t) /\
    forall k, 0 <= k -> membit mem' k =
      if (base t i j <=? k) && (k <? base t i j + bits_per_tag_ t) then Z.testbit tag (k - base t i j) else membit (bits_data_ t) k.
Proof.
  intros Ht Hi Hj Htag. destruct (slot_unit t i j Ht Hi Hj) as (H1 & H2 & H3 & H4 & H5 & H6).
  destruct (write_bits _ _ _ _ _ tag (tk_data _ Ht) H1 H2 H3 (proj1 H4) H5) as (L & HL & HLr & Hst). rewrite H6 in Hst.
  assert (Hmask : u32 (Z.land tag (tag_mask (bits_per_tag_ t))) = tag).
  { destruct Ht as [Hw _ _ _ _]. destruct Hw as [E|[E|[E|[E|E]]]]; rewrite E in *;
      match goal with |- context [tag_mask ?w] => change (tag_mask w) with (Z.ones w) end;
      rewrite Z.land_ones, Z.mod_small by lia; apply wrap_small; lia. }
  unfold WriteTag. rewrite (bucket_eq t i Hi), (tk_mask _ Ht), Hmask. cbn [mbind option_bind].
  destruct (odd_slot j Hj) as [Hodd Hcase].
  assert (Hgoal : forall nv, replaces (unit_bytes (bits_per_tag_ t)) ((bits_per_tag_ t * j) mod 8) (bits_per_tag_ t) L tag nv ->
     exists mem', (mem ← store (unit_bytes (bits_per_tag_ t)) (bits_data_ t) (kBytesPerBucket_ t * i + bits_per_tag_ t * j / 8) nv;
                   Some (t <| bits_data_ := mem |>)) = Some (t <| bits_data_ := mem' |>) /\ bytes_ok mem' /\
       length mem' = length (bits_data_ t) /\
       forall k, 0 <= k -> membit mem' k =
         if (base t i j <=? k) && (k <? base t i j + bits_per_tag_ t) then Z.testbit tag (k - base t i j) else membit (bits_data_ t) k).
  { intros nv Hnv. destruct (Hst nv Hnv) as (mem' & -> & ?). exists mem'. done. }
  destruct Ht as [Hw _ _ _ _]. clear H1 H2 H3 H5 H6 Hst Hmask HLr. destruct Hw as [E|[E|[E|[E|E]]]]; rewrite E in *; cbn [Z.eqb Pos.eqb].
  - rewrite half_slot by done. change (unit_bytes 4) with 1%nat in *. rewrite HL. cbn [mbind option_bind]. rewrite Hodd.
    destruct Hcase as [Hc|Hc]; rewrite Hc in *; cbn [Z.eqb]; apply Hgoal; [by apply replaces_low|by apply replaces_high].
  - replace (kBytesPerBucket_ t * i + j) with (kBytesPerBucket_ t * i + 8 * j / 8) by (by rewrite <- byte_slot). apply Hgoal. rewrite aligned_shift by done. by apply replaces_all.
  - rewrite three_halves_slot by done. change (unit_bytes 12) with 2%nat in *. rewrite HL. cbn [mbind option_bind]. rewrite Hodd.
    rewrite (odd_slot12 j Hj) in Hgoal. destruct Hcase as [Hc|Hc]; rewrite Hc in *; cbn [Z.eqb]; apply Hgoal; [by apply replaces_low|by apply replaces_high].
  - rewrite pair_slot by done. apply Hgoal. rewrite aligned_shift by done. by apply replaces_all.
  - rewrite (long_slot j) by done. apply Hgoal. rewrite aligned_shift by done. by apply replaces_all.
Qed.

(** Writing a slot changes that slot only. *)
Lemma WriteTag_spec t i j tag : tags_ok t -> 0 <= i < num_buckets_ t -> 0 <= j < 4 -> 0 <= tag < 2 ^ bits_per_tag_ t ->
  exists t', WriteTag t i j tag = Some t' /\ tags_ok t' /\ bits_per_tag_ t' = bits_per_tag_ t /\ num_buckets_ t' = num_buckets_ t /\
    forall i' j', 0 <= i' < num_buckets_ t -> 0 <= j' < 4 ->
      ReadTag t' i' j' = if decide (i' = i /\ j' = j) then Some tag else ReadTag t i' j'.
Proof.
  intros Ht Hi Hj Htag. destruct (WriteTag_bits t i j tag Ht Hi Hj Htag) as (mem' & Hw & Hok & Hlen & Hbits).
  assert (Ht' : tags_ok (t <| bits_data_ := mem' |>)) by (destruct Ht as [Ha Hb Hc Hd He]; split; simpl; [done|done|done|congruence|done]).
  eexists. split; [done|]. split; [done|]. split; [done|]. split; [done|]. intros i' j' Hi' Hj'.
  destruct (ReadTag_spec _ i' j' Ht' Hi' Hj') as (v' & Hv' & Hr' & Hb'). rewrite Hv'. change (base _ i' j') with (base t i' j') in Hb'. simpl in *.
  destruct (slot_unit t i j Ht Hi Hj) as (_ & _ & _ & Hwr & _).
  assert (Hext : forall v, 0 <= v < 2 ^ bits_per_tag_ t ->
            (forall b, 0 <= b < bits_per_tag_ t -> Z.testbit v' b = Z.testbit v b) -> v' = v).
  { intros v Hv Heq. apply bits_ext. intros b Hb. destruct (Z.lt_ge_cases b (bits_per_tag_ t)); [by apply Heq|].
    by rewrite !(testbit_high _ (bits_per_tag_ t)) by lia. }
  assert (Hbase : 0 <= base t i j /\ 0 <= base t i' j') by (unfold base; split; apply Z.mul_nonneg_nonneg; lia).
  case_decide as Hd.
  - destruct Hd as [-> ->]. f_equal. apply Hext; [done|]. intros b Hb. rewrite Hb', Hbits by lia.
    rewrite (proj2 (Z.leb_le _ _)), (proj2 (Z.ltb_lt _ _)) by lia. simpl. f_equal. lia.
  - destruct (ReadTag_spec t i' j' Ht Hi' Hj') as (v & Hv & Hr & Hb). rewrite Hv. f_equal. apply Hext; [done|].
    intros b Hbw. rewrite Hb', Hbits, Hb by lia. destruct (Z.leb_spec (base t i j) (base t i' j' + b)) as [L1|L1]; simpl; [|done].
    rewrite (proj2 (Z.ltb_ge _ _)); [done|]. unfold base in *.
    assert (4 * i + j <> 4 * i' + j') by lia. assert (4 * i + j < 4 * i' + j' \/ 4 * i' + j' < 4 * i + j) as [Hlt|Hlt] by lia; nia.
Qed.

(** ** Finding a tag *)

Definition has_tag (t : SingleTable) (i tag : Z) : bool := existsb (fun j => bool_decide (ReadTag t i j = Some tag)) slots.

Lemma in_slots j : In j slots <-> 0 <= j < 4.
Proof.
  unfold slots. simpl. split; [intros [<-|[<-|[<-|[<-|[]]]]]; lia|]. intros. assert (j = 0 \/ j = 1 \/ j = 2 \/ j = 3) as [->|[->|[->| ->]]] by lia; auto.
Qed.

Lemma has_tag_spec t i tag : has_tag t i tag = true <-> exists j, 0 <= j < 4 /\ ReadTag t i j = Some tag.
Proof.
  unfold has_tag. rewrite existsb_exists. split.
  - intros (j & Hj%in_slots & Hr%bool_decide_eq_true). eauto.
  - intros (j & Hj & Hr). exists j. rewrite in_slots, bool_decide_eq_true. done.
Qed.

Lemma find_loop_spec t i tag js : tags_ok t -> 0 <= i < num_buckets_ t -> (forall j, In j js -> 0 <= j < 4) ->
  find_loop t i tag js = Some (existsb (fun j => bool_decide (ReadTag t i j = Some tag)) js).
Proof.
  intros Ht Hi. induction js as [|j js IH]; intros Hjs; simpl; [done|].
  destruct (ReadTag_spec t i j Ht Hi) as (v & -> & _); [apply Hjs; by left|]. simpl. destruct (Z.eqb_spec v tag) as [->|Hne].
  - by rewrite bool_decide_eq_true_2.
  - rewrite bool_decide_eq_false_2 by congruence. simpl. apply IH. intros k Hk. apply Hjs. by right.
Qed.

Lemma find_both_loop_spec t i1 i2 tag js : tags_ok t -> 0 <= i1 < num_buckets_ t -> 0 <= i2 < num_buckets_ t ->
  (forall j, In j js -> 0 <= j < 4) ->
  find_both_loop t i1 i2 tag js = Some (existsb (fun j => bool_decide (ReadTag t i1 j = Some tag)) js ||
                                        existsb (fun j => bool_decide (ReadTag t i2 j = Some tag)) js).
Proof.
  intros Ht Hi1 Hi2. induction js as [|j js IH]; intros Hjs; simpl; [done|].
  destruct (ReadTag_spec t i1 j Ht Hi1) as (v1 & -> & _); [apply Hjs; by left|].
  destruct (ReadTag_spec t i2 j Ht Hi2) as (v2 & -> & _); [apply Hjs; by left|]. simpl. rewrite IH by (intros k Hk; apply Hjs; by right).
  destruct (Z.eqb_spec v1 tag) as [->|H1]; [by rewrite bool_decide_eq_true_2|]. rewrite (bool_decide_eq_false_2 (Some v1 = _)) by congruence. simpl.
  destruct (Z.eqb_spec v2 tag) as [->|H2]; [by rewrite bool_decide_eq_true_2, orb_true_r|].
  by rewrite (bool_decide_eq_false_2 (Some v2 = _)) by congruence.
Qed.

(** How far behind the table the eight bytes loaded from its last bucket reach. *)
Definition overread (bits_per_tag : Z) : Z := Z.max 0 (8 - bytes_per_bucket bits_per_tag).

Section Find.
  Variable after : list Z.
  Context (Hafter : bytes_ok after).

(** The lanes of the word loaded from a bucket are its tags; what follows the
    array is not among them. *)
Lemma load_bucket_spec t i : overread (bits_per_tag_ t) <= Z.of_nat (length after) -> tags_ok t -> 0 <= i < num_buckets_ t ->
  exists v, load_bucket after t i = Some v /\
    (bits_per_tag_ t <= 16 -> forall j, (j < 4)%nat -> ReadTag t i (Z.of_nat j) = Some (lane (bits_per_tag_ t) v j)).
Proof.
  intros Hlen Ht Hi. unfold load_bucket. rewrite (bucket_eq t i Hi). cbn [mbind option_bind]. pose proof Ht as [Hw Hb _ Hl Hd].
  assert (Hkb : kBytesPerBucket_ t * 8 = 4 * bits_per_tag_ t) by (rewrite Hb; destruct Hw as [->|[->|[->|[->| ->]]]]; done).
  assert (Hin : kBytesPerBucket_ t * i + kBytesPerBucket_ t <= Z.of_nat (length (bits_data_ t))) by (rewrite Hl; nia).
  assert (Hw0 : 0 < bits_per_tag_ t) by (destruct Hw as [->|[->|[->|[->| ->]]]]; lia).
  destruct (load_spec 8 (bits_data_ t ++ after) (kBytesPerBucket_ t * i)) as (v & Hv & _ & Hbits).
  - by apply Forall_app.
  - apply Z.mul_nonneg_nonneg; lia.
  - rewrite length_app. unfold overread in Hlen. rewrite <- Hb in Hlen. lia.
  - exists v. split; [done|]. intros Hw16 j Hj. destruct (ReadTag_spec t i (Z.of_nat j) Ht Hi) as (r & Hr & Hrange & Hrb); [lia|].
    rewrite Hr. f_equal.
    apply bits_ext. intros b Hb0. unfold lane. destruct (Z.lt_ge_cases b (bits_per_tag_ t)) as [Hlt|Hge].
    + assert (Hbase : 8 * (kBytesPerBucket_ t * i) = bits_per_tag_ t * (4 * i)) by (rewrite Z.mul_assoc, (Z.mul_comm 8), Hkb; ring).
      assert (Hpos : 0 <= bits_per_tag_ t * (4 * i)) by (apply Z.mul_nonneg_nonneg; lia).
      assert (Hj4 : 0 <= bits_per_tag_ t * Z.of_nat j <= bits_per_tag_ t * 3) by (split; [apply Z.mul_nonneg_nonneg|apply Z.mul_le_mono_nonneg_l]; lia).
      rewrite Hrb, Z.mod_pow2_bits_low, Z.shiftr_spec by lia. rewrite Hbits by lia. rewrite membit_app by lia.
      rewrite (proj2 (Z.ltb_lt _ _)) by lia. f_equal. unfold base. lia.
    + rewrite (testbit_high r (bits_per_tag_ t)), Z.mod_pow2_bits_high by lia. done.
Qed.

Lemma has_lane_tag t i tag v : bits_per_tag_ t <= 16 ->
  (bits_per_tag_ t <= 16 -> forall j, (j < 4)%nat -> ReadTag t i (Z.of_nat j) = Some (lane (bits_per_tag_ t) v j)) ->
  has_lane (bits_per_tag_ t) v tag = has_tag t i tag.
Proof.
  intros Hw Hl. specialize (Hl Hw). apply eq_true_iff_eq. rewrite has_lane_spec, has_tag_spec. unfold kTagsPerBucket. split.
  - intros (j & Hj & <-). exists (Z.of_nat j). split; [lia|]. by apply Hl.
  - intros (j & Hj & Hr). exists (Z.to_nat j). split; [lia|]. specialize (Hl (Z.to_nat j) ltac:(lia)). rewrite Z2Nat.id in Hl by lia. congruence.
Qed.

Lemma FindTagInBucket_spec t i tag : overread (bits_per_tag_ t) <= Z.of_nat (length after) -> tags_ok t -> 0 <= i < num_buckets_ t -> 0 <= tag < 2 ^ bits_per_tag_ t ->
  FindTagInBucket after t i tag = Some (has_tag t i tag).
Proof.
  intros Hlen Ht Hi Htag. unfold FindTagInBucket. destruct (load_bucket_spec t i Hlen Ht Hi) as (v & -> & Hl). cbn [mbind option_bind].
  pose proof (has_lane_tag t i tag v) as Hh.
  destruct (tk_width _ Ht) as [E|[E|[E|[E|E]]]]; rewrite E in *; cbn [Z.eqb Pos.eqb].
  - rewrite nonzero4 by done. f_equal. apply Hh; [lia|done].
  - rewrite nonzero8 by done. f_equal. apply Hh; [lia|done].
  - rewrite nonzero12 by done. f_equal. apply Hh; [lia|done].
  - rewrite nonzero16 by done. f_equal. apply Hh; [lia|done].
  - apply find_loop_spec; [done|done|]. intros j. by rewrite in_slots.
Qed.

Lemma FindTagInBuckets_spec t i1 i2 tag : overread (bits_per_tag_ t) <= Z.of_nat (length after) -> tags_ok t -> 0 <= i1 < num_buckets_ t -> 0 <= i2 < num_buckets_ t ->
  0 <= tag < 2 ^ bits_per_tag_ t -> FindTagInBuckets after t i1 i2 tag = Some (has_tag t i1 tag || has_tag t i2 tag).
Proof.
  intros Hlen Ht Hi1 Hi2 Htag. unfold FindTagInBuckets. destruct (load_bucket_spec t i1 Hlen Ht Hi1) as (v1 & -> & Hl1).
  destruct (load_bucket_spec t i2 Hlen Ht Hi2) as (v2 & -> & Hl2). cbn [mbind option_bind].
  pose proof (has_lane_tag t i1 tag v1) as Hh1. pose proof (has_lane_tag t i2 tag v2) as Hh2.
  destruct (tk_width _ Ht) as [E|[E|[E|[E|E]]]]; rewrite E in *; cbn [Z.eqb Pos.eqb].
  - rewrite !nonzero4, Hh1, Hh2 by (done || lia). done.
  - rewrite !nonzero8, Hh1, Hh2 by (done || lia). done.
  - rewrite !nonzero12, Hh1, Hh2 by (done || lia). done.
  - rewrite !nonzero16, Hh1, Hh2 by (done || lia). done.
  - apply find_both_loop_spec; [done|done|done|]. intros j. by rewrite in_slots.
Qed.

(** The load from the last bucket does reach that far: with fewer bytes behind
    the table it leaves the memory there is. *)
Lemma load_bucket_overreads t : tags_ok t -> 0 < num_buckets_ t -> Z.of_nat (length after) < overread (bits_per_tag_ t) ->
  load_bucket after t (num_buckets_ t - 1) = None.
Proof.
  intros Ht Hn Hlen. unfold load_bucket. rewrite bucket_eq by lia. cbn [mbind option_bind]. unfold load. rewrite length_app.
  pose proof Ht as [_ Hb _ Hl _]. unfold overread in Hlen. rewrite <- Hb in Hlen.
  destruct (Z.leb_spec (kBytesPerBucket_ t * (num_buckets_ t - 1) + Z.of_nat 8) (Z.of_nat (length (bits_data_ t) + length after))); [nia|].
  by rewrite andb_false_r.
Qed.
End Find.

(** ** Powers of two *)

(** Bit [i] of [z] says whether [y] has one of the bits [i] to [i + n - 1]. *)
Definition smeared (n y z : Z) : Prop := forall i, 0 <= i -> Z.testbit z i = true <-> exists d, 0 <= d < n /\ Z.testbit y (i + d) = true.

Lemma smear_step n y z : 0 < n -> smeared n y z -> smeared (2 * n) y (Z.lor z (Z.shiftr z n)).
Proof.
  intros Hn Hz i Hi. rewrite Z.lor_spec, Z.shiftr_spec, orb_true_iff, (Hz i), (Hz (i + n)) by lia. split.
  - intros [(d & Hd & Hb)|(d & Hd & Hb)]; [exists d|exists (d + n)]; (split; [lia|]); [done|]. by replace (i + (d + n)) with (i + n + d) by lia.
  - intros (d & Hd & Hb). destruct (Z.lt_ge_cases d n); [left; exists d; split; [lia|done]|right; exists (d - n)].
    split; [lia|]. by replace (i + n + (d - n)) with (i + d) by lia.
Qed.

Lemma smeared_ones y z : 0 < y < 2 ^ 64 -> 0 <= z -> smeared 64 y z -> z = Z.ones (Z.log2 y + 1).
Proof.
  intros Hy Hz Hs. pose proof (Z.log2_nonneg y). assert (Hl : Z.log2 y < 64) by (apply Z.log2_lt_pow2; lia).
  apply bits_ext. intros i Hi. destruct (Z.lt_ge_cases i (Z.log2 y + 1)) as [Hlt|Hge].
  - rewrite Z.ones_spec_low by lia. apply Hs; [done|]. exists (Z.log2 y - i). split; [lia|].
    replace (i + (Z.log2 y - i)) with (Z.log2 y) by lia. apply Z.bit_log2. lia.
  - rewrite Z.ones_spec_high by lia. destruct (Z.testbit z i) eqn:E; [|done]. apply Hs in E as (d & Hd & Hb); [|done].
    rewrite Z.bits_above_log2 in Hb by lia. done.
Qed.

(** [upperpower2] is the least power of two not below its argument, and 0 for 0. *)
Lemma upperpower2_spec x : 1 <= x <= 2 ^ 63 -> exists k, 0 <= k <= 63 /\ upperpower2 x = 2 ^ k /\ x <= 2 ^ k < 2 * x.
Proof.
  intros Hx. unfold upperpower2. replace (u64 (x - 1)) with (x - 1) by (symmetry; apply wrap_small; lia). set (y := x - 1).
  destruct (decide (y = 0)) as [E|E].
  { rewrite E. exists 0. split; [lia|]. split; [done|]. unfold y in E. change (2 ^ 0) with 1. lia. }
  assert (Hy : 0 < y < 2 ^ 63) by (unfold y in *; lia).
  assert (H1 : smeared 1 y y).
  { intros i Hi. split; [intros; exists 0; rewrite Z.add_0_r; split; [lia|done]|]. intros (d & Hd & Hb). replace (i + d) with i in Hb by lia. done. }
  pose proof (smear_step 1 y _ ltac:(lia) H1) as H2. pose proof (smear_step 2 y _ ltac:(lia) H2) as H4.
  pose proof (smear_step 4 y _ ltac:(lia) H4) as H8. pose proof (smear_step 8 y _ ltac:(lia) H8) as H16.
  pose proof (smear_step 16 y _ ltac:(lia) H16) as H32. pose proof (smear_step 32 y _ ltac:(lia) H32) as H64. cbv zeta.
  match type of H64 with smeared _ _ ?z => assert (Hz : 0 <= z) end.
  { repeat (apply Z.lor_nonneg; split); repeat (apply Z.shiftr_nonneg || (apply Z.lor_nonneg; split)); lia. }
  rewrite (smeared_ones y _ ltac:(lia) Hz H64). pose proof (Z.log2_spec y ltac:(lia)) as [L1 L2].
  assert (Hl : Z.log2 y < 63) by (apply Z.log2_lt_pow2; lia). pose proof (Z.log2_nonneg y) as Hl0.
  rewrite <- Z.add_1_r in L2. rewrite Z.ones_equiv. exists (Z.log2 y + 1). split; [lia|].
  assert (2 ^ (Z.log2 y + 1) = 2 * 2 ^ Z.log2 y) by (rewrite Z.pow_add_r by lia; lia).
  assert (2 ^ (Z.log2 y + 1) <= 2 ^ 63) by (apply Z.pow_le_mono_r; lia).
  split; [|unfold y in *; lia]. replace (Z.pred (2 ^ (Z.log2 y + 1)) + 1) with (2 ^ (Z.log2 y + 1)) by lia. apply wrap_small. lia.
Qed.

Lemma upperpower2_0 : upperpower2 0 = 0.
Proof. reflexivity. Qed.

(** ** Inserting and deleting *)

(** [t'] is [t] with one slot replaced. *)
Definition wrote (t t' : SingleTable) (i j tag : Z) : Prop :=
  tags_ok t' /\ bits_per_tag_ t' = bits_per_tag_ t /\ num_buckets_ t' = num_buckets_ t /\
  forall i' j', 0 <= i' < num_buckets_ t -> 0 <= j' < 4 ->
    ReadTag t' i' j' = if decide (i' = i /\ j' = j) then Some tag else ReadTag t i' j'.

Lemma wrote_here t t' i j tag : wrote t t' i j tag -> 0 <= i < num_buckets_ t -> 0 <= j < 4 -> has_tag t' i tag = true.
Proof. intros (_ & _ & _ & Hr) Hi Hj. apply has_tag_spec. exists j. split; [done|]. by rewrite Hr, decide_True. Qed.

(** A tag is still there, unless it was the one that was overwritten. *)
Lemma wrote_other t t' i j tag old i' tag' : wrote t t' i j tag -> ReadTag t i j = Some old -> 0 <= i' < num_buckets_ t ->
  has_tag t i' tag' = true -> has_tag t' i' tag' = true \/ (i' = i /\ tag' = old).
Proof.
  intros (_ & _ & _ & Hr) Hold Hi' (j' & Hj' & Ht)%has_tag_spec. destruct (decide (i' = i /\ j' = j)) as [[-> ->]|Hne].
  - right. split; [done|congruence].
  - left. apply has_tag_spec. exists j'. split; [done|]. by rewrite Hr, decide_False.
Qed.

Lemma insert_loop_spec t i tag js : tags_ok t -> 0 <= i < num_buckets_ t -> 0 <= tag < 2 ^ bits_per_tag_ t ->
  (forall j, In j js -> 0 <= j < 4) ->
  exists t' b, insert_loop t i tag js = Some (t', b) /\
    if b : bool then exists j, 0 <= j < 4 /\ ReadTag t i j = Some 0 /\ wrote t t' i j tag
    else t' = t /\ forall j, In j js -> ReadTag t i j <> Some 0.
Proof.
  intros Ht Hi Htag. induction js as [|j js IH]; intros Hjs; simpl.
  - exists t, false. split; [done|]. split; [done|]. by intros j [].
  - assert (Hj : 0 <= j < 4) by (apply Hjs; by left). destruct (ReadTag_spec t i j Ht Hi Hj) as (v & Hv & _). rewrite Hv. simpl.
    destruct (Z.eqb_spec v 0) as [->|Hne].
    + destruct (WriteTag_spec t i j tag Ht Hi Hj Htag) as (t' & Hw & ?). rewrite Hw. simpl. exists t', true. split; [done|]. exists j. done.
    + destruct IH as (t' & b & Hl & Hb); [intros k Hk; apply Hjs; by right|]. exists t', b. split; [done|]. destruct b; [done|].
      destruct Hb as [-> Hb]. split; [done|]. intros k [<-|Hk]; [congruence|by apply Hb].
Qed.

(** The three ways [InsertTagToBucket] ends. *)
Lemma InsertTag_spec r t i tag kickout oldtag : tags_ok t -> 0 <= i < num_buckets_ t -> 0 <= tag < 2 ^ bits_per_tag_ t ->
  exists t' b old, InsertTagToBucket r t i tag kickout oldtag = Some (t', b, old) /\
    if b : bool then exists j, 0 <= j < 4 /\ ReadTag t i j = Some 0 /\ wrote t t' i j tag
    else if kickout then exists j, 0 <= j < 4 /\ ReadTag t i j = Some old /\ old <> 0 /\ wrote t t' i j tag
    else t' = t /\ old = oldtag.
Proof.
  intros Ht Hi Htag. unfold InsertTagToBucket.
  destruct (insert_loop_spec t i tag slots Ht Hi Htag) as (t' & b & -> & Hb); [intros j; by rewrite in_slots|]. cbn [mbind option_bind].
  destruct b; [by exists t', true, oldtag|]. destruct Hb as [-> Hfull]. destruct kickout; [|by exists t, false, oldtag].
  assert (Hj : 0 <= r mod Z.of_nat kTagsPerBucket < 4) by (apply Z.mod_pos_bound; done).
  destruct (ReadTag_spec t i _ Ht Hi Hj) as (old & Hold & _). rewrite Hold. cbn [mbind option_bind].
  destruct (WriteTag_spec t i _ tag Ht Hi Hj Htag) as (t' & Hw & ?). rewrite Hw. cbn [mbind option_bind]. exists t', false, old. split; [done|].
  eexists. split; [exact Hj|]. split; [done|]. split; [|done]. intros ->. by apply (Hfull _ (proj2 (in_slots _) Hj)).
Qed.

Lemma delete_loop_spec after t i tag js : bytes_ok after -> overread (bits_per_tag_ t) <= Z.of_nat (length after) -> tags_ok t -> 0 <= i < num_buckets_ t ->
  0 <= tag < 2 ^ bits_per_tag_ t -> (forall j, In j js -> 0 <= j < 4) ->
  exists t' b, delete_loop after t i tag js = Some (t', b) /\
    if b : bool then exists j, 0 <= j < 4 /\ ReadTag t i j = Some tag /\ wrote t t' i j 0
    else t' = t /\ forall j, In j js -> ReadTag t i j <> Some tag.
Proof.
  intros Ha1 Ha2 Ht Hi Htag. induction js as [|j js IH]; intros Hjs; simpl.
  - exists t, false. split; [done|]. split; [done|]. by intros j [].
  - assert (Hj : 0 <= j < 4) by (apply Hjs; by left). destruct (ReadTag_spec t i j Ht Hi Hj) as (v & Hv & _). rewrite Hv. cbn [mbind option_bind].
    destruct (Z.eqb_spec v tag) as [->|Hne].
    + rewrite (FindTagInBucket_spec after Ha1 t i tag Ha2 Ht Hi Htag). cbn [mbind option_bind].
      assert (has_tag t i tag = true) as -> by (apply has_tag_spec; eauto). cbn [negb].
      assert (0 < 2 ^ bits_per_tag_ t) by lia. destruct (WriteTag_spec t i j 0 Ht Hi Hj ltac:(lia)) as (t' & Hw & ?). rewrite Hw. cbn [mbind option_bind].
      exists t', true. split; [done|]. exists j. done.
    + destruct IH as (t' & b & Hl & Hb); [intros k Hk; apply Hjs; by right|]. exists t', b. split; [done|]. destruct b; [done|].
      destruct Hb as [-> Hb]. split; [done|]. intros k [<-|Hk]; [congruence|by apply Hb].
Qed.

Lemma NewSingleTable_ok w num : width_ok w -> 0 <= num -> tags_ok (NewSingleTable w num).
Proof.
  intros Hw Hn. split; simpl; try done.
  - rewrite length_replicate. assert (0 <= bytes_per_bucket w) by (destruct Hw as [->|[->|[->|[->| ->]]]]; done).
    rewrite Z2Nat.id; [done|]. by apply Z.mul_nonneg_nonneg.
  - apply Forall_replicate. unfold byte_ok. lia.
Qed.

(** Searching two buckets with one 64-bit load each and the zero-in-word trick
    gives what the loop over their slots gives, for every width and whatever the
    loads read in the [overread] bytes behind the array; and writing a slot changes what is read from
    that slot, and nothing else. *)
Theorem packed_tags_correct (after : list Z) (t : SingleTable) (i1 i2 tag : Z) :
  bytes_ok after -> overread (bits_per_tag_ t) <= Z.of_nat (length after) -> tags_ok t ->
  0 <= i1 < num_buckets_ t -> 0 <= i2 < num_buckets_ t -> 0 <= tag < 2 ^ bits_per_tag_ t ->
  FindTagInBuckets after t i1 i2 tag = find_both_loop t i1 i2 tag slots /\
  FindTagInBucket after t i1 tag = find_loop t i1 tag slots /\
  forall j, 0 <= j < 4 -> exists t', WriteTag t i1 j tag = Some t' /\ tags_ok t' /\
    forall i' j', 0 <= i' < num_buckets_ t -> 0 <= j' < 4 ->
      ReadTag t' i' j' = if decide (i' = i1 /\ j' = j) then Some tag else ReadTag t i' j'.
Proof.
  intros Ha Hl Ht H1 H2 Htag. assert (Hs : forall j, In j slots -> 0 <= j < 4) by (intros j; by rewrite in_slots). split; [|split].
  - by rewrite FindTagInBuckets_spec, find_both_loop_spec.
  - by rewrite FindTagInBucket_spec, find_loop_spec.
  - intros j Hj. destruct (WriteTag_spec t i1 j tag Ht H1 Hj Htag) as (t' & ? & ? & _ & _ & ?). exists t'. done.
Qed.

