(* ===== verification/Cuckoo.v ===== *)
(** * The cuckoo filter

    Models [CuckooFilter] of src/insdb/util/cuckoo.cc, its hash function and its
    stored form.  A key has a tag and two buckets; it is in the filter when one of
    the buckets holds the tag.  A full bucket makes room by moving one of its tags
    to the other bucket of that tag, up to [kMaxCuckooCount] times.

    The table is that of TagTable.v.  [rand] is an argument, the successive values
    of the C function; [after] is the memory behind the table.  [None] is a failed
    [assert] or an access outside of the table. *)

From Stdlib Require Import ZArith Lia Bool.
From stdpp Require Import base list.
From S2P Require Import Prelude Coding Bloom TagTable.

(** ** [CukooHash] *)

Section Hash.
  (** [port::kLittleEndian]. *)
  Variable little : bool.
  Local Open Scope cword_scope.

Definition cuckoo_seed : Z := 0x25f992d38a208b61.
Definition cuckoo_m : Z := 0xc6a4a7935bd1e995.
Definition cuckoo_r : Z := 47.

Definition hash_word (h k : Z) : Z :=
  let k := u64 (k * cuckoo_m) in
  let k := Z.lxor k (k >> cuckoo_r) in
  let k := u64 (k * cuckoo_m) in
  u64 (Z.lxor h k * cuckoo_m).

(** The [switch] falls through to the first byte. *)
Fixpoint hash_rest (h shift : Z) (data2 : list Z) : Z :=
  match data2 with
  | [] => h
  | b :: data2' => Z.lxor (hash_rest h (shift + 8) data2') (b << shift)
  end.

Fixpoint hash_words (fuel : nat) (h : Z) (data : list Z) : Z :=
  match fuel with
  | O => match data with [] => h | _ => u64 (hash_rest h 0 data * cuckoo_m) end
  | S fuel' => hash_words fuel' (hash_word h (default 0 (DecodeFixed64 little data))) (drop 8 data)
  end.

Definition CukooHash (key : list Z) : Z :=
  let len := Z.of_nat (length key) in
  let h := Z.lxor cuckoo_seed (u64 (len * cuckoo_m)) in
  let h := hash_words (Z.to_nat (len / 8)) h key in
  let h := Z.lxor h (h >> cuckoo_r) in
  let h := u64 (h * cuckoo_m) in
  Z.lxor h (h >> cuckoo_r).
End Hash.

(** ** [CuckooFilter] *)

Definition kMaxCuckooCount : nat := 500.

(** [cf_rand] counts the calls of [rand]. *)
Record CuckooFilter : Type := {
  table_ : SingleTable;
  num_items_ : Z;
  bits_per_item_ : Z;
  max_num_keys_ : Z;
  hasCollision_ : bool;
  cf_rand : nat;
}.
#[export] Instance eta_CuckooFilter : Eta CuckooFilter := fun r =>
  {| table_ := table_ r; num_items_ := num_items_ r; bits_per_item_ := bits_per_item_ r; max_num_keys_ := max_num_keys_ r;
     hasCollision_ := hasCollision_ r; cf_rand := cf_rand r |}.

(** [(double)max_num_keys / num_buckets / assoc > 0.96], for [num_buckets] a power
    of two or 0: the divisions are exact, the [double] 0.96 is
    [0x1eb851eb851eb8 * 2^-53], and 0 / 0 is not greater. *)
Definition frac_over (max_num_keys num_buckets : Z) : bool := 0x1eb851eb851eb8 * (num_buckets * 4) <? round53 max_num_keys * 2 ^ 53.

Definition buckets_for (max_num_keys : Z) : Z :=
  let num_buckets := upperpower2 (max_num_keys / 4) in
  if frac_over max_num_keys num_buckets then u64 (Z.shiftl num_buckets 1) else num_buckets.

Definition NewCuckooFilterPolicy (bits_per_key max_num_keys : Z) : CuckooFilter :=
  {| table_ := NewSingleTable bits_per_key (buckets_for max_num_keys); num_items_ := 0; bits_per_item_ := bits_per_key;
     max_num_keys_ := max_num_keys; hasCollision_ := false; cf_rand := 0 |}.

Definition BuildCuckooFilterPolicy (num_items bits_per_key max_num_keys : Z) (bitmap : list Z) : option CuckooFilter :=
  t ← LoadSingleTable bits_per_key (buckets_for max_num_keys) bitmap;
  Some {| table_ := t; num_items_ := num_items; bits_per_item_ := bits_per_key; max_num_keys_ := max_num_keys;
          hasCollision_ := false; cf_rand := 0 |}.

Section Filter.
  Variable little : bool.
  Variable rand : nat -> Z.
  Variable after : list Z.
  Local Open Scope cword_scope.

Definition IndexHash (f : CuckooFilter) (hv : Z) : Z := hv & u64 (NumBuckets (table_ f) - 1).

Definition TagHash (f : CuckooFilter) (hv : Z) : Z :=
  let tag := u32 (hv & u64 (u64 (1 << bits_per_item_ f) - 1)) in
  u32 (tag + (if tag =? 0 then 1 else 0)).

Definition GenerateIndexTagHash (f : CuckooFilter) (item : list Z) : Z * Z :=
  let hash := CukooHash little item in
  (IndexHash f (u32 (hash >> 32)), TagHash f (u32 hash)).

Definition AltIndex (f : CuckooFilter) (index tag : Z) : Z := IndexHash f (u32 (Z.lxor index (u32 (tag * 0x5bd1e995)))).

(** The loop of [AddImpl]; [kickout] is [count > 0]. *)
Fixpoint add_loop (n : nat) (kickout : bool) (f : CuckooFilter) (curindex curtag : Z) : option (CuckooFilter * bool) :=
  match n with
  | O => Some (f <| hasCollision_ := true |>, false)
  | S n' =>
      '(t, added, oldtag) ← InsertTagToBucket (rand (cf_rand f)) (table_ f) curindex curtag kickout 0;
      let f := f <| table_ := t |> in
      if added : bool then Some (f <| num_items_ := u64 (num_items_ f + 1) |>, true)
      else
        let f := if kickout then f <| cf_rand ::= S |> else f in
        let curtag := if kickout then oldtag else curtag in
        add_loop n' true f (AltIndex f curindex curtag) curtag
  end.

Definition AddImpl (f : CuckooFilter) (i tag : Z) : option (CuckooFilter * bool) := add_loop kMaxCuckooCount false f i tag.

Definition Count (f : CuckooFilter) : Z := num_items_ f.
Definition MemUsage (f : CuckooFilter) : Z := SizeInBytes (table_ f).

Definition Add (f : CuckooFilter) (item : list Z) : option (CuckooFilter * bool) :=
  if hasCollision_ f then Some (f, false) else
  let '(i1, tag) := GenerateIndexTagHash f item in
  let i2 := AltIndex f i1 tag in
  if negb (i1 =? AltIndex f i2 tag) then None else
  found ← FindTagInBuckets after (table_ f) i1 i2 tag;
  if found : bool then Some (f, true) else AddImpl f i1 tag.

(** [i] and [tag] are the values the uninitialised variables happen to have. *)
Definition AddForce (f : CuckooFilter) (i tag : Z) : option (CuckooFilter * bool) :=
  if hasCollision_ f then Some (f, false) else AddImpl f i tag.

Definition KeyMayMatch (f : CuckooFilter) (key : list Z) : option bool :=
  let '(i1, tag) := GenerateIndexTagHash f key in
  let i2 := AltIndex f i1 tag in
  if negb (i1 =? AltIndex f i2 tag) then None else
  FindTagInBuckets after (table_ f) i1 i2 tag.

Definition Delete (f : CuckooFilter) (key : list Z) : option CuckooFilter :=
  let '(i1, tag) := GenerateIndexTagHash f key in
  let i2 := AltIndex f i1 tag in
  '(t, deleted) ← DeleteTagFromBucket after (table_ f) i1 tag;
  if deleted : bool then Some (f <| table_ := t |> <| num_items_ := u64 (num_items_ f - 1) |>) else
  '(t, deleted) ← DeleteTagFromBucket after t i2 tag;
  if deleted : bool then Some (f <| table_ := t |> <| num_items_ := u64 (num_items_ f - 1) |>) else Some (f <| table_ := t |>).
End Filter.

(** ** The stored filter *)

Definition EncodeTo (f : CuckooFilter) (bitmap : list Z) : list Z :=
  let bits := GetBitMap (table_ f) in
  let bitmap := PutVarint32 bitmap (u32 (num_items_ f)) in
  let bitmap := PutVarint32 bitmap (u32 (bits_per_item_ f)) in
  let bitmap := PutVarint32 bitmap (u32 (max_num_keys_ f)) in
  PutLengthPrefixedSlice bitmap bits.

Definition DecodeCuckooFilter (p : list Z) : option (Z * Z * Z * list Z * list Z) :=
  if Z.of_nat (length p) <? 3 then None else
  '(num_items, p) ← GetVarint32Ptr p;
  '(bits_per_key, p) ← GetVarint32Ptr p;
  '(max_num_keys, p) ← GetVarint32Ptr p;
  '(bitmap, p) ← GetLengthPrefixedSliceInplace p;
  Some (num_items, bits_per_key, max_num_keys, bitmap, p).

(** ** Tags and their two buckets *)

(** [AltIndex] of a table of [n] buckets. *)
Definition alt (n index tag : Z) : Z := Z.land (u32 (Z.lxor index (u32 (tag * 0x5bd1e995)))) (u64 (n - 1)).

(** A bucket and a tag. *)
Abbreviation print := (Z * Z)%type.

Definition good (n w : Z) (p : print) : Prop := 0 <= p.1 < n /\ 0 < p.2 < 2 ^ w.

(** The tag is in one of its buckets. *)
Definition sat (n : Z) (t : SingleTable) (p : print) : Prop := has_tag t p.1 p.2 = true \/ has_tag t (alt n p.1 p.2) p.2 = true.

Definition pow2 (n : Z) : Prop := exists k, 0 <= k <= 32 /\ n = 2 ^ k.

Lemma mask_pow2 k : 0 <= k <= 32 -> u64 (2 ^ k - 1) = Z.ones k.
Proof.
  intros Hk. rewrite Z.ones_equiv. assert (2 ^ k <= 2 ^ 32) by (apply Z.pow_le_mono_r; lia). assert (0 < 2 ^ k) by lia.
  replace (Z.pred (2 ^ k)) with (2 ^ k - 1) by lia. apply wrap_small. lia.
Qed.

Lemma index_range n hv : pow2 n -> 0 <= Z.land hv (u64 (n - 1)) < n.
Proof. intros (k & Hk & ->). rewrite mask_pow2, Z.land_ones by lia. apply Z.mod_pos_bound. lia. Qed.

Lemma alt_range n i tag : pow2 n -> 0 <= alt n i tag < n.
Proof. apply index_range. Qed.

(** The other bucket of the other bucket is the bucket. *)
Lemma alt_alt n i tag : pow2 n -> 0 <= i < n -> alt n (alt n i tag) tag = i.
Proof.
  intros (k & Hk & ->) Hi. unfold alt. rewrite mask_pow2 by lia. apply bits_ext. intros b Hb.
  rewrite Z.land_spec. unfold u32 at 1. rewrite wrap_testbit, Z.lxor_spec, Z.land_spec by lia. unfold u32 at 1.
  rewrite wrap_testbit, Z.lxor_spec by lia. destruct (Z.lt_ge_cases b k) as [Hlt|Hge].
  - rewrite Z.ones_spec_low by lia. rewrite (proj2 (Z.ltb_lt b 32)) by lia. simpl. rewrite !andb_true_r.
    by destruct (Z.testbit i b), (Z.testbit (u32 (tag * 1540483477)) b).
  - rewrite Z.ones_spec_high by lia. rewrite (testbit_high i k) by lia. by rewrite !andb_false_r.
Qed.

Definition near (n ci ct : Z) (p : print) : Prop := p.2 = ct /\ (ci = p.1 \/ ci = alt n p.1 p.2).

Lemma near_alt n w ci ct p : pow2 n -> good n w p -> near n ci ct p -> near n (alt n ci ct) ct p.
Proof.
  intros Hn [Hp _] [<- [->| ->]]; split; try done; [by right|left]. by rewrite alt_alt.
Qed.

Record FOk (f : CuckooFilter) : Prop := {
  fo_tags : tags_ok (table_ f);
  fo_bits : bits_per_item_ f = bits_per_tag_ (table_ f);
  fo_pow2 : pow2 (num_buckets_ (table_ f));
}.

Definition same_shape (f f' : CuckooFilter) : Prop :=
  bits_per_item_ f' = bits_per_item_ f /\ max_num_keys_ f' = max_num_keys_ f /\ num_buckets_ (table_ f') = num_buckets_ (table_ f).

Lemma FOk_table f t : FOk f -> tags_ok t -> bits_per_tag_ t = bits_per_tag_ (table_ f) -> num_buckets_ t = num_buckets_ (table_ f) ->
  FOk (f <| table_ := t |>).
Proof. intros [? Hb Hp] Ht Eb En. split; simpl; [done|congruence|by rewrite En]. Qed.

Lemma sat_wrote n w t t' i j tag old p : wrote t t' i j tag -> ReadTag t i j = Some old -> num_buckets_ t = n -> pow2 n -> good n w p ->
  sat n t p -> sat n t' p \/ near n i old p.
Proof.
  intros Hw Hr Hnum Hn [Hp _] [Hs|Hs]; (eapply wrote_other in Hs as [Hs|[Ei Et]]; [..|exact Hw|exact Hr|]).
  - left. by left.
  - right. split; [done|]. left. done.
  - by rewrite Hnum.
  - left. by right.
  - right. split; [done|]. right. done.
  - rewrite Hnum. by apply alt_range.
Qed.

Lemma near_wrote n t t' i j tag p : wrote t t' i j tag -> 0 <= i < num_buckets_ t -> 0 <= j < 4 -> near n i tag p -> sat n t' p.
Proof. intros Hw Hi Hj [Ep [Ei|Ei]]; [left|right]; rewrite <- Ei, Ep; by apply (wrote_here _ _ _ _ _ Hw). Qed.

Section Adding.
  Variable rand : nat -> Z.

(** While a tag is moved around, every print of [S] is in the table or in hand. *)
Lemma add_loop_ok (S : list print) fuel : forall kick f ci ct, FOk f ->
  let n := num_buckets_ (table_ f) in let w := bits_per_tag_ (table_ f) in
  good n w (ci, ct) -> (forall p, In p S -> good n w p /\ (sat n (table_ f) p \/ near n ci ct p)) ->
  exists f' b, add_loop rand fuel kick f ci ct = Some (f', b) /\ FOk f' /\ same_shape f f' /\
    if b : bool then hasCollision_ f' = hasCollision_ f /\ forall p, In p S -> sat n (table_ f') p else hasCollision_ f' = true.
Proof.
  induction fuel as [|fuel IH]; intros kick f ci ct Hf n w [Hci Hct] HS; cbn [add_loop].
  { eexists _, false. split; [done|]. split; [by destruct Hf|]. done. }
  simpl in Hci, Hct. pose proof (fo_pow2 _ Hf) as Hn. fold n in Hn.
  destruct (InsertTag_spec (rand (cf_rand f)) (table_ f) ci ct kick 0 (fo_tags _ Hf)) as (t & b & old & -> & Hb); [done|fold w; lia|].
  cbn [mbind option_bind]. destruct b.
  - destruct Hb as (j & Hj & Hz & Hw). pose proof Hw as (Hok & Eb & En & _). eexists _, true. split; [done|].
    pose proof (FOk_table f t Hf Hok Eb En) as [? ? ?]. split; [by split|]. split; [by repeat split|]. split; [done|].
    intros p Hp. destruct (HS p Hp) as [Hg [Hs|Hnear]]; [|by apply (near_wrote n _ _ _ _ _ p Hw)].
    destruct (sat_wrote n w _ _ _ _ _ _ p Hw Hz eq_refl Hn Hg Hs) as [|[E _]]; [done|]. destruct Hg as [_ ?]. lia.
  - destruct kick.
    + destruct Hb as (j & Hj & Hr & Hne & Hw). pose proof Hw as (Hok & Eb & En & _).
      set (f1 := f <| table_ := t |> <| cf_rand ::= Datatypes.S |>).
      assert (Hf1 : FOk f1) by (destruct (FOk_table f t Hf Hok Eb En); by split).
      assert (Halt : AltIndex f1 ci old = alt n ci old) by (unfold AltIndex, IndexHash, NumBuckets; simpl; by rewrite En).
      destruct (ReadTag_spec (table_ f) ci j (fo_tags _ Hf) Hci Hj) as (v & Hv & Hrange & _). rewrite Hr in Hv. injection Hv as <-.
      rewrite Halt. destruct (IH true f1 (alt n ci old) old Hf1) as (f' & b & Hl & Hf' & Hsh & Hb); simpl; rewrite ?En, ?Eb; fold n w.
      * split; simpl; [by apply alt_range|]. fold w in Hrange. lia.
      * intros p Hp. destruct (HS p Hp) as [Hg Hs]. split; [done|].
        assert (Hmv : sat n t p \/ near n ci old p).
        { destruct Hs as [Hs|Hnear]; [exact (sat_wrote n w _ _ _ _ _ _ p Hw Hr eq_refl Hn Hg Hs)|left].
          by apply (near_wrote n _ _ _ _ _ p Hw). }
        destruct Hmv as [|Hnear]; [by left|right]. by apply (near_alt n w).
      * exists f', b. split; [done|]. split; [done|]. simpl in Hb, Hsh. rewrite En in Hb. fold n in Hb. split; [|done].
        destruct Hsh as (? & ? & E3). repeat split; try done. simpl in E3. congruence.
    + destruct Hb as [-> _]. assert (Hfe : f <| table_ := table_ f |> = f) by by destruct f. rewrite Hfe.
      destruct (IH true f (alt n ci ct) ct Hf) as (f' & b & Hl & Hrest).
      * split; simpl; [by apply alt_range|done].
      * intros p Hp. destruct (HS p Hp) as [Hg [Hs|Hnear]]; (split; [done|]); [by left|right]. by apply (near_alt n w).
      * exists f', b. done.
Qed.
End Adding.

(** ** The operations of the filter *)

Section Operations.
  Variable little : bool.
  Variable rand : nat -> Z.
  Variable after : list Z.
  Local Abbreviation print_of := (GenerateIndexTagHash little).
  Local Abbreviation Add := (Add little rand after).
  Local Abbreviation Delete := (Delete little after).
  Local Abbreviation KeyMayMatch := (KeyMayMatch little after).

Lemma width_range w : width_ok w -> 4 <= w <= 32.
Proof. intros [->|[->|[->|[->| ->]]]]; lia. Qed.

Lemma print_good f key : FOk f -> good (num_buckets_ (table_ f)) (bits_per_tag_ (table_ f)) (print_of f key).
Proof.
  intros [Ht Hb Hn]. unfold GenerateIndexTagHash. split; simpl; [by apply index_range|]. unfold TagHash. rewrite Hb.
  pose proof (width_range _ (tk_width _ Ht)) as Hw. set (w := bits_per_tag_ (table_ f)) in *.
  assert (H32 : 2 ^ w <= 2 ^ 32) by (apply Z.pow_le_mono_r; lia). assert (H4 : 2 ^ 4 <= 2 ^ w) by (apply Z.pow_le_mono_r; lia).
  replace (u64 (Z.shiftl 1 w)) with (2 ^ w) by (rewrite Z.shiftl_1_l; symmetry; apply wrap_small; lia).
  rewrite mask_pow2, Z.land_ones by lia. set (x := u32 (CukooHash little key) mod 2 ^ w).
  assert (Hx : 0 <= x < 2 ^ w) by (apply Z.mod_pos_bound; lia). cbv zeta. unfold u32. rewrite (wrap_small 32 x) by lia.
  destruct (Z.eqb_spec x 0) as [E|E]; rewrite wrap_small by lia; lia.
Qed.

Lemma print_shape f f' key : same_shape f f' -> print_of f' key = print_of f key.
Proof.
  intros (E1 & _ & E3). unfold GenerateIndexTagHash, IndexHash, TagHash, NumBuckets. by rewrite E1, E3.
Qed.

Lemma AltIndex_alt f i tag : AltIndex f i tag = alt (num_buckets_ (table_ f)) i tag.
Proof. done. Qed.

Context (Hafter : bytes_ok after).

(** The bytes a look-up reads behind the table are there. *)
Definition reach (f : CuckooFilter) : Prop := overread (bits_per_item_ f) <= Z.of_nat (length after).

Lemma reach_table f : FOk f -> reach f -> overread (bits_per_tag_ (table_ f)) <= Z.of_nat (length after).
Proof. intros Hf Hr. by rewrite <- (fo_bits _ Hf). Qed.

Lemma search_eq f key : reach f -> FOk f -> let '(i, tag) := print_of f key in
  (i =? AltIndex f (AltIndex f i tag) tag) = true /\
  exists b, FindTagInBuckets after (table_ f) i (AltIndex f i tag) tag = Some b /\
    (b = true <-> sat (num_buckets_ (table_ f)) (table_ f) (i, tag)).
Proof.
  intros Hr Hf. pose proof (print_good f key Hf) as [Hi Ht]. destruct (print_of f key) as [i tag] eqn:E. simpl in Hi, Ht.
  rewrite !AltIndex_alt, alt_alt, Z.eqb_refl by (done || apply Hf). split; [done|]. eexists. split.
  - apply FindTagInBuckets_spec; [done|by apply reach_table|apply Hf|done|apply alt_range, Hf|lia].
  - unfold sat. simpl. by rewrite orb_true_iff.
Qed.

Lemma KeyMayMatch_ok f key : reach f -> FOk f -> exists b, KeyMayMatch f key = Some b /\
  (b = true <-> sat (num_buckets_ (table_ f)) (table_ f) (print_of f key)).
Proof.
  intros Hr Hf. pose proof (search_eq f key Hr Hf) as Hs. unfold Cuckoo.KeyMayMatch. destruct (print_of f key) as [i tag].
  destruct Hs as [-> (b & -> & Hb)]. by exists b.
Qed.

(** [Add] keeps what was there, and adds the key if it says so. *)
Lemma Add_ok f key (S : list print) : reach f -> FOk f -> let n := num_buckets_ (table_ f) in
  (forall p, In p S -> good n (bits_per_tag_ (table_ f)) p /\ (hasCollision_ f = false -> sat n (table_ f) p)) ->
  exists f' b, Add f key = Some (f', b) /\ FOk f' /\ same_shape f f' /\
    (hasCollision_ f' = false -> b = true /\ hasCollision_ f = false /\ forall p, In p (print_of f key :: S) -> sat n (table_ f') p).
Proof.
  intros Hr Hf n HS. unfold Cuckoo.Add. destruct (hasCollision_ f) eqn:Hc.
  { exists f, false. split; [done|]. split; [done|]. split; [done|]. congruence. }
  pose proof (search_eq f key Hr Hf) as Hs. pose proof (print_good f key Hf) as Hg. destruct (print_of f key) as [i tag] eqn:E.
  destruct Hs as [-> (b & -> & Hb)]. cbn [negb mbind option_bind]. destruct b.
  - exists f, true. split; [done|]. split; [done|]. split; [done|]. intros _. split; [done|]. split; [done|].
    intros p [<-|Hp]; [by apply Hb|]. by apply HS.
  - destruct (add_loop_ok rand ((i, tag) :: S) kMaxCuckooCount false f i tag Hf Hg) as (f' & b & Hl & Hf' & Hsh & Hb').
    + intros p [<-|Hp]; [split; [done|]; right; split; [done|by left]|]. destruct (HS p Hp) as [? Hs]. split; [done|]. left. by apply Hs.
    + exists f', b. split; [done|]. split; [done|]. split; [done|]. intros Hc'. destruct b; [|congruence].
      destruct Hb' as [_ Hall]. done.
Qed.

(** Two keys the filter cannot tell apart. *)
Definition same_print (n : Z) (p q : print) : Prop := p.2 = q.2 /\ (p.1 = q.1 \/ p.1 = alt n q.1 q.2).
#[export] Instance same_print_dec n p q : Decision (same_print n p q).
Proof. unfold same_print. apply _. Defined.

Lemma delete_one f i tag n : reach f -> FOk f -> n = num_buckets_ (table_ f) -> 0 <= i < n -> 0 < tag < 2 ^ bits_per_tag_ (table_ f) ->
  exists t b, DeleteTagFromBucket after (table_ f) i tag = Some (t, b) /\ FOk (f <| table_ := t |>) /\ same_shape f (f <| table_ := t |>) /\
    (b = false -> t = table_ f) /\
    forall p, good n (bits_per_tag_ (table_ f)) p -> ~ near n i tag p -> sat n (table_ f) p -> sat n t p.
Proof.
  intros Hr0 Hf -> Hi Ht. unfold DeleteTagFromBucket.
  destruct (delete_loop_spec after (table_ f) i tag slots Hafter (reach_table f Hf Hr0) (fo_tags _ Hf) Hi) as (t & b & -> & Hb); [lia|intros j; by rewrite in_slots|].
  exists t, b. split; [done|]. destruct b.
  - destruct Hb as (j & Hj & Hr & Hw). pose proof Hw as (Hok & Eb & En & _). split; [by apply FOk_table|]. split; [by repeat split|]. split; [done|].
    intros p Hg Hnear Hs. by destruct (sat_wrote _ _ _ _ _ _ _ _ p Hw Hr eq_refl (fo_pow2 _ Hf) Hg Hs).
  - destruct Hb as [-> _]. assert (f <| table_ := table_ f |> = f) as -> by by destruct f. done.
Qed.

Lemma near_same n w i tag p : pow2 n -> good n w p -> 0 <= i < n ->
  near n i tag p \/ near n (alt n i tag) tag p -> same_print n p (i, tag).
Proof.
  intros Hn [Hp _] Hi [[Et [Ei|Ei]]|[Et [Ei|Ei]]]; (split; [done|]); simpl; subst tag.
  - by left.
  - right. by rewrite Ei, alt_alt.
  - by right.
  - left. apply (f_equal (fun x => alt n x p.2)) in Ei. by rewrite !alt_alt in Ei by done.
Qed.

(** [Delete] takes out keys of that print only. *)
Lemma Delete_ok f key : reach f -> FOk f -> let n := num_buckets_ (table_ f) in
  exists f', Delete f key = Some f' /\ FOk f' /\ same_shape f f' /\ hasCollision_ f' = hasCollision_ f /\
    forall p, good n (bits_per_tag_ (table_ f)) p -> ~ same_print n p (print_of f key) -> sat n (table_ f) p -> sat n (table_ f') p.
Proof.
  intros Hr0 Hf n. unfold Cuckoo.Delete. pose proof (print_good f key Hf) as [Hi Ht]. destruct (print_of f key) as [i tag]. simpl in Hi, Ht.
  rewrite AltIndex_alt. fold n. pose proof (fo_pow2 _ Hf) as Hn. fold n in Hn.
  destruct (delete_one f i tag n Hr0 Hf eq_refl Hi Ht) as (t & b & -> & Hf1 & Hsh1 & Hb1 & Hs1). cbn [mbind option_bind]. destruct b.
  - eexists. split; [done|]. split; [by destruct Hf1|]. split; [done|]. split; [done|]. intros p Hg Hnp Hs. apply Hs1; [done| |done].
    intros Hx. apply Hnp. apply (near_same n _ i tag p Hn Hg Hi). by left.
  - rewrite (Hb1 eq_refl). destruct (delete_one f (alt n i tag) tag n Hr0 Hf eq_refl) as (t2 & b2 & -> & Hf2 & Hsh2 & _ & Hs2); [by apply alt_range|done|].
    cbn [mbind option_bind]. assert (Hrest : forall p, good n (bits_per_tag_ (table_ f)) p -> ~ same_print n p (i, tag) -> sat n (table_ f) p -> sat n t2 p).
    { intros p Hg Hnp Hs. apply Hs2; [done| |done]. intros Hx. apply Hnp. apply (near_same n _ i tag p Hn Hg Hi). by right. }
    destruct b2; (eexists; split; [done|]; split; [by destruct Hf2|]; done).
Qed.
End Operations.

(** ** Clients of a filter *)

Inductive filter_op : Type := FAdd (key : list Z) | FDelete (key : list Z).

Section Clients.
  Variable little : bool.
  Variable rand : nat -> Z.
  Variable after : list Z.
  Local Abbreviation print_of := (GenerateIndexTagHash little).

(** The filter and the keys it must answer for: those whose [Add] succeeded,
    until the deletion of a key with the same tag and buckets. *)
Definition filter_step (st : CuckooFilter * list (list Z)) (o : filter_op) : option (CuckooFilter * list (list Z)) :=
  let '(f, live) := st in
  match o with
  | FAdd key => '(f, b) ← Add little rand after f key; Some (f, if b : bool then key :: live else live)
  | FDelete key =>
      f' ← Delete little after f key;
      Some (f', filter (fun k => ~ same_print (num_buckets_ (table_ f)) (print_of f k) (print_of f key)) live)
  end.

Fixpoint filter_run (st : CuckooFilter * list (list Z)) (os : list filter_op) : option (CuckooFilter * list (list Z)) :=
  match os with
  | [] => Some st
  | o :: os' => st ← filter_step st o; filter_run st os'
  end.

Context (Hafter : bytes_ok after).

(** Everything the clients rely on, as long as no [Add] has failed. *)
Definition client_ok (f : CuckooFilter) (live : list (list Z)) : Prop :=
  (reach after f /\ FOk f) /\ (hasCollision_ f = false -> forall k, In k live -> sat (num_buckets_ (table_ f)) (table_ f) (print_of f k)).

Lemma reach_shape f f' : same_shape f f' -> reach after f -> reach after f'.
Proof. intros (E & _) Hr. unfold reach. by rewrite E. Qed.

Lemma filter_step_ok f live o : client_ok f live ->
  exists f' live', filter_step (f, live) o = Some (f', live') /\ client_ok f' live' /\ same_shape f f'.
Proof.
  intros [[Hr Hf] Hlive]. set (n := num_buckets_ (table_ f)). destruct o as [key|key]; cbn [filter_step].
  - destruct (Add_ok little rand after Hafter f key (map (print_of f) live) Hr Hf) as (f' & b & -> & Hf' & Hsh & Hb).
    { intros p (k & <- & Hk)%in_map_iff. split; [by apply print_good|]. auto. }
    cbn [mbind option_bind]. eexists f', _. split; [done|]. split; [|done]. split; [split; [by apply (reach_shape f)|done]|]. intros Hc. destruct (Hb Hc) as (-> & _ & Hs).
    intros k Hk. rewrite (print_shape little f f') by done. destruct Hsh as (_ & _ & ->). apply Hs.
    destruct Hk as [<-|Hk]; [by left|right]. by apply in_map.
  - destruct (Delete_ok little after Hafter f key Hr Hf) as (f' & -> & Hf' & Hsh & Hc & Hs).
    cbn [mbind option_bind]. eexists f', _. split; [done|]. split; [|done]. split; [split; [by apply (reach_shape f)|done]|]. rewrite Hc. intros Hc0 k Hk.
    apply list_elem_of_In, list_elem_of_filter in Hk as [Hnp Hk]. rewrite (print_shape little f f') by done. destruct Hsh as (_ & _ & ->).
    apply Hs; [by apply print_good|done|]. apply Hlive; [done|]. by apply list_elem_of_In.
Qed.

Lemma shape_trans f1 f2 f3 : same_shape f1 f2 -> same_shape f2 f3 -> same_shape f1 f3.
Proof. intros (?&?&?) (?&?&?). repeat split; congruence. Qed.

Lemma filter_run_ok os : forall f live, client_ok f live ->
  exists f' live', filter_run (f, live) os = Some (f', live') /\ client_ok f' live' /\ same_shape f f'.
Proof.
  induction os as [|o os IH]; intros f live Hok; cbn [filter_run]; [by exists f, live|].
  destruct (filter_step_ok f live o Hok) as (f1 & live1 & -> & Hok1 & Hsh1). cbn [mbind option_bind].
  destruct (IH f1 live1 Hok1) as (f' & live' & Hrun & Hok' & Hsh). exists f', live'. split; [done|]. split; [done|]. by apply (shape_trans _ f1).
Qed.

Lemma buckets_for_pow2 max : 4 <= max < 2 ^ 32 -> pow2 (buckets_for max).
Proof.
  intros Hm. unfold buckets_for. assert (H1 : 1 <= max / 4 < 2 ^ 30) by (split; [apply Z.div_le_lower_bound|apply Z.div_lt_upper_bound]; lia).
  destruct (upperpower2_spec (max / 4)) as (k & Hk & -> & Hle); [lia|].
  assert (Hk31 : k < 31) by (apply (Z.pow_lt_mono_r_iff 2); lia). destruct (frac_over _ _).
  - exists (k + 1). split; [lia|]. rewrite Z.shiftl_mul_pow2, Z.pow_add_r by lia. apply wrap_small.
    assert (2 ^ k <= 2 ^ 31) by (apply Z.pow_le_mono_r; lia). lia.
  - exists k. split; [lia|done].
Qed.

Lemma new_filter_ok w max : width_ok w -> 4 <= max < 2 ^ 32 -> overread w <= Z.of_nat (length after) -> client_ok (NewCuckooFilterPolicy w max) [].
Proof.
  intros Hw Hm Hlen. pose proof (buckets_for_pow2 max Hm) as Hp. split; [|by intros _ k []]. split; [done|]. split; simpl; [|done|done].
  apply NewSingleTable_ok; [done|]. destruct Hp as (k & ? & ->). lia.
Qed.

(** C16: a cuckoo filter with tags of 4, 8, 12, 16 or 32 bits, made for 4 to
    [2^32 - 1] keys, has no false negatives.  Whatever keys are added and deleted
    and whatever [rand] returns, no operation fails an assertion or accesses
    memory other than the table and the [overread w] bytes behind it (6, 4 and 2
    for tags of 4, 8 and 12 bits, none for wider ones), which are only read and
    whose contents do not matter.  As long as no [Add] has failed, [KeyMayMatch]
    is true for every key whose [Add] succeeded and after which no key with the
    same tag and buckets was deleted. *)
Theorem cuckoo_no_false_negatives (w max : Z) (os : list filter_op) : width_ok w -> 4 <= max < 2 ^ 32 ->
  overread w <= Z.of_nat (length after) ->
  exists f live, filter_run (NewCuckooFilterPolicy w max, []) os = Some (f, live) /\
    (forall key, exists b, KeyMayMatch little after f key = Some b) /\
    (hasCollision_ f = false -> forall key, In key live -> KeyMayMatch little after f key = Some true).
Proof.
  intros Hw Hm Hlen. destruct (filter_run_ok os _ [] (new_filter_ok w max Hw Hm Hlen)) as (f & live & Hrun & [[Hr Hf] Hlive] & _).
  exists f, live. split; [done|]. split.
  - intros key. destruct (KeyMayMatch_ok little after Hafter f key Hr Hf) as (b & ? & _). eauto.
  - intros Hc key Hk. destruct (KeyMayMatch_ok little after Hafter f key Hr Hf) as (b & -> & Hb). f_equal. apply Hb. by apply Hlive.
Qed.

(** ** Storing a filter *)

Lemma GetVarint32Ptr_app v rest : 0 <= v < 2 ^ 32 -> GetVarint32Ptr (EncodeVarint32 v ++ rest) = Some (v, rest).
Proof. apply GetVarint32_app. Qed.

Lemma SliceInplace_app s rest : Z.of_nat (length s) < 2 ^ 32 ->
  GetLengthPrefixedSliceInplace (EncodeVarint32 (u32 (Z.of_nat (length s))) ++ s ++ rest) = Some (s, rest).
Proof.
  intros Hs. unfold u32. rewrite wrap_small by lia. unfold GetLengthPrefixedSliceInplace. rewrite GetVarint32Ptr_app by lia. cbn [mbind option_bind].
  rewrite length_app. destruct (Z.ltb_spec (Z.of_nat (length s + length rest)) (Z.of_nat (length s))); [lia|].
  rewrite Nat2Z.id. f_equal. f_equal; [by apply take_app_exact|by apply drop_app_exact].
Qed.

Lemma u32_range x : 0 <= u32 x < 2 ^ 32.
Proof. by apply wrap_range. Qed.

Lemma Decode_Encode f rest : Z.of_nat (length (GetBitMap (table_ f))) < 2 ^ 32 ->
  DecodeCuckooFilter (EncodeTo f [] ++ rest) =
    Some (u32 (num_items_ f), u32 (bits_per_item_ f), u32 (max_num_keys_ f), GetBitMap (table_ f), rest).
Proof.
  intros Hs. unfold EncodeTo, PutLengthPrefixedSlice, PutVarint32. rewrite app_nil_l, <- !app_assoc. unfold DecodeCuckooFilter.
  assert (H1 : forall v, (1 <= length (EncodeVarint32 v))%nat) by (intros v; unfold EncodeVarint32; repeat case_match; simpl; lia).
  destruct (Z.ltb_spec (Z.of_nat (length (EncodeVarint32 (u32 (num_items_ f)) ++ EncodeVarint32 (u32 (bits_per_item_ f)) ++
    EncodeVarint32 (u32 (max_num_keys_ f)) ++ EncodeVarint32 (u32 (Z.of_nat (length (GetBitMap (table_ f))))) ++
    GetBitMap (table_ f) ++ rest))) 3) as [Hlt|_].
  { rewrite !length_app in Hlt. pose proof (H1 (u32 (num_items_ f))). pose proof (H1 (u32 (bits_per_item_ f))).
    pose proof (H1 (u32 (max_num_keys_ f))). lia. }
  rewrite GetVarint32Ptr_app by apply u32_range. cbn [mbind option_bind].
  rewrite GetVarint32Ptr_app by apply u32_range. cbn [mbind option_bind].
  rewrite GetVarint32Ptr_app by apply u32_range. cbn [mbind option_bind]. by rewrite SliceInplace_app.
Qed.

Lemma bitmap_eq t : tags_ok t -> GetBitMap t = bits_data_ t.
Proof. intros [_ _ _ Hl _]. unfold GetBitMap. rewrite <- Hl, Nat2Z.id. apply firstn_all. Qed.

Lemma load_table t : tags_ok t -> LoadSingleTable (bits_per_tag_ t) (num_buckets_ t) (bits_data_ t) = Some t.
Proof.
  intros [_ Hb Hm Hl _]. unfold LoadSingleTable. rewrite <- Hb, <- Hm, Hl, Z.eqb_refl. by destruct t.
Qed.

Lemma KeyMayMatch_ext f f' key : table_ f' = table_ f -> bits_per_item_ f' = bits_per_item_ f ->
  KeyMayMatch little after f' key = KeyMayMatch little after f key.
Proof.
  intros Ht Hb. unfold Cuckoo.KeyMayMatch, GenerateIndexTagHash, AltIndex, IndexHash, TagHash. by rewrite Ht, Hb.
Qed.

Lemma new_buckets w max f : num_buckets_ (table_ f) = num_buckets_ (table_ (NewCuckooFilterPolicy w max)) -> num_buckets_ (table_ f) = buckets_for max.
Proof. intros E. rewrite E. unfold NewCuckooFilterPolicy, NewSingleTable. cbn [table_ num_buckets_]. reflexivity. Qed.

(** A filter of the shape of a new one, through its stored form. *)
Lemma stored_ok f w max rest : FOk f -> width_ok w -> 4 <= max < 2 ^ 32 -> w * 4 * buckets_for max < 2 ^ 32 ->
  bits_per_item_ f = w -> max_num_keys_ f = max -> num_buckets_ (table_ f) = buckets_for max ->
  DecodeCuckooFilter (EncodeTo f [] ++ rest) = Some (u32 (num_items_ f), w, max, bits_data_ (table_ f), rest).
Proof.
  intros Hf Hw Hm Hsize E1 E2 E3. pose proof (fo_bits _ Hf) as Hbits. rewrite E1 in Hbits. pose proof (width_range w Hw).
  rewrite Decode_Encode.
  - rewrite bitmap_eq, E1, E2 by apply Hf.
    replace (u32 w) with w by (symmetry; apply wrap_small; lia). by replace (u32 max) with max by (symmetry; apply wrap_small; lia).
  - rewrite bitmap_eq, (tk_length _ (fo_tags _ Hf)), (tk_bytes _ (fo_tags _ Hf)), E3, <- Hbits by apply Hf.
    assert (0 <= buckets_for max) by (destruct (buckets_for_pow2 max Hm) as (k & ? & ->); lia).
    assert (bytes_per_bucket w <= w * 4) by (destruct Hw as [->|[->|[->|[->| ->]]]]; done). nia.
Qed.

Lemma rebuilt_ok f w max num : FOk f -> bits_per_item_ f = w -> num_buckets_ (table_ f) = buckets_for max ->
  exists f', BuildCuckooFilterPolicy num w max (bits_data_ (table_ f)) = Some f' /\
    forall key, KeyMayMatch little after f' key = KeyMayMatch little after f key.
Proof.
  intros Hf E1 E3. pose proof (load_table _ (fo_tags _ Hf)) as Hload. rewrite <- (fo_bits _ Hf), E1, E3 in Hload.
  unfold BuildCuckooFilterPolicy. rewrite Hload. cbn [mbind option_bind]. eexists. split; [reflexivity|]. intros key. by apply KeyMayMatch_ext.
Qed.

(** A stored filter is read back whatever follows it in the buffer, and the
    filter rebuilt from what was read answers every key as the stored one did. *)
Theorem cuckoo_stored_filter (w max : Z) (os : list filter_op) (rest : list Z) : width_ok w -> 4 <= max < 2 ^ 32 ->
  w * 4 * buckets_for max < 2 ^ 32 -> overread w <= Z.of_nat (length after) ->
  exists f live, filter_run (NewCuckooFilterPolicy w max, []) os = Some (f, live) /\
    DecodeCuckooFilter (EncodeTo f [] ++ rest) = Some (u32 (num_items_ f), w, max, bits_data_ (table_ f), rest) /\
    exists f', BuildCuckooFilterPolicy (u32 (num_items_ f)) w max (bits_data_ (table_ f)) = Some f' /\
      forall key, KeyMayMatch little after f' key = KeyMayMatch little after f key.
Proof.
  intros Hw Hm Hsize Hlen. destruct (filter_run_ok os _ [] (new_filter_ok w max Hw Hm Hlen)) as (f & live & Hrun & [[_ Hf] _] & (E1 & E2 & E3)).
  apply new_buckets in E3. cbn [NewCuckooFilterPolicy bits_per_item_ max_num_keys_] in E1, E2.
  exists f, live. split; [exact Hrun|]. split; [exact (stored_ok f w max rest Hf Hw Hm Hsize E1 E2 E3)|exact (rebuilt_ok f w max _ Hf E1 E3)].
Qed.
End Clients.

(** ** Examples *)

(** Single-byte keys. *)
Definition byte_keys (n : nat) : list (list Z) := map (fun i => [Z.of_nat i]) (seq 0 n).
Definition sample_rand (n : nat) : Z := Z.of_nat n.
Definition sample_after : list Z := replicate 6 255.

Lemma sample_after_ok : bytes_ok sample_after.
Proof. apply Forall_replicate. unfold byte_ok. lia. Qed.

Definition sample_filter_ops : list filter_op := map FAdd (byte_keys 6) ++ [FDelete [3]].

Lemma cuckoo_no_false_negatives_witness :
  exists f live, filter_run true sample_rand sample_after (NewCuckooFilterPolicy 8 4, []) sample_filter_ops = Some (f, live) /\
    (forall key, exists b, KeyMayMatch true sample_after f key = Some b) /\
    (hasCollision_ f = false -> forall key, In key live -> KeyMayMatch true sample_after f key = Some true).
Proof.
  apply (cuckoo_no_false_negatives true sample_rand sample_after sample_after_ok 8 4 sample_filter_ops);
    [right; left; reflexivity|lia|vm_compute; discriminate].
Defined.

(** What a filter answers for the keys after operations on it. *)
Definition answers (w max : Z) (os : list filter_op) (keys : list (list Z)) : option (list (list Z) * bool * list (option bool)) :=
  '(f, live) ← filter_run true sample_rand sample_after (NewCuckooFilterPolicy w max, []) os;
  Some (live, hasCollision_ f, map (KeyMayMatch true sample_after f) keys).

(** What the filter does not do.  When an [Add] fails, the tag it moved last is
    dropped: here the key [2], added before, is no longer found.  Two keys with
    one tag share a slot, so that deleting one takes the other out.  A width that
    is none of 2, 4, 8, 12, 16 and 32 is accepted, every [Add] succeeds and
    nothing is stored.  A filter for fewer than four keys has no bucket, and [Add]
    leaves the table. *)
Lemma cuckoo_limits :
  answers 8 4 (map FAdd (byte_keys 9)) [[2]] = Some (rev (byte_keys 8), true, [Some false]) /\
  answers 4 4 [FAdd [0]; FAdd [7]; FDelete [0]] [[7]] = Some ([], false, [Some false]) /\
  answers 6 8 (map FAdd (byte_keys 3)) (byte_keys 3) = Some (rev (byte_keys 3), false, [Some false; Some false; Some false]) /\
  NumBuckets (table_ (NewCuckooFilterPolicy 8 3)) = 0 /\ answers 8 3 [FAdd [0]] [] = None.
Proof. split; [|split; [|split; [|split]]]; vm_compute; reflexivity. Qed.
