(* ===== verification/Buffers.v ===== *)
(** * Buffers

    Raw memory as InSDB's engine uses it: a buffer is a list of bytes, a copy into it
    keeps its length, and an access outside of it has no result.  With the macro
    [SizeAlignment] of db/insdb_internal.h and the interfaces of what lies below: the
    allocator, the device and the compression library. *)

From Stdlib Require Import ZArith Lia Bool.
From stdpp Require Import base list.
From S2P Require Import Prelude Coding Crc32c.

(** ** Reading and writing *)

(** [memcpy(buf + off, bytes, n)]. *)
Definition put_at (buf : list Z) (off : nat) (bytes : list Z) : option (list Z) :=
  if (off + length bytes <=? length buf)%nat then Some (take off buf ++ bytes ++ drop (off + length bytes) buf) else None.

(** The [n] bytes at [buf + off]. *)
Definition get_at (buf : list Z) (off n : nat) : option (list Z) :=
  if (off + n <=? length buf)%nat then Some (take n (drop off buf)) else None.

(** A 32-bit word in the order of the machine. *)
Definition native32 `{Processor} (v : Z) : list Z := if kLittleEndian then le_bytes 4 v else rev (le_bytes 4 v).
Definition load32 `{Processor} (buf : list Z) (off : nat) : option Z :=
  bs ← get_at buf off 4; Some (le_value (if kLittleEndian then bs else rev bs)).

(** [SizeAlignment(size)]; [kRequestAlignSize] is a power of two. *)
Definition SizeAlignment (kRequestAlignSize size : Z) : Z :=
  Z.land (u32 (size + (kRequestAlignSize - 1))) (u32 (Z.lnot (kRequestAlignSize - 1))).

(** ** Interfaces *)

(** What [malloc(size)] returns holds anything. *)
Class RawMalloc : Type := {
  raw_malloc : Z -> list Z;
  raw_malloc_length : forall n, 0 <= n -> length (raw_malloc n) = Z.to_nat n;
  raw_malloc_ok : forall n, bytes_ok (raw_malloc n);
}.

(** The device, as [Env::Put] and [Env::Get] see it: a get fills at most the [size]
    bytes it is given. *)
Class Env (D : Type) : Type := {
  EnvPut : D -> Z -> list Z -> D;
  EnvGet : D -> Z -> Z -> option (list Z);
}.

Class ReliableEnv (D : Type) `{Env D} : Prop := {
  get_put : forall d key value size, EnvGet (EnvPut d key value) key size = Some (take (Z.to_nat size) value);
}.

(** A put leaves what is at the other keys. *)
Class KeyedEnv (D : Type) `{Env D} : Prop := {
  get_put_other : forall d key value key' size, key' <> key -> EnvGet (EnvPut d key value) key' size = EnvGet d key' size;
}.

(** Snappy, whose header says how much longer than its input the output can be. *)
Class Snappy : Type := {
  RawCompress : list Z -> list Z;
  GetUncompressedLength : list Z -> option Z;
  Uncompress : list Z -> option (list Z);
}.

Class SnappyLaws `{Snappy} : Prop := {
  compress_bound : forall x, Z.of_nat (length (RawCompress x)) <= 32 + Z.of_nat (length x) + Z.of_nat (length x) / 6;
  compress_ok : forall x, bytes_ok x -> bytes_ok (RawCompress x);
  compress_nonempty : forall x, RawCompress x <> [];
  compress_length : forall x, GetUncompressedLength (RawCompress x) = Some (Z.of_nat (length x));
  compress_roundtrip : forall x, Uncompress (RawCompress x) = Some x;
}.

(** ** Lemmas *)

Lemma put_at_app a x b y : length x = length y -> put_at (a ++ x ++ b) (length a) y = Some (a ++ y ++ b).
Proof.
  intros Hl. unfold put_at. rewrite !length_app. destruct (Nat.leb_spec (length a + length y) (length a + (length x + length b))); [|lia].
  rewrite take_app_exact by done. rewrite (app_assoc a x b), drop_app_exact; [done|]. rewrite length_app. lia.
Qed.

Lemma get_at_app a x b : get_at (a ++ x ++ b) (length a) (length x) = Some x.
Proof.
  unfold get_at. rewrite !length_app. destruct (Nat.leb_spec (length a + length x) (length a + (length x + length b))); [|lia].
  rewrite drop_app_exact by done. by rewrite take_app_exact.
Qed.

(** The same with the position and the length given by equations. *)
Lemma put_at_eq buf off a x b y : buf = a ++ x ++ b -> off = length a -> length x = length y -> put_at buf off y = Some (a ++ y ++ b).
Proof. intros -> -> ?. by apply put_at_app. Qed.

Lemma get_at_eq buf off n a x b : buf = a ++ x ++ b -> off = length a -> n = length x -> get_at buf off n = Some x.
Proof. intros -> -> ->. apply get_at_app. Qed.

Lemma put_at_length buf off y buf' : put_at buf off y = Some buf' -> length buf' = length buf.
Proof.
  unfold put_at. destruct (Nat.leb_spec (off + length y) (length buf)); [|done]. intros [= <-].
  rewrite !length_app, length_take, length_drop. lia.
Qed.

Lemma put_at_nil buf off : (off <= length buf)%nat -> put_at buf off [] = Some buf.
Proof.
  intros Ho. unfold put_at. cbn [length app]. rewrite Nat.add_0_r. destruct (Nat.leb_spec off (length buf)); [|lia]. by rewrite take_drop.
Qed.

(** A buffer has a part at every position that it reaches. *)
Lemma buffer_split (buf : list Z) (off n : nat) : (off + n <= length buf)%nat ->
  exists a x b, buf = a ++ x ++ b /\ length a = off /\ length x = n /\ length b = (length buf - off - n)%nat.
Proof.
  intros Hl. exists (take off buf), (take n (drop off buf)), (drop (off + n) buf).
  rewrite <- drop_drop, take_drop, take_drop, !length_take, !length_drop. split; [done|]. lia.
Qed.

Lemma native32_le `{Processor} v : kLittleEndian = true -> native32 v = le_bytes 4 v.
Proof. unfold native32. by intros ->. Qed.

Lemma load32_app `{Processor} a v b : kLittleEndian = true -> load32 (a ++ le_bytes 4 v ++ b) (length a) = Some (u32 v).
Proof.
  intros E. unfold load32. rewrite (get_at_eq _ _ 4 a (le_bytes 4 v) b) by done. rewrite E. cbn [mbind option_bind].
  by rewrite le_value_le_bytes.
Qed.

Lemma SizeAlignment_eq k size : 0 <= k < 32 -> 0 <= size -> size + 2 ^ k <= 2 ^ 32 -> SizeAlignment (2 ^ k) size = (size + (2 ^ k - 1)) / 2 ^ k * 2 ^ k.
Proof.
  intros Hk Hs Hb. assert (0 < 2 ^ k) as Hp by lia. unfold SizeAlignment. replace (u32 (size + (2 ^ k - 1))) with (size + (2 ^ k - 1)) by (symmetry; apply wrap_small; lia).
  assert (Z.land (size + (2 ^ k - 1)) (u32 (Z.lnot (2 ^ k - 1))) = Z.ldiff (size + (2 ^ k - 1)) (Z.ones k)) as ->.
  { apply bits_ext. intros i Hi. rewrite Z.land_spec, Z.ldiff_spec. unfold u32. rewrite wrap_testbit by lia.
    rewrite Z.lnot_spec by lia. rewrite Z.ones_equiv, Z.sub_1_r. destruct (Z.ltb_spec i 32); [by rewrite andb_true_l|].
    rewrite (testbit_high (size + Z.pred (2 ^ k)) 32 i); [done|lia..]. }
  rewrite Z.ldiff_ones_r by lia. by rewrite Z.shiftl_mul_pow2, Z.shiftr_div_pow2 by lia.
Qed.

Lemma SizeAlignment_spec k size : 0 <= k < 32 -> 0 <= size -> size + 2 ^ k <= 2 ^ 32 ->
  size <= SizeAlignment (2 ^ k) size < size + 2 ^ k.
Proof.
  intros Hk Hs Hb. assert (0 < 2 ^ k) as Hp by lia. rewrite SizeAlignment_eq by done.
  pose proof (Z.div_mod (size + (2 ^ k - 1)) (2 ^ k) ltac:(lia)). pose proof (Z.mod_pos_bound (size + (2 ^ k - 1)) (2 ^ k) Hp). nia.
Qed.

(** It is the least multiple of the alignment. *)
Lemma SizeAlignment_least k size l : 0 <= k < 32 -> 0 <= size -> size + 2 ^ k <= 2 ^ 32 ->
  (2 ^ k | SizeAlignment (2 ^ k) size) /\ ((2 ^ k | l) -> size <= l -> SizeAlignment (2 ^ k) size <= l).
Proof.
  intros Hk Hs Hb. assert (0 < 2 ^ k) as Hp by lia. pose proof (SizeAlignment_spec k size Hk Hs Hb) as Hspec.
  assert (2 ^ k | SizeAlignment (2 ^ k) size) as Hd by (rewrite SizeAlignment_eq by done; by eexists). split; [done|].
  intros [q ->] Hl. destruct Hd as [r Er]. rewrite Er in *. apply Z.mul_le_mono_nonneg_r; [lia|].
  destruct (Z.le_gt_cases r q); [done|]. assert ((q + 1) * 2 ^ k <= r * 2 ^ k) as Hm by (apply Z.mul_le_mono_nonneg_r; lia). rewrite Z.mul_add_distr_r in Hm. lia.
Qed.
