(* ===== verification/KeyBlock.v ===== *)
(** * Key blocks

    InSDB's worker packs the pending requests of many clients into one value of the
    device, a key block: a table of offsets, and for every put its sizes, value, key,
    column and time to live.  The block is compressed if that pays, and stored with
    its length and a checksum.

    Models [UserValue] and [KeyBlock] (db/insdb_internal.h), the parts of
    [DBImpl::WorkerThread] that choose the requests of a block and store it and
    [DBImpl::BuildKeyBlock] (db/db_impl.cc), and [Manifest::LoadValue] with the
    accessors of [KeyBlock] (db/manifest.cc).  Left out are the calls that concern
    other objects: the merging of column nodes, the dirty counts and the cache of the
    tables, reference counts and the memory statistics.  [None] is an access outside
    of a buffer or a call of [abort]; assertions are compiled out. *)

From Stdlib Require Import ZArith Lia Bool.
From stdpp Require Import base list.
From S2P Require Import Prelude Coding Crc32c Buffers.

Inductive RequestType : Type := kPutType | kDelType.

#[export] Instance RequestType_eq : EqDecision RequestType.
Proof. solve_decision. Defined.

Definition kMaxRequestPerKeyBlock : Z := 32.
Definition kMaxInternalValueSize : Z := 0x100000.
Definition kDeviceRquestMaxSize : Z := 0x200000.
Definition KEYBLOCK_VALUE_SIZE_SHIFT : Z := 11.
Definition KEYBLOCK_KEY_SIZE_MASK : Z := 0x7ff.
Definition KEYBLOCK_COMP_MASK : Z := 0x80000000.
Definition KEYBLOCK_KB_SIZE_MASK : Z := 0x00FFFFFF.
Definition KEYBLOCK_KEY_CNT_SHIFT : Z := 24.
Definition KEYBLOCK_TTL_SHIFT : Z := 31.
Definition KEYBLOCK_OFFSET_MASK : Z := 0x7fffffff.
Definition KEY_BLOCK_SIZE_APPENDIX : Z := 12.
Definition KEY_BLOCK_TOTAL_SIZE : Z := 4.

Section Code.
  Context `{Processor}.
  Local Open Scope cword_scope.

(** ** User values *)

Definition UV_BUF_SIZE_SHIFT : Z := 5.

Record UserValue : Type := {
  buf_ : list Z;
  value_size_ : Z;
  buf_size_ : Z;
}.

Definition NewUserValue (size : Z) : UserValue :=
  if size =? 0 then {| buf_ := []; value_size_ := 0; buf_size_ := 0 |}
  else
    let size := u32 (size + 0x1F) & 0xFFFFFFE0 in
    {| buf_ := replicate (Z.to_nat size) 0; value_size_ := 0; buf_size_ := u16 (size >> UV_BUF_SIZE_SHIFT) |}.

(** [InitUserValue(uval, key, col_id, ttl)]: value, key, column and, if there is
    one, time to live in one buffer. *)
Definition InitUserValue (uv : UserValue) (uval key : list Z) (col_id ttl : Z) : option UserValue :=
  let value_size := u32 (Z.of_nat (length uval)) in
  let needed := value_size + Z.of_nat (length key) + 1 + (if ttl =? 0 then 0 else 8) in
  let '(buf, buf_size) :=
    if u32 (buf_size_ uv << UV_BUF_SIZE_SHIFT) <? needed then
      let buf_size := u32 (u32 needed + 0x1F) & 0xFFFFFFE0 in (replicate (Z.to_nat buf_size) 0, u16 (buf_size >> UV_BUF_SIZE_SHIFT))
    else (buf_ uv, buf_size_ uv) in
  buf ← put_at buf 0 (take (Z.to_nat value_size) uval);
  let pos := length uval in
  buf ← put_at buf pos key;
  let pos := (pos + length key)%nat in
  buf ← put_at buf pos [col_id];
  let pos := (pos + 1)%nat in
  buf ← (if ttl =? 0 then Some buf else put_at buf pos (if kLittleEndian then le_bytes 8 ttl else rev (le_bytes 8 ttl)));
  Some {| buf_ := buf; value_size_ := value_size; buf_size_ := buf_size |}.

Definition ReadValue (uv : UserValue) : option (list Z) := get_at (buf_ uv) 0 (Z.to_nat (value_size_ uv)).

(** ** Requests *)

(** What the worker finds in a request node: the key and the column, and the
    column node's type, user value and time stamp. *)
Record RequestNode : Type := {
  rn_type : RequestType;
  rn_key : list Z;
  rn_col : Z;
  rn_uv : UserValue;
  rn_ts : Z;
}.

(** The part of [WriteBatchInternal::Store] that makes a column node and its user
    value; [uv] is what the allocator returned. *)
Definition StoreRequest (TtlIsEnabled : Z -> bool) (uv : UserValue) (key value : list Z) (col_id : Z) (type : RequestType) (ttl_ : Z) : option RequestNode :=
  let ts := if TtlIsEnabled col_id then ttl_ else 0 in
  uv ← match type with kPutType => InitUserValue uv value key col_id ts | kDelType => Some (NewUserValue 0) end;
  Some {| rn_type := type; rn_key := key; rn_col := col_id; rn_uv := uv; rn_ts := ts |}.

(** The loop of [WorkerThread] that takes requests from the queue: the chosen ones,
    the rest, the estimated size and the number of puts and deletes. *)
Fixpoint collect (TtlIsEnabled : Z -> bool) (pending : list RequestNode) (estimated puts dels : Z) (submit : list RequestNode) :
    list RequestNode * list RequestNode * Z * Z * Z :=
  match pending with
  | [] => (submit, [], estimated, puts, dels)
  | r :: rest =>
      let ivalue_size := u32 (value_size_ (rn_uv r) + Z.of_nat (length (rn_key r)) + KEY_BLOCK_SIZE_APPENDIX + if TtlIsEnabled (rn_col r) then 8 else 0) in
      let estimated' := match rn_type r with kPutType => u32 (estimated + ivalue_size) | kDelType => estimated end in
      if bool_decide (rn_type r = kPutType) && (kMaxInternalValueSize <? estimated') && (negb (puts =? 0) || negb (dels =? 0))
      then (submit, pending, u32 (estimated' - ivalue_size), puts, dels)
      else
        let '(puts, dels) := match rn_type r with kPutType => (u8 (puts + 1), dels) | kDelType => (puts, u8 (dels + 1)) end in
        let submit := submit ++ [r] in
        if (puts =? kMaxRequestPerKeyBlock) || (dels =? kMaxRequestPerKeyBlock) then (submit, rest, estimated', puts, dels)
        else collect TtlIsEnabled rest estimated' puts dels submit
  end.

Definition WorkerCollect (TtlIsEnabled : Z -> bool) (kRequestAlignSize : Z) (pending : list RequestNode) : list RequestNode * list RequestNode * Z * Z * Z :=
  let '(submit, rest, estimated, puts, dels) := collect TtlIsEnabled pending (2 + KEY_BLOCK_TOTAL_SIZE) 0 0 [] in
  let estimated := u32 (estimated + 4) in
  let estimated := if estimated mod kRequestAlignSize =? 0 then estimated else SizeAlignment kRequestAlignSize estimated in
  (submit, rest, estimated, puts, dels).

(** ** Building a block in memory *)

Record KeyBlock : Type := {
  raw_data_size_ : Z;
  data_size_ : Z;
  raw_data_ : list Z;
}.

Definition NewKeyBlock : KeyBlock := {| raw_data_size_ := 0; data_size_ := 0; raw_data_ := [] |}.

(** [KeyBlock::Init]. *)
Definition KbInit `{RawMalloc} (kRequestAlignSize : Z) (kb : KeyBlock) (size : Z) : KeyBlock :=
  if negb (raw_data_size_ kb =? 0) then
    let size := SizeAlignment kRequestAlignSize size in
    if raw_data_size_ kb <? size then {| raw_data_size_ := size; data_size_ := size; raw_data_ := raw_malloc size |}
    else {| raw_data_size_ := raw_data_size_ kb; data_size_ := size; raw_data_ := raw_data_ kb |}
  else if negb (size =? 0) then
    let size := SizeAlignment kRequestAlignSize size in
    {| raw_data_size_ := size; data_size_ := size; raw_data_ := raw_malloc size |}
  else {| raw_data_size_ := raw_data_size_ kb; data_size_ := 0; raw_data_ := raw_data_ kb |}.

(** The positions [offset] and [kv_buffer] in the block and the two counters. *)
Record Builder : Type := {
  bd_buf : list Z;
  bd_offset : nat;
  bd_kv : nat;
  bd_puts : Z;
  bd_dels : Z;
}.

(** One round of the loop of [BuildKeyBlock]; [SetKeyBlockOffset] is the second
    result. *)
Definition build_one (b : Builder) (r : RequestNode) : option (Builder * Z) :=
  buf ← put_at (bd_buf b) (bd_offset b) (EncodeFixed32 kLittleEndian (Z.of_nat (bd_kv b)));
  match rn_type r with
  | kDelType => Some ({| bd_buf := buf; bd_offset := bd_offset b; bd_kv := bd_kv b; bd_puts := bd_puts b; bd_dels := u8 (bd_dels b + 1) |}, bd_dels b)
  | kPutType =>
      let uv := rn_uv r in
      let value_sz_and_key_sz := u32 (value_size_ uv << KEYBLOCK_VALUE_SIZE_SHIFT) in
      let value_sz_and_key_sz := u32 (value_sz_and_key_sz |: Z.of_nat (length (rn_key r))) in
      let sizes := EncodeVarint32 value_sz_and_key_sz in
      buf ← put_at buf (bd_kv b) sizes;
      let kv := (bd_kv b + length sizes)%nat in
      buf ← (if rn_ts r =? 0 then Some buf
             else v ← load32 buf (bd_offset b); put_at buf (bd_offset b) (native32 (v |: u32 (1 << KEYBLOCK_TTL_SHIFT))));
      let data_size := u32 (value_size_ uv + Z.of_nat (length (rn_key r)) + 1 + if rn_ts r =? 0 then 0 else 8) in
      data ← get_at (buf_ uv) 0 (Z.to_nat data_size);
      buf ← put_at buf kv data;
      Some ({| bd_buf := buf; bd_offset := bd_offset b + 4; bd_kv := kv + Z.to_nat data_size; bd_puts := u8 (bd_puts b + 1); bd_dels := bd_dels b |}, bd_puts b)
  end.

Fixpoint build_loop (b : Builder) (submit_list : list RequestNode) : option (Builder * list Z) :=
  match submit_list with
  | [] => Some (b, [])
  | r :: l => '(b, kb_offset) ← build_one b r; '(b, kb_offsets) ← build_loop b l; Some (b, kb_offset :: kb_offsets)
  end.

(** The block, its total size, and the offset each column node was given. *)
Definition BuildKeyBlock (submit_list : list RequestNode) (put_cnt : Z) (buf : list Z) : option (list Z * Z * list Z) :=
  '(b, kb_offsets) ← build_loop {| bd_buf := buf; bd_offset := 0; bd_kv := 4 * (Z.to_nat put_cnt + 1); bd_puts := 0; bd_dels := 0 |} submit_list;
  let total_size := u32 (Z.of_nat (bd_kv b)) in
  buf ← put_at (bd_buf b) (bd_offset b) (EncodeFixed32 kLittleEndian total_size);
  Some (buf, total_size, kb_offsets).

(** ** Storing a block *)

(** [kb_dev_buffer] is the worker's buffer at address [address]; the result is what
    [env_->Put] gets, and the size that the column nodes remember. *)
Definition DeviceFormat `{Snappy} (snappy_option : bool) (kRequestAlignSize address : Z) (kb_dev_buffer raw : list Z) (put_cnt ivalue_size : Z) :
    option (list Z * Z) :=
  let word := u32 (put_cnt << KEYBLOCK_KEY_CNT_SHIFT) in
  data ← get_at raw 0 (Z.to_nat ivalue_size);
  '(buf, word, ivalue_size) ←
    (if snappy_option then
      let out := RawCompress data in
      let outlen := Z.of_nat (length out) in
      buf ← put_at kb_dev_buffer 8 out;
      if outlen <? ivalue_size - ivalue_size / 8 then Some (buf, u32 (word |: (KEYBLOCK_COMP_MASK |: outlen)), u32 outlen)
      else buf ← put_at buf 8 data; Some (buf, word |: ivalue_size, ivalue_size)
    else buf ← put_at kb_dev_buffer 8 data; Some (buf, word |: ivalue_size, ivalue_size));
  buf ← put_at buf 4 (native32 word);
  covered ← get_at buf 4 (Z.to_nat ((word & KEYBLOCK_KB_SIZE_MASK) + 4));
  crc ← Value (address + 4) covered;
  buf ← put_at buf 0 (EncodeFixed32 kLittleEndian (Mask crc));
  let ivalue_size := u32 (ivalue_size + 8) in
  slice ← get_at buf 0 (Z.to_nat (SizeAlignment kRequestAlignSize ivalue_size));
  Some (slice, ivalue_size).

(** [BuildKeyBlockMeta], for a round of deletes only: the offsets again. *)
Fixpoint BuildKeyBlockMeta (submit_list : list RequestNode) (del_kb_offset : Z) : list Z :=
  match submit_list with
  | [] => []
  | _ :: l => del_kb_offset :: BuildKeyBlockMeta l (u8 (del_kb_offset + 1))
  end.

Record Round (D : Type) : Type := {
  rd_submit : list RequestNode;
  rd_rest : list RequestNode;
  rd_kb : option KeyBlock;
  rd_offsets : list Z;
  rd_ivalue_size : Z;
  rd_device : D;
}.

(** A round of [WorkerThread] on a queue: [kb] is what [AllocKB] returned and
    [cur_ikey_seq_num] the number that [PushKBMLog] gave to the block. *)
Definition WorkerRound `{RawMalloc} `{Snappy} `{Env D} (d : D) (TtlIsEnabled : Z -> bool) (snappy_option : bool) (kRequestAlignSize address : Z) (kb_dev_buffer : list Z)
    (kb : KeyBlock) (cur_ikey_seq_num : Z) (pending : list RequestNode) : option (Round D) :=
  let '(submit, rest, estimated, puts, dels) := WorkerCollect TtlIsEnabled kRequestAlignSize pending in
  if puts =? 0 then
    Some {| rd_submit := submit; rd_rest := rest; rd_kb := None; rd_offsets := BuildKeyBlockMeta submit 0; rd_ivalue_size := 0; rd_device := d |}
  else
    let kb := KbInit kRequestAlignSize kb estimated in
    '(raw, ivalue_size, kb_offsets) ← BuildKeyBlock submit puts (raw_data_ kb);
    if ivalue_size =? 0 then None
    else if estimated <? ivalue_size then None
    else
      let kb := {| raw_data_size_ := raw_data_size_ kb; data_size_ := data_size_ kb; raw_data_ := raw |} in
      '(slice, ivalue_size) ← DeviceFormat snappy_option kRequestAlignSize address kb_dev_buffer raw puts ivalue_size;
      Some {| rd_submit := submit; rd_rest := rest; rd_kb := Some kb; rd_offsets := kb_offsets; rd_ivalue_size := ivalue_size;
              rd_device := EnvPut d cur_ikey_seq_num slice |}.

(** ** Reading a block *)

(** [io_buf] is the buffer of the thread, with what it held before. *)
Definition LoadValue `{RawMalloc} `{Snappy} `{Env D} (d : D) (kRequestAlignSize address : Z) (io_buf : list Z) (kb : KeyBlock) (insdb_key_seq ivalue_size : Z) :
    option KeyBlock :=
  let buffer_size := SizeAlignment kRequestAlignSize ivalue_size in
  got ← EnvGet d insdb_key_seq buffer_size;
  contents ← put_at io_buf 0 got;
  stored ← DecodeFixed32 kLittleEndian contents;
  let orig_crc := Unmask stored in
  word ← load32 contents 4;
  let size := Z.to_nat (word & KEYBLOCK_KB_SIZE_MASK) in
  covered ← get_at contents 4 (size + 4);
  actual_crc ← Value (address + 4) covered;
  if negb (orig_crc =? actual_crc) then None
  else if negb (word & KEYBLOCK_COMP_MASK =? 0) then
    comp ← get_at contents 8 size;
    ulength ← GetUncompressedLength comp;
    let kb := KbInit kRequestAlignSize kb ulength in
    data ← Uncompress comp;
    raw ← put_at (raw_data_ kb) 0 data;
    Some {| raw_data_size_ := raw_data_size_ kb; data_size_ := data_size_ kb; raw_data_ := raw |}
  else
    let kb := KbInit kRequestAlignSize kb ivalue_size in
    data ← get_at contents 8 (Z.to_nat ivalue_size);
    raw ← put_at (raw_data_ kb) 0 data;
    Some {| raw_data_size_ := raw_data_size_ kb; data_size_ := data_size_ kb; raw_data_ := raw |}.

(** The entry at [index]: its sizes word, and the position of what follows it. *)
Definition kb_entry (kb : KeyBlock) (index : Z) : option (Z * nat) :=
  word ← DecodeFixed32 kLittleEndian (drop (4 * Z.to_nat index) (raw_data_ kb));
  let data_offset := word & KEYBLOCK_OFFSET_MASK in
  next ← DecodeFixed32 kLittleEndian (drop (4 * (Z.to_nat index + 1)) (raw_data_ kb));
  let data_size := u32 ((next & KEYBLOCK_OFFSET_MASK) - data_offset) in
  data ← get_at (raw_data_ kb) (Z.to_nat data_offset) (Z.to_nat data_size);
  '(sizes, parse) ← GetVarint32 data;
  Some (sizes, (Z.to_nat data_offset + (length data - length parse))%nat).

Definition GetValueFromKeyBlock (kb : KeyBlock) (index : Z) : option (list Z) :=
  '(value_size, parse) ← kb_entry kb index;
  get_at (raw_data_ kb) parse (Z.to_nat (value_size >> KEYBLOCK_VALUE_SIZE_SHIFT)).

Definition GetKeyFromKeyBlock (kb : KeyBlock) (index : Z) : option (list Z) :=
  '(value_and_key_size, parse) ← kb_entry kb index;
  let value_size := value_and_key_size >> KEYBLOCK_VALUE_SIZE_SHIFT in
  let key_size := value_and_key_size & KEYBLOCK_KEY_SIZE_MASK in
  get_at (raw_data_ kb) (parse + Z.to_nat value_size) (Z.to_nat key_size).

End Code.

Arguments rd_submit {D}.
Arguments rd_rest {D}.
Arguments rd_kb {D}.
Arguments rd_offsets {D}.
Arguments rd_ivalue_size {D}.
Arguments rd_device {D}.
