(* ===== verification/KeyBlockSpec.v ===== *)
(** * What a key block holds

    The layout of a key block as a function of its requests, what the builder writes
    and what the accessors read back. *)

From Stdlib Require Import ZArith Lia Bool.
From stdpp Require Import base list.
From S2P Require Import Prelude Coding Crc32c Buffers KeyBlock.

Definition is_put (r : RequestNode) : bool := bool_decide (rn_type r = kPutType).

(** The number of puts among requests. *)
Fixpoint nputs (rs : list RequestNode) : nat := match rs with [] => 0 | r :: rs => (if is_put r then 1 else 0) + nputs rs end%nat.
Fixpoint ndels (rs : list RequestNode) : nat := match rs with [] => 0 | r :: rs => (if is_put r then 0 else 1) + ndels rs end%nat.

Section Layout.
  Context `{Processor}.
  Hypothesis Hle : kLittleEndian = true.
  Variable TtlIsEnabled : Z -> bool.
  Local Open Scope cword_scope.

(** ** Requests that are well formed *)

Definition ttl_size (r : RequestNode) : nat := if rn_ts r =? 0 then 0 else 8.

(** A put of [value]. *)
Record PutOk (r : RequestNode) (value : list Z) : Prop := {
  po_size : value_size_ (rn_uv r) = Z.of_nat (length value);
  po_buf : exists tail, length tail = S (ttl_size r) /\ bytes_ok tail /\ prefix (value ++ rn_key r ++ tail) (buf_ (rn_uv r));
  po_bytes : bytes_ok value /\ bytes_ok (rn_key r);
  po_key : Z.of_nat (length (rn_key r)) < 2048;
  po_fits : Z.of_nat (length value) + Z.of_nat (length (rn_key r)) + 26 <= kMaxInternalValueSize;
  po_ttl : rn_ts r <> 0 -> TtlIsEnabled (rn_col r) = true;
}.

Definition RequestOk (r : RequestNode) : Prop := match rn_type r with kPutType => exists value, PutOk r value | kDelType => True end.

(** ** The layout *)

Definition sizes_word (r : RequestNode) : Z := value_size_ (rn_uv r) * 2048 + Z.of_nat (length (rn_key r)).
Definition payload (r : RequestNode) : list Z :=
  take (Z.to_nat (value_size_ (rn_uv r)) + length (rn_key r) + 1 + ttl_size r) (buf_ (rn_uv r)).
Definition kv_bytes (r : RequestNode) : list Z := if is_put r then EncodeVarint32 (sizes_word r) ++ payload r else [].
Definition kv_all (rs : list RequestNode) : list Z := concat (map kv_bytes rs).

Definition offset_word (r : RequestNode) (pos : nat) : Z := Z.of_nat pos + if rn_ts r =? 0 then 0 else 2 ^ 31.

Fixpoint table (pos : nat) (rs : list RequestNode) : list Z :=
  match rs with
  | [] => []
  | r :: rs => if is_put r then le_bytes 4 (offset_word r pos) ++ table (pos + length (kv_bytes r)) rs else table pos rs
  end.

(** The offsets the column nodes are given. *)
Fixpoint numbers (p d : nat) (rs : list RequestNode) : list Z :=
  match rs with
  | [] => []
  | r :: rs => if is_put r then Z.of_nat p :: numbers (S p) d rs else Z.of_nat d :: numbers p (S d) rs
  end.

Lemma is_put_type r : rn_type r = if is_put r then kPutType else kDelType.
Proof. unfold is_put. by destruct (rn_type r). Qed.

Lemma kv_all_cons r rs : kv_all (r :: rs) = kv_bytes r ++ kv_all rs.
Proof. done. Qed.

Lemma length_table pos rs : length (table pos rs) = (4 * nputs rs)%nat.
Proof.
  revert pos. induction rs as [|r rs IH]; intros pos; [done|]. cbn [table nputs]. destruct (is_put r); [|by rewrite IH].
  rewrite length_app, length_le_bytes, IH. lia.
Qed.

Lemma table_app pos rs1 rs2 : table pos (rs1 ++ rs2) = table pos rs1 ++ table (pos + length (kv_all rs1)) rs2.
Proof.
  revert pos. induction rs1 as [|r rs1 IH]; intros pos; cbn [table app]; [by rewrite Nat.add_0_r|]. rewrite kv_all_cons, length_app.
  destruct (is_put r) eqn:E.
  - rewrite IH, <- app_assoc. do 3 f_equal. lia.
  - assert (kv_bytes r = []) as -> by (unfold kv_bytes; by rewrite E). apply IH.
Qed.

Lemma kv_all_app rs1 rs2 : kv_all (rs1 ++ rs2) = kv_all rs1 ++ kv_all rs2.
Proof. unfold kv_all. by rewrite map_app, concat_app. Qed.

Lemma nputs_app rs1 rs2 : nputs (rs1 ++ rs2) = (nputs rs1 + nputs rs2)%nat.
Proof. induction rs1 as [|r rs1 IH]; [done|]. cbn [nputs app]. rewrite IH. lia. Qed.

Lemma numbers_lookup rs : forall p d j r o, rs !! j = Some r -> is_put r = true -> numbers p d rs !! j = Some o ->
  exists rs1 rs2, rs = rs1 ++ r :: rs2 /\ o = Z.of_nat (p + nputs rs1).
Proof.
  induction rs as [|x rs IH]; intros p d j r o Hj Hp Ho; [done|]. cbn [numbers] in Ho. destruct j as [|j].
  - injection Hj as ->. rewrite Hp in Ho. injection Ho as <-. exists [], rs. split; [done|]. cbn. lia.
  - destruct (is_put x) eqn:E; (apply (IH _ _ _ _ _ Hj Hp) in Ho as (rs1 & rs2 & -> & ->); exists (x :: rs1), rs2; split; [done|]; cbn [nputs]; rewrite E; lia).
Qed.

Lemma length_numbers p d rs : length (numbers p d rs) = length rs.
Proof. revert p d. induction rs as [|r rs IH]; intros p d; [done|]. cbn [numbers]. destruct (is_put r); cbn [length]; by rewrite IH. Qed.

(** ** Facts about one put *)

Lemma sizes_word_range r value : PutOk r value -> 0 <= sizes_word r < 2 ^ 32.
Proof. intros Hr. pose proof (po_size _ _ Hr). pose proof (po_fits _ _ Hr). pose proof (po_key _ _ Hr). unfold sizes_word, kMaxInternalValueSize in *. lia. Qed.

Lemma payload_eq r value : PutOk r value -> exists tail, payload r = value ++ rn_key r ++ tail /\ length tail = S (ttl_size r) /\ bytes_ok tail.
Proof.
  intros Hr. destruct (po_buf _ _ Hr) as (tail & Hl & Hb & [k E]). exists tail. split; [|done]. unfold payload. rewrite E, (po_size _ _ Hr).
  apply take_app_exact. rewrite !length_app, Hl. lia.
Qed.

Lemma layout_bytes_ok rs : Forall RequestOk rs -> bytes_ok (table (4 * (nputs rs + 1)) rs) /\ bytes_ok (kv_all rs).
Proof.
  intros Hok. split.
  - generalize (4 * (nputs rs + 1))%nat. clear Hok. induction rs as [|r rs IH]; intros pos; cbn [table]; [constructor|]. destruct (is_put r); [|apply IH].
    apply Forall_app. split; [apply le_bytes_ok|apply IH].
  - induction Hok as [|r rs Hr Hok IH]; [constructor|]. rewrite kv_all_cons. apply Forall_app. split; [|done]. unfold RequestOk in Hr. rewrite is_put_type in Hr.
    unfold kv_bytes. destruct (is_put r); [|constructor]. destruct Hr as [value Hr]. pose proof (sizes_word_range _ _ Hr). destruct (payload_eq _ _ Hr) as (tail & -> & _ & Ht).
    destruct (po_bytes _ _ Hr). unfold bytes_ok. rewrite !Forall_app. split_and!; try done. rewrite EncodeVarint32_64 by done. apply EncodeVarint64_bytes_ok. lia.
Qed.

Lemma length_payload r value : PutOk r value -> length (payload r) = (length value + length (rn_key r) + 1 + ttl_size r)%nat.
Proof. intros (tail & -> & Hl & _)%payload_eq. rewrite !length_app, Hl. lia. Qed.

Lemma length_kv r value : PutOk r value -> is_put r = true ->
  (length (kv_bytes r) <= length value + length (rn_key r) + 6 + ttl_size r)%nat.
Proof.
  intros Hr Hp. unfold kv_bytes. rewrite Hp, length_app, (length_payload _ _ Hr). pose proof (sizes_word_range _ _ Hr).
  rewrite EncodeVarint32_64 by done. pose proof (length_EncodeVarint64 (sizes_word r) 5). change (2 ^ (7 * Z.of_nat 5)) with (2 ^ 35) in *. lia.
Qed.

(** ** Building *)

Abbreviation at_ T M D R p d := {| bd_buf := T ++ M ++ D ++ R; bd_offset := length T; bd_kv := length T + length M + length D; bd_puts := Z.of_nat p; bd_dels := Z.of_nat d |}.

Lemma offset_word_lor r pos : Z.of_nat pos < 2 ^ 31 ->
  (if rn_ts r =? 0 then Z.of_nat pos else u32 (Z.of_nat pos) |: u32 (1 << KEYBLOCK_TTL_SHIFT)) = offset_word r pos.
Proof.
  intros Hp. unfold offset_word. destruct (rn_ts r =? 0); [lia|]. change (u32 (1 << KEYBLOCK_TTL_SHIFT)) with (1 << 31).
  unfold u32. rewrite wrap_small by lia. rewrite (lor_disjoint_add _ 1 31) by lia. lia.
Qed.

Lemma sizes_word_eq r value : PutOk r value ->
  u32 (u32 (value_size_ (rn_uv r) << KEYBLOCK_VALUE_SIZE_SHIFT) |: Z.of_nat (length (rn_key r))) = sizes_word r.
Proof.
  intros Hr. pose proof (sizes_word_range _ _ Hr) as Hs. pose proof (po_size _ _ Hr). pose proof (po_key _ _ Hr). unfold sizes_word in *.
  unfold KEYBLOCK_VALUE_SIZE_SHIFT. assert (u32 (value_size_ (rn_uv r) << 11) = value_size_ (rn_uv r) << 11) as ->.
  { apply wrap_small. rewrite Z.shiftl_mul_pow2 by lia. lia. }
  rewrite Z.lor_comm, lor_disjoint_add by lia. unfold u32. rewrite wrap_small; lia.
Qed.

Lemma data_size_eq r value : PutOk r value ->
  Z.to_nat (u32 (value_size_ (rn_uv r) + Z.of_nat (length (rn_key r)) + 1 + if rn_ts r =? 0 then 0 else 8)) = length (payload r).
Proof.
  intros Hr. rewrite (length_payload _ _ Hr). pose proof (po_size _ _ Hr) as Hsz. pose proof (po_key _ _ Hr). pose proof (po_fits _ _ Hr).
  unfold ttl_size, kMaxInternalValueSize in *. rewrite Hsz. unfold u32. destruct (rn_ts r =? 0); rewrite wrap_small; lia.
Qed.

Lemma payload_read r value : PutOk r value -> get_at (buf_ (rn_uv r)) 0 (length (payload r)) = Some (payload r).
Proof.
  intros Hr. destruct (po_buf _ _ Hr) as (tail & Hl & Hb & [k E]). assert (buf_ (rn_uv r) = payload r ++ k) as E2.
  { rewrite E. f_equal. unfold payload. rewrite E, (po_size _ _ Hr). symmetry. apply take_app_exact. rewrite !length_app, Hl. lia. }
  rewrite E2. by apply (get_at_eq _ _ _ [] _ k).
Qed.

Lemma build_put r value T m4 M D R p d : PutOk r value -> is_put r = true -> length m4 = 4%nat -> (length (kv_bytes r) <= length R)%nat ->
  Z.of_nat (length T + 4 + length M + length D) < 2 ^ 31 -> (p < 255)%nat ->
  build_one (at_ T (m4 ++ M) D R p d) r =
  Some (at_ (T ++ le_bytes 4 (offset_word r (length T + 4 + length M + length D))) M (D ++ kv_bytes r) (drop (length (kv_bytes r)) R) (S p) d, Z.of_nat p).
Proof.
  intros Hr Hput Hm HR Hpos Hp. set (pos := (length T + 4 + length M + length D)%nat) in *.
  assert ((length T + length (m4 ++ M) + length D)%nat = pos) as Epos by (rewrite length_app; unfold pos; lia).
  unfold build_one. cbn [bd_buf bd_offset bd_kv bd_puts bd_dels]. rewrite Epos, EncodeFixed32_le, is_put_type, Hput.
  rewrite (put_at_eq _ _ T m4 (M ++ D ++ R)) by (by rewrite <- ?app_assoc). cbn [mbind option_bind].
  rewrite (sizes_word_eq _ _ Hr), (data_size_eq _ _ Hr), (payload_read _ _ Hr). unfold kv_bytes in *. rewrite Hput in *. rewrite length_app in *.
  set (sz := EncodeVarint32 (sizes_word r)) in *.
  destruct (buffer_split R (length sz) (length (payload r))) as (R1 & R2 & R3 & -> & HR1 & HR2 & _); [lia|].
  rewrite (put_at_eq _ _ (T ++ le_bytes 4 (Z.of_nat pos) ++ M ++ D) R1 (R2 ++ R3)); [|by rewrite <- ?app_assoc|rewrite !length_app, length_le_bytes; unfold pos; lia|done].
  cbn [mbind option_bind].
  assert ((if rn_ts r =? 0 then Some ((T ++ le_bytes 4 (Z.of_nat pos) ++ M ++ D) ++ sz ++ R2 ++ R3)
    else v ← load32 ((T ++ le_bytes 4 (Z.of_nat pos) ++ M ++ D) ++ sz ++ R2 ++ R3) (length T);
         put_at ((T ++ le_bytes 4 (Z.of_nat pos) ++ M ++ D) ++ sz ++ R2 ++ R3) (length T) (native32 (v |: u32 (1 << KEYBLOCK_TTL_SHIFT)))) =
    Some (((T ++ le_bytes 4 (offset_word r pos)) ++ M ++ D ++ sz) ++ R2 ++ R3)) as ->.
  { rewrite <- (offset_word_lor r pos) by done. destruct (rn_ts r =? 0); [by rewrite <- !app_assoc|].
    rewrite <- !app_assoc. rewrite load32_app by done. cbn [mbind option_bind]. rewrite native32_le by done.
    rewrite (put_at_eq _ _ T (le_bytes 4 (Z.of_nat pos)) (M ++ D ++ sz ++ R2 ++ R3)) by done. by rewrite <- ?app_assoc. }
  cbn [mbind option_bind]. rewrite (put_at_eq _ _ ((T ++ le_bytes 4 (offset_word r pos)) ++ M ++ D ++ sz) R2 R3); [|done|rewrite !length_app, length_le_bytes; unfold pos; lia|done].
  cbn [mbind option_bind]. rewrite (app_assoc R1), drop_app_exact by (rewrite length_app; lia). do 2 f_equal. f_equal.
  - by rewrite <- ?app_assoc.
  - rewrite length_app, length_le_bytes. lia.
  - rewrite !length_app, length_le_bytes. unfold pos. lia.
  - unfold u8. rewrite wrap_small; lia.
Qed.

Lemma build_del r T m4 M D R p d : is_put r = false -> length m4 = 4%nat -> (d < 255)%nat ->
  exists m4', length m4' = 4%nat /\ build_one (at_ T (m4 ++ M) D R p d) r = Some (at_ T (m4' ++ M) D R p (S d), Z.of_nat d).
Proof.
  intros Hput Hm Hd. exists (le_bytes 4 (Z.of_nat (length T + length (m4 ++ M) + length D))). split; [done|].
  unfold build_one. cbn [bd_buf bd_offset bd_kv bd_puts bd_dels]. rewrite EncodeFixed32_le, is_put_type, Hput.
  rewrite (put_at_eq _ _ T m4 (M ++ D ++ R)) by (by rewrite <- ?app_assoc). cbn [mbind option_bind]. do 2 f_equal. f_equal.
  - rewrite !length_app, length_le_bytes. lia.
  - unfold u8. rewrite wrap_small; lia.
Qed.

Lemma build_loop_spec rs : forall T M D R p d, Forall RequestOk rs -> length M = (4 * (nputs rs + 1))%nat -> (length (kv_all rs) <= length R)%nat ->
  Z.of_nat (length T + length M + length D + length (kv_all rs)) < 2 ^ 31 -> (p + nputs rs < 255)%nat -> (d + ndels rs < 255)%nat ->
  exists M', length M' = 4%nat /\ build_loop (at_ T M D R p d) rs =
    Some (at_ (T ++ table (length T + length M + length D) rs) M' (D ++ kv_all rs) (drop (length (kv_all rs)) R) (p + nputs rs) (d + ndels rs), numbers p d rs).
Proof.
  induction rs as [|r rs IH]; intros T M D R p d Hok HM HR Hpos Hp Hd.
  { exists M. split; [done|]. cbn. by rewrite !app_nil_r, !Nat.add_0_r. }
  apply Forall_cons in Hok as [Hr Hok]. cbn [nputs ndels build_loop table numbers] in *. rewrite kv_all_cons, length_app in *.
  destruct M as [|b0 [|b1 [|b2 [|b3 M]]]]; try (cbn in HM; lia). change (b0 :: b1 :: b2 :: b3 :: M) with ([b0; b1; b2; b3] ++ M) in *.
  rewrite length_app in *. change (length [b0; b1; b2; b3]) with 4%nat in *. unfold RequestOk in Hr. rewrite is_put_type in Hr.
  destruct (is_put r) eqn:Hput.
  - destruct Hr as [value Hr]. rewrite (build_put r value) by (done || lia). cbn [mbind option_bind].
    destruct (IH (T ++ le_bytes 4 (offset_word r (length T + 4 + length M + length D))) M (D ++ kv_bytes r) (drop (length (kv_bytes r)) R) (S p) d) as (M' & HM' & E);
      [done|lia|rewrite length_drop; lia|rewrite !length_app, length_le_bytes; lia|lia|lia|].
    exists M'. split; [done|]. rewrite E. cbn [mbind option_bind]. rewrite !length_app, length_le_bytes, drop_drop.
    replace (length T + 4 + length M + (length D + length (kv_bytes r)))%nat with (length T + (4 + length M) + length D + length (kv_bytes r))%nat by lia.
    replace (length T + 4 + length M + length D)%nat with (length T + (4 + length M) + length D)%nat by lia.
    replace (S p + nputs rs)%nat with (p + (1 + nputs rs))%nat by lia. rewrite <- ?app_assoc. do 2 f_equal. f_equal; rewrite ?length_le_bytes; lia.
  - destruct (build_del r T [b0; b1; b2; b3] M D R p d) as (m4 & Hm4 & E); [done|done|lia|]. rewrite (length_app [b0; b1; b2; b3]) in E. change (length [b0; b1; b2; b3]) with 4%nat in E. rewrite E. cbn [mbind option_bind].
    assert (kv_bytes r = []) as Ekv by (unfold kv_bytes; by rewrite Hput). rewrite Ekv in *. cbn [app length] in *.
    destruct (IH T (m4 ++ M) D R p (S d)) as (M' & HM' & E'); [done|rewrite length_app; lia|lia|rewrite length_app; lia|lia|lia|].
    exists M'. split; [done|]. rewrite E'. cbn [mbind option_bind]. rewrite length_app, Hm4.
    by replace (S d + ndels rs)%nat with (d + (1 + ndels rs))%nat by lia.
Qed.

(** The block that the builder leaves: offsets, total size and entries. *)
Definition layout_of (rs : list RequestNode) : list Z :=
  let base := (4 * (nputs rs + 1))%nat in
  table base rs ++ le_bytes 4 (Z.of_nat (base + length (kv_all rs))) ++ kv_all rs.

Lemma BuildKeyBlock_spec rs put_cnt buf : Forall RequestOk rs -> put_cnt = Z.of_nat (nputs rs) -> (nputs rs < 255)%nat -> (ndels rs < 255)%nat ->
  (length (layout_of rs) <= length buf)%nat -> Z.of_nat (length (layout_of rs)) < 2 ^ 31 ->
  BuildKeyBlock rs put_cnt buf = Some (layout_of rs ++ drop (length (layout_of rs)) buf, Z.of_nat (length (layout_of rs)), numbers 0 0 rs).
Proof.
  intros Hok -> Hp Hd Hb Hs. assert (length (layout_of rs) = (4 * (nputs rs + 1) + length (kv_all rs))%nat) as El.
  { unfold layout_of. rewrite !length_app, length_table, length_le_bytes. lia. }
  rewrite El in *. unfold BuildKeyBlock. rewrite Nat2Z.id.
  destruct (buffer_split buf (4 * (nputs rs + 1)) (length (kv_all rs))) as (M & R1 & R2 & -> & HM & HR1 & _); [lia|].
  destruct (build_loop_spec rs [] M [] (R1 ++ R2) 0 0 Hok) as (M' & HM' & E); [done|rewrite length_app; lia|cbn; lia|lia|lia|].
  cbn [app length] in E. rewrite HM, Nat.add_0_r in E. cbn [Nat.add] in E. change (Z.of_nat 0) with 0 in E. rewrite E. cbn [mbind option_bind bd_buf bd_offset bd_kv].
  rewrite EncodeFixed32_le. rewrite length_table, HM'. assert (u32 (Z.of_nat (4 * nputs rs + 4 + length (kv_all rs))) = Z.of_nat (4 * (nputs rs + 1) + length (kv_all rs))) as ->
    by (unfold u32; rewrite wrap_small; lia).
  rewrite (put_at_eq _ _ (table (4 * (nputs rs + 1)) rs) M' (kv_all rs ++ drop (length (kv_all rs)) (R1 ++ R2))) by (done || by rewrite length_table).
  cbn [mbind option_bind]. do 3 f_equal. unfold layout_of. rewrite <- !app_assoc. do 3 f_equal.
  by rewrite <- drop_drop, (drop_app_exact M).
Qed.

(** ** Reading *)

Lemma DecodeFixed32_le_bytes e v rest : DecodeFixed32 e (le_bytes 4 v ++ rest) = Some (u32 v).
Proof. rewrite <- (EncodeFixed32_le e). apply DecodeFixed32_app. Qed.

Lemma offset_mask r pos : Z.of_nat pos < 2 ^ 31 -> u32 (offset_word r pos) & KEYBLOCK_OFFSET_MASK = Z.of_nat pos.
Proof.
  intros Hp. unfold offset_word, KEYBLOCK_OFFSET_MASK. change 0x7fffffff with (Z.ones 31). rewrite Z.land_ones by lia.
  unfold u32. destruct (rn_ts r =? 0); rewrite wrap_small by lia; [rewrite Z.add_0_r; apply Z.mod_small; lia|].
  replace (Z.of_nat pos + 2 ^ 31) with (Z.of_nat pos + 1 * 2 ^ 31) by lia. rewrite Z.mod_add by lia. apply Z.mod_small. lia.
Qed.

(** The word after an entry's offset says where the next entry begins. *)
Lemma next_word rs : forall q rest, Z.of_nat (q + length (kv_all rs)) < 2 ^ 31 ->
  exists w, DecodeFixed32 kLittleEndian (table q rs ++ le_bytes 4 (Z.of_nat (q + length (kv_all rs))) ++ rest) = Some w /\ w & KEYBLOCK_OFFSET_MASK = Z.of_nat q.
Proof.
  induction rs as [|r rs IH]; intros q rest Hq.
  - cbn [table app kv_all map concat length]. rewrite DecodeFixed32_le_bytes, Nat.add_0_r. eexists. split; [done|].
    pose proof (offset_mask {| rn_type := kPutType; rn_key := []; rn_col := 0; rn_uv := NewUserValue 0; rn_ts := 0 |} q) as Hm.
    unfold offset_word in Hm. cbn [rn_ts Z.eqb] in Hm. rewrite Z.add_0_r in Hm. apply Hm. cbn in Hq. lia.
  - rewrite kv_all_cons, length_app in *. cbn [table]. destruct (is_put r) eqn:Hput.
    + rewrite <- app_assoc, DecodeFixed32_le_bytes. eexists. split; [done|]. apply offset_mask. lia.
    + assert (kv_bytes r = []) as Ekv by (unfold kv_bytes; by rewrite Hput). rewrite Ekv in *. cbn [length Nat.add] in *. by apply IH.
Qed.

Lemma kb_entry_spec rs rs1 r rs2 value kb junk : rs = rs1 ++ r :: rs2 -> PutOk r value -> is_put r = true ->
  raw_data_ kb = layout_of rs ++ junk -> Z.of_nat (length (layout_of rs)) < 2 ^ 31 ->
  exists before after, raw_data_ kb = before ++ value ++ rn_key r ++ after /\ kb_entry kb (Z.of_nat (nputs rs1)) = Some (sizes_word r, length before).
Proof.
  intros -> Hr Hput Hraw Hs. set (base := (4 * (nputs (rs1 ++ r :: rs2) + 1))%nat). set (pos := (base + length (kv_all rs1))%nat).
  set (total := le_bytes 4 (Z.of_nat (base + length (kv_all (rs1 ++ r :: rs2))))).
  assert (raw_data_ kb = table base rs1 ++ le_bytes 4 (offset_word r pos) ++ table (pos + length (kv_bytes r)) rs2 ++ total ++ kv_all rs1 ++ kv_bytes r ++ kv_all rs2 ++ junk) as E.
  { rewrite Hraw. unfold layout_of. fold base total. rewrite table_app, kv_all_app, kv_all_cons. cbn [table]. rewrite Hput. fold pos. by rewrite <- !app_assoc. }
  assert (length (layout_of (rs1 ++ r :: rs2)) = (base + length (kv_all rs1) + length (kv_bytes r) + length (kv_all rs2))%nat) as El.
  { unfold layout_of. fold base total. rewrite !length_app, length_table, kv_all_app, kv_all_cons, !length_app. unfold total. rewrite length_le_bytes. unfold base. lia. }
  rewrite El in Hs. destruct (payload_eq _ _ Hr) as (tail & Epl & _).
  exists (table base rs1 ++ le_bytes 4 (offset_word r pos) ++ table (pos + length (kv_bytes r)) rs2 ++ total ++ kv_all rs1 ++ EncodeVarint32 (sizes_word r)), (tail ++ kv_all rs2 ++ junk).
  split. { rewrite E. unfold kv_bytes at 2. rewrite Hput, Epl. by rewrite <- !app_assoc. }
  unfold kb_entry. rewrite E, Nat2Z.id. rewrite (drop_app_exact (table base rs1) _ (4 * nputs rs1)) by apply length_table. rewrite DecodeFixed32_le_bytes. cbn [mbind option_bind].
  rewrite (app_assoc (table base rs1)), drop_app_exact by (rewrite length_app, length_table, length_le_bytes; lia).
  destruct (next_word rs2 (pos + length (kv_bytes r)) (kv_all rs1 ++ kv_bytes r ++ kv_all rs2 ++ junk)) as (w & Ew & Hw); [unfold pos; lia|].
  assert (total = le_bytes 4 (Z.of_nat (pos + length (kv_bytes r) + length (kv_all rs2)))) as Et.
  { unfold total, pos. rewrite kv_all_app, kv_all_cons, !length_app. do 2 f_equal. lia. }
  rewrite <- Et in Ew. rewrite Ew. cbn [mbind option_bind]. rewrite Hw, (offset_mask r pos) by (unfold pos; lia).
  assert (u32 (Z.of_nat (pos + length (kv_bytes r)) - Z.of_nat pos) = Z.of_nat (length (kv_bytes r))) as -> by (unfold u32; rewrite wrap_small; lia).
  rewrite !Nat2Z.id.
  rewrite (get_at_eq _ _ _ (table base rs1 ++ le_bytes 4 (offset_word r pos) ++ table (pos + length (kv_bytes r)) rs2 ++ total ++ kv_all rs1) (kv_bytes r) (kv_all rs2 ++ junk));
    [|by rewrite <- !app_assoc| |done].
  2: { unfold total. rewrite !length_app, !length_table, !length_le_bytes. unfold pos, base. rewrite nputs_app. cbn [nputs]. rewrite Hput. lia. }
  assert (kv_bytes r = EncodeVarint32 (sizes_word r) ++ payload r) as Ekv by (unfold kv_bytes; by rewrite Hput).
  cbn [mbind option_bind]. assert (GetVarint32 (kv_bytes r) = Some (sizes_word r, payload r)) as -> by (rewrite Ekv; apply GetVarint32_app; by eapply sizes_word_range).
  cbn [mbind option_bind]. do 2 f_equal. unfold total. rewrite !length_app, !length_table, !length_le_bytes. rewrite Ekv, length_app. unfold pos, base.
  rewrite nputs_app. cbn [nputs]. rewrite Hput. lia.
Qed.

Lemma sizes_word_parts r value : PutOk r value ->
  Z.to_nat (sizes_word r >> KEYBLOCK_VALUE_SIZE_SHIFT) = length value /\ Z.to_nat (sizes_word r & KEYBLOCK_KEY_SIZE_MASK) = length (rn_key r).
Proof.
  intros Hr. pose proof (po_size _ _ Hr) as Hsz. pose proof (po_key _ _ Hr). unfold sizes_word, KEYBLOCK_VALUE_SIZE_SHIFT, KEYBLOCK_KEY_SIZE_MASK. rewrite Hsz.
  change 0x7ff with (Z.ones 11). rewrite Z.shiftr_div_pow2, Z.land_ones by lia. change (2 ^ 11) with 2048.
  rewrite (Z.add_comm (_ * _)), Z.div_add, Z.mod_add, Z.div_small, Z.mod_small by lia. lia.
Qed.

(** The accessors find every put of a block. *)
Lemma read_back rs j r o value kb junk : rs !! j = Some r -> is_put r = true -> numbers 0 0 rs !! j = Some o -> PutOk r value ->
  raw_data_ kb = layout_of rs ++ junk -> Z.of_nat (length (layout_of rs)) < 2 ^ 31 ->
  GetValueFromKeyBlock kb o = Some value /\ GetKeyFromKeyBlock kb o = Some (rn_key r).
Proof.
  intros Hj Hput Ho Hr Hraw Hs. destruct (numbers_lookup _ _ _ _ _ _ Hj Hput Ho) as (rs1 & rs2 & E & ->). cbn [Nat.add].
  destruct (kb_entry_spec _ _ _ _ _ _ _ E Hr Hput Hraw Hs) as (before & after & Eraw & Ee). destruct (sizes_word_parts _ _ Hr) as [Ev Ek].
  unfold GetValueFromKeyBlock, GetKeyFromKeyBlock. rewrite Ee. cbn [mbind option_bind]. rewrite Ev, Ek, Eraw. split.
  - by apply (get_at_eq _ _ _ before _ (rn_key r ++ after)).
  - apply (get_at_eq _ _ _ (before ++ value) _ after); [by rewrite <- app_assoc|by rewrite length_app|done].
Qed.

End Layout.
