(* ===== verification/KeyBlockTheorems.v ===== *)
(** * Key blocks are read back

    From the clients' writes to the device and back: the worker's choice of requests
    fits in a block, and the values and keys of the block are those of the writes,
    in memory and after loading the block from the device. *)

From Stdlib Require Import ZArith Lia Bool.
From stdpp Require Import base list.
From S2P Require Import Prelude Coding Crc32c Buffers KeyBlock KeyBlockSpec.

(** ** User values *)

Definition UvOk (uv : UserValue) : Prop :=
  0 <= buf_size_ uv < 2 ^ 16 /\ length (buf_ uv) = Z.to_nat (32 * buf_size_ uv) /\ bytes_ok (buf_ uv).

Lemma align32 n : 0 <= n -> n + 32 <= 2 ^ 32 ->
  n <= Z.land (u32 (n + 0x1F)) 0xFFFFFFE0 < n + 32 /\ Z.land (u32 (n + 0x1F)) 0xFFFFFFE0 = 32 * Z.shiftr (Z.land (u32 (n + 0x1F)) 0xFFFFFFE0) 5.
Proof.
  intros H1 H2. split; [apply (SizeAlignment_spec 5 n); lia|]. rewrite Z.mul_comm. change 32 with (2 ^ 5). rewrite <- Z.shiftl_mul_pow2 by lia.
  apply bits_ext. intros i Hi. rewrite Z.shiftl_spec by lia. destruct (Z.ltb_spec i 5).
  - rewrite (Z.testbit_neg_r _ (i - 5)) by lia. rewrite Z.land_spec. assert (i = 0 \/ i = 1 \/ i = 2 \/ i = 3 \/ i = 4) as Hc by lia.
    destruct Hc as [->|[->|[->|[->| ->]]]]; apply andb_false_r.
  - rewrite Z.shiftr_spec by lia. f_equal. lia.
Qed.

(** ** The word before a stored block *)

Section Words.
  Local Open Scope cword_scope.

Lemma land_small_bit x n : 0 <= n -> 0 <= x < 2 ^ n -> x & 2 ^ n = 0.
Proof.
  intros Hn Hx. apply bits_ext. intros i Hi. rewrite Z.land_spec, Z.bits_0, Z.pow2_bits_eqb by done.
  destruct (Z.eqb_spec n i) as [->|]; [by rewrite (testbit_high x i i)|apply andb_false_r].
Qed.

Lemma plain_word puts size : 0 <= puts <= 32 -> 0 <= size < 2 ^ 24 -> let word := u32 (puts << KEYBLOCK_KEY_CNT_SHIFT) |: size in
  0 <= word < 2 ^ 32 /\ word & KEYBLOCK_KB_SIZE_MASK = size /\ word & KEYBLOCK_COMP_MASK = 0.
Proof.
  intros Hp Hs. unfold KEYBLOCK_KEY_CNT_SHIFT. assert (u32 (puts << 24) = puts << 24) as -> by (rewrite Z.shiftl_mul_pow2 by lia; apply wrap_small; lia).
  cbv zeta. rewrite Z.lor_comm, lor_disjoint_add by lia. split; [lia|]. split.
  - change KEYBLOCK_KB_SIZE_MASK with (Z.ones 24). rewrite Z.land_ones, Z.mod_add by lia. apply Z.mod_small. lia.
  - apply (land_small_bit _ 31); lia.
Qed.

Lemma compressed_word puts size : 0 <= puts <= 32 -> 0 <= size < 2 ^ 24 -> let word := u32 (u32 (puts << KEYBLOCK_KEY_CNT_SHIFT) |: (KEYBLOCK_COMP_MASK |: size)) in
  0 <= word < 2 ^ 32 /\ word & KEYBLOCK_KB_SIZE_MASK = size /\ word & KEYBLOCK_COMP_MASK <> 0.
Proof.
  intros Hp Hs. destruct (plain_word puts size Hp Hs) as (H1 & H2 & H3). cbv zeta.
  replace (u32 (puts << KEYBLOCK_KEY_CNT_SHIFT) |: (KEYBLOCK_COMP_MASK |: size)) with (KEYBLOCK_COMP_MASK |: (u32 (puts << KEYBLOCK_KEY_CNT_SHIFT) |: size))
    by (rewrite !Z.lor_assoc; f_equal; apply Z.lor_comm).
  set (w := u32 (puts << KEYBLOCK_KEY_CNT_SHIFT) |: size) in *.
  assert (0 <= KEYBLOCK_COMP_MASK |: w < 2 ^ 32) as Hw by (apply lor_range; unfold KEYBLOCK_COMP_MASK; lia).
  unfold u32. rewrite wrap_small by done. split; [done|]. rewrite !Z.land_lor_distr_l, H2, H3. split; [done|]. by vm_compute.
Qed.

End Words.

Section Theorems.
  Context `{Processor}.
  Hypothesis Hle : kLittleEndian = true.
  Variable TtlIsEnabled : Z -> bool.
  Local Open Scope cword_scope.

(** Four copies side by side. *)
Lemma put_parts (buf : list Z) (a b c e : list Z) : (length a + length b + length c + length e <= length buf)%nat ->
  (buf1 ← put_at buf 0 a; buf2 ← put_at buf1 (length a) b; buf3 ← put_at buf2 (length a + length b) c; put_at buf3 (length a + length b + length c) e) =
  Some (a ++ b ++ c ++ e ++ drop (length a + length b + length c + length e) buf).
Proof.
  intros Hl. destruct (buffer_split buf (length a) (length b)) as (x & y & z & -> & Hx & Hy & Hz); [lia|]. rewrite !length_app in Hl.
  destruct (buffer_split z (length c) (length e)) as (z1 & z2 & z3 & -> & Hz1 & Hz2 & _); [lia|].
  rewrite (put_at_eq _ _ [] x (y ++ z1 ++ z2 ++ z3)) by done. cbn [mbind option_bind app].
  rewrite (put_at_eq _ _ a y (z1 ++ z2 ++ z3)) by done. cbn [mbind option_bind].
  rewrite (put_at_eq _ _ (a ++ b) z1 (z2 ++ z3)); [|by rewrite <- app_assoc|by rewrite length_app|done]. cbn [mbind option_bind].
  rewrite (put_at_eq _ _ ((a ++ b) ++ c) z2 z3); [|by rewrite <- !app_assoc|by rewrite !length_app|done]. f_equal.
  rewrite <- !app_assoc. do 4 f_equal. rewrite !app_assoc, drop_app_exact; [done|]. rewrite !length_app. lia.
Qed.

Lemma InitUserValue_spec uv value key col_id ttl : UvOk uv -> Z.of_nat (length value) + Z.of_nat (length key) + 9 <= 2 ^ 21 - 32 ->
  bytes_ok value -> bytes_ok key -> byte_ok col_id ->
  exists uv' tail, InitUserValue uv value key col_id ttl = Some uv' /\ UvOk uv' /\ value_size_ uv' = Z.of_nat (length value) /\
    length tail = S (if ttl =? 0 then 0 else 8) /\ bytes_ok tail /\ prefix (value ++ key ++ tail) (buf_ uv').
Proof.
  intros (Hu1 & Hu2 & Hu3) Hsz Hv Hk Hc. unfold InitUserValue.
  assert (u32 (Z.of_nat (length value)) = Z.of_nat (length value)) as -> by (apply wrap_small; lia).
  set (e := if ttl =? 0 then [] else le_bytes 8 ttl). assert (length e = if ttl =? 0 then 0%nat else 8%nat) as He by (unfold e; by destruct (ttl =? 0)).
  set (n := Z.of_nat (length value) + Z.of_nat (length key) + 1 + (if ttl =? 0 then 0 else 8)).
  assert (n = Z.of_nat (length value + length key + 1 + length e)) as En by (unfold n; rewrite He; destruct (ttl =? 0); lia).
  assert (0 < n <= 2 ^ 21 - 32) as Hn by (unfold n; destruct (ttl =? 0); lia).
  assert (u32 n = n) as -> by (apply wrap_small; lia). destruct (align32 n) as [Ha1 Ha2]; [lia..|].
  set (sz := Z.land (u32 (n + 31)) 0xFFFFFFE0) in *. unfold UV_BUF_SIZE_SHIFT.
  assert (u32 (buf_size_ uv << 5) = 32 * buf_size_ uv) as -> by (rewrite Z.shiftl_mul_pow2 by lia; unfold u32; rewrite wrap_small; lia).
  assert (exists buf bs, (if 32 * buf_size_ uv <? n then (replicate (Z.to_nat sz) 0, u16 (sz >> 5)) else (buf_ uv, buf_size_ uv)) = (buf, bs) /\
    0 <= bs < 2 ^ 16 /\ length buf = Z.to_nat (32 * bs) /\ bytes_ok buf /\ n <= 32 * bs) as (buf & bs & -> & Hb1 & Hb2 & Hb3 & Hb4).
  { destruct (Z.ltb_spec (32 * buf_size_ uv) n); do 2 eexists; (split; [done|]); [|done]. assert (u16 (sz >> 5) = sz >> 5) as -> by (apply wrap_small; lia).
    rewrite length_replicate. split; [lia|]. split; [lia|]. split; [|lia]. apply Forall_replicate. unfold byte_ok. lia. }
  rewrite Nat2Z.id, take_ge by lia. pose proof (put_parts buf value key [col_id] e) as Hput. rewrite He in Hput. cbn [length] in Hput.
  assert ((if ttl =? 0 then 0%nat else 8%nat) = length e) as Hel by done.
  exists {| buf_ := value ++ key ++ [col_id] ++ e ++ drop (length value + length key + 1 + length e) buf; value_size_ := Z.of_nat (length value); buf_size_ := bs |}, ([col_id] ++ e).
  assert (bytes_ok e) as Hbe by (unfold e; destruct (ttl =? 0); [constructor|apply le_bytes_ok]).
  split.
  - rewrite Hel in Hput. specialize (Hput ltac:(lia)).
    destruct (put_at buf 0 value) as [b1|] eqn:E1; [|done]. cbn [mbind option_bind] in *. destruct (put_at b1 (length value) key) as [b2|] eqn:E2; [|done].
    cbn [mbind option_bind] in *. destruct (put_at b2 (length value + length key) [col_id]) as [b3|] eqn:E3; [|done]. cbn [mbind option_bind] in *.
    apply put_at_length in E1, E2, E3.
    assert ((if ttl =? 0 then Some b3 else put_at b3 (length value + length key + 1) (if kLittleEndian then le_bytes 8 ttl else rev (le_bytes 8 ttl))) =
      put_at b3 (length value + length key + 1) e) as ->.
    { unfold e. rewrite Hle. destruct (ttl =? 0); [|done]. rewrite put_at_nil; [done|lia]. }
    by rewrite Hput.
  - cbn [buf_ value_size_ buf_size_]. split; [|split; [done|split; [|split]]].
    + split; [done|]. cbn [buf_ buf_size_]. split; [rewrite !length_app, length_drop; cbn [length]; lia|]. unfold bytes_ok. rewrite !Forall_app. split_and!; try done; [by apply Forall_singleton|by apply Forall_drop].
    + rewrite length_app. cbn [length]. lia.
    + apply Forall_app. split; [by apply Forall_singleton|done].
    + exists (drop (length value + length key + 1 + length e) buf). by rewrite <- !app_assoc.
Qed.

(** ** The clients' writes *)

Record Write : Type := { w_type : RequestType; w_key : list Z; w_value : list Z; w_col : Z; w_ttl : Z; w_uv : UserValue }.

(** A key of less than 2048 bytes, a value that fits in a block of its own, and a
    user value from the allocator. *)
Definition WriteOk (w : Write) : Prop :=
  bytes_ok (w_key w) /\ bytes_ok (w_value w) /\ byte_ok (w_col w) /\ UvOk (w_uv w) /\ Z.of_nat (length (w_key w)) < 2048 /\
  Z.of_nat (length (w_value w)) + Z.of_nat (length (w_key w)) + 26 <= kMaxInternalValueSize.

Definition store (w : Write) : option RequestNode := StoreRequest TtlIsEnabled (w_uv w) (w_key w) (w_value w) (w_col w) (w_type w) (w_ttl w).

(** The request of a write. *)
Definition Stored (w : Write) (r : RequestNode) : Prop :=
  store w = Some r /\ rn_type r = w_type w /\ rn_key r = w_key w /\ (w_type w = kPutType -> PutOk TtlIsEnabled r (w_value w)).

Lemma store_write_spec w : WriteOk w -> exists r, Stored w r.
Proof.
  intros (Hk & Hv & Hc & Hu & Hkl & Hf). unfold Stored, store, StoreRequest. set (ts := if TtlIsEnabled (w_col w) then w_ttl w else 0).
  destruct (w_type w); [|by eexists].
  destruct (InitUserValue_spec (w_uv w) (w_value w) (w_key w) (w_col w) ts) as (uv & tail & E & _ & Hs & Hl & Hb & Hp); [done|unfold kMaxInternalValueSize in Hf; lia|done..|].
  rewrite E. eexists. do 3 (split; [done|]). intros _. split; cbn [rn_uv rn_key rn_ts rn_col]; try done.
  - exists tail. by split.
  - unfold ts. by destruct (TtlIsEnabled (w_col w)).
Qed.

Lemma Stored_ok w r : Stored w r -> RequestOk TtlIsEnabled r.
Proof. intros (_ & Ht & _ & Hp). unfold RequestOk. rewrite Ht. destruct (w_type w); [|done]. eexists. by apply Hp. Qed.

Lemma store_all ws : Forall WriteOk ws -> exists pending, mapM store ws = Some pending /\ Forall2 Stored ws pending.
Proof.
  induction 1 as [|w ws Hw _ (pending & E & IH)]; [by exists []|]. destruct (store_write_spec w Hw) as [r Hr]. exists (r :: pending).
  split; [|by constructor]. cbn [mapM]. destruct Hr as [-> _]. cbn [mbind option_bind]. by rewrite E.
Qed.

(** ** The choice of the worker *)

Definition cost (r : RequestNode) : Z :=
  if is_put r then value_size_ (rn_uv r) + Z.of_nat (length (rn_key r)) + 12 + (if TtlIsEnabled (rn_col r) then 8 else 0) else 0.
Fixpoint costs (rs : list RequestNode) : Z := match rs with [] => 0 | r :: rs => cost r + costs rs end.

Lemma cost_range r : RequestOk TtlIsEnabled r -> 0 <= cost r <= kMaxInternalValueSize - 6.
Proof.
  unfold RequestOk, cost. rewrite is_put_type. destruct (is_put r); [|unfold kMaxInternalValueSize; lia]. intros [value Hr].
  pose proof (po_size _ _ _ Hr). pose proof (po_fits _ _ _ Hr). destruct (TtlIsEnabled (rn_col r)); lia.
Qed.

Lemma collect_spec pending : Forall (RequestOk TtlIsEnabled) pending -> forall est p d submit, 6 <= est <= kMaxInternalValueSize -> (p < 32)%nat -> (d < 32)%nat ->
  (p = 0%nat -> d = 0%nat -> est = 6) -> exists taken rest,
  collect TtlIsEnabled pending est (Z.of_nat p) (Z.of_nat d) submit = (submit ++ taken, rest, est + costs taken, Z.of_nat (p + nputs taken), Z.of_nat (d + ndels taken)) /\
  pending = taken ++ rest /\ est + costs taken <= kMaxInternalValueSize /\ (p + nputs taken <= 32)%nat /\ (d + ndels taken <= 32)%nat /\
  (pending <> [] -> p = 0%nat -> d = 0%nat -> taken <> []).
Proof.
  induction 1 as [|r pending Hr Hok IH]; intros est p d submit Hest Hp Hd H0.
  { exists [], []. cbn. rewrite app_nil_r, !Nat.add_0_r, Z.add_0_r. split_and!; done || lia. }
  pose proof (cost_range r Hr) as Hc. cbn [collect]. set (iv := u32 (value_size_ (rn_uv r) + _ + _ + _)).
  assert (is_put r = true -> iv = cost r) as Hiv.
  { intros Hput. unfold cost in *. unfold iv, KEY_BLOCK_SIZE_APPENDIX, kMaxInternalValueSize in *. rewrite Hput in *. apply wrap_small. lia. }
  clearbody iv. rewrite is_put_type. unfold kMaxInternalValueSize in *.
  (* one request more *)
  assert (forall p' d', p' = (p + if is_put r then 1 else 0)%nat -> d' = (d + if is_put r then 0 else 1)%nat -> est + cost r <= 0x100000 ->
    exists taken rest, (if (Z.of_nat p' =? kMaxRequestPerKeyBlock) || (Z.of_nat d' =? kMaxRequestPerKeyBlock) then (submit ++ [r], pending, est + cost r, Z.of_nat p', Z.of_nat d')
      else collect TtlIsEnabled pending (est + cost r) (Z.of_nat p') (Z.of_nat d') (submit ++ [r])) =
      (submit ++ r :: taken, rest, est + costs (r :: taken), Z.of_nat (p + nputs (r :: taken)), Z.of_nat (d + ndels (r :: taken))) /\
      pending = taken ++ rest /\ est + costs (r :: taken) <= 0x100000 /\ (p + nputs (r :: taken) <= 32)%nat /\ (d + ndels (r :: taken) <= 32)%nat) as Hstep.
  { intros p' d' Ep Ed Hle'. cbn [costs nputs ndels]. unfold kMaxRequestPerKeyBlock. destruct ((Z.of_nat p' =? 32) || (Z.of_nat d' =? 32)) eqn:Efull.
    - exists [], pending. cbn [costs nputs ndels app]. rewrite !Z.add_0_r, !Nat.add_0_r, <- Ep, <- Ed. split_and!; try done; destruct (is_put r); lia.
    - apply orb_false_iff in Efull as [E1%Z.eqb_neq E2%Z.eqb_neq].
      destruct (IH (est + cost r) p' d' (submit ++ [r])) as (taken & rest & E & Hrest & H1 & H2 & H3 & _);
        [lia|destruct (is_put r); lia|destruct (is_put r); lia|destruct (is_put r); lia|].
      exists taken, rest. rewrite E, <- app_assoc. cbn [app]. split; [|split_and!; [done|lia|destruct (is_put r); lia..]].
      rewrite Z.add_assoc. by replace (p + ((if is_put r then 1 else 0) + nputs taken))%nat with (p' + nputs taken)%nat by lia;
        replace (d + ((if is_put r then 0 else 1) + ndels taken))%nat with (d' + ndels taken)%nat by lia. }
  destruct (is_put r) eqn:Hput.
  - rewrite (Hiv eq_refl) in *. rewrite bool_decide_true by done. cbn [andb].
    assert (u32 (est + cost r) = est + cost r) as -> by (apply wrap_small; lia).
    destruct (Z.ltb_spec 0x100000 (est + cost r)) as [Hbig|Hsm]; cbn [andb].
    + destruct (Z.eqb_spec (Z.of_nat p) 0), (Z.eqb_spec (Z.of_nat d) 0); cbn [negb orb].
      1: { exfalso. specialize (H0 ltac:(lia) ltac:(lia)). lia. }
      all: exists [], (r :: pending); cbn [costs nputs ndels app]; rewrite app_nil_r, !Nat.add_0_r, Z.add_0_r; split_and!; try done || lia;
        unfold u32; rewrite wrap_small by lia; by rewrite Z.add_simpl_r.
    + assert (u8 (Z.of_nat p + 1) = Z.of_nat (p + 1)) as -> by (unfold u8; rewrite wrap_small; lia).
      destruct (Hstep (p + 1)%nat d) as (taken & rest & -> & -> & H1 & H2 & H3); [lia|lia|lia|]. exists (r :: taken), rest. by split_and!.
  - cbn [andb]. rewrite bool_decide_false by done. cbn [andb]. assert (cost r = 0) as Ec by (unfold cost; by rewrite Hput). rewrite Ec, Z.add_0_r in Hstep.
    assert (u8 (Z.of_nat d + 1) = Z.of_nat (d + 1)) as -> by (unfold u8; rewrite wrap_small; lia).
    destruct (Hstep p (d + 1)%nat) as (taken & rest & -> & -> & H1 & H2 & H3); [lia|lia|lia|]. exists (r :: taken), rest. by split_and!.
Qed.

(** A block is shorter than the estimate. *)
Lemma layout_fits rs : Forall (RequestOk TtlIsEnabled) rs -> Z.of_nat (length (layout_of rs)) <= 4 + costs rs /\ 0 <= costs rs.
Proof.
  intros Hok. assert (Z.of_nat (length (kv_all rs)) + 4 * Z.of_nat (nputs rs) <= costs rs) as Hc.
  { induction Hok as [|r rs Hr Hok IH]; [done|]. rewrite kv_all_cons, length_app. cbn [nputs costs]. unfold RequestOk in Hr. rewrite is_put_type in Hr.
    unfold cost. destruct (is_put r) eqn:Hput.
    - destruct Hr as [value Hr]. pose proof (length_kv _ _ _ Hr Hput) as Hl. rewrite (po_size _ _ _ Hr). pose proof (po_ttl _ _ _ Hr) as Ht.
      unfold ttl_size in Hl. destruct (Z.eqb_spec (rn_ts r) 0); [destruct (TtlIsEnabled (rn_col r)); lia|]. rewrite Ht by done. lia.
    - assert (kv_bytes r = []) as -> by (unfold kv_bytes; by rewrite Hput). cbn [length]. lia. }
  unfold layout_of. rewrite !length_app, length_table, length_le_bytes. lia.
Qed.

(** ** Storing and loading *)

Context `{RawMalloc} `{SnappyLaws}.
Variable k : Z.
Hypothesis Hk : 0 <= k <= 12.
Local Abbreviation align := (2 ^ k).

Lemma align_spec size : 0 <= size <= 2 ^ 22 -> size <= SizeAlignment align size < size + align /\ 0 < align <= 4096.
Proof.
  intros Hs. assert (0 < align <= 4096) as Ha.
  { split; [lia|]. change 4096 with (2 ^ 12). apply Z.pow_le_mono_r; lia. }
  split; [|done]. apply SizeAlignment_spec; lia.
Qed.

(** What is stored for the bytes [data]. *)
Definition StoredAs (data slice : list Z) (size : Z) : Prop := exists word body pad,
  slice = le_bytes 4 (Mask (crc32c 0 (le_bytes 4 word ++ body))) ++ le_bytes 4 word ++ body ++ pad /\
  size = Z.of_nat (8 + length body) /\ Z.of_nat (length slice) = SizeAlignment align size /\
  0 <= word < 2 ^ 32 /\ word & KEYBLOCK_KB_SIZE_MASK = Z.of_nat (length body) /\ Z.of_nat (length body) <= 2 ^ 20 /\ bytes_ok body /\
  (word & KEYBLOCK_COMP_MASK <> 0 /\ body = RawCompress data \/ word & KEYBLOCK_COMP_MASK = 0 /\ body = data).

(** The end of [DeviceFormat], once the block is in the buffer. *)
Lemma seal_spec address data word body x rest : length x = 8%nat -> 0 <= word < 2 ^ 32 -> word & KEYBLOCK_KB_SIZE_MASK = Z.of_nat (length body) -> bytes_ok body ->
  (word & KEYBLOCK_COMP_MASK <> 0 /\ body = RawCompress data \/ word & KEYBLOCK_COMP_MASK = 0 /\ body = data) ->
  Z.of_nat (length body) <= 2 ^ 20 -> (4096 <= length rest)%nat ->
  exists slice, (buf ← put_at (x ++ body ++ rest) 4 (native32 word);
    covered ← get_at buf 4 (Z.to_nat ((word & KEYBLOCK_KB_SIZE_MASK) + 4));
    crc ← Value (address + 4) covered;
    buf ← put_at buf 0 (EncodeFixed32 kLittleEndian (Mask crc));
    let ivalue_size := u32 (Z.of_nat (length body) + 8) in
    slice ← get_at buf 0 (Z.to_nat (SizeAlignment align ivalue_size));
    Some (slice, ivalue_size)) = Some (slice, Z.of_nat (8 + length body)) /\ StoredAs data slice (Z.of_nat (8 + length body)).
Proof.
  intros Hx Hw Hm Hb Hcase Hsz Hrest. destruct (buffer_split x 4 4) as (x1 & x2 & x3 & -> & Hx1 & Hx2 & Hx3); [lia|].
  rewrite Hx in Hx3. destruct x3; [|done]. rewrite native32_le by done. rewrite (put_at_eq _ _ x1 x2 (body ++ rest)); [|by rewrite <- !app_assoc|done|done].
  cbn [mbind option_bind]. rewrite Hm. replace (Z.to_nat (Z.of_nat (length body) + 4)) with (length (le_bytes 4 word ++ body)) by (rewrite length_app, length_le_bytes; lia).
  rewrite (get_at_eq _ _ _ x1 (le_bytes 4 word ++ body) rest); [|by rewrite <- !app_assoc|done|done]. cbn [mbind option_bind].
  assert (bytes_ok (le_bytes 4 word ++ body)) as Hcov by (apply Forall_app; split; [apply le_bytes_ok|done]).
  unfold Value. rewrite Extend_spec by (done || lia). cbn [mbind option_bind]. rewrite EncodeFixed32_le. set (crc := crc32c 0 (le_bytes 4 word ++ body)).
  rewrite (put_at_eq _ _ [] x1 (le_bytes 4 word ++ body ++ rest)) by done. cbn [mbind option_bind app]. cbv zeta.
  assert (u32 (Z.of_nat (length body) + 8) = Z.of_nat (8 + length body)) as -> by (unfold u32; rewrite wrap_small; lia).
  destruct (align_spec (Z.of_nat (8 + length body))) as [Ha Hal]; [lia|]. set (sz := SizeAlignment align (Z.of_nat (8 + length body))) in *.
  destruct (buffer_split rest 0 (Z.to_nat sz - (8 + length body))) as (r0 & pad & r1 & -> & Hr0 & Hpad & _); [lia|]. destruct r0; [|done]. cbn [app].
  exists (le_bytes 4 (Mask crc) ++ le_bytes 4 word ++ body ++ pad). rewrite (get_at_eq _ _ _ [] (le_bytes 4 (Mask crc) ++ le_bytes 4 word ++ body ++ pad) r1);
    [|cbn [app]; by rewrite <- !app_assoc|done|rewrite !length_app, !length_le_bytes; lia].
  cbn [mbind option_bind]. split; [done|]. exists word, body, pad. split_and!; try done || lia.
  rewrite !length_app, !length_le_bytes. fold sz. lia.
Qed.

Lemma DeviceFormat_spec snappy_option address dev data junk put_cnt : 0 <= put_cnt <= 32 -> bytes_ok data -> (0 < length data)%nat -> Z.of_nat (length data) <= 2 ^ 20 ->
  Z.of_nat (length dev) = kDeviceRquestMaxSize -> exists slice size,
  DeviceFormat snappy_option align address dev (data ++ junk) put_cnt (Z.of_nat (length data)) = Some (slice, size) /\ StoredAs data slice size.
Proof.
  intros Hp Hd Hd0 Hn Hdev. unfold kDeviceRquestMaxSize in Hdev. unfold DeviceFormat. rewrite Nat2Z.id.
  rewrite (get_at_eq _ _ _ [] data junk) by done. cbn [mbind option_bind].
  assert (forall buf, length buf = length dev -> exists slice size, ('(buf, word, ivalue_size) ← (buf ← put_at buf 8 data;
      Some (buf, u32 (put_cnt << KEYBLOCK_KEY_CNT_SHIFT) |: Z.of_nat (length data), Z.of_nat (length data)));
    buf ← put_at buf 4 (native32 word); covered ← get_at buf 4 (Z.to_nat ((word & KEYBLOCK_KB_SIZE_MASK) + 4)); crc ← Value (address + 4) covered;
    buf ← put_at buf 0 (EncodeFixed32 kLittleEndian (Mask crc)); let ivalue_size := u32 (ivalue_size + 8) in
    slice ← get_at buf 0 (Z.to_nat (SizeAlignment align ivalue_size)); Some (slice, ivalue_size)) = Some (slice, size) /\ StoredAs data slice size) as Hplain.
  { intros buf Hbuf. destruct (plain_word put_cnt (Z.of_nat (length data))) as (Hw1 & Hw2 & Hw3); [lia|lia|].
    destruct (buffer_split buf 8 (length data)) as (x & y & rest & -> & Hx & Hy & Hrest); [lia|]. rewrite (put_at_eq _ _ x y rest) by done. cbn [mbind option_bind].
    destruct (seal_spec address data _ data x rest Hx Hw1 Hw2 Hd) as (slice & E & Hs); [by right|lia|lia|].
    do 2 eexists. split; [exact E|exact Hs]. }
  destruct snappy_option; [|by apply Hplain]. set (out := RawCompress data). pose proof (compress_bound data) as Hcb. fold out in Hcb.
  assert (Z.of_nat (length data) / 6 <= 200000) by (apply Z.div_le_upper_bound; lia).
  destruct (buffer_split dev 8 (length out)) as (x & y & rest & -> & Hx & Hy & Hrest); [lia|]. rewrite (put_at_eq _ _ x y rest) by done. cbn [mbind option_bind].
  destruct (Z.ltb_spec (Z.of_nat (length out)) (Z.of_nat (length data) - Z.of_nat (length data) / 8)) as [Hsm|Hbig].
  - cbn [mbind option_bind]. assert (0 <= Z.of_nat (length data) / 8) by (apply Z.div_pos; lia).
    destruct (compressed_word put_cnt (Z.of_nat (length out))) as (Hw1 & Hw2 & Hw3); [lia|lia|].
    assert (u32 (Z.of_nat (length out)) = Z.of_nat (length out)) as -> by (unfold u32; rewrite wrap_small; lia).
    destruct (seal_spec address data _ out x rest Hx Hw1 Hw2) as (slice & E & Hs); [by apply compress_ok|by left|lia|lia|].
    do 2 eexists. split; [exact E|exact Hs].
  - apply Hplain. rewrite !length_app. lia.
Qed.

Definition KbOk (kb : KeyBlock) : Prop := 0 <= raw_data_size_ kb /\ length (raw_data_ kb) = Z.to_nat (raw_data_size_ kb).

Lemma KbInit_spec kb size : KbOk kb -> 0 < size <= 2 ^ 22 -> KbOk (KbInit align kb size) /\ size <= Z.of_nat (length (raw_data_ (KbInit align kb size))).
Proof.
  intros [Hk1 Hk2] Hs. destruct (align_spec size) as [Ha _]; [lia|]. unfold KbInit, KbOk.
  destruct (Z.eqb_spec (raw_data_size_ kb) 0) as [E|E]; cbn [negb].
  - destruct (Z.eqb_spec size 0); [lia|]. cbn [negb raw_data_ raw_data_size_]. rewrite raw_malloc_length by lia. lia.
  - destruct (Z.ltb_spec (raw_data_size_ kb) (SizeAlignment align size)); cbn [raw_data_ raw_data_size_]; rewrite ?raw_malloc_length by lia; lia.
Qed.

Lemma LoadValue_spec `{ReliableEnv D} (d : D) address io_buf kb seq data slice size : StoredAs data slice size -> KbOk kb -> (0 < length data)%nat -> Z.of_nat (length data) <= 2 ^ 20 ->
  Z.of_nat (length io_buf) = kDeviceRquestMaxSize -> exists kb' junk, LoadValue (EnvPut d seq slice) align address io_buf kb seq size = Some kb' /\ raw_data_ kb' = data ++ junk.
Proof.
  intros (word & body & pad & Es & Esz & Hlen & Hw & Hm & Hbl & Hb & Hcase) Hkb Hd0 Hd Hio. unfold kDeviceRquestMaxSize in Hio. unfold LoadValue.
  rewrite get_put. cbn [mbind option_bind]. rewrite take_ge by lia.
  destruct (align_spec size) as [Ha Hal]; [lia|]. rewrite <- Hlen in *.
  destruct (buffer_split io_buf 0 (length slice)) as (x0 & x & rest & -> & Hx0 & Hx & Hrest); [lia|]. destruct x0; [|done]. cbn [app] in *.
  rewrite (put_at_eq _ _ [] x rest) by done. cbn [mbind option_bind app]. set (crc := crc32c 0 (le_bytes 4 word ++ body)) in *.
  assert (bytes_ok (le_bytes 4 word ++ body)) as Hcov by (apply Forall_app; split; [apply le_bytes_ok|done]).
  assert (0 <= crc < 2 ^ 32) as Hcrc by (apply crc32c_range; done || lia).
  rewrite Es, <- !app_assoc, DecodeFixed32_le_bytes. cbn [mbind option_bind].
  assert (u32 (Mask crc) = Mask crc) as -> by apply wrap_small, Mask_range. rewrite Unmask_Mask by done.
  pose proof (load32_app (le_bytes 4 (Mask crc)) word (body ++ pad ++ rest) Hle) as El. rewrite length_le_bytes in El. rewrite El. cbn [mbind option_bind].
  assert (u32 word = word) as -> by by apply wrap_small. rewrite Hm, Nat2Z.id.
  rewrite (get_at_eq _ 4 _ (le_bytes 4 (Mask crc)) (le_bytes 4 word ++ body) (pad ++ rest));
    [|by rewrite <- !app_assoc|by rewrite length_le_bytes|rewrite length_app, length_le_bytes; lia]. cbn [mbind option_bind].
  unfold Value. rewrite Extend_spec by (done || lia). cbn [mbind option_bind]. fold crc. rewrite Z.eqb_refl. cbn [negb].
  destruct Hcase as [[Hc Hbody]|[Hc Hbody]].
  - destruct (Z.eqb_spec (word & KEYBLOCK_COMP_MASK) 0); [done|]. cbn [negb].
    rewrite (get_at_eq _ _ _ (le_bytes 4 (Mask crc) ++ le_bytes 4 word) body (pad ++ rest)); [|by rewrite <- !app_assoc|by rewrite length_app, !length_le_bytes|done].
    cbn [mbind option_bind]. rewrite Hbody, compress_length. cbn [mbind option_bind]. rewrite compress_roundtrip. cbn [mbind option_bind].
    destruct (KbInit_spec kb (Z.of_nat (length data)) Hkb) as [_ Hcap]; [lia|].
    destruct (buffer_split (raw_data_ (KbInit align kb (Z.of_nat (length data)))) 0 (length data)) as (y0 & y & junk & E & Hy0 & Hy & _); [lia|].
    destruct y0; [|done]. rewrite (put_at_eq _ _ [] y junk) by done. by do 2 eexists.
  - rewrite Hc. cbn [Z.eqb negb].
    destruct (buffer_split (pad ++ rest) 0 8) as (p0 & tail & p1 & Ep & Hp0 & Hp & _); [rewrite length_app in Hio |- *; lia|]. destruct p0; [|done]. cbn [app] in Ep.
    rewrite (get_at_eq _ _ _ (le_bytes 4 (Mask crc) ++ le_bytes 4 word) (body ++ tail) p1); [|rewrite Ep; by rewrite <- !app_assoc|by rewrite length_app, !length_le_bytes|rewrite length_app; lia].
    cbn [mbind option_bind]. destruct (KbInit_spec kb size Hkb) as [_ Hcap]; [lia|].
    destruct (buffer_split (raw_data_ (KbInit align kb size)) 0 (length (body ++ tail))) as (y0 & y & junk & E & Hy0 & Hy & _); [rewrite length_app; lia|].
    destruct y0; [|done]. rewrite (put_at_eq _ _ [] y junk) by done. cbn [mbind option_bind app]. do 2 eexists. split; [done|].
    cbn [raw_data_]. rewrite Hbody. by rewrite <- app_assoc.
Qed.

(** ** A round *)

Lemma WorkerCollect_spec pending : Forall (RequestOk TtlIsEnabled) pending -> exists submit rest est,
  WorkerCollect TtlIsEnabled align pending = (submit, rest, est, Z.of_nat (nputs submit), Z.of_nat (ndels submit)) /\ pending = submit ++ rest /\
  (pending <> [] -> submit <> []) /\ (nputs submit <= 32)%nat /\ (ndels submit <= 32)%nat /\ 4 + costs submit < est <= 2 ^ 21 /\ costs submit + 6 <= 2 ^ 20.
Proof.
  intros Hok. destruct (collect_spec pending Hok 6 0 0 []) as (submit & rest & E & Hp & Hc & H1' & H2' & Hne); [unfold kMaxInternalValueSize; lia|lia..|].
  cbn [Nat.add app] in *. change (Z.of_nat 0) with 0 in E. unfold kMaxInternalValueSize in Hc.
  assert (Forall (RequestOk TtlIsEnabled) submit) as Hs by (rewrite Hp in Hok; by apply Forall_app in Hok as [? _]).
  destruct (layout_fits submit Hs) as [_ H0']. unfold WorkerCollect. change (2 + KEY_BLOCK_TOTAL_SIZE) with 6. rewrite E.
  assert (u32 (6 + costs submit + 4) = 6 + costs submit + 4) as -> by (apply wrap_small; lia).
  destruct (align_spec (6 + costs submit + 4)) as [Ha Hal]; [lia|]. do 3 eexists. split; [done|]. split; [done|]. split; [by auto|].
  split_and!; try lia; destruct (_ mod align =? 0); lia.
Qed.

Lemma WorkerRound_spec `{ReliableEnv D} (d : D) snappy_option address dev kb seq pending : Forall (RequestOk TtlIsEnabled) pending -> KbOk kb ->
  Z.of_nat (length dev) = kDeviceRquestMaxSize -> exists rd, WorkerRound d TtlIsEnabled snappy_option align address dev kb seq pending = Some rd /\
  pending = rd_submit rd ++ rd_rest rd /\ (pending <> [] -> rd_submit rd <> []) /\ Z.of_nat (length (layout_of (rd_submit rd))) <= 2 ^ 20 /\
  (nputs (rd_submit rd) = 0%nat \/ exists kb' junk slice, rd_kb rd = Some kb' /\ raw_data_ kb' = layout_of (rd_submit rd) ++ junk /\
    rd_offsets rd = numbers 0 0 (rd_submit rd) /\ rd_device rd = EnvPut d seq slice /\ StoredAs (layout_of (rd_submit rd)) slice (rd_ivalue_size rd)).
Proof.
  intros Hok Hkb Hdev. destruct (WorkerCollect_spec pending Hok) as (submit & rest & est & E & Hp & Hne & Hputs & Hdels & Hest & Hc).
  assert (Forall (RequestOk TtlIsEnabled) submit) as Hs by (rewrite Hp in Hok; by apply Forall_app in Hok as [? _]).
  destruct (layout_fits submit Hs) as [Hl Hc0]. unfold WorkerRound. rewrite E. destruct (Z.eqb_spec (Z.of_nat (nputs submit)) 0) as [Hz|Hz].
  { eexists. split; [done|]. cbn [rd_submit rd_rest]. split_and!; try done || lia. }
  destruct (KbInit_spec kb est Hkb) as [_ Hcap]; [lia|]. rewrite BuildKeyBlock_spec with (TtlIsEnabled := TtlIsEnabled) by (done || lia). cbn [mbind option_bind].
  assert (bytes_ok (layout_of submit) /\ (0 < length (layout_of submit))%nat) as [Hb Hpos].
  { destruct (layout_bytes_ok TtlIsEnabled submit Hs). unfold layout_of, bytes_ok. rewrite !Forall_app, !length_app, length_le_bytes. split; [|lia].
    split_and!; [done|apply le_bytes_ok|done]. }
  destruct (Z.eqb_spec (Z.of_nat (length (layout_of submit))) 0); [lia|]. destruct (Z.ltb_spec est (Z.of_nat (length (layout_of submit)))); [lia|].
  destruct (DeviceFormat_spec snappy_option address dev (layout_of submit) (drop (length (layout_of submit)) (raw_data_ (KbInit align kb est))) (Z.of_nat (nputs submit)))
    as (slice & size & -> & Hsa); [lia|done|lia|lia|done|]. eexists. split; [done|]. cbn [rd_submit rd_rest rd_kb rd_offsets rd_device rd_ivalue_size].
  split_and!; try done || lia. right. do 3 eexists. split; [done|]. by split_and!.
Qed.

(** C5: what a worker makes of the requests of clients can be read back.  The writes
    are stored as column nodes and a round of [WorkerThread] takes a part of the queue
    that is not empty, without reaching the [abort]s of the size checks.  For every put
    it takes, the offset of its column node finds the value and the key in the block
    that stays in memory, and also in the block that [LoadValue] reads from the device,
    compressed or not, into whatever block and buffer it is given.  The writes are those
    of [WriteOk]: a key of less than 2048 bytes, and a value that with the key and 26
    bytes of header fits in [kMaxInternalValueSize]; the processor is little-endian and
    the device reliable. *)
Theorem key_blocks_read_back `{ReliableEnv D} (d : D) snappy_option address dev kb seq ws : Forall WriteOk ws -> ws <> [] -> KbOk kb ->
  Z.of_nat (length dev) = kDeviceRquestMaxSize -> exists pending rd,
  mapM store ws = Some pending /\ WorkerRound d TtlIsEnabled snappy_option align address dev kb seq pending = Some rd /\
  pending = rd_submit rd ++ rd_rest rd /\ rd_submit rd <> [] /\
  forall j w, ws !! j = Some w -> (j < length (rd_submit rd))%nat -> w_type w = kPutType -> exists kb' o,
    rd_kb rd = Some kb' /\ rd_offsets rd !! j = Some o /\ GetValueFromKeyBlock kb' o = Some (w_value w) /\ GetKeyFromKeyBlock kb' o = Some (w_key w) /\
    forall address' io_buf other, KbOk other -> Z.of_nat (length io_buf) = kDeviceRquestMaxSize -> exists loaded,
      LoadValue (rd_device rd) align address' io_buf other seq (rd_ivalue_size rd) = Some loaded /\
      GetValueFromKeyBlock loaded o = Some (w_value w) /\ GetKeyFromKeyBlock loaded o = Some (w_key w).
Proof.
  intros Hws Hne Hkb Hdev. destruct (store_all ws Hws) as (pending & Es & Hall).
  assert (Forall (RequestOk TtlIsEnabled) pending) as Hok.
  { clear -Hall. induction Hall as [|w r ws rs Hr _ IH]; constructor; [by eapply Stored_ok|done]. }
  destruct (WorkerRound_spec d snappy_option address dev kb seq pending Hok Hkb Hdev) as (rd & Er & Hp & Hsub & Hl & Hcase). exists pending, rd.
  split; [done|]. split; [done|]. split; [done|]. split. { apply Hsub. intros ->. by apply Forall2_nil_inv_r in Hall. }
  intros j w Hj Hlt Hput. destruct (Forall2_lookup_l _ _ _ _ _ Hall Hj) as (r & Hr & Hst). rewrite Hp, lookup_app_l in Hr by done.
  destruct Hst as (_ & Ht & Hk' & Hpo). specialize (Hpo Hput). assert (is_put r = true) as Hip by (unfold is_put; by rewrite Ht, Hput).
  destruct Hcase as [Hz|(kb' & junk & slice & Ekb & Eraw & Eo & Edev & Hsa)].
  { exfalso. apply list_elem_of_lookup_2, list_elem_of_split in Hr as (l1 & l2 & E). rewrite E, nputs_app in Hz. cbn [nputs] in Hz. rewrite Hip in Hz. lia. }
  destruct (lookup_lt_is_Some_2 (numbers 0 0 (rd_submit rd)) j) as [o Ho]; [by rewrite length_numbers|]. exists kb', o. rewrite <- Hk', Eo.
  destruct (read_back TtlIsEnabled _ _ _ _ _ kb' junk Hr Hip Ho Hpo Eraw) as [Hv Hk'']; [lia|]. do 4 (split; [done|]).
  intros address' io_buf other Hother Hio. rewrite Edev.
  assert (0 < length (layout_of (rd_submit rd)))%nat as Hpos by (unfold layout_of; rewrite !length_app, length_le_bytes; lia).
  destruct (LoadValue_spec d address' io_buf other seq _ _ _ Hsa Hother Hpos Hl Hio) as (loaded & junk' & El & Eraw'). exists loaded.
  split; [done|]. apply (read_back TtlIsEnabled _ _ _ _ _ loaded junk' Hr Hip Ho Hpo Eraw'). lia.
Qed.

End Theorems.

Lemma NewUserValue_ok size : 0 <= size <= 2 ^ 20 -> UvOk (NewUserValue size).
Proof.
  intros Hs. unfold NewUserValue, UvOk, UV_BUF_SIZE_SHIFT. destruct (Z.eqb_spec size 0); [cbn [buf_ buf_size_ length]; split_and!; lia || constructor|]. destruct (align32 size) as [Ha1 Ha2]; [lia..|].
  cbn [buf_ buf_size_]. assert (u16 (Z.shiftr (Z.land (u32 (size + 31)) 0xFFFFFFE0) 5) = Z.shiftr (Z.land (u32 (size + 31)) 0xFFFFFFE0) 5) as -> by (apply wrap_small; lia).
  rewrite length_replicate. split_and!; try lia. apply Forall_replicate. unfold byte_ok. lia.
Qed.

(** ** Examples *)

Module Demo.
#[export] Existing Instance demo_processor.
#[export] Program Instance zeros : RawMalloc := {| raw_malloc n := replicate (Z.to_nat n) 0 |}.
Next Obligation. intros n _. apply length_replicate. Qed.
Next Obligation. intros n. apply Forall_replicate. unfold byte_ok. lia. Qed.

(** A compressor that only knows blocks of zeros. *)
#[export] Instance zero_runs : Snappy :=
  {| RawCompress x := if forallb (Z.eqb 0) x && (length x <? 256)%nat then [0; Z.of_nat (length x)] else 1 :: x;
     GetUncompressedLength x := match x with 0 :: n :: _ => Some n | _ :: x => Some (Z.of_nat (length x)) | [] => None end;
     Uncompress x := match x with 0 :: n :: _ => Some (replicate (Z.to_nat n) 0) | _ :: x => Some x | [] => None end |}.

Lemma zeros_eq x : forallb (Z.eqb 0) x = true -> x = replicate (length x) 0.
Proof. induction x as [|a x IH]; [done|]. cbn [forallb length replicate]. intros [E%Z.eqb_eq Hx]%andb_true_iff. by rewrite <- E, <- IH. Qed.

#[export] Instance zero_runs_laws : SnappyLaws.
Proof.
  split; intros x; cbn [RawCompress GetUncompressedLength Uncompress zero_runs]; destruct (forallb (Z.eqb 0) x) eqn:E, (Nat.ltb_spec (length x) 256);
    cbn [andb length]; try done.
  1-4: pose proof (Z.div_pos (Z.of_nat (length x)) 6); lia.
  1-4: intros Hx; repeat constructor; unfold byte_ok; try lia; done.
  by rewrite Nat2Z.id, <- zeros_eq.
Qed.

#[export] Instance pairs : Env (list (Z * list Z)) :=
  {| EnvPut d key value := (key, value) :: d;
     EnvGet d key size := '(_, value) ← List.find (fun kv => kv.1 =? key) d; Some (take (Z.to_nat size) value) |}.
#[export] Instance pairs_reliable : ReliableEnv (list (Z * list Z)).
Proof. split. intros d key value size. cbn. by rewrite Z.eqb_refl. Qed.
#[export] Instance pairs_keyed : KeyedEnv (list (Z * list Z)).
Proof. split. intros d key value key' size Hne. cbn. destruct (Z.eqb_spec key key'); [congruence|done]. Qed.
End Demo.

Definition demo_buffer : list Z := replicate (Z.to_nat kDeviceRquestMaxSize) 0.
Definition demo_writes : list Write :=
  [ {| w_type := kPutType; w_key := [107; 49]; w_value := [1; 2; 3]; w_col := 0; w_ttl := 0; w_uv := NewUserValue 0 |};
    {| w_type := kDelType; w_key := [107; 50]; w_value := []; w_col := 1; w_ttl := 0; w_uv := NewUserValue 0 |};
    {| w_type := kPutType; w_key := [107; 51]; w_value := []; w_col := 1; w_ttl := 99; w_uv := NewUserValue 64 |} ].

Lemma length_demo_buffer : Z.of_nat (length demo_buffer) = kDeviceRquestMaxSize.
Proof. unfold demo_buffer. rewrite length_replicate. apply Z2Nat.id. unfold kDeviceRquestMaxSize. lia. Qed.

#[local] Ltac bytes := repeat (apply List.Forall_cons || apply List.Forall_nil); unfold byte_ok; lia.

Lemma demo_writes_ok : Forall WriteOk demo_writes.
Proof.
  pose proof (NewUserValue_ok 0 ltac:(lia)). pose proof (NewUserValue_ok 64 ltac:(lia)).
  repeat (apply List.Forall_cons || apply List.Forall_nil); unfold WriteOk; cbn [w_key w_value w_col w_uv]; split_and!; solve [done|bytes|unfold kMaxInternalValueSize; cbn [length]; lia].
Qed.

Import Demo.
Lemma key_blocks_read_back_witness : let ttl_column := fun col_id => col_id =? 1 in exists pending rd o loaded,
  mapM (store ttl_column) demo_writes = Some pending /\ WorkerRound [] ttl_column true (2 ^ 12) 0 demo_buffer NewKeyBlock 7 pending = Some rd /\
  (rd_offsets rd !! 0%nat = Some o /\ LoadValue (rd_device rd) (2 ^ 12) 0 demo_buffer NewKeyBlock 7 (rd_ivalue_size rd) = Some loaded /\
   GetValueFromKeyBlock loaded o = Some [1; 2; 3] /\ GetKeyFromKeyBlock loaded o = Some [107; 49]) /\ rd_submit rd <> [].
Proof.
  intros ttl_column. assert (KbOk NewKeyBlock) as Hkb by (split; [apply Z.le_refl|reflexivity]).
  destruct (key_blocks_read_back (H := demo_processor) eq_refl ttl_column 12 ltac:(lia) [] true 0 demo_buffer NewKeyBlock 7 demo_writes demo_writes_ok)
    as (pending & rd & H1 & H2 & _ & H4 & H5); [discriminate|exact Hkb|exact length_demo_buffer|].
  assert (0 < length (rd_submit rd))%nat as Hl by (destruct (rd_submit rd); [by destruct H4|apply Nat.lt_0_succ]).
  destruct (H5 0%nat _ eq_refl Hl eq_refl) as (kb & o & _ & Ho & _ & _ & H6). destruct (H6 0 demo_buffer NewKeyBlock Hkb length_demo_buffer) as (loaded & Hloaded & Hv & Hk).
  exists pending, rd, o, loaded. exact (conj H1 (conj H2 (conj (conj Ho (conj Hloaded (conj Hv Hk))) H4))).
Defined.
