(* ===== verification/SktFormat.v ===== *)
(** * The tables of InSDB on the device

    A sorted key table maps user keys to their columns: for each column the key block
    that holds its value.  On the device a table is a header, a row for each key in
    order, and at the end the base key, of which rows repeat only the length that they
    share, and the offsets of the rows.  [SKTableMem::DeviceFormatBuilder] merges the
    rows of the previous table with the user keys in memory, splitting when a table is
    full, [SKTableMem::FlushSKTableMem] calls it until no key is left and seals the
    tables with checksums, and [SKTDFCacheNode] reads a table that was loaded
    (db/sktable.cc, db/insdb_internal.h, db/userkey.cc).

    The search of the columns of a user key for those to be recorded is not modelled: a
    user key comes with the columns found.  Nor are the lists of key block metadata to be
    updated, the eviction of user keys and the iterators.  [None]
    is an access outside of a buffer or a call of [abort]; assertions are compiled out. *)

From Stdlib Require Import ZArith Lia Bool.
From stdpp Require Import base list.
From S2P Require Import Prelude Coding Slices Crc32c Buffers.

Definition SKTDF_CRC_1_OFFSET : nat := 0.
Definition SKTDF_CRC_2_OFFSET : nat := 4.
Definition SKTDF_NR_KEY_OFFSET : nat := 8.
Definition SKTDF_INFO_2_OFFSET : nat := 12.
Definition SKTDF_COMP_START_OFFSET : nat := 16.
Definition SKTDF_SKT_SIZE_OFFSET : nat := 20.
Definition SKTDF_LARGEST_SEQ_NUM : nat := 24.
Definition SKTDF_NEXT_ID_OFFSET : nat := 32.
Definition SKTDF_PREALLOC_ID_OFFSET : nat := 36.
Definition SKTDF_BEGIN_KEY_OFFSET : nat := 40.
Definition flag_compression : Z := 0x80000000.

Definition COLUMN_NODE_REF_BIT : Z := 0xC0.
Definition COLUMN_NODE_ID_MASK : Z := 0x3F.
Definition COLUMN_NODE_HAS_SEQ_NUM_BIT : Z := 0x80.
Definition COLUMN_NODE_HAS_TTL_BIT : Z := 0x40.
Definition COLUMN_NODE_OFFSET_MASK : Z := 0x3f.
Definition SEQ_NUM_SHIFT : Z := 7.
Definition TTL_SHIFT : Z := 6.
Definition kMinSKTableSize : nat := 4096.

Section Code.
  Context `{Processor}.
  Local Open Scope cword_scope.

(** A 64-bit word in the order of the machine. *)
Definition native64 (v : Z) : list Z := if kLittleEndian then le_bytes 8 v else rev (le_bytes 8 v).

(** ** Columns *)

(** A column node that is recorded, with the number of its column. *)
Record Column : Type := {
  vc_id : Z;
  vc_offset : Z;
  vc_seq : Z;
  vc_ts : Z;
  vc_ikey : Z;
  vc_size : Z;
}.

(** What is written for one column.  The sequence number that is compared is a local
    variable of the builder, which hides the field of the same name. *)
Definition encode_column (smallest_snap_seq : Z) (v : Column) : list Z :=
  let old := vc_seq v <? smallest_snap_seq in
  let seq_num := if old then 0 else vc_seq v in
  let flag_and_offset := if old then vc_offset v else u8 (vc_offset v |: (1 << SEQ_NUM_SHIFT)) in
  let ts := vc_ts v in
  let flag_and_offset := if ts =? 0 then flag_and_offset else u8 (flag_and_offset |: (1 << TTL_SHIFT)) in
  [vc_id v; flag_and_offset] ++ EncodeVarint64 (vc_ikey v) ++ EncodeVarint32 (vc_size v) ++
  (if seq_num =? 0 then [] else EncodeVarint64 seq_num) ++ (if ts =? 0 then [] else EncodeVarint64 ts).

Definition encode_columns (valid_col_nodes : list Column) : list Z :=
  let smallest_snap_seq := 0 in
  u8 (Z.of_nat (length valid_col_nodes)) :: concat (map (encode_column smallest_snap_seq) valid_col_nodes).

(** [GetVarint64(&col_info, &v)] with its result ignored: a failure leaves [v] and the
    slice. *)
Definition get64 (v : Z) (col_info : list Z) : Z * list Z := default (v, col_info) (GetVarint64 col_info).
Definition get32 (v : Z) (col_info : list Z) : Z * list Z := default (v, col_info) (GetVarint32 col_info).

(** The variables of the loops over the columns of a row. *)
Record Vars : Type := { va_ikey : Z; va_size : Z; va_seq : Z; va_ttl : Z }.
Definition NewVars : Vars := {| va_ikey := 0; va_size := 0; va_seq := 0; va_ttl := 0 |}.

(** [UserKey::InsertColumnNodes]: the nodes that are made from a row. *)
Fixpoint insert_columns (nr_column : nat) (valid_seq : bool) (v : Vars) (col_info : list Z) : option (list Column) :=
  match nr_column with
  | O => Some []
  | S n =>
      match col_info with
      | b0 :: offset :: col_info =>
          let col_id := b0 & COLUMN_NODE_ID_MASK in
          let '(ikey_seq_num, col_info) := get64 (va_ikey v) col_info in
          let '(ivalue_size, col_info) := get32 (va_size v) col_info in
          let '(seq_num, col_info) :=
            if offset & COLUMN_NODE_HAS_SEQ_NUM_BIT =? 0 then (0, col_info)
            else let '(seq_num, col_info) := get64 (va_seq v) col_info in (if valid_seq then seq_num else 0, col_info) in
          let '(ttl, col_info) := if offset & COLUMN_NODE_HAS_TTL_BIT =? 0 then (0, col_info) else get64 (va_ttl v) col_info in
          let node := {| vc_id := col_id; vc_offset := offset & COLUMN_NODE_OFFSET_MASK; vc_seq := seq_num; vc_ts := ttl;
                         vc_ikey := ikey_seq_num; vc_size := ivalue_size |} in
          l ← insert_columns n valid_seq {| va_ikey := ikey_seq_num; va_size := ivalue_size; va_seq := seq_num; va_ttl := ttl |} col_info;
          Some (node :: l)
      | _ => None
      end
  end.

Definition InsertColumnNodes (col_info : list Z) (valid_seq : bool) : option (list Column) :=
  match col_info with
  | nr_column :: col_info => insert_columns (Z.to_nat nr_column) valid_seq NewVars col_info
  | [] => None
  end.

Record ColumnScratchPad : Type := { sp_ikey_seq_num : Z; sp_ivalue_size : Z; sp_offset : Z }.

(** The loop of [SKTableMem::GetColumnInfo]; [pos] is the position in the row, and the
    result says where the reference bits are set. *)
Fixpoint find_column (nr_column : nat) (HasBeenFlushed : bool) (ttl_of_column : Z) (col_id seq_num cur_time : Z) (v : Vars) (pos : nat) (col_info : list Z) :
    option (option (ColumnScratchPad * nat)) :=
  match nr_column with
  | O => Some None
  | S n =>
      match col_info with
      | b0 :: offset :: rest =>
          let '(ikey_seq_num, rest) := get64 (va_ikey v) rest in
          let '(ivalue_size, rest) := get32 (va_size v) rest in
          if col_id =? b0 & COLUMN_NODE_ID_MASK then
            let '(seq, rest) :=
              if offset & COLUMN_NODE_HAS_SEQ_NUM_BIT =? 0 then (0, rest)
              else let '(seq, rest) := get64 (va_seq v) rest in (if HasBeenFlushed then seq else 0, rest) in
            let '(ttl, rest) := if offset & COLUMN_NODE_HAS_TTL_BIT =? 0 then (0, rest) else get64 (va_ttl v) rest in
            if (seq <=? seq_num) && ((ttl =? 0) || (ttl_of_column =? 0) || (cur_time <? u64 (ttl + ttl_of_column)))
            then Some (Some ({| sp_ikey_seq_num := ikey_seq_num; sp_ivalue_size := ivalue_size; sp_offset := offset & COLUMN_NODE_OFFSET_MASK |}, pos))
            else Some None
          else
            let '(seq, rest) := if offset & COLUMN_NODE_HAS_SEQ_NUM_BIT =? 0 then (va_seq v, rest) else get64 (va_seq v) rest in
            let '(ttl, rest) := if offset & COLUMN_NODE_HAS_TTL_BIT =? 0 then (va_ttl v, rest) else get64 (va_ttl v) rest in
            find_column n HasBeenFlushed ttl_of_column col_id seq_num cur_time
              {| va_ikey := ikey_seq_num; va_size := ivalue_size; va_seq := seq; va_ttl := ttl |} (pos + (length col_info - length rest)) rest
      | _ => None
      end
  end.

(** ** Reading a table *)

(** [decoding_base_key_] is given by its place in the buffer, and [key_offset_] by the
    place after it. *)
Record SKTDFCacheNode : Type := {
  device_format_ : list Z;
  base_pos_ : nat;
  base_size_ : nat;
  next_skt_id_ : Z;
  preallocated_skt_id_ : Z;
}.

Definition key_offset_pos (n : SKTDFCacheNode) : nat := base_pos_ n + base_size_ n.

(** The bytes from [off] on. *)
Definition at_ (n : SKTDFCacheNode) (off : Z) : list Z := drop (Z.to_nat off) (device_format_ n).

Definition GetKeyCount (n : SKTDFCacheNode) : option Z := DecodeFixed32 kLittleEndian (drop SKTDF_NR_KEY_OFFSET (device_format_ n)).

(** The key of a row and what follows it, from the slice after the two sizes. *)
Definition decode_key (n : SKTDFCacheNode) (key_info : list Z) : option (list Z * list Z) :=
  '(shared, key_info) ← GetVarint16 key_info;
  prefix ← get_at (device_format_ n) (base_pos_ n) (Z.to_nat shared);
  '(non_shared, key_info) ← GetVarint16 key_info;
  suffix ← get_at key_info 0 (Z.to_nat non_shared);
  Some (prefix ++ suffix, drop (Z.to_nat non_shared) key_info).

(** The size of the row at [offset], and the slice after the two sizes. *)
Definition row_at (n : SKTDFCacheNode) (offset : Z) : option (Z * list Z) :=
  key_size ← DecodeFixed16 kLittleEndian (at_ n (offset + 2));
  if key_size <? 4 then None
  else key_info ← get_at (device_format_ n) (Z.to_nat offset + 4) (Z.to_nat (key_size - 4)); Some (key_size, key_info).

Definition next_key_offset (n : SKTDFCacheNode) (offset key_size : Z) : option Z :=
  let next := u32 (key_size + offset) in
  info_2 ← load32 (device_format_ n) SKTDF_INFO_2_OFFSET; Some (if next =? info_2 then 0 else next).

Definition GetKeyWithOffset (n : SKTDFCacheNode) (offset : Z) : option (list Z * list Z * Z) :=
  _ ← DecodeFixed16 kLittleEndian (at_ n offset);
  '(key_size, key_info) ← row_at n offset;
  next ← next_key_offset n offset key_size;
  '(key, col_info) ← decode_key n key_info;
  Some (key, col_info, next).

Definition GetKeyStringWithOffset (n : SKTDFCacheNode) (offset : Z) : option (list Z) :=
  info_2 ← load32 (device_format_ n) SKTDF_INFO_2_OFFSET;
  if info_2 <=? offset then None
  else '(_, key_info) ← row_at n offset; '(key, _) ← decode_key n key_info; Some key.

(** The column information, with its place in the buffer. *)
Definition GetColumnInfoWithOffset (n : SKTDFCacheNode) (offset : Z) : option (nat * list Z) :=
  '(key_size, key_info) ← row_at n offset;
  '(_, key_info) ← GetVarint16 key_info;
  '(non_shared, key_info) ← GetVarint16 key_info;
  if Z.of_nat (length key_info) <? non_shared then None
  else
    let col_info := drop (Z.to_nat non_shared) key_info in
    Some ((Z.to_nat (offset + key_size) - length col_info)%nat, col_info).

Definition set_buffer (n : SKTDFCacheNode) (buf : list Z) : SKTDFCacheNode :=
  {| device_format_ := buf; base_pos_ := base_pos_ n; base_size_ := base_size_ n; next_skt_id_ := next_skt_id_ n; preallocated_skt_id_ := preallocated_skt_id_ n |}.

Definition ClearValidColumnCount (n : SKTDFCacheNode) (offset : Z) : option SKTDFCacheNode :=
  '(pos, _) ← GetColumnInfoWithOffset n offset;
  buf ← put_at (device_format_ n) pos [0];
  Some (set_buffer n buf).

(** The binary search; the result is the place and the contents of the column
    information, empty if there is none. *)
Fixpoint search (fuel : nat) (n : SKTDFCacheNode) (given_key : list Z) (left right : Z) : option (nat * list Z) :=
  match fuel with
  | O => None
  | S fuel =>
      if left <? right then
        let mid := u32 (left + right) / 2 in
        offset ← load32 (device_format_ n) (key_offset_pos n + 4 * Z.to_nat mid);
        '(key_info_size, key_info) ← row_at n offset;
        '(key, key_info) ← decode_key n key_info;
        let comp := compare key given_key in
        if comp <? 0 then search fuel n given_key (mid + 1) right
        else if 0 <? comp then search fuel n given_key left mid
        else
          match key_info with
          | [] => None
          | b0 :: _ => if b0 =? 0 then Some (0%nat, []) else Some ((Z.to_nat (offset + key_info_size) - length key_info)%nat, key_info)
          end
      else Some (0%nat, [])
  end.

Definition GetKeyColumnInfobyHash (n : SKTDFCacheNode) (given_key : list Z) : option (nat * list Z) :=
  right ← GetKeyCount n; search (S (Z.to_nat right)) n given_key 0 right.

(** Whether a key belongs to the next table, if there is one, or beyond. *)
Definition beyond (next_begin_key : option (list Z)) (key : list Z) : bool :=
  match next_begin_key with Some begin_key => compare begin_key key <=? 0 | None => false end.

(** [SKTableMem::GetColumnInfo] on a table that is loaded: whether the key belongs to the
    table, its column, if it is visible, and the table with the reference bits set. *)
Definition GetColumnInfo (n : SKTDFCacheNode) (next_begin_key : option (list Z)) (HasBeenFlushed : bool) (GetTtlFromTtlList : Z -> Z) (key : list Z) (col_id seq_num cur_time : Z) :
    option (bool * option ColumnScratchPad * SKTDFCacheNode) :=
  if beyond next_begin_key key then Some (false, None, n) else
  '(pos, col_info) ← GetKeyColumnInfobyHash n key;
  match col_info with
  | [] => Some (true, None, n)
  | nr_column :: cols =>
      found ← find_column (Z.to_nat nr_column) HasBeenFlushed (GetTtlFromTtlList col_id) col_id seq_num cur_time NewVars (pos + 1) cols;
      match found with
      | None => Some (true, None, n)
      | Some (column, ref_bit) =>
          b0 ← device_format_ n !! ref_bit;
          buf ← put_at (device_format_ n) ref_bit [u8 (b0 |: COLUMN_NODE_REF_BIT)];
          Some (true, Some column, set_buffer n buf)
      end
  end.

(** The part of [SKTDFCacheNode(mf, skt, device_format, from_mem)] at the end, and
    [UpdateDeviceFormat]. *)
Definition open_format (buf : list Z) (skt_info_2_offset next_id prealloc_id : Z) : option SKTDFCacheNode :=
  base_size ← DecodeFixed16 kLittleEndian (drop (Z.to_nat skt_info_2_offset) buf);
  Some {| device_format_ := buf; base_pos_ := (Z.to_nat skt_info_2_offset + 2)%nat; base_size_ := Z.to_nat base_size;
          next_skt_id_ := next_id; preallocated_skt_id_ := prealloc_id |}.

(** [alloc] is the buffer that [AllocSKTableBuffer] returns for a size. *)
Definition NewSKTDFCacheNode `{Snappy} (alloc : Z -> list Z) (address : Z) (device_format : list Z) (from_mem : bool) : option SKTDFCacheNode :=
  skt_info_2_offset ← load32 device_format SKTDF_INFO_2_OFFSET;
  comp_data_start ← load32 device_format SKTDF_COMP_START_OFFSET;
  skt_size ← load32 device_format SKTDF_SKT_SIZE_OFFSET;
  '(next_id, prealloc_id) ←
    (if from_mem then Some (0, 0)
     else
       let crc_size := u32 (u32 (comp_data_start - Z.of_nat SKTDF_CRC_2_OFFSET) + skt_size) in
       stored ← DecodeFixed32 kLittleEndian device_format;
       covered ← get_at device_format SKTDF_CRC_2_OFFSET (Z.to_nat crc_size);
       crc ← Value (address + Z.of_nat SKTDF_CRC_2_OFFSET) covered;
       if negb (Unmask stored =? crc) then None
       else
         next_id ← load32 device_format SKTDF_NEXT_ID_OFFSET;
         prealloc_id ← load32 device_format SKTDF_PREALLOC_ID_OFFSET;
         Some (next_id, prealloc_id));
  if skt_info_2_offset & flag_compression =? 0 then open_format device_format skt_info_2_offset next_id prealloc_id
  else
    comp ← get_at device_format (Z.to_nat comp_data_start) (Z.to_nat skt_size);
    ulength ← GetUncompressedLength comp;
    head ← get_at device_format 0 (Z.to_nat comp_data_start);
    buf ← put_at (alloc (u32 (ulength + comp_data_start))) 0 head;
    data ← Uncompress comp;
    buf ← put_at buf (Z.to_nat comp_data_start) data;
    let skt_info_2_offset := skt_info_2_offset & u32 (Z.lnot flag_compression) in
    buf ← put_at buf SKTDF_INFO_2_OFFSET (native32 skt_info_2_offset);
    buf ← put_at buf SKTDF_SKT_SIZE_OFFSET (native32 ulength);
    open_format buf skt_info_2_offset next_id prealloc_id.

(** [SKTableMem::LoadSKTableDeviceFormat] when the table is not loaded, for a read that
    waits. *)
Definition LoadSKTableDeviceFormat `{Snappy} `{Env D} (d : D) (alloc : Z -> list Z) (address skt_id skt_df_node_size_ : Z) : option SKTDFCacheNode :=
  let skt_buffer := alloc skt_df_node_size_ in
  if Z.of_nat (length skt_buffer) <? skt_df_node_size_ then None
  else
    got ← EnvGet d skt_id skt_df_node_size_;
    if (length got =? 0)%nat then None
    else
      skt_buffer ← put_at skt_buffer 0 got;
      sktdf ← NewSKTDFCacheNode alloc address skt_buffer false;
      if negb (Z.of_nat (length got) =? skt_df_node_size_) then None else Some sktdf.

Definition UpdateDeviceFormat (n : SKTDFCacheNode) (device_format : list Z) : option SKTDFCacheNode :=
  skt_info_2_offset ← load32 device_format SKTDF_INFO_2_OFFSET;
  open_format device_format skt_info_2_offset (next_skt_id_ n) (preallocated_skt_id_ n).

(** ** Building a table *)

(** The length that two keys share. *)
Fixpoint shared_size (a b : list Z) : nat :=
  match a, b with
  | x :: a, y :: b => if x =? y then S (shared_size a b) else 0
  | _, _ => 0
  end.

Definition EncodeFirstKey (key : list Z) : list Z := EncodeVarint16 0 ++ EncodeVarint16 (u16 (Z.of_nat (length key))) ++ key.
Definition EncodeEmptyKey : list Z := EncodeVarint16 0 ++ EncodeVarint16 0.

(** [EncodeKey]; keys are shorter than 2^16 bytes. *)
Definition EncodeKey (begin_key_of_target key : list Z) : list Z :=
  let shared := shared_size begin_key_of_target key in
  let non_shared := u16 (Z.of_nat (length key) - Z.of_nat shared) in
  EncodeVarint16 (Z.of_nat shared) ++ EncodeVarint16 non_shared ++ take (Z.to_nat non_shared) (drop shared key).

(** The variables of [DeviceFormatBuilder]: the buffer and the size of what is in it,
    the offsets of the rows, and the header to be. *)
Record Dfb : Type := {
  uncomp_buffer : list Z;
  buffer_size : nat;
  key_offset : list Z;
  prev_diff : Z;
  begin_key_of_target : list Z;
  stored_key_count : Z;
  compression_start_ofs : nat;
  largest_seq_num : Z;
}.

Definition NewDfb (buffer : list Z) : Dfb :=
  {| uncomp_buffer := buffer; buffer_size := SKTDF_BEGIN_KEY_OFFSET; key_offset := []; prev_diff := 0; begin_key_of_target := [];
     stored_key_count := 0; compression_start_ofs := SKTDF_BEGIN_KEY_OFFSET; largest_seq_num := 0 |}.

(** The check before a row: the buffer grows once, and the second result tells that
    the row still does not fit. *)
Definition check_split `{RawMalloc} (kMaxSKTableSize : nat) (b : Dfb) (cur_key_info_size : nat) : Dfb * bool :=
  let skt_info_2_size := (length (begin_key_of_target b) + 2 + 4 * length (key_offset b) + 4)%nat in
  let needed := (buffer_size b + cur_key_info_size + skt_info_2_size)%nat in
  let size := length (uncomp_buffer b) in
  let buffer :=
    if (size <? needed)%nat && (size <? kMaxSKTableSize)%nat then
      let size' := Nat.min (size + kMinSKTableSize) kMaxSKTableSize in
      uncomp_buffer b ++ raw_malloc (Z.of_nat (size' - size))
    else uncomp_buffer b in
  ({| uncomp_buffer := buffer; buffer_size := buffer_size b; key_offset := key_offset b; prev_diff := prev_diff b;
      begin_key_of_target := begin_key_of_target b; stored_key_count := stored_key_count b;
      compression_start_ofs := compression_start_ofs b; largest_seq_num := largest_seq_num b |},
   (length buffer <? needed)%nat).

(** A row: its offset is recorded, then the size of the row before, the size of this
    one, the key and the columns are written. *)
Definition put_row (b : Dfb) (key cols : list Z) (largest : Z) : option Dfb :=
  let '(begin_key, encoded) :=
    if (length (begin_key_of_target b) =? 0)%nat
    then (key, if (length key =? 0)%nat then EncodeEmptyKey else EncodeFirstKey key)
    else (begin_key_of_target b, EncodeKey (begin_key_of_target b) key) in
  let size := (buffer_size b + 4 + length encoded + length cols)%nat in
  let diff := u16 (Z.of_nat (size - buffer_size b)) in
  buffer ← put_at (uncomp_buffer b) (buffer_size b) (EncodeFixed16 kLittleEndian (prev_diff b) ++ EncodeFixed16 kLittleEndian diff ++ encoded ++ cols);
  Some {| uncomp_buffer := buffer; buffer_size := size; key_offset := key_offset b ++ [Z.of_nat (buffer_size b)]; prev_diff := diff;
          begin_key_of_target := begin_key; stored_key_count := u16 (stored_key_count b + 1);
          compression_start_ofs := if (compression_start_ofs b =? SKTDF_BEGIN_KEY_OFFSET)%nat then size else compression_start_ofs b;
          largest_seq_num := largest |}.

(** A user key in memory: whether its columns in the table were fetched, and the columns
    to be recorded, given those that the table has. *)
Record UserKey : Type := {
  uk_key : list Z;
  uk_dirty : bool;
  uk_fetched : bool;
  uk_columns : list Column -> list Column;
}.

(** [InsertColumnNodes] and [SetFetched] on the way: what was fetched is part of the
    user key from then on. *)
Definition fetch (u : UserKey) (HasBeenFlushed : bool) (col_info : option (list Z)) : option UserKey :=
  fetched ← match col_info with
            | Some col_info => if uk_fetched u then Some [] else InsertColumnNodes col_info HasBeenFlushed
            | None => Some []
            end;
  Some {| uk_key := uk_key u; uk_dirty := uk_dirty u; uk_fetched := true; uk_columns := fun _ => uk_columns u fetched |}.

(** Where the walk is in the previous table. *)
Record Cursor : Type := {
  cur_key_offset : Z;
  cur_next_offset : Z;
  key_from_skt_df : list Z;
  col_info_slice : list Z;
}.

Definition read_cursor (n : SKTDFCacheNode) (offset : Z) : option Cursor :=
  '(key, col_info, next) ← GetKeyWithOffset n offset;
  Some {| cur_key_offset := offset; cur_next_offset := next; key_from_skt_df := key; col_info_slice := col_info |}.

Definition next_cursor (n : SKTDFCacheNode) (c : Cursor) : option Cursor :=
  if cur_next_offset c =? 0
  then Some {| cur_key_offset := 0; cur_next_offset := 0; key_from_skt_df := key_from_skt_df c; col_info_slice := col_info_slice c |}
  else read_cursor n (cur_next_offset c).

(** What [DeviceFormatBuilder] leaves: the table that it filled, the previous table,
    the keys and the rows to come, and the key at which it split. *)
Record Walk : Type := {
  wk_table : Dfb;
  wk_node : SKTDFCacheNode;
  wk_ukeys : list UserKey;
  wk_cursor : Cursor;
  wk_begin_key : list Z;
}.

Section Builder.
  Context `{RawMalloc} (kMaxSKTableSize kMaxColumnCount : nat) (HasBeenFlushed : bool).

(** The loop of [DeviceFormatBuilder]. *)
Fixpoint walk (fuel : nat) (b : Dfb) (n : SKTDFCacheNode) (ukeys : list UserKey) (c : Cursor) : option Walk :=
  match fuel with
  | O => None
  | S fuel =>
      let in_table := negb (cur_key_offset c =? 0) in
      let comp := if in_table then match ukeys with u :: _ => compare (uk_key u) (key_from_skt_df c) | [] => 1 end else -1 in
      match ukeys with
      | [] =>
          if in_table then
            let '(b, full) := check_split kMaxSKTableSize b (8 + length (key_from_skt_df c) + length (col_info_slice c)) in
            if full then Some {| wk_table := b; wk_node := n; wk_ukeys := []; wk_cursor := c; wk_begin_key := key_from_skt_df c |}
            else
              b ← put_row b (key_from_skt_df c) (col_info_slice c) (largest_seq_num b);
              c ← next_cursor n c;
              walk fuel b n [] c
          else Some {| wk_table := b; wk_node := n; wk_ukeys := []; wk_cursor := c; wk_begin_key := [] |}
      | u :: rest =>
          if (0 <? comp) || ((comp =? 0) && negb (uk_dirty u)) then
            let '(b, full) := check_split kMaxSKTableSize b (8 + length (key_from_skt_df c) + length (col_info_slice c)) in
            if full then Some {| wk_table := b; wk_node := n; wk_ukeys := ukeys; wk_cursor := c; wk_begin_key := key_from_skt_df c |}
            else
              b ← put_row b (key_from_skt_df c) (col_info_slice c) (largest_seq_num b);
              c ← next_cursor n c;
              walk fuel b n (if comp =? 0 then rest else ukeys) c
          else
            let '(b, full) := check_split kMaxSKTableSize b (9 + length (uk_key u) + kMaxColumnCount * 34) in
            u ← fetch u HasBeenFlushed (if comp =? 0 then Some (col_info_slice c) else None);
            n ← (if comp =? 0 then ClearValidColumnCount n (cur_key_offset c) else Some n);
            let valid := uk_columns u [] in
            if full && negb (length valid =? 0)%nat
            then Some {| wk_table := b; wk_node := n; wk_ukeys := u :: rest; wk_cursor := c; wk_begin_key := uk_key u |}
            else
              b ← (if (length valid =? 0)%nat then Some b
                   else put_row b (uk_key u) (encode_columns valid) (fold_left (fun l v => if vc_seq v =? 0 then l else Z.max l (vc_seq v)) valid (largest_seq_num b)));
              c ← (if comp =? 0 then next_cursor n c else Some c);
              walk fuel b n rest c
      end
  end.

(** [DeviceFormatBuilder] up to its label [out]. *)
Definition DeviceFormatBuilder (fuel : nat) (buffer : list Z) (n : SKTDFCacheNode) (ukeys : list UserKey) (cur_offset next_offset : Z) : option Walk :=
  count ← GetKeyCount n;
  let no_row := {| cur_key_offset := 0; cur_next_offset := next_offset; key_from_skt_df := []; col_info_slice := [] |} in
  c ← (if (count =? 0) || (cur_offset =? 0) then Some no_row else read_cursor n cur_offset);
  walk fuel (NewDfb buffer) n ukeys c.
End Builder.

(** ** Finishing a table *)

Section Finish.
  Context `{Snappy} (have_snappy : bool) (kRequestAlignSize : Z) (alloc : Z -> list Z).

(** The header without the checksums and the numbers of the tables. *)
Definition header (count info_2 start size largest : Z) : list Z :=
  native32 count ++ native32 info_2 ++ native32 start ++ native32 size ++ native64 largest.

Definition MaxCompressedLength (n : Z) : Z := 32 + n + n / 6.

(** [realloc] to a size, which must not be larger. *)
Definition shrink (buffer : list Z) (size : Z) : option (list Z) :=
  if Z.of_nat (length buffer) <? size then None else Some (take (Z.to_nat size) buffer).

(** What follows the label [out] for a table with keys: the table for the memory, and
    the table for the device. *)
Definition finish_table (b : Dfb) : option (list Z * list Z) :=
  let base := begin_key_of_target b in
  let offsets := concat (map native32 (key_offset b)) in
  if Z.of_nat (length (uncomp_buffer b)) <? Z.of_nat (buffer_size b + length base) + stored_key_count b * 4 then None
  else
    let info_2 := Z.of_nat (buffer_size b) in
    buffer ← put_at (uncomp_buffer b) (buffer_size b) (EncodeFixed16 kLittleEndian (Z.of_nat (length base)) ++ base ++ offsets);
    let size := (buffer_size b + 2 + length base + length offsets)%nat in
    let start := Z.of_nat (compression_start_ofs b) in
    let inlen := (size - compression_start_ofs b)%nat in
    buffer ← put_at buffer SKTDF_NR_KEY_OFFSET (header (stored_key_count b) info_2 start (Z.of_nat inlen) (largest_seq_num b));
    let comp_buffer := alloc (SizeAlignment kRequestAlignSize (MaxCompressedLength (Z.of_nat size))) in
    data ← get_at buffer (compression_start_ofs b) inlen;
    let out := RawCompress data in
    let outlen := Z.of_nat (length out) in
    comp_buffer ← (if have_snappy then put_at comp_buffer (compression_start_ofs b) out else Some comp_buffer);
    if have_snappy && (outlen <? Z.of_nat inlen - Z.of_nat inlen / 8) then
      comp_buffer ← put_at comp_buffer SKTDF_NR_KEY_OFFSET (header (stored_key_count b) (info_2 |: flag_compression) start outlen (largest_seq_num b));
      first ← get_at buffer SKTDF_BEGIN_KEY_OFFSET (compression_start_ofs b - SKTDF_BEGIN_KEY_OFFSET);
      comp_buffer ← put_at comp_buffer SKTDF_BEGIN_KEY_OFFSET first;
      slice ← shrink comp_buffer (SizeAlignment kRequestAlignSize (outlen + start));
      Some (buffer, slice)
    else
      slice ← shrink buffer (SizeAlignment kRequestAlignSize (Z.of_nat inlen + start));
      Some (slice, slice).

(** And for one without: only the main table is written, with an empty header. *)
Definition finish_empty (b : Dfb) : option (list Z * list Z) :=
  buffer ← put_at (uncomp_buffer b) SKTDF_NR_KEY_OFFSET (header 0 0 0 0 0);
  slice ← shrink buffer (SizeAlignment kRequestAlignSize (Z.of_nat SKTDF_BEGIN_KEY_OFFSET));
  Some (slice, slice).

Definition finish (first_table sub_skt : bool) (b : Dfb) : option (option (list Z * list Z)) :=
  if negb (stored_key_count b =? 0) || first_table then t ← finish_table b; Some (Some t)
  else if sub_skt then Some None
  else t ← finish_empty b; Some (Some t).

(** The numbers of the neighbours and the two checksums, before a table is written. *)
Definition seal (address : Z) (data : list Z) (next_id prealloc_id : Z) : option (list Z) :=
  data ← put_at data SKTDF_NEXT_ID_OFFSET (EncodeFixed32 kLittleEndian next_id);
  data ← put_at data SKTDF_PREALLOC_ID_OFFSET (EncodeFixed32 kLittleEndian prealloc_id);
  second_key_start ← load32 data SKTDF_COMP_START_OFFSET;
  if second_key_start =? 0 then Some data
  else
    first ← get_at data SKTDF_NR_KEY_OFFSET (Z.to_nat (second_key_start - Z.of_nat SKTDF_NR_KEY_OFFSET));
    crc ← Value (address + Z.of_nat SKTDF_NR_KEY_OFFSET) first;
    data ← put_at data SKTDF_CRC_2_OFFSET (EncodeFixed32 kLittleEndian (Mask crc));
    skt_size ← load32 data SKTDF_SKT_SIZE_OFFSET;
    whole ← get_at data SKTDF_CRC_2_OFFSET (Z.to_nat (u32 (second_key_start + skt_size - Z.of_nat SKTDF_CRC_2_OFFSET)));
    crc ← Value (address + Z.of_nat SKTDF_CRC_2_OFFSET) whole;
    put_at data SKTDF_CRC_1_OFFSET (EncodeFixed32 kLittleEndian (Mask crc)).

(** The first loop of [FlushSKTableMem]: tables are built until the walk does not split.
    The result has, for each table, the key it begins with, if it is not the main one,
    and its two forms. *)
Fixpoint build_tables `{RawMalloc} (kMaxSKTableSize kMaxColumnCount : nat) (HasBeenFlushed first_table : bool) (fuel steps : nat) (sub_skt : bool) (begin_key : list Z)
    (n : SKTDFCacheNode) (ukeys : list UserKey) (cur_offset next_offset : Z) : option (list (list Z * option (list Z * list Z))) :=
  match fuel with
  | O => None
  | S fuel =>
      w ← DeviceFormatBuilder kMaxSKTableSize kMaxColumnCount HasBeenFlushed steps (alloc (Z.of_nat kMinSKTableSize)) n ukeys cur_offset next_offset;
      t ← finish first_table sub_skt (wk_table w);
      if (length (wk_begin_key w) =? 0)%nat then Some [(begin_key, t)]
      else
        l ← build_tables kMaxSKTableSize kMaxColumnCount HasBeenFlushed false fuel steps true (wk_begin_key w) (wk_node w) (wk_ukeys w)
              (cur_key_offset (wk_cursor w)) (cur_next_offset (wk_cursor w));
        Some ((begin_key, t) :: l)
  end.
(** The numbers of a table: its own, that of the next one, and one that is reserved for
    a split. *)
Record Ids : Type := { skt_id_ : Z; next_id_ : Z; prealloc_id_ : Z }.

(** [GenerateNextSKTableID], both the number and the counter. *)
Definition GenerateNextSKTableID (next_sktable_id : Z) : Z := u32 (next_sktable_id + 1).

(** Without a split, the deleted tables that follow, given with their successors, are
    skipped. *)
Definition merge_deleted (next_id prealloc_id : Z) (deleted : list (Z * Z)) : Z * Z :=
  (default next_id (snd <$> last deleted), default prealloc_id (fst <$> head deleted)).

(** The numbers of the tables that were split off. *)
Fixpoint sub_ids (more : nat) (next_skt_id last_next_skt_id gen : Z) : list Ids * Z :=
  match more with
  | O =>
      let prealloc_skt_id := GenerateNextSKTableID gen in
      ([{| skt_id_ := next_skt_id; next_id_ := last_next_skt_id; prealloc_id_ := prealloc_skt_id |}], prealloc_skt_id)
  | S more =>
      let next := GenerateNextSKTableID gen in
      let prealloc_skt_id := GenerateNextSKTableID next in
      let '(l, gen) := sub_ids more next last_next_skt_id prealloc_skt_id in
      ({| skt_id_ := next_skt_id; next_id_ := next; prealloc_id_ := prealloc_skt_id |} :: l, gen)
  end.

(** The numbers of all tables, the main one first, and the counter. *)
Definition assign_ids (subs : nat) (main : Ids) (deleted : list (Z * Z)) (gen : Z) : list Ids * Z :=
  match subs with
  | O =>
      let '(next, prealloc) := merge_deleted (next_id_ main) (prealloc_id_ main) deleted in
      ([{| skt_id_ := skt_id_ main; next_id_ := next; prealloc_id_ := prealloc |}], gen)
  | S more =>
      let prealloc_skt_id := GenerateNextSKTableID gen in
      let '(l, gen) := sub_ids more (prealloc_id_ main) (next_id_ main) prealloc_skt_id in
      ({| skt_id_ := skt_id_ main; next_id_ := prealloc_id_ main; prealloc_id_ := prealloc_skt_id |} :: l, gen)
  end.

(** The tables are sealed and written, the main one last; [address] is where the buffer
    of a table is. *)
Definition seal_ids (address : Z -> Z) (t : Ids * list Z) : option (Z * list Z) :=
  data ← seal (address (skt_id_ t.1)) t.2 (next_id_ t.1) (prealloc_id_ t.1); Some (skt_id_ t.1, data).

Definition write_queue {A} (l : list A) : list A := tail l ++ match l with x :: _ => [x] | [] => [] end.

Definition put_all `{Env D} (d : D) (queue : list (Z * list Z)) : D := foldl (fun d t => EnvPut d t.1 t.2) d queue.

(** What is left of [FlushSKTableMem]: the tables with the keys they begin with, and
    what is put to the device, in order. *)
Record Flushed : Type := { fl_tables : list (list Z * Ids); fl_queue : list (Z * list Z); fl_gen : Z }.

Definition FlushTables `{RawMalloc} (address : Z -> Z) (kMaxSKTableSize kMaxColumnCount : nat) (HasBeenFlushed first_table : bool) (fuel steps : nat) (begin_key : list Z)
    (n : SKTDFCacheNode) (ukeys : list UserKey) (main : Ids) (deleted : list (Z * Z)) (gen : Z) : option Flushed :=
  tables ← build_tables kMaxSKTableSize kMaxColumnCount HasBeenFlushed first_table fuel steps false begin_key n ukeys (Z.of_nat SKTDF_BEGIN_KEY_OFFSET) 0;
  let skt_list := omap (fun t => '(_, slice) ← t.2; Some (t.1, slice)) tables in
  let '(ids, gen) := assign_ids (length skt_list - 1) main deleted gen in
  sealed ← mapM (seal_ids address) (zip ids (map snd skt_list));
  Some {| fl_tables := zip (map fst skt_list) ids; fl_queue := write_queue sealed; fl_gen := gen |}.
End Finish.

End Code.
