(* ===== verification/SktRows.v ===== *)
(** * Tables of InSDB: what a loaded table says

    A table in memory stands for a list of rows.  Reading the row at an offset, walking
    from row to row and the binary search agree with that list, and the two functions
    that write into a loaded table change the row they mean. *)

From Stdlib Require Import ZArith Lia Bool Sorting.
From stdpp Require Import base list sorting.
From S2P Require Import Prelude Coding Slices Crc32c Buffers SktFormat.

(** A key and its column information. *)
Abbreviation Row := (list Z * list Z)%type.

Section Rows.
  Context `{Processor}.
  Hypothesis Hle : kLittleEndian = true.
  Local Open Scope cword_scope.

(** ** The layout *)

(** What follows the two sizes of a row. *)
Definition row_info (sh : nat) (suf cols : list Z) : list Z := EncodeVarint16 (Z.of_nat sh) ++ EncodeVarint16 (Z.of_nat (length suf)) ++ suf ++ cols.
Definition row_bytes (prev : Z) (info : list Z) : list Z := le_bytes 2 prev ++ le_bytes 2 (Z.of_nat (4 + length info)) ++ info.

(** Where the second row starts: the first one shares nothing with the base key. *)
Definition second_key (rows : list Row) : nat := match rows with [] => 40 | (key, cols) :: _ => 44 + length (row_info 0 key cols) end.

(** The rows from a position on, with the bytes and the offsets of them. *)
Inductive Rows (base : list Z) : nat -> list Row -> list Z -> list Z -> Prop :=
| Rows_nil pos : Rows base pos [] [] []
| Rows_cons pos prev sh suf cols rows bytes offs : (sh <= length base)%nat -> Z.of_nat sh < 2 ^ 16 -> Z.of_nat (length suf) < 2 ^ 16 -> cols <> [] ->
    Z.of_nat (4 + length (row_info sh suf cols)) < 2 ^ 16 -> Rows base (pos + (4 + length (row_info sh suf cols))) rows bytes offs ->
    Rows base pos ((take sh base ++ suf, cols) :: rows) (row_bytes prev (row_info sh suf cols) ++ bytes) (Z.of_nat pos :: offs).

Definition offset_table (offs : list Z) : list Z := concat (map (le_bytes 4) offs).

(** The contents of a table. *)
Definition table_bytes (hdr bytes base : list Z) (offs : list Z) (tail : list Z) : list Z :=
  hdr ++ bytes ++ le_bytes 2 (Z.of_nat (length base)) ++ base ++ offset_table offs ++ tail.

Record Layout (buf : list Z) (rows : list Row) (hdr bytes base : list Z) (offs tail : list Z) : Prop := {
  ly_buf : buf = table_bytes hdr bytes base offs tail;
  ly_hdr : length hdr = SKTDF_BEGIN_KEY_OFFSET;
  ly_rows : Rows base SKTDF_BEGIN_KEY_OFFSET rows bytes offs;
  ly_base : Z.of_nat (length base) < 2 ^ 16;
  ly_size : Z.of_nat (length hdr + length bytes) < 2 ^ 31;
  ly_count : load32 buf SKTDF_NR_KEY_OFFSET = Some (Z.of_nat (length rows));
  ly_info : load32 buf SKTDF_INFO_2_OFFSET = Some (Z.of_nat (length hdr + length bytes));
}.

(** A loaded table, its rows and their offsets. *)
Definition Table (n : SKTDFCacheNode) (rows : list Row) (offs : list Z) : Prop := exists hdr bytes base tail,
  Layout (device_format_ n) rows hdr bytes base offs tail /\ base_pos_ n = (length hdr + length bytes + 2)%nat /\ base_size_ n = length base.

Lemma length_row_bytes prev info : length (row_bytes prev info) = (4 + length info)%nat.
Proof. unfold row_bytes. rewrite !length_app, !length_le_bytes. lia. Qed.

(** ** Reading at an offset *)

Lemma row_at_spec n a prev info b : device_format_ n = a ++ row_bytes prev info ++ b -> Z.of_nat (4 + length info) < 2 ^ 16 ->
  row_at n (Z.of_nat (length a)) = Some (Z.of_nat (4 + length info), info) /\ is_Some (DecodeFixed16 kLittleEndian (at_ n (Z.of_nat (length a)))).
Proof.
  intros E Hsz. unfold row_at, at_, row_bytes in *. rewrite E. split.
  2: { rewrite Nat2Z.id, drop_app_exact, <- !app_assoc, <- (EncodeFixed16_le kLittleEndian prev), DecodeFixed16_app by done. by eexists. }
  replace (Z.to_nat (Z.of_nat (length a) + 2)) with (length (a ++ le_bytes 2 prev)) by (rewrite length_app, length_le_bytes; lia). rewrite Nat2Z.id.
  assert (a ++ (le_bytes 2 prev ++ le_bytes 2 (Z.of_nat (4 + length info)) ++ info) ++ b =
    (a ++ le_bytes 2 prev) ++ le_bytes 2 (Z.of_nat (4 + length info)) ++ info ++ b) as E2 by (by rewrite <- !app_assoc).
  rewrite E2 at 1. rewrite drop_app_exact by done. rewrite <- (EncodeFixed16_le kLittleEndian (Z.of_nat (4 + length info))) at 1. rewrite DecodeFixed16_app.
  cbn [mbind option_bind]. assert (u16 (Z.of_nat (4 + length info)) = Z.of_nat (4 + length info)) as -> by (apply wrap_small; lia).
  destruct (Z.ltb_spec (Z.of_nat (4 + length info)) 4); [lia|].
  rewrite (get_at_eq _ _ _ ((a ++ le_bytes 2 prev) ++ le_bytes 2 (Z.of_nat (4 + length info))) info b).
  - done.
  - by rewrite <- !app_assoc.
  - rewrite !length_app, !length_le_bytes. lia.
  - lia.
Qed.

Lemma decode_key_spec n a base b sh suf cols : device_format_ n = a ++ base ++ b -> base_pos_ n = length a -> (sh <= length base)%nat -> Z.of_nat sh < 2 ^ 16 ->
  Z.of_nat (length suf) < 2 ^ 16 -> decode_key n (row_info sh suf cols) = Some (take sh base ++ suf, cols).
Proof.
  intros E Hp Hsh Hs Hl. unfold decode_key, row_info. rewrite GetVarint16_app by lia. cbn [mbind option_bind]. rewrite Nat2Z.id, E, Hp.
  rewrite (get_at_eq _ _ _ a (take sh base) (drop sh base ++ b)); [|by rewrite (app_assoc (take sh base)), take_drop|done|rewrite length_take; lia].
  cbn [mbind option_bind]. rewrite GetVarint16_app by lia. cbn [mbind option_bind]. rewrite Nat2Z.id, (get_at_eq _ _ _ [] suf cols) by done.
  cbn [mbind option_bind]. by rewrite drop_app_exact.
Qed.

Lemma Rows_split base pos rows bytes offs i key cols : Rows base pos rows bytes offs -> rows !! i = Some (key, cols) -> exists b1 prev sh suf b2,
  bytes = b1 ++ row_bytes prev (row_info sh suf cols) ++ b2 /\ key = take sh base ++ suf /\ (sh <= length base)%nat /\ Z.of_nat sh < 2 ^ 16 /\
  Z.of_nat (length suf) < 2 ^ 16 /\ cols <> [] /\ Z.of_nat (4 + length (row_info sh suf cols)) < 2 ^ 16 /\ offs !! i = Some (Z.of_nat (pos + length b1)) /\
  Rows base (pos + length b1 + (4 + length (row_info sh suf cols))) (drop (S i) rows) b2 (drop (S i) offs) /\
  forall cols', length cols' = length cols -> Rows base pos (<[i := (key, cols')]> rows) (b1 ++ row_bytes prev (row_info sh suf cols') ++ b2) offs.
Proof.
  intros Hr. revert i. induction Hr as [|pos prev sh suf cols' rows bytes offs Hsh Hs Hl Hc Hsz Hr IH]; intros i Hi; [done|].
  assert (forall c, length c = length cols' -> length (row_info sh suf c) = length (row_info sh suf cols')) as Hlen by (intros c E; unfold row_info; rewrite !length_app; lia).
  destruct i as [|i]; cbn [lookup list_lookup] in Hi.
  - injection Hi as <- <-. exists [], prev, sh, suf, bytes. cbn [length app drop insert list_insert]. rewrite Nat.add_0_r. split_and!; try done.
    intros c Ec. rewrite <- (Hlen c Ec) in *. constructor; try done. by destruct c, cols'.
  - destruct (IH i Hi) as (b1 & prev' & sh' & suf' & b2 & -> & -> & H1 & H2 & H3 & H4 & H5 & Ho & Hrest & Hset).
    exists (row_bytes prev (row_info sh suf cols') ++ b1), prev', sh', suf', b2. rewrite length_app, length_row_bytes. cbn [drop lookup list_lookup].
    assert (forall x, (pos + (4 + length (row_info sh suf cols') + x) = pos + (4 + length (row_info sh suf cols')) + x)%nat) as Epos by lia.
    rewrite Epos. split_and!; try done; [by rewrite <- app_assoc|].
    intros c Ec. rewrite <- app_assoc. cbn [insert list_insert]. constructor; try done. by apply Hset.
Qed.

Lemma length_offset_table offs : length (offset_table offs) = (4 * length offs)%nat.
Proof. induction offs as [|o offs IH]; [done|]. unfold offset_table in *. cbn [map concat length]. rewrite length_app, length_le_bytes, IH. lia. Qed.

Lemma offset_table_load buf a offs b i o : buf = a ++ offset_table offs ++ b -> offs !! i = Some o -> 0 <= o < 2 ^ 32 -> load32 buf (length a + 4 * i) = Some o.
Proof.
  intros -> Hi Ho. rewrite <- (take_drop_middle offs i o Hi). unfold offset_table. rewrite map_app, concat_app. cbn [map concat]. fold (offset_table (take i offs)).
  rewrite <- !app_assoc, app_assoc. pose proof (lookup_lt_Some _ _ _ Hi).
  replace (length a + 4 * i)%nat with (length (a ++ offset_table (take i offs))) by (rewrite length_app, length_offset_table, length_take; lia).
  rewrite load32_app by done. f_equal. by apply wrap_small.
Qed.

Lemma Rows_length base pos rows bytes offs : Rows base pos rows bytes offs -> length offs = length rows.
Proof. induction 1 as [|pos prev sh suf cols rows bytes offs H1 H2 H3 H4 H5 Hr IH]; [done|]. cbn [length]. by rewrite IH. Qed.

(** Everything about row [i] of a table. *)
Record RowAt (n : SKTDFCacheNode) (rows : list Row) (offs : list Z) (i : nat) (key cols : list Z) (off : Z) (info : list Z) : Prop := {
  ra_offset : load32 (device_format_ n) (key_offset_pos n + 4 * i) = Some off;
  ra_row : row_at n off = Some (Z.of_nat (4 + length info), info);
  ra_prev : is_Some (DecodeFixed16 kLittleEndian (at_ n off));
  ra_key : decode_key n info = Some (key, cols);
  ra_next : next_key_offset n off (Z.of_nat (4 + length info)) = Some (default 0 (offs !! S i));
  ra_pos : offs !! i = Some off /\ Z.of_nat SKTDF_BEGIN_KEY_OFFSET <= off;
  ra_cols : exists a b, device_format_ n = a ++ cols ++ b /\ length a = (Z.to_nat (off + Z.of_nat (4 + length info)) - length cols)%nat /\
    forall cols', length cols' = length cols -> Table (set_buffer n (a ++ cols' ++ b)) (<[i := (key, cols')]> rows) offs;
  ra_info : exists sh suf, info = row_info sh suf cols /\ Z.of_nat sh < 2 ^ 16 /\ Z.of_nat (length suf) < 2 ^ 16;
  ra_nonempty : cols <> [];
}.

Lemma Rows_bound base pos rows bytes offs i off : Rows base pos rows bytes offs -> offs !! i = Some off -> Z.of_nat pos <= off < Z.of_nat (pos + length bytes).
Proof.
  intros Hr. revert i. induction Hr as [|pos prev sh suf cols rows bytes offs H1 H2 H3 H4 H5 Hr IH]; intros i Hi; [done|].
  rewrite length_app, length_row_bytes. destruct i as [|i]; [injection Hi as <-; lia|]. specialize (IH i Hi). lia.
Qed.

Lemma Rows_head base pos rows bytes offs : Rows base pos rows bytes offs ->
  length bytes = 0%nat /\ offs !! 0%nat = None \/ (0 < length bytes)%nat /\ offs !! 0%nat = Some (Z.of_nat pos).
Proof. intros []; [by left|right]. rewrite length_app, length_row_bytes. split; [lia|done]. Qed.

Lemma load32_front a b c k : (k + 4 <= length a)%nat -> load32 (a ++ b) k = load32 (a ++ c) k.
Proof.
  intros Hk. destruct (buffer_split a k 4) as (x & y & z & -> & Hx & Hy & _); [lia|]. unfold load32. rewrite <- !app_assoc.
  rewrite (get_at_eq _ k 4 x y (z ++ b)), (get_at_eq _ k 4 x y (z ++ c)) by done. done.
Qed.

Lemma Layout_set buf rows hdr bytes base offs tail i key cols cols' b1 prev sh suf b2 : Layout buf rows hdr bytes base offs tail ->
  rows !! i = Some (key, cols) -> bytes = b1 ++ row_bytes prev (row_info sh suf cols) ++ b2 -> length cols' = length cols ->
  Rows base SKTDF_BEGIN_KEY_OFFSET (<[i := (key, cols')]> rows) (b1 ++ row_bytes prev (row_info sh suf cols') ++ b2) offs ->
  Layout (table_bytes hdr (b1 ++ row_bytes prev (row_info sh suf cols') ++ b2) base offs tail) (<[i := (key, cols')]> rows) hdr
    (b1 ++ row_bytes prev (row_info sh suf cols') ++ b2) base offs tail.
Proof.
  intros [Eb Hh Hr Hb Hs Hc Hi] Hrow E Hl Hr'.
  assert (length (b1 ++ row_bytes prev (row_info sh suf cols') ++ b2) = length bytes) as El.
  { rewrite E, !length_app, !length_row_bytes. unfold row_info. rewrite !length_app. lia. }
  assert (forall k, (k + 4 <= 40)%nat -> load32 (table_bytes hdr (b1 ++ row_bytes prev (row_info sh suf cols') ++ b2) base offs tail) k = load32 buf k) as Hld.
  { intros k Hk. rewrite Eb. apply load32_front. rewrite Hh. done. }
  split; try done; rewrite ?El, ?Hld, ?length_insert; try done; unfold SKTDF_NR_KEY_OFFSET, SKTDF_INFO_2_OFFSET; lia.
Qed.

Lemma Table_row n rows offs i key cols : Table n rows offs -> rows !! i = Some (key, cols) -> exists off info, RowAt n rows offs i key cols off info.
Proof.
  intros (hdr & bytes & base & tail & HL & Hp & Hb) Hi. pose proof HL as [Ebuf Hh Hr Hbs Hsz _ Hinfo]. unfold SKTDF_BEGIN_KEY_OFFSET in *.
  destruct (Rows_split _ _ _ _ _ _ _ _ Hr Hi) as (b1 & prev & sh & suf & b2 & Eb & -> & H1 & H2 & H3 & H4 & H5 & Ho & Hrest & Hset).
  set (info := row_info sh suf cols) in *. exists (Z.of_nat (40 + length b1)), info.
  pose proof (Rows_bound _ _ _ _ _ _ _ Hr Ho) as Hbound. rewrite Hh in *.
  assert (length bytes = length b1 + (4 + length info) + length b2)%nat as Elen by (rewrite Eb, !length_app, length_row_bytes; lia).
  assert (exists rest, device_format_ n = (hdr ++ b1) ++ row_bytes prev info ++ rest) as [rest Erow].
  { exists (b2 ++ le_bytes 2 (Z.of_nat (length base)) ++ base ++ offset_table offs ++ tail). rewrite Ebuf. unfold table_bytes. rewrite Eb. by rewrite <- !app_assoc. }
  assert (Z.of_nat (40 + length b1) = Z.of_nat (length (hdr ++ b1))) as Eoff by (rewrite length_app; lia).
  destruct (row_at_spec n (hdr ++ b1) prev info rest Erow) as [Hrow Hprev]; [done|]. rewrite <- Eoff in *.
  split; try done.
  - unfold key_offset_pos. rewrite Hp, Hb.
    replace (40 + length bytes + 2 + length base)%nat with (length (hdr ++ bytes ++ le_bytes 2 (Z.of_nat (length base)) ++ base)) by (rewrite !length_app, length_le_bytes; lia).
    apply (offset_table_load _ _ offs tail); [|done|lia]. rewrite Ebuf. unfold table_bytes. by rewrite <- !app_assoc.
  - apply (decode_key_spec n (hdr ++ bytes ++ le_bytes 2 (Z.of_nat (length base))) base (offset_table offs ++ tail)); try done.
    + rewrite Ebuf. unfold table_bytes. by rewrite <- !app_assoc.
    + rewrite Hp, !length_app, length_le_bytes. lia.
  - unfold next_key_offset. rewrite Hinfo. cbn [mbind option_bind].
    assert (u32 (Z.of_nat (4 + length info) + Z.of_nat (40 + length b1)) = Z.of_nat (40 + length b1 + (4 + length info))) as -> by (unfold u32; rewrite wrap_small; lia).
    f_equal. rewrite <- (Nat.add_0_r (S i)), <- lookup_drop. destruct (Z.eqb_spec (Z.of_nat (40 + length b1 + (4 + length info))) (Z.of_nat (40 + length bytes)));
      destruct (Rows_head _ _ _ _ _ Hrest) as [[? ->]|[? ->]]; done || lia.
  - split; [done|]. unfold SKTDF_BEGIN_KEY_OFFSET. lia.
  - exists (hdr ++ b1 ++ le_bytes 2 prev ++ le_bytes 2 (Z.of_nat (4 + length info)) ++ EncodeVarint16 (Z.of_nat sh) ++ EncodeVarint16 (Z.of_nat (length suf)) ++ suf),
      (b2 ++ le_bytes 2 (Z.of_nat (length base)) ++ base ++ offset_table offs ++ tail).
    assert (forall c, length c = length cols -> (hdr ++ b1 ++ le_bytes 2 prev ++ le_bytes 2 (Z.of_nat (4 + length info)) ++ EncodeVarint16 (Z.of_nat sh) ++
      EncodeVarint16 (Z.of_nat (length suf)) ++ suf) ++ c ++ b2 ++ le_bytes 2 (Z.of_nat (length base)) ++ base ++ offset_table offs ++ tail =
      table_bytes hdr (b1 ++ row_bytes prev (row_info sh suf c) ++ b2) base offs tail) as Eall.
    { intros c Ec. assert (length info = length (row_info sh suf c)) as -> by (unfold info, row_info; rewrite !length_app; lia).
      unfold table_bytes, row_bytes. unfold row_info at 3. by rewrite <- !app_assoc. }
    split; [by rewrite Ebuf, Eall, Eb|]. split.
    { unfold info, row_info. rewrite !length_app, !length_le_bytes. lia. }
    intros c Ec. rewrite Eall by done. exists hdr, (b1 ++ row_bytes prev (row_info sh suf c) ++ b2), base, tail. cbn [set_buffer device_format_ base_pos_ base_size_].
    split; [|split; [|done]].
    + by eapply Layout_set; eauto.
    + rewrite Hp, Elen, !length_app, length_row_bytes. unfold info, row_info. rewrite !length_app. lia.
  - exists sh, suf. done.
Qed.

(** ** The readers *)

Lemma GetKeyWithOffset_spec n rows offs i key cols off : Table n rows offs -> rows !! i = Some (key, cols) -> offs !! i = Some off ->
  GetKeyWithOffset n off = Some (key, cols, default 0 (offs !! S i)).
Proof.
  intros HT Hi Ho. destruct (Table_row _ _ _ _ _ _ HT Hi) as (off' & info & [_ Hrow [p Hp] Hkey Hnext [Ho' _] _ _ _]). assert (off' = off) as -> by congruence.
  unfold GetKeyWithOffset. rewrite Hp. cbn [mbind option_bind]. rewrite Hrow. cbn [mbind option_bind]. rewrite Hnext. cbn [mbind option_bind]. by rewrite Hkey.
Qed.

Lemma GetColumnInfoWithOffset_spec n rows offs i key cols off : Table n rows offs -> rows !! i = Some (key, cols) -> offs !! i = Some off -> exists pos a b,
  GetColumnInfoWithOffset n off = Some (pos, cols) /\ device_format_ n = a ++ cols ++ b /\ pos = length a /\
  forall cols', length cols' = length cols -> Table (set_buffer n (a ++ cols' ++ b)) (<[i := (key, cols')]> rows) offs.
Proof.
  intros HT Hi Ho. destruct (Table_row _ _ _ _ _ _ HT Hi) as (off' & info & [_ Hrow _ _ _ [Ho' _] (a & b & Ea & Hla & Hset) (sh & suf & Einfo & Hsh & Hsuf) _]).
  assert (off' = off) as -> by congruence. exists (length a), a, b. split; [|done]. unfold GetColumnInfoWithOffset. rewrite Hrow. cbn [mbind option_bind].
  assert (GetVarint16 info = Some (Z.of_nat sh, EncodeVarint16 (Z.of_nat (length suf)) ++ suf ++ cols)) as -> by (rewrite Einfo; apply GetVarint16_app; lia).
  cbn [mbind option_bind]. rewrite GetVarint16_app by lia. cbn [mbind option_bind]. rewrite Hla.
  rewrite length_app. destruct (Z.ltb_spec (Z.of_nat (length suf + length cols)) (Z.of_nat (length suf))); [lia|]. by rewrite Nat2Z.id, drop_app_exact.
Qed.

Lemma ClearValidColumnCount_spec n rows offs i key b0 cols off : Table n rows offs -> rows !! i = Some (key, b0 :: cols) -> offs !! i = Some off -> exists n',
  ClearValidColumnCount n off = Some n' /\ Table n' (<[i := (key, 0 :: cols)]> rows) offs.
Proof.
  intros HT Hi Ho. destruct (GetColumnInfoWithOffset_spec _ _ _ _ _ _ _ HT Hi Ho) as (pos & a & b & E & Ea & -> & Hset).
  unfold ClearValidColumnCount. rewrite E. cbn [mbind option_bind]. rewrite (put_at_eq _ _ a [b0] (cols ++ b)) by done. cbn [mbind option_bind].
  eexists. split; [done|]. by apply (Hset (0 :: cols)).
Qed.

Lemma Rows_count base pos rows bytes offs : Rows base pos rows bytes offs -> (length rows <= length bytes)%nat.
Proof. induction 1 as [|pos prev sh suf cols rows bytes offs H1 H2 H3 H4 H5 Hr IH]; [done|]. rewrite length_app, length_row_bytes. cbn [length]. lia. Qed.

Lemma Table_count n rows offs : Table n rows offs -> GetKeyCount n = Some (Z.of_nat (length rows)) /\ Z.of_nat (length rows) < 2 ^ 31 /\ length offs = length rows.
Proof.
  intros (hdr & bytes & base & tail & [_ _ Hr _ Hs Hc _] & _ & _). pose proof (Rows_count _ _ _ _ _ Hr). split; [|split; [lia|by eapply Rows_length]].
  unfold load32, get_at in Hc. unfold GetKeyCount. destruct (Nat.leb_spec (SKTDF_NR_KEY_OFFSET + 4) (length (device_format_ n))); [|done].
  cbn [mbind option_bind] in Hc. rewrite Hle in Hc. injection Hc as <-. pose proof (length_drop (device_format_ n) SKTDF_NR_KEY_OFFSET) as Hl.
  destruct (drop SKTDF_NR_KEY_OFFSET (device_format_ n)) as [|x0 [|x1 [|x2 [|x3 l]]]]; cbn [length] in Hl; try lia. rewrite Hle. done.
Qed.

(** ** The search *)

Definition sorted (rows : list Row) : Prop := forall i j ki ci kj cj, (i < j)%nat -> rows !! i = Some (ki, ci) -> rows !! j = Some (kj, cj) -> lex ki kj = Lt.

Fixpoint cols_of (rows : list Row) (key : list Z) : option (list Z) :=
  match rows with
  | [] => None
  | (k, cols) :: rows => if decide (k = key) then Some cols else cols_of rows key
  end.

(** A row whose count of columns was cleared has none. *)
Definition visible (cols : option (list Z)) : list Z :=
  match cols with
  | Some (b0 :: cols) => if b0 =? 0 then [] else b0 :: cols
  | _ => []
  end.

Lemma cols_of_sorted rows i key cols : sorted rows -> rows !! i = Some (key, cols) -> cols_of rows key = Some cols.
Proof.
  revert i. induction rows as [|[k c] rows IH]; intros i Hs Hi; [done|]. cbn [cols_of]. destruct i as [|i].
  - injection Hi as -> ->. by rewrite decide_True.
  - rewrite decide_False.
    + apply (IH i); [|done]. intros x y ki ci kj cj Hxy Hx Hy. apply (Hs (S x) (S y) ki ci kj cj); [lia|done|done].
    + intros ->. pose proof (Hs 0%nat (S i) _ _ _ _ (Nat.lt_0_succ i) eq_refl Hi) as E. by rewrite lex_refl in E.
Qed.

Lemma cols_of_absent rows key : (forall i k c, rows !! i = Some (k, c) -> k <> key) -> cols_of rows key = None.
Proof.
  induction rows as [|[k c] rows IH]; intros Ha; [done|]. cbn [cols_of]. rewrite decide_False by exact (Ha 0%nat _ _ eq_refl).
  apply IH. intros i. exact (Ha (S i)).
Qed.

(** Where the search found the columns [cols]. *)
Definition FoundAt (n : SKTDFCacheNode) (rows : list Row) (offs : list Z) (key : list Z) (pos : nat) (cols : list Z) : Prop :=
  exists i a b, rows !! i = Some (key, cols) /\ device_format_ n = a ++ cols ++ b /\ pos = length a /\
    forall cols', length cols' = length cols -> Table (set_buffer n (a ++ cols' ++ b)) (<[i := (key, cols')]> rows) offs.

Lemma binary_search_spec n rows offs key : Table n rows offs -> sorted rows -> forall fuel left right, (right - left < fuel)%nat -> (left <= right <= length rows)%nat ->
  (forall i k c, (i < left)%nat -> rows !! i = Some (k, c) -> lex k key = Lt) -> (forall i k c, (right <= i)%nat -> rows !! i = Some (k, c) -> lex key k = Lt) ->
  exists pos, search fuel n key (Z.of_nat left) (Z.of_nat right) = Some (pos, visible (cols_of rows key)) /\
    (visible (cols_of rows key) <> [] -> FoundAt n rows offs key pos (visible (cols_of rows key))).
Proof.
  intros HT Hs. destruct (Table_count _ _ _ HT) as (_ & Hc & _). induction fuel as [|fuel IH]; intros left right Hf Hb Hlo Hhi; [lia|]. cbn [search].
  destruct (Z.ltb_spec (Z.of_nat left) (Z.of_nat right)) as [Hlt|Hge].
  2: { exists 0%nat. assert (cols_of rows key = None) as ->; [|by split]. apply cols_of_absent. intros i k c Hi ->. destruct (Nat.lt_ge_cases i left).
       - pose proof (Hlo i _ _ ltac:(done) Hi) as E. by rewrite lex_refl in E.
       - pose proof (Hhi i _ _ ltac:(lia) Hi) as E. by rewrite lex_refl in E. }
  assert (u32 (Z.of_nat left + Z.of_nat right) / 2 = Z.of_nat ((left + right) / 2)) as ->.
  { unfold u32. rewrite wrap_small by lia. rewrite Nat2Z.inj_div. f_equal. lia. }
  assert (left <= (left + right) / 2 < right)%nat as Hmid.
  { split; [apply Nat.div_le_lower_bound; lia|apply Nat.Div0.div_lt_upper_bound; lia]. }
  set (mid := ((left + right) / 2)%nat) in *. clearbody mid.
  destruct (lookup_lt_is_Some_2 rows mid) as [[k c] Hk]; [lia|]. destruct (Table_row _ _ _ _ _ _ HT Hk) as (off & info & [Hoff Hrow _ Hkey _ _ (a & b & Ea & Hla & Hset) _ Hne]).
  rewrite Nat2Z.id, Hoff. cbn [mbind option_bind]. rewrite Hrow. cbn [mbind option_bind]. rewrite Hkey. cbn [mbind option_bind]. rewrite compare_lex.
  destruct (lex k key) eqn:El; cbn [sign Z.ltb Z.compare].
  - apply lex_eq in El as ->. rewrite (cols_of_sorted _ _ _ _ Hs Hk) in *. destruct c as [|b0 c]; [done|]. cbn [visible]. destruct (Z.eqb_spec b0 0); [by exists 0%nat|].
    eexists. split; [done|]. intros _. exists mid, a, b. by rewrite Hla.
  - replace (Z.of_nat mid + 1) with (Z.of_nat (S mid)) by lia. apply IH; [lia|lia| |done]. intros i k' c' Hi Hk'. destruct (decide (i = mid)) as [->|]; [rewrite Hk in Hk'; by injection Hk' as <- <-|].
    apply lex_trans with k; [|done]. apply (Hs i mid k' c' k c); [lia|done|done].
  - apply IH; [lia|lia|done|]. intros i k' c' Hi Hk'. rewrite lex_antisym in El. destruct (lex key k) eqn:El'; try done.
    destruct (decide (i = mid)) as [->|]; [rewrite Hk in Hk'; by injection Hk' as <- <-|]. apply lex_trans with k; [done|]. apply (Hs mid i k c k' c'); [lia|done|done].
Qed.

(** The search finds the columns of a key, and nothing for a key that the table does
    not have. *)
Lemma GetKeyColumnInfobyHash_spec n rows offs key : Table n rows offs -> sorted rows -> exists pos,
  GetKeyColumnInfobyHash n key = Some (pos, visible (cols_of rows key)) /\ (visible (cols_of rows key) <> [] -> FoundAt n rows offs key pos (visible (cols_of rows key))).
Proof.
  intros HT Hs. destruct (Table_count _ _ _ HT) as (Hc & Hb & _). unfold GetKeyColumnInfobyHash. rewrite Hc. cbn [mbind option_bind]. rewrite Nat2Z.id.
  apply (binary_search_spec _ _ _ key HT Hs (S (length rows)) 0 (length rows)); [lia|lia|lia|]. intros i k c Hi Hk. apply lookup_lt_Some in Hk. lia.
Qed.

End Rows.
