(* ===== verification/SktColumns.v ===== *)
(** * Tables of InSDB: the columns of a row

    The columns of a row are read back as they were written, by [InsertColumnNodes] and by
    the loop of [GetColumnInfo], also after the reference bits of some were set, provided
    that every column has a sequence number. *)

From Stdlib Require Import ZArith Lia Bool.
From stdpp Require Import base list.
From S2P Require Import Prelude Coding Slices Crc32c Buffers SktFormat SktRows.

Section Columns.
  Local Open Scope cword_scope.

Record ColumnOk (v : Column) : Prop := {
  co_id : 0 <= vc_id v < 64;
  co_offset : 0 <= vc_offset v < 64;
  co_seq : 0 < vc_seq v < 2 ^ 63;
  co_ts : 0 <= vc_ts v < 2 ^ 63;
  co_ikey : 0 <= vc_ikey v < 2 ^ 63;
  co_size : 0 <= vc_size v < 2 ^ 32;
}.

(** The flags of a column with a sequence number, and what follows them. *)
Definition flag_byte (v : Column) : Z := vc_offset v + 128 + if vc_ts v =? 0 then 0 else 64.
Definition column_tail (v : Column) : list Z :=
  EncodeVarint64 (vc_ikey v) ++ EncodeVarint32 (vc_size v) ++ EncodeVarint64 (vc_seq v) ++ if vc_ts v =? 0 then [] else EncodeVarint64 (vc_ts v).

(** The bytes of columns; the two upper bits of the first byte of each are free. *)
Inductive Entries : list Column -> list Z -> Prop :=
| Entries_nil : Entries [] []
| Entries_cons v b0 vs bytes : ColumnOk v -> b0 & COLUMN_NODE_ID_MASK = vc_id v -> Entries vs bytes -> Entries (v :: vs) (b0 :: flag_byte v :: column_tail v ++ bytes).

Lemma flag_byte_bits v : ColumnOk v -> (flag_byte v & COLUMN_NODE_HAS_SEQ_NUM_BIT =? 0) = false /\ (flag_byte v & COLUMN_NODE_HAS_TTL_BIT =? 0) = (vc_ts v =? 0) /\
  flag_byte v & COLUMN_NODE_OFFSET_MASK = vc_offset v /\
  (let f := u8 (vc_offset v |: (1 << SEQ_NUM_SHIFT)) in if vc_ts v =? 0 then f else u8 (f |: (1 << TTL_SHIFT))) = flag_byte v.
Proof.
  intros [_ Ho _ _ _ _]. unfold flag_byte. generalize (vc_ts v =? 0) as t. intros t.
  pose proof (forall_below 64 (fun o => let f := o + 128 + (if t then 0 else 64) in let g := u8 (o |: (1 << SEQ_NUM_SHIFT)) in
    Bool.eqb (f & COLUMN_NODE_HAS_SEQ_NUM_BIT =? 0) false && Bool.eqb (f & COLUMN_NODE_HAS_TTL_BIT =? 0) t && (f & COLUMN_NODE_OFFSET_MASK =? o) &&
    ((if t then g else u8 (g |: (1 << TTL_SHIFT))) =? f)) ltac:(destruct t; vm_compute; reflexivity) (vc_offset v) Ho) as E.
  cbv beta zeta in E. rewrite !andb_true_iff, !eqb_true_iff, !Z.eqb_eq in E. cbv zeta. tauto.
Qed.

Lemma ref_bits b0 : 0 <= b0 < 256 -> u8 (b0 |: COLUMN_NODE_REF_BIT) & COLUMN_NODE_ID_MASK = b0 & COLUMN_NODE_ID_MASK.
Proof. intros Hb. apply Z.eqb_eq. revert b0 Hb. apply (forall_below 256). vm_compute. reflexivity. Qed.

(** ** Writing *)

Lemma encode_column_ok v : ColumnOk v -> encode_column 0 v = vc_id v :: flag_byte v :: column_tail v.
Proof.
  intros Hv. pose proof Hv as [_ _ Hs _ _ _]. destruct (flag_byte_bits v Hv) as (_ & _ & _ & E). unfold encode_column, column_tail.
  destruct (Z.ltb_spec (vc_seq v) 0); [lia|]. cbv zeta in E. rewrite E. destruct (Z.eqb_spec (vc_seq v) 0); [lia|]. done.
Qed.

Lemma encode_columns_entries vs : Forall ColumnOk vs -> (length vs < 256)%nat -> exists bytes, encode_columns vs = Z.of_nat (length vs) :: bytes /\ Entries vs bytes.
Proof.
  intros Hok Hl. unfold encode_columns. unfold u8. rewrite wrap_small by lia. eexists. split; [done|]. clear Hl.
  induction Hok as [|v vs Hv _ IH]; [constructor|]. cbn [map concat]. rewrite encode_column_ok by done. cbn [app]. constructor; [done| |done].
  destruct Hv as [Hi _ _ _ _ _]. unfold COLUMN_NODE_ID_MASK. change 0x3F with (Z.ones 6). rewrite Z.land_ones by lia. apply Z.mod_small. lia.
Qed.

(** ** Reading *)

Lemma get64_app v x rest : 0 <= v < 2 ^ 63 -> get64 x (EncodeVarint64 v ++ rest) = (v, rest).
Proof. intros Hv. unfold get64. rewrite GetVarint64_app by lia. done. Qed.

Lemma get32_app v x rest : 0 <= v < 2 ^ 32 -> get32 x (EncodeVarint32 v ++ rest) = (v, rest).
Proof. intros Hv. unfold get32. by rewrite GetVarint32_app. Qed.

(** What is left of a node when the sequence numbers are discarded. *)
Definition fetched_node (valid_seq : bool) (v : Column) : Column :=
  {| vc_id := vc_id v; vc_offset := vc_offset v; vc_seq := if valid_seq then vc_seq v else 0; vc_ts := vc_ts v; vc_ikey := vc_ikey v; vc_size := vc_size v |}.

Lemma insert_columns_spec vs bytes valid_seq : Entries vs bytes -> forall x, insert_columns (length vs) valid_seq x bytes = Some (map (fetched_node valid_seq) vs).
Proof.
  induction 1 as [|v b0 vs bytes Hv Hb He IH]; intros x; [done|]. cbn [length insert_columns map]. unfold column_tail. rewrite <- !app_assoc.
  destruct (flag_byte_bits v Hv) as (E1 & E2 & E3 & _). pose proof Hv as [_ _ Hs Ht Hk Hz]. rewrite get64_app, get32_app, E1, get64_app, E2 by lia.
  destruct (Z.eqb_spec (vc_ts v) 0) as [Ets|Ets].
  - cbn [app]. rewrite IH. cbn [mbind option_bind]. rewrite Hb, E3. unfold fetched_node at 2. by rewrite Ets.
  - rewrite get64_app by lia. rewrite IH. cbn [mbind option_bind]. by rewrite Hb, E3.
Qed.

(** The column of a row that a reader at [seq_num] sees. *)
Definition column_visible (HasBeenFlushed : bool) (ttl_of_column seq_num cur_time : Z) (v : Column) : bool :=
  ((if HasBeenFlushed then vc_seq v else 0) <=? seq_num) && ((vc_ts v =? 0) || (ttl_of_column =? 0) || (cur_time <? u64 (vc_ts v + ttl_of_column))).

Fixpoint column_of (vs : list Column) (col_id : Z) : option Column :=
  match vs with
  | [] => None
  | v :: vs => if col_id =? vc_id v then Some v else column_of vs col_id
  end.

Definition scratch_pad (v : Column) : ColumnScratchPad := {| sp_ikey_seq_num := vc_ikey v; sp_ivalue_size := vc_size v; sp_offset := vc_offset v |}.

(** The answer is that of the list, and a reference to the first byte of the column. *)
Lemma find_column_spec flushed ttl col_id seq_num cur_time vs bytes : Entries vs bytes -> forall x pos, exists r,
  find_column (length vs) flushed ttl col_id seq_num cur_time x pos bytes = Some r /\
  fst <$> r = scratch_pad <$> (v ← column_of vs col_id; if column_visible flushed ttl seq_num cur_time v then Some v else None) /\
  forall pad p, r = Some (pad, p) -> exists a b0 b, bytes = a ++ b0 :: b /\ p = (pos + length a)%nat /\ (0 <= b0 < 256 -> Entries vs (a ++ u8 (b0 |: COLUMN_NODE_REF_BIT) :: b)).
Proof.
  induction 1 as [|v b0 vs bytes Hv Hb He IH]; intros x pos; [by exists None|]. cbn [length find_column column_of].
  destruct (flag_byte_bits v Hv) as (E1 & E2 & E3 & _). pose proof Hv as [_ _ Hs Ht Hk Hz]. unfold column_tail at 1 2. rewrite <- !app_assoc.
  rewrite get64_app, get32_app, Hb by lia. destruct (Z.eqb_spec col_id (vc_id v)) as [->|Hid].
  - rewrite E1, get64_app, E2 by lia. cbn [mbind option_bind].
    assert (forall A (k : Z -> list Z -> A), (let '(ttl', rest) := if vc_ts v =? 0 then (0, (if vc_ts v =? 0 then [] else EncodeVarint64 (vc_ts v)) ++ bytes)
      else get64 (va_ttl x) ((if vc_ts v =? 0 then [] else EncodeVarint64 (vc_ts v)) ++ bytes) in k ttl' rest) = k (vc_ts v) bytes) as Ettl.
    { intros A k. destruct (Z.eqb_spec (vc_ts v) 0) as [->|]; [done|]. by rewrite get64_app by lia. }
    rewrite Ettl, E3. fold (column_visible flushed ttl seq_num cur_time v). destruct (column_visible flushed ttl seq_num cur_time v); eexists; (split; [done|]); split; try done.
    intros pad p [= <- <-]. exists [], b0, (flag_byte v :: column_tail v ++ bytes). split; [done|]. split; [cbn; lia|]. intros Hb0. constructor; [done| |done]. by rewrite ref_bits.
  - rewrite E1, get64_app, E2 by lia.
    assert (forall A (k : Z -> list Z -> A), exists t, (let '(ttl', rest) := if vc_ts v =? 0 then (va_ttl x, (if vc_ts v =? 0 then [] else EncodeVarint64 (vc_ts v)) ++ bytes)
      else get64 (va_ttl x) ((if vc_ts v =? 0 then [] else EncodeVarint64 (vc_ts v)) ++ bytes) in k ttl' rest) = k t bytes) as Ettl.
    { intros A k. destruct (Z.eqb_spec (vc_ts v) 0) as [_|]; [by eexists|]. rewrite get64_app by lia. by eexists. }
    match goal with |- context [let '(a, b) := ?e in @?k a b] => destruct (Ettl _ k) as [t ->] end.
    match goal with |- context [find_column _ _ _ _ _ _ ?y ?p bytes] => destruct (IH y p) as (r & -> & Hr & Hp) end.
    exists r. split; [done|]. split; [done|]. intros pad p E. destruct (Hp pad p E) as (a & b1 & b & -> & -> & Hset).
    exists (b0 :: flag_byte v :: column_tail v ++ a), b1, b. cbn [length app]. rewrite !length_app. cbn [length].
    split; [by rewrite <- app_assoc|]. split; [unfold column_tail; rewrite !length_app; lia|]. intros Hb1. rewrite <- app_assoc. constructor; try done. by apply Hset.
Qed.

End Columns.
