(* ===== verification/SktBuild.v ===== *)
(** * Tables of InSDB: building

    The loop of the builder writes the merge of the user keys with the rows of the
    previous table, in tables that each hold a part of it. *)

From Stdlib Require Import ZArith Lia Bool.
From stdpp Require Import base list.
From S2P Require Import Prelude Coding Slices Crc32c Buffers SktFormat SktRows SktColumns.

(** ** Rows *)

Section Append.
  Context `{Processor}.

Lemma length_varint16 v : 0 <= v < 2 ^ 14 -> (1 <= length (EncodeVarint16 v) <= 2)%nat.
Proof.
  intros Hv. rewrite EncodeVarint16_64 by lia. split; [|apply length_EncodeVarint64; lia].
  rewrite EncodeVarint64_eq by lia. destruct (128 <=? v); cbn [length]; lia.
Qed.

Lemma length_varint16_pos v : 0 <= v < 2 ^ 16 -> (1 <= length (EncodeVarint16 v))%nat.
Proof. intros Hv. rewrite EncodeVarint16_64, EncodeVarint64_eq by lia. destruct (128 <=? v); cbn [length]; lia. Qed.

Lemma Rows_snoc base pos rows bytes offs prev sh suf cols : Rows base pos rows bytes offs -> (sh <= length base)%nat -> Z.of_nat sh < 2 ^ 16 ->
  Z.of_nat (length suf) < 2 ^ 16 -> cols <> [] -> Z.of_nat (4 + length (row_info sh suf cols)) < 2 ^ 16 ->
  Rows base pos (rows ++ [(take sh base ++ suf, cols)]) (bytes ++ row_bytes prev (row_info sh suf cols)) (offs ++ [Z.of_nat (pos + length bytes)]).
Proof.
  intros Hr Hsh Hs Hl Hc Hsz. induction Hr as [pos|pos prev' sh' suf' cols' rows bytes offs H1 H2 H3 H4 H5 Hr IH].
  - cbn [app length]. rewrite Nat.add_0_r, <- (app_nil_r (row_bytes prev (row_info sh suf cols))). constructor; try done. constructor.
  - cbn [app]. rewrite <- app_assoc, length_app, length_row_bytes, Nat.add_assoc. by constructor.
Qed.

Lemma Rows_rebase base pos rows bytes offs : Rows [] pos rows bytes offs -> Rows base pos rows bytes offs.
Proof.
  induction 1 as [|pos prev sh suf cols rows bytes offs H1 H2 H3 H4 H5 Hr IH]; [constructor|]. cbn [length] in H1. assert (sh = 0%nat) as -> by lia.
  rewrite take_nil, <- (take_0 base). by constructor; [lia|..].
Qed.

Lemma Rows_nil_bytes base pos bytes offs : Rows base pos [] bytes offs -> bytes = [].
Proof. by inversion 1. Qed.

Lemma Rows_empty_key pos cols bytes offs : Rows [] pos [([], cols)] bytes offs -> length bytes = (6 + length cols)%nat.
Proof.
  intros Hr. inversion Hr; subst. match goal with E : take ?sh [] ++ ?suf = [], Hs : (?sh <= _)%nat, Hn : Rows _ _ [] _ _ |- _ =>
    rewrite E in *; assert (sh = 0%nat) as -> by (cbn [length] in Hs; lia); rewrite take_nil in E; cbn [app] in E; subst suf; rewrite (Rows_nil_bytes _ _ _ _ Hn) end.
  rewrite length_app, length_row_bytes. unfold row_info. rewrite !length_app. change (EncodeVarint16 (Z.of_nat 0)) with [0]. change (EncodeVarint16 (Z.of_nat (length (@nil Z)))) with [0]. cbn [length]. lia.
Qed.

Lemma Rows_size base pos rows bytes offs : Rows base pos rows bytes offs -> (7 * length rows <= length bytes)%nat.
Proof.
  induction 1 as [|pos prev sh suf cols rows bytes offs H1 H2 H3 H4 H5 Hr IH]; [done|]. rewrite length_app, length_row_bytes. unfold row_info. rewrite !length_app.
  pose proof (length_varint16_pos (Z.of_nat sh) ltac:(lia)). pose proof (length_varint16_pos (Z.of_nat (length suf)) ltac:(lia)). destruct cols; [done|]. cbn [length] in *. lia.
Qed.

(** The first row takes at least seven bytes. *)
Lemma second_key_size base pos rows bytes offs : Rows base pos rows bytes offs -> rows <> [] -> (47 <= second_key rows)%nat.
Proof.
  intros [|pos' prev sh suf cols rows' bytes' offs' _ _ _ Hc _ _] Hne; [done|]. cbn [second_key]. generalize (take sh base ++ suf). intros key. unfold row_info. rewrite !length_app.
  assert (forall v, 1 <= length (EncodeVarint16 v))%nat as Hv by (intros v; unfold EncodeVarint16; destruct (_ <? _); [|destruct (_ <? _)]; cbn [length]; lia).
  pose proof (Hv (Z.of_nat 0)). pose proof (Hv (Z.of_nat (length key))). destruct cols; [done|]. cbn [length]. lia.
Qed.

Lemma row_bytes_ok prev sh suf cols : Z.of_nat sh < 2 ^ 16 -> Z.of_nat (length suf) < 2 ^ 16 -> bytes_ok suf -> bytes_ok cols -> bytes_ok (row_bytes prev (row_info sh suf cols)).
Proof.
  intros Hs Hl H1 H2. unfold row_bytes, row_info, bytes_ok. rewrite !Forall_app. split_and!; try done; try apply le_bytes_ok; rewrite EncodeVarint16_64 by lia;
    apply EncodeVarint64_bytes_ok; lia.
Qed.

Lemma shared_size_spec a : forall b, take (shared_size a b) a = take (shared_size a b) b /\ (shared_size a b <= length a)%nat /\ (shared_size a b <= length b)%nat.
Proof.
  induction a as [|x a IH]; intros [|y b]; cbn [shared_size take length]; [split_and!; done || lia..|]. destruct (Z.eqb_spec x y) as [->|]; cbn [take]; [|split_and!; done || lia].
  destruct (IH b) as (-> & ? & ?). split_and!; done || lia.
Qed.
End Append.

(** ** The state of the builder *)

Section Build.
  Context `{Processor} `{RawMalloc}.
  Hypothesis Hle : kLittleEndian = true.
  (** Bounds on keys and columns, so that the first rows of a table leave room for the
      base key. *)
  Variables kMaxSKTableSize kMaxColumnCount kMaxKeySize : nat.
  Local Abbreviation max_cols := (1 + 34 * kMaxColumnCount)%nat.
  Hypothesis Hroom : (64 + 2 * kMaxKeySize + 2 * max_cols <= 4096)%nat.
  Hypothesis Hmax : 4096 <= Z.of_nat kMaxSKTableSize <= 2 ^ 19.
  (** Buffers have sizes that are multiples of the alignment. *)
  Variable align : Z.
  Hypothesis Halign : 0 < align /\ (align | Z.of_nat kMinSKTableSize) /\ (align | Z.of_nat kMaxSKTableSize).

Definition RowOk (r : Row) : Prop := (length r.1 <= kMaxKeySize)%nat /\ (length r.2 <= max_cols)%nat /\ r.2 <> [] /\ bytes_ok r.1 /\ bytes_ok r.2.

Definition BufferOk (buf : list Z) : Prop := 4096 <= Z.of_nat (length buf) <= Z.of_nat kMaxSKTableSize /\ (align | Z.of_nat (length buf)) /\ bytes_ok buf.

(** A row begins with the size of the row before, so that the first one begins with 0. *)
Definition first_zero (bytes : list Z) : Prop := bytes = [] \/ exists rest, bytes = 0 :: 0 :: rest.

Record Built (b : Dfb) (rows : list Row) : Prop := {
  bu_buf : exists hdr bytes tail, uncomp_buffer b = hdr ++ bytes ++ tail /\ length hdr = 40%nat /\ buffer_size b = (40 + length bytes)%nat /\
    Rows (begin_key_of_target b) 40 rows bytes (key_offset b) /\ first_zero bytes;
  bu_prev : rows = [] -> prev_diff b = 0;
  bu_count : stored_key_count b = Z.of_nat (length rows);
  bu_room : (buffer_size b + 2 + length (begin_key_of_target b) + 4 * length rows <= length (uncomp_buffer b))%nat;
  bu_begin : begin_key_of_target b = [] -> rows = [] \/ exists cols, rows = [([], cols)] /\ (length cols <= max_cols)%nat;
  bu_first : rows = [] -> begin_key_of_target b = [];
  bu_base : (length (begin_key_of_target b) <= kMaxKeySize)%nat /\ bytes_ok (begin_key_of_target b);
  bu_start : (rows = [] -> compression_start_ofs b = 40%nat) /\ (40 <= compression_start_ofs b <= buffer_size b)%nat;
  bu_second : compression_start_ofs b = second_key rows;
  bu_ok : BufferOk (uncomp_buffer b);
}.

Lemma NewDfb_built buf : BufferOk buf -> Built (NewDfb buf) [].
Proof.
  intros Hb. pose proof Hb as (Hl & _ & _). split; cbn [NewDfb uncomp_buffer begin_key_of_target key_offset stored_key_count compression_start_ofs buffer_size prev_diff length]; try done.
  - destruct (buffer_split buf 0 40) as (x & hdr & tail & -> & Hx & Hh & _); [lia|]. destruct x; [|done]. exists hdr, [], tail. split_and!; try done; [constructor|by left].
  - unfold SKTDF_BEGIN_KEY_OFFSET. lia.
  - by left.
  - split; [lia|constructor].
Qed.

(** The room that a row needs, as the builder counts it. *)
Definition needed (b : Dfb) (rows : list Row) (cur : nat) : nat := buffer_size b + cur + (length (begin_key_of_target b) + 2 + 4 * length rows + 4).

Lemma check_split_spec b rows cur : Built b rows -> exists b' full, check_split kMaxSKTableSize b cur = (b', full) /\ Built b' rows /\
  needed b' rows cur = needed b rows cur /\ largest_seq_num b' = largest_seq_num b /\
  (full = false -> (needed b rows cur <= length (uncomp_buffer b'))%nat) /\ (full = true -> (4096 < needed b rows cur)%nat).
Proof.
  intros [(hdr & bytes & tail & Eb & Hh & Hs & Hr & Hz) Hpd Hc Hrm Hbg Hbf Hbase Hst Hsnd (Hcap & Hal & Hok)]. unfold check_split.
  assert (length (key_offset b) = length rows) as -> by (by eapply Rows_length).
  set (nd := (buffer_size b + cur + (length (begin_key_of_target b) + 2 + 4 * length rows + 4))%nat).
  set (extra := if (length (uncomp_buffer b) <? nd)%nat && (length (uncomp_buffer b) <? kMaxSKTableSize)%nat
    then raw_malloc (Z.of_nat (Nat.min (length (uncomp_buffer b) + kMinSKTableSize) kMaxSKTableSize - length (uncomp_buffer b))) else []).
  match goal with |- context [if ?c then ?x else ?y] => assert ((if c then x else y) = uncomp_buffer b ++ extra) as -> end.
  { unfold extra. destruct (_ && _); [done|by rewrite app_nil_r]. }
  do 2 eexists. split; [done|]. split; [|split; [done|split; [done|]]].
  - assert (BufferOk (uncomp_buffer b ++ extra)) as Hok'.
    { unfold extra. destruct (Nat.ltb_spec (length (uncomp_buffer b)) nd), (Nat.ltb_spec (length (uncomp_buffer b)) kMaxSKTableSize); cbn [andb];
        rewrite ?app_nil_r; [|exact (conj Hcap (conj Hal Hok))..].
      unfold BufferOk. rewrite length_app, raw_malloc_length by lia. rewrite Nat2Z.id. destruct Halign as (? & ? & ?). unfold kMinSKTableSize in *.
      replace (length (uncomp_buffer b) + (Nat.min (length (uncomp_buffer b) + 4096) kMaxSKTableSize - length (uncomp_buffer b)))%nat
        with (Nat.min (length (uncomp_buffer b) + 4096) kMaxSKTableSize) by lia.
      split; [lia|]. split; [|apply Forall_app; split; [done|apply raw_malloc_ok]].
      destruct (Nat.min_spec (length (uncomp_buffer b) + 4096) kMaxSKTableSize) as [[_ ->]|[_ ->]]; [|done]. rewrite Nat2Z.inj_add. by apply Z.divide_add_r. }
    split; cbn [uncomp_buffer begin_key_of_target key_offset stored_key_count compression_start_ofs buffer_size]; try done.
    + exists hdr, bytes, (tail ++ extra). rewrite Eb. by rewrite <- !app_assoc.
    + rewrite length_app. lia.
  - cbn [uncomp_buffer]. rewrite length_app. fold nd (needed b rows cur). destruct (Nat.ltb_spec (length (uncomp_buffer b) + length extra) nd);
      split; intros ?; try done; unfold nd, needed in *; lia.
Qed.

(** The base key after a row and how the key of the row is written. *)
Definition row_key (begin_key key : list Z) : list Z * list Z :=
  if (length begin_key =? 0)%nat then (key, if (length key =? 0)%nat then EncodeEmptyKey else EncodeFirstKey key) else (begin_key, EncodeKey begin_key key).

Lemma row_key_spec begin_key key : Z.of_nat (length key) < 2 ^ 14 -> exists sh suf, (row_key begin_key key).2 = EncodeVarint16 (Z.of_nat sh) ++ EncodeVarint16 (Z.of_nat (length suf)) ++ suf /\
  key = take sh (row_key begin_key key).1 ++ suf /\ (sh <= length (row_key begin_key key).1)%nat /\ (sh + length suf = length key)%nat /\
  (row_key begin_key key).1 = (if (length begin_key =? 0)%nat then key else begin_key) /\ (begin_key = [] -> sh = 0%nat /\ suf = key).
Proof.
  intros Hl. unfold row_key. destruct (Nat.eqb_spec (length begin_key) 0) as [|].
  - exists 0%nat, key. cbn [fst snd take app]. split_and!; try done || lia. unfold EncodeEmptyKey, EncodeFirstKey. unfold u16. rewrite wrap_small by lia.
    destruct (Nat.eqb_spec (length key) 0) as [E|]; [|done]. by destruct key.
  - destruct (shared_size_spec begin_key key) as (E & H1 & H2). cbn [fst snd]. assert (begin_key <> []) by (by intros ->). exists (shared_size begin_key key), (drop (shared_size begin_key key) key).
    rewrite E, take_drop, length_drop. split_and!; try done || lia. unfold EncodeKey. unfold u16. rewrite wrap_small by lia.
    rewrite Nat2Z.inj_sub by lia. rewrite take_ge; [done|]. rewrite length_drop. lia.
Qed.

Lemma put_row_spec b rows key cols largest : Built b rows -> RowOk (key, cols) -> (key = [] -> rows = []) ->
  (needed b rows (8 + length key + length cols) <= length (uncomp_buffer b))%nat -> exists b', put_row b key cols largest = Some b' /\ Built b' (rows ++ [(key, cols)]).
Proof.
  intros [(hdr & bytes & tail & Eb & Hh & Hs & Hr & Hz) Hpd Hc Hrm Hbg Hbf [Hbase Hbok] Hst Hsnd (Hcap & Hal & Hok)] (Hk & Hcl & Hcne & Hkb & Hcb) Hkey Hnd. cbn [fst snd] in *.
  unfold put_row. fold (row_key (begin_key_of_target b) key). destruct (row_key_spec (begin_key_of_target b) key) as (sh & suf & Ee & Ek & Hsh & Hlen & Ebeg & Hfst); [lia|].
  destruct (row_key (begin_key_of_target b) key) as [base encoded]. cbn [fst snd] in *.
  pose proof (length_varint16 (Z.of_nat sh) ltac:(lia)). pose proof (length_varint16 (Z.of_nat (length suf)) ltac:(lia)).
  assert (encoded ++ cols = row_info sh suf cols) as Einfo by (unfold row_info; rewrite Ee; by rewrite <- !app_assoc).
  assert (length encoded + length cols = length (row_info sh suf cols))%nat as Elen by (rewrite <- Einfo, length_app; lia).
  assert (length encoded <= 4 + length key)%nat as Henc by (rewrite Ee, !length_app; lia).
  pose proof (Rows_length _ _ _ _ _ Hr) as Hol. pose proof (Rows_size _ _ _ _ _ Hr) as H7. unfold needed in Hnd.
  assert (length (uncomp_buffer b) = 40 + length bytes + length tail)%nat as Hbl by (rewrite Eb, !length_app; lia).
  destruct (buffer_split tail 0 (4 + length (row_info sh suf cols))) as (x & old & tail' & -> & Hx & Hold & _); [lia|]. destruct x; [|done]. cbn [app] in *.
  assert (Z.of_nat (4 + length (row_info sh suf cols)) < 2 ^ 16) as Hsz by lia. rewrite length_app in Hbl. rewrite Hs in *. set (size := (40 + length bytes + 4 + length encoded + length cols)%nat).
  assert (u16 (Z.of_nat (size - (40 + length bytes))) = Z.of_nat (4 + length (row_info sh suf cols))) as -> by (unfold u16, size; rewrite wrap_small; lia).
  rewrite !EncodeFixed16_le, Einfo. rewrite (put_at_eq _ _ (hdr ++ bytes) old tail');
    [|rewrite Eb; by rewrite <- !app_assoc|rewrite length_app; lia|rewrite !length_app, !length_le_bytes; lia].
  cbn [mbind option_bind]. eexists. split; [done|]. fold (row_bytes (prev_diff b) (row_info sh suf cols)).
  assert (Rows base 40 rows bytes (key_offset b)) as Hr'.
  { destruct (Nat.eqb_spec (length (begin_key_of_target b)) 0) as [E|]; [|by rewrite Ebeg]. destruct (begin_key_of_target b); [|done]. by apply Rows_rebase. }
  split; cbn [uncomp_buffer begin_key_of_target key_offset stored_key_count compression_start_ofs buffer_size].
  - exists hdr, (bytes ++ row_bytes (prev_diff b) (row_info sh suf cols)), tail'. split; [by rewrite <- !app_assoc|]. split; [done|].
    split; [rewrite length_app, length_row_bytes; unfold size; lia|]. split; [rewrite Ek; apply Rows_snoc; done || lia|]. right.
    destruct rows as [|r rows]; [rewrite (Rows_nil_bytes _ _ _ _ Hr), (Hpd eq_refl); by eexists|]. destruct Hz as [->|[rest ->]]; [cbn in H7; lia|by eexists].
  - by destruct rows.
  - rewrite Hc, length_app. cbn [length]. unfold u16. rewrite wrap_small; lia.
  - rewrite !length_app, length_row_bytes. cbn [length]. destruct (Nat.eqb_spec (length (begin_key_of_target b)) 0) as [E|]; [|subst base; unfold size; lia].
    destruct (begin_key_of_target b) as [|]; [|done]. rewrite Ebeg. destruct (Hbg eq_refl) as [->|(c & -> & Hcm)]; cbn [length] in *.
    + assert (length bytes = 0%nat) by (by rewrite (Rows_nil_bytes _ _ _ _ Hr)). unfold size. lia.
    + pose proof (Rows_empty_key _ _ _ _ Hr). unfold size. lia.
  - intros ->. destruct (Nat.eqb_spec (length (begin_key_of_target b)) 0) as [E|E]; [|by rewrite <- Ebeg in E]. rewrite <- Ebeg in *. right. exists cols. by rewrite Hkey.
  - by destruct rows.
  - rewrite Ebeg. by destruct (_ =? 0)%nat.
  - split; [by destruct rows|]. destruct Hst as [Hst1 Hst2]. unfold SKTDF_BEGIN_KEY_OFFSET. destruct (_ =? 40)%nat; unfold size; lia.
  - unfold SKTDF_BEGIN_KEY_OFFSET. rewrite Hsnd. destruct rows as [|[key0 cols0] rows]; cbn [second_key app].
    + destruct (Hfst (Hbf eq_refl)) as [-> ->]. assert (length bytes = 0)%nat by (by rewrite (Rows_nil_bytes _ _ _ _ Hr)). rewrite Nat.eqb_refl. unfold size. lia.
    + done.
  - assert (bytes_ok (row_bytes (prev_diff b) (row_info sh suf cols))) as Hrb.
    { apply row_bytes_ok; try done || lia. rewrite Ek in Hkb. by apply Forall_app in Hkb as [_ ?]. }
    unfold BufferOk, bytes_ok in *. rewrite Eb in Hok. rewrite !Forall_app in *. destruct Hok as (? & ? & ? & ?). split; [|split; [|by split_and!]].
    + rewrite !length_app, length_row_bytes. lia.
    + replace (length ((hdr ++ bytes) ++ row_bytes (prev_diff b) (row_info sh suf cols) ++ tail')) with (length (uncomp_buffer b)); [done|].
      rewrite !length_app, length_row_bytes. lia.
Qed.

Lemma full_not_first b rows cur : Built b rows -> (cur <= 9 + kMaxKeySize + max_cols)%nat -> (4096 < needed b rows cur)%nat -> rows <> [].
Proof.
  intros [(hdr & bytes & tail & _ & _ & Hs & Hr & _) _ _ _ _ Hbf _ _ _ _] Hcur Hn ->. rewrite (Rows_nil_bytes _ _ _ _ Hr) in Hs. unfold needed in Hn. rewrite Hs, (Hbf eq_refl) in Hn.
  cbn [length] in Hn. lia.
Qed.

(** ** The walk *)

Variable HasBeenFlushed : bool.

(** The columns that the search of a user key keeps, when the table has [cols] for it. *)
Definition valid_columns (u : UserKey) (cols : option (list Z)) : list Column :=
  uk_columns u (match cols with Some cols => if uk_fetched u then [] else default [] (InsertColumnNodes cols HasBeenFlushed) | None => [] end).

Definition fresh_row (u : UserKey) (cols : option (list Z)) : list Row :=
  match valid_columns u cols with [] => [] | vs => [(uk_key u, encode_columns vs)] end.

(** The rows of the new tables. *)
Fixpoint merge (ukeys : list UserKey) : list Row -> list Row :=
  match ukeys with
  | [] => fun rows => rows
  | u :: ukeys => fix inner rows :=
      match rows with
      | [] => fresh_row u None ++ merge ukeys []
      | (key, cols) :: rows' =>
          match lex (uk_key u) key with
          | Gt => (key, cols) :: inner rows'
          | Eq => (if uk_dirty u then fresh_row u (Some cols) else [(key, cols)]) ++ merge ukeys rows'
          | Lt => fresh_row u None ++ merge ukeys rows
          end
      end
  end.

(** The cursor at row [i], or after the last one. *)
Definition CursorAt (rows : list Row) (offs : list Z) (i : nat) (c : Cursor) : Prop :=
  match rows !! i with
  | Some (key, cols) => cur_key_offset c <> 0 /\ offs !! i = Some (cur_key_offset c) /\ cur_next_offset c = default 0 (offs !! S i) /\
      key_from_skt_df c = key /\ col_info_slice c = cols
  | None => cur_key_offset c = 0
  end.

(** Columns that can be fetched from a row, and user keys that can be recorded whatever
    is fetched for them. *)
Definition ColumnsOk (vs : list Column) : Prop := Forall ColumnOk vs /\ (length vs <= kMaxColumnCount)%nat.
Definition Fetchable (cols : list Z) : Prop := exists vs, InsertColumnNodes cols HasBeenFlushed = Some (map (fetched_node HasBeenFlushed) vs) /\ ColumnsOk vs.
Definition SourceOk (r : Row) : Prop := RowOk r /\ Fetchable r.2.
Definition UserKeyOk (u : UserKey) : Prop := forall cols vs, (cols = None \/ exists c, cols = Some c /\ Fetchable c) ->
  valid_columns u cols = vs -> vs <> [] -> RowOk (uk_key u, encode_columns vs).

(** Only the first row of the first table can have the empty key. *)
Definition empty_first (rows : list Row) : Prop := Forall (fun r => r.1 <> []) (tail rows).

Lemma empty_first_head done key cols more : empty_first (done ++ (key, cols) :: more) -> key = [] -> done = [].
Proof. intros He ->. destruct done as [|r done]; [done|]. unfold empty_first in He. cbn [app tail] in He. rewrite Forall_app, Forall_cons in He. by destruct He as (_ & ? & _). Qed.

Lemma read_cursor_spec n rows offs i off : Table n rows offs -> offs !! i = Some off -> exists c, read_cursor n off = Some c /\ CursorAt rows offs i c.
Proof.
  intros HT Ho. destruct (Table_count Hle _ _ _ HT) as (_ & _ & Hl). pose proof (lookup_lt_Some _ _ _ Ho) as Hi. rewrite Hl in Hi.
  destruct (lookup_lt_is_Some_2 rows i Hi) as [[key cols] Hk]. destruct (Table_row Hle _ _ _ _ _ _ HT Hk) as (off' & info & Hra).
  destruct (ra_pos _ _ _ _ _ _ _ _ Hra) as [Ho' Hp]. assert (off' = off) as -> by congruence. unfold read_cursor. rewrite (GetKeyWithOffset_spec Hle _ _ _ _ _ _ _ HT Hk Ho).
  cbn [mbind option_bind]. eexists. split; [done|]. unfold CursorAt. rewrite Hk. unfold SKTDF_BEGIN_KEY_OFFSET in Hp. split_and!; try done. cbn [cur_key_offset]. lia.
Qed.

Lemma next_cursor_spec n rows offs i c : Table n rows offs -> cur_next_offset c = default 0 (offs !! S i) -> exists c',
  next_cursor n c = Some c' /\ CursorAt rows offs (S i) c'.
Proof.
  intros HT Hn. unfold next_cursor. rewrite Hn.
  destruct (Table_count Hle _ _ _ HT) as (_ & _ & Hl). destruct (offs !! S i) as [off|] eqn:E; cbn [from_option id].
  - destruct (read_cursor_spec n rows offs (S i) off HT E) as (c' & Ec & Hc'). exists c'. split; [|done].
    destruct (Z.eqb_spec off 0) as [->|]; [|done]. exfalso. unfold CursorAt in Hc'. pose proof (lookup_lt_Some _ _ _ E) as Hlt. rewrite Hl in Hlt.
    destruct (lookup_lt_is_Some_2 rows (S i) Hlt) as [[k c0] Hk]. rewrite Hk in Hc'. destruct Hc' as (? & E' & _). congruence.
  - cbn [Z.eqb]. eexists. split; [done|]. unfold CursorAt. rewrite lookup_ge_None_2; [done|]. apply lookup_ge_None_1 in E. lia.
Qed.

Record State (n : SKTDFCacheNode) (rows : list Row) (offs : list Z) (i : nat) (c : Cursor) (ukeys : list UserKey) : Prop := {
  st_table : Table n rows offs;
  st_cursor : CursorAt rows offs i c;
  st_rows : Forall SourceOk (drop i rows);
  st_ukeys : Forall UserKeyOk ukeys;
}.

(** What a walk leaves, when the table has the rows [before] already and [all] are to be
    written: either all are, or the rest is where the walk goes on. *)
Definition Walked (m : nat) (before all : list Row) (w : Walk) : Prop := exists done, Built (wk_table w) (before ++ done) /\
  (wk_begin_key w = [] /\ done = all \/
   exists rows offs i c cols more, before ++ done <> [] /\ wk_begin_key w <> [] /\ State (wk_node w) rows offs i c (wk_ukeys w) /\
     cur_key_offset c = cur_key_offset (wk_cursor w) /\ merge (wk_ukeys w) (drop i rows) = (wk_begin_key w, cols) :: more /\ all = done ++ (wk_begin_key w, cols) :: more /\
     (length (wk_ukeys w) + length (drop i rows) <= m)%nat).

Lemma Walked_app m m' before l all w : (m <= m')%nat -> Walked m (before ++ l) all w -> Walked m' before (l ++ all) w.
Proof.
  intros Hm (done & Hb & Hcase). exists (l ++ done). rewrite app_assoc. split; [done|].
  destruct Hcase as [[? ->]|(rows & offs & i & c & cols & more & H1 & H2 & H3 & H4 & H5 & -> & H6)]; [by left|right]. exists rows, offs, i, c, cols, more.
  split_and!; try done; [by rewrite <- app_assoc|lia].
Qed.

(** A row of the previous table is copied. *)
Lemma copy_step b n rows offs i c key cols before more : Built b before -> Table n rows offs -> CursorAt rows offs i c -> rows !! i = Some (key, cols) -> RowOk (key, cols) ->
  empty_first (before ++ (key, cols) :: more) ->
  exists b1 full, check_split kMaxSKTableSize b (8 + length (key_from_skt_df c) + length (col_info_slice c)) = (b1, full) /\ Built b1 before /\
    key_from_skt_df c = key /\ col_info_slice c = cols /\
    (full = true -> before <> [] /\ key <> []) /\
    (full = false -> exists b2 c', put_row b1 key cols (largest_seq_num b1) = Some b2 /\ Built b2 (before ++ [(key, cols)]) /\ next_cursor n c = Some c' /\ CursorAt rows offs (S i) c').
Proof.
  intros Hb HT Hc Hi Hr He. pose proof Hc as Hc'. unfold CursorAt in Hc'. rewrite Hi in Hc'. destruct Hc' as (_ & _ & Hnext & -> & ->). pose proof Hr as (Hk & Hcl & _). cbn [fst snd] in *.
  destruct (check_split_spec b before (8 + length key + length cols) Hb) as (b1 & full & E & Hb1 & Hn & _ & Hf0 & Hf1). exists b1, full. do 4 (split; [done|]). split.
  - intros ->. assert (before <> []) as Hne by (apply (full_not_first b before (8 + length key + length cols) Hb); [lia|by apply Hf1]). split; [done|]. intros ->. by apply empty_first_head in He.
  - intros ->. destruct (put_row_spec b1 before key cols (largest_seq_num b1) Hb1 Hr) as (b2 & E2 & Hb2); [by eapply empty_first_head|rewrite Hn; by apply Hf0|].
    destruct (next_cursor_spec _ _ _ _ _ HT Hnext) as (c' & Ec & Hc'). by exists b2, c'.
Qed.

Lemma fetch_spec u cols : (cols = None \/ exists c, cols = Some c /\ Fetchable c) -> exists u', fetch u HasBeenFlushed cols = Some u' /\
  uk_key u' = uk_key u /\ uk_dirty u' = uk_dirty u /\ forall c, uk_columns u' c = valid_columns u cols.
Proof.
  intros Hc. unfold fetch, valid_columns. destruct cols as [c|]; [|by eexists]. destruct (uk_fetched u); [by eexists|].
  destruct Hc as [?|(c' & [= <-] & l & E & _)]; [done|]. rewrite E. cbn [mbind option_bind from_option id]. by eexists.
Qed.

Lemma UserKeyOk_fetched u u' cols : UserKeyOk u -> (cols = None \/ exists c, cols = Some c /\ Fetchable c) -> uk_key u' = uk_key u ->
  (forall c, uk_columns u' c = valid_columns u cols) -> UserKeyOk u' /\ forall cols', fresh_row u' cols' = fresh_row u cols.
Proof.
  intros Hu Hc Ek Ev. split.
  - intros c' vs _ Evs Hne. unfold valid_columns in Evs. rewrite Ev in Evs. rewrite Ek. by apply (Hu cols).
  - intros c'. unfold fresh_row. unfold valid_columns at 1. by rewrite Ev, Ek.
Qed.

(** The columns of a user key are written, if there are any. *)
Lemma fresh_step b u vs before more largest : Built b before -> (vs <> [] -> RowOk (uk_key u, encode_columns vs)) ->
  empty_first (before ++ match vs with [] => [] | _ => [(uk_key u, encode_columns vs)] end ++ more) ->
  exists b1 full, check_split kMaxSKTableSize b (9 + length (uk_key u) + kMaxColumnCount * 34) = (b1, full) /\ Built b1 before /\
    (full = true -> vs <> [] -> before <> [] /\ uk_key u <> []) /\
    (full = false \/ vs = [] -> exists b2, (if (length vs =? 0)%nat then Some b1 else put_row b1 (uk_key u) (encode_columns vs) (largest b1)) = Some b2 /\
       Built b2 (before ++ match vs with [] => [] | _ => [(uk_key u, encode_columns vs)] end)).
Proof.
  intros Hb Hr He. destruct (check_split_spec b before (9 + length (uk_key u) + kMaxColumnCount * 34) Hb) as (b1 & full & E & Hb1 & Hn & _ & Hf0 & Hf1). exists b1, full.
  do 2 (split; [done|]). destruct vs as [|v vs]; cbn [app length Nat.eqb] in *.
  { split; [done|]. intros _. exists b1. by rewrite app_nil_r. }
  specialize (Hr ltac:(done)). pose proof Hr as (Hk & Hcl & _). cbn [fst snd] in Hk, Hcl. split.
  - intros -> _. assert (before <> []) as Hne by (apply (full_not_first b before (9 + length (uk_key u) + kMaxColumnCount * 34) Hb); [lia|by apply Hf1]).
    split; [done|]. intros Ek. by apply empty_first_head in He.
  - intros [->|?]; [|done]. apply put_row_spec; try done; [by eapply empty_first_head|]. specialize (Hf0 eq_refl). unfold needed in *. lia.
Qed.

(** The end of a round of the walk that records a user key, with the cursor on its row
    if [same]. *)
Definition record_key (fuel : nat) (b : Dfb) (n : SKTDFCacheNode) (u : UserKey) (rest : list UserKey) (c : Cursor) (same : bool) : option Walk :=
  let '(b, full) := check_split kMaxSKTableSize b (9 + length (uk_key u) + kMaxColumnCount * 34) in
  u ← fetch u HasBeenFlushed (if same then Some (col_info_slice c) else None);
  n ← (if same then ClearValidColumnCount n (cur_key_offset c) else Some n);
  let valid := uk_columns u [] in
  if full && negb (length valid =? 0)%nat
  then Some {| wk_table := b; wk_node := n; wk_ukeys := u :: rest; wk_cursor := c; wk_begin_key := uk_key u |}
  else
    b ← (if (length valid =? 0)%nat then Some b
         else put_row b (uk_key u) (encode_columns valid) (fold_left (fun l v => if vc_seq v =? 0 then l else Z.max l (vc_seq v)) valid (largest_seq_num b)));
    c ← (if same then next_cursor n c else Some c);
    walk kMaxSKTableSize kMaxColumnCount HasBeenFlushed fuel b n rest c.

Definition WalkOk (fuel : nat) : Prop := forall b n rows offs i c ukeys before, State n rows offs i c ukeys -> Built b before ->
  (length ukeys + length (drop i rows) < fuel)%nat -> empty_first (before ++ merge ukeys (drop i rows)) -> exists w,
  walk kMaxSKTableSize kMaxColumnCount HasBeenFlushed fuel b n ukeys c = Some w /\ Walked (length ukeys + length (drop i rows)) before (merge ukeys (drop i rows)) w.

(** What the cursor must say for a user key to be recorded. *)
Definition Placed (rows : list Row) (i : nat) (u : UserKey) (same : bool) : Prop :=
  if same then exists key cols, rows !! i = Some (key, cols) /\ lex (uk_key u) key = Eq /\ uk_dirty u = true
  else match rows !! i with Some (key, _) => lex (uk_key u) key = Lt | None => True end.

Lemma drop_lookup {A} (l : list A) i x : l !! i = Some x -> drop i l = x :: drop (S i) l.
Proof. intros Hi. by rewrite (drop_S l x i). Qed.

Lemma merge_placed rows i u rest same : Placed rows i u same ->
  merge (u :: rest) (drop i rows) = fresh_row u (if same then snd <$> rows !! i else None) ++ merge rest (if same then drop (S i) rows else drop i rows).
Proof.
  unfold Placed. destruct same.
  - intros (key & cols & Hi & El & Ed). rewrite (drop_lookup _ _ _ Hi), Hi. cbn [merge fmap option_fmap option_map snd]. by rewrite El, Ed.
  - destruct (rows !! i) as [[key cols]|] eqn:Hi; intros El.
    + rewrite (drop_lookup _ _ _ Hi). cbn [merge]. by rewrite El.
    + rewrite drop_ge by (by apply lookup_ge_None). done.
Qed.

Lemma cleared_ok key b0 cols : SourceOk (key, b0 :: cols) -> SourceOk (key, 0 :: cols).
Proof.
  intros [(H1 & H2 & _ & H3 & H4) _]. cbn [fst snd] in *. split; [|exists []; split; [done|]; split; [constructor|cbn; lia]]. split_and!; try done. cbn [snd] in *. apply Forall_cons in H4 as [_ H4].
  apply Forall_cons. split; [unfold byte_ok; lia|done].
Qed.

(** The columns that are fetched, and the table after its row was cleared. *)
Lemma clear_step n rows offs i c ukeys u same : State n rows offs i c ukeys -> Placed rows i u same -> exists n' rows',
  (if same then ClearValidColumnCount n (cur_key_offset c) else Some n) = Some n' /\ Table n' rows' offs /\ CursorAt rows' offs i (if same then
     {| cur_key_offset := cur_key_offset c; cur_next_offset := cur_next_offset c; key_from_skt_df := key_from_skt_df c; col_info_slice := default [] (snd <$> rows' !! i) |} else c) /\
  Forall SourceOk (drop i rows') /\ length (drop i rows') = length (drop i rows) /\ drop (S i) rows' = drop (S i) rows /\ (same = false -> rows' = rows) /\
  (if same then Some (col_info_slice c) else None) = (if same then snd <$> rows !! i else None) /\ Placed rows' i u same /\
  ((if same then snd <$> rows !! i else None) = None \/ exists x, (if same then snd <$> rows !! i else None) = Some x /\ Fetchable x).
Proof.
  intros [HT Hc Hr _] Hp. destruct same.
  2: { exists n, rows. split_and!; try done. by left. }
  pose proof Hp as (key & cols & Hi & El & Ed). pose proof Hc as Hc'. unfold CursorAt in Hc'. rewrite Hi in Hc'. destruct Hc' as (H1' & H2' & H3' & H4' & H5').
  rewrite (drop_lookup _ _ _ Hi) in Hr. apply Forall_cons in Hr as [Hrow Hrest]. pose proof Hrow as [(_ & _ & Hne & _) Hins]. cbn [fst snd] in *.
  destruct cols as [|b0 cols]; [done|]. destruct (ClearValidColumnCount_spec Hle _ _ _ _ _ _ _ _ HT Hi H2') as (n' & E & HT').
  pose proof (lookup_lt_Some _ _ _ Hi) as Hlt. assert (<[i := (key, 0 :: cols)]> rows !! i = Some (key, 0 :: cols)) as Hi' by (by apply list_lookup_insert_eq).
  assert (drop (S i) (<[i := (key, 0 :: cols)]> rows) = drop (S i) rows) as Ed' by (apply drop_insert_lt; lia).
  exists n', (<[i := (key, 0 :: cols)]> rows). split; [done|]. split; [done|]. split; [unfold CursorAt; rewrite Hi'; by split_and!|].
  rewrite (drop_lookup _ _ _ Hi'), Ed', Hi. split; [apply Forall_cons; split; [by eapply cleared_ok|done]|]. split; [by rewrite (drop_lookup _ _ _ Hi)|]. do 2 (split; [done|]).
  cbn [fmap option_fmap option_map snd]. split; [by rewrite H5'|]. split; [by exists key, (0 :: cols)|]. right. by eexists.
Qed.

Lemma record_key_spec fuel b n rows offs i c u rest before same : WalkOk fuel -> State n rows offs i c (u :: rest) -> Built b before -> Placed rows i u same ->
  (length rest + length (drop i rows) < fuel)%nat -> empty_first (before ++ merge (u :: rest) (drop i rows)) -> exists w,
  record_key fuel b n u rest c same = Some w /\ Walked (S (length rest) + length (drop i rows)) before (merge (u :: rest) (drop i rows)) w.
Proof.
  intros IH HS Hb Hp Hf He. destruct (clear_step _ _ _ _ _ _ _ _ HS Hp) as (n' & rows' & En & HT' & Hc' & Hr' & Hl' & Hd' & Hsame & Eo & Hp' & Hread).
  pose proof (st_ukeys _ _ _ _ _ _ HS) as Hu. apply Forall_cons in Hu as [Hu Hrest]. unfold record_key. rewrite Eo. set (oc := if same then snd <$> rows !! i else None) in *.
  destruct (fetch_spec u oc Hread) as (u' & Ef & Ek & Ey & Ev). destruct (UserKeyOk_fetched u u' oc Hu Hread Ek Ev) as [Hu' Efr].
  assert (Placed rows' i u' same) as Hpu by (unfold Placed in *; by rewrite Ek, Ey).
  rewrite (merge_placed _ _ _ _ _ Hp) in *. fold oc in He |- *. set (vs := valid_columns u oc) in *.
  assert (fresh_row u oc = match vs with [] => [] | _ => [(uk_key u, encode_columns vs)] end) as Erow by (unfold fresh_row, vs; by destruct (valid_columns u oc)). rewrite Erow in He.
  destruct (fresh_step b u vs before _ (fun b1 => fold_left (fun l v => if vc_seq v =? 0 then l else Z.max l (vc_seq v)) vs (largest_seq_num b1)) Hb
    (Hu oc vs Hread eq_refl) He) as (b1 & full & -> & Hb1 & Hfull & Hput).
  rewrite Ef. cbn [mbind option_bind]. rewrite En. cbn [mbind option_bind]. rewrite Ev. fold vs. rewrite Ek. destruct (full && negb (length vs =? 0)%nat) eqn:Efull.
  - apply andb_true_iff in Efull as [-> Hvs]. apply negb_true_iff, Nat.eqb_neq in Hvs. destruct (Hfull eq_refl ltac:(by destruct vs)) as [Hne Hkne].
    eexists. split; [done|]. exists []. rewrite app_nil_r. split; [done|]. right. cbn [wk_begin_key wk_node wk_cursor wk_ukeys].
    eexists rows', offs, i, _, (encode_columns vs), _. do 2 (split; [done|]). split; [split; [done|exact Hc'|done|by constructor]|]. split; [by destruct same|].
    rewrite (merge_placed _ _ _ _ _ Hpu), Efr, Erow. destruct vs as [|v vs']; [done|]. cbn [app]. split; [done|]. split.
    + do 3 f_equal. destruct same; [by rewrite Hd'|by rewrite Hsame].
    + rewrite Hl'. done.
  - destruct Hput as (b2 & Hput & Hb2).
    { destruct full; [right|by left]. cbn [andb] in Efull. apply negb_false_iff, Nat.eqb_eq in Efull. by destruct vs. }
    rewrite Hput. cbn [mbind option_bind]. rewrite <- Erow in Hb2, He. rewrite app_assoc in He. destruct same.
    + destruct Hp as (key & cols & Hi & _). pose proof (st_cursor _ _ _ _ _ _ HS) as Hc. unfold CursorAt in Hc. rewrite Hi in Hc. destruct Hc as (_ & _ & Hnext & _).
      destruct (next_cursor_spec _ _ _ _ _ HT' Hnext) as (c2 & -> & Hc2). cbn [mbind option_bind]. rewrite <- Hd' in He |- *.
      assert (length (drop i rows) = S (length (drop (S i) rows'))) as El by (by rewrite Hd', (drop_lookup _ _ _ Hi)).
      destruct (IH b2 n' rows' offs (S i) c2 rest (before ++ fresh_row u oc)) as (w & -> & Hw); [|done|lia|done|].
      { split; try done. apply (Forall_drop _ 1) in Hr'. by rewrite drop_drop, Nat.add_1_r in Hr'. }
      exists w. split; [done|]. eapply Walked_app; [|exact Hw]. lia.
    + rewrite (Hsame eq_refl) in *. injection En as <-. cbn [mbind option_bind].
      destruct (IH b2 n rows offs i c rest (before ++ fresh_row u oc)) as (w & -> & Hw); [|done|lia|done|].
      { by split. }
      exists w. split; [done|]. eapply Walked_app; [|exact Hw]. lia.
Qed.

(** The end of a round that copies the row of the cursor. *)
Lemma copy_case fuel b n rows offs i c ukeys before key cols ukeys' : WalkOk fuel -> State n rows offs i c ukeys -> Built b before -> rows !! i = Some (key, cols) ->
  merge ukeys (drop i rows) = (key, cols) :: merge ukeys' (drop (S i) rows) -> (length ukeys' <= length ukeys)%nat -> Forall UserKeyOk ukeys' ->
  (length ukeys + length (drop i rows) < S fuel)%nat -> empty_first (before ++ merge ukeys (drop i rows)) -> exists w,
  (let '(b, full) := check_split kMaxSKTableSize b (8 + length (key_from_skt_df c) + length (col_info_slice c)) in
   if full then Some {| wk_table := b; wk_node := n; wk_ukeys := ukeys; wk_cursor := c; wk_begin_key := key_from_skt_df c |}
   else b ← put_row b (key_from_skt_df c) (col_info_slice c) (largest_seq_num b); c ← next_cursor n c; walk kMaxSKTableSize kMaxColumnCount HasBeenFlushed fuel b n ukeys' c) = Some w /\
  Walked (length ukeys + length (drop i rows)) before (merge ukeys (drop i rows)) w.
Proof.
  intros IH HS Hb Hi Em Hlu Hu' Hf He. pose proof HS as [HT Hc Hr Hu]. rewrite Em in He.
  pose proof Hr as Hr'. rewrite (drop_lookup _ _ _ Hi) in Hr'. apply Forall_cons in Hr' as [[Hrow _] Hrest].
  destruct (copy_step _ _ _ _ _ _ _ _ _ _ Hb HT Hc Hi Hrow He) as (b1 & full & -> & Hb1 & Ek & Ec & Hfull & Hput). rewrite Ek, Ec. destruct full.
  - destruct (Hfull eq_refl) as [Hne Hkne]. eexists. split; [done|]. exists []. rewrite app_nil_r. split; [done|]. right. cbn [wk_begin_key wk_node wk_cursor wk_ukeys].
    exists rows, offs, i, c, cols, (merge ukeys' (drop (S i) rows)). by rewrite Em.
  - destruct (Hput eq_refl) as (b2 & c' & -> & Hb2 & -> & Hc'). cbn [mbind option_bind]. rewrite (drop_lookup _ _ _ Hi) in Hf |- *. cbn [length] in *.
    destruct (IH b2 n rows offs (S i) c' ukeys' (before ++ [(key, cols)])) as (w & -> & Hw); [by split|done|lia|by rewrite <- app_assoc|].
    exists w. split; [done|]. rewrite <- (drop_lookup _ _ _ Hi), Em. change ((key, cols) :: ?l) with ([(key, cols)] ++ l). eapply Walked_app; [|exact Hw]. lia.
Qed.

Lemma walk_spec fuel : WalkOk fuel.
Proof.
  induction fuel as [|fuel IH]; intros b n rows offs i c ukeys before HS Hb Hf He; [lia|]. pose proof HS as [HT Hc Hr Hu]. cbn [walk].
  unfold CursorAt in Hc. destruct (rows !! i) as [[key cols]|] eqn:Hi.
  - destruct Hc as (Hcur & _ & _ & Hkey & _). destruct (Z.eqb_spec (cur_key_offset c) 0); [done|]. cbn [negb]. destruct ukeys as [|u rest].
    + apply (copy_case fuel b n rows offs i c [] before key cols []); try done. by rewrite (drop_lookup _ _ _ Hi).
    + rewrite Hkey, compare_lex. pose proof Hu as Hu'. apply Forall_cons in Hu' as [_ Hrest]. cbn [length] in *.
      destruct (lex (uk_key u) key) eqn:El; cbn [sign Z.ltb Z.eqb Z.compare orb andb]; [destruct (uk_dirty u) eqn:Ed; cbn [negb]|..].
      * apply (record_key_spec fuel b n rows offs i c u rest before true); try done; [by exists key, cols|lia].
      * rewrite <- Hkey. apply (copy_case fuel b n rows offs i c (u :: rest) before key cols rest); try done; [|cbn [length]; lia].
        rewrite (drop_lookup _ _ _ Hi). cbn [merge]. by rewrite El, Ed.
      * apply (record_key_spec fuel b n rows offs i c u rest before false); try done; [unfold Placed; by rewrite Hi|lia].
      * rewrite <- Hkey. apply (copy_case fuel b n rows offs i c (u :: rest) before key cols (u :: rest)); try done.
        rewrite (drop_lookup _ _ _ Hi). cbn [merge]. by rewrite El.
  - rewrite Hc. cbn [Z.eqb negb]. destruct ukeys as [|u rest].
    + eexists. split; [done|]. exists []. cbn [merge]. rewrite app_nil_r, drop_ge by (by apply lookup_ge_None). split; [done|]. by left.
    + cbn [Z.ltb Z.eqb Z.compare orb andb length] in *. apply (record_key_spec fuel b n rows offs i c u rest before false); try done; [unfold Placed; by rewrite Hi|lia].
Qed.

End Build.
