(* ===== verification/SktFinish.v ===== *)
(** * Tables of InSDB: from the builder to the device and back

    A table that the builder has filled is completed, compressed if that pays, sealed with
    its checksums, and read into a table with the same rows. *)

From Stdlib Require Import ZArith Lia Bool.
From stdpp Require Import base list.
From S2P Require Import Prelude Coding Slices Crc32c Buffers SktFormat SktRows SktBuild.

Section Frame.
  Context `{Processor}.
  Hypothesis Hle : kLittleEndian = true.

(** The header, field by field, and what follows it. *)
Definition frame (c1 c2 : list Z) (count info start size largest : Z) (i1 i2 rest : list Z) : list Z :=
  c1 ++ c2 ++ le_bytes 4 count ++ le_bytes 4 info ++ le_bytes 4 start ++ le_bytes 4 size ++ le_bytes 8 largest ++ i1 ++ i2 ++ rest.

Definition Fields (c1 c2 i1 i2 : list Z) : Prop := length c1 = 4%nat /\ length c2 = 4%nat /\ length i1 = 4%nat /\ length i2 = 4%nat.

#[local] Ltac lens := unfold SKTDF_NR_KEY_OFFSET; rewrite ?length_app, ?length_le_bytes; lia.

Lemma load_frame c1 c2 count info start size largest i1 i2 rest : Fields c1 c2 i1 i2 -> let buf := frame c1 c2 count info start size largest i1 i2 rest in
  load32 buf SKTDF_NR_KEY_OFFSET = Some (u32 count) /\ load32 buf SKTDF_INFO_2_OFFSET = Some (u32 info) /\
  load32 buf SKTDF_COMP_START_OFFSET = Some (u32 start) /\ load32 buf SKTDF_SKT_SIZE_OFFSET = Some (u32 size).
Proof.
  intros (H1 & H2 & H3 & H4) buf. unfold buf, frame.
  assert (forall a v b n buf, buf = a ++ le_bytes 4 v ++ b -> n = length a -> load32 buf n = Some (u32 v)) as Hload by (intros a v b n buf' -> ->; by apply load32_app).
  set (w := le_bytes 4) in *. set (L := le_bytes 8 largest). assert (forall x, length (w x) = 4%nat) as Hw by (intros; apply length_le_bytes).
  split_and!; [apply (Hload (c1 ++ c2) count (w info ++ w start ++ w size ++ L ++ i1 ++ i2 ++ rest))
    |apply (Hload (c1 ++ c2 ++ w count) info (w start ++ w size ++ L ++ i1 ++ i2 ++ rest))
    |apply (Hload (c1 ++ c2 ++ w count ++ w info) start (w size ++ L ++ i1 ++ i2 ++ rest))
    |apply (Hload (c1 ++ c2 ++ w count ++ w info ++ w start) size (L ++ i1 ++ i2 ++ rest))];
    rewrite ?length_app, ?Hw, ?H1, ?H2, <- ?app_assoc; done.
Qed.

Lemma load_ids c1 c2 count info start size largest n1 n2 rest : length c1 = 4%nat -> length c2 = 4%nat -> let buf := frame c1 c2 count info start size largest (le_bytes 4 n1) (le_bytes 4 n2) rest in
  load32 buf SKTDF_NEXT_ID_OFFSET = Some (u32 n1) /\ load32 buf SKTDF_PREALLOC_ID_OFFSET = Some (u32 n2).
Proof.
  intros H1 H2 buf. unfold buf, frame. set (h := c1 ++ c2 ++ le_bytes 4 count ++ le_bytes 4 info ++ le_bytes 4 start ++ le_bytes 4 size ++ le_bytes 8 largest).
  assert (length h = 32%nat) as Hh by (unfold h; lens).
  assert (c1 ++ c2 ++ le_bytes 4 count ++ le_bytes 4 info ++ le_bytes 4 start ++ le_bytes 4 size ++ le_bytes 8 largest ++ le_bytes 4 n1 ++ le_bytes 4 n2 ++ rest =
    h ++ le_bytes 4 n1 ++ le_bytes 4 n2 ++ rest) as -> by (unfold h; by rewrite <- !app_assoc).
  split; [change SKTDF_NEXT_ID_OFFSET with 32%nat; rewrite <- Hh; by apply load32_app|]. rewrite app_assoc.
  replace SKTDF_PREALLOC_ID_OFFSET with (length (h ++ le_bytes 4 n1)) by (rewrite length_app, length_le_bytes, Hh; done). by apply load32_app.
Qed.

Lemma put_header c1 c2 old i1 i2 rest count info start size largest : Fields c1 c2 i1 i2 -> length old = 24%nat ->
  put_at (c1 ++ c2 ++ old ++ i1 ++ i2 ++ rest) SKTDF_NR_KEY_OFFSET (header count info start size largest) = Some (frame c1 c2 count info start size largest i1 i2 rest).
Proof.
  intros (H1 & H2 & H3 & H4) Ho. unfold header, native64. rewrite !native32_le, Hle by done. unfold SKTDF_NR_KEY_OFFSET.
  rewrite (put_at_eq _ _ (c1 ++ c2) old (i1 ++ i2 ++ rest)); [unfold frame; by rewrite <- !app_assoc|by rewrite <- !app_assoc|lens|lens].
Qed.

Lemma put_fields c1 c2 count info start size largest i1 i2 rest v : Fields c1 c2 i1 i2 -> let buf := frame c1 c2 count info start size largest i1 i2 rest in
  put_at buf SKTDF_CRC_1_OFFSET (le_bytes 4 v) = Some (frame (le_bytes 4 v) c2 count info start size largest i1 i2 rest) /\
  put_at buf SKTDF_CRC_2_OFFSET (le_bytes 4 v) = Some (frame c1 (le_bytes 4 v) count info start size largest i1 i2 rest) /\
  put_at buf SKTDF_INFO_2_OFFSET (le_bytes 4 v) = Some (frame c1 c2 count v start size largest i1 i2 rest) /\
  put_at buf SKTDF_SKT_SIZE_OFFSET (le_bytes 4 v) = Some (frame c1 c2 count info start v largest i1 i2 rest) /\
  put_at buf SKTDF_NEXT_ID_OFFSET (le_bytes 4 v) = Some (frame c1 c2 count info start size largest (le_bytes 4 v) i2 rest) /\
  put_at buf SKTDF_PREALLOC_ID_OFFSET (le_bytes 4 v) = Some (frame c1 c2 count info start size largest i1 (le_bytes 4 v) rest).
Proof.
  intros (H1 & H2 & H3 & H4) buf. unfold buf, frame.
  assert (forall a x b n buf res, buf = a ++ x ++ b -> n = length a -> length x = 4%nat -> res = a ++ le_bytes 4 v ++ b -> put_at buf n (le_bytes 4 v) = Some res) as Hput.
  { intros a x b n buf' res -> -> Hx ->. apply put_at_app. by rewrite length_le_bytes. }
  set (w := le_bytes 4) in *. set (L := le_bytes 8 largest).
  assert (forall x, length (w x) = 4%nat) as Hw by (intros; apply length_le_bytes). assert (length L = 8%nat) as HL by apply length_le_bytes.
  split_and!; [apply (Hput [] c1 (c2 ++ w count ++ w info ++ w start ++ w size ++ L ++ i1 ++ i2 ++ rest))
    |apply (Hput c1 c2 (w count ++ w info ++ w start ++ w size ++ L ++ i1 ++ i2 ++ rest))
    |apply (Hput (c1 ++ c2 ++ w count) (w info) (w start ++ w size ++ L ++ i1 ++ i2 ++ rest))
    |apply (Hput (c1 ++ c2 ++ w count ++ w info ++ w start) (w size) (L ++ i1 ++ i2 ++ rest))
    |apply (Hput (c1 ++ c2 ++ w count ++ w info ++ w start ++ w size ++ L) i1 (i2 ++ rest))
    |apply (Hput (c1 ++ c2 ++ w count ++ w info ++ w start ++ w size ++ L ++ i1) i2 rest)];
    rewrite ?length_app, ?Hw, ?HL, ?H1, ?H2, ?H3, ?H4, <- ?app_assoc; done.
Qed.
End Frame.

Section Finish.
  Context `{Processor} `{SnappyLaws}.
  Hypothesis Hle : kLittleEndian = true.

(** The part of a table after its header. *)
Definition body (bytes base offs : list Z) : list Z := bytes ++ le_bytes 2 (Z.of_nat (length base)) ++ base ++ offset_table offs.

(** The offset of the base key, with the flag. *)
Definition info_word (compressed : bool) (n : nat) : Z := if compressed then Z.lor (Z.of_nat (40 + n)) flag_compression else Z.of_nat (40 + n).

(** A table as it is in memory or on the device: [payload] is what follows the first
    row, compressed or not. *)
Record Form (buf : list Z) (rows : list Row) (n1 n2 : list Z) (compressed sealed : bool) : Prop := {
  fo_shape : exists c1 c2 start size largest bytes base offs first data pad, Fields c1 c2 n1 n2 /\
    buf = frame c1 c2 (Z.of_nat (length rows)) (info_word compressed (length bytes)) start size largest n1 n2
      (first ++ (if compressed then RawCompress data else data) ++ pad) /\
    body bytes base offs = first ++ data /\ start = Z.of_nat (40 + length first) /\ size = Z.of_nat (length (if compressed then RawCompress data else data)) /\
    Rows base 40 rows bytes offs /\ Z.of_nat (length base) < 2 ^ 16 /\ Z.of_nat (40 + length (body bytes base offs)) < 2 ^ 20 /\ (length first <= length bytes)%nat /\ first_zero bytes /\ (40 + length first = second_key rows)%nat /\
    Z.of_nat (length (if compressed then RawCompress data else data)) <= Z.of_nat (length data) /\
    (sealed = true -> c1 = le_bytes 4 (Mask (crc32c 0 (frame [] c2 (Z.of_nat (length rows)) (info_word compressed (length bytes)) start size largest n1 n2
      (first ++ if compressed then RawCompress data else data)))) /\
      c2 = le_bytes 4 (Mask (crc32c 0 (frame [] [] (Z.of_nat (length rows)) (info_word compressed (length bytes)) start size largest n1 n2 first))));
  fo_bytes : bytes_ok buf;
}.

Lemma Rows_len32 base pos rows bytes offs : Rows base pos rows bytes offs -> Z.of_nat (40 + length bytes) < 2 ^ 31 -> u32 (Z.of_nat (length rows)) = Z.of_nat (length rows).
Proof. intros Hr Hb. pose proof (Rows_size _ _ _ _ _ Hr). apply wrap_small. lia. Qed.

(** Opening a table that is not compressed. *)
Lemma open_frame c1 c2 rows start size largest n1 n2 bytes base offs pad next_id prealloc_id : Fields c1 c2 n1 n2 -> Rows base 40 rows bytes offs ->
  Z.of_nat (length base) < 2 ^ 16 -> Z.of_nat (40 + length bytes) < 2 ^ 31 -> exists n,
  open_format (frame c1 c2 (Z.of_nat (length rows)) (Z.of_nat (40 + length bytes)) start size largest n1 n2 (body bytes base offs ++ pad)) (Z.of_nat (40 + length bytes)) next_id prealloc_id =
    Some n /\ Table n rows offs /\ next_skt_id_ n = next_id /\ preallocated_skt_id_ n = prealloc_id.
Proof.
  intros HF Hr Hb Hs. set (buf := frame _ _ _ _ _ _ _ _ _ _). destruct HF as (F1 & F2 & F3 & F4).
  set (hdr := c1 ++ c2 ++ le_bytes 4 (Z.of_nat (length rows)) ++ le_bytes 4 (Z.of_nat (40 + length bytes)) ++ le_bytes 4 start ++ le_bytes 4 size ++ le_bytes 8 largest ++ n1 ++ n2).
  assert (length hdr = 40%nat) as Hh by (unfold hdr; rewrite !length_app, !length_le_bytes; lia).
  assert (buf = hdr ++ bytes ++ le_bytes 2 (Z.of_nat (length base)) ++ base ++ offset_table offs ++ pad) as Ebuf by (unfold buf, frame, hdr, body; by rewrite <- !app_assoc).
  unfold open_format. rewrite Nat2Z.id. assert (drop (40 + length bytes) buf = le_bytes 2 (Z.of_nat (length base)) ++ base ++ offset_table offs ++ pad) as ->.
  { rewrite Ebuf, app_assoc. apply drop_app_exact. rewrite length_app. lia. }
  rewrite <- (EncodeFixed16_le kLittleEndian), DecodeFixed16_app. cbn [mbind option_bind].
  assert (u16 (Z.of_nat (length base)) = Z.of_nat (length base)) as -> by (apply wrap_small; lia). eexists. split; [done|]. split; [|done].
  destruct (load_frame Hle c1 c2 (Z.of_nat (length rows)) (Z.of_nat (40 + length bytes)) start size largest n1 n2 (body bytes base offs ++ pad)) as (L1 & L2 & _); [by split_and!|].
  exists hdr, bytes, base, pad. cbn [device_format_ base_pos_ base_size_]. split; [|split; [lia|lia]]. split; try done.
  - lia.
  - fold buf in L1. rewrite L1. f_equal. by eapply Rows_len32.
  - fold buf in L2. rewrite L2, Hh. f_equal. apply wrap_small. lia.
Qed.

Lemma frame_bytes_ok c1 c2 count info start size largest n1 n2 rest :
  bytes_ok (frame c1 c2 count info start size largest n1 n2 rest) <-> bytes_ok c1 /\ bytes_ok c2 /\ bytes_ok n1 /\ bytes_ok n2 /\ bytes_ok rest.
Proof.
  unfold frame, bytes_ok. rewrite !Forall_app. pose proof le_bytes_ok as Hle4. unfold bytes_ok in Hle4.
  split; [intros (? & ? & _ & _ & _ & _ & _ & ? & ? & ?)|intros (? & ? & ? & ? & ?)]; split_and!; done || apply Hle4.
Qed.

Lemma length_frame c1 c2 count info start size largest n1 n2 rest : length c2 = 4%nat -> length n1 = 4%nat -> length n2 = 4%nat ->
  length (frame c1 c2 count info start size largest n1 n2 rest) = (length c1 + 36 + length rest)%nat.
Proof. intros. unfold frame. rewrite !length_app, !length_le_bytes. lia. Qed.

Lemma frame_app c1 c2 count info start size largest n1 n2 a b :
  frame c1 c2 count info start size largest n1 n2 (a ++ b) = frame c1 c2 count info start size largest n1 n2 a ++ b.
Proof. unfold frame. by rewrite <- !app_assoc. Qed.

Lemma seal_table_spec address buf rows n1 n2 compressed sealed next pre : Form buf rows n1 n2 compressed sealed -> exists buf',
  seal address buf next pre = Some buf' /\ Form buf' rows (le_bytes 4 next) (le_bytes 4 pre) compressed true /\ length buf' = length buf.
Proof.
  intros [(c1 & c2 & start & size & largest & bytes & base & offs & first & data & pad & HF & -> & Eb & Es & Ez & Hr & Hb & Hs & Hfb & Hz & Hf2 & Hp & _) Hok].
  set (payload := if compressed then RawCompress data else data) in *. unfold seal. rewrite (EncodeFixed32_le _ next), (EncodeFixed32_le _ pre).
  rewrite (proj1 (proj2 (proj2 (proj2 (proj2 (put_fields _ _ _ _ _ _ _ _ _ _ _ HF)))))). cbn [mbind option_bind].
  pose proof HF as (F1 & F2 & F3 & F4). assert (Fields c1 c2 (le_bytes 4 next) n2) as HF1 by (split_and!; try done; apply length_le_bytes).
  rewrite (proj2 (proj2 (proj2 (proj2 (proj2 (put_fields _ _ _ _ _ _ _ _ _ _ _ HF1)))))). cbn [mbind option_bind].
  assert (Fields c1 c2 (le_bytes 4 next) (le_bytes 4 pre)) as HF2 by (split_and!; try done; apply length_le_bytes).
  rewrite (proj1 (proj2 (proj2 (load_frame Hle _ _ _ _ _ _ _ _ _ _ HF2)))). cbn [mbind option_bind].
  assert (length (body bytes base offs) = length first + length data)%nat as Elen by (by rewrite Eb, length_app).
  assert (u32 start = start) as -> by (unfold u32; rewrite wrap_small; lia). destruct (Z.eqb_spec start 0); [lia|].
  apply frame_bytes_ok in Hok as (K1 & K2 & K3 & K4 & K5). unfold bytes_ok in K5. rewrite !Forall_app in K5. destruct K5 as (K5 & K6 & K7).
  set (w := fun c => frame [] c (Z.of_nat (length rows)) (info_word compressed (length bytes)) start size largest (le_bytes 4 next) (le_bytes 4 pre)).
  set (info := info_word compressed (length bytes)) in *. set (count := Z.of_nat (length rows)) in *.
  unfold SKTDF_NR_KEY_OFFSET. rewrite (get_at_eq _ _ _ (c1 ++ c2) (w [] first) (payload ++ pad));
    [|unfold w, frame; by rewrite <- !app_assoc|rewrite length_app; lia|unfold w; unfold frame; rewrite !length_app, !length_le_bytes; cbn [length]; lia].
  cbn [mbind option_bind]. assert (bytes_ok (w [] first)) as Kw by (apply frame_bytes_ok; split_and!; done || apply le_bytes_ok || constructor).
  unfold Value. rewrite Extend_spec by (done || lia). cbn [mbind option_bind]. set (c2' := le_bytes 4 (Mask (crc32c 0 (w [] first)))).
  rewrite EncodeFixed32_le, (proj1 (proj2 (put_fields _ _ _ _ _ _ _ _ _ _ _ HF2))). cbn [mbind option_bind]. fold c2'.
  assert (Fields c1 c2' (le_bytes 4 next) (le_bytes 4 pre)) as HF3 by (split_and!; try done; apply length_le_bytes).
  rewrite (proj2 (proj2 (proj2 (load_frame Hle _ _ _ _ _ _ _ _ _ _ HF3)))). cbn [mbind option_bind].
  assert (u32 size = size) as -> by (unfold u32; rewrite wrap_small; lia). unfold SKTDF_CRC_2_OFFSET.
  assert (length c2' = 4%nat) as F5 by apply length_le_bytes. assert (u32 (start + size - Z.of_nat 4) = Z.of_nat (length (w c2' (first ++ payload)))) as ->.
  { unfold w. rewrite length_frame, length_app by (done || apply length_le_bytes). cbn [length]. unfold u32. rewrite wrap_small; lia. }
  rewrite Nat2Z.id, (get_at_eq _ _ _ c1 (w c2' (first ++ payload)) pad); [|unfold w, frame; by rewrite <- !app_assoc|done|done]. cbn [mbind option_bind].
  assert (bytes_ok (w c2' (first ++ payload))) as Kw2 by (apply frame_bytes_ok; split_and!; apply le_bytes_ok || constructor || (apply Forall_app; by split)).
  rewrite Extend_spec by (done || lia). cbn [mbind option_bind]. rewrite EncodeFixed32_le, (proj1 (put_fields _ _ _ _ _ _ _ _ _ _ _ HF3)).
  eexists. split; [done|]. split; [split|].
  - do 11 eexists. split; [|split; [reflexivity|]]; [by split_and!; try apply length_le_bytes|]. split_and!; try done. 
  - apply frame_bytes_ok. split_and!; try apply le_bytes_ok. unfold bytes_ok. rewrite !Forall_app. by split_and!.
  - rewrite !length_frame; done || apply length_le_bytes || (rewrite !length_le_bytes; lia).
Qed.

Lemma info_word_bits compressed n : Z.of_nat (40 + n) < 2 ^ 20 -> u32 (info_word compressed n) = info_word compressed n /\
  (Z.land (info_word compressed n) flag_compression =? 0) = negb compressed /\ Z.land (info_word compressed n) (u32 (Z.lnot flag_compression)) = Z.of_nat (40 + n).
Proof.
  intros Hn. unfold info_word, flag_compression. set (x := Z.of_nat (40 + n)) in *. assert (0 <= x < 2 ^ 31) as Hx by lia.
  assert (Z.lor x 0x80000000 = x + 1 * 2 ^ 31) as El by (change 0x80000000 with (Z.shiftl 1 31); apply lor_disjoint_add; lia).
  assert (Z.land x 0x80000000 = 0) as E0.
  { apply bits_ext. intros i Hi. rewrite Z.land_spec, Z.bits_0. change 0x80000000 with (2 ^ 31). rewrite Z.pow2_bits_eqb by lia.
    destruct (Z.eqb_spec 31 i) as [<-|]; [|apply andb_false_r]. rewrite (testbit_high x 31 31); [done|lia..]. }
  assert (forall y, Z.land y (u32 (Z.lnot 0x80000000)) = y mod 2 ^ 31) as Em by (intros y; change (u32 (Z.lnot 0x80000000)) with (Z.ones 31); apply Z.land_ones; lia).
  destruct compressed; cbn [negb].
  - split; [rewrite El; apply wrap_small; lia|]. split.
    + rewrite Z.land_lor_distr_l, E0. done.
    + rewrite El, Em, Z.mod_add, Z.mod_small; lia.
  - split; [apply wrap_small; lia|]. split; [by rewrite E0|]. rewrite Em, Z.mod_small; lia.
Qed.

(** The check of the checksum and the numbers that follow it. *)
Lemma check_frame address c2 count info start size largest next pre covered rest : length c2 = 4%nat -> bytes_ok c2 -> bytes_ok covered ->
  start + size = Z.of_nat (40 + length covered) -> 0 <= start -> 0 <= size -> start + size < 2 ^ 32 -> 4 <= start ->
  let crc := crc32c 0 (frame [] c2 count info start size largest (le_bytes 4 next) (le_bytes 4 pre) covered) in
  let buf := frame (le_bytes 4 (Mask crc)) c2 count info start size largest (le_bytes 4 next) (le_bytes 4 pre) (covered ++ rest) in
  (let crc_size := u32 (u32 (start - Z.of_nat SKTDF_CRC_2_OFFSET) + size) in
   stored ← DecodeFixed32 kLittleEndian buf;
   covered ← get_at buf SKTDF_CRC_2_OFFSET (Z.to_nat crc_size);
   crc ← Value (address + Z.of_nat SKTDF_CRC_2_OFFSET) covered;
   if negb (Unmask stored =? crc) then None
   else next_id ← load32 buf SKTDF_NEXT_ID_OFFSET; prealloc_id ← load32 buf SKTDF_PREALLOC_ID_OFFSET; Some (next_id, prealloc_id)) = Some (u32 next, u32 pre).
Proof.
  intros Hc2 Hk2 Hkc Hsum G0 G1 G2 G4 crc buf. set (cov := frame [] c2 count info start size largest (le_bytes 4 next) (le_bytes 4 pre) covered) in *.
  assert (bytes_ok cov) as Hcov by (apply frame_bytes_ok; split_and!; apply le_bytes_ok || constructor || done).
  assert (buf = le_bytes 4 (Mask crc) ++ cov ++ rest) as Ebuf by (unfold buf, cov, frame; by rewrite <- !app_assoc). cbv zeta. unfold SKTDF_CRC_2_OFFSET.
  assert (u32 (u32 (start - Z.of_nat 4) + size) = Z.of_nat (length cov)) as ->.
  { unfold cov. rewrite length_frame by (done || apply length_le_bytes). cbn [length]. unfold u32. rewrite (wrap_small _ (start - _)) by lia. rewrite wrap_small; lia. }
  rewrite Nat2Z.id. destruct (load_ids Hle (le_bytes 4 (Mask crc)) c2 count info start size largest next pre (covered ++ rest)) as (L1 & L2); [apply length_le_bytes|done|].
  fold buf in L1, L2. rewrite L1, L2, Ebuf, <- (EncodeFixed32_le kLittleEndian), DecodeFixed32_app. cbn [mbind option_bind].
  rewrite EncodeFixed32_le, (get_at_eq _ _ _ (le_bytes 4 (Mask crc)) cov rest); [|done|by rewrite length_le_bytes|done]. cbn [mbind option_bind].
  unfold Value. rewrite Extend_spec by (done || lia). cbn [mbind option_bind]. assert (u32 (Mask crc) = Mask crc) as -> by apply wrap_small, Mask_range.
  rewrite Unmask_Mask by (apply crc32c_range; done || lia). fold crc. by rewrite Z.eqb_refl.
Qed.

Lemma new_node_spec (alloc : Z -> list Z) address buf junk rows next pre compressed sealed from_mem : (forall n, 0 <= n <= 2 ^ 20 -> n <= Z.of_nat (length (alloc n))) ->
  Form buf rows (le_bytes 4 next) (le_bytes 4 pre) compressed sealed -> (from_mem = false -> sealed = true) -> exists n offs,
  NewSKTDFCacheNode alloc address (buf ++ junk) from_mem = Some n /\ Table n rows offs /\ (from_mem = false -> next_skt_id_ n = u32 next /\ preallocated_skt_id_ n = u32 pre).
Proof.
  intros Ha [(c1 & c2 & start & size & largest & bytes & base & offs & first & data & pad & HF & -> & Eb & Es & Ez & Hr & Hb & Hs & Hfb & Hz & Hf2 & Hp & Hcrc) Hok] Hsealed.
  set (payload := if compressed then RawCompress data else data) in *. rewrite <- frame_app, <- !app_assoc. unfold NewSKTDFCacheNode.
  destruct (load_frame Hle _ _ (Z.of_nat (length rows)) (info_word compressed (length bytes)) start size largest _ _ (first ++ payload ++ pad ++ junk) HF) as (_ & -> & -> & ->).
  assert (length (body bytes base offs) = length first + length data)%nat as Elen by (by rewrite Eb, length_app).
  assert (length bytes <= length (body bytes base offs))%nat as Hbb by (unfold body; rewrite !length_app; lia).
  destruct (info_word_bits compressed (length bytes)) as (-> & Eflag & Einfo); [lia|]. cbn [mbind option_bind].
  assert (u32 start = start) as -> by (unfold u32; rewrite wrap_small; lia). assert (u32 size = size) as -> by (unfold u32; rewrite wrap_small; lia).
  pose proof HF as (F1 & F2 & F3 & F4). set (count := Z.of_nat (length rows)) in *. set (info := info_word compressed (length bytes)) in *.
  set (ids := if from_mem then Some (0, 0) else _).
  assert (exists x y, ids = Some (x, y) /\ (from_mem = false -> x = u32 next /\ y = u32 pre)) as (x & y & -> & Hids).
  { unfold ids. destruct from_mem; [by exists 0, 0|]. exists (u32 next), (u32 pre). split; [|done]. rewrite (proj1 (Hcrc (Hsealed eq_refl))), (app_assoc first).
    apply frame_bytes_ok in Hok as (K1 & K2 & K3 & K4 & K5). unfold bytes_ok in K5. rewrite !Forall_app in K5. destruct K5 as (K5 & K6 & K7).
    apply (check_frame address c2 count info start size largest next pre (first ++ payload) (pad ++ junk)); try done; try lia; [by apply Forall_app|rewrite length_app; lia]. }
  cbn [mbind option_bind]. rewrite Eflag. destruct compressed; cbn [negb].
  - assert (frame c1 c2 count info start size largest (le_bytes 4 next) (le_bytes 4 pre) (first ++ payload ++ pad ++ junk) =
      frame c1 c2 count info start size largest (le_bytes 4 next) (le_bytes 4 pre) first ++ payload ++ pad ++ junk) as -> by apply frame_app.
    set (head := frame c1 c2 count info start size largest (le_bytes 4 next) (le_bytes 4 pre) first).
    assert (length head = 40 + length first)%nat as Hhead by (unfold head; rewrite length_frame; lia).
    rewrite (get_at_eq _ (Z.to_nat start) _ head payload (pad ++ junk)) by (done || lia). cbn [mbind option_bind]. assert (GetUncompressedLength payload = Some (Z.of_nat (length data))) as -> by apply compress_length. cbn [mbind option_bind].
    rewrite (get_at_eq _ 0 _ [] head (payload ++ pad ++ junk)) by (done || lia). cbn [mbind option_bind].
    assert (u32 (Z.of_nat (length data) + start) = Z.of_nat (40 + length first + length data)) as -> by (unfold u32; rewrite wrap_small; lia).
    specialize (Ha (Z.of_nat (40 + length first + length data)) ltac:(lia)). set (fresh := alloc _) in *.
    destruct (buffer_split fresh (length head) (length data)) as (x1 & x2 & x3 & -> & G1 & G2 & _); [lia|].
    rewrite (put_at_eq _ _ [] x1 (x2 ++ x3) head) by done. cbn [mbind option_bind app]. assert (Uncompress payload = Some data) as -> by apply compress_roundtrip. cbn [mbind option_bind].
    rewrite (put_at_eq _ _ head x2 x3 data) by (done || lia). cbn [mbind option_bind]. unfold head. rewrite <- frame_app, Einfo, !native32_le by done.
    rewrite (proj1 (proj2 (proj2 (put_fields _ _ _ _ _ _ _ _ _ _ _ HF)))). cbn [mbind option_bind].
    rewrite (proj1 (proj2 (proj2 (proj2 (put_fields _ _ _ _ _ _ _ _ _ _ _ HF))))). cbn [mbind option_bind]. rewrite (app_assoc first), <- Eb.
    destruct (open_frame c1 c2 rows start (Z.of_nat (length data)) largest (le_bytes 4 next) (le_bytes 4 pre) bytes base offs x3 x y HF Hr Hb) as (n & En & HT & E1 & E2); [lia|].
    exists n, offs. split; [done|]. split; [done|]. intros Ef. rewrite E1, E2. by apply Hids.
  - replace payload with data by done. rewrite (app_assoc first), <- Eb.
    destruct (open_frame c1 c2 rows start size largest (le_bytes 4 next) (le_bytes 4 pre) bytes base offs (pad ++ junk) x y HF Hr Hb) as (n & En & HT & E1 & E2); [lia|].
    exists n, offs. split; [exact En|]. split; [done|]. intros Ef. rewrite E1, E2. by apply Hids.
Qed.

(** ** Finishing *)

Variables kMaxSKTableSize kMaxColumnCount kMaxKeySize : nat.
Hypothesis Hmax : 4096 <= Z.of_nat kMaxSKTableSize <= 2 ^ 19.
Hypothesis Hroom : (64 + 2 * kMaxKeySize + 2 * (1 + 34 * kMaxColumnCount) <= 4096)%nat.
Variable k : Z.
Hypothesis Hk : 0 <= k <= 12.
Variable alloc : Z -> list Z.
Hypothesis Halloc : forall n, 0 <= n <= 2 ^ 20 -> n <= Z.of_nat (length (alloc n)) /\ bytes_ok (alloc n).
Local Abbreviation Built := (Built kMaxSKTableSize kMaxColumnCount kMaxKeySize (2 ^ k)).

Lemma align_small size : 0 <= size <= 2 ^ 20 -> size <= SizeAlignment (2 ^ k) size < size + 4096 /\ (2 ^ k | SizeAlignment (2 ^ k) size) /\
  forall l, (2 ^ k | l) -> size <= l -> SizeAlignment (2 ^ k) size <= l.
Proof.
  intros Hs. assert (0 < 2 ^ k <= 4096) as Hp by (split; [lia|change 4096 with (2 ^ 12); apply Z.pow_le_mono_r; lia]).
  pose proof (SizeAlignment_spec k size). pose proof (fun l => SizeAlignment_least k size l ltac:(lia) ltac:(lia) ltac:(lia)) as Hl.
  split; [lia|]. split; [by apply (Hl 0)|]. intros l. by apply Hl.
Qed.

(** The first writes: base key, offsets and header. *)
Lemma finish_buffer b rows : Built b rows -> exists c1 c2 i1 i2 bytes tail,
  let base := begin_key_of_target b in let total := (40 + length (body bytes base (key_offset b)))%nat in
  let start := compression_start_ofs b in
  Fields c1 c2 i1 i2 /\ Rows base 40 rows bytes (key_offset b) /\ first_zero bytes /\ start = second_key rows /\ buffer_size b = (40 + length bytes)%nat /\ (40 <= start <= 40 + length bytes)%nat /\
  (buffer_size b + 2 + length base + length (concat (map native32 (key_offset b))))%nat = total /\
  let buffer := frame c1 c2 (Z.of_nat (length rows)) (Z.of_nat (40 + length bytes)) (Z.of_nat start) (Z.of_nat (total - start)) (largest_seq_num b) i1 i2
    (body bytes base (key_offset b) ++ tail) in
  bytes_ok buffer /\ length buffer = length (uncomp_buffer b) /\ Z.of_nat total <= Z.of_nat (length buffer) < 2 ^ 20 /\
  (buffer ← put_at (uncomp_buffer b) (buffer_size b) (EncodeFixed16 kLittleEndian (Z.of_nat (length base)) ++ base ++ concat (map native32 (key_offset b)));
   put_at buffer SKTDF_NR_KEY_OFFSET (header (stored_key_count b) (Z.of_nat (buffer_size b)) (Z.of_nat start) (Z.of_nat (total - start)) (largest_seq_num b))) = Some buffer /\
  (Z.of_nat (length (uncomp_buffer b)) <? Z.of_nat (buffer_size b + length base) + stored_key_count b * 4) = false.
Proof.
  intros [(hdr & bytes & tail & Eb & Hh & Hs & Hr & Hz) _ Hc Hrm _ _ [Hbase Hbok] [_ Hst] Hsnd (Hcap & _ & Hok)].
  pose proof (Rows_length _ _ _ _ _ Hr) as Hol. assert (concat (map native32 (key_offset b)) = offset_table (key_offset b)) as Eo.
  { unfold offset_table. f_equal. apply map_ext. intros v. by apply native32_le. }
  destruct (buffer_split hdr 4 4) as (c1 & c2 & z & -> & F1 & F2 & Fz); [lia|]. rewrite Hh in Fz.
  destruct (buffer_split z 24 4) as (old & i1 & i2 & -> & F3 & F4 & F5); [lia|]. rewrite Fz in F5. assert (Fields c1 c2 i1 i2) as HF by (split_and!; done).
  set (base := begin_key_of_target b) in *. set (ot := offset_table (key_offset b)) in *. assert (length ot = (4 * length rows)%nat) as Hot by (unfold ot; rewrite length_offset_table; lia).
  assert (length (uncomp_buffer b) = 40 + length bytes + length tail)%nat as Hbl by (rewrite Eb, length_app, Hh, length_app; lia).
  destruct (buffer_split tail 0 (2 + length base + length ot)) as (x0 & x & tail' & -> & G0 & G1 & _); [lia|]. destruct x0; [|done]. cbn [app] in *.
  assert (length (body bytes base (key_offset b)) = length bytes + 2 + length base + length ot)%nat as Hbody by (unfold body; fold ot; rewrite !length_app, length_le_bytes; lia).
  exists c1, c2, i1, i2, bytes, tail'. cbv zeta. rewrite Eo. fold base ot. do 5 (split; [done|]). split; [lia|]. split; [lia|].
  unfold bytes_ok in Hok. rewrite Eb, !Forall_app in Hok. destruct Hok as ((K1 & K2 & K3 & K4 & K5) & K6 & K7 & K8).
  rewrite length_app in Hbl. split; [|split; [|split; [|split]]].
  - apply frame_bytes_ok. split_and!; try done. unfold body, bytes_ok. rewrite !Forall_app. split_and!; try done; [apply le_bytes_ok|].
    unfold offset_table. apply Forall_concat, Forall_map, Forall_true. intros v. apply le_bytes_ok.
  - rewrite length_frame, length_app, Hbody, F1 by done. lia.
  - rewrite length_frame, length_app, Hbody, F1 by done. lia.
  - rewrite EncodeFixed16_le, Hs, Eb, (put_at_eq _ _ ((c1 ++ c2 ++ old ++ i1 ++ i2) ++ bytes) x tail'); [|by rewrite <- !app_assoc|rewrite length_app, Hh; lia|rewrite !length_app, length_le_bytes; lia].
    cbn [mbind option_bind]. rewrite Hc. rewrite <- (put_header Hle c1 c2 old i1 i2 (body bytes base (key_offset b) ++ tail') (Z.of_nat (length rows)) (Z.of_nat (40 + length bytes))) by done.
    f_equal. unfold body. fold ot. by rewrite <- !app_assoc.
  - rewrite Hc. apply Z.ltb_ge. lia.
Qed.

Lemma shrink_app x t size : Z.of_nat (length x) <= size <= Z.of_nat (length (x ++ t)) -> shrink (x ++ t) size = Some (x ++ take (Z.to_nat size - length x) t).
Proof. intros Hs. unfold shrink. destruct (Z.ltb_spec (Z.of_nat (length (x ++ t))) size); [lia|]. by rewrite take_app, take_ge by lia. Qed.

Lemma plain_form c1 c2 i1 i2 rows bytes base offs start largest pad : Fields c1 c2 i1 i2 -> Rows base 40 rows bytes offs -> first_zero bytes -> start = second_key rows -> Z.of_nat (length base) < 2 ^ 16 ->
  (40 <= start <= 40 + length bytes)%nat -> Z.of_nat (40 + length (body bytes base offs)) < 2 ^ 20 ->
  let buf := frame c1 c2 (Z.of_nat (length rows)) (Z.of_nat (40 + length bytes)) (Z.of_nat start) (Z.of_nat (40 + length (body bytes base offs) - start)) largest i1 i2 (body bytes base offs ++ pad) in
  bytes_ok buf -> Form buf rows i1 i2 false false.
Proof.
  intros HF Hr Hz H2 Hb Hst Hs buf Hok. split; [|done]. pose proof (take_drop (start - 40) (body bytes base offs)) as E.
  exists c1, c2, (Z.of_nat start), (Z.of_nat (40 + length (body bytes base offs) - start)), largest, bytes, base, offs, (take (start - 40) (body bytes base offs)), (drop (start - 40) (body bytes base offs)), pad.
  assert (length bytes <= length (body bytes base offs))%nat as Hbb by (unfold body; rewrite !length_app; lia).
  split; [done|]. split; [by rewrite app_assoc, E|]. split; [done|]. rewrite length_take, length_drop. split_and!; try done || lia.
Qed.

(** Cutting off what follows an uncompressed table. *)
Lemma shrink_plain c1 c2 i1 i2 rows bytes base offs start largest pad : Fields c1 c2 i1 i2 -> Rows base 40 rows bytes offs -> first_zero bytes -> start = second_key rows -> Z.of_nat (length base) < 2 ^ 16 ->
  let bd := body bytes base offs in let total := (40 + length bd)%nat in (40 <= start <= 40 + length bytes)%nat -> Z.of_nat total < 2 ^ 20 ->
  let buf := frame c1 c2 (Z.of_nat (length rows)) (Z.of_nat (40 + length bytes)) (Z.of_nat start) (Z.of_nat (total - start)) largest i1 i2 (bd ++ pad) in
  bytes_ok buf -> (2 ^ k | Z.of_nat (length buf)) -> Z.of_nat (length buf) < 2 ^ 20 -> exists slice,
  shrink buf (SizeAlignment (2 ^ k) (Z.of_nat (total - start) + Z.of_nat start)) = Some slice /\ Form slice rows i1 i2 false false /\ 0 < Z.of_nat (length slice) <= Z.of_nat (length buf).
Proof.
  intros HF Hr Hz H2 Hb bd total Hst Hs buf Hok Hal Hcap. assert (length bytes <= length bd)%nat as Hbb by (unfold bd, body; rewrite !length_app; lia). pose proof HF as (F1 & F2 & F3 & F4). replace (Z.of_nat (total - start) + Z.of_nat start) with (Z.of_nat total) by lia.
  assert (length buf = (40 + length (bd ++ pad))%nat) as Hbl by (unfold buf; rewrite length_frame by done; lia). rewrite length_app in Hbl.
  destruct (align_small (Z.of_nat total)) as (G1 & _ & G2); [lia|]. specialize (G2 (Z.of_nat (length buf)) Hal ltac:(lia)). set (sz := SizeAlignment _ _) in *.
  set (whole := frame c1 c2 (Z.of_nat (length rows)) (Z.of_nat (40 + length bytes)) (Z.of_nat start) (Z.of_nat (total - start)) largest i1 i2 bd).
  assert (length whole = total) as Hwl by (unfold whole; rewrite length_frame by done; lia). assert (buf = whole ++ pad) as Ebuf by apply frame_app.
  rewrite Ebuf, shrink_app; [|rewrite <- Ebuf; lia]. eexists. split; [done|]. unfold whole. rewrite <- frame_app. split.
  - apply (plain_form c1 c2 i1 i2 rows bytes base offs start largest); try done. fold bd total. rewrite frame_app. fold whole. rewrite Ebuf in Hok.
    apply Forall_app in Hok as [? ?]. apply Forall_app. split; [done|]. by apply Forall_take.
  - rewrite frame_app. fold whole. rewrite !length_app, length_take, Hwl. lia.
Qed.

(** The compressed form, in a buffer of its own. *)
Lemma compress_form fresh rows bytes base offs first data largest : Rows base 40 rows bytes offs -> first_zero bytes -> (40 + length first = second_key rows)%nat -> Z.of_nat (length base) < 2 ^ 16 -> body bytes base offs = first ++ data ->
  let total := (40 + length (body bytes base offs))%nat in let start := (40 + length first)%nat in let out := RawCompress data in (length first <= length bytes)%nat -> Z.of_nat total <= 2 ^ 19 ->
  SizeAlignment (2 ^ k) (MaxCompressedLength (Z.of_nat total)) <= Z.of_nat (length fresh) -> bytes_ok fresh -> bytes_ok (first ++ data) -> exists comp,
  put_at fresh start out = Some comp /\ (Z.of_nat (length out) < Z.of_nat (length data) -> exists slice n1 n2,
  (comp_buffer ← put_at comp SKTDF_NR_KEY_OFFSET (header (Z.of_nat (length rows)) (Z.lor (Z.of_nat (40 + length bytes)) flag_compression) (Z.of_nat start) (Z.of_nat (length out)) largest);
   comp_buffer ← put_at comp_buffer SKTDF_BEGIN_KEY_OFFSET first; shrink comp_buffer (SizeAlignment (2 ^ k) (Z.of_nat (length out) + Z.of_nat start))) = Some slice /\
  Form slice rows n1 n2 true false /\ Z.of_nat (length slice) = SizeAlignment (2 ^ k) (Z.of_nat (length out) + Z.of_nat start)).
Proof.
  intros Hr Hz H2 Hb Ebd total start out Hfb Htot Hfresh Hfok Hbok. pose proof (compress_bound data) as Hcb. fold out in Hcb.
  assert (length (body bytes base offs) = length first + length data)%nat as Elen by (by rewrite Ebd, length_app).
  assert (Z.of_nat (length data) / 6 <= Z.of_nat total / 6) as Hd6 by (apply Z.div_le_mono; lia). assert (Z.of_nat total / 6 <= 2 ^ 17) as Ht6 by (apply Z.div_le_upper_bound; lia).
  assert (0 <= Z.of_nat total / 6) by (apply Z.div_pos; lia). unfold MaxCompressedLength in Hfresh.
  destruct (align_small (32 + Z.of_nat total + Z.of_nat total / 6)) as (G1 & G2 & _); [lia|].
  destruct (buffer_split fresh start (length out)) as (y1 & y2 & y3 & -> & Hy1 & Hy2 & Hy3); [lia|].
  rewrite (put_at_eq _ _ y1 y2 y3) by done. eexists. split; [done|]. intros Hless.
  destruct (buffer_split y1 4 4) as (c1 & c2 & z & -> & F1 & F2 & Fz); [lia|]. destruct (buffer_split z 24 4) as (old & i1 & z2 & -> & F3 & F4 & F5); [lia|].
  destruct (buffer_split z2 4 (length first)) as (i2 & z3 & z4 & -> & F6 & F7 & F8); [lia|]. assert (z4 = []) as -> by (destruct z4; [done|]; cbn [length] in *; lia).
  assert (Fields c1 c2 i1 i2) as HF by (split_and!; done).
  replace ((c1 ++ c2 ++ old ++ i1 ++ i2 ++ z3 ++ []) ++ out ++ y3) with (c1 ++ c2 ++ old ++ i1 ++ i2 ++ z3 ++ out ++ y3) by (rewrite app_nil_r; by rewrite <- !app_assoc).
  rewrite put_header by done. cbn [mbind option_bind].
  set (fr := frame c1 c2 (Z.of_nat (length rows)) (Z.lor (Z.of_nat (40 + length bytes)) flag_compression) (Z.of_nat start) (Z.of_nat (length out)) largest i1 i2).
  assert (forall l, fr l = fr [] ++ l) as Efr by (intros l; unfold fr; by rewrite <- frame_app).
  assert (length (fr []) = 40%nat) as Hfr by (unfold fr; rewrite length_frame, F1 by done; done).
  rewrite (put_at_eq (fr (z3 ++ out ++ y3)) _ (fr []) z3 (out ++ y3) first); [|by rewrite Efr|by rewrite Hfr|done]. cbn [mbind option_bind]. rewrite <- Efr.
  assert (length (fr (first ++ out)) = start + length out)%nat as Hwl by (rewrite Efr, length_app, Hfr, length_app; lia).
  rewrite (app_assoc first), Efr, app_assoc, <- Efr. rewrite !length_app in Hy3, Hfresh. cbn [length] in Hy3, Hfresh.
  destruct (align_small (Z.of_nat (length out) + Z.of_nat start)) as (G3 & _ & G4); [lia|]. specialize (G4 _ G2 ltac:(lia)).
  rewrite shrink_app; [|rewrite length_app; lia]. eexists _, i1, i2. split; [done|]. set (pad := take _ y3).
  unfold bytes_ok in Hfok. rewrite !Forall_app in Hfok. destruct Hfok as ((K1 & K2 & K3 & K4 & K5 & K6 & K7) & K8 & K9). apply Forall_app in Hbok as [Kf Kd].
  split; [split|].
  - exists c1, c2, (Z.of_nat start), (Z.of_nat (length out)), largest, bytes, base, offs, first, data, pad. split; [done|].
    split; [unfold fr; rewrite <- frame_app; by rewrite <- app_assoc|]. unfold total, out in *. split_and!; try done || lia.
  - unfold fr. rewrite <- frame_app. apply frame_bytes_ok. split_and!; try done. unfold bytes_ok. rewrite !Forall_app. split_and!; [done|by apply compress_ok|by apply Forall_take].
  - rewrite length_app, Hwl. unfold pad. rewrite length_take. lia.
Qed.

Lemma finish_table_spec have_snappy b rows : Built b rows -> exists mem dev m1 m2 n1 n2 compressed, finish_table have_snappy (2 ^ k) alloc b = Some (mem, dev) /\
  Form mem rows m1 m2 false false /\ Form dev rows n1 n2 compressed false /\ 0 < Z.of_nat (length dev) <= Z.of_nat kMaxSKTableSize.
Proof.
  intros Hb. destruct (finish_buffer b rows Hb) as (c1 & c2 & i1 & i2 & bytes & tail & HF & Hr & Hz & H47 & Hs & Hst & Etot & Hok & Hlen & Hcap & Hput & Hroom').
  set (base := begin_key_of_target b) in *. set (bd := body bytes base (key_offset b)) in *. set (start := compression_start_ofs b) in *.
  set (buffer := frame _ _ _ _ _ _ _ _ _ _) in *. assert (Z.of_nat (length base) < 2 ^ 16) as Hbase by (pose proof (bu_base _ _ _ _ _ _ Hb) as [? _]; unfold base; lia).
  assert (length bytes <= length bd)%nat as Hbd by (unfold bd, body; rewrite !length_app; lia). pose proof HF as (F1 & F2 & F3 & F4).
  assert (Form buffer rows i1 i2 false false) as Hform by (apply (plain_form c1 c2 i1 i2 rows bytes base (key_offset b) start (largest_seq_num b) tail); done || fold bd; lia).
  unfold finish_table. fold base. rewrite Hroom'. rewrite Etot. fold start. fold bd in Hput |- *.
  destruct (put_at (uncomp_buffer b) (buffer_size b) _) as [b1|]; [|done]. cbn [mbind option_bind] in Hput |- *. rewrite Hput. cbn [mbind option_bind]. clear Hput.
  set (first := take (start - 40) bd). set (data := drop (start - 40) bd). assert (bd = first ++ data) as Ebd by (symmetry; apply take_drop).
  assert (length first = (start - 40)%nat /\ length data = (40 + length bd - start)%nat) as [Hfl Hdl] by (unfold first, data; rewrite length_take, length_drop; lia).
  set (head := frame c1 c2 (Z.of_nat (length rows)) (Z.of_nat (40 + length bytes)) (Z.of_nat start) (Z.of_nat (40 + length bd - start)) (largest_seq_num b) i1 i2 first).
  assert (length head = start) as Hhl by (unfold head; rewrite length_frame, F1, Hfl by done; lia).
  assert (buffer = head ++ data ++ tail) as Ebuf by (unfold buffer, head; rewrite Ebd, <- app_assoc; apply frame_app).
  rewrite (get_at_eq buffer start _ head data tail) by done. cbn [mbind option_bind].
  assert (exists mem dev m1 m2 n1 n2 compressed, (slice ← shrink buffer (SizeAlignment (2 ^ k) (Z.of_nat (40 + length bd - start) + Z.of_nat start)); Some (slice, slice)) = Some (mem, dev) /\
    Form mem rows m1 m2 false false /\ Form dev rows n1 n2 compressed false /\ 0 < Z.of_nat (length dev) <= Z.of_nat kMaxSKTableSize) as Hplain.
  { pose proof (shrink_plain c1 c2 i1 i2 rows bytes base (key_offset b) start (largest_seq_num b) tail HF Hr Hz H47 Hbase) as Hshrink. cbv zeta in Hshrink. fold bd buffer in Hshrink.
    destruct Hshrink as (slice & E & Hsl & Hll); [lia|lia|done|rewrite Hlen; apply (bu_ok _ _ _ _ _ _ Hb)|lia|].
    rewrite E. exists slice, slice, i1, i2, i1, i2, false. do 3 (split; [done|]). pose proof (bu_ok _ _ _ _ _ _ Hb) as (? & _ & _). lia. }
  destruct have_snappy; [|by apply Hplain]. cbn [andb].
  pose proof (bu_ok _ _ _ _ _ _ Hb) as (Hcap' & _ & _). assert (0 <= MaxCompressedLength (Z.of_nat (40 + length bd)) <= 2 ^ 20 - 4096) as Hmc.
  { unfold MaxCompressedLength. assert (Z.of_nat (40 + length bd) / 6 <= 2 ^ 17) by (apply Z.div_le_upper_bound; lia).
    pose proof (Z.div_pos (Z.of_nat (40 + length bd)) 6). lia. }
  destruct (Halloc (SizeAlignment (2 ^ k) (MaxCompressedLength (Z.of_nat (40 + length bd))))) as [Hal Haok].
  { destruct (align_small (MaxCompressedLength (Z.of_nat (40 + length bd)))) as (G & _); [lia|lia]. }
  apply frame_bytes_ok in Hok as (_ & _ & _ & _ & Hok). apply Forall_app in Hok as [Hok _]. rewrite Ebd in Hok.
  destruct (compress_form (alloc (SizeAlignment (2 ^ k) (MaxCompressedLength (Z.of_nat (40 + length bd))))) rows bytes base (key_offset b) first data (largest_seq_num b) Hr Hz ltac:(rewrite Hfl; lia) Hbase Ebd)
    as (comp & Ec & Hcomp); try done || (fold bd; lia). rewrite Hfl in Ec, Hcomp. replace (40 + (start - 40))%nat with start in Ec, Hcomp by lia. rewrite Ec. cbn [mbind option_bind].
  destruct (Z.ltb_spec (Z.of_nat (length (RawCompress data))) (Z.of_nat (40 + length bd - start) - Z.of_nat (40 + length bd - start) / 8)) as [Hless|]; [|by apply Hplain].
  assert (0 <= Z.of_nat (40 + length bd - start) / 8) as Hdiv8 by (apply Z.div_pos; lia).
  destruct Hcomp as (slice & n1 & n2 & Esl & Hsl & Hll); [lia|].
  rewrite (bu_count _ _ _ _ _ _ Hb), Hs. destruct (put_at comp SKTDF_NR_KEY_OFFSET _) as [comp1|]; [|done]. cbn [mbind option_bind] in Esl |- *.
  rewrite (get_at_eq buffer _ _ (frame c1 c2 (Z.of_nat (length rows)) (Z.of_nat (40 + length bytes)) (Z.of_nat start) (Z.of_nat (40 + length bd - start)) (largest_seq_num b) i1 i2 []) first (data ++ tail)).
  - cbn [mbind option_bind]. destruct (put_at comp1 SKTDF_BEGIN_KEY_OFFSET first) as [comp2|]; [|done]. cbn [mbind option_bind] in Esl |- *. rewrite Esl.
    exists buffer, slice, i1, i2, n1, n2, true. do 3 (split; [done|]).
    pose proof (bu_ok _ _ _ _ _ _ Hb) as (_ & Hdiv & _). rewrite <- Hlen in Hdiv. destruct (align_small (Z.of_nat (length (RawCompress data)) + Z.of_nat start)) as (G1 & _ & G2); [lia|].
    specialize (G2 _ Hdiv ltac:(lia)). lia.
  - rewrite Ebuf, (app_assoc _ first), <- frame_app. done.
  - rewrite length_frame, F1 by done. done.
  - unfold SKTDF_BEGIN_KEY_OFFSET. lia.
Qed.

End Finish.
