(* ===== verification/SktHolds.v ===== *)
(** * Tables of InSDB: the map that a table stands for

    A table that is loaded stands for a list of keys, in their order, each with its
    columns.  [GetColumnInfo] answers as that list does and leaves it, and the merge of
    user keys with the rows of a table is, key by key, what the user keys ask for. *)

From Stdlib Require Import ZArith Lia Bool Sorting.Sorted.
From stdpp Require Import base list.
From S2P Require Import Prelude Coding Slices Crc32c Buffers SktFormat SktRows SktColumns SktBuild.

(** A key and its columns. *)
Abbreviation KeyColumns := (list Z * list Column)%type.

Section Holds.
  Context `{Processor}.
  Hypothesis Hle : kLittleEndian = true.
  Variables kMaxColumnCount kMaxKeySize : nat.
  Hypothesis Hroom : (64 + 2 * kMaxKeySize + 2 * (1 + 34 * kMaxColumnCount) <= 4096)%nat.

Definition ascending (kvs : list KeyColumns) : Prop := StronglySorted (fun a b => lex a.1 b.1 = Lt) kvs.

Fixpoint columns_of (kvs : list KeyColumns) (key : list Z) : option (list Column) :=
  match kvs with
  | [] => None
  | (k, vs) :: kvs => if decide (k = key) then Some vs else columns_of kvs key
  end.

(** A row that has the columns of a key. *)
Record RowHolds (r : Row) (kv : KeyColumns) : Prop := {
  rh_ok : RowOk kMaxColumnCount kMaxKeySize r;
  rh_key : r.1 = kv.1;
  rh_some : kv.2 <> [];
  rh_count : (length kv.2 <= kMaxColumnCount)%nat;
  rh_cols : exists bytes, r.2 = Z.of_nat (length kv.2) :: bytes /\ Entries kv.2 bytes;
}.

Definition RowsHold (rows : list Row) (kvs : list KeyColumns) : Prop := Forall2 RowHolds rows kvs /\ ascending kvs.

Definition Holds (n : SKTDFCacheNode) (kvs : list KeyColumns) : Prop := exists rows offs, Table n rows offs /\ RowsHold rows kvs.

Lemma RowsHold_sorted rows kvs : RowsHold rows kvs -> sorted rows.
Proof.
  intros [Hf Hs] i j ki ci kj cj Hij Hi Hj. revert i j Hij Hi Hj. induction Hf as [|r kv rows kvs Hr Hf IH]; intros i j Hij Hi Hj; [done|].
  apply StronglySorted_inv in Hs as [Hs Hall]. destruct j as [|j]; [lia|]. destruct i as [|i]; [|eapply (IH Hs i j); [lia|done|done]].
  cbn in Hi, Hj. injection Hi as ->. destruct (Forall2_lookup_l _ _ _ _ _ Hf Hj) as (kv' & Hkv' & Hr'). rewrite Forall_lookup in Hall. specialize (Hall _ _ Hkv').
  pose proof (rh_key _ _ Hr) as E. pose proof (rh_key _ _ Hr') as E'. cbn in E, E'. congruence.
Qed.

Lemma cols_of_holds rows kvs key : Forall2 RowHolds rows kvs -> match columns_of kvs key with
  | Some vs => exists bytes, cols_of rows key = Some (Z.of_nat (length vs) :: bytes) /\ Entries vs bytes /\ vs <> []
  | None => cols_of rows key = None
  end.
Proof.
  induction 1 as [|[k cols] [k' vs] rows kvs Hr Hf IH]; [done|]. destruct Hr as [_ Ek Hne _ (bytes & Ec & He)]. cbn [fst snd] in *. subst k' cols. cbn [columns_of cols_of].
  destruct (decide (k = key)); [|done]. by exists bytes.
Qed.

Lemma columns_of_lookup kvs : forall i key vs, ascending kvs -> kvs !! i = Some (key, vs) -> columns_of kvs key = Some vs.
Proof.
  induction kvs as [|[k vs'] kvs IH]; intros i key vs Hs Hi; [done|]. apply StronglySorted_inv in Hs as [Hs Hall]. cbn [columns_of]. destruct i as [|i].
  - injection Hi as -> ->. by rewrite decide_True.
  - cbn in Hi. rewrite Forall_lookup in Hall. specialize (Hall _ _ Hi). cbn [fst] in Hall. rewrite decide_False; [by eapply IH|]. intros ->. by rewrite lex_refl in Hall.
Qed.

(** Setting a reference bit keeps the columns of a row. *)
Lemma RowHolds_ref kv key c a b0 b : RowHolds (key, c :: a ++ b0 :: b) kv ->
  (0 <= b0 < 256 -> Entries kv.2 (a ++ u8 (Z.lor b0 COLUMN_NODE_REF_BIT) :: b)) -> RowHolds (key, c :: a ++ u8 (Z.lor b0 COLUMN_NODE_REF_BIT) :: b) kv.
Proof.
  intros [(H1 & H2 & _ & H3 & H4) Hk Hne Hc (bytes & E & He)] Href. cbn [fst snd] in *. apply Forall_cons in H4 as [Hc0 H4]. rewrite Forall_app, Forall_cons in H4. destruct H4 as (Ha & Hb0 & Hb).
  injection E as -> _. split; try done.
  - cbn [length] in H2. rewrite length_app in H2. cbn [length] in H2. split_and!; try done; cbn [snd length]; [rewrite length_app; cbn [length]; lia|].
    apply Forall_cons. split; [done|]. apply Forall_app. split; [done|]. apply Forall_cons. split; [|done]. unfold byte_ok, u8, wrap. apply Z.mod_pos_bound. lia.
  - eexists. split; [done|]. by apply Href.
Qed.

(** What a reader gets for a column of a key. *)
Definition column_info (kvs : list KeyColumns) (HasBeenFlushed : bool) (GetTtlFromTtlList : Z -> Z) (key : list Z) (col_id seq_num cur_time : Z) : option ColumnScratchPad :=
  scratch_pad <$> (vs ← columns_of kvs key; v ← column_of vs col_id;
    if column_visible HasBeenFlushed (GetTtlFromTtlList col_id) seq_num cur_time v then Some v else None).

Lemma GetColumnInfo_spec n kvs next flushed ttl key col_id seq_num cur_time : Holds n kvs -> exists n',
  GetColumnInfo n next flushed ttl key col_id seq_num cur_time =
    Some (if beyond next key then (false, None) else (true, column_info kvs flushed ttl key col_id seq_num cur_time), n') /\ Holds n' kvs.
Proof.
  intros (rows & offs & HT & HR). pose proof HR as [Hf Hs]. destruct (GetKeyColumnInfobyHash_spec Hle n rows offs key HT (RowsHold_sorted _ _ HR)) as (pos & E & Hfound).
  unfold GetColumnInfo, column_info. destruct (beyond next key); [exists n; split; [done|]; by exists rows, offs|]. rewrite E. cbn [mbind option_bind]. pose proof (cols_of_holds rows kvs key Hf) as Hc. destruct (columns_of kvs key) as [vs|] eqn:Ecols.
  2: { rewrite Hc in *. cbn [visible]. exists n. split; [done|]. by exists rows, offs. }
  destruct Hc as (bytes & Ec & He & Hne). rewrite Ec in *. cbn [visible] in *. destruct (Z.eqb_spec (Z.of_nat (length vs)) 0) as [E0|_]; [destruct vs; [done|cbn in E0; lia]|].
  destruct (Hfound ltac:(done)) as (i & a & b & Hi & Ebuf & -> & Hset). rewrite Nat2Z.id.
  destruct (find_column_spec flushed (ttl col_id) col_id seq_num cur_time vs bytes He NewVars (length a + 1)) as (r & -> & Er & Hp). cbn [mbind option_bind]. cbn [mbind option_bind] in Er. rewrite <- Er.
  destruct r as [[pad p]|]; [|exists n; split; [done|]; by exists rows, offs]. destruct (Hp pad p eq_refl) as (a' & b0 & b' & -> & -> & Href).
  assert (device_format_ n = (a ++ Z.of_nat (length vs) :: a') ++ [b0] ++ b' ++ b) as Ebuf' by (rewrite Ebuf, <- app_assoc; cbn [app]; by rewrite <- app_assoc).
  assert (length a + 1 + length a' = length (a ++ Z.of_nat (length vs) :: a'))%nat as El by (rewrite length_app; cbn [length]; lia).
  assert (device_format_ n !! (length a + 1 + length a')%nat = Some b0) as -> by (rewrite Ebuf'; by apply list_lookup_middle). cbn [mbind option_bind]. rewrite (put_at_eq _ _ _ [b0] _ _ Ebuf' El) by done. cbn [mbind option_bind].
  eexists. split; [done|]. destruct (Forall2_lookup_l _ _ _ _ _ Hf Hi) as ([key' vs'] & Hkv & Hrow). pose proof (rh_key _ _ Hrow) as Ek. cbn [fst] in Ek. subst key'.
  rewrite (columns_of_lookup _ _ _ _ Hs Hkv) in Ecols. injection Ecols as ->. eexists _, offs. split; [|split; [|exact Hs]].
  - replace ((a ++ _ :: a') ++ _) with (a ++ (Z.of_nat (length vs) :: a' ++ u8 (Z.lor b0 COLUMN_NODE_REF_BIT) :: b') ++ b) by (rewrite <- !app_assoc; cbn [app]; by rewrite <- app_assoc).
    apply Hset. cbn [length]. by rewrite !length_app.
  - rewrite <- (list_insert_id _ _ _ Hkv). apply Forall2_insert; [done|]. by apply RowHolds_ref.
Qed.

(** ** Merging user keys with a table *)

(** The columns to record for a user key, given those in the table. *)
Definition new_columns (u : UserKey) (old : option (list Column)) : list Column :=
  uk_columns u (match old with Some vs => if uk_fetched u then [] else vs | None => [] end).

Definition key_columns (key : list Z) (vs : list Column) : list KeyColumns := match vs with [] => [] | _ => [(key, vs)] end.

Fixpoint merge_columns (ukeys : list UserKey) : list KeyColumns -> list KeyColumns :=
  match ukeys with
  | [] => fun kvs => kvs
  | u :: ukeys => fix inner kvs :=
      match kvs with
      | [] => key_columns (uk_key u) (new_columns u None) ++ merge_columns ukeys []
      | (key, vs) :: kvs' =>
          match lex (uk_key u) key with
          | Gt => (key, vs) :: inner kvs'
          | Eq => (if uk_dirty u then key_columns (uk_key u) (new_columns u (Some vs)) else [(key, vs)]) ++ merge_columns ukeys kvs'
          | Lt => key_columns (uk_key u) (new_columns u None) ++ merge_columns ukeys kvs
          end
      end
  end.

(** What is asked for a key: a user key replaces the columns of the table if it is dirty
    or the table has none. *)
Fixpoint user_key (ukeys : list UserKey) (key : list Z) : option UserKey :=
  match ukeys with
  | [] => None
  | u :: ukeys => if decide (uk_key u = key) then Some u else user_key ukeys key
  end.

Definition recorded (vs : list Column) : option (list Column) := match vs with [] => None | _ => Some vs end.

Definition flushed_columns (ukeys : list UserKey) (kvs : list KeyColumns) (key : list Z) : option (list Column) :=
  let old := columns_of kvs key in
  match user_key ukeys key, old with
  | Some u, Some _ => if uk_dirty u then recorded (new_columns u old) else old
  | Some u, None => recorded (new_columns u None)
  | None, _ => old
  end.

Definition ascending_keys (ukeys : list UserKey) : Prop := StronglySorted (fun a b => lex (uk_key a) (uk_key b) = Lt) ukeys.

Definition above (key : list Z) (kvs : list KeyColumns) : Prop := Forall (fun kv => lex key kv.1 = Lt) kvs.
Definition keys_above (key : list Z) (ukeys : list UserKey) : Prop := Forall (fun u => lex key (uk_key u) = Lt) ukeys.

Lemma above_trans key key' kvs : lex key key' = Lt -> above key' kvs -> above key kvs.
Proof. intros Hlt Ha. eapply Forall_impl; [exact Ha|]. intros kv Hkv. by eapply lex_trans. Qed.

Lemma keys_above_trans key key' ukeys : lex key key' = Lt -> keys_above key' ukeys -> keys_above key ukeys.
Proof. intros Hlt Ha. eapply Forall_impl; [exact Ha|]. intros u Hu. by eapply lex_trans. Qed.

Lemma above_key_columns key key' vs : lex key key' = Lt -> above key (key_columns key' vs).
Proof. intros Hlt. destruct vs; constructor; [done|constructor]. Qed.

Lemma merge_above key ukeys : forall kvs, keys_above key ukeys -> above key kvs -> above key (merge_columns ukeys kvs).
Proof.
  induction ukeys as [|u ukeys IH]; intros kvs Hu Hk; [done|]. apply Forall_cons in Hu as [Hu Hus]. induction kvs as [|[k vs] kvs IHk]; cbn [merge_columns].
  - apply Forall_app. split; [by apply above_key_columns|by apply IH].
  - pose proof Hk as Hk'. apply Forall_cons in Hk' as [Hkk Hkvs]. destruct (lex (uk_key u) k).
    + apply Forall_app. split; [destruct (uk_dirty u); [by apply above_key_columns|by constructor]|by apply IH].
    + apply Forall_app. split; [by apply above_key_columns|by apply IH].
    + apply Forall_cons. split; [done|]. by apply IHk.
Qed.

Lemma ascending_app key vs kvs : ascending kvs -> above key kvs -> ascending (key_columns key vs ++ kvs).
Proof. intros Hs Ha. destruct vs; [done|]. by constructor. Qed.

Lemma merge_ascending ukeys : forall kvs, ascending_keys ukeys -> ascending kvs -> ascending (merge_columns ukeys kvs).
Proof.
  induction ukeys as [|u ukeys IH]; intros kvs Hu Hk; [done|]. apply StronglySorted_inv in Hu as [Hus Hu]. induction kvs as [|[k vs] kvs IHk]; cbn [merge_columns].
  - apply ascending_app; [by apply IH|]. apply merge_above; [done|constructor].
  - pose proof Hk as Hk'. apply StronglySorted_inv in Hk' as [Hkvs Hka]. destruct (lex (uk_key u) k) eqn:El.
    + apply lex_eq in El. subst k. assert (above (uk_key u) (merge_columns ukeys kvs)) by (by apply merge_above).
      destruct (uk_dirty u); [apply ascending_app; [by apply IH|done]|]. constructor; [by apply IH|done].
    + apply ascending_app; [by apply IH|]. apply merge_above; [done|]. constructor; [done|]. by eapply above_trans.
    + constructor; [by apply IHk|]. assert (lex k (uk_key u) = Lt) as El' by (by rewrite lex_antisym, El).
      apply (merge_above k (u :: ukeys)); [|done]. constructor; [done|]. by eapply keys_above_trans.
Qed.

Lemma columns_of_above key kvs : above key kvs -> columns_of kvs key = None.
Proof. induction 1 as [|[k vs] kvs Hk _ IH]; [done|]. cbn [columns_of fst] in *. rewrite decide_False; [done|]. intros ->. by rewrite lex_refl in Hk. Qed.

Lemma user_key_above key ukeys : keys_above key ukeys -> user_key ukeys key = None.
Proof. induction 1 as [|u ukeys Hu _ IH]; [done|]. cbn [user_key]. rewrite decide_False; [done|]. intros E. rewrite E in Hu. by rewrite lex_refl in Hu. Qed.

Lemma columns_of_app key' vs kvs key : columns_of (key_columns key' vs ++ kvs) key = if decide (key' = key) then (if decide (vs = []) then columns_of kvs key else Some vs) else columns_of kvs key.
Proof. destruct vs; cbn; repeat case_decide; done. Qed.

Lemma recorded_spec vs kvs key : columns_of kvs key = None -> (if decide (vs = []) then columns_of kvs key else Some vs) = recorded vs.
Proof. intros E. destruct vs; [by rewrite decide_True|by rewrite decide_False]. Qed.

(** The merge, key by key. *)
Lemma merge_columns_of key ukeys : forall kvs, ascending_keys ukeys -> ascending kvs -> columns_of (merge_columns ukeys kvs) key = flushed_columns ukeys kvs key.
Proof.
  induction ukeys as [|u ukeys IH]; intros kvs Hu Hk; [done|]. apply StronglySorted_inv in Hu as [Hus Hu]. induction kvs as [|[k vs] kvs IHk].
  - cbn [merge_columns]. rewrite columns_of_app. unfold flushed_columns. cbn [columns_of user_key]. case_decide as E; [|by rewrite IH].
    apply recorded_spec. subst key. apply columns_of_above, merge_above; [done|constructor].
  - pose proof Hk as Hk'. apply StronglySorted_inv in Hk' as [Hkvs Hka]. cbn [merge_columns]. destruct (lex (uk_key u) k) eqn:El.
    + apply lex_eq in El. subst k. assert (above (uk_key u) (merge_columns ukeys kvs)) as Hab by (by apply merge_above). unfold flushed_columns. cbn [columns_of user_key].
      destruct (uk_dirty u) eqn:Ed.
      * rewrite columns_of_app. case_decide as E; [|by rewrite IH]. rewrite Ed. apply recorded_spec. subst key. by apply columns_of_above.
      * cbn [app columns_of]. case_decide as E; [by rewrite Ed|by rewrite IH].
    + assert (above (uk_key u) ((k, vs) :: kvs)) as Hab by (constructor; [done|by eapply above_trans]). rewrite columns_of_app. unfold flushed_columns. cbn [user_key]. case_decide as E.
      * subst key. rewrite (columns_of_above _ _ Hab). apply recorded_spec. by apply columns_of_above, merge_above.
      * by rewrite IH.
    + assert (lex k (uk_key u) = Lt) as El' by (by rewrite lex_antisym, El). cbn [columns_of]. case_decide as E.
      * subst k. unfold flushed_columns. cbn [columns_of]. rewrite decide_True by done. rewrite (user_key_above key (u :: ukeys)); [done|]. constructor; [done|]. by eapply keys_above_trans.
      * etransitivity; [exact (IHk Hkvs)|]. unfold flushed_columns. cbn [columns_of]. by rewrite decide_False.
Qed.

(** ** The rows of the merge *)

Variable HasBeenFlushed : bool.

(** A user key whose columns stay within the limits and have sequence numbers.  The
    columns of a table that was not flushed since the database was opened are fetched
    without theirs: then nothing of them may be recorded. *)
Record KeyOk (u : UserKey) : Prop := {
  ko_length : (length (uk_key u) <= kMaxKeySize)%nat;
  ko_bytes : bytes_ok (uk_key u);
  ko_columns : forall vs, ColumnsOk kMaxColumnCount vs -> ColumnsOk kMaxColumnCount (uk_columns u vs);
  ko_fetched : uk_fetched u = false -> forall vs, ColumnsOk kMaxColumnCount vs -> uk_columns u (map (fetched_node HasBeenFlushed) vs) = uk_columns u vs;
}.

Lemma encode_column_size v : ColumnOk v -> (length (encode_column 0 v) <= 34)%nat /\ bytes_ok (encode_column 0 v).
Proof.
  intros Hv. rewrite encode_column_ok by done. destruct Hv as [Hid Hoff Hseq Hts Hik Hsz]. unfold column_tail. rewrite EncodeVarint32_64 by lia.
  pose proof (length_EncodeVarint64 (vc_ikey v) 9 ltac:(lia) ltac:(lia)). pose proof (length_EncodeVarint64 (vc_size v) 5 ltac:(lia) ltac:(lia)).
  pose proof (length_EncodeVarint64 (vc_seq v) 9 ltac:(lia) ltac:(lia)). pose proof (length_EncodeVarint64 (vc_ts v) 9 ltac:(lia) ltac:(lia)).
  assert (byte_ok (flag_byte v)) by (unfold byte_ok, flag_byte; destruct (vc_ts v =? 0); lia).
  split; [cbn [length]; rewrite !length_app; destruct (vc_ts v =? 0); cbn [length]; lia|].
  unfold bytes_ok. rewrite !Forall_cons, !Forall_app. split_and!; try done; try (apply EncodeVarint64_bytes_ok; lia); [unfold byte_ok; lia|].
  destruct (vc_ts v =? 0); [constructor|apply EncodeVarint64_bytes_ok; lia].
Qed.

Lemma encode_columns_size vs : ColumnsOk kMaxColumnCount vs -> (length (encode_columns vs) <= 1 + 34 * kMaxColumnCount)%nat /\ bytes_ok (encode_columns vs).
Proof.
  intros [Hok Hl]. unfold encode_columns. cbn [length].
  assert (length (concat (map (encode_column 0) vs)) <= 34 * length vs /\ bytes_ok (concat (map (encode_column 0) vs)))%nat as [H1 H2].
  { clear Hl. induction Hok as [|v vs Hv _ [IH1 IH2]]; [by split; [|constructor]|]. cbn [map concat length]. destruct (encode_column_size v Hv). rewrite length_app. split; [lia|by apply Forall_app]. }
  split; [lia|]. apply Forall_cons. split; [|done]. unfold byte_ok, u8, wrap. apply Z.mod_pos_bound. lia.
Qed.

Lemma fresh_RowHolds u vs : KeyOk u -> ColumnsOk kMaxColumnCount vs -> vs <> [] -> RowHolds (uk_key u, encode_columns vs) (uk_key u, vs).
Proof.
  intros Hu Hvs Hne. destruct (encode_columns_size vs Hvs). split; try done; [|by destruct Hvs|].
  - destruct Hu. by split_and!.
  - apply encode_columns_entries; [by destruct Hvs|]. destruct Hvs as [_ Hl]. cbn [snd]. lia.
Qed.

Lemma Entries_length vs bytes : Entries vs bytes -> length bytes = length (concat (map (encode_column 0) vs)).
Proof.
  induction 1 as [|v b0 vs bytes Hv Hb He IH]; [done|]. cbn [map concat]. rewrite encode_column_ok by done. cbn [app length]. by rewrite !length_app, IH.
Qed.

(** Where the row of a key ends, when it is the first one of a table. *)
Definition row_end (kv : KeyColumns) : nat := second_key [(kv.1, encode_columns kv.2)].

Lemma second_key_holds rows kvs : Forall2 RowHolds rows kvs -> rows <> [] -> exists kv, kv ∈ kvs /\ second_key rows = row_end kv.
Proof.
  intros [|[key cols] kv rows' kvs' Hr _] Hne; [done|]. exists kv. split; [left|]. destruct Hr as [_ Ek _ _ (bytes & Ec & He)]. cbn [fst snd] in *. subst. unfold row_end, second_key.
  cbn [fst]. unfold row_info, encode_columns. rewrite !length_app. cbn [length]. by rewrite (Entries_length _ _ He).
Qed.

Lemma Entries_ok vs bytes : Entries vs bytes -> Forall ColumnOk vs.
Proof. induction 1; by constructor. Qed.

Lemma fetched_same vs : map (fetched_node true) vs = vs.
Proof. induction vs as [|v vs IH]; [done|]. cbn [map]. rewrite IH. by destruct v. Qed.

(** The columns of a row are fetched as they are, but for their sequence numbers if the
    table has not been flushed. *)
Lemma RowHolds_fetch r kv : RowHolds r kv -> InsertColumnNodes r.2 HasBeenFlushed = Some (map (fetched_node HasBeenFlushed) kv.2) /\ ColumnsOk kMaxColumnCount kv.2.
Proof.
  intros [_ _ _ Hc (bytes & -> & He)]. split; [|split; [by eapply Entries_ok|done]]. cbn [InsertColumnNodes]. by rewrite Nat2Z.id, (insert_columns_spec _ _ HasBeenFlushed He).
Qed.

Lemma RowHolds_source r kv : RowHolds r kv -> SourceOk kMaxColumnCount kMaxKeySize HasBeenFlushed r.
Proof. intros Hr. split; [by destruct Hr|]. destruct (RowHolds_fetch _ _ Hr) as [E Hok]. by exists kv.2. Qed.

Lemma valid_columns_ok u cols : KeyOk u -> (cols = None \/ exists c, cols = Some c /\ Fetchable kMaxColumnCount HasBeenFlushed c) -> ColumnsOk kMaxColumnCount (valid_columns HasBeenFlushed u cols).
Proof.
  intros Hu Hc. assert (ColumnsOk kMaxColumnCount []) as Hnil by (split; [constructor|cbn; lia]). unfold valid_columns. destruct Hc as [->|(c & -> & vs & E & Hvs)]; [by apply (ko_columns _ Hu)|].
  destruct (uk_fetched u) eqn:Ef; [by apply (ko_columns _ Hu)|]. rewrite E. cbn [from_option id]. rewrite (ko_fetched _ Hu Ef) by done. by apply (ko_columns _ Hu).
Qed.

Lemma KeyOk_source u : KeyOk u -> UserKeyOk kMaxColumnCount kMaxKeySize HasBeenFlushed u.
Proof.
  intros Hu cols vs Hc <- Hne. destruct (fresh_RowHolds u (valid_columns HasBeenFlushed u cols) Hu (valid_columns_ok _ _ Hu Hc) Hne). done.
Qed.

Lemma fresh_row_holds u r : KeyOk u -> match r with Some (cols, vs) => InsertColumnNodes cols HasBeenFlushed = Some (map (fetched_node HasBeenFlushed) vs) /\ ColumnsOk kMaxColumnCount vs | None => True end ->
  Forall2 RowHolds (fresh_row HasBeenFlushed u (fst <$> r)) (key_columns (uk_key u) (new_columns u (snd <$> r))).
Proof.
  intros Hu Hr. assert (valid_columns HasBeenFlushed u (fst <$> r) = new_columns u (snd <$> r)) as E.
  { unfold valid_columns, new_columns. destruct r as [[cols vs]|]; [|done]. cbn. destruct Hr as [-> Hvs]. destruct (uk_fetched u) eqn:Ef; [done|]. by apply (ko_fetched _ Hu Ef). }
  assert (ColumnsOk kMaxColumnCount (new_columns u (snd <$> r))) as Hok.
  { rewrite <- E. apply valid_columns_ok; [done|]. destruct r as [[cols vs]|]; [|by left]. right. exists cols. split; [done|]. by exists vs. }
  unfold fresh_row. rewrite E. destruct (new_columns u (snd <$> r)) as [|v vs]; [constructor|]. constructor; [|constructor]. by apply fresh_RowHolds.
Qed.

Lemma merge_holds ukeys : forall rows kvs, Forall KeyOk ukeys -> Forall2 RowHolds rows kvs -> Forall2 RowHolds (merge HasBeenFlushed ukeys rows) (merge_columns ukeys kvs).
Proof.
  induction ukeys as [|u ukeys IH]; intros rows kvs Hu Hr; [done|]. apply Forall_cons in Hu as [Hu Hus]. pose proof (fresh_row_holds u None Hu I) as Hnone. cbn [fmap option_fmap option_map] in Hnone.
  induction Hr as [|[k cols] [k' vs] rows kvs Hrow Hr IHr]; cbn [merge merge_columns].
  - apply Forall2_app; [done|]. apply IH; [done|constructor].
  - pose proof (rh_key _ _ Hrow) as Ek. cbn [fst] in Ek. subst k'. destruct (lex (uk_key u) k).
    + apply Forall2_app; [|by apply IH]. destruct (uk_dirty u); [|by constructor]. apply (fresh_row_holds u (Some (cols, vs)) Hu). exact (RowHolds_fetch _ _ Hrow).
    + apply Forall2_app; [done|]. apply IH; [done|]. by constructor.
    + constructor; [done|]. exact IHr.
Qed.


(** The columns are fetched with their sequence numbers once the table was flushed. *)
Lemma KeyOk_flushed u : (length (uk_key u) <= kMaxKeySize)%nat -> bytes_ok (uk_key u) ->
  (forall vs, ColumnsOk kMaxColumnCount vs -> ColumnsOk kMaxColumnCount (uk_columns u vs)) -> HasBeenFlushed = true -> KeyOk u.
Proof. intros H1 H2 H3 H4. split; [done..|]. intros _ vs _. by rewrite H4, fetched_same. Qed.

End Holds.
