(* ===== verification/SktTheorems.v ===== *)
(** * Tables of InSDB: what a flush leaves

    The tables that a flush builds, the numbers it gives them, and what is on the device
    when it has written them or was interrupted: a chain of tables that load and stand
    for the merge of the previous table with the user keys.  Then the look-up of a
    column in a table, and a column that is read back with the wrong sequence number. *)

From Stdlib Require Import ZArith Lia Bool Sorting.Sorted.
From stdpp Require Import base list sorting.
From S2P Require Import Prelude Coding Slices Crc32c Buffers KeyBlockTheorems SktFormat SktRows SktColumns SktBuild SktFinish SktHolds.

(** ** The tables of a flush *)

Section Tables.
  Context `{Processor} `{RawMalloc} `{SnappyLaws}.
  Hypothesis Hle : kLittleEndian = true.
  Variables kMaxSKTableSize kMaxColumnCount kMaxKeySize : nat.
  Hypothesis Hroom : (64 + 2 * kMaxKeySize + 2 * (1 + 34 * kMaxColumnCount) <= 4096)%nat.
  Hypothesis Hmax : 4096 <= Z.of_nat kMaxSKTableSize <= 2 ^ 19.
  Variable k : Z.
  Hypothesis Hk : 0 <= k <= 12.
  Hypothesis Hkmax : (2 ^ k | Z.of_nat kMaxSKTableSize).
  Variable alloc : Z -> list Z.
  Hypothesis Halloc : forall n, 0 <= n <= 2 ^ 20 -> n <= Z.of_nat (length (alloc n)) /\ bytes_ok (alloc n).
  Hypothesis Hbuffer : BufferOk kMaxSKTableSize (2 ^ k) (alloc (Z.of_nat kMinSKTableSize)).
  Variables have_snappy HasBeenFlushed : bool.
  Local Abbreviation State := (State kMaxColumnCount kMaxKeySize HasBeenFlushed).
  Local Abbreviation Walked := (Walked kMaxSKTableSize kMaxColumnCount kMaxKeySize (2 ^ k) HasBeenFlushed).
  Local Abbreviation merge := (merge HasBeenFlushed).

Lemma align_divides : 0 < 2 ^ k /\ (2 ^ k | Z.of_nat kMinSKTableSize) /\ (2 ^ k | Z.of_nat kMaxSKTableSize).
Proof.
  split; [lia|]. split; [|done]. exists (2 ^ (12 - k)). rewrite <- Z.pow_add_r by lia. by replace (12 - k + k) with 12 by lia.
Qed.

(** Where a walk starts in the previous table. *)
Definition StartsAt (rows : list Row) (offs : list Z) (i : nat) (cur_offset : Z) : Prop :=
  match rows !! i with Some _ => cur_offset <> 0 /\ offs !! i = Some cur_offset | None => cur_offset = 0 \/ rows = [] end.

Lemma builder_spec steps n rows offs i ukeys cur_offset next_offset : Table n rows offs -> StartsAt rows offs i cur_offset ->
  Forall (SourceOk kMaxColumnCount kMaxKeySize HasBeenFlushed) (drop i rows) -> Forall (UserKeyOk kMaxColumnCount kMaxKeySize HasBeenFlushed) ukeys ->
  (length ukeys + length (drop i rows) < steps)%nat -> empty_first (merge ukeys (drop i rows)) -> exists w,
  DeviceFormatBuilder kMaxSKTableSize kMaxColumnCount HasBeenFlushed steps (alloc (Z.of_nat kMinSKTableSize)) n ukeys cur_offset next_offset = Some w /\
  Walked (length ukeys + length (drop i rows)) [] (merge ukeys (drop i rows)) w.
Proof.
  intros HT Hs Hr Hu Hf He. unfold DeviceFormatBuilder. destruct (Table_count Hle _ _ _ HT) as (-> & _ & _). cbn [mbind option_bind].
  assert (exists c, (if (Z.of_nat (length rows) =? 0) || (cur_offset =? 0)
    then Some {| cur_key_offset := 0; cur_next_offset := next_offset; key_from_skt_df := []; col_info_slice := [] |} else read_cursor n cur_offset) = Some c /\ CursorAt rows offs i c) as (c & -> & Hc).
  { unfold StartsAt in Hs. destruct (rows !! i) as [r|] eqn:Hi.
    - destruct Hs as [Hne Ho]. pose proof (lookup_lt_Some _ _ _ Hi). destruct (Z.eqb_spec (Z.of_nat (length rows)) 0); [lia|]. destruct (Z.eqb_spec cur_offset 0); [done|].
      cbn [orb]. by apply (read_cursor_spec Hle 0%nat _ _ Hroom).
    - eexists. split; [destruct Hs as [->| ->]; [by rewrite orb_true_r|done]|]. unfold CursorAt. by rewrite Hi. }
  cbn [mbind option_bind]. by apply (walk_spec Hle _ _ _ Hroom Hmax _ align_divides HasBeenFlushed steps) with (offs := offs); [split|apply NewDfb_built|..].
Qed.

(** A table and its two forms: what is kept in memory, and what is written. *)
Definition TableOf (t : list Z * option (list Z * list Z)) (rows : list Row) : Prop := exists mem dev m1 m2 n1 n2 compressed,
  t.2 = Some (mem, dev) /\ Form mem rows m1 m2 false false /\ Form dev rows n1 n2 compressed false /\ 0 < Z.of_nat (length dev) <= Z.of_nat kMaxSKTableSize.

Lemma finish_spec first_table sub_skt b rows : Built kMaxSKTableSize kMaxColumnCount kMaxKeySize (2 ^ k) b rows -> rows <> [] \/ first_table = true -> exists t,
  finish have_snappy (2 ^ k) alloc first_table sub_skt b = Some t /\ forall begin_key, TableOf (begin_key, t) rows.
Proof.
  intros Hb Hne. unfold finish. rewrite (bu_count _ _ _ _ _ _ Hb).
  assert (negb (Z.of_nat (length rows) =? 0) || first_table = true) as ->.
  { destruct Hne as [Hne| ->]; [|apply orb_true_r]. destruct rows; [done|]. destruct (Z.eqb_spec (Z.of_nat (length (p :: rows))) 0); [cbn in *; lia|done]. }
  destruct (finish_table_spec Hle _ _ _ Hmax Hroom k Hk alloc Halloc have_snappy b rows Hb) as (mem & dev & m1 & m2 & n1 & n2 & compressed & -> & Hf).
  cbn [mbind option_bind]. eexists. split; [done|]. intros bk. by exists mem, dev, m1, m2, n1, n2, compressed.
Qed.

(** The tables have all rows, in order, and each but the first begins with its key. *)
Lemma build_tables_spec steps : forall fuel first_table sub_skt begin_key n rows offs i ukeys cur_offset next_offset,
  Table n rows offs -> StartsAt rows offs i cur_offset ->
  Forall (SourceOk kMaxColumnCount kMaxKeySize HasBeenFlushed) (drop i rows) -> Forall (UserKeyOk kMaxColumnCount kMaxKeySize HasBeenFlushed) ukeys ->
  (length ukeys + length (drop i rows) < steps)%nat -> empty_first (merge ukeys (drop i rows)) ->
  (length (merge ukeys (drop i rows)) < fuel)%nat -> merge ukeys (drop i rows) <> [] \/ first_table = true -> exists t ts g gs,
  build_tables have_snappy (2 ^ k) alloc kMaxSKTableSize kMaxColumnCount HasBeenFlushed first_table fuel steps sub_skt begin_key n ukeys cur_offset next_offset = Some ((begin_key, t) :: ts) /\
  concat (g :: gs) = merge ukeys (drop i rows) /\ TableOf (begin_key, t) g /\ (merge ukeys (drop i rows) <> [] -> g <> []) /\ Forall2 (fun t g => TableOf t g /\ fst <$> head g = Some t.1 /\ t.1 <> []) ts gs.
Proof.
  induction fuel as [|fuel IH]; intros first_table sub_skt begin_key n rows offs i ukeys cur_offset next_offset HT Hs Hr Hu Hf He Hfuel Hne; [lia|].
  cbn [build_tables]. destruct (builder_spec steps n rows offs i ukeys cur_offset next_offset HT Hs Hr Hu Hf He) as (w & -> & done & Hb & Hcase). cbn [mbind option_bind app] in *.
  destruct Hcase as [[Ek ->]|(rows' & offs' & i' & c & cols & more & Hd & Hbk & [HT' Hc' Hr' Hu'] & Ecur & Em & Eall & Hm)].
  - destruct (finish_spec first_table sub_skt _ _ Hb Hne) as (t & -> & Ht). cbn [mbind option_bind]. rewrite Ek. cbn [length Nat.eqb].
    exists t, [], (merge ukeys (drop i rows)), []. split_and!; try done. cbn [concat]. apply app_nil_r.
  - destruct (finish_spec first_table sub_skt _ _ Hb (or_introl Hd)) as (t & -> & Ht). cbn [mbind option_bind].
    destruct (Nat.eqb_spec (length (wk_begin_key w)) 0) as [E0|_]; [exfalso; by apply Hbk, nil_length_inv|]. rewrite Eall, length_app in Hfuel. rewrite Eall in He.
    assert (StartsAt rows' offs' i' (cur_key_offset (wk_cursor w))) as Hs'.
    { unfold CursorAt in Hc'. rewrite Ecur in Hc'. unfold StartsAt. destruct (rows' !! i') as [[key' cols']|]; [tauto|by left]. }
    destruct (IH false true (wk_begin_key w) (wk_node w) rows' offs' i' (wk_ukeys w) (cur_key_offset (wk_cursor w)) (cur_next_offset (wk_cursor w))) as (t' & ts & g & gs & -> & Eg & Ht' & Hg & Hts); try done.
    + lia.
    + rewrite Em. unfold empty_first in *. cbn [tail]. destruct done; [done|]. cbn [tail app] in He. rewrite Forall_app, Forall_cons in He. tauto.
    + rewrite Em. destruct done; [done|]. cbn [length] in *. lia.
    + left. by rewrite Em.
    + cbn [mbind option_bind]. exists t, ((wk_begin_key w, t') :: ts), done, (g :: gs). split_and!; try done; [change (done ++ concat (g :: gs) = merge ukeys (drop i rows)); by rewrite Eg, Em, Eall|].
      constructor; [|done]. split; [done|]. rewrite Em in Eg, Hg. destruct g as [|r g]; [by destruct Hg|]. split; [|done]. by injection Eg as -> _.
Qed.

End Tables.

(** ** The numbers of the tables *)

(** Tables in a list by their numbers, from one to another. *)
Fixpoint linked (id : Z) (ids : list Ids) (end_id : Z) : Prop :=
  match ids with
  | [] => id = end_id
  | x :: ids => skt_id_ x = id /\ linked (next_id_ x) ids end_id
  end.

Definition numbers_ok (x : Ids) : Prop := 0 <= next_id_ x < 2 ^ 32 /\ 0 <= prealloc_id_ x < 2 ^ 32.

Lemma sub_ids_spec more : forall id end_id gen l gen', sub_ids more id end_id gen = (l, gen') -> 0 <= id <= gen -> gen + 2 * (Z.of_nat more + 1) < 2 ^ 32 -> 0 <= end_id < 2 ^ 32 ->
  length l = S more /\ linked id l end_id /\ Forall numbers_ok l /\ Forall (fun x => skt_id_ x = id \/ gen < skt_id_ x) l /\ NoDup (map skt_id_ l).
Proof.
  induction more as [|more IH]; intros id end_id gen l gen' E Hid Hgen Hend; cbn [sub_ids] in E.
  - injection E as <- <-. split_and!; try done; [apply Forall_singleton; split; [done|apply Z.mod_pos_bound; lia]|apply Forall_singleton; by left|apply NoDup_singleton].
  - unfold GenerateNextSKTableID in E. assert (u32 (gen + 1) = gen + 1) as E1 by (apply wrap_small; lia). rewrite E1 in E.
    assert (u32 (gen + 1 + 1) = gen + 2) as E2 by (rewrite <- Z.add_assoc; apply wrap_small; lia). rewrite E2 in E.
    destruct (sub_ids more (gen + 1) end_id (gen + 2)) as [l' g] eqn:El. injection E as <- <-.
    destruct (IH _ _ _ _ _ El ltac:(lia) ltac:(lia) Hend) as (Hl & Hlink & Hnext & Hfresh & Hnd). split_and!.
    + cbn. by rewrite Hl.
    + done.
    + constructor; [unfold numbers_ok; cbn; lia|done].
    + constructor; [by left|]. eapply Forall_impl; [exact Hfresh|]. cbn. intros x Hx. right. lia.
    + cbn [map skt_id_]. constructor; [|done]. intros (x & Ex & Hx)%list_elem_of_fmap. rewrite Forall_forall in Hfresh. specialize (Hfresh x Hx). cbn in Ex. lia.
Qed.

(** The numbers given to a table and to [subs] more: they lead from the number of the
    first to that of the table after it. *)
Definition last_id (subs : nat) (main : Ids) (deleted : list (Z * Z)) : Z :=
  match subs with O => default (next_id_ main) (snd <$> last deleted) | S _ => next_id_ main end.

Record IdsOk (subs : nat) (main : Ids) (deleted : list (Z * Z)) (gen : Z) : Prop := {
  io_main : 0 <= skt_id_ main <= gen;
  io_prealloc : 0 <= prealloc_id_ main <= gen /\ prealloc_id_ main <> skt_id_ main;
  io_next : 0 <= next_id_ main < 2 ^ 32 /\ Forall (fun t => 0 <= t.1 < 2 ^ 32 /\ 0 <= t.2 < 2 ^ 32) deleted;
  io_gen : gen + 2 * Z.of_nat subs + 1 < 2 ^ 32;
}.

Lemma assign_ids_spec subs main deleted gen ids gen' : assign_ids subs main deleted gen = (ids, gen') -> IdsOk subs main deleted gen -> exists x rest, ids = x :: rest /\ skt_id_ x = skt_id_ main /\
  length rest = subs /\ (rest = [] \/ linked (prealloc_id_ main) rest (next_id_ main)) /\ linked (skt_id_ main) ids (last_id subs main deleted) /\ Forall numbers_ok ids /\ Forall (fun x => skt_id_ x = prealloc_id_ main \/ gen < skt_id_ x) rest /\ NoDup (map skt_id_ ids).
Proof.
  intros E [Hm [Hp Hpm] [Hn Hd] Hg]. unfold assign_ids, merge_deleted in E. destruct subs as [|more].
  - injection E as <- <-. eexists _, []. split_and!; try done; [by left|..].
    + apply Forall_singleton. split; cbn.
      * destruct (last deleted) as [t|] eqn:El; cbn; [|lia]. rewrite last_lookup in El. rewrite Forall_lookup in Hd. specialize (Hd _ _ El). lia.
      * destruct deleted as [|t deleted]; cbn; [lia|]. by apply Forall_cons in Hd as [[? _] _].
    + apply NoDup_singleton.
  - unfold GenerateNextSKTableID in E. assert (u32 (gen + 1) = gen + 1) as E1 by (apply wrap_small; lia). rewrite E1 in E.
    destruct (sub_ids more (prealloc_id_ main) (next_id_ main) (gen + 1)) as [l g] eqn:El. injection E as <- <-.
    destruct (sub_ids_spec _ _ _ _ _ _ El ltac:(lia) ltac:(lia) Hn) as (Hl & Hlink & Hnext & Hfresh & Hnd). eexists _, l. split_and!; try done; [by right|..].
    + constructor; [unfold numbers_ok; cbn; lia|done].
    + eapply Forall_impl; [exact Hfresh|]. cbn. intros x Hx. lia.
    + cbn [map skt_id_]. constructor; [|done]. intros (x & Ex & Hx)%list_elem_of_fmap. rewrite Forall_forall in Hfresh. specialize (Hfresh x Hx). cbn in Ex. lia.
Qed.

(** ** Writing and loading *)

Lemma write_queue_perm {A} (l : list A) : write_queue l ≡ₚ l.
Proof. destruct l as [|x l]; [done|]. unfold write_queue. cbn [tail]. by rewrite Permutation_app_comm. Qed.

Lemma take_write_queue {A} (l : list A) i : (i < length (write_queue l))%nat -> take i (write_queue l) = take i (tail l).
Proof. intros Hi. destruct l as [|x l]; [done|]. unfold write_queue in *. cbn [tail] in *. rewrite length_app in Hi. cbn in Hi. apply take_app_le. lia. Qed.

Lemma Forall2_concat_inv {A B} (P : A -> B -> Prop) gs : forall l, Forall2 P (concat gs) l -> exists ls, l = concat ls /\ Forall2 (Forall2 P) gs ls.
Proof.
  induction gs as [|g gs IH]; intros l Hl; cbn [concat] in Hl.
  - apply Forall2_nil_inv_l in Hl as ->. by exists [].
  - apply Forall2_app_inv_l in Hl as (l1 & l2 & H1 & H2 & ->). destruct (IH _ H2) as (ls & -> & Hls). exists (l1 :: ls). split; [done|]. by constructor.
Qed.

Lemma ascending_concat kvss : ascending (concat kvss) -> Forall ascending kvss.
Proof.
  induction kvss as [|kvs kvss IH]; intros Hs; [constructor|]. cbn [concat] in Hs. unfold ascending in *. rewrite StronglySorted_app in Hs. destruct Hs as (_ & H1 & H2). constructor; [done|by apply IH].
Qed.

Section Device.
  Context `{Processor} `{SnappyLaws} `{ReliableEnv D} `{!KeyedEnv D}.
  Hypothesis Hle : kLittleEndian = true.
  Variable alloc : Z -> list Z.
  Hypothesis Halloc : forall n, 0 <= n <= 2 ^ 20 -> n <= Z.of_nat (length (alloc n)).
  Variable address : Z -> Z.
  Variable kMaxSKTableSize : nat.
  Hypothesis Hmax : Z.of_nat kMaxSKTableSize <= 2 ^ 20.

Lemma get_put_all_other queue : forall d id size, id ∉ map fst queue -> EnvGet (put_all d queue) id size = EnvGet d id size.
Proof.
  induction queue as [|[id' s] queue IH]; intros d id size Hid; [done|]. cbn [map fst] in Hid. apply not_elem_of_cons in Hid as [Hne Hid].
  unfold put_all. cbn [foldl fst snd]. fold (put_all (EnvPut d id' s) queue). rewrite IH by done. by apply get_put_other.
Qed.

Lemma get_put_all queue : forall d id s size, NoDup (map fst queue) -> (id, s) ∈ queue -> EnvGet (put_all d queue) id size = Some (take (Z.to_nat size) s).
Proof.
  induction queue as [|[id' s'] queue IH]; intros d id s size Hnd Hin; [by apply not_elem_of_nil in Hin|]. cbn [map fst] in Hnd. apply NoDup_cons in Hnd as [Hout Hnd].
  unfold put_all. cbn [foldl fst snd]. fold (put_all (EnvPut d id' s') queue). apply elem_of_cons in Hin as [[= -> ->]|Hin]; [|by apply IH]. rewrite get_put_all_other by done. apply get_put.
Qed.

(** A table that was sealed, when it is loaded. *)
Record Sealed (x : Ids) (t : Z * list Z) (rows : list Row) : Prop := {
  se_id : t.1 = skt_id_ x;
  se_form : exists compressed, Form t.2 rows (le_bytes 4 (next_id_ x)) (le_bytes 4 (prealloc_id_ x)) compressed true;
  se_size : 0 < Z.of_nat (length t.2) <= Z.of_nat kMaxSKTableSize;
}.

Lemma load_sealed d x t rows : Sealed x t rows -> numbers_ok x -> EnvGet d (skt_id_ x) (Z.of_nat (length t.2)) = Some t.2 -> exists n offs,
  LoadSKTableDeviceFormat d alloc (address (skt_id_ x)) (skt_id_ x) (Z.of_nat (length t.2)) = Some n /\ Table n rows offs /\ next_skt_id_ n = next_id_ x /\ preallocated_skt_id_ n = prealloc_id_ x.
Proof.
  intros [_ [compressed Hf] Hs] Hn Hget. unfold LoadSKTableDeviceFormat. pose proof (Halloc (Z.of_nat (length t.2)) ltac:(lia)) as Ha.
  destruct (Z.ltb_spec (Z.of_nat (length (alloc (Z.of_nat (length t.2))))) (Z.of_nat (length t.2))); [lia|]. rewrite Hget. cbn [mbind option_bind].
  destruct (Nat.eqb_spec (length t.2) 0) as [|_]; [lia|]. destruct (buffer_split (alloc (Z.of_nat (length t.2))) 0 (length t.2)) as (a & old & junk & E & El & Eo & _); [lia|].
  destruct a; [|done]. rewrite E, (put_at_eq _ _ [] old junk t.2) by done. cbn [mbind option_bind app].
  destruct (new_node_spec Hle alloc (address (skt_id_ x)) t.2 junk rows (next_id_ x) (prealloc_id_ x) compressed true false Halloc Hf) as (n & offs & -> & HT & Hids); [done|].
  cbn [mbind option_bind]. rewrite Z.eqb_refl. cbn [negb]. exists n, offs. destruct (Hids eq_refl) as [-> ->], Hn as [? ?]. split_and!; try done; by apply wrap_small.
Qed.

Lemma seal_all ids : forall devs groups, length ids = length devs ->
  Forall2 (fun dev rows => exists n1 n2 compressed, Form dev rows n1 n2 compressed false /\ 0 < Z.of_nat (length dev) <= Z.of_nat kMaxSKTableSize) devs groups -> exists sealed,
  mapM (seal_ids address) (zip ids devs) = Some sealed /\ Forall3 Sealed ids sealed groups.
Proof.
  induction ids as [|x ids IH]; intros devs groups Hl Hf.
  - destruct devs; [|done]. apply Forall2_nil_inv_l in Hf as ->. exists []. split; [done|constructor].
  - destruct devs as [|dev devs]; [done|]. apply Forall2_cons_inv_l in Hf as (rows & groups' & (n1 & n2 & compressed & Hform & Hs) & Hf & ->).
    destruct (seal_table_spec Hle (address (skt_id_ x)) _ _ _ _ _ _ (next_id_ x) (prealloc_id_ x) Hform) as (s & E & Hform' & Hlen).
    destruct (IH devs groups' ltac:(cbn in Hl; lia) Hf) as (sealed & Es & Hsealed). exists ((skt_id_ x, s) :: sealed).
    assert (seal_ids address (x, dev) = Some (skt_id_ x, s)) as E' by (unfold seal_ids; cbn [fst snd]; by rewrite E).
    change (mapM _ _) with (y ← seal_ids address (x, dev); l ← mapM (seal_ids address) (zip ids devs); Some (y :: l)). rewrite E', Es. split; [done|]. constructor; [|done].
    split; cbn; [done|by exists compressed|lia].
Qed.
End Device.

(** ** A flush *)

(** The sizes that the builder relies on: the header, two keys and two rows fit in the
    smallest table, and buffers are what they are asked to be. *)
Record Limits (kMaxSKTableSize kMaxColumnCount kMaxKeySize : nat) (k : Z) (alloc : Z -> list Z) : Prop := {
  li_room : (64 + 2 * kMaxKeySize + 2 * (1 + 34 * kMaxColumnCount) <= 4096)%nat;
  li_max : 4096 <= Z.of_nat kMaxSKTableSize <= 2 ^ 19;
  li_k : 0 <= k <= 12;
  li_kmax : (2 ^ k | Z.of_nat kMaxSKTableSize);
  li_alloc : forall n, 0 <= n <= 2 ^ 20 -> n <= Z.of_nat (length (alloc n)) /\ bytes_ok (alloc n);
  li_buffer : BufferOk kMaxSKTableSize (2 ^ k) (alloc (Z.of_nat kMinSKTableSize));
}.

Section Flush.
  Context `{Processor} `{RawMalloc} `{SnappyLaws} `{ReliableEnv D} `{!KeyedEnv D}.
  Hypothesis Hle : kLittleEndian = true.
  Context (kMaxSKTableSize kMaxColumnCount kMaxKeySize : nat) (k : Z) (alloc : Z -> list Z).
  Hypothesis Hlim : Limits kMaxSKTableSize kMaxColumnCount kMaxKeySize k alloc.
  Variables (have_snappy : bool) (address : Z -> Z) (HasBeenFlushed : bool).
  Local Abbreviation Holds := (Holds kMaxColumnCount kMaxKeySize).
  Local Abbreviation RowHolds := (RowHolds kMaxColumnCount kMaxKeySize).
  Local Abbreviation KeyOk := (KeyOk kMaxColumnCount kMaxKeySize HasBeenFlushed).
  Local Abbreviation TableOf := (TableOf kMaxSKTableSize).
  Local Abbreviation Sealed := (Sealed kMaxSKTableSize).

(** Tables on the device that are found one after the other, and what they stand for. *)
Inductive Chain (d : D) (end_id : Z) : Z -> list (list KeyColumns) -> Prop :=
| Chain_end : Chain d end_id end_id []
| Chain_next id size n kvs kvss : LoadSKTableDeviceFormat d alloc (address id) id size = Some n -> Holds n kvs ->
    Chain d end_id (next_skt_id_ n) kvss -> Chain d end_id id (kvs :: kvss).

Lemma merge_length flushed ukeys : forall rows, (length (merge flushed ukeys rows) <= length ukeys + length rows)%nat.
Proof.
  induction ukeys as [|u ukeys IH]; intros rows; [done|].
  assert (forall cols, length (fresh_row flushed u cols) <= 1)%nat as Hf by (intros cols; unfold fresh_row; destruct (valid_columns _ _ _); cbn; lia).
  induction rows as [|[key cols] rows IHr]; cbn [merge].
  - rewrite length_app. pose proof (Hf None). specialize (IH []). cbn [length] in *. lia.
  - destruct (lex (uk_key u) key).
    + rewrite length_app. specialize (IH rows). pose proof (Hf (Some cols)). destruct (uk_dirty u); cbn [length]; lia.
    + rewrite length_app. specialize (IH ((key, cols) :: rows)). pose proof (Hf None). cbn [length] in *. lia.
    + cbn [length]. cbn [merge length] in IHr. lia.
Qed.

Lemma ascending_empty_first rows kvs : Forall2 RowHolds rows kvs -> ascending kvs -> empty_first rows.
Proof.
  intros Hf Hs. unfold empty_first. destruct Hf as [|r kv rows kvs Hr Hf]; [constructor|]. cbn [tail]. apply StronglySorted_inv in Hs as [_ Hall].
  apply Forall_lookup. intros i r' Hi. destruct (Forall2_lookup_l _ _ _ _ _ Hf Hi) as (kv' & Hkv & Hr'). rewrite Forall_lookup in Hall. specialize (Hall _ _ Hkv).
  rewrite (rh_key _ _ _ _ Hr'). intros E. rewrite E in Hall. by destruct (kv.1).
Qed.

Lemma IdsOk_le subs subs' main deleted gen : (subs' <= subs)%nat -> IdsOk subs main deleted gen -> IdsOk subs' main deleted gen.
Proof. intros Hs []. split; try done. lia. Qed.

Lemma size_ok : Z.of_nat kMaxSKTableSize <= 2 ^ 20.
Proof. pose proof (li_max _ _ _ _ _ Hlim). lia. Qed.

Lemma chain_sealed d end_id ids sealed groups : Forall3 Sealed ids sealed groups -> forall id kvss, linked id ids end_id -> Forall numbers_ok ids ->
  Forall2 (RowsHold kMaxColumnCount kMaxKeySize) groups kvss -> (forall t size, t ∈ sealed -> EnvGet d t.1 size = Some (take (Z.to_nat size) t.2)) -> Chain d end_id id kvss.
Proof.
  induction 1 as [|x t rows ids sealed groups Hse Hrest IH]; intros id kvss Hlink Hok Hkvs Hget.
  - apply Forall2_nil_inv_l in Hkvs as ->. cbn in Hlink. subst. constructor.
  - apply Forall2_cons_inv_l in Hkvs as (kvs & kvss' & Hrow & Hkvs & ->). destruct Hlink as [<- Hlink]. apply Forall_cons in Hok as [Hx Hok].
    destruct (load_sealed Hle alloc (fun n Hn => proj1 (li_alloc _ _ _ _ _ Hlim n Hn)) address kMaxSKTableSize size_ok d x t rows Hse Hx) as (n & offs & E & HT & En & _).
    { rewrite <- (se_id _ _ _ _ Hse), Hget by (by left). by rewrite Nat2Z.id, take_ge. }
    econstructor; [exact E|by exists rows, offs|]. rewrite En. apply IH; try done. intros t' size Ht'. apply Hget. by right.
Qed.

Lemma listed_tables ts groups : Forall2 TableOf ts groups -> let skt_list := omap (fun t => '(_, slice) ← t.2; Some (t.1, slice)) ts in
  map fst skt_list = map fst ts /\
  Forall2 (fun dev rows => exists n1 n2 compressed, Form dev rows n1 n2 compressed false /\ 0 < Z.of_nat (length dev) <= Z.of_nat kMaxSKTableSize) (map snd skt_list) groups.
Proof.
  induction 1 as [|[bk t] rows ts groups Ht Hts [IH1 IH2]]; [by split; [|constructor]|]. destruct Ht as (mem & dev & m1 & m2 & n1 & n2 & compressed & E & _ & Hf & Hs). cbn [snd] in E. subst t.
  cbn [omap list_omap]. cbn [snd mbind option_bind]. cbn [map fst snd]. rewrite IH1. split; [done|]. constructor; [by exists n1, n2, compressed|done].
Qed.

(** Everything that a flush does with the tables. *)
Record FlushSpec (fl : Flushed) (main : Ids) (deleted : list (Z * Z)) (gen : Z) (kvss : list (list KeyColumns)) (sealed : list (Z * list Z)) : Prop := {
  fs_queue : fl_queue fl = write_queue sealed;
  fs_nodup : NoDup (map fst sealed);
  fs_main : fst <$> head sealed = Some (skt_id_ main);
  fs_fresh : Forall (fun t => t.1 = prealloc_id_ main \/ gen < t.1) (tail sealed);
  fs_tables : exists groups, Forall3 Sealed (map snd (fl_tables fl)) sealed groups /\ Forall2 (RowsHold kMaxColumnCount kMaxKeySize) groups kvss;
  fs_subs : tail (map snd (fl_tables fl)) = [] \/ linked (prealloc_id_ main) (tail (map snd (fl_tables fl))) (next_id_ main);
  fs_linked : linked (skt_id_ main) (map snd (fl_tables fl)) (last_id (length kvss - 1) main deleted) /\ Forall numbers_ok (map snd (fl_tables fl));
  fs_begin : Forall2 (fun t kvs => fst <$> head kvs = Some t.1 /\ t.1 <> []) (tail (fl_tables fl)) (tail kvss);
  fs_first : concat kvss <> [] -> head kvss <> Some [];
}.

Lemma Forall3_ids ids sealed groups : Forall3 Sealed ids sealed groups -> map fst sealed = map skt_id_ ids.
Proof. induction 1 as [|x t rows ids sealed groups Hse _ IH]; [done|]. cbn [map]. by rewrite IH, (se_id _ _ _ _ Hse). Qed.

Lemma subs_few ts gs : Forall2 (fun t g => TableOf t g /\ fst <$> head g = Some t.1 /\ t.1 <> []) ts gs -> (length ts <= length (concat gs))%nat.
Proof. induction 1 as [|t g ts gs [_ [Eg _]] _ IH]; [done|]. cbn [concat length]. rewrite length_app. destruct g; [done|]. cbn [length]. lia. Qed.

Lemma starts_first n rows offs : Table n rows offs -> StartsAt rows offs 0 (Z.of_nat SKTDF_BEGIN_KEY_OFFSET).
Proof.
  intros (hdr & bytes & base & tl & HL & _). pose proof (ly_rows _ _ _ _ _ _ _ HL) as Hr. unfold StartsAt. inversion Hr; subst; [by right|]. by split.
Qed.

Lemma begin_keys ts gs : Forall2 (fun t g => TableOf t g /\ fst <$> head g = Some t.1 /\ t.1 <> []) ts gs -> forall (rest : list Ids) kvss, length rest = length ts ->
  Forall2 (RowsHold kMaxColumnCount kMaxKeySize) gs kvss -> Forall2 (fun t kvs => fst <$> head kvs = Some t.1 /\ t.1 <> []) (zip (map fst ts) rest) kvss.
Proof.
  induction 1 as [|t g ts gs [_ [Eg Et]] _ IH]; intros rest kvss Hl Hk; [apply Forall2_nil_inv_l in Hk as ->; constructor|]. destruct rest as [|x rest]; [done|].
  apply Forall2_cons_inv_l in Hk as (kvs & kvss' & [Hrow _] & Hk & ->). cbn [map zip zip_with]. constructor; [|by apply IH; [cbn in Hl; lia|]].
  split; [|done]. destruct Hrow as [|r kv g kvs Hr Hrow]; [done|]. cbn in *. by rewrite <- (rh_key _ _ _ _ Hr).
Qed.

(** The part of a flush after the tables were built. *)
Lemma number_tables main deleted gen t ts g gs kvss fresh : TableOf t g -> Forall2 (fun t g => TableOf t g /\ fst <$> head g = Some t.1 /\ t.1 <> []) ts gs ->
  Forall2 (RowsHold kMaxColumnCount kMaxKeySize) (g :: gs) kvss -> (concat (g :: gs) <> [] -> g <> []) -> (length ts <= fresh)%nat -> IdsOk fresh main deleted gen ->
  let skt_list := omap (fun t => '(_, slice) ← t.2; Some (t.1, slice)) (t :: ts) in exists fl sealed,
  (let '(ids, gen) := assign_ids (length skt_list - 1) main deleted gen in
   sealed ← mapM (seal_ids address) (zip ids (map snd skt_list)); Some {| fl_tables := zip (map fst skt_list) ids; fl_queue := write_queue sealed; fl_gen := gen |}) = Some fl /\
  FlushSpec fl main deleted gen kvss sealed.
Proof.
  intros Ht Hts Hk Hg0 Hl Hids skt_list. destruct (listed_tables (t :: ts) (g :: gs)) as [Ef Hf]; [constructor; [done|]; eapply Forall2_impl; [exact Hts|]; by intros ?? []|]. fold skt_list in Ef, Hf.
  assert (length skt_list = S (length ts)) as El by (rewrite <- (length_map fst), Ef; cbn [map length]; by rewrite length_map). rewrite El. cbn [Nat.sub]. rewrite Nat.sub_0_r.
  destruct (assign_ids (length ts) main deleted gen) as [ids gen'] eqn:Ei.
  destruct (assign_ids_spec _ _ _ _ _ _ Ei (IdsOk_le _ _ _ _ _ Hl Hids)) as (x & rest & Eids & Ex & Er & Hsubs & Hlink & Hnext & Hfresh & Hnd).
  destruct (seal_all Hle address kMaxSKTableSize ids (map snd skt_list) (g :: gs)) as (sealed & Es & Hsealed); [by rewrite length_map, El, Eids, <- Er|done|]. rewrite Es. cbn [mbind option_bind].
  eexists _, sealed. split; [done|]. pose proof (Forall3_ids _ _ _ Hsealed) as Esid. pose proof (Forall2_length _ _ _ Hk) as Ek. pose proof (Forall2_length _ _ _ Hts) as Et. cbn [length] in Ek.
  assert (map snd (zip (map fst skt_list) ids) = ids) as Ezip by (apply snd_zip; rewrite Eids, length_map, El; cbn [length]; lia).
  split; cbn [fl_queue fl_tables]; rewrite ?Ezip; try done.
  - by rewrite Esid.
  - subst ids. cbn [map] in Esid. destruct sealed as [|s sealed]; [done|]. injection Esid as E1 E2. cbn. by rewrite E1, Ex.
  - subst ids. destruct sealed as [|s sealed]; [constructor|]. injection Esid as E1 E2. cbn [tail].
    assert (Forall (fun i => i = prealloc_id_ main \/ gen < i) (map fst sealed)) as Hm by (rewrite E2; by apply Forall_map). by apply Forall_map in Hm.
  - by exists (g :: gs).
  - subst ids. done.
  - split; [|done]. replace (length kvss - 1)%nat with (length ts); [done|lia].
  - subst ids. rewrite Ef. cbn [map zip zip_with tail]. apply Forall2_cons_inv_l in Hk as (kvs & kvss' & _ & Hk & ->). by eapply begin_keys.
  - intros Hc. apply Forall2_cons_inv_l in Hk as (kvs & kvss' & [Hrow _] & Hk & ->). intros [= ->]. apply Forall2_nil_inv_r in Hrow as ->. cbn [concat app] in Hc, Hg0.
    apply Hg0; [|done]. intros Egs. apply Hc. clear -Hk Egs. induction Hk as [|g' kvs gs kvss [Hrow _] _ IH]; [done|]. cbn [concat] in *. apply app_nil in Egs as [-> Egs].
    apply Forall2_nil_inv_l in Hrow as ->. by apply IH.
Qed.

Lemma flush_spec first_table fuel steps begin_key n kvs ukeys main deleted gen : Holds n kvs -> Forall KeyOk ukeys -> ascending_keys ukeys ->
  merge_columns ukeys kvs <> [] \/ first_table = true -> IdsOk (length ukeys + length kvs) main deleted gen -> (length ukeys + length kvs < fuel)%nat -> (length ukeys + length kvs < steps)%nat ->
  exists fl kvss sealed, FlushTables have_snappy (2 ^ k) alloc address kMaxSKTableSize kMaxColumnCount HasBeenFlushed first_table fuel steps begin_key n ukeys main deleted gen = Some fl /\
  concat kvss = merge_columns ukeys kvs /\ FlushSpec fl main deleted gen kvss sealed.
Proof.
  intros (rows & offs & HT & Hrows & Hs) Hu Hus Hne Hids Hfuel Hsteps. pose proof (Forall2_length _ _ _ Hrows) as Elen. rewrite <- Elen in *.
  pose proof (merge_holds _ _ (li_room _ _ _ _ _ Hlim) HasBeenFlushed ukeys rows kvs Hu Hrows) as Hm. pose proof (merge_ascending ukeys kvs Hus Hs) as Ha.
  destruct (build_tables_spec Hle _ _ _ (li_room _ _ _ _ _ Hlim) (li_max _ _ _ _ _ Hlim) k (li_k _ _ _ _ _ Hlim) (li_kmax _ _ _ _ _ Hlim) alloc (li_alloc _ _ _ _ _ Hlim) (li_buffer _ _ _ _ _ Hlim)
    have_snappy HasBeenFlushed steps fuel first_table false begin_key n rows offs 0 ukeys (Z.of_nat SKTDF_BEGIN_KEY_OFFSET) 0 HT) as (t & ts & g & gs & Eb & Ec & Ht & Hg & Hts).
  all: rewrite ?drop_0 in *.
  - by eapply starts_first.
  - apply Forall_lookup. intros i r Hi. destruct (Forall2_lookup_l _ _ _ _ _ Hrows Hi) as (kv & _ & Hr). by eapply RowHolds_source.
  - eapply Forall_impl; [exact Hu|]. intros u Huk. apply KeyOk_source; [apply (li_room _ _ _ _ _ Hlim)|done].
  - done.
  - by eapply ascending_empty_first.
  - pose proof (merge_length HasBeenFlushed ukeys rows). lia.
  - destruct Hne as [Hne|]; [left|by right]. intros E. rewrite E in Hm. by apply Forall2_nil_inv_l in Hm.
  - rewrite <- Ec in Hm. destruct (Forall2_concat_inv _ _ _ Hm) as (kvss & Ek & Hk). pose proof (ascending_concat kvss) as Hsc. rewrite <- Ek in Hsc. specialize (Hsc Ha).
    assert (Forall2 (RowsHold kMaxColumnCount kMaxKeySize) (g :: gs) kvss) as Hrk.
    { apply Forall2_same_length_lookup. split; [by eapply Forall2_length|]. intros i x y Hx Hy. rewrite Forall_lookup in Hsc. split; [by eapply Forall2_lookup_lr|by eapply Hsc]. }
    assert (length ts <= length ukeys + length rows)%nat as Hlt.
    { pose proof (merge_length HasBeenFlushed ukeys rows). pose proof (subs_few _ _ Hts). rewrite <- Ec in *. cbn [concat] in *. rewrite length_app in *. lia. }
    destruct (number_tables main deleted gen (begin_key, t) ts g gs kvss (length ukeys + length rows) Ht Hts Hrk ltac:(by rewrite Ec) Hlt Hids) as (fl & sealed & Efl & Hfl).
    exists fl, kvss, sealed. split; [|done]. unfold FlushTables. rewrite Eb. exact Efl.
Qed.

Lemma flush_nonempty ukeys kvs first_table : ascending_keys ukeys -> ascending kvs -> (exists key, flushed_columns ukeys kvs key <> None) \/ first_table = true ->
  merge_columns ukeys kvs <> [] \/ first_table = true.
Proof. intros Hu Hk [(key & Hkey)|]; [left|by right]. intros E. apply Hkey. by rewrite <- merge_columns_of, E. Qed.

Lemma Holds_ascending n kvs : Holds n kvs -> ascending kvs.
Proof. by intros (? & ? & _ & _ & ?). Qed.

(** C6: [SKTableMem::FlushSKTableMem] writes the merge of the user keys in memory with the
    previous table.  Some key has columns to be recorded, or the table is the first one
    (another table that loses all its keys is written without checksums); the columns to
    be recorded have sequence numbers, and if the table was not flushed since the
    database was opened, when the columns of the previous table are fetched without
    theirs, none of these is recorded for a key that was changed (otherwise
    [time_becomes_sequence_number] applies).  Then, whatever the previous table, which
    stands for [kvs], the tables that are put on the device are found from the number of the main table, one after the
    other, up to the table that followed it, and they load.  All together they stand for
    keys in ascending order with exactly the columns that were asked for: those of a user
    key that is dirty or new, and those of the previous table for every other key.  Each
    table that was split off begins with the key that it is registered under, which is
    not the empty one. *)
Theorem flush_leaves_tables (d : D) first_table fuel steps begin_key n kvs ukeys main deleted gen : Holds n kvs -> Forall KeyOk ukeys -> ascending_keys ukeys ->
  (exists key, flushed_columns ukeys kvs key <> None) \/ first_table = true -> IdsOk (length ukeys + length kvs) main deleted gen ->
  (length ukeys + length kvs < fuel)%nat -> (length ukeys + length kvs < steps)%nat -> exists fl kvss,
  FlushTables have_snappy (2 ^ k) alloc address kMaxSKTableSize kMaxColumnCount HasBeenFlushed first_table fuel steps begin_key n ukeys main deleted gen = Some fl /\
  Chain (put_all d (fl_queue fl)) (last_id (length kvss - 1) main deleted) (skt_id_ main) kvss /\
  ascending (concat kvss) /\ (forall key, columns_of (concat kvss) key = flushed_columns ukeys kvs key) /\
  Forall2 (fun t kvs => fst <$> head kvs = Some t.1 /\ t.1 <> []) (tail (fl_tables fl)) (tail kvss).
Proof.
  intros Hn Hu Hus Hne Hids Hfuel Hsteps. pose proof (Holds_ascending _ _ Hn) as Hs.
  destruct (flush_spec first_table fuel steps begin_key n kvs ukeys main deleted gen Hn Hu Hus (flush_nonempty _ _ _ Hus Hs Hne) Hids Hfuel Hsteps) as (fl & kvss & sealed & E & Ec & Hfl).
  exists fl, kvss. rewrite Ec. destruct Hfl as [Eq Hnd _ _ (groups & H3g & Hk) _ [Hlink Hnext] Hbegin _]. split_and!; try done; [|by apply merge_ascending|intros key; by apply merge_columns_of].
  eapply chain_sealed; try done. intros t size Ht. rewrite Eq. apply get_put_all; [by rewrite write_queue_perm|]. rewrite write_queue_perm. by destruct t.
Qed.

(** C14: a flush that is interrupted leaves the tables that were there.  The main table is
    put on the device after all the tables that were split off, which have fresh numbers:
    until its put, whichever puts were done, every table but the one with the reserved
    number loads as before. *)
Theorem flush_is_atomic (d : D) first_table fuel steps begin_key n kvs ukeys main deleted gen fl : Holds n kvs -> Forall KeyOk ukeys -> ascending_keys ukeys ->
  (exists key, flushed_columns ukeys kvs key <> None) \/ first_table = true -> IdsOk (length ukeys + length kvs) main deleted gen ->
  (length ukeys + length kvs < fuel)%nat -> (length ukeys + length kvs < steps)%nat ->
  FlushTables have_snappy (2 ^ k) alloc address kMaxSKTableSize kMaxColumnCount HasBeenFlushed first_table fuel steps begin_key n ukeys main deleted gen = Some fl ->
  fst <$> last (fl_queue fl) = Some (skt_id_ main) /\
  forall done id size, (done < length (fl_queue fl))%nat -> id <= gen -> id <> prealloc_id_ main ->
    LoadSKTableDeviceFormat (put_all d (take done (fl_queue fl))) alloc (address id) id size = LoadSKTableDeviceFormat d alloc (address id) id size.
Proof.
  intros Hn Hu Hus Hne Hids Hfuel Hsteps E. pose proof (Holds_ascending _ _ Hn) as Hs.
  destruct (flush_spec first_table fuel steps begin_key n kvs ukeys main deleted gen Hn Hu Hus (flush_nonempty _ _ _ Hus Hs Hne) Hids Hfuel Hsteps) as (fl' & kvss & sealed & E' & _ & Hfl).
  assert (fl' = fl) as -> by congruence. destruct Hfl as [Eq _ Hmain Hfresh _ _ _ _ _]. rewrite Eq. split.
  - destruct sealed as [|t sealed]; [done|]. unfold write_queue. cbn [tail]. by rewrite last_snoc.
  - intros i id size Hi Hid Hpre. rewrite take_write_queue by done. unfold LoadSKTableDeviceFormat. rewrite get_put_all_other; [done|].
    intros ([id' s] & -> & Ht)%list_elem_of_fmap. apply elem_of_take in Ht as (j & Hj & _). rewrite Forall_lookup in Hfresh. specialize (Hfresh _ _ Hj). cbn [fst] in *. lia.
Qed.

(** Queries in sequence, each on the table that the one before left. *)
Fixpoint GetColumnInfos (n : SKTDFCacheNode) (next_begin_key : option (list Z)) (HasBeenFlushed : bool) (GetTtlFromTtlList : Z -> Z) (queries : list (list Z * Z * Z * Z)) :
    option (list (bool * option ColumnScratchPad)) :=
  match queries with
  | [] => Some []
  | (key, col_id, seq_num, cur_time) :: queries =>
      '(answer, n) ← GetColumnInfo n next_begin_key HasBeenFlushed GetTtlFromTtlList key col_id seq_num cur_time;
      l ← GetColumnInfos n next_begin_key HasBeenFlushed GetTtlFromTtlList queries; Some (answer :: l)
  end.

(** C22: a table that stands for [kvs] answers every sequence of queries as [kvs] does,
    although each answer changes the table, where it marks the column as referenced.  A
    query for a key from the begin key of the next table on is sent there; another one
    finds the column of the key, if the key and the column exist, the column is not
    younger than the sequence number that is read at, and it has not expired. *)
Theorem table_answers n kvs next_begin_key flushed ttl queries : Holds n kvs ->
  GetColumnInfos n next_begin_key flushed ttl queries = Some (map (fun '(key, col_id, seq_num, cur_time) =>
    if beyond next_begin_key key then (false, None) else (true, column_info kvs flushed ttl key col_id seq_num cur_time)) queries).
Proof.
  revert n. induction queries as [|[[[key col_id] seq_num] cur_time] queries IH]; intros n Hn; [done|]. cbn [GetColumnInfos map].
  destruct (GetColumnInfo_spec Hle _ _ (li_room _ _ _ _ _ Hlim) n kvs next_begin_key flushed ttl key col_id seq_num cur_time Hn) as (n' & -> & Hn'). cbn [mbind option_bind]. by rewrite IH.
Qed.
End Flush.

(** ** Rows that are written back before the first flush *)

(** C39: columns lose their sequence number when they are fetched from a table that was
    not flushed since the database was opened.  The row that is then written for such a
    column says that it has a sequence number but has none, and the readers of the row
    take the time of the column, if it has one, for the sequence number: the column has
    no time from then on and readers at a smaller sequence number do not see it. *)
Theorem time_becomes_sequence_number v ttl_of_column seq_num cur_time pos : ColumnOk v -> vc_ts v <> 0 -> exists fetched cols,
  InsertColumnNodes (encode_columns [v]) false = Some [fetched] /\ encode_columns [fetched] = 1 :: cols /\
  InsertColumnNodes (1 :: cols) true =
    Some [{| vc_id := vc_id v; vc_offset := vc_offset v; vc_seq := vc_ts v; vc_ts := 0; vc_ikey := vc_ikey v; vc_size := vc_size v |}] /\
  (seq_num < vc_ts v -> find_column 1 true ttl_of_column (vc_id v) seq_num cur_time NewVars pos cols = Some None).
Proof.
  intros Hv Hts. destruct (encode_columns_entries [v]) as (bytes & E & He); [by constructor|cbn; lia|].
  exists (fetched_node false v), (vc_id v :: flag_byte v :: EncodeVarint64 (vc_ikey v) ++ EncodeVarint32 (vc_size v) ++ EncodeVarint64 (vc_ts v) ++ []). pose proof (flag_byte_bits v Hv) as (E1 & E2 & E3 & E4).
  assert (Z.land (vc_id v) COLUMN_NODE_ID_MASK = vc_id v) as Eid.
  { destruct Hv. unfold COLUMN_NODE_ID_MASK. change 0x3F with (Z.ones 6). rewrite Z.land_ones, Z.mod_small by lia. done. }
  cbv zeta in E4. pose proof Hv as [Hid _ _ Ht Hk Hz]. destruct (Z.eqb_spec (vc_ts v) 0) as [|_]; [done|]. split_and!.
  - rewrite E. by apply (insert_columns_spec [v] bytes false He).
  - unfold encode_columns. cbn [length map concat]. unfold encode_column, fetched_node. cbn [vc_id vc_offset vc_seq vc_ts vc_ikey vc_size]. cbn [Z.ltb Z.compare Z.eqb].
    rewrite E4. destruct (Z.eqb_spec (vc_ts v) 0) as [|_]; [done|]. by rewrite !app_nil_r.
  - cbn [InsertColumnNodes]. change (Z.to_nat 1) with 1%nat. cbn [insert_columns]. rewrite get64_app, get32_app, E1, E2, E3, get64_app, Eid by lia. done.
  - intros Hseq. cbn [find_column]. rewrite get64_app, get32_app, Eid, Z.eqb_refl, E1, E2, get64_app by lia. change (get64 (va_ttl NewVars) []) with (0, @nil Z). cbv beta iota.
    destruct (Z.leb_spec (vc_ts v) seq_num); [lia|done].
Qed.

(** ** Examples *)

Lemma time_becomes_sequence_number_witness :
  let v := {| vc_id := 0; vc_offset := 3; vc_seq := 5; vc_ts := 1000; vc_ikey := 9; vc_size := 100 |} in
  find_column 1 true 0 0 7 2000 NewVars 1 (tail (encode_columns [v])) = Some (Some (scratch_pad v, 1%nat)) /\
  exists fetched cols, InsertColumnNodes (encode_columns [v]) false = Some [fetched] /\ encode_columns [fetched] = 1 :: cols /\ find_column 1 true 0 0 7 2000 NewVars 1 cols = Some None.
Proof.
  intros v. split; [reflexivity|].
  destruct (time_becomes_sequence_number v 0 7 2000 1) as (fetched & cols & H1 & H2 & _ & H4); [split; cbn; lia|cbn; lia|].
  exists fetched, cols. split; [exact H1|]. split; [exact H2|]. apply H4. cbn. lia.
Defined.

(** The sizes that InSDB has unless options set others. *)
Definition default_table_size : nat := Z.to_nat (512 * 1024).
Definition zero_buffer (n : Z) : list Z := replicate (Z.to_nat n) 0.

Lemma default_limits : Limits default_table_size 1 40 12 zero_buffer.
Proof.
  assert (Z.of_nat default_table_size = 512 * 1024) as E by (apply Z2Nat.id; lia).
  assert (forall n, bytes_ok (zero_buffer n)) as Hok by (intros n; apply Forall_replicate; unfold byte_ok; lia).
  split; rewrite ?E; try lia; [by exists 128|intros n Hn; split; [unfold zero_buffer; rewrite length_replicate; lia|done]|].
  unfold BufferOk, zero_buffer at 1 2 3. rewrite length_replicate, E. change (Z.of_nat (Z.to_nat (Z.of_nat kMinSKTableSize))) with 4096. split_and!; try lia; [by exists 1|apply Hok].
Qed.

(** A table without keys. *)
Definition empty_table : SKTDFCacheNode :=
  {| device_format_ := replicate 12 0 ++ [40] ++ replicate 31 0; base_pos_ := 42; base_size_ := 0; next_skt_id_ := 0; preallocated_skt_id_ := 0 |}.

Import Demo.
Lemma empty_table_holds : Holds 1 40 empty_table [].
Proof.
  exists [], []. split; [|split; constructor]. exists (replicate 12 0 ++ [40] ++ replicate 27 0), [], [], [0; 0]. split; [|done]. split; try done; try constructor.
Qed.

Definition demo_column : Column := {| vc_id := 0; vc_offset := 3; vc_seq := 5; vc_ts := 0; vc_ikey := 9; vc_size := 100 |}.
Definition demo_keys : list UserKey :=
  [ {| uk_key := [107; 49]; uk_dirty := true; uk_fetched := false; uk_columns := fun _ => [demo_column] |};
    {| uk_key := [107; 50]; uk_dirty := false; uk_fetched := false; uk_columns := fun old => old |} ].
Definition demo_main : Ids := {| skt_id_ := 1; next_id_ := 0; prealloc_id_ := 2 |}.

Lemma demo_keys_ok : Forall (KeyOk 1 40 true) demo_keys /\ ascending_keys demo_keys.
Proof.
  split; [|by repeat constructor]. assert (ColumnOk demo_column) by (split; cbn; lia).
  unfold demo_keys. rewrite !Forall_cons. split_and!; [..|done]; apply KeyOk_flushed; cbn; try done; try lia; try (repeat constructor; unfold byte_ok; lia).
  intros _ _. split; [by constructor|cbn; lia].
Qed.

Lemma demo_ids_ok : IdsOk (length demo_keys + length (@nil KeyColumns)) demo_main [] 2.
Proof. split; cbn; try lia. split; [lia|constructor]. Qed.

Lemma flush_leaves_tables_witness : exists fl kvss,
  FlushTables true (2 ^ 12) zero_buffer id default_table_size 1 true true 3 3 [] empty_table demo_keys demo_main [] 2 = Some fl /\
  Chain 1 40 zero_buffer id (put_all (@nil (Z * list Z)) (fl_queue fl)) (last_id (length kvss - 1) demo_main []) 1 kvss /\
  columns_of (concat kvss) [107; 49] = Some [demo_column] /\ columns_of (concat kvss) [107; 50] = None.
Proof.
  destruct (flush_leaves_tables (H := demo_processor) (D := list (Z * list Z)) eq_refl default_table_size 1 40 12 zero_buffer default_limits true id true [] true 3 3 [] empty_table [] demo_keys demo_main [] 2
    empty_table_holds (proj1 demo_keys_ok) (proj2 demo_keys_ok) (or_intror eq_refl) demo_ids_ok ltac:(cbn; lia) ltac:(cbn; lia)) as (fl & kvss & H1 & H2 & _ & H4 & _).
  exists fl, kvss. exact (conj H1 (conj H2 (conj (H4 [107; 49]) (H4 [107; 50])))).
Defined.

(** The flush of the example, whose one table is then loaded. *)
Lemma demo_flush : exists fl kvss sealed, FlushTables true (2 ^ 12) zero_buffer id default_table_size 1 true true 3 3 [] empty_table demo_keys demo_main [] 2 = Some fl /\
  concat kvss = [([107; 49], [demo_column])] /\ FlushSpec default_table_size 1 40 fl demo_main [] 2 kvss sealed.
Proof.
  exact (flush_spec (H := demo_processor) eq_refl default_table_size 1 40 12 zero_buffer default_limits true id true true 3 3 [] empty_table [] demo_keys demo_main [] 2
    empty_table_holds (proj1 demo_keys_ok) (proj2 demo_keys_ok) (or_intror eq_refl) demo_ids_ok ltac:(cbn; lia) ltac:(cbn; lia)).
Qed.

Lemma concat_singleton {A} (x : A) ls : concat ls = [x] -> [x] ∈ ls.
Proof.
  induction ls as [|l ls IH]; [done|]. cbn [concat]. intros E. apply app_eq_unit in E as [[-> E]|[-> _]]; [right; by apply IH|left].
Qed.

Lemma Chain_elem `{Processor} `{Snappy} `{Env D} cols keys alloc address (d : D) end_id id kvss kvs : Chain cols keys alloc address d end_id id kvss -> kvs ∈ kvss -> exists n, Holds cols keys n kvs.
Proof.
  induction 1 as [|id size n kvs' kvss _ Hn _ IH]; intros Hin; [by apply not_elem_of_nil in Hin|]. apply elem_of_cons in Hin as [->|Hin]; [by exists n|by apply IH].
Qed.

Lemma demo_table : exists n, Holds 1 40 n [([107; 49], [demo_column])].
Proof.
  destruct demo_flush as (fl & kvss & sealed & _ & Ec & [Eq Hnd _ _ (groups & Hg & Hk) _ [Hlink Hnext] _]).
  eapply (Chain_elem (D := list (Z * list Z))); [|by apply concat_singleton]. eapply (chain_sealed (H := demo_processor) eq_refl _ _ _ _ _ default_limits id (put_all [] (write_queue sealed))); try done.
  intros t size Ht. apply get_put_all; [by rewrite write_queue_perm|]. rewrite write_queue_perm. by destruct t.
Qed.

Lemma flush_is_atomic_witness : exists fl, FlushTables true (2 ^ 12) zero_buffer id default_table_size 1 true true 3 3 [] empty_table demo_keys demo_main [] 2 = Some fl /\
  fst <$> last (fl_queue fl) = Some 1 /\ forall (d : list (Z * list Z)) done size, (done < length (fl_queue fl))%nat ->
    LoadSKTableDeviceFormat (put_all d (take done (fl_queue fl))) zero_buffer 1 1 size = LoadSKTableDeviceFormat d zero_buffer 1 1 size.
Proof.
  destruct demo_flush as (fl & kvss & sealed & E & _). exists fl. split; [exact E|].
  assert (forall d : list (Z * list Z), _) as Hd by (intros d; exact (flush_is_atomic (H := demo_processor) eq_refl default_table_size 1 40 12 zero_buffer default_limits true id true d true 3 3 [] empty_table [] demo_keys
    demo_main [] 2 fl empty_table_holds (proj1 demo_keys_ok) (proj2 demo_keys_ok) (or_intror eq_refl) demo_ids_ok ltac:(cbn; lia) ltac:(cbn; lia) E)).
  split; [exact (proj1 (Hd []))|]. intros d i size Hi. apply (proj2 (Hd d)); [exact Hi|cbn; lia|cbn; lia].
Defined.

Lemma table_answers_witness : exists n, Holds 1 40 n [([107; 49], [demo_column])] /\
  GetColumnInfos n (Some [108]) true (fun _ => 0) [([107; 49], 0, 7, 0); ([107; 49], 0, 4, 0); ([107; 50], 0, 7, 0); ([108; 1], 0, 7, 0); ([107; 49], 0, 7, 0)] =
  Some [(true, Some (scratch_pad demo_column)); (true, None); (true, None); (false, None); (true, Some (scratch_pad demo_column))].
Proof.
  destruct demo_table as [n Hn]. exists n. split; [exact Hn|].
  exact (table_answers (H := demo_processor) eq_refl default_table_size 1 40 12 zero_buffer default_limits n _ (Some [108]) true (fun _ => 0) _ Hn).
Defined.
