(* ===== verification/SktRecovery.v ===== *)
(** * Tables of InSDB: creating a database and recovering it

    The first table of a new database, the read of the header of a table that a recovery
    does, the removal of tables that a flush left when it was interrupted, and the walk of
    the recovery along the tables (db/manifest.cc).  The lists of key block updates that
    the recovery applies and the replay of the logs are not part of this file.  As before,
    [None] is an access outside of a buffer or an abort. *)

From Stdlib Require Import ZArith Lia Bool Sorting.Sorted.
From stdpp Require Import base list sorting.
From S2P Require Import Prelude Coding Slices Crc32c Buffers KeyBlockTheorems SktFormat SktRows SktColumns SktBuild SktFinish SktHolds SktTheorems.

(** [Env::Delete]. *)
Class DeletingEnv (D : Type) `{Env D} : Type := {
  EnvDelete : D -> Z -> D;
  get_delete : forall d key size, EnvGet (EnvDelete d key) key size = None;
  get_delete_other : forall d key key' size, key' <> key -> EnvGet (EnvDelete d key) key' size = EnvGet d key' size;
}.

(** ** Code *)

(** The statuses that the functions below return when they do not succeed. *)
Inductive Failure : Type := NotFound | Corruption | NotSupported.

(** A value read into an [int]. *)
Definition to_int (v : Z) : Z := if v <? 2 ^ 31 then v else v - 2 ^ 32.

Record SKTableInfo : Type := { si_skt_id : Z; si_next_skt_id : Z; si_prealloc_skt_id : Z; si_largest_seq_num : Z }.

Section Code.
  Context `{Processor} `{Env D} `{!DeletingEnv D} (kMaxSKTableSize kRequestAlignSize : Z) (address : Z -> Z).

(** [Manifest::BuildFirstSKTable]: the contents, and the device. *)
Definition first_contents (GenerateSequenceNumber next_id : Z) : option (list Z) :=
  let contents := replicate SKTDF_BEGIN_KEY_OFFSET 0 in
  let skt_info_2_offset := Z.of_nat (length contents) in
  let contents := contents ++ EncodeFixed16 kLittleEndian 0 in
  contents ← put_at contents SKTDF_NR_KEY_OFFSET (EncodeFixed32 kLittleEndian 0);
  contents ← put_at contents SKTDF_INFO_2_OFFSET (EncodeFixed32 kLittleEndian skt_info_2_offset);
  contents ← put_at contents SKTDF_COMP_START_OFFSET (EncodeFixed32 kLittleEndian skt_info_2_offset);
  contents ← put_at contents SKTDF_SKT_SIZE_OFFSET (EncodeFixed32 kLittleEndian (u32 (Z.of_nat (length contents) - Z.of_nat SKTDF_BEGIN_KEY_OFFSET)));
  contents ← put_at contents SKTDF_LARGEST_SEQ_NUM (EncodeFixed64 kLittleEndian GenerateSequenceNumber);
  contents ← put_at contents SKTDF_NEXT_ID_OFFSET (EncodeFixed32 kLittleEndian 0);
  contents ← put_at contents SKTDF_PREALLOC_ID_OFFSET (EncodeFixed32 kLittleEndian next_id);
  first ← get_at contents SKTDF_NR_KEY_OFFSET (SKTDF_BEGIN_KEY_OFFSET - SKTDF_NR_KEY_OFFSET);
  crc ← Value (address 1 + Z.of_nat SKTDF_NR_KEY_OFFSET) first;
  contents ← put_at contents SKTDF_CRC_2_OFFSET (EncodeFixed32 kLittleEndian (Mask crc));
  whole ← get_at contents SKTDF_CRC_2_OFFSET (length contents - SKTDF_CRC_2_OFFSET);
  crc ← Value (address 1 + Z.of_nat SKTDF_CRC_2_OFFSET) whole;
  contents ← put_at contents SKTDF_CRC_1_OFFSET (EncodeFixed32 kLittleEndian (Mask crc));
  let size := Z.of_nat (length contents) in
  Some (if size mod kRequestAlignSize =? 0 then contents else contents ++ replicate (Z.to_nat (kRequestAlignSize - size mod kRequestAlignSize)) 0xff).

Definition BuildFirstSKTable (d : D) (skt_id GenerateSequenceNumber next_id : Z) : option (D * Z) :=
  contents ← first_contents GenerateSequenceNumber next_id; Some (EnvPut d skt_id contents, Z.of_nat (length contents)).

(** [Manifest::ReadSKTableInfo]. *)
Definition ReadSKTableInfo (d : D) (skt_id : Z) : option (Failure + SKTableInfo) :=
  match EnvGet d skt_id kMaxSKTableSize with
  | None => Some (inl NotFound)
  | Some buff =>
      comp_offset ← DecodeFixed32 kLittleEndian (drop SKTDF_COMP_START_OFFSET buff);
      let comp_offset := to_int comp_offset in
      if Z.of_nat (length buff) <=? comp_offset then Some (inl Corruption)
      else
        stored ← DecodeFixed32 kLittleEndian (drop SKTDF_CRC_2_OFFSET buff);
        if comp_offset <? Z.of_nat SKTDF_NR_KEY_OFFSET then None
        else
          first ← get_at buff SKTDF_NR_KEY_OFFSET (Z.to_nat (comp_offset - Z.of_nat SKTDF_NR_KEY_OFFSET));
          crc ← Value (address skt_id + Z.of_nat SKTDF_NR_KEY_OFFSET) first;
          if negb (Unmask stored =? crc) then Some (inl Corruption)
          else
            next ← DecodeFixed32 kLittleEndian (drop SKTDF_NEXT_ID_OFFSET buff);
            prealloc ← DecodeFixed32 kLittleEndian (drop SKTDF_PREALLOC_ID_OFFSET buff);
            largest ← DecodeFixed64 kLittleEndian (drop SKTDF_LARGEST_SEQ_NUM buff);
            Some (inr {| si_skt_id := skt_id; si_next_skt_id := next; si_prealloc_skt_id := prealloc; si_largest_seq_num := largest |})
  end.

(** [Manifest::CleanupPreallocSKTable]: the failure, if there is one, and the device. *)
Fixpoint CleanupPreallocSKTable (fuel : nat) (d : D) (new_next_skt_id next_skt_id : Z) : option (option Failure * D) :=
  match fuel with
  | O => None
  | S fuel =>
      if next_skt_id =? new_next_skt_id then Some (None, d)
      else
        r ← ReadSKTableInfo d new_next_skt_id;
        match r with
        | inl s => Some (Some s, d)
        | inr recover => CleanupPreallocSKTable fuel (EnvDelete d new_next_skt_id) (u32 (si_next_skt_id recover)) next_skt_id
        end
  end.

(** A table that the recovery found: [rt_cache] is the cache it is put in, the one for
    dirty tables if [true], and [rt_ids] has the numbers that it goes on with. *)
Record Recovered : Type := { rt_begin_key : list Z; rt_size : Z; rt_ids : Ids; rt_cache : option bool }.

(** [DBRecovery::LoadBeginsKeysAndCLeanupSKTableMeta], without the update lists and the
    rows of a table, which are loaded when it has to be written again. *)
Definition LoadBeginsKeysAndCLeanupSKTableMeta (fuel : nat) (d : D) (sktid : Z) : option ((Failure + Recovered) * D) :=
  match EnvGet d sktid 2048 with
  | None => Some (inl NotFound, d)
  | Some buffer =>
      if (length buffer <? 48)%nat then Some (inl Corruption, d)
      else
        compress_offset ← DecodeFixed32 kLittleEndian (drop SKTDF_COMP_START_OFFSET buffer);
        if 2048 <? compress_offset then Some (inl NotSupported, d)
        else
          skt_size ← DecodeFixed32 kLittleEndian (drop SKTDF_SKT_SIZE_OFFSET buffer);
          let sktdf_size := u32 (compress_offset + skt_size) in
          next_skt ← DecodeFixed32 kLittleEndian (drop SKTDF_NEXT_ID_OFFSET buffer);
          prealloc_skt ← DecodeFixed32 kLittleEndian (drop SKTDF_PREALLOC_ID_OFFSET buffer);
          '(key_len, beginkey) ← GetVarint16Ptr (drop SKTDF_BEGIN_KEY_OFFSET buffer);
          if negb (key_len =? 0) then Some (inl Corruption, d)
          else
            '(key_len, beginkey) ← GetVarint16Ptr beginkey;
            key ← get_at beginkey 0 (Z.to_nat key_len);
            let found prealloc cache :=
              inr {| rt_begin_key := key; rt_size := sktdf_size; rt_cache := cache;
                     rt_ids := {| skt_id_ := sktid; next_id_ := next_skt; prealloc_id_ := prealloc |} |} in
            skt_info ← ReadSKTableInfo d prealloc_skt;
            match skt_info with
            | inl NotFound => Some (found prealloc_skt (Some false), d)
            | inr _ =>
                '(s, d) ← CleanupPreallocSKTable fuel d prealloc_skt next_skt;
                match s with
                | None | Some NotFound => Some (found next_skt (Some true), d)
                | Some s => Some (inl s, d)
                end
            | inl _ => Some (found prealloc_skt None, d)
            end
  end.

(** The loop of [RunRecovery] over the tables. *)
Fixpoint load_tables (fuel steps : nat) (d : D) (skt_id : Z) : option ((Failure + list Recovered) * D) :=
  match fuel with
  | O => None
  | S fuel =>
      if skt_id =? 0 then Some (inr [], d)
      else
        '(r, d) ← LoadBeginsKeysAndCLeanupSKTableMeta steps d skt_id;
        match r with
        | inl s => Some (inl s, d)
        | inr t =>
            '(l, d) ← load_tables fuel steps d (next_id_ (rt_ids t));
            Some (match l with inl s => inl s | inr l => inr (t :: l) end, d)
        end
  end.
End Code.

(** ** Reading the header of a table *)

Section Header.
  Context `{Processor} `{SnappyLaws}.
  Hypothesis Hle : kLittleEndian = true.

Lemma DecodeFixed32_load buf n : DecodeFixed32 kLittleEndian (drop n buf) = load32 buf n.
Proof.
  unfold load32, get_at. rewrite Hle. destruct (Nat.leb_spec (n + 4) (length buf)) as [Hn|Hn].
  - assert (4 <= length (drop n buf))%nat as Hl by (rewrite length_drop; lia). destruct (drop n buf) as [|p0 [|p1 [|p2 [|p3 l]]]]; cbn [length] in Hl; try lia. done.
  - assert (length (drop n buf) < 4)%nat as Hl by (rewrite length_drop; lia). destruct (drop n buf) as [|p0 [|p1 [|p2 [|p3 l]]]]; cbn [length] in Hl; try lia; done.
Qed.

Lemma frame_rest c1 c2 count info start size largest n1 n2 rest : frame c1 c2 count info start size largest n1 n2 rest = frame c1 c2 count info start size largest n1 n2 [] ++ rest.
Proof. by rewrite <- frame_app. Qed.

(** What is read of the header of a table that was sealed. *)
Lemma sealed_header buf rows next pre compressed : Form buf rows (le_bytes 4 next) (le_bytes 4 pre) compressed true -> exists start size largest first,
  DecodeFixed32 kLittleEndian (drop SKTDF_COMP_START_OFFSET buf) = Some start /\ DecodeFixed32 kLittleEndian (drop SKTDF_SKT_SIZE_OFFSET buf) = Some size /\
  DecodeFixed64 kLittleEndian (drop SKTDF_LARGEST_SEQ_NUM buf) = Some largest /\
  DecodeFixed32 kLittleEndian (drop SKTDF_NEXT_ID_OFFSET buf) = Some (u32 next) /\ DecodeFixed32 kLittleEndian (drop SKTDF_PREALLOC_ID_OFFSET buf) = Some (u32 pre) /\
  start = Z.of_nat (second_key rows) /\
  get_at buf SKTDF_NR_KEY_OFFSET (Z.to_nat (start - Z.of_nat SKTDF_NR_KEY_OFFSET)) = Some first /\ bytes_ok first /\
  DecodeFixed32 kLittleEndian (drop SKTDF_CRC_2_OFFSET buf) = Some (Mask (crc32c 0 first)) /\
  40 <= start < Z.of_nat (length buf) /\ start < 2 ^ 20 /\ (rows <> [] -> (48 <= length buf)%nat /\ exists rest, drop SKTDF_BEGIN_KEY_OFFSET buf = 0 :: 0 :: rest).
Proof.
  intros [(c1 & c2 & start & size & largest & bytes & base & offs & first & data & pad & HF & Ebuf & Eb & Es & Ez & Hr & Hb & Hs & Hfb & Hz & Hf7 & Hp & Hcrc) Hok].
  set (payload := if compressed then RawCompress data else data) in *. pose proof HF as (F1 & F2 & F3 & F4). destruct (Hcrc eq_refl) as [_ Ec2].
  assert (length (body bytes base offs) = length first + length data)%nat as Elen by (by rewrite Eb, length_app).
  assert (length (body bytes base offs) = length bytes + 2 + length base + length (offset_table offs))%nat as Ebody by (unfold body; rewrite !length_app, length_le_bytes; lia).
  assert (payload <> []) as Hpay by (unfold payload; destruct compressed; [apply compress_nonempty|destruct data; [cbn in Elen; lia|done]]).
  assert (0 < length payload)%nat as Hpl by (destruct payload; [done|cbn; lia]).
  assert (length buf = 40 + length first + length payload + length pad)%nat as Hbl by (rewrite Ebuf, length_frame, F1, !length_app by done; lia).
  destruct (load_frame Hle c1 c2 (Z.of_nat (length rows)) (info_word compressed (length bytes)) start size largest _ _ (first ++ payload ++ pad) HF) as (_ & _ & L1 & L2).
  destruct (load_ids Hle c1 c2 (Z.of_nat (length rows)) (info_word compressed (length bytes)) start size largest next pre (first ++ payload ++ pad) F1 F2) as (L3 & L4).
  rewrite <- Ebuf in L1, L2, L3, L4. rewrite !DecodeFixed32_load.
  set (cov := frame [] [] (Z.of_nat (length rows)) (info_word compressed (length bytes)) start size largest (le_bytes 4 next) (le_bytes 4 pre) first) in *.
  assert (buf = (c1 ++ c2) ++ cov ++ payload ++ pad) as E1 by (rewrite Ebuf; unfold cov, frame; by rewrite <- !app_assoc).
  assert (u32 start = start) as Eu by (unfold u32; rewrite wrap_small; lia). rewrite Eu in L1.
  pose proof Hok as Hok'. unfold bytes_ok in Hok'. rewrite E1, !Forall_app in Hok'. destruct Hok' as ([K1 K2] & Kc & K3 & K4).
  exists start, (u32 size), (u64 largest), cov. split_and!; try done; try lia.
  - set (rest := le_bytes 4 next ++ le_bytes 4 pre ++ first ++ payload ++ pad).
    assert (buf = (c1 ++ c2 ++ le_bytes 4 (Z.of_nat (length rows)) ++ le_bytes 4 (info_word compressed (length bytes)) ++ le_bytes 4 start ++ le_bytes 4 size) ++ le_bytes 8 largest ++ rest) as E2
      by (rewrite Ebuf; unfold rest, frame; by rewrite <- !app_assoc).
    rewrite E2, drop_app_length' by (rewrite !length_app, F1, F2, !length_le_bytes; done). rewrite <- (EncodeFixed64_le kLittleEndian). apply DecodeFixed64_app.
    rewrite E2 in Hok. by apply Forall_app in Hok as [_ [_ Hrest]%Forall_app].
  - apply (get_at_eq _ _ _ (c1 ++ c2) cov (payload ++ pad)); [done|rewrite length_app; unfold SKTDF_NR_KEY_OFFSET; lia|].
    unfold cov, frame. rewrite !length_app, !length_le_bytes. cbn [length]. unfold SKTDF_NR_KEY_OFFSET. lia.
  - pose proof (load32_app c1 (Mask (crc32c 0 cov)) (cov ++ payload ++ pad) Hle) as L. rewrite <- Ec2, app_assoc, <- E1, F1 in L. unfold SKTDF_CRC_2_OFFSET. rewrite L. f_equal. apply wrap_small, Mask_range.
  - intros Hne. assert (7 <= length first)%nat as H7.
    { destruct rows as [|[key cols] rows]; [done|]. pose proof (second_key_size _ _ _ _ _ Hr ltac:(done)). lia. }
    split; [lia|]. destruct Hz as [->|[r Er]]; [cbn in Hfb; lia|].
    destruct first as [|a [|b first]]; [cbn in H7; lia..|]. unfold body in Eb. rewrite Er in Eb. injection Eb as <- <- _.
    rewrite Ebuf, frame_rest, drop_app_length' by (rewrite length_frame, F1 by done; done). by eexists.
Qed.

(** A table that was sealed and is on the device. *)
Context `{Env D}.
Variables (kMaxSKTableSize : nat) (address : Z -> Z).

Definition OnDevice (d : D) (t : Z * list Z) : Prop := forall size, EnvGet d t.1 size = Some (take (Z.to_nat size) t.2).

Lemma ReadSKTableInfo_spec d x t rows : Sealed kMaxSKTableSize x t rows -> numbers_ok x -> OnDevice d t -> exists info,
  ReadSKTableInfo (Z.of_nat kMaxSKTableSize) address d (skt_id_ x) = Some (inr info) /\ si_next_skt_id info = next_id_ x.
Proof.
  intros [Eid [compressed Hf] Hs] [Hn _] Hd. destruct (sealed_header _ _ _ _ _ Hf) as (start & size & largest & first & E1 & _ & E3 & E4 & E5 & _ & E6 & Hfirst & E7 & Hst & Hst' & _).
  unfold ReadSKTableInfo. rewrite <- Eid, Hd, Nat2Z.id, take_ge, E1 by lia. cbn [mbind option_bind].
  assert (to_int start = start) as -> by (unfold to_int; destruct (Z.ltb_spec start (2 ^ 31)); [done|lia]).
  destruct (Z.leb_spec (Z.of_nat (length t.2)) start); [lia|]. rewrite E7. cbn [mbind option_bind]. destruct (Z.ltb_spec start (Z.of_nat SKTDF_NR_KEY_OFFSET)); [unfold SKTDF_NR_KEY_OFFSET in *; lia|].
  rewrite E6. cbn [mbind option_bind]. unfold Value. rewrite Extend_spec by (done || lia). cbn [mbind option_bind].
  rewrite Unmask_Mask by (apply crc32c_range; done || lia). rewrite Z.eqb_refl. cbn [negb]. rewrite E4, E5, E3. cbn [mbind option_bind].
  eexists. split; [done|]. cbn [si_next_skt_id]. by apply wrap_small.
Qed.
End Header.

(** ** Removing what an interrupted flush left *)

Section Cleanup.
  Context `{Processor} `{SnappyLaws} `{ReliableEnv D} `{!KeyedEnv D} `{!DeletingEnv D}.
  Hypothesis Hle : kLittleEndian = true.
  Variables (kMaxSKTableSize : nat) (address : Z -> Z).

(** Devices that no read tells apart, and numbers without a table. *)
Definition same (d d' : D) : Prop := forall id size, EnvGet d id size = EnvGet d' id size.
Definition absent (d : D) (id : Z) : Prop := forall size, EnvGet d id size = None.

(** A device on which some tables were put. *)
Definition Written (d dev : D) (queue : list (Z * list Z)) : Prop := Forall (OnDevice dev) queue /\ forall id size, id ∉ map fst queue -> EnvGet dev id size = EnvGet d id size.

Lemma put_all_written d queue : NoDup (map fst queue) -> Written d (put_all d queue) queue.
Proof.
  intros Hnd. split; [|intros id size Hid; by apply get_put_all_other]. apply Forall_forall. intros [id s] Ht size. by apply get_put_all.
Qed.

Lemma delete_written d dev t queue : Written d dev (t :: queue) -> NoDup (map fst (t :: queue)) -> absent d t.1 -> Written d (EnvDelete dev t.1) queue.
Proof.
  intros [Hon Hoff] Hnd Ha. cbn [map] in *. apply NoDup_cons in Hnd as [Hout Hnd]. apply Forall_cons in Hon as [_ Hon]. split.
  - apply Forall_forall. intros t' Ht' size. rewrite Forall_forall in Hon. rewrite get_delete_other; [by apply Hon|]. intros E. apply Hout. rewrite <- E. by apply list_elem_of_fmap_2.
  - intros id size Hid. destruct (decide (id = t.1)) as [->|Hne]; [by rewrite get_delete, Ha|]. rewrite get_delete_other by done. apply Hoff. by apply not_elem_of_cons.
Qed.

Lemma written_nil d dev : Written d dev [] -> same dev d.
Proof. intros [_ Hw] id size. apply Hw, not_elem_of_nil. Qed.

Lemma cleanup_spec d end_id ids sealed groups : Forall3 (Sealed kMaxSKTableSize) ids sealed groups -> forall dev id i fuel, linked id ids end_id -> Forall numbers_ok ids -> NoDup (map fst sealed) ->
  Forall (fun t => t.1 <> end_id /\ absent d t.1) sealed -> Written d dev (take i sealed) -> (length ids < fuel)%nat -> exists s d',
  CleanupPreallocSKTable (Z.of_nat kMaxSKTableSize) address fuel dev id end_id = Some (s, d') /\ (s = None \/ s = Some NotFound) /\ same d' d.
Proof.
  induction 1 as [|x t rows ids sealed groups Hse Hrest IH]; intros dev id i fuel Hlink Hok Hnd Hab Hw Hf; (destruct fuel as [|fuel]; [cbn in Hf; lia|]); cbn [CleanupPreallocSKTable].
  - cbn in Hlink. subst. rewrite Z.eqb_refl. exists None, dev. split; [done|]. split; [by left|]. rewrite take_nil in Hw. by apply written_nil.
  - destruct Hlink as [Eid Hlink]. apply Forall_cons in Hok as [Hx Hok]. apply Forall_cons in Hab as [[Hne Ha] Hab]. pose proof (se_id _ _ _ _ Hse) as Et. rewrite <- Eid, <- Et.
    destruct (Z.eqb_spec end_id t.1) as [E|_]; [congruence|]. destruct i as [|i].
    + assert (ReadSKTableInfo (Z.of_nat kMaxSKTableSize) address dev t.1 = Some (inl NotFound)) as ->.
      { apply written_nil in Hw. unfold ReadSKTableInfo. by rewrite Hw, Ha. }
      exists (Some NotFound), dev. split; [done|]. split; [by right|]. by apply written_nil.
    + cbn [take] in Hw. destruct (ReadSKTableInfo_spec Hle kMaxSKTableSize address dev x t rows Hse Hx) as (info & E & En); [destruct Hw as [Hw _]; by apply Forall_cons in Hw as [? _]|].
      rewrite Et, E. cbn [mbind option_bind]. rewrite En. assert (u32 (next_id_ x) = next_id_ x) as -> by (destruct Hx as [Hx _]; by apply wrap_small). rewrite <- Et.
      apply IH with (i := i); try done; [by apply NoDup_cons in Hnd as [_ ?]| |cbn [length] in Hf; lia].
      apply delete_written; [done| |done]. change (map fst (t :: take i sealed)) with (map fst (take (S i) (t :: sealed))). eapply (sublist_NoDup _ _ Hnd). apply (fmap_sublist fst), sublist_take.
Qed.
End Cleanup.

(** ** Recovery after a flush *)

Section Recovery.
  Context `{Processor} `{RawMalloc} `{SnappyLaws} `{ReliableEnv D} `{!KeyedEnv D} `{!DeletingEnv D}.
  Hypothesis Hle : kLittleEndian = true.
  Context (kMaxSKTableSize kMaxColumnCount kMaxKeySize : nat) (k : Z) (alloc : Z -> list Z).
  Hypothesis Hlim : Limits kMaxSKTableSize kMaxColumnCount kMaxKeySize k alloc.
  Variables (have_snappy : bool) (address : Z -> Z) (HasBeenFlushed : bool).

Lemma Forall3_tail {A B C} (P : A -> B -> C -> Prop) l k' m : Forall3 P l k' m -> Forall3 P (tail l) (tail k') (tail m).
Proof. by destruct 1; [constructor|]. Qed.

(** C15: a recovery undoes a flush that was interrupted.  When the device has been written
    up to any point before the put of the main table, and numbers that were not given out
    had no table, [CleanupPreallocSKTable], which follows the tables from the reserved
    number of the main table on, removes exactly those that the flush wrote: it ends, at
    the table after the main one or at the first that is missing, and every read of the
    device is as before the flush. *)
Theorem interrupted_flush_undone (d : D) first_table fuel steps begin_key n kvs ukeys main deleted gen fl :
  Holds kMaxColumnCount kMaxKeySize n kvs -> Forall (KeyOk kMaxColumnCount kMaxKeySize HasBeenFlushed) ukeys -> ascending_keys ukeys ->
  (exists key, flushed_columns ukeys kvs key <> None) \/ first_table = true -> IdsOk (length ukeys + length kvs) main deleted gen ->
  (length ukeys + length kvs < fuel)%nat -> (length ukeys + length kvs < steps)%nat ->
  next_id_ main <= gen -> next_id_ main <> prealloc_id_ main -> absent d (prealloc_id_ main) -> (forall id, gen < id -> absent d id) ->
  FlushTables have_snappy (2 ^ k) alloc address kMaxSKTableSize kMaxColumnCount HasBeenFlushed first_table fuel steps begin_key n ukeys main deleted gen = Some fl ->
  forall done fuel', (done < length (fl_queue fl) < fuel')%nat -> exists s d',
  CleanupPreallocSKTable (Z.of_nat kMaxSKTableSize) address fuel' (put_all d (take done (fl_queue fl))) (prealloc_id_ main) (next_id_ main) = Some (s, d') /\
  (s = None \/ s = Some NotFound) /\ same d' d.
Proof.
  intros Hn Hu Hus Hne Hids Hfuel Hsteps Hnext Hnp Hap Hafter E i fuel' [Hi Hf]. pose proof (Holds_ascending _ _ _ _ Hn) as Hs.
  destruct (flush_spec Hle _ _ _ _ _ Hlim have_snappy address HasBeenFlushed first_table fuel steps begin_key n kvs ukeys main deleted gen Hn Hu Hus (flush_nonempty _ _ _ Hus Hs Hne) Hids Hfuel Hsteps)
    as (fl' & kvss & sealed & E' & _ & Hfl).
  assert (fl' = fl) as -> by congruence. destruct Hfl as [Eq Hnd _ Hfresh (groups & Hg & _) Hsubs [_ Hok] _ _]. rewrite Eq in *. rewrite take_write_queue by done.
  apply Forall3_tail in Hg. rewrite write_queue_perm in Hf. destruct Hsubs as [Hnil|Hlink].
  - rewrite Hnil in Hg. inversion Hg as [Ei Es Eg|]. rewrite <- Es in *. rewrite take_nil. cbn [put_all foldl]. destruct fuel' as [|fuel']; [lia|]. cbn [CleanupPreallocSKTable].
    destruct (Z.eqb_spec (next_id_ main) (prealloc_id_ main)); [done|]. unfold ReadSKTableInfo. rewrite Hap. cbn [mbind option_bind]. exists (Some NotFound), d. by split_and!; [|right|].
  - eapply (cleanup_spec Hle kMaxSKTableSize address d _ _ _ _ Hg); try done.
    + destruct (map snd (fl_tables fl)); [done|]. by apply Forall_cons in Hok as [_ ?].
    + destruct sealed; [done|]. by apply NoDup_cons in Hnd as [_ ?].
    + eapply Forall_impl; [exact Hfresh|]. intros t [Et|Et]; cbn in Et; split; [congruence|by rewrite Et|lia|by apply Hafter].
    + apply put_all_written. destruct sealed as [|t sealed]; [cbn [tail]; rewrite take_nil; constructor|]. apply NoDup_cons in Hnd as [_ Hnd]. eapply (sublist_NoDup _ _ Hnd). apply (fmap_sublist fst), sublist_take.
    + apply Forall3_length_lm in Hg as Hl. rewrite Hl. destruct sealed; cbn [tail length] in *; lia.
Qed.

Lemma load32_take buf m n : (n + 4 <= m)%nat -> load32 (take m buf) n = load32 buf n.
Proof.
  intros Hn. unfold load32, get_at. rewrite length_take. destruct (Nat.leb_spec (n + 4) (length buf)) as [Hl|Hl].
  - destruct (Nat.leb_spec (n + 4) (Nat.min m (length buf))); [|lia]. rewrite skipn_firstn_comm, take_take. by replace (Nat.min 4 (m - n)) with 4%nat by lia.
  - destruct (Nat.leb_spec (n + 4) (Nat.min m (length buf))); [lia|done].
Qed.

(** What the recovery makes of a table with keys: it reads 2048 bytes, which must have
    the first row. *)
Lemma recover_sealed fuel d x t rows : Sealed kMaxSKTableSize x t rows -> rows <> [] -> numbers_ok x -> OnDevice d t -> absent d (prealloc_id_ x) -> exists r,
  LoadBeginsKeysAndCLeanupSKTableMeta (Z.of_nat kMaxSKTableSize) address fuel d (skt_id_ x) = Some (r, d) /\
  (r = inl NotSupported /\ (2048 < second_key rows)%nat \/ exists size, r = inr {| rt_begin_key := []; rt_size := size; rt_ids := x; rt_cache := Some false |}).
Proof.
  intros [Eid [compressed Hf] Hs] Hne [Hn Hp] Hd Ha. destruct (sealed_header Hle _ _ _ _ _ Hf) as (start & size & largest & first & E1 & E2 & _ & E4 & E5 & Hsec & _ & _ & _ & Hst & _ & Hrows).
  destruct (Hrows Hne) as (H48 & rest & Erest). rewrite !(DecodeFixed32_load Hle) in *. unfold LoadBeginsKeysAndCLeanupSKTableMeta. rewrite <- Eid, Hd. change (Z.to_nat 2048) with 2048%nat.
  rewrite !(DecodeFixed32_load Hle), !load32_take by (cbv; lia). rewrite length_take. destruct (Nat.ltb_spec (Nat.min 2048 (length t.2)) 48); [lia|]. rewrite E1. cbn [mbind option_bind].
  destruct (Z.ltb_spec 2048 start); [eexists; split; [done|left; split; [done|lia]]|]. rewrite E2, E4, E5. cbn [mbind option_bind].
  assert (drop SKTDF_BEGIN_KEY_OFFSET (take 2048 t.2) = 0 :: 0 :: take 2006 rest) as -> by (rewrite skipn_firstn_comm, Erest; done).
  change (GetVarint16Ptr (0 :: 0 :: take 2006 rest)) with (Some (0, 0 :: take 2006 rest)). cbn [mbind option_bind]. cbn [Z.eqb negb].
  change (GetVarint16Ptr (0 :: take 2006 rest)) with (Some (0, take 2006 rest)). cbn [mbind option_bind].
  assert (get_at (take 2006 rest) 0 (Z.to_nat 0) = Some []) as -> by (unfold get_at; by destruct (Nat.leb_spec (0 + Z.to_nat 0) (length (take 2006 rest))); [|cbn in *; lia]).
  cbn [mbind option_bind]. assert (u32 (next_id_ x) = next_id_ x) as -> by (by apply wrap_small). assert (u32 (prealloc_id_ x) = prealloc_id_ x) as -> by (by apply wrap_small).
  unfold ReadSKTableInfo. rewrite Ha. cbn [mbind option_bind]. eexists. split; [done|]. right. exists (u32 (start + size)). rewrite Eid. by destruct x.
Qed.

Lemma Forall3_lookup3 {A B C} (P : A -> B -> C -> Prop) l k' m i x : Forall3 P l k' m -> l !! i = Some x -> exists y z, k' !! i = Some y /\ m !! i = Some z /\ P x y z.
Proof. intros HF. revert i. induction HF as [|x' y z l k' m Hp _ IH]; intros [|i] Hi; try done; cbn in *; [injection Hi as <-; by exists y, z|by apply IH]. Qed.

(** A row of the tables of a flush is that of a key that was to be recorded. *)
Lemma row_of_key groups kvss ukeys kvs rows : Forall2 (RowsHold kMaxColumnCount kMaxKeySize) groups kvss -> concat kvss = merge_columns ukeys kvs -> ascending_keys ukeys -> ascending kvs ->
  rows ∈ groups -> rows <> [] -> exists key vs, flushed_columns ukeys kvs key = Some vs /\ second_key rows = row_end (key, vs).
Proof.
  intros Hk Ec Hus Hs [i Hi]%list_elem_of_lookup_1 Hne. destruct (Forall2_lookup_l _ _ _ _ _ Hk Hi) as (kvs' & Hkvs & [Hf _]).
  destruct (second_key_holds _ _ _ _ Hf Hne) as ([key vs] & Hin & E). exists key, vs. split; [|done].
  assert ((key, vs) ∈ concat kvss) as [j Hj]%list_elem_of_lookup_1 by (apply list_elem_of_In, in_concat; exists kvs'; split; apply list_elem_of_In; [by eapply list_elem_of_lookup_2|done]).
  rewrite <- merge_columns_of, <- Ec by done. eapply columns_of_lookup; [rewrite Ec; by apply merge_ascending|done].
Qed.

(** A recovery does not find the keys that tables begin with.  The builder writes the
    size of the row before and the size of the row in front of each row;
    [LoadBeginsKeysAndCLeanupSKTableMeta] takes the begin key from the place where the
    first row starts, and decodes the size of the row before, which is 0, as an empty key.
    Whatever a flush wrote, each table that it split off, which begins with a key that is
    not empty, is registered under the empty key, or not at all if its first row ends after the 2048
    bytes that are read. *)
Theorem recovered_begin_keys_empty (d : D) first_table fuel steps begin_key n kvs ukeys main deleted gen fl :
  Holds kMaxColumnCount kMaxKeySize n kvs -> Forall (KeyOk kMaxColumnCount kMaxKeySize HasBeenFlushed) ukeys -> ascending_keys ukeys ->
  (exists key, flushed_columns ukeys kvs key <> None) \/ first_table = true -> IdsOk (length ukeys + length kvs) main deleted gen ->
  (length ukeys + length kvs < fuel)%nat -> (length ukeys + length kvs < steps)%nat ->
  FlushTables have_snappy (2 ^ k) alloc address kMaxSKTableSize kMaxColumnCount HasBeenFlushed first_table fuel steps begin_key n ukeys main deleted gen = Some fl ->
  let dev := put_all d (fl_queue fl) in
  forall i key x fuel', tail (fl_tables fl) !! i = Some (key, x) -> absent dev (prealloc_id_ x) -> key <> [] /\ exists r,
  LoadBeginsKeysAndCLeanupSKTableMeta (Z.of_nat kMaxSKTableSize) address fuel' dev (skt_id_ x) = Some (r, dev) /\
  (r = inl NotSupported /\ (exists key vs, flushed_columns ukeys kvs key = Some vs /\ (2048 < row_end (key, vs))%nat) \/
   exists size, r = inr {| rt_begin_key := []; rt_size := size; rt_ids := x; rt_cache := Some false |}).
Proof.
  intros Hn Hu Hus Hne Hids Hfuel Hsteps E dev i key x fuel' Hi Ha. pose proof (Holds_ascending _ _ _ _ Hn) as Hs.
  destruct (flush_spec Hle _ _ _ _ _ Hlim have_snappy address HasBeenFlushed first_table fuel steps begin_key n kvs ukeys main deleted gen Hn Hu Hus (flush_nonempty _ _ _ Hus Hs Hne) Hids Hfuel Hsteps)
    as (fl' & kvss & sealed & E' & Ec & Hfl).
  assert (fl' = fl) as -> by congruence. destruct Hfl as [Eq Hnd _ _ (groups & Hg & Hk) _ [_ Hok] Hbegin _].
  destruct (Forall2_lookup_l _ _ _ _ _ Hbegin Hi) as (kvs' & Hkv & Ehead & Hkey). split; [done|].
  assert (map snd (fl_tables fl) !! S i = Some x) as Hx.
  { destruct (fl_tables fl) as [|t ts]; [done|]. cbn [tail] in Hi. change ((snd <$> ts) !! i = Some x). by rewrite list_lookup_fmap, Hi. }
  destruct (Forall3_lookup3 _ _ _ _ _ _ Hg Hx) as (t & rows & Ht & Hrows & Hse).
  assert (rows <> []) as Hrne.
  { intros ->. destruct (Forall2_lookup_l _ _ _ _ _ Hk Hrows) as (kvs0 & Hkv0 & [Hr0 _]). apply Forall2_nil_inv_l in Hr0 as ->.
    assert (kvss !! S i = tail kvss !! i) as Et by (by destruct kvss). rewrite Et, Hkv in Hkv0. by injection Hkv0 as ->. }
  destruct (recover_sealed fuel' dev x t rows Hse Hrne) as (r & Er & Hr).
  - rewrite Forall_lookup in Hok. by eapply Hok.
  - intros size. unfold dev. rewrite Eq. apply get_put_all; [by rewrite write_queue_perm|]. rewrite write_queue_perm. destruct t. by eapply list_elem_of_lookup_2.
  - done.
  - exists r. split; [done|]. destruct Hr as [[-> Hlong]|]; [left; split; [done|]|by right].
    destruct (row_of_key _ _ _ _ rows Hk Ec Hus Hs ltac:(by eapply list_elem_of_lookup_2) Hrne) as (key' & vs & Hfc & Esk). exists key', vs. by rewrite <- Esk.
Qed.

Lemma groups_nonempty groups kvss : Forall2 (RowsHold kMaxColumnCount kMaxKeySize) groups kvss -> Forall (fun kvs => kvs <> []) kvss -> Forall (fun rows => rows <> []) groups.
Proof.
  induction 1 as [|rows kvs groups kvss [Hr _] _ IH]; intros Hk; [constructor|]. apply Forall_cons in Hk as [Hkvs Hk]. constructor; [|by apply IH].
  intros ->. by apply Forall2_nil_inv_l in Hr as ->.
Qed.

(** The walk along tables with keys. *)
Lemma load_tables_sealed d steps ids sealed groups : Forall3 (Sealed kMaxSKTableSize) ids sealed groups -> forall id fuel, linked id ids 0 -> Forall numbers_ok ids ->
  Forall (fun x => skt_id_ x <> 0 /\ absent d (prealloc_id_ x)) ids -> Forall (fun rows => rows <> []) groups -> Forall (OnDevice d) sealed -> (length ids < fuel)%nat -> exists r,
  load_tables (Z.of_nat kMaxSKTableSize) address fuel steps d id = Some (r, d) /\
  (r = inl NotSupported /\ (exists rows, rows ∈ groups /\ (2048 < second_key rows)%nat) \/ exists l, r = inr l /\ map rt_ids l = ids /\ Forall (fun t => rt_begin_key t = [] /\ rt_cache t = Some false) l).
Proof.
  induction 1 as [|x t rows ids sealed groups Hse Hrest IH]; intros id fuel Hlink Hok Hids Hne Hd Hf; (destruct fuel as [|fuel]; [cbn in Hf; lia|]); cbn [load_tables].
  - cbn in Hlink. subst. exists (inr []). split; [done|]. right. by exists [].
  - destruct Hlink as [<- Hlink]. apply Forall_cons in Hok as [Hx Hok], Hids as [[Hx0 Ha] Hids], Hne as [Hr Hne], Hd as [Ht Hd]. destruct (Z.eqb_spec (skt_id_ x) 0); [done|].
    destruct (recover_sealed steps d x t rows Hse Hr Hx Ht Ha) as (r & -> & [[-> Hlong]|[size ->]]); cbn [mbind option_bind]; [eexists; split; [done|left; split; [done|]; exists rows; split; [left|done]]|]. cbn [rt_ids].
    destruct (IH (next_id_ x) fuel) as (r & -> & Hcase); try done; [cbn [length] in Hf; lia|]. cbn [mbind option_bind].
    destruct Hcase as [[-> (rows' & Hr' & Hlong)]|(l & -> & <- & Hl)]; eexists; (split; [done|]); [left; split; [done|]; exists rows'; split; [by right|done]|right]. eexists. split; [done|]. split; [done|]. by constructor.
Qed.

(** C23: after a flush of a database of one table, the recovery walks along exactly the
    tables that the flush left, in their order and with their numbers, and changes
    nothing on the device: it ends, finds no table to be removed, and puts all of them in
    the cache for clean tables.  It gives up only if the row of some key is so long that,
    as the first one of a table, it ends after the 2048 bytes that are read.  Some key has
    columns to be recorded, all of them with sequence numbers as [KeyOk] says, and the
    reserved numbers have no table.  But it registers all tables under the empty
    key, also those that were split off, which begin with another one: it decodes the
    size of the row before, which precedes the key, as an empty key. *)
Theorem recovery_finds_tables (d : D) fuel steps begin_key n kvs ukeys main gen fl :
  Holds kMaxColumnCount kMaxKeySize n kvs -> Forall (KeyOk kMaxColumnCount kMaxKeySize HasBeenFlushed) ukeys -> ascending_keys ukeys ->
  (exists key, flushed_columns ukeys kvs key <> None) -> IdsOk (length ukeys + length kvs) main [] gen ->
  (length ukeys + length kvs < fuel)%nat -> (length ukeys + length kvs < steps)%nat -> next_id_ main = 0 ->
  FlushTables have_snappy (2 ^ k) alloc address kMaxSKTableSize kMaxColumnCount HasBeenFlushed true fuel steps begin_key n ukeys main [] gen = Some fl ->
  let dev := put_all d (fl_queue fl) in let ids := map snd (fl_tables fl) in
  Forall (fun x => skt_id_ x <> 0 /\ absent dev (prealloc_id_ x)) ids -> forall fuel' steps', (length ids < fuel')%nat ->
  Forall (fun t => t.1 <> []) (tail (fl_tables fl)) /\ exists r,
  load_tables (Z.of_nat kMaxSKTableSize) address fuel' steps' dev (skt_id_ main) = Some (r, dev) /\
  (r = inl NotSupported /\ (exists key vs, flushed_columns ukeys kvs key = Some vs /\ (2048 < row_end (key, vs))%nat) \/
   exists l, r = inr l /\ map rt_ids l = ids /\ Forall (fun t => rt_begin_key t = [] /\ rt_cache t = Some false) l).
Proof.
  intros Hn Hu Hus Hne Hids Hfuel Hsteps Hnext E dev ids Hx fuel' steps' Hf. pose proof (Holds_ascending _ _ _ _ Hn) as Hs.
  destruct (flush_spec Hle _ _ _ _ _ Hlim have_snappy address HasBeenFlushed true fuel steps begin_key n kvs ukeys main [] gen Hn Hu Hus (flush_nonempty _ _ _ Hus Hs (or_introl Hne)) Hids Hfuel Hsteps)
    as (fl' & kvss & sealed & E' & Ec & Hfl).
  assert (fl' = fl) as -> by congruence. destruct Hfl as [Eq Hnd _ _ (groups & Hg & Hk) _ [Hlink Hok] Hbegin Hfirst].
  split; [clear -Hbegin; induction Hbegin as [|t kvs' ts kvss' [_ Ht] _ IH]; by constructor|].
  assert (Forall (fun rows => rows <> []) groups) as Hgne.
  { assert (Forall (fun kvs => kvs <> []) kvss) as Hkvs; [|by eapply groups_nonempty].
    assert (concat kvss <> []) as Hc by (destruct Hne as [key Hkey]; intros E0; rewrite Ec in E0; apply Hkey; by rewrite <- merge_columns_of, E0).
    specialize (Hfirst Hc). destruct kvss as [|kvs0 kvss]; [constructor|]. constructor; [intros ->; by apply Hfirst|]. cbn [tail] in Hbegin. clear -Hbegin.
    induction Hbegin as [|t kvs' ts kvss [Eh _] _ IH]; [constructor|]. constructor; [by intros ->|done]. }
  destruct (load_tables_sealed dev steps' _ sealed groups Hg (skt_id_ main) fuel') as (r & Er & Hr); try done.
  - unfold last_id in Hlink. rewrite Hnext in Hlink. by destruct (length kvss - 1)%nat.
  - apply Forall_forall. intros [id s] Ht size. unfold dev. rewrite Eq. apply get_put_all; by rewrite write_queue_perm.
  - exists r. split; [done|]. destruct Hr as [[-> (rows & Hrows & Hlong)]|]; [left; split; [done|]|by right]. rewrite Forall_forall in Hgne.
    destruct (row_of_key _ _ _ _ rows Hk Ec Hus Hs Hrows (Hgne _ Hrows)) as (key & vs & Hfc & Esk). exists key, vs. by rewrite <- Esk.
Qed.

(** ** A new database *)

(** What [BuildFirstSKTable] writes is a table without keys. *)
Lemma first_contents_spec align seq next_id : 0 < align <= 4096 -> exists contents, first_contents align address seq next_id = Some contents /\
  Form contents [] (le_bytes 4 0) (le_bytes 4 next_id) false true /\ Z.of_nat (length contents) = (if 42 mod align =? 0 then 42 else 42 + (align - 42 mod align)).
Proof.
  intros Hal. unfold first_contents. rewrite !EncodeFixed16_le, !EncodeFixed32_le, !EncodeFixed64_le. set (z := le_bytes 4 0).
  set (fr := fun c1 c2 info start size largest i2 => frame c1 c2 0 info start size largest z i2 (le_bytes 2 0)).
  change (put_at (replicate _ _ ++ _) _ _) with (Some (fr z z 0 0 0 0 z)). cbn [mbind option_bind].
  change (put_at (fr z z 0 0 0 0 z) _ _) with (Some (fr z z 40 0 0 0 z)). cbn [mbind option_bind].
  change (put_at (fr z z 40 0 0 0 z) _ _) with (Some (fr z z 40 40 0 0 z)). cbn [mbind option_bind].
  rewrite EncodeFixed32_le. change (put_at (fr z z 40 40 0 0 z) _ _) with (Some (fr z z 40 40 2 0 z)). cbn [mbind option_bind].
  change (put_at (fr z z 40 40 2 0 z) _ _) with (Some (fr z z 40 40 2 seq z)). cbn [mbind option_bind].
  change (put_at (fr z z 40 40 2 seq z) SKTDF_NEXT_ID_OFFSET _) with (Some (fr z z 40 40 2 seq z)). cbn [mbind option_bind].
  set (p := le_bytes 4 next_id). change (put_at (fr z z 40 40 2 seq z) SKTDF_PREALLOC_ID_OFFSET _) with (Some (fr z z 40 40 2 seq p)). cbn [mbind option_bind].
  set (first := frame [] [] 0 40 40 2 seq z p []). change (get_at (fr z z 40 40 2 seq p) _ _) with (Some first). cbn [mbind option_bind].
  assert (bytes_ok first) as Hf by (apply frame_bytes_ok; split_and!; apply le_bytes_ok || constructor). unfold Value. rewrite Extend_spec by (done || lia). cbn [mbind option_bind].
  rewrite EncodeFixed32_le. set (c2 := le_bytes 4 (Mask (crc32c 0 first))). change (put_at (fr z z 40 40 2 seq p) SKTDF_CRC_2_OFFSET _) with (Some (fr z c2 40 40 2 seq p)). cbn [mbind option_bind].
  set (whole := fr [] c2 40 40 2 seq p). change (get_at (fr z c2 40 40 2 seq p) _ _) with (Some whole). cbn [mbind option_bind].
  assert (bytes_ok whole) as Hw by (apply frame_bytes_ok; split_and!; apply le_bytes_ok || constructor). rewrite Extend_spec by (done || lia). cbn [mbind option_bind].
  rewrite EncodeFixed32_le. set (c1 := le_bytes 4 (Mask (crc32c 0 whole))). change (put_at (fr z c2 40 40 2 seq p) SKTDF_CRC_1_OFFSET _) with (Some (fr c1 c2 40 40 2 seq p)). cbn [mbind option_bind].
  change (Z.of_nat (length (fr c1 c2 40 40 2 seq p))) with 42. set (pad := if 42 mod align =? 0 then [] else replicate (Z.to_nat (align - 42 mod align)) 255).
  assert (bytes_ok pad) as Hpad by (unfold pad; destruct (_ =? 0); [constructor|apply Forall_replicate; unfold byte_ok; lia]).
  exists (frame c1 c2 0 40 40 2 seq z p (le_bytes 2 0 ++ pad)). split; [|split; [split|]].
  - f_equal. unfold pad. destruct (_ =? 0); [by rewrite app_nil_r|]. unfold fr. by rewrite frame_app.
  - exists c1, c2, 40, 2, seq, [], [], [], [], (le_bytes 2 0), pad. split; [done|]. split; [done|]. split_and!; try done; [constructor|by left].
  - apply frame_bytes_ok. split_and!; try apply le_bytes_ok. apply Forall_app. split; [apply le_bytes_ok|done].
  - rewrite frame_app, length_app. change (length (frame c1 c2 0 40 40 2 seq z p (le_bytes 2 0))) with 42%nat. unfold pad. pose proof (Z.mod_pos_bound 42 align ltac:(lia)).
    destruct (_ =? 0); [done|]. rewrite length_replicate. lia.
Qed.

Lemma first_size align : 0 < align <= 4096 -> 42 <= (if 42 mod align =? 0 then 42 else 42 + (align - 42 mod align)) <= 4096.
Proof.
  intros Hal. pose proof (Z.mod_pos_bound 42 align ltac:(lia)). destruct (_ =? 0); [lia|]. destruct (Z.lt_ge_cases 42 align) as [Hlt|]; [|lia]. rewrite Z.mod_small; lia.
Qed.

Lemma align_range : 0 < 2 ^ k <= 4096.
Proof. pose proof (li_k _ _ _ _ _ Hlim). split; [lia|]. change 4096 with (2 ^ 12). apply Z.pow_le_mono_r; lia. Qed.

(** C25: a database that is created can be used.  [BuildFirstSKTable] puts a table on the
    device that loads, with the size that it returns: a table without keys, that no table
    follows, and that has the number reserved for a split. *)
Theorem new_database_opens (d : D) skt_id seq next_id : 0 <= next_id < 2 ^ 32 -> exists dev size n,
  BuildFirstSKTable (2 ^ k) address d skt_id seq next_id = Some (dev, size) /\ LoadSKTableDeviceFormat dev alloc (address skt_id) skt_id size = Some n /\
  Holds kMaxColumnCount kMaxKeySize n [] /\ next_skt_id_ n = 0 /\ preallocated_skt_id_ n = next_id.
Proof.
  intros Hid. destruct (first_contents_spec (2 ^ k) seq next_id align_range) as (contents & E & Hf & Hl). pose proof (first_size _ align_range). pose proof (li_max _ _ _ _ _ Hlim).
  unfold BuildFirstSKTable. rewrite E. cbn [mbind option_bind].
  set (x := {| skt_id_ := skt_id; next_id_ := 0; prealloc_id_ := next_id |}).
  assert (Sealed kMaxSKTableSize x (skt_id, contents) []) as Hse by (split; [done|by exists false|cbn [snd]; lia]).
  destruct (load_sealed Hle alloc (fun n Hn => proj1 (li_alloc _ _ _ _ _ Hlim n Hn)) address kMaxSKTableSize (size_ok _ _ _ _ _ Hlim) (EnvPut d skt_id contents) x (skt_id, contents) [] Hse)
    as (n & offs & En & HT & E1 & E2); [split; cbn; lia|cbn [snd skt_id_ x]; by rewrite get_put, Nat2Z.id, take_ge|].
  eexists _, _, n. split; [done|]. split; [exact En|]. split; [|done]. exists [], offs. split; [done|]. split; constructor.
Qed.

(** With an alignment of four bytes, a database that was created and not flushed
    cannot be recovered: its first table has 44 bytes, and a recovery takes a table of
    less than 48 bytes for corrupted. *)
Lemma new_database_not_recovered (d : D) fuel skt_id seq next_id : exists dev,
  BuildFirstSKTable 4 address d skt_id seq next_id = Some (dev, 44) /\
  LoadBeginsKeysAndCLeanupSKTableMeta (Z.of_nat kMaxSKTableSize) address fuel dev skt_id = Some (inl Corruption, dev).
Proof.
  destruct (first_contents_spec 4 seq next_id ltac:(lia)) as (contents & E & _ & Hl). change (Z.of_nat (length contents) = 44) in Hl. unfold BuildFirstSKTable. rewrite E. cbn [mbind option_bind]. rewrite Hl.
  eexists. split; [done|]. unfold LoadBeginsKeysAndCLeanupSKTableMeta. rewrite get_put, take_ge by lia. by destruct (Nat.ltb_spec (length contents) 48); [|lia].
Qed.

(** A table of which an interrupted flush was undone is recovered with the number of
    the table that follows it in the place of the number reserved for a split.  The next
    time that the table is split, the first table that is split off gets that number and
    so replaces the table that follows; if it is the only one, it is its own successor. *)
Theorem split_after_recovery_replaces_next kMax fuel (d dev : D) sktid r more deleted gen ids gen' :
  LoadBeginsKeysAndCLeanupSKTableMeta kMax address fuel d sktid = Some (inr r, dev) -> rt_cache r = Some true -> assign_ids (S more) (rt_ids r) deleted gen = (ids, gen') ->
  exists main sub rest, ids = main :: sub :: rest /\ skt_id_ sub = next_id_ (rt_ids r) /\ next_id_ main = next_id_ (rt_ids r) /\ (more = 0%nat -> next_id_ sub = skt_id_ sub).
Proof.
  intros E Hc Ei. assert (prealloc_id_ (rt_ids r) = next_id_ (rt_ids r)) as Ep.
  { unfold LoadBeginsKeysAndCLeanupSKTableMeta in E. repeat (case_match; simplify_option_eq; try done). }
  cbn [assign_ids] in Ei. rewrite Ep in Ei. destruct more as [|more]; cbn [sub_ids] in Ei.
  - injection Ei as <- <-. do 3 eexists. by split_and!.
  - destruct (sub_ids more _ _ _) as [l g]. injection Ei as <- <-. do 3 eexists. by split_and!.
Qed.
End Recovery.

(** ** Examples *)

Import Demo.
#[export] Program Instance pairs_deleting : DeletingEnv (list (Z * list Z)) := {| EnvDelete d key := List.filter (fun kv => negb (kv.1 =? key)) d |}.
Next Obligation.
  intros d key size. cbn. assert (List.find (fun kv => kv.1 =? key) (List.filter (fun kv => negb (kv.1 =? key)) d) = None) as ->; [|done].
  induction d as [|[k v] d IH]; [done|]. cbn. destruct (k =? key) eqn:E; cbn; [done|]. by rewrite E.
Qed.
Next Obligation.
  intros d key key' size Hne. cbn. f_equal. induction d as [|[k v] d IH]; [done|]. cbn. destruct (Z.eqb_spec k key) as [->|]; cbn; [|by rewrite IH].
  destruct (Z.eqb_spec key key'); [congruence|done].
Qed.

(** A hundred keys, more than a table of 4096 bytes holds. *)
Definition many_key (i : nat) : list Z := 107 :: Z.of_nat i :: replicate 38 0.
Definition many_keys : list UserKey := map (fun i => {| uk_key := many_key i; uk_dirty := true; uk_fetched := false; uk_columns := fun _ => [demo_column] |}) (seq 0 100).

Lemma small_limits : Limits 4096 1 40 2 zero_buffer.
Proof.
  assert (forall n, bytes_ok (zero_buffer n)) as Hok by (intros n; apply Forall_replicate; unfold byte_ok; lia).
  split; try lia; [by exists 1024|intros n Hn; split; [unfold zero_buffer; rewrite length_replicate; lia|done]|].
  unfold BufferOk, zero_buffer at 1 2 3. rewrite length_replicate. change (Z.of_nat (Z.to_nat (Z.of_nat kMinSKTableSize))) with 4096. split_and!; try lia; [by exists 1024|apply Hok].
Qed.

Lemma many_keys_ok : Forall (KeyOk 1 40 true) many_keys /\ ascending_keys many_keys.
Proof.
  assert (ColumnOk demo_column) by (split; cbn; lia). split.
  - unfold many_keys. apply Forall_map, Forall_seq. intros i Hi. apply KeyOk_flushed; cbn [uk_key uk_columns]; [unfold many_key; cbn [length]; rewrite length_replicate; lia| |intros _ _; split; [by constructor|cbn; lia]|done].
    unfold many_key, bytes_ok. rewrite !Forall_cons. split_and!; try (unfold byte_ok; lia). apply Forall_replicate. unfold byte_ok. lia.
  - unfold many_keys. generalize 0%nat at 1. generalize 100%nat. intros m. induction m as [|m IH]; intros a; [constructor|]. cbn [seq map]. constructor; [apply IH|].
    apply Forall_map, Forall_seq. intros i Hi. cbn [uk_key]. unfold many_key. rewrite lex_cons. apply lex_head. lia.
Qed.

Abbreviation many_flushed := (FlushTables true (2 ^ 2) zero_buffer id 4096 1 true true 101 101 [] empty_table many_keys demo_main [] 2).

Lemma many_flushed_check : match many_flushed with
  | Some fl => map fst (fl_queue fl) = [2; 1] /\ tail (fl_tables fl) !! 0%nat = Some (many_key 72, {| skt_id_ := 2; next_id_ := 0; prealloc_id_ := 4 |}) /\
      map snd (fl_tables fl) = [{| skt_id_ := 1; next_id_ := 2; prealloc_id_ := 3 |}; {| skt_id_ := 2; next_id_ := 0; prealloc_id_ := 4 |}]
  | None => False
  end.
Proof. vm_compute. repeat split; reflexivity. Qed.

Lemma many_flushed_split : exists fl, many_flushed = Some fl /\ map fst (fl_queue fl) = [2; 1] /\
  tail (fl_tables fl) !! 0%nat = Some (many_key 72, {| skt_id_ := 2; next_id_ := 0; prealloc_id_ := 4 |}) /\
  map snd (fl_tables fl) = [{| skt_id_ := 1; next_id_ := 2; prealloc_id_ := 3 |}; {| skt_id_ := 2; next_id_ := 0; prealloc_id_ := 4 |}].
Proof. pose proof many_flushed_check as Hfl. destruct many_flushed as [fl|]; [|destruct Hfl]. by exists fl. Qed.

Lemma many_ids_ok : IdsOk (length many_keys + length (@nil KeyColumns)) demo_main [] 2.
Proof. split; cbn; try lia. split; [lia|constructor]. Qed.

Lemma many_fuel : (length many_keys + length (@nil KeyColumns) < 101)%nat.
Proof. unfold many_keys. rewrite length_map, length_seq. cbn. lia. Qed.

Lemma demo_next_le : next_id_ demo_main <= 2.
Proof. cbn. lia. Qed.
Lemma demo_next_ne : next_id_ demo_main <> prealloc_id_ demo_main.
Proof. done. Qed.

(** One table was written and the main one was not. *)
Lemma interrupted_flush_undone_witness : exists fl, many_flushed = Some fl /\ map fst (fl_queue fl) = [2; 1] /\ exists s d',
  CleanupPreallocSKTable (Z.of_nat 4096) id 3 (put_all (@nil (Z * list Z)) (take 1 (fl_queue fl))) 2 0 = Some (s, d') /\ (s = None \/ s = Some NotFound) /\ same d' [].
Proof.
  destruct many_flushed_split as (fl & E & Hq & _). exists fl. split; [exact E|]. split; [exact Hq|].
  assert (length (fl_queue fl) = 2%nat) as Hl by (rewrite <- (length_map fst), Hq; reflexivity). assert (1 < length (fl_queue fl) < 3)%nat as Hl' by (rewrite Hl; clear; lia).
  exact (interrupted_flush_undone (H := demo_processor) (D := list (Z * list Z)) eq_refl 4096 1 40 2 zero_buffer small_limits true id true [] true 101 101 [] empty_table [] many_keys demo_main [] 2 fl
    empty_table_holds (proj1 many_keys_ok) (proj2 many_keys_ok) (or_intror eq_refl) many_ids_ok many_fuel many_fuel demo_next_le demo_next_ne
    (fun _ => eq_refl) (fun _ _ _ => eq_refl) E 1%nat 3%nat Hl').
Defined.

Lemma many_keys_flushed : exists key, flushed_columns many_keys [] key <> None.
Proof. exists (many_key 0). vm_compute. discriminate. Qed.

Lemma user_key_elem ukeys key u : user_key ukeys key = Some u -> u ∈ ukeys /\ uk_key u = key.
Proof.
  induction ukeys as [|u' ukeys IH]; [done|]. cbn [user_key]. case_decide as E; [|intros [? ?]%IH; split; [by right|done]]. intros [= ->]. split; [left|done].
Qed.

(** Their rows end before the 2048th byte. *)
Lemma many_keys_short key vs : flushed_columns many_keys [] key = Some vs -> (row_end (key, vs) <= 2048)%nat.
Proof.
  unfold flushed_columns. cbn [columns_of]. destruct (user_key many_keys key) as [u|] eqn:Eu; [|done]. apply user_key_elem in Eu as [Hu <-].
  unfold many_keys in Hu. apply list_elem_of_fmap in Hu as (i & -> & _). intros [= <-]. apply Nat.leb_le. vm_compute. reflexivity.
Qed.

Lemma recovery_finds_tables_witness : exists fl, many_flushed = Some fl /\ let dev := put_all (@nil (Z * list Z)) (fl_queue fl) in Forall (fun t => t.1 <> []) (tail (fl_tables fl)) /\ exists l,
  load_tables (Z.of_nat 4096) id 3 3 dev 1 = Some (inr l, dev) /\ map rt_ids l = map snd (fl_tables fl) /\ Forall (fun t => rt_begin_key t = [] /\ rt_cache t = Some false) l.
Proof.
  destruct many_flushed_split as (fl & E & Hq & _ & Hids). exists fl. split; [exact E|].
  assert (forall id, 2 < id -> absent (put_all (@nil (Z * list Z)) (fl_queue fl)) id) as Ha.
  { intros id Hid size. rewrite get_put_all_other; [reflexivity|]. rewrite Hq. rewrite !elem_of_cons, elem_of_nil. lia. }
  assert (Forall (fun x => skt_id_ x <> 0 /\ absent (put_all (@nil (Z * list Z)) (fl_queue fl)) (prealloc_id_ x)) (map snd (fl_tables fl))) as Hx.
  { rewrite Hids, Forall_cons, Forall_singleton. cbn [skt_id_ prealloc_id_]. split; (split; [lia|apply Ha; lia]). }
  assert (length (map snd (fl_tables fl)) < 3)%nat as Hl by (rewrite Hids; cbn; clear; lia).
  destruct (recovery_finds_tables (H := demo_processor) (D := list (Z * list Z)) eq_refl 4096 1 40 2 zero_buffer small_limits true id true [] 101 101 [] empty_table [] many_keys demo_main 2 fl
    empty_table_holds (proj1 many_keys_ok) (proj2 many_keys_ok) many_keys_flushed many_ids_ok many_fuel many_fuel eq_refl E Hx 3%nat 3%nat Hl) as (Hne & r & Er & [[_ (key & vs & Hk & Hlong)]|(l & -> & Hl' & Hb)]).
  - pose proof (many_keys_short key vs Hk). lia.
  - split; [exact Hne|]. exists l. exact (conj Er (conj Hl' Hb)).
Defined.

Lemma new_database_opens_witness : exists dev size n, BuildFirstSKTable (2 ^ 12) id (@nil (Z * list Z)) 1 1 2 = Some (dev, size) /\
  LoadSKTableDeviceFormat dev zero_buffer 1 1 size = Some n /\ Holds 1 40 n [] /\ next_skt_id_ n = 0 /\ preallocated_skt_id_ n = 2.
Proof. exact (new_database_opens (H := demo_processor) (D := list (Z * list Z)) eq_refl default_table_size 1 40 12 zero_buffer default_limits id [] 1 1 2 ltac:(lia)). Defined.

(** The first table with the table that a split reserved, which is all that a recovery
    finds, and then the next split. *)
Definition interrupted_device : list (Z * list Z) :=
  match first_contents 4096 id 1 2, first_contents 4096 id 1 3 with Some t1, Some t2 => [(1, t1); (2, t2)] | _, _ => [] end.

Lemma interrupted_recovered : exists dev, LoadBeginsKeysAndCLeanupSKTableMeta 8192 id 3 interrupted_device 1 =
  Some (inr {| rt_begin_key := []; rt_size := 42; rt_ids := {| skt_id_ := 1; next_id_ := 0; prealloc_id_ := 0 |}; rt_cache := Some true |}, dev) /\ map fst dev = [1].
Proof. eexists. split; vm_compute; reflexivity. Qed.

