(* ===== verification/Log.v ===== *)
(** * The write-ahead log

    kvdb's log: [log::Writer] (kvdb/db/log_writer.cc), which cuts records into
    fragments that never cross a block, and [log::Reader] (log_reader.cc), which
    puts them together again, with their shared format (log_format.h).

    The files behind them are the classes [WritableFile] and [SequentialFile]; a
    [Status] is a boolean.  Assertions are compiled out.  The log messages of the
    reader are not modelled. *)

From Stdlib Require Import ZArith Lia Bool String.
From stdpp Require Import base list.
From S2P Require Import Prelude Coding Crc32c.

Open Scope cword_scope.

(** ** The format *)

Definition kZeroType : Z := 0.
Definition kFullType : Z := 1.
Definition kFirstType : Z := 2.
Definition kMiddleType : Z := 3.
Definition kLastType : Z := 4.
Definition kRecyclableFullType : Z := 5.
Definition kRecyclableFirstType : Z := 6.
Definition kRecyclableMiddleType : Z := 7.
Definition kRecyclableLastType : Z := 8.
Definition kMaxRecordType : Z := kRecyclableLastType.

Definition kBlockSize : Z := 32768.
Definition kHeaderSize : Z := 4 + 2 + 1.
Definition kRecyclableHeaderSize : Z := 4 + 1 + 4 + 2.

(** ** The files *)

(** A file that is written: an [Append] that succeeds adds its data, one that fails
    may have added a part of it. *)
Class WritableFile (F : Type) := {
  f_data : F -> list Z;
  FAppend : F -> list Z -> bool * F;
  FFlush : F -> bool * F;
  FAppend_ok : forall f s f', FAppend f s = (true, f') -> f_data f' = f_data f ++ s;
  FAppend_part : forall f s b f', FAppend f s = (b, f') -> exists k, f_data f' = f_data f ++ take k s;
  FFlush_data : forall f b f', FFlush f = (b, f') -> f_data f' = f_data f;
}.

(** A file that is read from front to back. *)
Class SequentialFile (R : Type) := {
  r_rest : R -> list Z;
  FRead : R -> Z -> bool * list Z * R;
  FSkip : R -> Z -> bool * R;
  FRead_ok : forall r n s r', FRead r n = (true, s, r') -> s = take (Z.to_nat n) (r_rest r) /\ r_rest r' = drop (Z.to_nat n) (r_rest r);
  FSkip_ok : forall r n r', FSkip r n = (true, r') -> r_rest r' = drop (Z.to_nat n) (r_rest r);
}.

(** ** [log::Writer] *)

Record Writer (F : Type) : Type := {
  dest_ : F;
  block_offset_ : Z;
  wr_log_number_ : Z;
  recycle_log_files_ : bool;
  type_crc_ : list Z;
  manual_flush_ : bool;
}.
Arguments dest_ {F} _.
Arguments block_offset_ {F} _.
Arguments wr_log_number_ {F} _.
Arguments recycle_log_files_ {F} _.
Arguments type_crc_ {F} _.
Arguments manual_flush_ {F} _.
#[export] Instance eta_Writer F : Eta (Writer F) := fun r =>
  {| dest_ := dest_ r; block_offset_ := block_offset_ r; wr_log_number_ := wr_log_number_ r; recycle_log_files_ := recycle_log_files_ r;
     type_crc_ := type_crc_ r; manual_flush_ := manual_flush_ r |}.

Section Writer.
  Context `{Processor} `{WritableFile F}.
  (** Where a buffer lies in memory. *)
  Variable address : list Z -> Z.

(** [type_crc_[i] = crc32c::Value(&t, 1)] for the types up to [kMaxRecordType]. *)
Fixpoint type_crcs (is_ : list Z) : option (list Z) :=
  match is_ with [] => Some [] | i :: is_ => c ← Value (address [i]) [i]; r ← type_crcs is_; Some (c :: r) end.

Definition NewWriter (dest : F) (log_number : Z) (recycle_log_files manual_flush : bool) : option (Writer F) :=
  crcs ← type_crcs (map Z.of_nat (seq 0 (S (Z.to_nat kMaxRecordType))));
  Some {| dest_ := dest; block_offset_ := 0; wr_log_number_ := log_number; recycle_log_files_ := recycle_log_files;
          type_crc_ := crcs; manual_flush_ := manual_flush |}.

Definition WriteBuffer (w : Writer F) : bool * Writer F := let '(s, f) := FFlush (dest_ w) in (s, w <| dest_ := f |>).

(** The payload's part of the checksum, the header and the payload. *)
Definition write_fragment (w : Writer F) (header_size crc : Z) (buf ptr : list Z) : option (bool * Writer F) :=
  crc ← Extend (address ptr) crc ptr;
  let crc := Mask crc in
  let '(s, f) := FAppend (dest_ w) (EncodeFixed32 kLittleEndian crc ++ buf) in
  let '(s, f) :=
    if s then
      let '(s, f) := FAppend f ptr in
      if s then if negb (manual_flush_ w) then FFlush f else (s, f) else (s, f)
    else (s, f) in
  Some (s, w <| dest_ := f |> <| block_offset_ ::= fun b => b + header_size + Z.of_nat (length ptr) |>).

Definition EmitPhysicalRecord (w : Writer F) (t : Z) (ptr : list Z) : option (bool * Writer F) :=
  let n := Z.of_nat (length ptr) in
  let buf := [n & 0xff; u8 (n >> 8); t] in
  crc ← type_crc_ w !! Z.to_nat t;
  if t <? kRecyclableFullType then write_fragment w kHeaderSize crc buf ptr
  else
    let number := EncodeFixed32 kLittleEndian (u32 (wr_log_number_ w)) in
    crc ← Extend (address number) crc number;
    write_fragment w kRecyclableHeaderSize crc (buf ++ number) ptr.

(** The [do ... while] of [AddRecord]. *)
Fixpoint add_record_loop (fuel : nat) (w : Writer F) (ptr : list Z) (begin : bool) : option (bool * Writer F) :=
  match fuel with
  | O => None
  | S fuel =>
      let left := Z.of_nat (length ptr) in
      let header_size := if recycle_log_files_ w then kRecyclableHeaderSize else kHeaderSize in
      let leftover := kBlockSize - block_offset_ w in
      let w :=
        if leftover <? header_size then
          let w := if 0 <? leftover then let '(_, f) := FAppend (dest_ w) (replicate (Z.to_nat leftover) 0) in w <| dest_ := f |> else w in
          w <| block_offset_ := 0 |>
        else w in
      let avail := kBlockSize - block_offset_ w - header_size in
      let fragment_length := if left <? avail then left else avail in
      let end_ := left =? fragment_length in
      let type :=
        if begin && end_ then if recycle_log_files_ w then kRecyclableFullType else kFullType
        else if begin then if recycle_log_files_ w then kRecyclableFirstType else kFirstType
        else if end_ then if recycle_log_files_ w then kRecyclableLastType else kLastType
        else if recycle_log_files_ w then kRecyclableMiddleType else kMiddleType in
      '(s, w) ← EmitPhysicalRecord w type (take (Z.to_nat fragment_length) ptr);
      if s && (0 <? left - fragment_length) then add_record_loop fuel w (drop (Z.to_nat fragment_length) ptr) false else Some (s, w)
  end.

(** Every round but the first takes at least one byte. *)
Definition AddRecord (w : Writer F) (slice : list Z) : option (bool * Writer F) := add_record_loop (length slice + 2) w slice true.
End Writer.

(** ** [log::Reader] *)

Definition kEof : Z := kMaxRecordType + 1.
Definition kBadRecord : Z := kMaxRecordType + 2.
Definition kBadHeader : Z := kMaxRecordType + 3.
Definition kOldRecord : Z := kMaxRecordType + 4.
Definition kBadRecordLen : Z := kMaxRecordType + 5.
Definition kBadRecordChecksum : Z := kMaxRecordType + 6.

Inductive WALRecoveryMode : Type := kTolerateCorruptedTailRecords | kAbsoluteConsistency | kPointInTimeRecovery | kSkipAnyCorruptedRecords.
#[export] Instance WALRecoveryMode_eq_dec : EqDecision WALRecoveryMode.
Proof. solve_decision. Defined.

(** What the reporter was told: the bytes dropped and why. *)
Definition report : Type := (Z * string)%type.

Record Reader (R : Type) : Type := {
  file_ : R;
  reporter_ : option (list report);
  checksum_ : bool;
  buffer_ : list Z;
  eof_ : bool;
  read_error_ : bool;
  eof_offset_ : Z;
  last_record_offset_ : Z;
  end_of_buffer_offset_ : Z;
  initial_offset_ : Z;
  log_number_ : Z;
  recycled_ : bool;
}.
Arguments file_ {R} _.
Arguments reporter_ {R} _.
Arguments checksum_ {R} _.
Arguments buffer_ {R} _.
Arguments eof_ {R} _.
Arguments read_error_ {R} _.
Arguments eof_offset_ {R} _.
Arguments last_record_offset_ {R} _.
Arguments end_of_buffer_offset_ {R} _.
Arguments initial_offset_ {R} _.
Arguments log_number_ {R} _.
Arguments recycled_ {R} _.
#[export] Instance eta_Reader R : Eta (Reader R) := fun r =>
  {| file_ := file_ r; reporter_ := reporter_ r; checksum_ := checksum_ r; buffer_ := buffer_ r; eof_ := eof_ r; read_error_ := read_error_ r;
     eof_offset_ := eof_offset_ r; last_record_offset_ := last_record_offset_ r; end_of_buffer_offset_ := end_of_buffer_offset_ r;
     initial_offset_ := initial_offset_ r; log_number_ := log_number_ r; recycled_ := recycled_ r |}.

Section Reader.
  Context `{Processor} `{SequentialFile R}.
  Variable address : list Z -> Z.

Definition NewReader (file : R) (reporter : option (list report)) (checksum : bool) (initial_offset log_num : Z) : Reader R :=
  {| file_ := file; reporter_ := reporter; checksum_ := checksum; buffer_ := []; eof_ := false; read_error_ := false; eof_offset_ := 0;
     last_record_offset_ := 0; end_of_buffer_offset_ := 0; initial_offset_ := initial_offset; log_number_ := log_num; recycled_ := false |}.

Definition buffer_size (r : Reader R) : Z := Z.of_nat (length (buffer_ r)).

Definition ReportDrop (r : Reader R) (bytes : Z) (reason : string) : Reader R :=
  match reporter_ r with
  | Some l => if initial_offset_ r <=? u64 (end_of_buffer_offset_ r - buffer_size r - bytes) then r <| reporter_ := Some (l ++ [(bytes, reason)]) |> else r
  | None => r
  end.

Definition ReportCorruption (r : Reader R) (bytes : Z) (reason : string) : Reader R := ReportDrop r bytes reason.

Definition SkipToInitialBlock (r : Reader R) : bool * Reader R :=
  let initial_offset_in_block := initial_offset_ r mod kBlockSize in
  let block_start_location := initial_offset_ r - initial_offset_in_block in
  let block_start_location := if kBlockSize - 6 <? initial_offset_in_block then u64 (block_start_location + kBlockSize) else block_start_location in
  let r := r <| end_of_buffer_offset_ := block_start_location |> in
  if 0 <? block_start_location then
    let '(s, f) := FSkip (file_ r) block_start_location in
    let r := r <| file_ := f |> in
    if negb s then (false, ReportDrop r block_start_location "skip") else (true, r)
  else (true, r).

(** [ReadMore]: an error code stops the reader. *)
Definition ReadMore (r : Reader R) (drop_size : Z) : option Z * Z * Reader R :=
  if negb (eof_ r) && negb (read_error_ r) then
    let '(s, data, f) := FRead (file_ r) kBlockSize in
    let r := r <| file_ := f |> <| buffer_ := data |> in
    let r := r <| end_of_buffer_offset_ := u64 (end_of_buffer_offset_ r + buffer_size r) |> in
    if negb s then
      let r := ReportDrop (r <| buffer_ := [] |>) kBlockSize "read" in
      (Some kEof, drop_size, r <| read_error_ := true |>)
    else if buffer_size r <? kBlockSize then (None, drop_size, r <| eof_ := true |> <| eof_offset_ := buffer_size r |>)
    else (None, drop_size, r)
  else if negb (buffer_size r =? 0) then (Some kBadHeader, buffer_size r, r <| buffer_ := [] |>)
  else (Some kEof, drop_size, r <| buffer_ := [] |>).

(** A [char] as an [unsigned int]. *)
Definition char_to_unsigned (c : Z) : Z := if c <? 128 then c else c + (2 ^ 32 - 256).

(** What follows the checks on the header; [None] stands for a header that is not
    there. *)
Definition parse_record (r : Reader R) (drop_size type length_ header_size : Z) : option (Z * list Z * Z * Reader R) :=
  if buffer_size r <? header_size + length_ then
    let drop_size := buffer_size r in
    let r := r <| buffer_ := [] |> in
    if negb (eof_ r) then Some (kBadRecordLen, [], drop_size, r)
    else if negb (drop_size =? 0) then Some (kBadHeader, [], drop_size, r)
    else Some (kEof, [], drop_size, r)
  else if (type =? kZeroType) && (length_ =? 0) then Some (kBadRecord, [], drop_size, r <| buffer_ := [] |>)
  else
    let header := buffer_ r in
    damaged ← (if checksum_ r then
                 stored ← DecodeFixed32 kLittleEndian header;
                 let text := take (Z.to_nat (length_ + header_size - 6)) (drop 6 header) in
                 actual_crc ← Value (address text) text;
                 Some (negb (actual_crc =? Unmask stored))
               else Some false);
    if (damaged : bool) then Some (kBadRecordChecksum, [], buffer_size r, r <| buffer_ := [] |>)
    else
      let r := r <| buffer_ := drop (Z.to_nat (header_size + length_)) header |> in
      if u64 (end_of_buffer_offset_ r - buffer_size r - header_size - length_) <? initial_offset_ r then Some (kBadRecord, [], drop_size, r)
      else Some (type, take (Z.to_nat length_) (drop (Z.to_nat header_size) header), drop_size, r).

(** The record type or a special value, the fragment and the bytes dropped.  After
    two reads the buffer holds a block or the end of the file. *)
Fixpoint read_physical_loop (fuel : nat) (r : Reader R) (drop_size : Z) : option (Z * list Z * Z * Reader R) :=
  match fuel with
  | O => None
  | S fuel =>
      if buffer_size r <? kHeaderSize then
        match ReadMore r drop_size with
        | (Some e, drop_size, r) => Some (e, [], drop_size, r)
        | (None, drop_size, r) => read_physical_loop fuel r drop_size
        end
      else
        a ← buffer_ r !! 4%nat;
        b ← buffer_ r !! 5%nat;
        t ← buffer_ r !! 6%nat;
        let type := char_to_unsigned t in
        let length_ := a |: (b << 8) in
        if (kRecyclableFullType <=? type) && (type <=? kRecyclableLastType) then
          let r := if u64 (end_of_buffer_offset_ r - buffer_size r) =? 0 then r <| recycled_ := true |> else r in
          if buffer_size r <? kRecyclableHeaderSize then
            match ReadMore r drop_size with
            | (Some e, drop_size, r) => Some (e, [], drop_size, r)
            | (None, drop_size, r) => read_physical_loop fuel r drop_size
            end
          else
            log_num ← DecodeFixed32 kLittleEndian (drop 7 (buffer_ r));
            if negb (log_num =? log_number_ r) then Some (kOldRecord, [], drop_size, r)
            else parse_record r drop_size type length_ kRecyclableHeaderSize
        else parse_record r drop_size type length_ kHeaderSize
  end.

Definition ReadPhysicalRecord (r : Reader R) : option (Z * list Z * Z * Reader R) := read_physical_loop 3 r 0.

(** The [while (true)] of [ReadRecord]: [Some record] or the end of the log. *)
Fixpoint read_record_loop (fuel : nat) (mode : WALRecoveryMode) (r : Reader R) (in_fragmented_record : bool) (scratch : list Z)
    (prospective_record_offset : Z) : option (option (list Z) * Reader R) :=
  match fuel with
  | O => None
  | S fuel =>
      let physical_record_offset := u64 (end_of_buffer_offset_ r - buffer_size r) in
      let scratch_size := Z.of_nat (length scratch) in
      '(record_type, fragment, drop_size, r) ← ReadPhysicalRecord r;
      let fragment_size := Z.of_nat (length fragment) in
      let in_error r := if in_fragmented_record then ReportCorruption r scratch_size "error in middle of record" else r in
      let at_end r :=
        if in_fragmented_record && bool_decide (mode = kAbsoluteConsistency) then ReportCorruption r scratch_size "error reading trailing data" else r in
      if (record_type =? kFullType) || (record_type =? kRecyclableFullType) then
        let r := if in_fragmented_record && negb (scratch_size =? 0) then ReportCorruption r scratch_size "partial record without end(1)" else r in
        Some (Some fragment, r <| last_record_offset_ := physical_record_offset |>)
      else if (record_type =? kFirstType) || (record_type =? kRecyclableFirstType) then
        let r := if in_fragmented_record && negb (scratch_size =? 0) then ReportCorruption r scratch_size "partial record without end(2)" else r in
        read_record_loop fuel mode r true fragment physical_record_offset
      else if (record_type =? kMiddleType) || (record_type =? kRecyclableMiddleType) then
        if negb in_fragmented_record then
          read_record_loop fuel mode (ReportCorruption r fragment_size "missing start of fragmented record(1)") in_fragmented_record scratch prospective_record_offset
        else read_record_loop fuel mode r in_fragmented_record (scratch ++ fragment) prospective_record_offset
      else if (record_type =? kLastType) || (record_type =? kRecyclableLastType) then
        if negb in_fragmented_record then
          read_record_loop fuel mode (ReportCorruption r fragment_size "missing start of fragmented record(2)") in_fragmented_record scratch prospective_record_offset
        else Some (Some (scratch ++ fragment), r <| last_record_offset_ := prospective_record_offset |>)
      else if record_type =? kBadHeader then
        let r := if bool_decide (mode = kAbsoluteConsistency) then ReportCorruption r drop_size "truncated header" else r in
        Some (None, at_end r)
      else if record_type =? kEof then Some (None, at_end r)
      else if (record_type =? kOldRecord) && negb (bool_decide (mode = kSkipAnyCorruptedRecords)) then Some (None, at_end r)
      else if (record_type =? kOldRecord) || (record_type =? kBadRecord) then
        read_record_loop fuel mode (in_error r) false (if in_fragmented_record then [] else scratch) prospective_record_offset
      else if (record_type =? kBadRecordLen) || (record_type =? kBadRecordChecksum) then
        if recycled_ r && bool_decide (mode = kTolerateCorruptedTailRecords) then Some (None, r)
        else
          let r := ReportCorruption r drop_size (if record_type =? kBadRecordLen then "bad record length" else "checksum mismatch") in
          read_record_loop fuel mode (in_error r) false (if in_fragmented_record then [] else scratch) prospective_record_offset
      else
        let r := ReportCorruption r (fragment_size + (if in_fragmented_record then scratch_size else 0)) "unknown record type" in
        read_record_loop fuel mode r false [] prospective_record_offset
  end.

Definition ReadRecord (fuel : nat) (mode : WALRecoveryMode) (r : Reader R) : option (option (list Z) * Reader R) :=
  let '(ok, r) := if last_record_offset_ r <? initial_offset_ r then SkipToInitialBlock r else (true, r) in
  if negb ok then Some (None, r) else read_record_loop fuel mode r false [] 0.

Definition LastRecordOffset (r : Reader R) : Z := last_record_offset_ r.

Definition IsEOF (r : Reader R) : bool := eof_ r.

Definition UnmarkEOF (r : Reader R) : Reader R :=
  if read_error_ r then r else
  let r := r <| eof_ := false |> in
  if eof_offset_ r =? 0 then r else
  let remaining := kBlockSize - eof_offset_ r in
  let '(s, data, f) := FRead (file_ r) remaining in
  let added := Z.of_nat (length data) in
  let r := r <| file_ := f |> <| end_of_buffer_offset_ ::= fun e => u64 (e + added) |> in
  if negb s then
    let r := if 0 <? added then ReportDrop r added "read" else r in
    r <| read_error_ := true |>
  else
    let r := r <| buffer_ ::= fun b => b ++ data |> in
    if added <? remaining then r <| eof_ := true |> <| eof_offset_ ::= fun o => o + added |>
    else r <| eof_offset_ := 0 |>.
End Reader.
