(* ===== verification/LogSpec.v ===== *)
(** * Reading back what was written

    The layout of the log ([frags], [layout]) that [log::Writer] produces, and that
    [log::Reader] takes apart again, also when the file was cut off anywhere. *)

From Stdlib Require Import ZArith Lia Bool String.
From stdpp Require Import base list.
From S2P Require Import Prelude Coding Crc32c Log.

Open Scope cword_scope.

(** Files whose calls do not fail. *)
Class ReliableWrite (F : Type) `{WritableFile F} : Prop := {
  rw_append : forall f s, fst (FAppend f s) = true;
  rw_flush : forall f, fst (FFlush f) = true;
}.

Class ReliableRead (R : Type) `{SequentialFile R} : Prop := { rr_read : forall r n, fst (fst (FRead r n)) = true }.

(** ** The layout *)

Section Layout.
  Variable recycle : bool.
  Variable log_number : Z.

Definition header_size : Z := if recycle then kRecyclableHeaderSize else kHeaderSize.
Definition number : list Z := if recycle then le_bytes 4 (u32 log_number) else [].
Definition code (t : Z) : Z := if recycle then t + 4 else t.

Definition header (t : Z) (body : list Z) : list Z :=
  let n := Z.of_nat (length body) in
  le_bytes 4 (Mask (crc32c 0 (code t :: number ++ body))) ++ [n & 0xff; u8 (n >> 8); code t] ++ number.

Definition phys (t : Z) (body : list Z) : list Z := header t body ++ body.

Definition fragment_type (begin end_ : bool) : Z :=
  if begin && end_ then kFullType else if begin then kFirstType else if end_ then kLastType else kMiddleType.

(** The padding and the fragments of a record, from the offset [b] in a block on. *)
Definition padding (b : Z) : list Z := if kBlockSize - b <? header_size then replicate (Z.to_nat (kBlockSize - b)) 0 else [].
Definition start (b : Z) : Z := if kBlockSize - b <? header_size then 0 else b.
Definition room (b : Z) : Z := kBlockSize - start b - header_size.

Definition piece_length (b : Z) (ptr : list Z) : nat := if Z.of_nat (length ptr) <? room b then length ptr else Z.to_nat (room b).

Fixpoint layout (fuel : nat) (b : Z) (ptr : list Z) (begin : bool) : list Z * Z :=
  match fuel with
  | O => ([], b)
  | S fuel =>
      let n := piece_length b ptr in
      let piece := padding b ++ phys (fragment_type begin (length ptr =? n)%nat) (take n ptr) in
      let b' := start b + header_size + Z.of_nat n in
      if (length ptr =? n)%nat then (piece, b') else let '(rest, b'') := layout fuel b' (drop n ptr) false in (piece ++ rest, b'')
  end.

(** Rounds that are enough for a record: the first may only find room for a header. *)
Definition rounds (b : Z) (ptr : list Z) : nat := length ptr + (if room b <=? 0 then 2 else 1).

Lemma header_size_val : header_size = 7 \/ header_size = 11.
Proof. unfold header_size. destruct recycle; [by right|by left]. Qed.

Lemma start_range b : 0 <= b <= kBlockSize -> 0 <= start b <= kBlockSize - header_size.
Proof. intros Hb. unfold start. destruct header_size_val; destruct (Z.ltb_spec (kBlockSize - b) header_size); unfold kBlockSize in *; lia. Qed.

Lemma room_full : room kBlockSize = kBlockSize - header_size /\ 0 < room kBlockSize.
Proof. unfold room, start. rewrite Z.sub_diag. destruct header_size_val as [E|E]; rewrite E; done. Qed.

Lemma piece_length_le b ptr : (piece_length b ptr <= length ptr)%nat.
Proof. unfold piece_length. destruct (Z.ltb_spec (Z.of_nat (length ptr)) (room b)); lia. Qed.

Lemma piece_fits b ptr : 0 <= b <= kBlockSize -> start b + header_size + Z.of_nat (piece_length b ptr) <= kBlockSize.
Proof.
  intros Hb. pose proof (start_range b Hb). unfold piece_length. destruct (Z.ltb_spec (Z.of_nat (length ptr)) (room b)); unfold room in *; lia.
Qed.

(** A fragment that is not the last fills its block. *)
Lemma piece_full b ptr : 0 <= b <= kBlockSize -> piece_length b ptr <> length ptr ->
  start b + header_size + Z.of_nat (piece_length b ptr) = kBlockSize /\ (S (rounds kBlockSize (drop (piece_length b ptr) ptr)) <= rounds b ptr)%nat.
Proof.
  intros Hb. pose proof (start_range b Hb). destruct room_full as [_ Hf]. unfold piece_length, rounds. destruct (Z.ltb_spec (Z.of_nat (length ptr)) (room b)); [done|].
  intros Hne. rewrite length_drop. split; [unfold room in *; lia|]. rewrite (proj2 (Z.leb_gt _ _) Hf). destruct (Z.leb_spec (room b) 0); lia.
Qed.

Definition record_layout (b : Z) (record : list Z) : list Z * Z := layout (length record + 2) b record true.

(** The layout of a record, piece by piece. *)
Lemma layout_step fuel b ptr begin : layout (S fuel) b ptr begin =
  let n := piece_length b ptr in
  let piece := padding b ++ phys (fragment_type begin (length ptr =? n)%nat) (take n ptr) in
  if (length ptr =? n)%nat then (piece, start b + header_size + Z.of_nat n)
  else let '(rest, b'') := layout fuel (start b + header_size + Z.of_nat n) (drop n ptr) false in (piece ++ rest, b'').
Proof. done. Qed.

(** The offset in the block after some records. *)
Lemma record_offset b x : 0 <= b <= kBlockSize -> 0 <= snd (record_layout b x) <= kBlockSize.
Proof.
  unfold record_layout. generalize (length x + 2)%nat, true. intros fuel. revert b x. induction fuel as [|fuel IH]; intros b x begin Hb; [done|]. rewrite layout_step. cbv zeta.
  pose proof (piece_fits b x Hb) as Hfit. pose proof (start_range b Hb) as Hs. pose proof header_size_val. set (k := piece_length b x) in *.
  assert (Hk : 0 <= start b + header_size + Z.of_nat k <= kBlockSize) by lia. destruct (length x =? k)%nat; [done|].
  specialize (IH _ (drop k x) false Hk). by destruct (layout fuel _ (drop k x) false).
Qed.

Lemma record_rounds b x : (rounds b x <= length x + 2)%nat.
Proof. unfold rounds. destruct (room b <=? 0); lia. Qed.

Fixpoint log_layout (b : Z) (records : list (list Z)) : list Z * Z :=
  match records with
  | [] => ([], b)
  | r :: records => let '(x, b) := record_layout b r in let '(y, b) := log_layout b records in (x ++ y, b)
  end.
End Layout.

(** ** The writer produces it *)

Section Write.
  Context `{Processor} `{ReliableWrite F}.
  Variable address : list Z -> Z.
  Variables (recycle : bool) (log_number : Z).

Definition type_crc_ok (w : Writer F) : Prop := forall t, 0 <= t <= kMaxRecordType -> type_crc_ w !! Z.to_nat t = Some (crc32c 0 [t]).

Record WInv (w : Writer F) (b : Z) : Prop := {
  wi_off : block_offset_ w = b;
  wi_rec : recycle_log_files_ w = recycle;
  wi_num : wr_log_number_ w = log_number;
  wi_crc : type_crc_ok w;
}.

Lemma append_data f s : exists f', FAppend f s = (true, f') /\ f_data f' = f_data f ++ s.
Proof. pose proof (rw_append f s) as Hs. destruct (FAppend f s) as [b f'] eqn:E. simpl in Hs. subst b. exists f'. split; [done|]. by apply FAppend_ok. Qed.

Lemma flush_data f : exists f', FFlush f = (true, f') /\ f_data f' = f_data f.
Proof. pose proof (rw_flush f) as Hs. destruct (FFlush f) as [b f'] eqn:E. simpl in Hs. subst b. exists f'. split; [done|]. by eapply FFlush_data. Qed.

Lemma bytes_le n v : bytes_ok (le_bytes n v).
Proof. revert v. induction n as [|n IH]; intros v; constructor; [apply byte_ok_u8|apply IH]. Qed.

Lemma write_fragment_spec w b hs text buf body : WInv w b -> bytes_ok text -> bytes_ok body ->
  exists w', write_fragment address w hs (crc32c 0 text) buf body = Some (true, w') /\
    f_data (dest_ w') = f_data (dest_ w) ++ (le_bytes 4 (Mask (crc32c 0 (text ++ body))) ++ buf) ++ body /\ WInv w' (b + hs + Z.of_nat (length body)).
Proof.
  intros [Hb Hr Hn Hc] Ht Hbody. unfold write_fragment. rewrite Extend_spec by (try done; by apply crc32c_range). cbn [mbind option_bind]. rewrite crc32c_app, EncodeFixed32_le.
  destruct (append_data (dest_ w) (le_bytes 4 (Mask (crc32c 0 (text ++ body))) ++ buf)) as (f1 & E1 & D1). rewrite E1.
  destruct (append_data f1 body) as (f2 & E2 & D2). rewrite E2.
  assert (Hf : exists f3, (if negb (manual_flush_ w) then FFlush f2 else (true, f2)) = (true, f3) /\ f_data f3 = f_data f2) by (destruct (manual_flush_ w); [by exists f2|apply flush_data]).
  destruct Hf as (f3 & E3 & D3). rewrite E3. eexists. split; [done|]. split.
  - simpl. by rewrite D3, D2, D1, <- app_assoc.
  - split; simpl; [by rewrite Hb|done..].
Qed.

Lemma Emit_spec w b t body : WInv w b -> kFullType <= t <= kLastType -> bytes_ok body ->
  exists w', EmitPhysicalRecord address w (code recycle t) body = Some (true, w') /\ f_data (dest_ w') = f_data (dest_ w) ++ phys recycle log_number t body /\
    WInv w' (b + header_size recycle + Z.of_nat (length body)).
Proof.
  intros HW Ht Hbody. unfold kFullType, kLastType in Ht. assert (Hcr : 0 <= code recycle t <= kMaxRecordType).
  { unfold code, kMaxRecordType, kRecyclableLastType in *. destruct recycle; lia. }
  assert (Hcb : byte_ok (code recycle t)) by (unfold byte_ok, kMaxRecordType, kRecyclableLastType in *; lia).
  unfold EmitPhysicalRecord. rewrite (wi_crc _ _ HW _ Hcr). cbn [mbind option_bind]. unfold phys, header, number, header_size.
  destruct recycle eqn:Er; unfold code, kRecyclableFullType in *.
  - rewrite (proj2 (Z.ltb_ge _ _)) by lia. rewrite EncodeFixed32_le, (wi_num _ _ HW), Extend_spec by first [apply bytes_le|apply crc32c_range; [lia|by constructor]].
    cbn [mbind option_bind]. rewrite crc32c_app. apply write_fragment_spec; [done| |done]. constructor; [done|apply bytes_le].
  - rewrite (proj2 (Z.ltb_lt _ _)) by lia. rewrite app_nil_r. apply (write_fragment_spec w b kHeaderSize [t]); [done|by constructor|done].
Qed.

Lemma type_code begin end_ w b : WInv w b ->
  (if begin && end_ then if recycle_log_files_ w then kRecyclableFullType else kFullType
   else if begin then if recycle_log_files_ w then kRecyclableFirstType else kFirstType
   else if end_ then if recycle_log_files_ w then kRecyclableLastType else kLastType
   else if recycle_log_files_ w then kRecyclableMiddleType else kMiddleType) = code recycle (fragment_type begin end_).
Proof. intros HW. rewrite (wi_rec _ _ HW). unfold code, fragment_type. by destruct recycle, begin, end_. Qed.

Lemma fragment_type_range begin end_ : kFullType <= fragment_type begin end_ <= kLastType.
Proof. unfold fragment_type, kFullType, kFirstType, kMiddleType, kLastType. destruct begin, end_; simpl; lia. Qed.

(** The switch to a new block. *)
Lemma pad_spec w b : WInv w b -> 0 <= b <= kBlockSize ->
  let w' := if kBlockSize - block_offset_ w <? header_size recycle then
      (if 0 <? kBlockSize - block_offset_ w
       then let '(_, f) := FAppend (dest_ w) (replicate (Z.to_nat (kBlockSize - block_offset_ w)) 0) in w <| dest_ := f |> else w) <| block_offset_ := 0 |>
    else w in
  WInv w' (start recycle b) /\ f_data (dest_ w') = f_data (dest_ w) ++ padding recycle b.
Proof.
  intros HW Hb. pose proof HW as [Ho Hr Hn Hc]. rewrite Ho. unfold start, padding. destruct (Z.ltb_spec (kBlockSize - b) (header_size recycle)); [|by rewrite app_nil_r].
  destruct (Z.ltb_spec 0 (kBlockSize - b)).
  - destruct (append_data (dest_ w) (replicate (Z.to_nat (kBlockSize - b)) 0)) as (f & E & D). rewrite E. split; [by split|done].
  - replace (Z.to_nat (kBlockSize - b)) with 0%nat by lia. rewrite app_nil_r. split; [by split|done].
Qed.

Lemma layout_spec fuel : forall w b ptr begin, WInv w b -> 0 <= b <= kBlockSize -> bytes_ok ptr -> (rounds recycle b ptr <= fuel)%nat ->
  let '(bytes, b') := layout recycle log_number fuel b ptr begin in
  exists w', add_record_loop address fuel w ptr begin = Some (true, w') /\ f_data (dest_ w') = f_data (dest_ w) ++ bytes /\ WInv w' b' /\ 0 <= b' <= kBlockSize.
Proof.
  induction fuel as [|fuel IH]; intros w b ptr begin HW Hb Hp Hf; [unfold rounds in Hf; destruct (room recycle b <=? 0); lia|]. cbn [add_record_loop layout].
  destruct (pad_spec w b HW Hb) as [HW1 HD1]. fold (header_size recycle) in *. rewrite (wi_rec _ _ HW). fold (header_size recycle).
  match type of HW1 with WInv ?x _ => set (w1 := x) in * end. cbv zeta. rewrite (wi_off _ _ HW1). fold (room recycle b).
  pose proof (piece_fits recycle b ptr Hb) as Hfit. pose proof (piece_length_le recycle b ptr) as Hle.
  assert (Hn : (if Z.of_nat (length ptr) <? room recycle b then Z.of_nat (length ptr) else room recycle b) = Z.of_nat (piece_length recycle b ptr)).
  { unfold piece_length. pose proof (start_range recycle b Hb). destruct (Z.ltb_spec (Z.of_nat (length ptr)) (room recycle b)); unfold room in *; lia. }
  rewrite Hn, Nat2Z.id. set (n := piece_length recycle b ptr) in *.
  assert (He : (Z.of_nat (length ptr) =? Z.of_nat n) = (length ptr =? n)%nat) by (destruct (Z.eqb_spec (Z.of_nat (length ptr)) (Z.of_nat n)), (Nat.eqb_spec (length ptr) n); lia || done).
  rewrite He, (type_code begin _ w1 _ HW1).
  destruct (Emit_spec w1 (start recycle b) (fragment_type begin (length ptr =? n)%nat) (take n ptr) HW1 (fragment_type_range _ _)) as (w2 & E2 & D2 & HW2); [by apply bytes_ok_take|].
  rewrite E2. cbn [mbind option_bind andb]. rewrite length_take, Nat.min_l in HW2 by done. rewrite HD1, <- app_assoc in D2.
  destruct (Nat.eqb_spec (length ptr) n) as [E|E].
  - rewrite (proj2 (Z.ltb_ge _ _)) by lia. exists w2. pose proof (start_range recycle b Hb). destruct (header_size_val recycle). all: split; [done|split; [done|split; [done|lia]]].
  - rewrite (proj2 (Z.ltb_lt _ _)) by lia. destruct (piece_full recycle b ptr Hb ltac:(lia)) as [Hfull Hr]. fold n in Hfull, Hr. rewrite Hfull in *.
    specialize (IH w2 kBlockSize (drop n ptr) false HW2 ltac:(unfold kBlockSize; lia) (bytes_ok_drop n ptr Hp) ltac:(lia)).
    destruct (layout recycle log_number fuel kBlockSize (drop n ptr) false) as [rest b'']. destruct IH as (w3 & E3 & D3 & HW3 & Hb3).
    exists w3. split; [done|]. split; [by rewrite D3, D2, <- app_assoc|done].
Qed.

Lemma AddRecord_spec w b record : WInv w b -> 0 <= b <= kBlockSize -> bytes_ok record ->
  let '(bytes, b') := record_layout recycle log_number b record in
  exists w', AddRecord address w record = Some (true, w') /\ f_data (dest_ w') = f_data (dest_ w) ++ bytes /\ WInv w' b' /\ 0 <= b' <= kBlockSize.
Proof. intros HW Hb Hr. apply layout_spec; [done..|]. unfold rounds. destruct (room recycle b <=? 0); lia. Qed.

Lemma type_crcs_spec is_ : bytes_ok is_ -> type_crcs address is_ = Some (map (fun i => crc32c 0 [i]) is_).
Proof.
  induction 1 as [|i is_ Hi His IH]; [done|]. cbn [type_crcs map]. unfold Value. rewrite Extend_spec by (lia || by constructor). cbn [mbind option_bind]. by rewrite IH.
Qed.

Lemma NewWriter_spec f manual_flush : exists w, NewWriter address f log_number recycle manual_flush = Some w /\ WInv w 0 /\ dest_ w = f.
Proof.
  unfold NewWriter. rewrite type_crcs_spec by (repeat constructor; unfold byte_ok; lia). eexists. split; [done|]. split; [|done]. split; [done..|].
  intros t Ht. simpl. unfold kMaxRecordType, kRecyclableLastType in Ht.
  assert (Hcases : t = 0 \/ t = 1 \/ t = 2 \/ t = 3 \/ t = 4 \/ t = 5 \/ t = 6 \/ t = 7 \/ t = 8) by lia.
  destruct Hcases as [->|[->|[->|[->|[->|[->|[->|[->| ->]]]]]]]]; done.
Qed.

(** All records, one after the other. *)
Fixpoint write_all (w : Writer F) (records : list (list Z)) : option (Writer F) :=
  match records with
  | [] => Some w
  | r :: records => '(s, w) ← AddRecord address w r; if (s : bool) then write_all w records else None
  end.

Lemma write_all_spec records : forall w b, WInv w b -> 0 <= b <= kBlockSize -> Forall bytes_ok records ->
  exists w', write_all w records = Some w' /\ f_data (dest_ w') = f_data (dest_ w) ++ fst (log_layout recycle log_number b records).
Proof.
  induction records as [|r records IH]; intros w b HW Hb Hrs; [exists w; simpl; by rewrite app_nil_r|]. apply Forall_cons in Hrs as [Hr Hrs].
  cbn [write_all log_layout]. pose proof (AddRecord_spec w b r HW Hb Hr) as Ha. destruct (record_layout recycle log_number b r) as [x b1].
  destruct Ha as (w1 & E1 & D1 & HW1 & Hb1). rewrite E1. cbn [mbind option_bind]. destruct (IH w1 b1 HW1 Hb1 Hrs) as (w2 & E2 & D2). exists w2.
  split; [done|]. destruct (log_layout recycle log_number b1 records) as [y b2]. simpl in *. by rewrite D2, D1, app_assoc.
Qed.
End Write.

(** ** The reader takes it apart *)

Section Read.
  Context `{Processor} `{ReliableRead R}.
  Variable address : list Z -> Z.
  Variables (recycle : bool) (log_number : Z).
  Hypothesis Hnumber : recycle = true -> 0 <= log_number < 2 ^ 32.
  (** The whole file, and what the reporter knows. *)
  Variable F : list Z.
  Variable rep : option (list report).
  (** The size of a block. *)
  Variable B : nat.
  Hypothesis HB : Z.of_nat B = kBlockSize.

(** The buffer ends at the position [be], a block's end or beyond the file's; the
    reader is at [pos]. *)
Record At (r : Reader R) (pos be : nat) : Prop := {
  at_buf : buffer_ r = take (be - pos) (drop pos F);
  at_rest : r_rest (file_ r) = drop be F;
  at_eof : eof_ r = bool_decide (length F < be)%nat;
  at_pos : (pos <= be)%nat /\ (pos <= length F)%nat;
  at_err : read_error_ r = false;
  at_init : initial_offset_ r = 0;
  at_num : log_number_ r = log_number;
  at_rep : reporter_ r = rep;
  at_last : 0 <= last_record_offset_ r;
  at_off : eof_offset_ r = if decide (length F < be)%nat then Z.of_nat (length F) - (Z.of_nat be - kBlockSize) else 0;
}.

Lemma at_size r pos be : At r pos be -> buffer_size r = Z.of_nat (min be (length F) - pos).
Proof. intros HA. unfold buffer_size. rewrite (at_buf _ _ _ HA), length_take, length_drop. f_equal. lia. Qed.

Lemma read_data (f : R) n : exists f', FRead f n = (true, take (Z.to_nat n) (r_rest f), f') /\ r_rest f' = drop (Z.to_nat n) (r_rest f).
Proof.
  pose proof (rr_read f n) as Hs. destruct (FRead f n) as [[b d] f'] eqn:E. simpl in Hs. subst b. destruct (FRead_ok f n d f' E) as [-> Hr]. by exists f'.
Qed.

(** The next block. *)
Lemma ReadMore_next r pos be d : At r pos be -> (be <= length F)%nat -> exists r', ReadMore r d = (None, d, r') /\ At r' be (be + B).
Proof.
  intros HA Hbe. destruct (read_data (file_ r) kBlockSize) as (f & E & Er). rewrite <- HB, Nat2Z.id in E, Er.
  rewrite (at_rest _ _ _ HA) in E, Er. rewrite drop_drop in Er.
  unfold ReadMore. rewrite (at_eof _ _ _ HA), (at_err _ _ _ HA), bool_decide_false by lia. cbn [negb andb]. rewrite <- HB, E. cbv zeta. cbn [negb].
  set (r1 := r <| file_ := f |> <| buffer_ := take B (drop be F) |>).
  set (r2 := r1 <| end_of_buffer_offset_ := u64 (end_of_buffer_offset_ r1 + buffer_size r1) |>).
  assert (Hsz : buffer_size r2 = Z.of_nat (min (be + B) (length F) - be)) by (unfold buffer_size; simpl; rewrite length_take, length_drop; f_equal; lia).
  rewrite Hsz. pose proof HA as [A1 A2 A3 [A4 A4'] A5 A6 A7 A8 A9 A10].
  destruct (Z.ltb_spec (Z.of_nat (min (be + B) (length F) - be)) (Z.of_nat B)) as [Hlt|Hge]; eexists; (split; [reflexivity|]); split; simpl; try done.
  - by replace (be + B - be)%nat with B by lia.
  - by rewrite bool_decide_true by lia.
  - lia.
  - transitivity (buffer_size r2); [done|]. rewrite Hsz, decide_True by lia. lia.
  - by replace (be + B - be)%nat with B by lia.
  - rewrite A3, !bool_decide_false by lia. done.
  - lia.
  - rewrite A10, !decide_False by lia. done.
Qed.

(** The end of the file. *)
Lemma ReadMore_end r pos be d : At r pos be -> (length F < be)%nat -> exists e d' r', ReadMore r d = (Some e, d', r') /\ (e = kEof \/ e = kBadHeader) /\ At r' (length F) be.
Proof.
  intros HA Hbe. unfold ReadMore. rewrite (at_eof _ _ _ HA), bool_decide_true by lia. cbn [negb andb]. pose proof HA as [A1 A2 A3 [A4 A4'] A5 A6 A7 A8 A9 A10].
  assert (HA' : At (r <| buffer_ := [] |>) (length F) be).
  { split; simpl; try done; [|lia]. by rewrite drop_all, take_nil. }
  destruct (negb (buffer_size r =? 0)); do 3 eexists; (split; [reflexivity|]); auto.
Qed.

(** ** One fragment *)

Lemma number_length : Z.of_nat (length (number recycle log_number)) = header_size recycle - 7.
Proof. unfold number, header_size. destruct recycle; [by rewrite length_le_bytes|done]. Qed.

Lemma phys_shape t body tl : exists c0 c1 c2 c3, c0 :: c1 :: c2 :: [c3] = le_bytes 4 (Mask (crc32c 0 (code recycle t :: number recycle log_number ++ body))) /\
  phys recycle log_number t body ++ tl = c0 :: c1 :: c2 :: c3 :: (Z.of_nat (length body) & 0xff) :: u8 (Z.of_nat (length body) >> 8) :: code recycle t ::
    number recycle log_number ++ body ++ tl.
Proof. unfold phys, header. do 4 eexists. split; [reflexivity|]. cbn [le_bytes app]. by rewrite <- !app_assoc. Qed.

Lemma phys_length t body : Z.of_nat (length (phys recycle log_number t body)) = header_size recycle + Z.of_nat (length body).
Proof.
  destruct (phys_shape t body []) as (c0 & c1 & c2 & c3 & _ & E). rewrite app_nil_r in E. rewrite E. cbn [length]. rewrite !length_app. pose proof number_length. simpl. lia.
Qed.

Lemma length_bytes n : 0 <= n < 65536 -> (n & 0xff) |: (u8 (n >> 8) << 8) = n.
Proof.
  intros Hn. change 0xff with (Z.ones 8). rewrite Z.land_ones by lia. rewrite lor_disjoint_add by (lia || (apply Z.mod_pos_bound; lia)).
  rewrite Z.shiftr_div_pow2 by lia. unfold u8. rewrite wrap_small; [|split; [apply Z.div_pos; lia|apply Z.div_lt_upper_bound; lia]].
  pose proof (Z.div_mod n (2 ^ 8) ltac:(lia)). lia.
Qed.

Lemma code_small t : kFullType <= t <= kLastType -> byte_ok (code recycle t) /\ char_to_unsigned (code recycle t) = code recycle t /\
  (kRecyclableFullType <=? code recycle t) && (code recycle t <=? kRecyclableLastType) = recycle /\ (code recycle t =? kZeroType) = false.
Proof.
  unfold kFullType, kLastType, code, char_to_unsigned, byte_ok, kRecyclableFullType, kRecyclableLastType, kZeroType. intros Ht.
  assert (Hc : t = 1 \/ t = 2 \/ t = 3 \/ t = 4) by lia. destruct recycle, Hc as [->|[->|[->| ->]]]; cbv; intuition congruence.
Qed.

Lemma At_recycled r pos be (c : bool) : At r pos be -> At (if c then r <| recycled_ := true |> else r) pos be.
Proof. intros HA. destruct c; [|done]. destruct HA. by split. Qed.

Lemma At_skip r pos be n : At r pos be -> (pos + n <= be)%nat -> (pos + n <= length F)%nat -> At (r <| buffer_ := drop n (buffer_ r) |>) (pos + n) be.
Proof.
  intros [A1 A2 A3 A4 A5 A6 A7 A8 A9 A10] Hbe HF. split; simpl; try done. rewrite A1, <- drop_drop. rewrite (take_drop_commute (drop pos F)). f_equal. f_equal. lia.
Qed.

Lemma parse_ok r pos be d t body tl : At r pos be -> kFullType <= t <= kLastType -> bytes_ok body -> Z.of_nat (length body) < 65536 ->
  buffer_ r = phys recycle log_number t body ++ tl -> exists r',
  parse_record address r d (code recycle t) (Z.of_nat (length body)) (header_size recycle) = Some (code recycle t, body, d, r') /\
  At r' (pos + length (phys recycle log_number t body)) be.
Proof.
  intros HA Ht Hb Hlen Hbuf. pose proof (phys_length t body) as Hpl. pose proof number_length as Hnl. pose proof (header_size_val recycle) as Hhs.
  destruct (code_small t Ht) as (Hcb & _ & _ & Hz). assert (Hsz : buffer_size r = Z.of_nat (length (phys recycle log_number t body)) + Z.of_nat (length tl)).
  { unfold buffer_size. rewrite Hbuf, length_app. lia. }
  unfold parse_record. rewrite (proj2 (Z.ltb_ge _ _)), Hz by lia. cbn [andb].
  destruct (phys_shape t body tl) as (c0 & c1 & c2 & c3 & Ec & Es). set (text := code recycle t :: number recycle log_number ++ body) in *.
  assert (Htext : take (Z.to_nat (Z.of_nat (length body) + header_size recycle - 6)) (drop 6 (buffer_ r)) = text).
  { rewrite Hbuf, Es. cbn [drop]. unfold text. rewrite app_assoc. change (code recycle t :: (number recycle log_number ++ body) ++ tl) with ((code recycle t :: number recycle log_number ++ body) ++ tl).
    apply take_app_exact. cbn [length]. rewrite length_app. lia. }
  assert (Hnum : bytes_ok (number recycle log_number)) by (unfold number; destruct recycle; [apply bytes_le|constructor]).
  assert (Htb : bytes_ok text) by (constructor; [done|by apply Forall_app]).
  assert (Hchk : (if checksum_ r then stored ← DecodeFixed32 kLittleEndian (buffer_ r); actual_crc ← Value (address text) text; Some (negb (actual_crc =? Unmask stored))
                  else Some false) = Some false).
  { destruct (checksum_ r); [|done]. rewrite Hbuf, Es. change (c0 :: c1 :: c2 :: c3 :: ?x) with ((c0 :: c1 :: c2 :: [c3]) ++ x). rewrite Ec.
    rewrite <- (EncodeFixed32_le kLittleEndian), DecodeFixed32_app. cbn [mbind option_bind]. unfold Value. rewrite Extend_spec by (done || lia). cbn [mbind option_bind].
    pose proof (Mask_range (crc32c 0 text)). unfold u32. rewrite wrap_small, Unmask_Mask by (try done; apply crc32c_range; done || lia). by rewrite Z.eqb_refl. }
  cbv zeta. rewrite Htext, Hchk. cbn [mbind option_bind].
  match goal with |- context [_ <? initial_offset_ ?x] => change (initial_offset_ x) with (initial_offset_ r) end. rewrite (at_init _ _ _ HA).
  match goal with |- context [u64 ?x <? 0] => pose proof (wrap_range 64 x ltac:(lia)) as Hu end. unfold u64 at 1. rewrite (proj2 (Z.ltb_ge _ _)) by lia.
  assert (Hk : Z.to_nat (header_size recycle + Z.of_nat (length body)) = length (phys recycle log_number t body)) by lia. rewrite Hk.
  eexists. split.
  - do 4 f_equal. rewrite Hbuf, Es. assert (Eh : Z.to_nat (header_size recycle) = (7 + length (number recycle log_number))%nat) by lia. rewrite Eh.
    cbn [Nat.add drop]. rewrite drop_app_length. apply take_app_exact. lia.
  - apply At_skip; [done|..]; pose proof (at_size r pos be HA); pose proof (at_pos _ _ _ HA); rewrite Hsz in *; lia.
Qed.

Lemma number_decode tl : recycle = true -> DecodeFixed32 kLittleEndian (number recycle log_number ++ tl) = Some log_number.
Proof.
  intros E. unfold number. rewrite E. rewrite <- (EncodeFixed32_le kLittleEndian), DecodeFixed32_app. f_equal. specialize (Hnumber E). unfold u32. by rewrite (wrap_small 32 log_number), (wrap_small 32 log_number).
Qed.

(** Take the branch of the log's format. *)
Ltac choose_recycle :=
  match goal with
  | E : recycle = true |- context [if recycle then ?x else ?y] => replace (if recycle then x else y) with x by (by rewrite E)
  | E : recycle = false |- context [if recycle then ?x else ?y] => replace (if recycle then x else y) with y by (by rewrite E)
  end.

(** A fragment that is in the buffer. *)
Lemma frag_loaded fuel r pos be d t body tl : At r pos be -> kFullType <= t <= kLastType -> bytes_ok body ->
  drop pos F = phys recycle log_number t body ++ tl -> (pos + length (phys recycle log_number t body) <= be)%nat -> Z.of_nat (length body) < 65536 -> exists r',
  read_physical_loop address (S fuel) r d = Some (code recycle t, body, d, r') /\ At r' (pos + length (phys recycle log_number t body)) be.
Proof.
  intros HA Ht Hb HF Hbe Hlen. pose proof (phys_length t body) as Hpl. pose proof (header_size_val recycle) as Hhs. destruct (code_small t Ht) as (_ & Hcu & Hrc & _).
  assert (Hbuf : buffer_ r = phys recycle log_number t body ++ take (be - pos - length (phys recycle log_number t body)) tl).
  { rewrite (at_buf _ _ _ HA), HF, take_app_ge by lia. done. }
  destruct (phys_shape t body (take (be - pos - length (phys recycle log_number t body)) tl)) as (c0 & c1 & c2 & c3 & _ & Es).
  assert (Hsz : header_size recycle <= buffer_size r) by (unfold buffer_size; rewrite Hbuf, length_app; lia).
  cbn [read_physical_loop]. rewrite (proj2 (Z.ltb_ge _ _)) by (unfold kHeaderSize; lia). rewrite Hbuf, Es. cbn [lookup list_lookup mbind option_bind].
  rewrite Hcu, Hrc, length_bytes by lia. destruct (bool_dec recycle true) as [Er|Er%not_true_is_false].
  - assert (Hh : header_size recycle = kRecyclableHeaderSize) by (by rewrite Er). rewrite Hh in *. choose_recycle.
    match goal with |- context [if ?c then r <| recycled_ := true |> else r] => pose proof (At_recycled r pos be c HA) as HA1; set (r1 := if c then _ else _) in * end.
    assert (Hb1 : buffer_ r1 = buffer_ r) by (unfold r1; by destruct (u64 _ =? 0)). unfold buffer_size in *. rewrite Hb1.
    rewrite (proj2 (Z.ltb_ge _ _)) by lia. rewrite Hbuf, Es. cbn [drop]. rewrite drop_0, number_decode by done. cbn [mbind option_bind].
    rewrite (at_num _ _ _ HA1), Z.eqb_refl. cbn [negb]. rewrite <- Hh. eapply parse_ok; try done. by rewrite Hb1.
  - assert (Hh : header_size recycle = kHeaderSize) by (by rewrite Er). choose_recycle. rewrite <- Hh. by eapply parse_ok.
Qed.

(** The reader stops at the end of the file. *)
Definition stops (fuel : nat) (r : Reader R) (d : Z) : Prop := exists e d' r',
  read_physical_loop address fuel r d = Some (e, [], d', r') /\ (e = kEof \/ e = kBadHeader) /\ reporter_ r' = rep.

Lemma stops_short fuel r pos be d : At r pos be -> (length F < be)%nat -> buffer_size r < 7 -> stops (S fuel) r d.
Proof.
  intros HA Hbe Hsz. destruct (ReadMore_end r pos be d HA Hbe) as (e & d' & r' & E & He & HA'). exists e, d', r'. cbn [read_physical_loop]. unfold kHeaderSize.
  rewrite (proj2 (Z.ltb_lt _ _)) by lia. rewrite E. split; [done|]. split; [done|apply HA'].
Qed.

Lemma parse_cut r pos be d t n hs : At r pos be -> (length F < be)%nat -> buffer_size r < hs + n -> 0 < buffer_size r -> exists r' d',
  parse_record address r d t n hs = Some (kBadHeader, [], d', r') /\ reporter_ r' = rep.
Proof.
  intros HA Hbe Hsz Hpos. unfold parse_record. rewrite (proj2 (Z.ltb_lt _ _)) by lia. cbv zeta.
  match goal with |- context [eof_ ?x] => change (eof_ x) with (eof_ r) end. rewrite (at_eof _ _ _ HA), bool_decide_true by done. cbn [negb].
  rewrite (proj2 (Z.eqb_neq _ _)) by lia. cbn [negb]. do 2 eexists. split; [done|]. apply HA.
Qed.

(** A fragment that was cut off. *)
Lemma frag_cut fuel r pos be d t body m : At r pos be -> kFullType <= t <= kLastType -> (m < length (phys recycle log_number t body))%nat ->
  drop pos F = take m (phys recycle log_number t body) -> (pos + length (phys recycle log_number t body) <= be)%nat -> Z.of_nat (length body) < 65536 ->
  stops (S fuel) r d.
Proof.
  intros HA Ht Hm HF Hbe Hlen. pose proof (phys_length t body) as Hpl. pose proof (header_size_val recycle) as Hhs. destruct (code_small t Ht) as (_ & Hcu & Hrc & _).
  pose proof (at_pos _ _ _ HA) as [Hp1 Hp2]. assert (HFl : length F = (pos + m)%nat) by (apply (f_equal length) in HF; rewrite length_drop, length_take in HF; lia).
  assert (Hbuf : buffer_ r = take m (phys recycle log_number t body)) by (rewrite (at_buf _ _ _ HA), HF, take_take; f_equal; lia).
  assert (Hsz : buffer_size r = Z.of_nat m) by (unfold buffer_size; rewrite Hbuf, length_take; f_equal; lia).
  destruct (decide (m < 7)%nat); [apply (stops_short fuel r pos be); done || lia|].
  destruct (phys_shape t body []) as (c0 & c1 & c2 & c3 & _ & Es). rewrite app_nil_r in Es. rewrite Es in Hbuf.
  replace m with (7 + (m - 7))%nat in Hbuf by lia. cbn [Nat.add take] in Hbuf. unfold stops. cbn [read_physical_loop].
  rewrite (proj2 (Z.ltb_ge _ _)) by (unfold kHeaderSize; lia). rewrite Hbuf. cbn [lookup list_lookup mbind option_bind]. rewrite Hcu, Hrc, length_bytes by lia.
  destruct (bool_dec recycle true) as [Er|Er%not_true_is_false].
  - assert (Hh : header_size recycle = kRecyclableHeaderSize) by (by rewrite Er). rewrite Hh in *. choose_recycle.
    match goal with |- context [if ?c then r <| recycled_ := true |> else r] => pose proof (At_recycled r pos be c HA) as HA1; set (r1 := if c then _ else _) in * end.
    assert (Hb1 : buffer_ r1 = buffer_ r) by (unfold r1; by destruct (u64 _ =? 0)). assert (Hs1 : buffer_size r1 = Z.of_nat m) by (rewrite <- Hsz; unfold buffer_size; by rewrite Hb1).
    rewrite Hs1. destruct (Z.ltb_spec (Z.of_nat m) kRecyclableHeaderSize) as [Hm1|Hm1].
    + destruct (ReadMore_end r1 pos be d HA1 ltac:(lia)) as (e & d' & r' & E & He & HA'). rewrite E. exists e, d', r'. split; [done|]. split; [done|apply HA'].
    + rewrite Hb1, Hbuf. cbn [drop]. rewrite drop_0.
      assert (Hnl := number_length). rewrite Hh in Hnl. unfold kRecyclableHeaderSize in *. rewrite take_app_ge by lia. rewrite number_decode by done. cbn [mbind option_bind].
      rewrite (at_num _ _ _ HA1), Z.eqb_refl. cbn [negb]. destruct (parse_cut r1 pos be d (code recycle t) (Z.of_nat (length body)) 11 HA1) as (r' & d' & E & Hr); [lia..|].
      exists kBadHeader, d', r'. auto.
  - assert (Hh : header_size recycle = kHeaderSize) by (by rewrite Er). choose_recycle. unfold kHeaderSize in *.
    destruct (parse_cut r pos be d (code recycle t) (Z.of_nat (length body)) 7 HA) as (r' & d' & E & Hr); [lia..|]. exists kBadHeader, d', r'. auto.
Qed.

(** ** Blocks *)

(** The offset [b] in the writer's block is the reader's [pos]. *)
Definition In_block (b : Z) (pos be : nat) : Prop := Z.of_nat be = Z.of_nat pos - b + kBlockSize \/ (b = 0 /\ be = pos).

(** At the end of a block the next one is read. *)
Lemma next_block fuel r pos be d : At r pos be -> (be <= length F)%nat -> buffer_size r < 7 -> exists r',
  read_physical_loop address (S fuel) r d = read_physical_loop address fuel r' d /\ At r' be (be + B).
Proof.
  intros HA Hbe Hsz. destruct (ReadMore_next r pos be d HA Hbe) as (r' & E & HA'). exists r'. split; [|done]. cbn [read_physical_loop].
  rewrite (proj2 (Z.ltb_lt _ _)) by (unfold kHeaderSize; lia). by rewrite E.
Qed.

Lemma next_frag fuel r pos be d t body tl : At r pos be -> (be <= length F)%nat -> buffer_size r < 7 -> kFullType <= t <= kLastType -> bytes_ok body ->
  header_size recycle + Z.of_nat (length body) <= kBlockSize -> drop be F = phys recycle log_number t body ++ tl -> exists r',
  read_physical_loop address (S (S fuel)) r d = Some (code recycle t, body, d, r') /\ At r' (be + length (phys recycle log_number t body)) (be + B).
Proof.
  intros HA Hbe Hsz Ht Hb Hlen HF. destruct (next_block (S fuel) r pos be d HA Hbe Hsz) as (r1 & -> & HA1).
  pose proof (phys_length t body). pose proof (header_size_val recycle). unfold kBlockSize in *. apply (frag_loaded fuel r1 be (be + B) d t body tl); done || lia.
Qed.

Lemma next_cut fuel r pos be d t body m : At r pos be -> (be <= length F)%nat -> buffer_size r < 7 -> kFullType <= t <= kLastType ->
  header_size recycle + Z.of_nat (length body) <= kBlockSize -> (m < length (phys recycle log_number t body))%nat ->
  drop be F = take m (phys recycle log_number t body) -> stops (S (S fuel)) r d.
Proof.
  intros HA Hbe Hsz Ht Hlen Hm HF. destruct (next_block (S fuel) r pos be d HA Hbe Hsz) as (r1 & E & HA1). unfold stops. rewrite E.
  pose proof (phys_length t body). pose proof (header_size_val recycle). unfold kBlockSize in *. apply (frag_cut fuel r1 be (be + B) d t body m); done || lia.
Qed.

(** A trailer that is long enough for a header looks like an empty record. *)
Lemma zeros_read fuel r pos be d k : At r pos be -> buffer_ r = replicate k 0 -> (7 <= k)%nat ->
  read_physical_loop address (S fuel) r d = Some (kBadRecord, [], d, r <| buffer_ := [] |>).
Proof.
  intros HA Hbuf Hk. assert (Hsz : buffer_size r = Z.of_nat k) by (unfold buffer_size; by rewrite Hbuf, length_replicate). cbn [read_physical_loop].
  rewrite (proj2 (Z.ltb_ge _ _)) by (unfold kHeaderSize; lia). rewrite Hbuf, !lookup_replicate_2 by lia. cbn [mbind option_bind].
  change (char_to_unsigned 0) with 0. change (0 |: (0 << 8)) with 0. cbn [Z.leb Z.compare andb kRecyclableFullType]. unfold parse_record.
  rewrite (proj2 (Z.ltb_ge _ _)) by (unfold kHeaderSize; lia). done.
Qed.

Lemma At_clear r pos be : At r pos be -> At (r <| buffer_ := [] |>) (min be (length F)) be.
Proof.
  intros [A1 A2 A3 [A4 A4'] A5 A6 A7 A8 A9 A10]. split; simpl; try done; [|lia]. destruct (decide (be <= length F)%nat).
  - by rewrite Nat.min_l, Nat.sub_diag by lia.
  - by rewrite Nat.min_r, drop_all, take_nil by lia.
Qed.

(** What the reader makes of the padding and a fragment. *)
Lemma item_read r pos be b t body tl : At r pos be -> In_block b pos be -> 0 <= b <= kBlockSize -> kFullType <= t <= kLastType -> bytes_ok body ->
  start recycle b + header_size recycle + Z.of_nat (length body) <= kBlockSize ->
  drop pos F = padding recycle b ++ phys recycle log_number t body ++ tl ->
  (exists r' be', ReadPhysicalRecord address r = Some (code recycle t, body, 0, r') /\
     At r' (pos + length (padding recycle b ++ phys recycle log_number t body)) be' /\
     In_block (start recycle b + header_size recycle + Z.of_nat (length body)) (pos + length (padding recycle b ++ phys recycle log_number t body)) be') \/
  (exists r', ReadPhysicalRecord address r = Some (kBadRecord, [], 0, r') /\ At r' be be /\ be = (pos + length (padding recycle b))%nat /\ (7 <= length (padding recycle b))%nat).
Proof.
  intros HA HI Hb Ht Hbody Hfit HF. pose proof (phys_length t body) as Hpl. pose proof (header_size_val recycle) as Hhs. pose proof (at_size r pos be HA) as Hsz.
  pose proof (at_pos _ _ _ HA) as [Hp1 Hp2]. assert (HFl := f_equal length HF). rewrite length_drop, !length_app in HFl. unfold ReadPhysicalRecord, In_block in *.
  unfold padding, start in *. destruct (Z.ltb_spec (kBlockSize - b) (header_size recycle)) as [Hs|Hs].
  - assert (Hbe : be = (pos + Z.to_nat (kBlockSize - b))%nat) by (unfold kBlockSize in *; lia). rewrite length_replicate in HFl.
    assert (HF' : drop be F = phys recycle log_number t body ++ tl) by (rewrite Hbe, <- drop_drop, HF; apply drop_app_exact, length_replicate).
    destruct (decide (be - pos < 7)%nat) as [H7|H7].
    + left. destruct (next_frag 1 r pos be 0 t body tl HA) as (r' & E & HA'); [lia|lia|done|done|lia|done|]. exists r', (be + B)%nat.
      rewrite length_app, length_replicate, Nat.add_assoc, <- Hbe. split; [done|]. split; [done|]. left. lia.
    + right. eexists. split; [apply (zeros_read 2 r pos be 0 (be - pos)); [done| |lia]|].
      * rewrite (at_buf _ _ _ HA), HF. rewrite take_app_length' by (rewrite length_replicate; lia). f_equal. lia.
      * rewrite length_replicate. pose proof (At_clear r pos be HA) as HA'. rewrite Nat.min_l in HA' by lia. split; [done|]. lia.
  - left. rewrite app_nil_l in *. destruct HI as [HI|[-> ->]].
    + destruct (frag_loaded 2 r pos be 0 t body tl HA Ht Hbody HF) as (r' & E & HA'); [lia|unfold kBlockSize in *; lia|]. exists r', be. split; [done|]. split; [done|]. left. lia.
    + destruct (next_frag 1 r pos pos 0 t body tl HA) as (r' & E & HA'); [lia|lia|done|done|lia|done|]. exists r', (pos + B)%nat. split; [done|]. split; [done|]. left. lia.
Qed.

Lemma item_cut r pos be b t body m : At r pos be -> In_block b pos be -> 0 <= b <= kBlockSize -> kFullType <= t <= kLastType ->
  start recycle b + header_size recycle + Z.of_nat (length body) <= kBlockSize -> (m < length (padding recycle b ++ phys recycle log_number t body))%nat ->
  drop pos F = take m (padding recycle b ++ phys recycle log_number t body) ->
  stops 3 r 0 \/ (exists r', ReadPhysicalRecord address r = Some (kBadRecord, [], 0, r') /\ stops 3 r' 0 /\ (7 <= length F - pos)%nat /\ padding recycle b <> []).
Proof.
  intros HA HI Hb Ht Hfit Hm HF. pose proof (phys_length t body) as Hpl. pose proof (header_size_val recycle) as Hhs. pose proof (at_size r pos be HA) as Hsz.
  pose proof (at_pos _ _ _ HA) as [Hp1 Hp2]. assert (HFl := f_equal length HF). rewrite length_drop, length_take in HFl. unfold ReadPhysicalRecord, In_block in *.
  unfold padding, start in *. destruct (Z.ltb_spec (kBlockSize - b) (header_size recycle)) as [Hs|Hs]; rewrite length_app in Hm, HFl.
  - rewrite length_replicate in Hm, HFl. set (k := Z.to_nat (kBlockSize - b)) in *. assert (Hbe : be = (pos + k)%nat) by (unfold k, kBlockSize in *; lia).
    destruct (decide (m < k)%nat) as [Hmk|Hmk].
    + assert (Hbuf : buffer_ r = replicate m 0) by (rewrite (at_buf _ _ _ HA), HF, take_take, take_app_le, take_replicate by (rewrite ?length_replicate; lia); f_equal; lia).
      destruct (decide (m < 7)%nat) as [H7|H7]; [left; apply (stops_short 2 r pos be); done || lia|]. right. eexists. split; [apply (zeros_read 2 r pos be 0 m); done || lia|].
      split; [|split; [lia|by destruct k; [lia|]]]. apply (stops_short 2 _ _ be 0 (At_clear r pos be HA)); [lia|]. unfold buffer_size. simpl. lia.
    + assert (HF' : drop be F = take (m - k) (phys recycle log_number t body)).
      { rewrite Hbe, <- drop_drop, HF, take_app_ge, length_replicate by (rewrite length_replicate; lia). apply drop_app_exact, length_replicate. }
      destruct (decide (be - pos < 7)%nat) as [H7|H7]; [left; apply (next_cut 1 r pos be 0 t body (m - k)); done || lia|].
      right. eexists. split; [apply (zeros_read 2 r pos be 0 k); [done| |lia]|].
      * rewrite (at_buf _ _ _ HA), HF, take_take, Nat.min_l by lia. rewrite take_app_length' by (rewrite length_replicate; lia). done.
      * split; [|split; [lia|by destruct k; [lia|]]]. pose proof (At_clear r pos be HA) as HA'. rewrite Nat.min_l in HA' by lia.
        apply (next_cut 1 _ be be 0 t body (m - k)); try done; try lia.
  - left. rewrite app_nil_l in HF. cbn [length Nat.add] in Hm, HFl. destruct HI as [HI|[-> ->]].
    + apply (frag_cut 2 r pos be 0 t body m); try done; unfold kBlockSize in *; lia.
    + apply (next_cut 1 r pos pos 0 t body m); done || lia.
Qed.

(** ** Records *)

  Variable mode : WALRecoveryMode.

(** One round of the loop. *)
Lemma step_full n r r' body scratch po : ReadPhysicalRecord address r = Some (code recycle kFullType, body, 0, r') -> exists x,
  read_record_loop address (S n) mode r false scratch po = Some (Some body, r' <| last_record_offset_ := u64 x |>).
Proof. intros E. eexists. cbn [read_record_loop]. rewrite E. unfold code. destruct recycle; reflexivity. Qed.

Lemma step_last n r r' body scratch po : ReadPhysicalRecord address r = Some (code recycle kLastType, body, 0, r') ->
  read_record_loop address (S n) mode r true scratch po = Some (Some (scratch ++ body), r' <| last_record_offset_ := po |>).
Proof. intros E. cbn [read_record_loop]. rewrite E. unfold code. destruct recycle; reflexivity. Qed.

Lemma step_first n r r' body scratch po : ReadPhysicalRecord address r = Some (code recycle kFirstType, body, 0, r') -> exists x,
  read_record_loop address (S n) mode r false scratch po = read_record_loop address n mode r' true body (u64 x).
Proof. intros E. eexists. cbn [read_record_loop]. rewrite E. unfold code. destruct recycle; reflexivity. Qed.

Lemma step_middle n r r' body scratch po : ReadPhysicalRecord address r = Some (code recycle kMiddleType, body, 0, r') ->
  read_record_loop address (S n) mode r true scratch po = read_record_loop address n mode r' true (scratch ++ body) po.
Proof. intros E. cbn [read_record_loop]. rewrite E. unfold code. destruct recycle; reflexivity. Qed.

Lemma step_bad n r r' d scratch po : ReadPhysicalRecord address r = Some (kBadRecord, [], d, r') ->
  read_record_loop address (S n) mode r false scratch po = read_record_loop address n mode r' false scratch po.
Proof. intros E. cbn [read_record_loop]. by rewrite E. Qed.

Lemma step_stop n r inf scratch po : stops 3 r 0 -> exists r',
  read_record_loop address (S n) mode r inf scratch po = Some (None, r') /\ (mode <> kAbsoluteConsistency -> reporter_ r' = rep).
Proof.
  intros (e & d' & r' & E & He & Hr). cbn [read_record_loop]. unfold ReadPhysicalRecord. rewrite E. cbn [mbind option_bind]. destruct (decide (mode = kAbsoluteConsistency)) as [Hm|Hm].
  - destruct He as [-> | ->]; eexists; (split; [reflexivity|done]).
  - assert (Hb : bool_decide (mode = kAbsoluteConsistency) = false) by (by apply bool_decide_false).
    destruct He as [-> | ->]; cbn; rewrite ?Hb, ?andb_false_r; eexists; (split; [reflexivity|done]).
Qed.

Lemma u64_nonneg x : 0 <= u64 x.
Proof. apply wrap_range. lia. Qed.

(** A fragment that is not the last one of its record. *)
Lemma step_more n r r' body (begin : bool) scratch po : ReadPhysicalRecord address r = Some (code recycle (fragment_type begin false), body, 0, r') -> 0 <= po ->
  exists po', read_record_loop address (S n) mode r (negb begin) scratch po = read_record_loop address n mode r' true ((if begin then [] else scratch) ++ body) po' /\ 0 <= po'.
Proof.
  intros E Hpo. destruct begin; cbn [negb] in *.
  - destruct (step_first n r r' body scratch po E) as (x & ->). exists (u64 x). split; [done|apply u64_nonneg].
  - rewrite (step_middle n r r' body scratch po E). by exists po.
Qed.

Lemma At_last r pos be x : At r pos be -> 0 <= x -> At (r <| last_record_offset_ := x |>) pos be.
Proof. intros HA Hx. destruct HA. by split. Qed.

Lemma padding_0 : padding recycle 0 = [] /\ start recycle 0 = 0.
Proof. unfold padding, start. destruct (header_size_val recycle) as [E|E]; rewrite E; done. Qed.

Lemma start_padded b : padding recycle b <> [] -> start recycle b = 0.
Proof. unfold padding, start. by destruct (Z.ltb_spec (kBlockSize - b) (header_size recycle)). Qed.

(** The round that reads a fragment, after one that skips the padding. *)
Lemma reach n r pos be b t body tl inf scratch po : At r pos be -> In_block b pos be -> 0 <= b <= kBlockSize -> kFullType <= t <= kLastType -> bytes_ok body ->
  start recycle b + header_size recycle + Z.of_nat (length body) <= kBlockSize ->
  drop pos F = padding recycle b ++ phys recycle log_number t body ++ tl -> (inf = true -> padding recycle b = []) -> (length F - pos < n)%nat ->
  exists n1 r1 r' be', read_record_loop address n mode r inf scratch po = read_record_loop address (S n1) mode r1 inf scratch po /\
    ReadPhysicalRecord address r1 = Some (code recycle t, body, 0, r') /\ At r' (pos + length (padding recycle b ++ phys recycle log_number t body)) be' /\
    In_block (start recycle b + header_size recycle + Z.of_nat (length body)) (pos + length (padding recycle b ++ phys recycle log_number t body)) be' /\
    (length F - (pos + length (padding recycle b ++ phys recycle log_number t body)) < n1)%nat.
Proof.
  intros HA HI Hb Ht Hbody Hfit HF Hinf Hn. pose proof (phys_length t body) as Hpl. pose proof (header_size_val recycle) as Hhs. pose proof (at_pos _ _ _ HA) as [_ Hp].
  assert (HFl := f_equal length HF). rewrite length_drop, !length_app in HFl.
  destruct (item_read r pos be b t body tl HA HI Hb Ht Hbody Hfit HF) as [(r' & be' & E & HA' & HI')|(r1 & E & HA1 & Hbe & H7)].
  - destruct n as [|n]; [lia|]. exists n, r, r', be'. split; [done|]. split; [done|]. split; [done|]. split; [done|]. rewrite length_app. lia.
  - assert (Hpad : padding recycle b <> []) by (by intros E0; rewrite E0 in H7; simpl in H7; lia). destruct inf; [by rewrite Hinf in Hpad|].
    destruct n as [|n]; [lia|]. destruct padding_0 as [P0 S0]. rewrite (start_padded b Hpad) in *.
    destruct (item_read r1 be be 0 t body tl HA1) as [(r' & be' & E' & HA' & HI')|(? & _ & _ & _ & Hbad)]; try done.
    + by right.
    + by rewrite S0.
    + rewrite P0, app_nil_l. rewrite Hbe, <- drop_drop, HF. by rewrite drop_app_length.
    + rewrite P0, app_nil_l, S0 in *. rewrite length_app, Nat.add_assoc, <- Hbe. destruct n as [|n]; [lia|]. exists n, r1, r', be'. rewrite (step_bad (S n) r r1 0 scratch po E).
      split; [done|]. split; [done|]. split; [done|]. split; [done|]. lia.
    + rewrite P0 in Hbad. simpl in Hbad. lia.
Qed.

Lemma padding_full : padding recycle kBlockSize = [].
Proof. unfold padding. rewrite Z.sub_diag. by destruct (0 <? header_size recycle). Qed.

Lemma layout_read fuel : forall b ptr begin pos be r scratch po n tl, At r pos be -> In_block b pos be -> 0 <= b <= kBlockSize -> bytes_ok ptr ->
  (rounds recycle b ptr <= fuel)%nat -> (begin = false -> padding recycle b = []) -> 0 <= po -> (length F - pos < n)%nat ->
  drop pos F = fst (layout recycle log_number fuel b ptr begin) ++ tl ->
  exists r' be', read_record_loop address n mode r (negb begin) scratch po = Some (Some ((if begin then [] else scratch) ++ ptr), r') /\
    At r' (pos + length (fst (layout recycle log_number fuel b ptr begin))) be' /\
    In_block (snd (layout recycle log_number fuel b ptr begin)) (pos + length (fst (layout recycle log_number fuel b ptr begin))) be'.
Proof.
  induction fuel as [|fuel IH]; intros b ptr begin pos be r scratch po n tl HA HI Hb Hp Hf Hpad Hpo Hn HF; [unfold rounds in Hf; destruct (room recycle b <=? 0); lia|].
  rewrite layout_step in *. cbv zeta in *. pose proof (piece_fits recycle b ptr Hb) as Hfit. pose proof (piece_length_le recycle b ptr) as Hle.
  pose proof (piece_full recycle b ptr Hb) as Hfull. set (k := piece_length recycle b ptr) in *. set (t := fragment_type begin (length ptr =? k)%nat) in *.
  assert (Hlk : length (take k ptr) = k) by (rewrite length_take; lia). assert (Hinf : negb begin = true -> padding recycle b = []) by (destruct begin; [done|auto]).
  destruct (Nat.eqb_spec (length ptr) k) as [Ek|Ek].
  - cbn [fst snd] in *. rewrite <- app_assoc in HF.
    destruct (reach n r pos be b t (take k ptr) tl (negb begin) scratch po HA HI Hb (fragment_type_range _ _) (bytes_ok_take k ptr Hp) ltac:(by rewrite Hlk) HF Hinf Hn)
      as (n1 & r1 & r' & be' & -> & E & HA' & HI' & _). rewrite Hlk in HI'. rewrite (take_ge ptr k) in E by lia. unfold t in E. destruct begin; cbn [negb] in *.
    + destruct (step_full n1 r1 r' ptr scratch po E) as (x & ->). exists (r' <| last_record_offset_ := u64 x |>), be'. split; [done|].
      split; [apply At_last; [done|apply u64_nonneg]|done].
    + rewrite (step_last n1 r1 r' ptr scratch po E). exists (r' <| last_record_offset_ := po |>), be'. split; [done|]. split; [by apply At_last|done].
  - destruct Hfull as [Hoff Hr]; [lia|]. fold k in Hoff, Hr. rewrite Hoff in *.
    destruct (layout recycle log_number fuel kBlockSize (drop k ptr) false) as [rest b''] eqn:El. cbn [fst snd] in *. rewrite <- !app_assoc in HF.
    destruct (reach n r pos be b t (take k ptr) (rest ++ tl) (negb begin) scratch po HA HI Hb (fragment_type_range _ _) (bytes_ok_take k ptr Hp) ltac:(by rewrite Hlk; lia) HF Hinf Hn)
      as (n1 & r1 & r' & be' & -> & E & HA' & HI' & Hn1). rewrite Hlk, Hoff in HI'. set (piece := padding recycle b ++ phys recycle log_number t (take k ptr)) in *.
    assert (HF' : drop (pos + length piece) F = fst (layout recycle log_number fuel kBlockSize (drop k ptr) false) ++ tl).
    { rewrite El. cbn [fst]. rewrite <- drop_drop, HF, app_assoc. by rewrite drop_app_length. }
    destruct (step_more n1 r1 r' (take k ptr) begin scratch po E Hpo) as (po' & -> & Hpo').
    destruct (IH kBlockSize (drop k ptr) false (pos + length piece)%nat be' r' ((if begin then [] else scratch) ++ take k ptr) po' n1 tl HA' HI') as (r2 & be2 & E2 & HA2 & HI2);
      try first [done|by apply bytes_ok_drop|intros _; apply padding_full|lia|unfold kBlockSize; lia].
    exists r2, be2. rewrite El in HA2, HI2. cbn [fst snd negb] in *. rewrite length_app, Nat.add_assoc. split; [|done]. rewrite E2, <- app_assoc, take_drop. done.
Qed.

Lemma layout_cut fuel : forall b ptr begin pos be r scratch po n m, At r pos be -> In_block b pos be -> 0 <= b <= kBlockSize -> bytes_ok ptr ->
  (rounds recycle b ptr <= fuel)%nat -> (begin = false -> padding recycle b = []) -> 0 <= po -> (length F - pos < n)%nat ->
  (m < length (fst (layout recycle log_number fuel b ptr begin)))%nat -> drop pos F = take m (fst (layout recycle log_number fuel b ptr begin)) ->
  exists r', read_record_loop address n mode r (negb begin) scratch po = Some (None, r') /\ (mode <> kAbsoluteConsistency -> reporter_ r' = rep).
Proof.
  induction fuel as [|fuel IH]; intros b ptr begin pos be r scratch po n m HA HI Hb Hp Hf Hpad Hpo Hn Hm HF; [unfold rounds in Hf; destruct (room recycle b <=? 0); lia|].
  rewrite layout_step in *. cbv zeta in *. pose proof (piece_fits recycle b ptr Hb) as Hfit. pose proof (piece_length_le recycle b ptr) as Hle.
  pose proof (piece_full recycle b ptr Hb) as Hfull. set (k := piece_length recycle b ptr) in *. set (t := fragment_type begin (length ptr =? k)%nat) in *.
  assert (Hlk : length (take k ptr) = k) by (rewrite length_take; lia). assert (Hinf : negb begin = true -> padding recycle b = []) by (destruct begin; [done|auto]).
  set (piece := padding recycle b ++ phys recycle log_number t (take k ptr)) in *.
  assert (Hshort : (m < length piece)%nat -> drop pos F = take m piece -> exists r', read_record_loop address n mode r (negb begin) scratch po = Some (None, r') /\
    (mode <> kAbsoluteConsistency -> reporter_ r' = rep)).
  { intros Hm' HF'. destruct n as [|n]; [lia|].
    destruct (item_cut r pos be b t (take k ptr) m HA HI Hb (fragment_type_range _ _) ltac:(by rewrite Hlk) Hm' HF') as [Hst|(r1 & E & Hst & H7 & Hne)]; [by apply step_stop|].
    destruct begin; [|by rewrite Hpad in Hne]. destruct n as [|n]; [lia|]. cbn [negb]. rewrite (step_bad (S n) r r1 0 scratch po E). by apply step_stop. }
  destruct (Nat.eqb_spec (length ptr) k) as [Ek|Ek]; [by apply Hshort|]. destruct Hfull as [Hoff Hr]; [lia|]. fold k in Hoff, Hr. rewrite Hoff in *.
  destruct (layout recycle log_number fuel kBlockSize (drop k ptr) false) as [rest b''] eqn:El. cbn [fst snd] in *. rewrite length_app in Hm.
  destruct (decide (m < length piece)%nat) as [Hmp|Hmp]; [apply Hshort; [done|]; by rewrite HF, take_app_le by lia|].
  rewrite take_app_ge in HF by lia. assert (HF1 := HF). unfold piece in HF1. rewrite <- app_assoc in HF1.
  destruct (reach n r pos be b t (take k ptr) (take (m - length piece) rest) (negb begin) scratch po HA HI Hb (fragment_type_range _ _) (bytes_ok_take k ptr Hp) ltac:(by rewrite Hlk; lia) HF1 Hinf Hn)
    as (n1 & r1 & r' & be' & -> & E & HA' & HI' & Hn1). rewrite Hlk, Hoff in HI'. fold piece in HA', HI', Hn1.
  destruct (step_more n1 r1 r' (take k ptr) begin scratch po E Hpo) as (po' & -> & Hpo').
  apply (IH kBlockSize (drop k ptr) false (pos + length piece)%nat be' r' _ po' n1 (m - length piece)%nat HA' HI'); rewrite ?El; cbn [fst];
    try first [done|by apply bytes_ok_drop|intros _; apply padding_full|lia|unfold kBlockSize; lia].
  rewrite <- drop_drop, HF. by rewrite drop_app_length.
Qed.

(** The end of a complete log. *)
Definition Ended (b : Z) (be : nat) : Prop :=
  (length F < be)%nat /\ (In_block b (length F) be \/ (be = (length F + B)%nat /\ In_block b (length F) (length F))).

Lemma log_end n r be b scratch po : At r (length F) be -> In_block b (length F) be -> exists r' be',
  read_record_loop address (S n) mode r false scratch po = Some (None, r') /\ At r' (length F) be' /\ Ended b be'.
Proof.
  intros HA HI.
  assert (Hend : forall k r1 be1, At r1 (length F) be1 -> (length F < be1)%nat -> read_physical_loop address (S k) r1 0 = Some (kEof, [], 0, r1 <| buffer_ := [] |>) /\
    At (r1 <| buffer_ := [] |>) (length F) be1).
  { intros k r1 be1 HA1 Hbe1. assert (Hsz : buffer_size r1 = 0) by (rewrite (at_size r1 _ be1 HA1); lia). split.
    - cbn [read_physical_loop]. rewrite (proj2 (Z.ltb_lt _ _)) by (unfold kHeaderSize; lia). unfold ReadMore. rewrite (at_eof _ _ _ HA1), bool_decide_true by lia. by rewrite Hsz.
    - pose proof (At_clear r1 (length F) be1 HA1) as HA2. by rewrite Nat.min_r in HA2 by lia. }
  assert (Hread : exists r' be', ReadPhysicalRecord address r = Some (kEof, [], 0, r') /\ At r' (length F) be' /\ Ended b be').
  { destruct (decide (length F < be)%nat) as [Hlt|Hge].
    - destruct (Hend 2%nat r be HA Hlt) as [E HA']. eexists _, be. split; [done|]. split; [done|]. split; [done|by left].
    - pose proof (at_pos _ _ _ HA) as [Hp _]. destruct (next_block 2 r (length F) be 0 HA ltac:(lia)) as (r1 & E1 & HA1); [rewrite (at_size r _ be HA); lia|].
      replace be with (length F) in * by lia. destruct (Hend 1%nat r1 _ HA1) as [E HA']; [unfold kBlockSize in *; lia|]. unfold ReadPhysicalRecord. rewrite E1.
      eexists _, _. split; [done|]. split; [done|]. split; [unfold kBlockSize in *; lia|by right]. }
  destruct Hread as (r' & be' & E & HA'). exists r', be'. cbn [read_record_loop]. rewrite E. done.
Qed.

(** ** All records *)

Fixpoint read_all (count fuel : nat) (r : Reader R) : option (list (list Z) * Reader R) :=
  match count with
  | O => None
  | S count =>
      '(record, r) ← ReadRecord address fuel mode r;
      match record with
      | None => Some ([], r)
      | Some x => '(xs, r) ← read_all count fuel r; Some (x :: xs, r)
      end
  end.

Lemma read_all_S count fuel r : read_all (S count) fuel r =
  ('(record, r) ← ReadRecord address fuel mode r; match record with None => Some ([], r) | Some x => '(xs, r) ← read_all count fuel r; Some (x :: xs, r) end).
Proof. done. Qed.

Lemma ReadRecord_loop fuel r pos be : At r pos be -> ReadRecord address fuel mode r = read_record_loop address fuel mode r false [] 0.
Proof. intros HA. unfold ReadRecord. rewrite (at_init _ _ _ HA), (proj2 (Z.ltb_ge _ _)) by apply (at_last _ _ _ HA). done. Qed.

Lemma log_read fuel records : forall b pos be r m, At r pos be -> In_block b pos be -> 0 <= b <= kBlockSize -> Forall bytes_ok records ->
  (length F < fuel)%nat -> drop pos F = take m (fst (log_layout recycle log_number b records)) -> exists k r',
  read_all (S (length records)) fuel r = Some (take k records, r') /\ (k <= length records)%nat /\
  (length (fst (log_layout recycle log_number b (take k records))) <= m)%nat /\
  ((k < length records)%nat -> (m < length (fst (log_layout recycle log_number b (take (S k) records))))%nat) /\
  (mode <> kAbsoluteConsistency \/ k = length records -> reporter_ r' = rep) /\
  (k = length records -> exists be', At r' (length F) be' /\ Ended (snd (log_layout recycle log_number b records)) be').
Proof.
  induction records as [|x records IH]; intros b pos be r m HA HI Hb Hrs Hf HF.
  - assert (Hpos : pos = length F) by (pose proof (at_pos _ _ _ HA); apply (f_equal length) in HF; rewrite length_drop in HF; simpl in HF; rewrite take_nil in HF; simpl in HF; lia). subst pos.
    destruct fuel as [|fuel]; [lia|]. destruct (log_end fuel r be b [] 0 HA HI) as (r' & be' & E & HA' & HE). exists 0%nat, r'. rewrite read_all_S.
    rewrite (ReadRecord_loop (S fuel) r _ _ HA), E. split; [done|]. split; [lia|]. split; [simpl; lia|]. split; [simpl; lia|]. split; [intros _; apply HA'|]. intros _. by exists be'.
  - apply Forall_cons in Hrs as [Hx Hrs]. cbn [length]. rewrite read_all_S, (ReadRecord_loop fuel r _ _ HA). cbn [log_layout] in HF.
    pose proof (record_offset recycle log_number b x Hb) as Hb1. destruct (record_layout recycle log_number b x) as [y b1] eqn:Ex. destruct (log_layout recycle log_number b1 records) as [ys b2] eqn:El.
    cbn [fst snd] in *. unfold record_layout in Ex. destruct (decide (m < length y)%nat) as [Hm|Hm].
    + rewrite take_app_le in HF by lia.
      destruct (layout_cut (length x + 2) b x true pos be r [] 0 fuel m HA HI Hb Hx (record_rounds recycle b x)) as (r' & E & Hr); rewrite ?Ex; cbn [fst]; try done; try lia.
      cbn [negb] in E. rewrite E. exists 0%nat, r'. split; [done|]. split; [lia|]. split; [simpl; lia|].
      split; [|split; [intros [Hmode|?]; [auto|lia]|lia]]. intros _. cbn [take log_layout]. unfold record_layout. rewrite Ex. simpl. rewrite app_nil_r. done.
    + rewrite take_app_ge in HF by lia.
      destruct (layout_read (length x + 2) b x true pos be r [] 0 fuel (take (m - length y) ys) HA HI Hb Hx (record_rounds recycle b x)) as (r1 & be1 & E & HA1 & HI1);
        rewrite ?Ex; cbn [fst]; try done; try lia. cbn [negb] in E. rewrite E. cbn [mbind option_bind]. rewrite Ex in HA1, HI1. cbn [fst snd] in HA1, HI1.
      destruct (IH b1 (pos + length y)%nat be1 r1 (m - length y)%nat HA1 HI1 Hb1 Hrs Hf) as (k & r' & E' & Hk & Hle & Hlt & Hr & Hend).
      { rewrite El. cbn [fst]. rewrite <- drop_drop, HF. by rewrite drop_app_length. }
      rewrite E'. cbn [mbind option_bind]. exists (S k), r'. split; [done|]. split; [lia|]. rewrite !firstn_cons. cbn [log_layout]. unfold record_layout. rewrite Ex.
      split; [|split]; [destruct (log_layout recycle log_number b1 (take k records)); simpl in *; rewrite length_app; lia| |split; [intros [?|?]; apply Hr; [auto|right; lia]|intros Hk'; destruct (Hend ltac:(lia)) as (be' & HA' & HE); exists be'; rewrite El in HE; by rewrite El]].
      intros Hk'. specialize (Hlt ltac:(lia)). destruct (log_layout recycle log_number b1 (take (S k) records)) as [z b3]. cbn [fst] in *. rewrite length_app. lia.
Qed.
End Read.
