(* ===== verification/LogTheorems.v ===== *)
(** * What the log promises

    The log that [log::Writer] writes is read back by [log::Reader]: as far as it
    reached the file, and again after it has grown.  Three cases in which it is
    not. *)

From Stdlib Require Import ZArith Lia Bool String.
From stdpp Require Import base list.
From S2P Require Import Prelude Coding Crc32c Log LogSpec.

(** ** A log from its first record to its last *)

Section Files.
  Context `{Processor} `{ReliableWrite F}.
  Variable address : list Z -> Z.

Definition log_file (f : F) (log_number : Z) (recycle manual_flush : bool) (records : list (list Z)) : option (list Z) :=
  w ← NewWriter address f log_number recycle manual_flush;
  w ← write_all address w records;
  Some (f_data (dest_ w)).

Lemma log_file_spec f log_number recycle manual_flush records : f_data f = [] -> Forall bytes_ok records ->
  log_file f log_number recycle manual_flush records = Some (fst (log_layout recycle log_number 0 records)).
Proof.
  intros Hf Hrs. unfold log_file. destruct (NewWriter_spec address recycle log_number f manual_flush) as (w & E & HW & Hd). rewrite E. cbn [mbind option_bind].
  destruct (write_all_spec address recycle log_number records w 0 HW ltac:(unfold kBlockSize; lia) Hrs) as (w' & E' & HD). rewrite E'. cbn [mbind option_bind].
  by rewrite HD, Hd, Hf.
Qed.
End Files.

Lemma log_layout_app recycle log_number xs : forall b ys,
  log_layout recycle log_number b (xs ++ ys) =
  (fst (log_layout recycle log_number b xs) ++ fst (log_layout recycle log_number (snd (log_layout recycle log_number b xs)) ys),
   snd (log_layout recycle log_number (snd (log_layout recycle log_number b xs)) ys)).
Proof.
  induction xs as [|x xs IH]; intros b ys; [simpl; by destruct (log_layout recycle log_number b ys)|]. cbn [app log_layout].
  destruct (record_layout recycle log_number b x) as [z b1]. rewrite IH. destruct (log_layout recycle log_number b1 xs) as [zs b2]. cbn [fst snd]. by rewrite app_assoc.
Qed.

Lemma log_offset recycle log_number xs : forall b, 0 <= b <= kBlockSize -> 0 <= snd (log_layout recycle log_number b xs) <= kBlockSize.
Proof.
  induction xs as [|x xs IH]; intros b Hb; [done|]. cbn [log_layout]. pose proof (record_offset recycle log_number b x Hb) as Hb1.
  destruct (record_layout recycle log_number b x) as [z b1]. specialize (IH b1 Hb1). by destruct (log_layout recycle log_number b1 xs).
Qed.

Section Tail.
  Context `{Processor} `{ReliableRead R}.
  Variable address : list Z -> Z.
  Variables (recycle : bool) (log_number : Z).
  Variable rep : option (list report).
  Variable B : nat.
  Hypothesis HB : Z.of_nat B = kBlockSize.

Lemma new_reader (f : R) checksum : At log_number (r_rest f) rep (NewReader f rep checksum 0 log_number) 0 0.
Proof. clear HB B. split; simpl; try done; lia. Qed.

(** The file has grown. *)
Lemma UnmarkEOF_spec F more r be b f' : At log_number F rep r (length F) be -> Ended F B b be -> r_rest f' = more -> exists be',
  At log_number (F ++ more) rep (UnmarkEOF (r <| file_ := f' |>)) (length F) be' /\ In_block b (length F) be'.
Proof.
  intros HA [Hlt HE] Hm. pose proof HA as [A1 A2 A3 [A4 A4'] A5 A6 A7 A8 A9 A10]. rewrite decide_True in A10 by done.
  assert (Hbuf : buffer_ r = []) by (by rewrite A1, drop_all, take_nil).
  unfold UnmarkEOF. change (read_error_ (r <| file_ := f' |>)) with (read_error_ r). rewrite A5. cbv zeta.
  change (eof_offset_ (r <| file_ := f' |> <| eof_ := false |>)) with (eof_offset_ r). destruct (Z.eqb_spec (eof_offset_ r) 0) as [E0|E0].
  - assert (HI : In_block b (length F) (length F)) by (destruct HE as [[?|[? ?]]|[_ ?]]; [right; lia|lia|done]). exists (length F). split; [|done].
    split; simpl; try done; rewrite ?Nat.sub_diag, ?drop_app_length, ?length_app, ?bool_decide_false, ?decide_False by lia; done || lia.
  - assert (HI : In_block b (length F) be) by (destruct HE as [?|[-> _]]; [done|lia]). exists be. split; [|done].
    assert (Hrem : Z.to_nat (kBlockSize - eof_offset_ r) = (be - length F)%nat) by lia.
    destruct (read_data f' (kBlockSize - eof_offset_ r)) as (f2 & E2 & Er2). rewrite Hrem, Hm in E2, Er2.
    change (file_ (r <| file_ := f' |> <| eof_ := false |>)) with f'. rewrite E2. cbn [negb].
    assert (Hadd : Z.of_nat (length (take (be - length F) more)) = Z.of_nat (min be (length (F ++ more)) - length F)) by (rewrite length_take, length_app; f_equal; lia).
    rewrite Hadd. rewrite length_app.
    destruct (Z.ltb_spec (Z.of_nat (min be (length F + length more) - length F)) (kBlockSize - eof_offset_ r)); split; simpl; try done.
    all: rewrite ?Hbuf, ?drop_app_length, ?length_app, ?Er2; try done; try lia.
    + by rewrite drop_app_ge by lia.
    + by rewrite bool_decide_true by lia.
    + rewrite decide_True by lia. lia.
    + by rewrite drop_app_ge by lia.
    + by rewrite bool_decide_false by lia.
    + by rewrite decide_False by lia.
Qed.
End Tail.

Lemma block_nat : Z.of_nat (Z.to_nat kBlockSize) = kBlockSize.
Proof. apply Z2Nat.id. unfold kBlockSize. lia. Qed.

Lemma start_of_block : 0 <= 0 <= kBlockSize.
Proof. unfold kBlockSize. lia. Qed.

Lemma Forall_take_bytes k (records : list (list Z)) : Forall bytes_ok records -> Forall bytes_ok (take k records).
Proof. apply Forall_take. Qed.

(** ** Files in memory *)

#[export] Instance list_writable : WritableFile (list Z).
Proof.
  refine {| f_data := fun f => f; FAppend := fun f s => (true, f ++ s); FFlush := fun f => (true, f) |}.
  - by intros f s f' [= <-].
  - intros f s b f' [= <- <-]. exists (length s). by rewrite firstn_all.
  - by intros f b f' [= <- <-].
Defined.

#[export] Instance list_sequential : SequentialFile (list Z).
Proof.
  refine {| r_rest := fun f => f; FRead := fun f n => (true, take (Z.to_nat n) f, drop (Z.to_nat n) f); FSkip := fun f n => (true, drop (Z.to_nat n) f) |}.
  - by intros f n s f' [= <- <-].
  - by intros f n f' [= <-].
Defined.

#[export] Instance list_reliable_write : ReliableWrite (list Z).
Proof. by split. Qed.

#[export] Instance list_reliable_read : ReliableRead (list Z).
Proof. by split. Qed.

(** ** The theorems *)

(** C4: what reached the file is recovered.  For every list of records, with or
    without recycling, with any recovery mode, and wherever the file was cut off by
    a crash, the reader ends and returns exactly the records that are complete in
    the file, in their order; unless the mode asks for it, or when nothing is
    missing, it reports no corruption. *)
Theorem log_recovers_prefix `{Processor} `{ReliableWrite F} `{ReliableRead R} (address : list Z -> Z) (mode : WALRecoveryMode)
    (f : F) (log_number : Z) (recycle manual_flush checksum : bool) (records : list (list Z)) (file : R) (cut : nat) :
  f_data f = [] -> Forall bytes_ok records -> (recycle = true -> 0 <= log_number < 2 ^ 32) ->
  exists log, log_file address f log_number recycle manual_flush records = Some log /\ (r_rest file = take cut log ->
    exists k r part, read_all address mode (S (length records)) (S (length log)) (NewReader file (Some []) checksum 0 log_number) = Some (take k records, r) /\
      log_file address f log_number recycle manual_flush (take k records) = Some part /\ (length part <= cut)%nat /\
      (take k records <> records -> exists next, log_file address f log_number recycle manual_flush (take (S k) records) = Some next /\ (cut < length next)%nat) /\
      (mode <> kAbsoluteConsistency \/ take k records = records -> reporter_ r = Some [])).
Proof.
  intros Hf Hrs Hnum. exists (fst (log_layout recycle log_number 0 records)). split; [by apply log_file_spec|]. intros Hfile.
  destruct (log_read address recycle log_number Hnum (r_rest file) (Some []) (Z.to_nat kBlockSize) block_nat mode
    (S (length (fst (log_layout recycle log_number 0 records)))) records 0 0 0 (NewReader file (Some []) checksum 0 log_number) cut
    (new_reader log_number (Some []) file checksum) (or_intror (conj eq_refl eq_refl)) start_of_block Hrs) as (k & r & E & Hk & Hle & Hlt & Hr & _).
  { rewrite Hfile, length_take. lia. }
  { by rewrite drop_0. }
  exists k, r, (fst (log_layout recycle log_number 0 (take k records))). split; [done|]. split; [by apply log_file_spec, Forall_take_bytes|]. split; [done|].
  assert (Hall : take k records = records <-> k = length records).
  { split; [intros Ek; apply (f_equal length) in Ek; rewrite length_take in Ek; lia|intros ->; apply firstn_all]. }
  rewrite Hall. split; [|done]. intros Hne. exists (fst (log_layout recycle log_number 0 (take (S k) records))). split; [by apply log_file_spec, Forall_take_bytes|]. apply Hlt. lia.
Qed.

Definition demo_log : list (list Z) := [[1; 2; 3]; []; [4; 5; 6; 7; 8]].

Lemma log_recovers_prefix_witness : let P := demo_processor in
  exists log, log_file (F := list Z) (fun _ => 0) [] 7 true false demo_log = Some log /\ length log = 41%nat /\
  exists k r part, read_all (fun _ => 0) kTolerateCorruptedTailRecords 4 42 (NewReader (take 40 log) (Some []) true 0 7) = Some (take k demo_log, r) /\
    log_file (F := list Z) (fun _ => 0) [] 7 true false (take k demo_log) = Some part /\ (length part <= 40)%nat.
Proof.
  intros P. assert (Hrs : Forall bytes_ok demo_log) by (repeat constructor; unfold byte_ok; lia).
  destruct (@log_recovers_prefix P (list Z) list_writable list_reliable_write (list Z) list_sequential list_reliable_read (fun _ => 0) kTolerateCorruptedTailRecords [] 7 true false true demo_log
    (take 40 (default [] (log_file (F := list Z) (fun _ => 0) [] 7 true false demo_log))) 40 eq_refl Hrs ltac:(lia)) as (log & E & Hread).
  exists log. split; [done|]. rewrite E in Hread. assert (Hl : length log = 41%nat) by (assert (E' := E); vm_compute in E'; injection E' as <-; done). split; [done|].
  destruct (Hread eq_refl) as (k & r & part & H1 & H2 & H3 & _). rewrite Hl in H1. exists k, r, part. auto.
Defined.

(** Reading a complete log. *)
Lemma read_complete `{Processor} `{ReliableRead R} (address : list Z -> Z) mode recycle log_number F rep fuel records b pos be (r : Reader R) :
  (recycle = true -> 0 <= log_number < 2 ^ 32) -> At log_number F rep r pos be -> In_block b pos be -> 0 <= b <= kBlockSize -> Forall bytes_ok records ->
  (length F < fuel)%nat -> drop pos F = fst (log_layout recycle log_number b records) -> exists r' be',
  read_all address mode (S (length records)) fuel r = Some (records, r') /\ reporter_ r' = rep /\
  At log_number F rep r' (length F) be' /\ Ended F (Z.to_nat kBlockSize) (snd (log_layout recycle log_number b records)) be'.
Proof.
  intros Hnum HA HI Hb Hrs Hf HF. set (bytes := fst (log_layout recycle log_number b records)) in *.
  destruct (log_read address recycle log_number Hnum F rep (Z.to_nat kBlockSize) block_nat mode fuel records b pos be r (length bytes) HA HI Hb Hrs Hf) as (k & r' & E & Hk & _ & Hlt & Hr & Hend).
  { by rewrite HF, firstn_all. }
  assert (Ek : k = length records).
  { destruct (decide (k < length records)%nat) as [Hl|]; [|lia]. specialize (Hlt Hl). exfalso. rewrite <- (take_drop (S k) records) in Hlt at 1. unfold bytes in Hlt.
    rewrite <- (take_drop (S k) records), log_layout_app in Hlt at 1. cbn [fst] in Hlt. rewrite length_app, take_drop in Hlt. lia. }
  destruct (Hend Ek) as (be' & HA' & HE). exists r', be'. rewrite E, Ek, firstn_all. auto.
Qed.

(** C20: a reader follows a log that is still being written.  When the reader has
    returned all records and has met the end of the file, and the writer adds more,
    [UnmarkEOF] makes it go on with exactly the new records, wherever in a block the
    file ended before. *)
Theorem log_tailing `{Processor} `{ReliableWrite F} `{ReliableRead R} (address : list Z -> Z) (mode : WALRecoveryMode)
    (f : F) (log_number : Z) (recycle manual_flush checksum : bool) (old new : list (list Z)) (file file' : R) :
  f_data f = [] -> Forall bytes_ok (old ++ new) -> (recycle = true -> 0 <= log_number < 2 ^ 32) ->
  exists log more, log_file address f log_number recycle manual_flush old = Some log /\
    log_file address f log_number recycle manual_flush (old ++ new) = Some (log ++ more) /\ (r_rest file = log -> r_rest file' = more ->
    exists r r', read_all address mode (S (length old)) (S (length (log ++ more))) (NewReader file (Some []) checksum 0 log_number) = Some (old, r) /\
      read_all address mode (S (length new)) (S (length (log ++ more))) (UnmarkEOF (r <| file_ := file' |>)) = Some (new, r') /\ reporter_ r' = Some []).
Proof.
  intros Hf Hrs Hnum. pose proof Hrs as [Hold Hnew]%Forall_app. set (b := snd (log_layout recycle log_number 0 old)).
  exists (fst (log_layout recycle log_number 0 old)), (fst (log_layout recycle log_number b new)). split; [by apply log_file_spec|].
  split; [rewrite log_file_spec, log_layout_app by done; done|]. intros E1 E2. set (log := fst (log_layout recycle log_number 0 old)) in *.
  pose proof (new_reader log_number (Some []) file checksum) as HA0. rewrite E1 in HA0.
  destruct (read_complete address mode recycle log_number log (Some []) (S (length (log ++ fst (log_layout recycle log_number b new)))) old 0 0 0 _ Hnum HA0)
    as (r & be & Er & _ & HA & HE); [by right|apply start_of_block|done|rewrite length_app; lia|done|].
  destruct (UnmarkEOF_spec log_number (Some []) (Z.to_nat kBlockSize) block_nat log _ r be b file' HA HE E2) as (be' & HA' & HI').
  destruct (read_complete address mode recycle log_number (log ++ fst (log_layout recycle log_number b new)) (Some []) (S (length (log ++ fst (log_layout recycle log_number b new))))
    new b (length log) be' _ Hnum HA' HI') as (r' & be2 & Er' & Hrep & _); [by apply log_offset, start_of_block|done|lia|by rewrite drop_app_length|].
  by exists r, r'.
Qed.

Definition demo_file (records : list (list Z)) : list Z := default [] (@log_file demo_processor (list Z) list_writable (fun _ => 0) [] 7 false false records).

Lemma log_tailing_witness : let P := demo_processor in
  exists r r' : Reader (list Z), length (demo_file [[1; 2; 3]]) = 10%nat /\
    read_all (fun _ => 0) kTolerateCorruptedTailRecords 2 28 (NewReader (demo_file [[1; 2; 3]]) (Some []) true 0 7) = Some ([[1; 2; 3]], r) /\
    read_all (fun _ => 0) kTolerateCorruptedTailRecords 3 28 (UnmarkEOF (r <| file_ := drop 10 (demo_file [[1; 2; 3]; [4]; [5; 6]]) |>)) = Some ([[4]; [5; 6]], r').
Proof.
  intros P. assert (Hrs : Forall bytes_ok ([[1; 2; 3]] ++ [[4]; [5; 6]])) by (repeat constructor; unfold byte_ok; lia).
  destruct (@log_tailing P (list Z) list_writable list_reliable_write (list Z) list_sequential list_reliable_read (fun _ => 0) kTolerateCorruptedTailRecords [] 7 false false true
    [[1; 2; 3]] [[4]; [5; 6]] (demo_file [[1; 2; 3]]) (drop 10 (demo_file [[1; 2; 3]; [4]; [5; 6]])) eq_refl Hrs ltac:(done)) as (log & more & E1 & E2 & Hread).
  vm_compute in E1. injection E1 as <-. vm_compute in E2. injection E2 as <-. destruct Hread as (r & r' & H1 & H2 & _); [vm_compute; reflexivity..|].
  exists r, r'. split; [vm_compute; reflexivity|]. split; [exact H1|exact H2].
Defined.

(** ** Logs that are not read back *)

Section Findings.
  Local Existing Instance demo_processor.

Definition recycled_log (log_number : Z) (records : list (list Z)) : list Z := default [] (log_file (F := list Z) (fun _ => 0) [] log_number true false records).

(** The state in which the reader meets a record of the log's previous life. *)
Definition stuck_reader : Reader (list Z) :=
  (NewReader (recycled_log 7 [[1; 2; 3]]) (Some []) true 0 8) <| file_ := [] |> <| buffer_ := recycled_log 7 [[1; 2; 3]] |> <| eof_ := true |>
    <| eof_offset_ := 14 |> <| end_of_buffer_offset_ := 14 |> <| recycled_ := true |>.

Lemma stuck_forever fuel : read_record_loop (fun _ => 0) fuel kSkipAnyCorruptedRecords stuck_reader false [] 0 = None.
Proof.
  induction fuel as [|fuel IH]; [done|]. cbn [read_record_loop].
  assert (E : ReadPhysicalRecord (fun _ => 0) stuck_reader = Some (kOldRecord, [], 0, stuck_reader)) by (vm_compute; reflexivity). rewrite E. exact IH.
Qed.

(** A file whose [Append] calls end as a script says. *)
Definition scripted_append (f : list Z * list bool) (s : list Z) : bool * (list Z * list bool) :=
  match f.2 with false :: script => (false, (f.1, script)) | _ => (true, (f.1 ++ s, tail f.2)) end.

#[local] Instance scripted_file : WritableFile (list Z * list bool).
Proof.
  refine {| f_data := fst; FAppend := scripted_append; FFlush := fun f => (true, f) |}; unfold scripted_append.
  - intros [d l] s f'. simpl. destruct l as [|[] l]; intros E; by inversion E.
  - intros [d l] s b f'. simpl. destruct l as [|[] l]; intros E; inversion E; subst; simpl; try (exists (length s); by rewrite firstn_all). exists 0%nat. by rewrite app_nil_r.
  - by intros f b f' [= <- <-].
Defined.

(** A record of two bytes for a block in which three bytes are left; the first
    [Append], the one of the trailer, ends as [ok] says. *)
Definition after_trailer (ok : bool) : option (bool * list Z) :=
  w ← NewWriter (fun _ => 0) ([], [ok]) 7 false false;
  '(s, w) ← AddRecord (fun _ => 0) (w <| block_offset_ := kBlockSize - 3 |>) [2; 3];
  Some (s, f_data (dest_ w)).

(** Logs that are not read back.  A record that is left over in a recycled log
    stops the reader for ever when it is to skip corrupted records, as it is never
    consumed; with a log number of 2^32 or more the writer stores the low 32 bits
    and the reader compares them with all 64, so that nothing is found; and when
    the write of a block's trailer fails, [AddRecord] reports success with the
    record not at the start of a block, where the reader looks for it. *)
Lemma log_limits :
  (forall fuel, ReadRecord (fun _ => 0) fuel kSkipAnyCorruptedRecords (NewReader (recycled_log 7 [[1; 2; 3]]) (Some []) true 0 8) = None) /\
  (exists r, read_all (fun _ => 0) kTolerateCorruptedTailRecords 3 30 (NewReader (recycled_log (2 ^ 32 + 5) [[1; 2; 3]]) (Some []) true 0 (2 ^ 32 + 5)) = Some ([], r) /\
     reporter_ r = Some []) /\
  (exists record, after_trailer true = Some (true, [0; 0; 0] ++ record) /\ after_trailer false = Some (true, record)).
Proof.
  split; [|split].
  - intros [|fuel]; [done|]. unfold ReadRecord. cbn [last_record_offset_ initial_offset_ NewReader Z.ltb Z.compare negb]. cbn [read_record_loop].
    assert (E : ReadPhysicalRecord (fun _ => 0) (NewReader (recycled_log 7 [[1; 2; 3]]) (Some []) true 0 8) = Some (kOldRecord, [], 0, stuck_reader)) by (vm_compute; reflexivity).
    rewrite E. exact (stuck_forever fuel).
  - eexists. split; vm_compute; reflexivity.
  - exists (drop 3 (default [] (snd <$> after_trailer true))). split; vm_compute; reflexivity.
Qed.
End Findings.
