(* ===== verification/TrxnGroups.v ===== *)
(** * Transaction groups

    InSDB gives the transactions of a write batch consecutive numbers and puts 32 of
    them in a group.  A group counts the requests that are not on the device yet;
    when none is left it is entered in the list of completed groups, which is kept
    as ranges and stored in the log record: after a crash the requests of a
    completed group are taken as committed.

    Models the part of [Manifest] (db/manifest.cc) that keeps the groups.  What runs
    under a lock is one step here: [DecTrxnGroup] takes two locks one after the
    other, and other calls may run between its two parts. *)

From Stdlib Require Import ZArith Lia Bool Sorted.
From stdpp Require Import base gmap list sorting.
From S2P Require Import Prelude.

#[local] Ltac Zify.zify_post_hook ::= Z.to_euclidean_division_equations.

(** ** The state *)

Record TrxnGroupRange : Type := { rg_start : Z; rg_end : Z }.

Definition TGID_SHIFT : Z := 5.
Definition kLastGroup : Z := 0xFFFFFFFF.

Record Manifest : Type := {
  next_trxn_id_ : Z;
  uncompleted_trxn_group_ : gmap Z Z;
  completed_trxn_group_list_ : list TrxnGroupRange;
}.
#[export] Instance eta_Manifest : Eta Manifest := fun r =>
  {| next_trxn_id_ := next_trxn_id_ r; uncompleted_trxn_group_ := uncompleted_trxn_group_ r;
     completed_trxn_group_list_ := completed_trxn_group_list_ r |}.

Section Operations.
  Local Open Scope cword_scope.

Definition SingleGroup (id : Z) : TrxnGroupRange := {| rg_start := id; rg_end := id |}.

Definition NewManifest : Manifest :=
  {| next_trxn_id_ := 1 << TGID_SHIFT; uncompleted_trxn_group_ := ∅;
     completed_trxn_group_list_ := [SingleGroup 0; SingleGroup kLastGroup] |}.

Definition IsTrxnGroupCompleted (m : Manifest) (tgid : Z) : bool :=
  match uncompleted_trxn_group_ m !! tgid with None => true | Some _ => false end.

(** A group number has 32 bits, the number of a transaction has 64. *)
Definition GetTrxnID (m : Manifest) (count : Z) : Z * Manifest :=
  let trxn_id := next_trxn_id_ m in
  let next := if 4096 <? count then u64 (((trxn_id >> TGID_SHIFT) + 1) << TGID_SHIFT) else u64 (trxn_id + 1) in
  let tgid := u32 (trxn_id >> TGID_SHIFT) in
  let m := m <| next_trxn_id_ := next |> in
  match uncompleted_trxn_group_ m !! tgid with
  | None => (trxn_id, m <| uncompleted_trxn_group_ ::= <[tgid := count]> |>)
  | Some c => (trxn_id, m <| uncompleted_trxn_group_ ::= <[tgid := u32 (c + count)]> |>)
  end.

(** [None]: the iterator is moved past the last range and dereferenced. *)
Fixpoint AddCompletedTrxnGroupRange (l : list TrxnGroupRange) (tgid : Z) : option (list TrxnGroupRange) :=
  match l with
  | [] => Some []
  | it :: l' =>
      if tgid =? u32 (rg_start it - 1) then Some ({| rg_start := tgid; rg_end := rg_end it |} :: l')
      else if tgid <? rg_start it then Some (SingleGroup tgid :: it :: l')
      else if u32 (rg_end it + 1) =? tgid then
        match l' with
        | [] => None
        | next :: l'' =>
            if tgid =? u32 (rg_start next - 1) then Some ({| rg_start := rg_start it; rg_end := rg_end next |} :: l'')
            else Some ({| rg_start := rg_start it; rg_end := tgid |} :: next :: l'')
        end
      else l' ← AddCompletedTrxnGroupRange l' tgid; Some (it :: l')
  end.

(** The part of [DecTrxnGroup] under [uctrxn_group_lock_], with [result].  The product
    [(tgid + 1) << TGID_SHIFT] is computed in 32 bits. *)
Definition dec_count (m : Manifest) (tgid cnt : Z) : Manifest * bool :=
  match uncompleted_trxn_group_ m !! tgid with
  | None => (m, false)
  | Some c =>
      let c := u32 (c - cnt) in
      if c =? 0 then
        let m := if tgid =? next_trxn_id_ m >> TGID_SHIFT then m <| next_trxn_id_ := u32 (u32 (tgid + 1) << TGID_SHIFT) |> else m in
        (m <| uncompleted_trxn_group_ ::= delete tgid |>, true)
      else (m <| uncompleted_trxn_group_ ::= <[tgid := c]> |>, false)
  end.

(** The part under [ctrxn_group_lock_]. *)
Definition enter_completed (m : Manifest) (tgid : Z) : option Manifest :=
  l ← AddCompletedTrxnGroupRange (completed_trxn_group_list_ m) tgid;
  Some (m <| completed_trxn_group_list_ := l |>).

(** A call that nothing runs between. *)
Definition DecTrxnGroup (m : Manifest) (tgid cnt : Z) : option Manifest :=
  let '(m, result) := dec_count m tgid cnt in
  if result : bool then enter_completed m tgid else Some m.

Fixpoint IsCompletedTrxnGroupRange (completed_trxn_group_list : list TrxnGroupRange) (tgid : Z) : bool :=
  match completed_trxn_group_list with
  | [] => false
  | it :: l => if (rg_start it <=? tgid) && (tgid <=? rg_end it) then true else IsCompletedTrxnGroupRange l tgid
  end.

Definition CopyCompletedTrxnGroupRange (m : Manifest) (completed_trxn_groups : list TrxnGroupRange) : list TrxnGroupRange :=
  completed_trxn_groups ++ completed_trxn_group_list_ m.

End Operations.

(** ** The ranges are a set of groups *)

(** Ranges in order from [lo] on, with a gap between two of them, up to the last
    group. *)
Fixpoint ranges_ok (lo : Z) (l : list TrxnGroupRange) : Prop :=
  match l with
  | [] => False
  | r :: l' => lo <= rg_start r <= rg_end r /\ match l' with [] => rg_end r = kLastGroup | _ => rg_end r < kLastGroup /\ ranges_ok (rg_end r + 2) l' end
  end.

Definition covers (l : list TrxnGroupRange) (g : Z) : Prop := exists r, r ∈ l /\ rg_start r <= g <= rg_end r.

Lemma covers_nil g : ~ covers [] g.
Proof. intros (r & Hr & _). by apply elem_of_nil in Hr. Qed.

Lemma covers_cons r l g : covers (r :: l) g <-> rg_start r <= g <= rg_end r \/ covers l g.
Proof.
  unfold covers. split.
  - intros (x & [->|Hx]%elem_of_cons & H); [by left|right; eauto].
  - intros [H|(x & Hx & H)]; eexists; (split; [|exact H]); apply elem_of_cons; eauto.
Qed.

Lemma covered_spec l g : IsCompletedTrxnGroupRange l g = true <-> covers l g.
Proof.
  induction l as [|r l IH]; cbn [IsCompletedTrxnGroupRange]; [pose proof (covers_nil g); naive_solver|].
  rewrite covers_cons. destruct (Z.leb_spec (rg_start r) g), (Z.leb_spec g (rg_end r)); cbn [andb]; rewrite ?IH; intuition lia.
Qed.

Lemma ranges_ok_cons lo r l : ranges_ok lo (r :: l) <->
  lo <= rg_start r <= rg_end r /\ (l = [] /\ rg_end r = kLastGroup \/ l <> [] /\ rg_end r < kLastGroup /\ ranges_ok (rg_end r + 2) l).
Proof. cbn [ranges_ok]. destruct l; naive_solver. Qed.

Lemma u32_pred x : 0 <= x < 2 ^ 32 -> u32 (x - 1) = if x =? 0 then kLastGroup else x - 1.
Proof. intros Hx. destruct (Z.eqb_spec x 0) as [->|]; [done|]. apply wrap_small. lia. Qed.

Lemma u32_succ x : 0 <= x < 2 ^ 32 -> u32 (x + 1) = if x =? kLastGroup then 0 else x + 1.
Proof. intros Hx. unfold kLastGroup. destruct (Z.eqb_spec x 0xFFFFFFFF) as [->|]; [done|]. apply wrap_small. lia. Qed.

Lemma ranges_bound lo l : ranges_ok lo l -> 0 <= lo -> Forall (fun r => 0 <= rg_start r <= rg_end r /\ rg_end r < 2 ^ 32) l.
Proof.
  revert lo. induction l as [|r l IH]; intros lo Hl Hlo; [done|]. apply ranges_ok_cons in Hl as [Hr Hl]. unfold kLastGroup in *.
  destruct Hl as [[-> Hl]|(_ & Hlt & Hl)]; constructor; try lia; [done|]. apply (IH (rg_end r + 2)); [done|lia].
Qed.

(** Adding a group that is not covered keeps the shape, and covers that group. *)
Lemma add_range_spec tgid : 0 < tgid < kLastGroup -> forall lo l, 0 <= lo -> ranges_ok lo l -> lo <= tgid -> ~ covers l tgid ->
  exists l', AddCompletedTrxnGroupRange l tgid = Some l' /\ ranges_ok lo l' /\ forall g, covers l' g <-> covers l g \/ g = tgid.
Proof.
  intros Ht lo l. revert lo. induction l as [|it l IH]; intros lo Hlo Hl Hle Hc; [done|].
  pose proof (ranges_bound _ _ Hl Hlo) as Hb. apply Forall_cons in Hb as [[Hb1 Hb2] Hb].
  apply ranges_ok_cons in Hl as [Hr Hl]. rewrite covers_cons in Hc. cbn [AddCompletedTrxnGroupRange].
  rewrite u32_pred by lia. rewrite u32_succ by lia. unfold kLastGroup in *.
  destruct (Z.eqb_spec tgid (if rg_start it =? 0 then 0xFFFFFFFF else rg_start it - 1)) as [E|E].
  { eexists. split; [done|]. destruct (Z.eqb_spec (rg_start it) 0); [lia|]. split.
    - apply ranges_ok_cons. cbn [rg_start rg_end]. unfold kLastGroup. intuition lia.
    - intros g. rewrite !covers_cons. cbn [rg_start rg_end]. intuition lia. }
  destruct (Z.ltb_spec tgid (rg_start it)) as [Hlt|Hge].
  { eexists. split; [done|]. destruct (Z.eqb_spec (rg_start it) 0); [lia|]. split.
    - apply ranges_ok_cons. cbn [rg_start rg_end SingleGroup]. split; [lia|]. right. split; [done|]. split; [unfold kLastGroup; lia|].
      apply ranges_ok_cons. unfold kLastGroup. intuition lia.
    - intros g. rewrite !covers_cons. cbn [rg_start rg_end SingleGroup]. intuition lia. }
  destruct Hl as [[-> Hl]|(Hne & Hlt & Hl)]; [lia|].
  destruct (Z.eqb_spec (rg_end it) 0xFFFFFFFF); [lia|]. destruct (Z.eqb_spec (rg_end it + 1) tgid) as [E2|E2].
  - destruct l as [|nx l]; [done|]. apply Forall_cons in Hb as [[Hn1 Hn2] _]. apply ranges_ok_cons in Hl as [Hn Hl].
    rewrite u32_pred by lia. destruct (Z.eqb_spec (rg_start nx) 0); [lia|].
    destruct (Z.eqb_spec tgid (rg_start nx - 1)) as [E3|E3]; (eexists; split; [done|]); split.
    + apply ranges_ok_cons. cbn [rg_start rg_end]. unfold kLastGroup. intuition lia.
    + intros g. rewrite !covers_cons. cbn [rg_start rg_end]. intuition lia.
    + apply ranges_ok_cons. cbn [rg_start rg_end]. split; [lia|]. right. split; [done|]. split; [unfold kLastGroup; lia|]. apply ranges_ok_cons. unfold kLastGroup. intuition lia.
    + intros g. rewrite !covers_cons. cbn [rg_start rg_end]. intuition lia.
  - destruct (IH (rg_end it + 2)) as (l' & -> & Hok & Hcov); [lia|done|lia|tauto|]. eexists. split; [done|]. split.
    + apply ranges_ok_cons. split; [lia|]. right. split; [by intros ->|]. unfold kLastGroup. split; [lia|done].
    + intros g. rewrite !covers_cons, Hcov. tauto.
Qed.

(** ** Runs *)

(** A batch asks for a transaction of [count] requests; later [cnt] requests of
    a group are on the device, the first part of a call of [DecTrxnGroup]; a call
    that found that these were the last ones goes on with its second part. *)
Inductive trxn_event : Type := Begin (count : Z) | Finish (tgid cnt : Z) | Enter (tgid : Z).

(** The manifest and the groups of the calls that are between their two parts. *)
Record threads : Type := { th_mf : Manifest; th_owing : list Z }.

Definition NewThreads : threads := {| th_mf := NewManifest; th_owing := [] |}.

Fixpoint take_out (g : Z) (l : list Z) : list Z :=
  match l with [] => [] | x :: l => if x =? g then l else x :: take_out g l end.

Definition trxn_step (t : threads) (e : trxn_event) : option (Z * threads) :=
  match e with
  | Begin count => let '(id, m) := GetTrxnID (th_mf t) count in Some (id, {| th_mf := m; th_owing := th_owing t |})
  | Finish tgid cnt =>
      let '(m, result) := dec_count (th_mf t) tgid cnt in
      Some (0, {| th_mf := m; th_owing := if result : bool then tgid :: th_owing t else th_owing t |})
  | Enter tgid =>
      m ← enter_completed (th_mf t) tgid;
      Some (0, {| th_mf := m; th_owing := take_out tgid (th_owing t) |})
  end.

(** What happened, with the number each transaction was given. *)
Abbreviation trace := (list (trxn_event * Z)).

Fixpoint trxn_run (m : threads) (es : list trxn_event) : option (trace * threads) :=
  match es with
  | [] => Some ([], m)
  | e :: es => '(id, m) ← trxn_step m e; '(tr, m) ← trxn_run m es; Some ((e, id) :: tr, m)
  end.

Definition group_of (id : Z) : Z := Z.shiftr id TGID_SHIFT.

(** The requests of a group that were started, and that are on the device. *)
Fixpoint started (g : Z) (tr : trace) : Z :=
  match tr with
  | [] => 0
  | (Begin count, id) :: tr => (if group_of id =? g then count else 0) + started g tr
  | _ :: tr => started g tr
  end.

Fixpoint finished (g : Z) (tr : trace) : Z :=
  match tr with
  | [] => 0
  | (Finish tgid cnt, _) :: tr => (if tgid =? g then cnt else 0) + finished g tr
  | _ :: tr => finished g tr
  end.

Fixpoint requested (es : list trxn_event) : Z :=
  match es with [] => 0 | Begin count :: es => Z.max 0 count + requested es | _ :: es => requested es end.

Lemma requested_pos es : 0 <= requested es.
Proof. induction es as [|[] es]; cbn [requested]; lia. Qed.

(** The transactions that are asked for. *)
Fixpoint transactions (es : list trxn_event) : Z :=
  match es with [] => 0 | Begin _ :: es => 1 + transactions es | _ :: es => transactions es end.

Lemma transactions_pos es : 0 <= transactions es.
Proof. induction es as [|[] es]; cbn [transactions]; lia. Qed.

Definition completed (g : Z) (tr : trace) : bool := (0 <? started g tr) && (started g tr =? finished g tr).

(** No request is on the device before it was started, and none twice; the second
    part of a call follows its first. *)
Definition event_fair (tr : trace) (t : threads) (e : trxn_event) : bool :=
  match e with
  | Begin count => 0 <? count
  | Finish tgid cnt => (0 <? cnt) && (cnt <=? started tgid tr - finished tgid tr)
  | Enter tgid => bool_decide (tgid ∈ th_owing t)
  end.

(** Every event is, up to the first step that fails. *)
Fixpoint fair (tr : trace) (t : threads) (es : list trxn_event) : bool :=
  match es with
  | [] => true
  | e :: es => event_fair tr t e && match trxn_step t e with Some (id, t) => fair (tr ++ [(e, id)]) t es | None => true end
  end.

Lemma started_app g tr tr' : started g (tr ++ tr') = started g tr + started g tr'.
Proof. induction tr as [|[[c|t c|t] id] tr IH]; cbn [started app]; lia. Qed.

Lemma finished_app g tr tr' : finished g (tr ++ tr') = finished g tr + finished g tr'.
Proof. induction tr as [|[[c|t c|t] id] tr IH]; cbn [finished app]; lia. Qed.

Lemma started_begin g tr c id : started g (tr ++ [(Begin c, id)]) = started g tr + if group_of id =? g then c else 0.
Proof. rewrite started_app. cbn [started]. lia. Qed.
Lemma finished_begin g tr c id : finished g (tr ++ [(Begin c, id)]) = finished g tr.
Proof. rewrite finished_app. cbn [finished]. lia. Qed.
Lemma started_finish g tr t c id : started g (tr ++ [(Finish t c, id)]) = started g tr.
Proof. rewrite started_app. cbn [started]. lia. Qed.
Lemma finished_finish g tr t c id : finished g (tr ++ [(Finish t c, id)]) = finished g tr + if t =? g then c else 0.
Proof. rewrite finished_app. cbn [finished]. lia. Qed.
Lemma started_enter g tr t id : started g (tr ++ [(Enter t, id)]) = started g tr.
Proof. rewrite started_app. cbn [started]. lia. Qed.
Lemma finished_enter g tr t id : finished g (tr ++ [(Enter t, id)]) = finished g tr.
Proof. rewrite finished_app. cbn [finished]. lia. Qed.
Create Rewrite HintDb trxn.
#[export] Hint Rewrite started_begin finished_begin started_finish finished_finish started_enter finished_enter : trxn.

Lemma completed_spec g tr : completed g tr = true <-> 0 < started g tr /\ started g tr = finished g tr.
Proof. unfold completed. rewrite andb_true_iff, Z.ltb_lt, Z.eqb_eq. done. Qed.

(** The numbers of the transactions of a trace. *)
Definition ids (tr : trace) : list Z := omap (fun x => match x.1 with Begin _ => Some x.2 | _ => None end) tr.

Definition begun (tr : trace) : Z := requested (map fst tr).
Definition given (tr : trace) : Z := transactions (map fst tr).

(** ** The invariant *)

Record Inv (tr : trace) (m : Manifest) (owing : list Z) : Prop := {
  iv_pos : Forall (fun x => match x.1 with Begin c | Finish _ c => 0 < c | Enter _ => True end) tr;
  iv_first : 32 <= next_trxn_id_ m;
  iv_next : group_of (next_trxn_id_ m) + (if 0 <? started (group_of (next_trxn_id_ m)) tr then 1 else 0) <= given tr + 1;
  iv_counts : forall g, 0 <= finished g tr <= started g tr /\ started g tr <= begun tr;
  iv_open : forall g, uncompleted_trxn_group_ m !! g = if started g tr =? finished g tr then None else Some (started g tr - finished g tr);
  iv_groups : forall g, 0 < started g tr -> 0 < g <= group_of (next_trxn_id_ m);
  iv_current : completed (group_of (next_trxn_id_ m)) tr = false;
  iv_ranges : ranges_ok 0 (completed_trxn_group_list_ m);
  iv_owing : NoDup owing /\ Forall (fun g => completed g tr = true) owing;
  iv_covers : forall g, covers (completed_trxn_group_list_ m) g <-> g = 0 \/ g = kLastGroup \/ completed g tr = true /\ g ∉ owing;
  iv_ids : StronglySorted Z.lt (ids tr) /\ Forall (fun id => id < next_trxn_id_ m) (ids tr);
  iv_closed : forall tr1 tr2 g, tr = tr1 ++ tr2 -> completed g tr1 = true -> started g tr2 = 0;
}.

Lemma Inv_init : Inv [] NewManifest [].
Proof.
  split; cbn [next_trxn_id_ uncompleted_trxn_group_ completed_trxn_group_list_ NewManifest length started finished]; try done; try lia.
  - split; [constructor|done].
  - intros g. rewrite !covers_cons. cbn [rg_start rg_end SingleGroup completed started finished].
    pose proof (covers_nil g). unfold completed. cbn [started finished]. intuition (done || lia).
  - by repeat constructor.
  - intros [|??] tr2 g ?; [|done]. by unfold completed.
Qed.

Lemma take_out_spec g l : NoDup l -> NoDup (take_out g l) /\ forall x, x ∈ take_out g l <-> x ∈ l /\ x <> g.
Proof.
  induction 1 as [|y l Hy Hn [IH1 IH2]]; cbn [take_out]; [split; [constructor|set_solver]|].
  destruct (Z.eqb_spec y g) as [->|Hne]; split; [done|set_solver|constructor; [|done]; rewrite IH2; tauto|set_solver].
Qed.

(** The group number of a small transaction number. *)
Lemma group_of_div id : group_of id = id / 32.
Proof. apply (Z.shiftr_div_pow2 id 5). lia. Qed.

Lemma finished_pos g tr : Forall (fun x => match x.1 with Begin c | Finish _ c => 0 < c | Enter _ => True end) tr -> 0 <= finished g tr.
Proof. induction 1 as [|[[c|t c|t] id] tr Hx _ IH]; cbn [finished fst] in *; try lia. destruct (t =? g); lia. Qed.

(** A group is completed for good: the transactions to come belong to later ones. *)
Lemma closed_snoc tr m ow x : Inv tr m ow ->
  (forall g, started g (tr ++ [x]) = started g tr \/ g = group_of (next_trxn_id_ m)) ->
  forall tr1 tr2 g, tr ++ [x] = tr1 ++ tr2 -> completed g tr1 = true -> started g tr2 = 0.
Proof.
  intros HI Hx tr1 tr2 g E Hc. destruct tr2 as [|y tr2 _] using rev_ind; [done|].
  rewrite app_assoc in E. apply app_inj_tail in E as [E ->].
  pose proof (iv_closed _ _ _ HI _ _ _ E Hc) as H0. destruct (Hx g) as [Hg| ->].
  - rewrite started_app in *. lia.
  - exfalso. pose proof (iv_current _ _ _ HI) as Hcur. pose proof (iv_counts _ _ _ HI (group_of (next_trxn_id_ m))) as Hn.
    apply completed_spec in Hc as [H1 H2]. apply not_true_iff_false in Hcur. apply Hcur, completed_spec. subst tr.
    pose proof (iv_pos _ _ _ HI) as Hp. apply Forall_app in Hp as [_ Hp]. pose proof (finished_pos (group_of (next_trxn_id_ m)) _ Hp).
    rewrite started_app, finished_app in *. lia.
Qed.

Lemma begun_snoc tr x : begun (tr ++ [x]) = begun tr + match x.1 with Begin c => Z.max 0 c | _ => 0 end.
Proof.
  unfold begun. rewrite map_app. cbn [map]. induction (map fst tr) as [|[c|t c|t] l IH]; cbn [requested app]; try lia.
  destruct (fst x); cbn [requested]; lia.
Qed.

Lemma given_snoc tr x : given (tr ++ [x]) = given tr + match x.1 with Begin _ => 1 | _ => 0 end.
Proof.
  unfold given. rewrite map_app. cbn [map]. induction (map fst tr) as [|[c|t c|t] l IH]; cbn [transactions app]; try lia.
  destruct (fst x); cbn [transactions]; lia.
Qed.

(** The number after the one that was given. *)
Lemma next_id_spec m c : 0 <= next_trxn_id_ m < 2 ^ 32 -> let '(id, m') := GetTrxnID m c in
  id = next_trxn_id_ m /\ id < next_trxn_id_ m' <= id + 32 /\ (group_of (next_trxn_id_ m') = group_of id \/ group_of (next_trxn_id_ m') = group_of id + 1) /\
  completed_trxn_group_list_ m' = completed_trxn_group_list_ m /\
  uncompleted_trxn_group_ m' = <[group_of id := match uncompleted_trxn_group_ m !! group_of id with None => c | Some d => u32 (d + c) end]> (uncompleted_trxn_group_ m).
Proof.
  intros Hm. unfold GetTrxnID. fold (group_of (next_trxn_id_ m)).
  set (next := if 4096 <? c then _ else _).
  assert (next_trxn_id_ m < next <= next_trxn_id_ m + 32 /\ (group_of next = group_of (next_trxn_id_ m) \/ group_of next = group_of (next_trxn_id_ m) + 1)) as [Hn1 Hn2].
  { unfold next. clear next. rewrite !group_of_div, Z.shiftl_mul_pow2 by (unfold TGID_SHIFT; lia). change (2 ^ TGID_SHIFT) with 32.
    destruct (4096 <? c); unfold u64; rewrite wrap_small by lia; lia. }
  clearbody next. assert (u32 (group_of (next_trxn_id_ m)) = group_of (next_trxn_id_ m)) as -> by (rewrite group_of_div; apply wrap_small; lia).
  change (uncompleted_trxn_group_ (m <| next_trxn_id_ := next |>)) with (uncompleted_trxn_group_ m).
  destruct (uncompleted_trxn_group_ m !! group_of (next_trxn_id_ m)) eqn:E; rewrite E; split_and!; done || apply Hn1 || apply Hn2.
Qed.

Lemma next_bound tr m ow : Inv tr m ow -> given tr < 2 ^ 27 - 1 -> 32 <= next_trxn_id_ m < 2 ^ 32.
Proof.
  intros HI Hg. pose proof (iv_first _ _ _ HI). pose proof (iv_next _ _ _ HI) as Hn. rewrite group_of_div in Hn. destruct (0 <? _); lia.
Qed.

Lemma begin_Inv tr m ow c : Inv tr m ow -> 0 < c -> begun tr + c < 2 ^ 32 -> given tr < 2 ^ 27 - 1 ->
  let '(id, m') := GetTrxnID m c in Inv (tr ++ [(Begin c, id)]) m' ow.
Proof.
  intros HI Hc Hb Hl. pose proof (next_bound _ _ _ HI Hl) as Hnx. pose proof (iv_next _ _ _ HI) as Hgv. pose proof (next_id_spec m c ltac:(lia)) as Hs.
  destruct (GetTrxnID m c) as [id m']. destruct Hs as (-> & Hn & HG & El & Eo). pose proof (iv_current _ _ _ HI) as Hcur.
  set (G := group_of (next_trxn_id_ m)) in *. set (G' := group_of (next_trxn_id_ m')) in *. pose proof (iv_groups _ _ _ HI) as Hgr. fold G in Hgr.
  assert (0 < G) as HG0 by (unfold G; rewrite group_of_div; lia).
  assert (started G tr = finished G tr -> started G tr = 0) as H0.
  { intros E. pose proof (iv_counts _ _ _ HI G). destruct (decide (started G tr = 0)); [done|]. apply not_true_iff_false in Hcur. exfalso. apply Hcur, completed_spec. lia. }
  assert (forall g, completed g tr = true <-> completed g (tr ++ [(Begin c, next_trxn_id_ m)]) = true) as Hcm.
  { intros g. rewrite !completed_spec. autorewrite with trxn. fold G. pose proof (iv_counts _ _ _ HI g).
    destruct (Z.eqb_spec G g) as [<-|]; [|rewrite Z.add_0_r; done]. lia. }
  split.
  - apply Forall_app. split; [apply HI|by repeat constructor].
  - lia.
  - autorewrite with trxn. rewrite given_snoc. cbn [fst]. fold G G'. destruct HG as [->| ->].
    + rewrite Z.eqb_refl. destruct (0 <? started G tr), (0 <? started G tr + c); lia.
    + destruct (Z.eqb_spec G (G + 1)); [lia|]. specialize (Hgr (G + 1)). destruct (Z.ltb_spec 0 (started (G + 1) tr + 0)); [lia|]. destruct (0 <? _); lia.
  - intros g. pose proof (iv_counts _ _ _ HI g). autorewrite with trxn. rewrite begun_snoc. cbn [fst]. fold G. destruct (G =? g); lia.
  - intros g. rewrite Eo. autorewrite with trxn. fold G. pose proof (iv_counts _ _ _ HI G) as HcG. rewrite (iv_open _ _ _ HI).
    destruct (Z.eqb_spec G g) as [<-|Hne]; [|rewrite lookup_insert_ne by done; rewrite (iv_open _ _ _ HI), Z.add_0_r; done].
    rewrite lookup_insert_eq. destruct (Z.eqb_spec (started G tr) (finished G tr)) as [E|E].
    + specialize (H0 E). destruct (Z.eqb_spec (started G tr + c) (finished G tr)); [lia|]. f_equal. lia.
    + destruct (Z.eqb_spec (started G tr + c) (finished G tr)); [lia|]. f_equal. unfold u32. rewrite wrap_small; lia.
  - intros g. autorewrite with trxn. fold G G'. specialize (Hgr g). destruct (Z.eqb_spec G g) as [<-|]; lia.
  - apply not_true_iff_false. rewrite completed_spec. autorewrite with trxn. fold G G'. intros [H1 H2].
    pose proof (iv_counts _ _ _ HI G). specialize (Hgr (G + 1)).
    destruct HG as [HG|HG]; rewrite HG in *; [rewrite Z.eqb_refl in *; lia|]. destruct (Z.eqb_spec G (G + 1)); lia.
  - rewrite El. apply HI.
  - destruct (iv_owing _ _ _ HI) as [Ho1 Ho2]. split; [done|]. eapply Forall_impl; [exact Ho2|]. intros g. by apply Hcm.
  - intros g. rewrite El, (iv_covers _ _ _ HI), Hcm. done.
  - destruct (iv_ids _ _ _ HI) as [Hs Hf]. unfold ids. rewrite omap_app. cbn [omap list_omap fst snd]. split.
    + apply StronglySorted_app. split; [|split; [|by repeat constructor]]; [|done].
      intros x y Hx ->%list_elem_of_singleton. by apply (proj1 (Forall_forall _ _) Hf).
    + apply Forall_app. split; [eapply Forall_impl; [exact Hf|]; cbn; lia|]. repeat constructor. lia.
  - apply (closed_snoc _ m ow); [done|]. intros g. autorewrite with trxn. fold G. destruct (Z.eqb_spec G g) as [->|]; [by right|left; lia].
Qed.

(** What the first part of [DecTrxnGroup] does to a group with [c] requests left,
    of which [cnt] are done. *)
Lemma dec_spec m tgid c cnt : uncompleted_trxn_group_ m !! tgid = Some c -> 0 < cnt <= c -> c < 2 ^ 32 ->
  0 < tgid -> (tgid + 1) * 32 < 2 ^ 32 ->
  let '(m', r) := dec_count m tgid cnt in r = (c =? cnt) /\ completed_trxn_group_list_ m' = completed_trxn_group_list_ m /\
    uncompleted_trxn_group_ m' = (if c =? cnt then delete tgid else <[tgid := c - cnt]>) (uncompleted_trxn_group_ m) /\
    next_trxn_id_ m' = if (c =? cnt) && (tgid =? group_of (next_trxn_id_ m)) then (tgid + 1) * 32 else next_trxn_id_ m.
Proof.
  intros Eo Hcnt Hc Ht Ht32. unfold dec_count. rewrite Eo. assert (u32 (c - cnt) = c - cnt) as -> by (apply wrap_small; lia). cbv zeta.
  destruct (Z.eqb_spec (c - cnt) 0) as [E|E], (Z.eqb_spec c cnt) as [E'|E']; try lia; cbn [andb]; [|done].
  assert (u32 (Z.shiftl (u32 (tgid + 1)) TGID_SHIFT) = (tgid + 1) * 32) as ->.
  { unfold u32. rewrite (wrap_small _ (tgid + 1)) by lia. rewrite Z.shiftl_mul_pow2 by (unfold TGID_SHIFT; lia). apply wrap_small. unfold TGID_SHIFT. lia. }
  fold (group_of (next_trxn_id_ m)). by destruct (tgid =? group_of (next_trxn_id_ m)).
Qed.

Lemma finish_Inv tr m ow g c : Inv tr m ow -> 0 < c <= started g tr - finished g tr -> begun tr < 2 ^ 32 -> given tr < 2 ^ 27 - 1 ->
  let '(m', r) := dec_count m g c in Inv (tr ++ [(Finish g c, 0)]) m' (if r : bool then g :: ow else ow).
Proof.
  intros HI Hc Hb Hl. pose proof (next_bound _ _ _ HI Hl) as Hnx. pose proof (iv_counts _ _ _ HI g) as Hg. pose proof (iv_open _ _ _ HI g) as Ho.
  destruct (Z.eqb_spec (started g tr) (finished g tr)); [lia|]. pose proof (iv_groups _ _ _ HI g ltac:(lia)) as Hgr. pose proof (iv_next _ _ _ HI) as Hgv.
  assert (group_of (next_trxn_id_ m) = g -> g + 1 <= given tr + 1) as Hcg.
  { intros E. rewrite E in Hgv. destruct (Z.ltb_spec 0 (started g tr)); lia. }
  assert (completed g tr = false) as Hnc by (apply not_true_iff_false; rewrite completed_spec; lia).
  assert ((g + 1) * 32 < 2 ^ 32) as Hg32 by (destruct (0 <? started (group_of (next_trxn_id_ m)) tr); lia).
  pose proof (dec_spec m g _ c Ho ltac:(lia) ltac:(lia) ltac:(lia) Hg32) as Hd. destruct (dec_count m g c) as [m' r]. destruct Hd as (-> & El & Eo & En).
  set (z := (g + 1) * 32) in *. rewrite group_of_div in Hgr.
  assert (next_trxn_id_ m <= next_trxn_id_ m' <= next_trxn_id_ m + 32) as Hn'.
  { rewrite En. destruct (_ =? c), (Z.eqb_spec g (group_of (next_trxn_id_ m))) as [Eg|]; cbn [andb]; try lia. rewrite group_of_div in Eg. lia. }
  assert (completed (group_of (next_trxn_id_ m')) (tr ++ [(Finish g c, 0)]) = false) as Hcur'.
  { apply not_true_iff_false. rewrite completed_spec. autorewrite with trxn. intros [H1 H2].
    pose proof (iv_groups _ _ _ HI _ H1) as Hle. rewrite !group_of_div in *.
    assert (next_trxn_id_ m' / 32 = next_trxn_id_ m / 32) as E2 by lia. rewrite E2 in *.
    pose proof (iv_current _ _ _ HI) as Hcur. apply not_true_iff_false in Hcur. rewrite completed_spec, group_of_div in Hcur.
    destruct (Z.eqb_spec g (next_trxn_id_ m / 32)) as [Eg|]; [|apply Hcur; lia]. rewrite <- Eg in *.
    rewrite (proj2 (Z.eqb_eq (started g tr - finished g tr) c) ltac:(lia)) in En. cbn [andb] in En. unfold z in *. lia. }
  assert (forall g', completed g' (tr ++ [(Finish g c, 0)]) = true <-> completed g' tr = true \/ g' = g /\ started g tr - finished g tr = c) as Hcm.
  { intros g'. rewrite !completed_spec. autorewrite with trxn. pose proof (iv_counts _ _ _ HI g'). destruct (Z.eqb_spec g g') as [<-|]; intuition lia. }
  destruct (iv_owing _ _ _ HI) as [Ho1 Ho2]. pose proof (proj1 (Forall_forall _ _) Ho2) as Ho3.
  split.
  - apply Forall_app. split; [apply HI|]. repeat constructor. cbn. lia.
  - lia.
  - autorewrite with trxn. rewrite given_snoc, En. cbn [fst].
    destruct (_ =? c), (Z.eqb_spec g (group_of (next_trxn_id_ m))) as [Eg|]; cbn [andb]; rewrite ?Z.add_0_r; try done.
    assert (group_of z = g + 1) as -> by (rewrite group_of_div; unfold z; lia). specialize (Hcg (eq_sym Eg)).
    pose proof (iv_groups _ _ _ HI (g + 1)) as Hg1. rewrite <- Eg in Hg1. destruct (Z.ltb_spec 0 (started (g + 1) tr)); lia.
  - intros g'. pose proof (iv_counts _ _ _ HI g'). autorewrite with trxn. rewrite begun_snoc. cbn [fst]. destruct (Z.eqb_spec g g') as [<-|]; lia.
  - intros g'. rewrite Eo. autorewrite with trxn. destruct (Z.eqb_spec g g') as [<-|Hne].
    + destruct (Z.eqb_spec (started g tr - finished g tr) c); [rewrite lookup_delete_eq|rewrite lookup_insert_eq];
        destruct (Z.eqb_spec (started g tr) (finished g tr + c)); try lia; [done|f_equal; lia].
    + rewrite Z.add_0_r. destruct (_ =? c); [rewrite lookup_delete_ne by done|rewrite lookup_insert_ne by done]; apply HI.
  - intros g'. autorewrite with trxn. intros Hs. pose proof (iv_groups _ _ _ HI g' Hs). rewrite !group_of_div in *. lia.
  - done.
  - rewrite El. apply HI.
  - destruct (Z.eqb_spec (started g tr - finished g tr) c) as [E|E].
    + split; [constructor; [intros Hin; by rewrite (Ho3 g Hin) in Hnc|done]|]. constructor; [apply Hcm; auto|]. eapply Forall_impl; [exact Ho2|]. intros x Hx. apply Hcm. by left.
    + split; [done|]. eapply Forall_impl; [exact Ho2|]. intros x Hx. apply Hcm. by left.
  - intros g'. rewrite El, (iv_covers _ _ _ HI), Hcm. destruct (Z.eqb_spec (started g tr - finished g tr) c) as [E|E]; [|intuition].
    rewrite not_elem_of_cons. destruct (decide (g' = g)) as [->|]; [rewrite Hnc; intuition done|]. intuition.
  - destruct (iv_ids _ _ _ HI) as [Hs Hf]. unfold ids. rewrite omap_app. cbn [omap list_omap fst snd]. rewrite app_nil_r. split; [done|].
    eapply Forall_impl; [exact Hf|]. cbn. lia.
  - apply (closed_snoc _ m ow); [done|]. intros g'. left. by autorewrite with trxn.
Qed.

Lemma enter_Inv tr m ow g : Inv tr m ow -> g ∈ ow -> given tr < 2 ^ 27 - 1 ->
  exists m', enter_completed m g = Some m' /\ Inv (tr ++ [(Enter g, 0)]) m' (take_out g ow).
Proof.
  intros HI Hin Hl. pose proof (next_bound _ _ _ HI Hl) as Hnx. destruct (iv_owing _ _ _ HI) as [Hn Ho]. rewrite Forall_forall in Ho.
  pose proof (Ho g Hin) as Hcg. pose proof (proj1 (proj1 (completed_spec g tr) Hcg)) as Hst. pose proof (iv_groups _ _ _ HI g Hst) as Hg. rewrite group_of_div in Hg.
  destruct (take_out_spec g ow Hn) as [Hn' Hin'].
  destruct (add_range_spec g) with (lo := 0) (l := completed_trxn_group_list_ m) as (l' & Hl' & Hok & Hcov); [unfold kLastGroup; lia|lia|apply HI|lia| |].
  { rewrite (iv_covers _ _ _ HI). unfold kLastGroup. intuition lia. }
  unfold enter_completed. rewrite Hl'. cbn [mbind option_bind]. eexists. split; [done|].
  assert (forall g', completed g' (tr ++ [(Enter g, 0)]) = completed g' tr) as Hcm by (intros g'; unfold completed; by autorewrite with trxn).
  destruct HI as [H1 H2 H3 H4 H5 H6 H7 H8 H9 H10 H11 H12] eqn:E; clear E.
  split; cbn [next_trxn_id_ uncompleted_trxn_group_ completed_trxn_group_list_]; try (intros; autorewrite with trxn; rewrite ?begun_snoc, ?given_snoc; cbn [fst]; rewrite ?Z.add_0_r; by eauto).
  - apply Forall_app. split; [done|]. by repeat constructor.
  - intros g'. autorewrite with trxn. apply H6.
  - split; [done|]. apply Forall_forall. intros x [Hx _]%Hin'. rewrite Hcm. by apply Ho.
  - intros g'. rewrite Hcov, H10, Hcm, Hin'. destruct (decide (g' = g)) as [->|]; intuition.
  - unfold ids in *. rewrite omap_app. cbn [omap list_omap fst snd]. by rewrite app_nil_r.
  - apply (closed_snoc _ m ow); [done|]. intros g'. left. by autorewrite with trxn.
Qed.

Lemma step_Inv tr t e : Inv tr (th_mf t) (th_owing t) -> event_fair tr t e = true -> begun tr + requested [e] < 2 ^ 32 -> given tr < 2 ^ 27 - 1 ->
  exists id t', trxn_step t e = Some (id, t') /\ Inv (tr ++ [(e, id)]) (th_mf t') (th_owing t').
Proof.
  intros HI He Hr Hl. destruct e as [c|g c|g]; cbn [event_fair trxn_step requested] in *.
  - apply Z.ltb_lt in He. pose proof (begin_Inv tr _ _ c HI He ltac:(lia) Hl) as H. destruct (GetTrxnID (th_mf t) c) as [id m']. by eexists id, _.
  - apply andb_true_iff in He as [H1%Z.ltb_lt H2%Z.leb_le]. pose proof (finish_Inv tr _ _ g c HI ltac:(lia) ltac:(lia) Hl) as H.
    destruct (dec_count (th_mf t) g c) as [m' r]. by eexists 0, _.
  - apply bool_decide_eq_true in He. destruct (enter_Inv tr _ _ g HI He Hl) as (m' & -> & HI'). by eexists 0, _.
Qed.

Lemma run_Inv es : forall tr t, Inv tr (th_mf t) (th_owing t) -> fair tr t es = true -> begun tr + requested es < 2 ^ 32 ->
  given tr + transactions es < 2 ^ 27 - 1 -> exists tr' t', trxn_run t es = Some (tr', t') /\ Inv (tr ++ tr') (th_mf t') (th_owing t').
Proof.
  induction es as [|e es IH]; intros tr t HI Hf Hr Hl; [by exists [], t; rewrite app_nil_r|]. cbn [fair trxn_run] in *.
  apply andb_true_iff in Hf as [He Hf]. pose proof (requested_pos es). pose proof (transactions_pos es).
  destruct (step_Inv tr t e HI He) as (id & t' & E & HI'); [destruct e; cbn [requested transactions] in *; lia..|].
  rewrite E in *. cbn [mbind option_bind]. destruct (IH _ _ HI' Hf) as (tr' & t2 & -> & HI2).
  - rewrite begun_snoc. cbn [fst]. destruct e; cbn [requested] in Hr; lia.
  - rewrite given_snoc. cbn [fst]. destruct e; cbn [transactions] in Hl; lia.
  - exists ((e, id) :: tr'), t2. split; [done|]. by rewrite <- app_assoc in HI2.
Qed.

(** ** What the groups promise *)

(** C21: transaction groups.  Take any sequence of fewer than 2^27 - 1 transactions,
    with fewer than 2^32 requests together, in which a request reaches the device
    once and after it was started, however the two locked parts of the calls that
    count the requests down are interleaved.  Then no step fails; the numbers of
    the transactions increase; a group counts as completed in memory exactly when
    none of its requests is missing; the stored ranges are in order with gaps
    between them, and they name exactly the groups that had requests and have none
    missing, except for those a call has still to enter, and the two reserved
    groups; and a group that was completed once gets no further transaction, so
    that a stored range stays true.  [trxn_numbers_wrap]: after 2^27 - 1
    transactions the numbers may start over. *)
Theorem completed_groups_correct (es : list trxn_event) :
  fair [] NewThreads es = true -> requested es < 2 ^ 32 -> transactions es < 2 ^ 27 - 1 ->
  exists tr t, trxn_run NewThreads es = Some (tr, t) /\ StronglySorted Z.lt (ids tr) /\
    (forall g, IsTrxnGroupCompleted (th_mf t) g = (started g tr =? finished g tr)) /\
    ranges_ok 0 (CopyCompletedTrxnGroupRange (th_mf t) []) /\
    (forall g, IsCompletedTrxnGroupRange (CopyCompletedTrxnGroupRange (th_mf t) []) g = true <->
       g = 0 \/ g = kLastGroup \/ completed g tr = true /\ g ∉ th_owing t) /\
    (forall tr1 tr2 g, tr = tr1 ++ tr2 -> completed g tr1 = true -> started g tr2 = 0).
Proof.
  intros Hf Hr Hl. destruct (run_Inv es [] NewThreads Inv_init Hf) as (tr & t & E & HI); [done|done|]. exists tr, t. split; [done|].
  split; [apply HI|]. split.
  - intros g. unfold IsTrxnGroupCompleted. rewrite (iv_open _ _ _ HI). cbn [app]. by destruct (started g tr =? finished g tr).
  - split; [apply HI|]. split; [|apply HI]. intros g. rewrite covered_spec. apply HI.
Qed.

(** The second group is completed first; the first one has still to be entered. *)
Lemma completed_groups_correct_witness : let es := [Begin 2; Begin 5000; Begin 3; Finish 2 3; Finish 1 4000; Finish 1 1002; Enter 2; Begin 7] in
  fair [] NewThreads es = true /\
  exists tr t, trxn_run NewThreads es = Some (tr, t) /\ ids tr = [32; 33; 64; 96] /\ th_owing t = [1] /\ StronglySorted Z.lt (ids tr) /\
    forall g, IsCompletedTrxnGroupRange (CopyCompletedTrxnGroupRange (th_mf t) []) g = true <->
       g = 0 \/ g = kLastGroup \/ completed g tr = true /\ g ∉ th_owing t.
Proof.
  intros es. split; [by vm_compute|].
  destruct (completed_groups_correct es) as (tr & t & E & Hs & _ & _ & H & _); [by vm_compute..|]. exists tr, t.
  pose proof E as E'. vm_compute in E'. injection E' as <- <-. done.
Defined.

(** ** When the numbers run out *)

Definition drained (k : Z) : Manifest :=
  {| next_trxn_id_ := u32 (32 * k); uncompleted_trxn_group_ := ∅;
     completed_trxn_group_list_ := [{| rg_start := 0; rg_end := k - 1 |}; SingleGroup kLastGroup] |}.

(** [n] transactions of one request, each finished and entered before the next. *)
Fixpoint one_by_one (k : Z) (n : nat) : list trxn_event :=
  match n with O => [] | S n => Begin 1 :: Finish k 1 :: Enter k :: one_by_one (k + 1) n end.

Lemma Manifest_ext m m' : next_trxn_id_ m = next_trxn_id_ m' -> uncompleted_trxn_group_ m = uncompleted_trxn_group_ m' ->
  completed_trxn_group_list_ m = completed_trxn_group_list_ m' -> m = m'.
Proof. destruct m, m'; cbn. by intros -> -> ->. Qed.

Lemma drained_step k : 1 <= k < 2 ^ 27 ->
  let '(id, m) := GetTrxnID (drained k) 1 in id = 32 * k /\
  let '(m, r) := dec_count m k 1 in r = true /\ enter_completed m k = Some (drained (k + 1)).
Proof.
  intros Hk. assert (u32 (32 * k) = 32 * k) as E by (apply wrap_small; lia).
  unfold GetTrxnID. change (4096 <? 1) with false. simpl. rewrite E, lookup_empty.
  fold (group_of (32 * k)). assert (group_of (32 * k) = k) as -> by (rewrite group_of_div; lia).
  assert (u32 k = k) as -> by (apply wrap_small; lia). assert (u64 (32 * k + 1) = 32 * k + 1) as -> by (apply wrap_small; lia).
  split; [done|]. unfold dec_count. simpl. rewrite insert_empty, lookup_singleton_eq. change (u32 (1 - 1) =? 0) with true. cbv iota.
  fold (group_of (32 * k + 1)). assert (group_of (32 * k + 1) = k) as -> by (rewrite group_of_div; lia). rewrite Z.eqb_refl. simpl.
  split; [done|]. unfold enter_completed. simpl.
  change (u32 (0 - 1)) with kLastGroup. change (u32 (kLastGroup - 1)) with (kLastGroup - 1). rewrite (u32_succ (k - 1)) by lia. unfold kLastGroup.
  destruct (Z.eqb_spec k 0xFFFFFFFF), (Z.ltb_spec k 0), (Z.eqb_spec (k - 1) 0xFFFFFFFF), (Z.eqb_spec (k - 1 + 1) k), (Z.eqb_spec k (0xFFFFFFFF - 1)); try lia.
  simpl. apply f_equal, Manifest_ext; simpl.
  - unfold TGID_SHIFT, u32. rewrite (wrap_small 32 (k + 1)), Z.shiftl_mul_pow2 by lia. f_equal. lia.
  - by rewrite insert_empty, delete_singleton_eq.
  - by rewrite Z.add_simpl_r.
Qed.

Definition idle (k : Z) : threads := {| th_mf := drained k; th_owing := [] |}.

Lemma one_by_one_run n : forall k tr, 1 <= k -> k + Z.of_nat n <= 2 ^ 27 -> (forall g, k <= g -> started g tr = 0 /\ finished g tr = 0) ->
  fair tr (idle k) (one_by_one k n) = true /\ exists tr', trxn_run (idle k) (one_by_one k n) = Some (tr', idle (k + Z.of_nat n)).
Proof.
  induction n as [|n IH]; intros k tr Hk Hn Htr; [split; [done|]; exists []; by rewrite Z.add_0_r|].
  pose proof (drained_step k ltac:(lia)) as Hs. cbn [one_by_one fair trxn_run trxn_step event_fair idle th_mf th_owing]. destruct (GetTrxnID (drained k) 1) as [id m].
  destruct Hs as [-> Ed]. cbn [mbind option_bind th_mf th_owing]. destruct (dec_count m k 1) as [m1 r]. destruct Ed as [-> Ed].
  cbn [mbind option_bind th_mf th_owing take_out]. rewrite Ed, Z.eqb_refl. cbn [mbind option_bind].
  autorewrite with trxn. rewrite group_of_div. replace (32 * k / 32) with k by lia. rewrite Z.eqb_refl, bool_decide_true by (by left).
  destruct (Htr k) as [-> ->]; [lia|]. change (1 <=? 0 + 1 - 0) with true. change (0 <? 1) with true. cbn [andb].
  destruct (IH (k + 1) (((tr ++ [(Begin 1, 32 * k)]) ++ [(Finish k 1, 0)]) ++ [(Enter k, 0)])) as [Hf (tr' & E)]; [lia|lia| |].
  { intros g Hg. autorewrite with trxn. rewrite group_of_div. replace (32 * k / 32) with k by lia.
    destruct (Htr g) as [-> ->], (Z.eqb_spec k g); lia. }
  fold (idle (k + 1)). rewrite Hf. split; [done|]. eexists. rewrite E. replace (k + Z.of_nat (S n)) with (k + 1 + Z.of_nat n) by lia. done.
Qed.

(** The numbers run out.  The comments promise 2^37 transactions, but
    [DecTrxnGroup] computes the first number of the next group in 32 bits.  After
    2^27 - 1 transactions of one request each the next one gets the number 0, which
    stands for requests outside of transactions: its group is among the completed
    ones although its request is not on the device. *)
Theorem trxn_numbers_wrap : exists es tr m, fair [] NewThreads es = true /\ transactions es = 2 ^ 27 - 1 /\
  trxn_run NewThreads es = Some (tr, {| th_mf := m; th_owing := [] |}) /\
  let '(id, m') := GetTrxnID m 1 in
  id = 0 /\ IsTrxnGroupCompleted m' (group_of id) = false /\ IsCompletedTrxnGroupRange (CopyCompletedTrxnGroupRange m' []) (group_of id) = true.
Proof.
  assert (Z.of_nat (Z.to_nat (2 ^ 27 - 1)) = 2 ^ 27 - 1) as En by (apply Z2Nat.id; lia). revert En. generalize (Z.to_nat (2 ^ 27 - 1)). intros n En.
  destruct (one_by_one_run n 1 []) as [Hf (tr & E)]; [lia|lia|done|]. exists (one_by_one 1 n), tr, (drained (2 ^ 27)).
  assert (NewThreads = idle 1) as -> by done. split; [done|]. split.
  { rewrite <- En. clear. generalize 1 at 1. induction n as [|n IH]; intros k; [done|]. cbn [one_by_one transactions]. specialize (IH (k + 1)). lia. }
  split; [rewrite E; unfold idle; do 3 f_equal; f_equal; lia|]. by vm_compute.
Qed.
