(* ===== verification/TrxnRecovery.v ===== *)
(** * Recovery of InSDB: the transactions of the logs

    After a crash the logs hold columns of transactions of which some parts may be
    missing.  [DBRecovery] counts the columns that each worker finds, puts the counts of
    the workers together, and takes the columns of the transactions that stay incomplete
    out again, with the transactions that were merged into them (db/manifest.cc).  Reading
    the logs, the bitmaps of the key blocks and the key map are not modelled: a column is
    given with its transaction, and the result is the list of the columns that go to the
    key map.  Assertions are compiled out (-DNDEBUG), as in the Makefile. *)

From Stdlib Require Import ZArith Lia Bool.
From stdpp Require Import base list gmap.
From S2P Require Import Prelude TrxnGroups.

Section Code.
  Context {A : Type}.

Record TransactionColCount : Type := { tc_count : Z; tc_completed : Z }.

(** [std::unordered_map<TransactionID, TransactionColCount>]. *)
Abbreviation TRXNList := (gmap Z TransactionColCount).

(** A column and what the recovery uses of its [TrxnInfo]. *)
Record ColumnInfo : Type := { ci_column : A; ci_id : Z; ci_count : Z; ci_merged : list (Z * Z) }.

Definition GetTrxnGroupID (c : ColumnInfo) : Z := u32 (Z.shiftr (ci_id c) TGID_SHIFT).

Definition AddCompletedColumn (l : TRXNList) (col_trxn_id count : Z) : TRXNList * bool :=
  match l !! col_trxn_id with
  | None => (<[col_trxn_id := {| tc_count := count; tc_completed := 1 |}]> l, false)
  | Some trxn =>
      let completed := u32 (tc_completed trxn + 1) in
      if tc_count trxn =? completed then (delete col_trxn_id l, true)
      else (<[col_trxn_id := {| tc_count := tc_count trxn; tc_completed := completed |}]> l, false)
  end.

Definition AddUncompletedColumn (l : TRXNList) (col_trxn_id count : Z) : TRXNList :=
  match l !! col_trxn_id with
  | None => <[col_trxn_id := {| tc_count := count; tc_completed := 0 |}]> l
  | Some _ => l
  end.

(** What a worker has: its transactions, its columns, and those in the key map. *)
Record Worker : Type := { UncompletedTRXNList : TRXNList; UncompletedKeyList : list ColumnInfo; keymap : list ColumnInfo }.
Definition NewWorker : Worker := {| UncompletedTRXNList := ∅; UncompletedKeyList := []; keymap := [] |}.

(** The loop of [ThreadFn] over the columns of a key block. *)
Definition recover_column (completed_trxn_groups : list TrxnGroupRange) (w : Worker) (colinfo : ColumnInfo) : Worker :=
  if IsCompletedTrxnGroupRange completed_trxn_groups (GetTrxnGroupID colinfo)
  then {| UncompletedTRXNList := UncompletedTRXNList w; UncompletedKeyList := UncompletedKeyList w; keymap := keymap w ++ [colinfo] |}
  else
    let '(l, trxn_completed) := AddCompletedColumn (UncompletedTRXNList w) (ci_id colinfo) (ci_count colinfo) in
    if trxn_completed : bool
    then {| UncompletedTRXNList := fold_left (fun l t => (AddCompletedColumn l t.1 t.2).1) (ci_merged colinfo) l;
            UncompletedKeyList := UncompletedKeyList w; keymap := keymap w |}
    else {| UncompletedTRXNList := l; UncompletedKeyList := UncompletedKeyList w ++ [colinfo]; keymap := keymap w |}.

Definition recover_columns (completed_trxn_groups : list TrxnGroupRange) (cols : list ColumnInfo) : Worker :=
  fold_left (recover_column completed_trxn_groups) cols NewWorker.

(** The results of the workers put together; [order] is the order in which the
    transactions of a worker are enumerated. *)
Definition merge_worker (order : TRXNList -> list (Z * TransactionColCount)) (s : TRXNList * list ColumnInfo) (w : Worker) : TRXNList * list ColumnInfo :=
  (fold_left (fun l t => (AddCompletedColumn l t.1 (tc_count t.2)).1) (order (UncompletedTRXNList w)) s.1, s.2 ++ UncompletedKeyList w).

Definition merge_workers (order : TRXNList -> list (Z * TransactionColCount)) (ws : list Worker) : TRXNList * list ColumnInfo :=
  fold_left (merge_worker order) ws (∅, []).

(** One pass from [restart_all_workers]: the first column of an uncompleted transaction
    is taken out. *)
Fixpoint resolve_pass (l : TRXNList) (cols : list ColumnInfo) : option (TRXNList * list ColumnInfo) :=
  match cols with
  | [] => None
  | c :: cols =>
      match l !! ci_id c with
      | Some _ => Some (fold_left (fun l t => AddUncompletedColumn l t.1 t.2) (ci_merged c) l, cols)
      | None => '(l', cols') ← resolve_pass l cols; Some (l', c :: cols')
      end
  end.

Fixpoint resolve (fuel : nat) (l : TRXNList) (cols : list ColumnInfo) : option (TRXNList * list ColumnInfo) :=
  match fuel with
  | O => None
  | S fuel => match resolve_pass l cols with Some (l', cols') => resolve fuel l' cols' | None => Some (l, cols) end
  end.

(** The columns that [RunRecovery] puts in the key map. *)
Definition recovered (fuel : nat) (completed_trxn_groups : list TrxnGroupRange) (order : TRXNList -> list (Z * TransactionColCount)) (logs : list (list ColumnInfo)) : option (list ColumnInfo) :=
  let ws := map (recover_columns completed_trxn_groups) logs in
  let '(l, cols) := merge_workers order ws in
  '(_, cols) ← resolve fuel l cols;
  Some (concat (map keymap ws) ++ cols).
End Code.
Arguments ColumnInfo : clear implicits.
Arguments Worker : clear implicits.

(** ** Resolving terminates with the least set of transactions *)

Section Resolve.
  Context {A : Type}.
  Local Abbreviation ColumnInfo := (ColumnInfo A).
  Abbreviation TRXNs := (gmap Z TransactionColCount).

Lemma AddUncompletedColumn_dom (l : TRXNs) id count id' : is_Some (AddUncompletedColumn l id count !! id') <-> id' = id \/ is_Some (l !! id').
Proof.
  unfold AddUncompletedColumn. destruct (l !! id) as [t|] eqn:E.
  - split; [by right|]. intros [->|]; [by exists t|done].
  - rewrite lookup_insert_is_Some'. naive_solver.
Qed.

Lemma add_merged_dom ts : forall (l : TRXNs) id, is_Some (fold_left (fun l t => AddUncompletedColumn l t.1 t.2) ts l !! id) <-> id ∈ map fst ts \/ is_Some (l !! id).
Proof.
  induction ts as [|t ts IH]; intros l id; cbn [fold_left map]; [rewrite elem_of_nil; naive_solver|]. rewrite IH, AddUncompletedColumn_dom, elem_of_cons. naive_solver.
Qed.

Lemma resolve_pass_spec (cols : list ColumnInfo) : forall l, match resolve_pass l cols with
  | Some (l', cols') => exists a c b, cols = a ++ c :: b /\ cols' = a ++ b /\ is_Some (l !! ci_id c) /\ l' = fold_left (fun l t => AddUncompletedColumn l t.1 t.2) (ci_merged c) l
  | None => Forall (fun c => l !! ci_id c = None) cols
  end.
Proof.
  induction cols as [|c cols IH]; intros l; cbn [resolve_pass]; [constructor|]. destruct (l !! ci_id c) as [t|] eqn:E; [exists [], c, cols; by rewrite E|].
  specialize (IH l). destruct (resolve_pass l cols) as [[l' cols']|]; cbn [mbind option_bind]; [|by constructor].
  destruct IH as (a & c' & b & -> & -> & Hc & ->). by exists (c :: a), c', b.
Qed.

(** A set of transactions that has, with the transaction of a column, those that were
    merged into it. *)
Definition closed (cols : list ColumnInfo) (P : Z -> Prop) : Prop := Forall (fun c => P (ci_id c) -> Forall (fun t => P t.1) (ci_merged c)) cols.

Lemma resolve_spec fuel : forall l (cols : list ColumnInfo), (length cols < fuel)%nat -> exists l' cols', resolve fuel l cols = Some (l', cols') /\
  (forall id, is_Some (l !! id) -> is_Some (l' !! id)) /\ closed cols (fun id => is_Some (l' !! id)) /\
  (forall P : Z -> Prop, (forall id, is_Some (l !! id) -> P id) -> closed cols P -> forall id, is_Some (l' !! id) -> P id) /\
  cols' = filter (fun c => l' !! ci_id c = None) cols.
Proof.
  induction fuel as [|fuel IH]; intros l cols Hf; [lia|]. cbn [resolve]. pose proof (resolve_pass_spec cols l) as Hp. destruct (resolve_pass l cols) as [[l1 cols1]|].
  - destruct Hp as (a & c & b & -> & -> & Hc & ->). destruct (IH (fold_left (fun l t => AddUncompletedColumn l t.1 t.2) (ci_merged c) l) (a ++ b)) as (l' & cols' & E & H1 & H2 & H3 & H4).
    { rewrite length_app in *. cbn [length] in Hf. lia. }
    assert (is_Some (l' !! ci_id c)) as Hc' by (apply H1, add_merged_dom; by right). assert (Forall (fun t => is_Some (l' !! t.1)) (ci_merged c)) as Hm.
    { apply Forall_forall. intros t Ht. apply H1, add_merged_dom. left. by apply list_elem_of_fmap_2. }
    exists l', cols'. split; [done|]. split; [|split; [|split]].
    + intros id Hid. apply H1, add_merged_dom. by right.
    + unfold closed in *. rewrite Forall_app, Forall_cons in *. tauto.
    + intros P HP Hcl id. unfold closed in *. rewrite Forall_app, Forall_cons in Hcl. destruct Hcl as (Ha & Hcc & Hb). apply H3; [|by apply Forall_app].
      intros id' [Hin|Hid]%add_merged_dom; [|by apply HP]. specialize (Hcc (HP _ Hc)). rewrite Forall_forall in Hcc. apply list_elem_of_fmap in Hin as (t & -> & Ht). by apply Hcc.
    + rewrite H4, !filter_app, filter_cons_False; [done|]. destruct Hc' as [x ->]. done.
  - exists l, cols. split; [done|]. split; [done|]. split; [|split; [naive_solver|]].
    + eapply Forall_impl; [exact Hp|]. cbn. intros c Hc [x Hx]. congruence.
    + clear -Hp. induction Hp as [|c cols Hc _ IHc]; [done|]. by rewrite filter_cons_True, <- IHc.
Qed.
End Resolve.

(** ** What is lost *)

(** C24: the columns that a recovery takes out of the ones that it found are those of the
    least set of transactions that has the uncompleted ones and, with the transaction of a
    column, the ones merged into it: the search, which starts again after each column,
    ends after at most as many rounds as there are columns, and keeps the others in their
    order. *)
Theorem resolve_least_closed {A} fuel (l : gmap Z TransactionColCount) (cols : list (ColumnInfo A)) : (length cols < fuel)%nat -> exists l' cols', resolve fuel l cols = Some (l', cols') /\
  let doomed id := is_Some (l' !! id) in
  (forall id, is_Some (l !! id) -> doomed id) /\ closed cols doomed /\
  (forall P : Z -> Prop, (forall id, is_Some (l !! id) -> P id) -> closed cols P -> forall id, doomed id -> P id) /\
  cols' = filter (fun c => l' !! ci_id c = None) cols.
Proof. apply resolve_spec. Qed.

Section Lost.
  Context {A : Type}.

Lemma AddCompletedColumn_singleton id t count : AddCompletedColumn {[id := t]} id count =
  if tc_count t =? u32 (tc_completed t + 1) then (∅, true) else ({[id := {| tc_count := tc_count t; tc_completed := u32 (tc_completed t + 1) |}]}, false).
Proof. unfold AddCompletedColumn. rewrite lookup_singleton_eq, delete_singleton_eq, insert_singleton_eq. done. Qed.

Lemma recover_same id count (cols : list (ColumnInfo A)) : Forall (fun c => ci_id c = id /\ ci_count c = count /\ ci_merged c = []) cols -> count < 2 ^ 32 -> forall groups done,
  IsCompletedTrxnGroupRange groups (u32 (Z.shiftr id TGID_SHIFT)) = false -> (0 < length done)%nat -> Z.of_nat (length done + length cols) < count ->
  fold_left (recover_column groups) cols {| UncompletedTRXNList := {[id := {| tc_count := count; tc_completed := Z.of_nat (length done) |}]}; UncompletedKeyList := done; keymap := [] |} =
  {| UncompletedTRXNList := {[id := {| tc_count := count; tc_completed := Z.of_nat (length done + length cols) |}]}; UncompletedKeyList := done ++ cols; keymap := [] |}.
Proof.
  induction 1 as [|c cols (Hid & Hcount & Hm) _ IH]; intros Hlt groups done Hg Hd Hl; cbn [fold_left length]; [by rewrite Nat.add_0_r, app_nil_r|].
  unfold recover_column at 2, GetTrxnGroupID. rewrite Hid, Hg. cbn [UncompletedTRXNList UncompletedKeyList keymap]. rewrite AddCompletedColumn_singleton. cbn [tc_count tc_completed].
  cbn [length] in Hl. assert (u32 (Z.of_nat (length done) + 1) = Z.of_nat (length done) + 1) as -> by (apply wrap_small; lia). destruct (Z.eqb_spec count (Z.of_nat (length done) + 1)); [lia|].
  replace (Z.of_nat (length done) + 1) with (Z.of_nat (length (done ++ [c]))) by (rewrite length_app; cbn [length]; lia).
  rewrite IH; [|done|done|rewrite length_app; cbn [length]; lia..]. rewrite length_app, <- app_assoc. cbn [length app]. by replace (length done + 1 + length cols)%nat with (length done + S (length cols))%nat by lia.
Qed.

Lemma recover_first id count (c : ColumnInfo A) cols groups : Forall (fun c => ci_id c = id /\ ci_count c = count /\ ci_merged c = []) (c :: cols) -> count < 2 ^ 32 ->
  IsCompletedTrxnGroupRange groups (u32 (Z.shiftr id TGID_SHIFT)) = false -> Z.of_nat (length (c :: cols)) < count ->
  recover_columns groups (c :: cols) =
  {| UncompletedTRXNList := {[id := {| tc_count := count; tc_completed := Z.of_nat (length (c :: cols)) |}]}; UncompletedKeyList := c :: cols; keymap := [] |}.
Proof.
  intros Hc Hlt Hg Hl. apply Forall_cons in Hc as [(Hid & Hcount & Hm) Hc]. unfold recover_columns. cbn [fold_left].
  unfold recover_column at 2, GetTrxnGroupID. rewrite Hid, Hg. cbn [UncompletedTRXNList UncompletedKeyList keymap NewWorker app]. unfold AddCompletedColumn at 1. rewrite lookup_empty, insert_empty, Hcount.
  cbn [length] in Hl. apply (recover_same id count cols Hc Hlt groups [c] Hg); cbn [length]; lia.
Qed.

(** The column that completes a transaction is lost.  When a worker finds all columns
    of a transaction of a group that is not completed, the last one of them is neither
    kept in its list nor put in the key map, while the others are. *)
Theorem completing_column_lost id count (c : ColumnInfo A) cols last groups order fuel : let trxn := c :: cols ++ [last] in
  Forall (fun c => ci_id c = id /\ ci_count c = count /\ ci_merged c = []) trxn -> Z.of_nat (length trxn) = count -> count < 2 ^ 32 ->
  IsCompletedTrxnGroupRange groups (u32 (Z.shiftr id TGID_SHIFT)) = false -> order ∅ = [] -> (length trxn < fuel)%nat ->
  recovered fuel groups order [trxn] = Some (c :: cols).
Proof.
  intros trxn Hc Hl Hlt Hg Ho Hf. unfold trxn in *. rewrite (app_comm_cons cols [last] c) in *. rewrite Forall_app, Forall_singleton in Hc. destruct Hc as [Hc (Hid & Hcount & Hm)].
  rewrite length_app in Hl, Hf. cbn [length] in Hl, Hf.
  assert (recover_columns groups (c :: cols ++ [last]) = {| UncompletedTRXNList := ∅; UncompletedKeyList := c :: cols; keymap := [] |}) as E.
  { rewrite app_comm_cons. unfold recover_columns. rewrite fold_left_app. fold (recover_columns groups (c :: cols)). rewrite (recover_first id count) by (done || cbn [length]; lia). cbn [fold_left].
    unfold recover_column, GetTrxnGroupID. rewrite Hid, Hg. cbn [UncompletedTRXNList UncompletedKeyList keymap]. rewrite AddCompletedColumn_singleton. cbn [tc_count tc_completed length].
    unfold u32. rewrite wrap_small by lia. destruct (Z.eqb_spec count (Z.of_nat (S (length cols)) + 1)); [|lia]. by rewrite Hm. }
  unfold recovered, merge_workers, merge_worker. cbn [map fold_left fst snd app]. rewrite E. cbn [UncompletedTRXNList UncompletedKeyList keymap concat app]. rewrite Ho. cbn [fold_left].
  destruct (resolve_spec fuel ∅ (c :: cols)) as (l' & cols' & -> & _ & _ & Hmin & ->); [cbn [length]; lia|]. cbn [mbind option_bind]. f_equal.
  assert (forall id', l' !! id' = None) as Hnone.
  { intros id'. apply eq_None_not_Some. intros Hs. apply (Hmin (fun _ => False)) in Hs; [done|intros i; rewrite lookup_empty; by intros []|by apply Forall_true]. }
  clear -Hnone. induction (c :: cols) as [|c' l IH]; [done|]. by rewrite filter_cons_True, IH.
Qed.




End Lost.

(** ** Examples *)

Definition demo_column_info (name id count : Z) (merged : list (Z * Z)) : ColumnInfo Z := {| ci_column := name; ci_id := id; ci_count := count; ci_merged := merged |}.

Lemma resolve_least_closed_witness : exists l' cols',
  resolve 4 {[40 := {| tc_count := 2; tc_completed := 1 |}]} [demo_column_info 1 41 2 []; demo_column_info 2 40 2 [(41, 2)]; demo_column_info 3 42 2 []] = Some (l', cols') /\
  cols' = filter (fun c => l' !! ci_id c = None) [demo_column_info 1 41 2 []; demo_column_info 2 40 2 [(41, 2)]; demo_column_info 3 42 2 []] /\ is_Some (l' !! 40).
Proof.
  destruct (resolve_least_closed 4 {[40 := {| tc_count := 2; tc_completed := 1 |}]} [demo_column_info 1 41 2 []; demo_column_info 2 40 2 [(41, 2)]; demo_column_info 3 42 2 []]) as (l' & cols' & E & H1 & _ & _ & H4);
    [cbn; lia|]. exists l', cols'. split; [exact E|]. split; [exact H4|]. apply H1. by exists {| tc_count := 2; tc_completed := 1 |}.
Defined.

