(* ===== verification/Random.v ===== *)
(** * The random number generator of InSDB

    Models src/insdb/util/random.h: the generator behind the heights of the skip
    list.  The state is the field [seed_].  [Next] computes a product modulo the
    Mersenne number 2^31 - 1 with shifts instead of a division; the comment on it
    says that it does, and that the generator goes through every number of
    [1, M-1].  Both are proved. *)

From Stdlib Require Import ZArith NArith Lia Bool.
From stdpp Require Import base list numbers.
From S2P Require Import Prelude.

(** ** The class [Random] *)

Section Class.
  Local Open Scope cword_scope.

Definition M : Z := 2147483647.
Definition A : Z := 16807.

Definition NewRandom (s : Z) : Z :=
  let seed_ := s & 0x7fffffff in
  if (seed_ =? 0) || (seed_ =? 2147483647) then 1 else seed_.

Definition Next (seed_ : Z) : Z :=
  let product := u64 (seed_ * A) in
  let seed_ := u32 ((product >> 31) + (product & M)) in
  if M <? seed_ then u32 (seed_ - M) else seed_.

(** The new state and the value, for [n] > 0. *)
Definition Uniform (n seed_ : Z) : Z * Z := let s := Next seed_ in (s, s mod n).
Definition OneIn (n seed_ : Z) : Z * bool := let s := Next seed_ in (s, s mod n =? 0).
Definition Skewed (max_log seed_ : Z) : Z * Z := let '(s, base) := Uniform (max_log + 1) seed_ in Uniform (1 << base) s.
End Class.

(** The state after [k] calls of [Next]. *)
Definition after_calls (k : N) (seed_ : Z) : Z := N.iter k Next seed_.

Definition seed_ok (s : Z) : Prop := 0 < s < M.

(** ** One step *)

Lemma NewRandom_ok s : seed_ok (NewRandom s).
Proof.
  unfold NewRandom, seed_ok, M. replace (Z.land s 0x7fffffff) with (s mod 2 ^ 31) by (symmetry; apply (Z.land_ones s 31); lia).
  pose proof (Z.mod_pos_bound s (2 ^ 31) ltac:(lia)). destruct (Z.eqb_spec (s mod 2 ^ 31) 0); [simpl; lia|].
  destruct (Z.eqb_spec (s mod 2 ^ 31) 2147483647); simpl; lia.
Qed.

(** No product with [A] is a multiple of [M]. *)
Lemma product_nonzero s : seed_ok s -> (s * A) mod M <> 0.
Proof.
  intros Hs H0. apply Z.mod_divide in H0; [|done]. rewrite Z.mul_comm in H0. apply Z.gauss in H0 as [k Hk]; [|reflexivity].
  unfold seed_ok in Hs. assert (0 < M) by done. destruct (Z.lt_trichotomy k 0) as [|[->|]]; nia.
Qed.

(** The reduction with shifts is the reduction with [mod]. *)
Lemma Next_mod s : seed_ok s -> Next s = (s * A) mod M.
Proof.
  intros Hs. pose proof (product_nonzero s Hs) as Hne. unfold seed_ok in Hs. unfold Next.
  assert (Hp : 0 <= s * A < 2 ^ 46) by (unfold M, A in *; lia).
  unfold u64. rewrite wrap_small by lia. set (p := s * A) in *. clearbody p.
  rewrite Z.shiftr_div_pow2 by lia. replace (Z.land p M) with (p mod 2 ^ 31) by (symmetry; apply (Z.land_ones p 31); lia).
  pose proof (Z.div_mod p (2 ^ 31) ltac:(lia)) as Hdm. pose proof (Z.mod_pos_bound p (2 ^ 31) ltac:(lia)) as Hm.
  set (q := p / 2 ^ 31) in *. set (r := p mod 2 ^ 31) in *.
  assert (Hq : 0 <= q < 2 ^ 15) by (unfold q; split; [apply Z.div_pos; lia|apply Z.div_lt_upper_bound; lia]).
  assert (Hsum : p mod M = (q + r) mod M).
  { replace p with (q + r + q * M) by (unfold M; lia). apply Z.mod_add. done. }
  unfold u32. rewrite (wrap_small 32 (q + r)) by lia. unfold M in *.
  destruct (Z.ltb_spec 2147483647 (q + r)).
  - rewrite wrap_small by lia. rewrite Hsum. rewrite <- (Z.mod_add _ (-1)) by lia. symmetry. apply Z.mod_small. lia.
  - rewrite Hsum in *. destruct (Z.eq_dec (q + r) 2147483647) as [E|E]; [rewrite E in Hne; done|]. symmetry. apply Z.mod_small. lia.
Qed.

Lemma Next_ok s : seed_ok s -> seed_ok (Next s).
Proof.
  intros Hs. pose proof (product_nonzero s Hs). rewrite Next_mod by done. pose proof (Z.mod_pos_bound (s * A) M eq_refl).
  unfold seed_ok. lia.
Qed.

#[export] Hint Resolve NewRandom_ok Next_ok : kv.

(** ** The cycle *)

Lemma after_calls_pow k s : seed_ok s -> seed_ok (after_calls k s) /\ after_calls k s = (s * A ^ Z.of_N k) mod M.
Proof.
  intros Hs. unfold after_calls. induction k as [|k [IH1 IH2]] using N.peano_ind.
  - split; [done|]. unfold seed_ok in Hs. simpl. rewrite Z.mul_1_r. symmetry. apply Z.mod_small. lia.
  - rewrite N.iter_succ. split; [by apply Next_ok|]. rewrite Next_mod, IH2, N2Z.inj_succ, Z.pow_succ_r, Z.mul_mod_idemp_l by (done || lia).
    f_equal. lia.
Qed.

(** [A^n mod M] by repeated squaring. *)
Fixpoint pow_mod (n : positive) : Z :=
  match n with
  | xH => A mod M
  | xO n' => let x := pow_mod n' in (x * x) mod M
  | xI n' => let x := pow_mod n' in (x * x mod M * A) mod M
  end.

Lemma pow_mod_spec n : pow_mod n = A ^ Zpos n mod M.
Proof.
  induction n as [n IH|n IH|]; [..|done].
  - cbn [pow_mod]. rewrite Pos2Z.inj_xI, IH, Z.pow_add_r, Z.pow_1_r by lia. replace (2 * Zpos n) with (Zpos n + Zpos n) by lia.
    rewrite Z.pow_add_r, <- Z.mul_mod, Z.mul_mod_idemp_l by (done || lia). done.
  - cbn [pow_mod]. rewrite Pos2Z.inj_xO, IH. replace (2 * Zpos n) with (Zpos n + Zpos n) by lia.
    by rewrite Z.pow_add_r, <- Z.mul_mod by (done || lia).
Qed.

(** The order of [A]: its power [M - 1] is 1, and no power [(M - 1) / g] is, for a
    divisor [g] of one of the prime factors of [M - 1]. *)
Definition order_check : bool :=
  (pow_mod 2147483646 =? 1) &&
  forallb (fun q => forallb (fun g => negb (q mod g =? 0) || negb (2147483646 mod g =? 0) ||
                                      negb (pow_mod (Z.to_pos (2147483646 / g)) =? 1)) (seqZ 2 (q - 1)))
    [2; 3; 7; 11; 31; 151; 331].

Lemma order_check_ok : order_check = true.
Proof. vm_compute. reflexivity. Qed.

Definition power (k : Z) : Z := A ^ k mod M.
Definition one_at (k : Z) : Prop := power k = 1.

Lemma one_at_mul a k : 0 <= a -> 0 <= k -> one_at a -> one_at (k * a).
Proof.
  intros Ha Hk H1. unfold one_at, power in *. rewrite Z.mul_comm, Z.pow_mul_r by lia.
  rewrite <- (Z2N.id k) by lia. generalize (Z.to_N k) as n. intros n. induction n as [|n IH] using N.peano_ind; [done|].
  rewrite N2Z.inj_succ, Z.pow_succ_r, Z.mul_mod, H1, IH by (done || lia). done.
Qed.

Lemma one_at_sub a b : 0 <= a -> 0 <= b -> one_at (a + b) -> one_at b -> one_at a.
Proof.
  intros Ha Hb H1 H2. unfold one_at, power in *. rewrite Z.pow_add_r, Z.mul_mod, H2, Z.mul_1_r, Z.mod_mod in H1 by (done || lia). done.
Qed.

Lemma one_at_full : one_at (M - 1).
Proof. unfold one_at, power. change (M - 1) with (Zpos 2147483646). rewrite <- pow_mod_spec. vm_compute. reflexivity. Qed.

(** The exponents with power 1 are closed under the greatest common divisor. *)
Lemma one_at_gcd k : 0 < k -> one_at k -> one_at (Z.gcd k (M - 1)).
Proof.
  intros Hk H1. destruct k as [|p|p]; [lia| |lia]. destruct (N.gcd_bezout_pos (Npos p) (Z.to_N (M - 1))) as (u & v & Huv); [lia|].
  assert (E : Z.of_N u * Zpos p = Z.gcd (Zpos p) (M - 1) + Z.of_N v * (M - 1)).
  { apply (f_equal Z.of_N) in Huv. rewrite N2Z.inj_add, !N2Z.inj_mul in Huv. exact Huv. }
  apply (one_at_sub _ (Z.of_N v * (M - 1))); [apply Z.gcd_nonneg|unfold M; lia| |].
  - rewrite <- E. apply one_at_mul; done || lia.
  - apply one_at_mul; [unfold M; lia|lia|apply one_at_full].
Qed.

(** A divisor of [M - 1] other than itself divides [(M - 1) / g] for some [g]
    that the check covers. *)
Lemma cofactor_shares c : 1 < c -> (c | M - 1) ->
  exists q, In q [2; 3; 7; 11; 31; 151; 331] /\ Z.gcd c q <> 1.
Proof.
  intros Hc Hdiv. destruct (decide (Forall (fun q => Z.gcd c q = 1) [2; 3; 7; 11; 31; 151; 331])) as [Hall|Hno].
  2: { apply (not_Forall_Exists _) in Hno. apply List.Exists_exists in Hno. exact Hno. }
  exfalso. rewrite List.Forall_forall in Hall.
  assert (Hm : forall a b, Z.gcd c a = 1 -> Z.gcd c b = 1 -> Z.gcd c (a * b) = 1) by apply Z.coprime_mul_r.
  assert (Hone : Z.gcd c (M - 1) = 1).
  { change (M - 1) with (2 * (3 * (3 * (7 * (11 * (31 * (151 * 331))))))).
    repeat apply Hm; apply Hall; simpl; tauto. }
  apply Z.divide_gcd_iff in Hdiv; [lia|lia].
Qed.

Lemma order_full k : 0 < k -> one_at k -> (M - 1 | k).
Proof.
  intros Hk H1. pose proof (one_at_gcd k Hk H1) as Hd. pose proof (Z.gcd_divide_l k (M - 1)) as Hdk.
  pose proof (Z.gcd_divide_r k (M - 1)) as [c Hc]. set (d := Z.gcd k (M - 1)) in *.
  assert (Hd0 : 0 < d) by (pose proof (Z.gcd_nonneg k (M - 1)) as Hnn; fold d in Hnn; unfold M in Hc; destruct (Z.eq_dec d 0) as [E|]; [rewrite E in Hc|]; lia).
  destruct (Z.eq_dec c 1) as [->|Hne]; [rewrite Hc; by replace (1 * d) with d by lia|exfalso].
  assert (Hc1 : 1 < c) by (unfold M in Hc; nia).
  destruct (cofactor_shares c Hc1) as (q & Hq & Hg); [exists d; lia|]. set (g := Z.gcd c q) in *.
  pose proof (Z.gcd_divide_l c q) as [e He]. pose proof (Z.gcd_divide_r c q) as Hgq. fold g in He, Hgq.
  assert (Hg1 : 1 < g) by (pose proof (Z.gcd_nonneg c q) as Hnn; fold g in Hnn; destruct (Z.eq_dec g 0) as [E|]; [rewrite E in He|]; lia).
  assert (Hgle : g <= q) by (apply Z.divide_pos_le; [simpl in Hq; lia|done]).
  assert (Hgm : M - 1 = (e * d) * g) by nia. assert (He0 : 0 < e) by nia.
  pose proof order_check_ok as Hchk. unfold order_check in Hchk. apply andb_true_iff in Hchk as [_ Hchk].
  rewrite forallb_forall in Hchk. specialize (Hchk q Hq). rewrite forallb_forall in Hchk.
  specialize (Hchk g). rewrite !orb_true_iff, !negb_true_iff, !Z.eqb_neq in Hchk.
  destruct Hchk as [[Hx|Hx]|Hx].
  - apply list_elem_of_In, elem_of_seqZ. lia.
  - apply Hx. by apply Z.mod_divide; [lia|].
  - apply Hx. change 2147483646 with (M - 1). rewrite Hgm. apply Z.mod_mul. lia.
  - apply Hx. change 2147483646 with (M - 1). rewrite Hgm, Z.div_mul by lia. rewrite pow_mod_spec, Z2Pos.id by nia.
    fold (power (e * d)). apply one_at_mul; done || lia.
Qed.

(** [n] different numbers of [1, n] are all of them. *)
Lemma cover (n : Z) (f : Z -> Z) : (forall i, 0 <= i < n -> 1 <= f i <= n) ->
  (forall i j, 0 <= i < n -> 0 <= j < n -> f i = f j -> i = j) ->
  forall t, 1 <= t <= n -> exists i, 0 <= i < n /\ f i = t.
Proof.
  intros Hr Hinj t Ht. assert (Hin : In t (map f (seqZ 0 n))).
  { apply (List.NoDup_length_incl (l := map f (seqZ 0 n)) (l' := seqZ 1 n)).
    - apply NoDup_ListNoDup. apply NoDup_fmap_2_strong; [|apply NoDup_seqZ].
      intros i j Hi%elem_of_seqZ Hj%elem_of_seqZ. apply Hinj; lia.
    - rewrite List.length_map, !length_seqZ. done.
    - intros x (i & <- & Hi%list_elem_of_In%elem_of_seqZ)%in_map_iff. apply list_elem_of_In, elem_of_seqZ.
      specialize (Hr i). lia.
    - apply list_elem_of_In, elem_of_seqZ. lia. }
  apply in_map_iff in Hin as (i & Hi & Hs%list_elem_of_In%elem_of_seqZ). exists i. split; [lia|done].
Qed.

Lemma power_ok k : 0 <= k -> seed_ok (power k).
Proof.
  intros Hk. destruct (after_calls_pow (Z.to_N k) 1) as [Hok E]; [done|]. rewrite Z2N.id, Z.mul_1_l in E by done. unfold power.
  by rewrite <- E.
Qed.

Lemma power_add a b : 0 <= a -> 0 <= b -> power (a + b) = (power a * power b) mod M.
Proof. intros. unfold power. by rewrite Z.pow_add_r, Z.mul_mod by done. Qed.

(** Powers of [A] can be cancelled: they have an inverse. *)
Lemma power_cancel j k : 0 <= j -> j <= k < M - 1 -> power j = power k -> j = k.
Proof.
  intros Hj Hk E. destruct (Z.eq_dec j k) as [|Hne]; [done|exfalso].
  assert (Hone : one_at (k - j)).
  { unfold one_at. pose proof one_at_full as Hfull. unfold one_at in Hfull.
    assert (E' : power ((M - 1 - j) + j) = power ((M - 1 - j) + k)) by (rewrite !power_add by lia; by rewrite E).
    replace (M - 1 - j + j) with (M - 1) in E' by lia. replace (M - 1 - j + k) with ((M - 1) + (k - j)) in E' by lia.
    rewrite power_add, Hfull, Z.mul_1_l in E' by lia. rewrite E'. unfold power. symmetry. apply Z.mod_mod. done. }
  apply order_full in Hone; [|lia]. apply Z.divide_pos_le in Hone; lia.
Qed.

Lemma power_covers t : seed_ok t -> exists i, 0 <= i < M - 1 /\ power i = t.
Proof.
  intros Ht. apply (cover (M - 1) power).
  - intros i Hi. pose proof (power_ok i ltac:(lia)) as Hp. unfold seed_ok in Hp. lia.
  - intros i j Hi Hj E. destruct (Z.le_ge_cases i j); [apply power_cancel|symmetry; apply power_cancel]; done || lia.
  - unfold seed_ok in Ht. lia.
Qed.

(** C37: [Next] multiplies by 16807 modulo 2^31 - 1, as its comment says, and from
    every state a constructor can produce the generator goes through all numbers
    from 1 to 2^31 - 2 before it repeats: any two of the first 2^31 - 2 states
    differ, and every such number is among them. *)
Theorem random_full_cycle (s : Z) : let seed := NewRandom s in
  (forall x, seed_ok x -> Next x = (x * 16807) mod (2 ^ 31 - 1)) /\
  (forall t, 1 <= t <= 2 ^ 31 - 2 -> exists k : N, Z.of_N k < 2 ^ 31 - 2 /\ after_calls k seed = t) /\
  (forall j k : N, (j < k)%N -> Z.of_N k < 2 ^ 31 - 2 -> after_calls j seed <> after_calls k seed) /\
  after_calls 2147483646 seed = seed.
Proof.
  intros seed. pose proof (NewRandom_ok s) as Hseed. fold seed in Hseed.
  destruct (power_covers seed Hseed) as (i & Hi & Ei).
  assert (Hcalls : forall k, after_calls k seed = power (i + Z.of_N k)).
  { intros k. destruct (after_calls_pow k seed Hseed) as [_ ->]. rewrite power_add, Ei by lia. unfold power. by rewrite Z.mul_mod_idemp_r. }
  assert (Hwrap : forall a, 0 <= a -> power (a + (M - 1)) = power a).
  { intros a Ha. rewrite power_add by (unfold M; lia). rewrite one_at_full, Z.mul_1_r. unfold power. by rewrite Z.mod_mod. }
  split; [|split; [|split]].
  - intros x Hx. by rewrite Next_mod.
  - intros t Ht. destruct (power_covers t) as (j & Hj & Ej); [unfold seed_ok, M; lia|].
    exists (Z.to_N ((j - i) mod (M - 1))). pose proof (Z.mod_pos_bound (j - i) (M - 1) eq_refl) as Hm. rewrite Hcalls, Z2N.id by lia.
    split; [unfold M in Hm |- *; lia|].
    destruct (Z.le_gt_cases i j).
    + rewrite Z.mod_small by lia. by replace (i + (j - i)) with j by lia.
    + rewrite <- (Z.mod_add _ 1), Z.mod_small by (done || lia). replace (i + (j - i + 1 * (M - 1))) with (j + (M - 1)) by lia.
      by rewrite Hwrap by lia.
  - intros j k Hjk Hk. rewrite !Hcalls. intros E.
    assert (Hred : forall n, 0 <= n < M - 1 -> power (i + n) = power ((i + n) mod (M - 1))).
    { intros n Hn. destruct (Z.lt_ge_cases (i + n) (M - 1)); [by rewrite Z.mod_small by lia|].
      rewrite <- (Z.mod_add _ (-1)), Z.mod_small by (done || lia). rewrite <- (Hwrap (i + n + -1 * (M - 1))) by lia. f_equal. lia. }
    change (2 ^ 31 - 2) with (M - 1) in Hk. rewrite !Hred in E by lia.
    assert (Heq : (i + Z.of_N j) mod (M - 1) = (i + Z.of_N k) mod (M - 1)).
    { pose proof (Z.mod_pos_bound (i + Z.of_N j) (M - 1) eq_refl). pose proof (Z.mod_pos_bound (i + Z.of_N k) (M - 1) eq_refl).
      destruct (Z.le_ge_cases ((i + Z.of_N j) mod (M - 1)) ((i + Z.of_N k) mod (M - 1))); [apply power_cancel|symmetry; apply power_cancel]; done || lia. }
    pose proof (Z.div_mod (i + Z.of_N j) (M - 1) ltac:(done)). pose proof (Z.div_mod (i + Z.of_N k) (M - 1) ltac:(done)).
    unfold M in *. nia.
  - rewrite Hcalls. change (Z.of_N 2147483646) with (M - 1). by rewrite Hwrap by lia.
Qed.
