(* ===== verification/SkipList2.v ===== *)
(** * The skip list of the key map

    Models src/insdb/db/skiplist2.h, the ordered list behind [KeyMap] of
    insdb_internal.h, at the level of its pointers: nodes live in a finite map from
    addresses, a dereference of an address that is not allocated, of a pointer that
    was never written, or past the end of a tower has no result ([None]).  The
    build defines NDEBUG, so the assertions are left out.  The heights come from
    the generator of Random.v.

    [Data] is a pointer to an object that derives from [SKLData] (skldata.h): its key
    does not change, and it remembers the node that holds it. *)

From Stdlib Require Import ZArith Lia Bool.
From stdpp Require Import base gmap list.
From S2P Require Import Prelude Random.

(** ** Memory *)

(** The value of a [Node*] variable: never written, null, or an address. *)
Inductive link : Type := Garbage | Null | To (p : positive).

#[export] Instance link_eq : EqDecision link.
Proof. solve_decision. Defined.

(** The head has no data. *)
Record Node : Type := {
  nd_height : nat;
  nd_data : option positive;
  nd_prev : link;
  nd_next : list link;
}.
#[export] Instance eta_Node : Eta Node := fun r =>
  {| nd_height := nd_height r; nd_data := nd_data r; nd_prev := nd_prev r; nd_next := nd_next r |}.

Record SKLData : Type := {
  sd_key : list Z;
  sd_node : option positive;
}.
#[export] Instance eta_SKLData : Eta SKLData := fun r => {| sd_key := sd_key r; sd_node := sd_node r |}.

Record mem : Type := {
  m_nodes : gmap positive Node;
  m_data : gmap positive SKLData;
}.
#[export] Instance eta_mem : Eta mem := fun r => {| m_nodes := m_nodes r; m_data := m_data r |}.

(** What posix_memalign promises: an address that is not in use. *)
Class Malloc : Type := {
  malloc : gmap positive Node -> positive;
  malloc_fresh : forall h, h !! malloc h = None;
}.

(** Code that reads and writes memory; [None] is an invalid access. *)
Definition MM (A : Type) : Type := mem -> option (A * mem).
#[export] Instance MM_ret : MRet MM := fun A x m => Some (x, m).
#[export] Instance MM_bind : MBind MM := fun A B f c m => '(x, m) ← c m; f x m.

Definition fault {A} : MM A := fun _ => None.
Definition lift {A} (o : option A) : MM A := fun m => x ← o; Some (x, m).

Definition deref (x : positive) : MM Node := fun m => nd ← m_nodes m !! x; Some (nd, m).
Definition assign (x : positive) (nd : Node) : MM unit := fun m => Some (tt, m <| m_nodes ::= <[x := nd]> |>).
Definition free (x : positive) : MM unit := fun m => _ ← m_nodes m !! x; Some (tt, m <| m_nodes ::= delete x |>).

(** A pointer that is read: the address or null. *)
Definition pointer (v : link) : MM (option positive) :=
  match v with Garbage => fault | Null => mret None | To p => mret (Some p) end.
Definition to_link (p : option positive) : link := match p with Some p => To p | None => Null end.

(** A pointer that is dereferenced. *)
Definition nonnull (v : link) : MM positive := p ← pointer v; lift p.

(** ** [Node] and [SKLData] *)

Definition NodeNext (x : positive) (n : nat) : MM (option positive) := nd ← deref x; v ← lift (nd_next nd !! n); pointer v.

Definition SetNext (x : positive) (n : nat) (v : option positive) : MM unit :=
  nd ← deref x;
  _ ← lift (nd_next nd !! n);
  assign x (nd <| nd_next ::= <[n := to_link v]> |>).

Definition GetNode (d : positive) : MM (option positive) := fun m => s ← m_data m !! d; Some (sd_node s, m).
Definition SetNode (d : positive) (x : option positive) : MM unit :=
  fun m => s ← m_data m !! d; Some (tt, m <| m_data ::= <[d := s <| sd_node := x |>]> |>).
Definition GetKeySlice (d : positive) : MM (list Z) := fun m => s ← m_data m !! d; Some (sd_key s, m).

Definition GetKey (x : positive) : MM (list Z) := nd ← deref x; d ← lift (nd_data nd); GetKeySlice d.
Definition GetData (x : positive) : MM positive := nd ← deref x; lift (nd_data nd).
Definition GetHeight (x : positive) : MM nat := nd ← deref x; mret (nd_height nd).
Definition NodePrev (x : positive) : MM (option positive) := nd ← deref x; pointer (nd_prev nd).
Definition SetPrev (x : positive) (v : option positive) : MM unit := nd ← deref x; assign x (nd <| nd_prev := to_link v |>).

(** ** [SLSplitCtx] *)

Definition kMaxHeight : nat := 12.

Record SLSplitCtx : Type := {
  src_prev : list link;
  target_next : list link;
  src_cur_node : option positive;
  src_cur_del_node : option positive;
}.
#[export] Instance eta_SLSplitCtx : Eta SLSplitCtx := fun r =>
  {| src_prev := src_prev r; target_next := target_next r; src_cur_node := src_cur_node r; src_cur_del_node := src_cur_del_node r |}.

Definition NewSLSplitCtx : SLSplitCtx :=
  {| src_prev := replicate kMaxHeight Null; target_next := replicate kMaxHeight Null; src_cur_node := None; src_cur_del_node := None |}.

(** ** [SkipList2] *)

Record SkipList2 : Type := {
  head_ : positive;
  max_height_ : nat;
  count_ : Z;
  rnd_ : Z;
}.
#[export] Instance eta_SkipList2 : Eta SkipList2 := fun r =>
  {| head_ := head_ r; max_height_ := max_height_ r; count_ := count_ r; rnd_ := rnd_ r |}.

Definition GetMaxHeight (l : SkipList2) : nat := max_height_ l.
Definition GetCount (l : SkipList2) : Z := count_ l.

(** The loop of [RandomHeight]; [n] is [kMaxHeight - height]. *)
Fixpoint height_loop (n height : nat) (seed : Z) : nat * Z :=
  match n with
  | O => (height, seed)
  | S n' => let seed := Random.Next seed in if seed mod 4 =? 0 then height_loop n' (S height) seed else (height, seed)
  end.

Definition RandomHeight (seed : Z) : nat * Z := height_loop (kMaxHeight - 1) 1 seed.

(** [for (i = from; i < from + n; i++) prev[i] = head_]. *)
Definition set_range (prev : list link) (from n : nat) (v : link) : list link :=
  fold_left (fun p i => <[i := v]> p) (seq from n) prev.

Section Operations.
  Context `{Malloc}.
  Variable compare_ : list Z -> list Z -> Z.

Definition NewNode (data : option positive) (height : nat) : MM positive := fun m =>
  let x := malloc (m_nodes m) in
  Some (x, m <| m_nodes ::= <[x := {| nd_height := height; nd_data := data; nd_prev := Garbage; nd_next := replicate height Garbage |}]> |>).

Definition Equal (a b : list Z) : bool := compare_ a b =? 0.

Definition KeyIsAfterNode (key : list Z) (n : option positive) : MM bool :=
  match n with None => mret false | Some n => k ← GetKey n; mret (compare_ k key <? 0) end.

(** The loop of the three searches: along a level while [go] holds of the next
    node, down where it does not.  The result is the last [x] and [next]. *)
Fixpoint descend (go : option positive -> MM bool) (fuel : nat) (x : positive) (level : nat) (prev : option (list link)) :
    MM (positive * option positive * option (list link)) :=
  match fuel with
  | O => fault
  | S fuel' =>
      next ← NodeNext x level;
      b ← go next;
      match b, next with
      | true, Some y => descend go fuel' y level prev
      | _, _ =>
          let prev := (fun p => <[level := To x]> p) <$> prev in
          match level with
          | O => mret (x, next, prev)
          | S level' => descend go fuel' x level' prev
          end
      end
  end.

(** Every step moves to another node or to another level. *)
Definition search_fuel (m : mem) : nat := size (m_nodes m) + kMaxHeight.

Definition FindGreaterOrEqual (l : SkipList2) (key : list Z) (prev : option (list link)) : MM (option positive * option (list link)) :=
  fun m =>
    '((_, next, prev), m) ← descend (KeyIsAfterNode key) (search_fuel m) (head_ l) (max_height_ l - 1) prev m;
    Some ((next, prev), m).

Definition FindLessThan (l : SkipList2) (key : list Z) : MM positive := fun m =>
  '((x, _, _), m) ← descend (KeyIsAfterNode key) (search_fuel m) (head_ l) (max_height_ l - 1) None m;
  Some (x, m).

Definition FindLast (l : SkipList2) : MM positive := fun m =>
  '((x, _, _), m) ← descend (fun next => mret (bool_decide (next <> None))) (search_fuel m) (head_ l) (max_height_ l - 1) None m;
  Some (x, m).

Fixpoint clear_next (x : positive) (is_ : list nat) : MM unit :=
  match is_ with [] => mret tt | i :: is_ => _ ← SetNext x i None; clear_next x is_ end.

Definition NewSkipList2 : MM SkipList2 :=
  head ← NewNode None kMaxHeight;
  _ ← clear_next head (seq 0 kMaxHeight);
  _ ← SetPrev head None;
  mret {| head_ := head; max_height_ := 1; count_ := 0; rnd_ := NewRandom 0xdeadbeef |}.

(** The loop of the destructor. *)
Fixpoint destroy_loop (fuel : nat) (node : option positive) : MM unit :=
  match node with
  | None => mret tt
  | Some temp =>
      match fuel with
      | O => fault
      | S fuel' =>
          node ← NodeNext temp 0;
          data ← GetData temp;
          _ ← SetNode data None;
          _ ← free temp;
          destroy_loop fuel' node
      end
  end.

Definition DestroySkipList2 (l : SkipList2) : MM unit := fun m =>
  (node ← NodeNext (head_ l) 0; _ ← destroy_loop (size (m_nodes m)) node; free (head_ l)) m.

(** [for (i...) x->SetNext(i, prev[i]->Next(i)), prev[i]->SetNext(i, x)]. *)
Fixpoint link_levels (x : positive) (prev : list link) (is_ : list nat) : MM unit :=
  match is_ with
  | [] => mret tt
  | i :: is_ =>
      p ← (v ← lift (prev !! i); nonnull v);
      n ← NodeNext p i;
      _ ← SetNext x i n;
      _ ← SetNext p i (Some x);
      link_levels x prev is_
  end.

Definition Insert (l : SkipList2) (key : list Z) (data : positive) : MM (bool * SkipList2) :=
  '(x, prev) ← FindGreaterOrEqual l key (Some (replicate kMaxHeight Garbage));
  let prev := default [] prev in
  dup ← match x with Some x => k ← GetKey x; mret (Equal key k) | None => mret false end;
  if (dup : bool) then mret (false, l) else
  let '(height, seed) := RandomHeight (rnd_ l) in
  let l := l <| rnd_ := seed |> in
  let '(prev, l) :=
    if (max_height_ l <? height)%nat
    then (set_range prev (max_height_ l) (height - max_height_ l) (To (head_ l)), l <| max_height_ := height |>)
    else (prev, l) in
  x ← NewNode (Some data) height;
  _ ← link_levels x prev (seq 0 height);
  p0 ← (v ← lift (prev !! 0%nat); pointer v);
  _ ← SetPrev x p0;
  n0 ← NodeNext x 0;
  _ ← match n0 with Some y => SetPrev y (Some x) | None => mret tt end;
  _ ← SetNode data (Some x);
  mret (true, l <| count_ := u64 (count_ l + 1) |>).

(** [for (i...) prev[i]->SetNext(i, x->Next(i))]. *)
Fixpoint unlink_levels (x : positive) (prev : list link) (is_ : list nat) : MM unit :=
  match is_ with
  | [] => mret tt
  | i :: is_ =>
      p ← (v ← lift (prev !! i); nonnull v);
      n ← NodeNext x i;
      _ ← SetNext p i n;
      unlink_levels x prev is_
  end.

Definition Remove (l : SkipList2) (key : list Z) : MM (option positive * SkipList2) :=
  '(x, prev) ← FindGreaterOrEqual l key (Some (replicate kMaxHeight Garbage));
  let prev := default [] prev in
  match x with
  | None => mret (None, l)
  | Some x =>
      k ← GetKey x;
      if negb (Equal key k) then mret (None, l) else
      height ← GetHeight x;
      _ ← unlink_levels x prev (seq 0 height);
      n0 ← NodeNext x 0;
      _ ← match n0 with Some y => p0 ← (v ← lift (prev !! 0%nat); pointer v); SetPrev y p0 | None => mret tt end;
      data ← GetData x;
      _ ← SetNode data None;
      _ ← free x;
      mret (Some data, l <| count_ := u64 (count_ l - 1) |>)
  end.

(** The search the two functions with a context share: [prev] starts as the head. *)
Definition find_with_ctx (l : SkipList2) (key : list Z) (m_ctx : option SLSplitCtx) : MM (option positive * option (list link)) :=
  FindGreaterOrEqual l key ((fun _ => replicate kMaxHeight (To (head_ l))) <$> m_ctx).

Definition save_ctx (x : positive) (prev : option (list link)) (m_ctx : option SLSplitCtx) : option SLSplitCtx :=
  (fun c => c <| src_prev := default [] prev |> <| src_cur_node := Some x |>) <$> m_ctx.

Definition Search (l : SkipList2) (key : list Z) (m_ctx : option SLSplitCtx) : MM (option positive * option SLSplitCtx) :=
  '(x, prev) ← find_with_ctx l key m_ctx;
  match x with
  | None => mret (None, m_ctx)
  | Some x =>
      k ← GetKey x;
      if Equal key k then d ← GetData x; mret (Some d, save_ctx x prev m_ctx) else mret (None, m_ctx)
  end.

Definition SearchLessThanEqual (l : SkipList2) (key : list Z) : MM (option positive) :=
  node ← FindLessThan l key;
  if bool_decide (node = head_ l) then mret None else d ← GetData node; mret (Some d).

Definition SearchGreaterOrEqual (l : SkipList2) (key : list Z) (m_ctx : option SLSplitCtx) : MM (option positive * option SLSplitCtx) :=
  '(x, prev) ← find_with_ctx l key m_ctx;
  match x with
  | None => mret (None, m_ctx)
  | Some x => d ← GetData x; mret (Some d, save_ctx x prev m_ctx)
  end.

(** [for (i = 0; i < height; i++) src_prev[i] = node]. *)
Definition NextWithNode (l : SkipList2) (node : option positive) (m_ctx : option SLSplitCtx) : MM (option positive * option SLSplitCtx) :=
  match m_ctx with
  | Some c =>
      match src_cur_node c with
      | Some node =>
          next ← NodeNext node 0;
          match next with
          | None => mret (None, Some c)
          | Some next =>
              height ← GetHeight node;
              d ← GetData next;
              mret (Some d, Some (c <| src_prev ::= fun p => set_range p 0 height (To node) |> <| src_cur_node := Some next |>))
          end
      | None =>
          p ← (v ← lift (src_prev c !! 0%nat); nonnull v);
          next ← NodeNext p 0;
          let c := c <| src_cur_node := next |> in
          match next with
          | Some next => if bool_decide (next = head_ l) then mret (None, Some c) else d ← GetData next; mret (Some d, Some c)
          | None => mret (None, Some c)
          end
      end
  | None =>
      node ← lift node;
      next ← NodeNext node 0;
      match next with None => mret (None, None) | Some next => d ← GetData next; mret (Some d, None) end
  end.

Definition Next (l : SkipList2) (data : option positive) (m_ctx : option SLSplitCtx) : MM (option positive * option SLSplitCtx) :=
  match m_ctx with
  | Some _ => NextWithNode l None m_ctx
  | None =>
      match data with
      | Some d =>
          node ← GetNode d;
          match node with
          | None => key ← GetKeySlice d; SearchGreaterOrEqual l key m_ctx
          | Some _ => NextWithNode l node None
          end
      | None => mret (None, None)
      end
  end.

Definition PrevWithNode (l : SkipList2) (node : positive) : MM (option positive) :=
  prev ← NodePrev node;
  match prev with
  | None => mret None
  | Some prev => if bool_decide (prev = head_ l) then mret None else d ← GetData prev; mret (Some d)
  end.

Definition Prev (l : SkipList2) (data : option positive) : MM (option positive) :=
  match data with
  | Some d =>
      node ← GetNode d;
      match node with
      | None => key ← GetKeySlice d; SearchLessThanEqual l key
      | Some node => PrevWithNode l node
      end
  | None => mret None
  end.

Definition First (l : SkipList2) (m_ctx : option SLSplitCtx) : MM (option positive * option SLSplitCtx) :=
  node ← NodeNext (head_ l) 0;
  match node with
  | None => mret (None, m_ctx)
  | Some node =>
      d ← GetData node;
      mret (Some d, (fun c => c <| src_prev ::= fun p => set_range p 0 kMaxHeight (To (head_ l)) |> <| src_cur_node := Some node |>) <$> m_ctx)
  end.

Definition Last (l : SkipList2) : MM (option positive) :=
  node ← FindLast l;
  if bool_decide (node = head_ l) then mret None else d ← GetData node; mret (Some d).

Definition Contains (l : SkipList2) (key : list Z) : MM bool :=
  '(x, _) ← FindGreaterOrEqual l key None;
  match x with Some x => k ← GetKey x; mret (Equal key k) | None => mret false end.

(** ** Moving nodes between lists *)

(** The levels of [Append]. *)
Fixpoint append_levels (x : positive) (target : list link) (is_ : list nat) : MM (list link) :=
  match is_ with
  | [] => mret target
  | i :: is_ =>
      t ← (v ← lift (target !! i); pointer v);
      _ ← match t with Some t => SetNext t i (Some x) | None => mret tt end;
      _ ← SetNext x i None;
      _ ← (if (i =? 0)%nat then SetPrev x t else mret tt);
      append_levels x (<[i := To x]> target) is_
  end.

Definition Append (l : SkipList2) (c : SLSplitCtx) : MM (SkipList2 * SLSplitCtx) :=
  match src_cur_del_node c with
  | None => mret (l, c)
  | Some x =>
      height ← GetHeight x;
      target ← append_levels x (target_next c) (seq 0 height);
      mret (l <| count_ := u64 (count_ l + 1) |> <| max_height_ ::= fun h => if (h <? height)%nat then height else h |>,
            c <| src_cur_del_node := None |> <| target_next := target |>)
  end.

(** The levels of [Remove(m_ctx)]: the test for the next node comes after its
    pointer was cleared. *)
Fixpoint remove_levels (x : positive) (prev : list link) (is_ : list nat) : MM unit :=
  match is_ with
  | [] => mret tt
  | i :: is_ =>
      t ← (v ← lift (prev !! i); pointer v);
      _ ← match t with Some t => n ← NodeNext x i; SetNext t i n | None => mret tt end;
      _ ← SetNext x i None;
      _ ← (if (i =? 0)%nat then n ← NodeNext x i; match n with Some y => SetPrev y t | None => mret tt end else mret tt);
      remove_levels x prev is_
  end.

Definition RemoveCtx (l : SkipList2) (c : SLSplitCtx) : MM (option positive * SkipList2 * SLSplitCtx) :=
  match src_cur_node c with
  | None => mret (None, l, c)
  | Some x =>
      height ← GetHeight x;
      _ ← remove_levels x (src_prev c) (seq 0 height);
      d ← GetData x;
      mret (Some d, l <| count_ := u64 (count_ l - 1) |>, c <| src_cur_node := None |> <| src_cur_del_node := Some x |>)
  end.

Definition InitSplitTarget (l : SkipList2) (c : SLSplitCtx) : SLSplitCtx :=
  c <| target_next ::= fun t => set_range t 0 kMaxHeight (To (head_ l)) |>.

(** ** Splitting a key map

    The part of [SKTableMem::FlushSKTableMem] (sktable.cc) that distributes the keys
    of a table over its new sub-tables, each given with its begin key. *)

(** [while (uk) if (uk != next_start) move it, else break]. *)
Fixpoint move_keys (fuel : nat) (src skt : SkipList2) (c : SLSplitCtx) (uk next_start : option positive) :
    MM (SkipList2 * SkipList2 * SLSplitCtx * option positive) :=
  match uk with
  | None => mret (src, skt, c, None)
  | Some _ =>
      if bool_decide (uk = next_start) then mret (src, skt, c, uk) else
      match fuel with
      | O => fault
      | S fuel' =>
          '(_, src, c) ← RemoveCtx src c;
          '(skt, c) ← Append skt c;
          '(uk, c') ← Next src None (Some c);
          move_keys fuel' src skt (default c c') uk next_start
      end
  end.

(** The [for] over the remaining sub-tables, and the loop for the last of them. *)
Fixpoint split_rest (src skt : SkipList2) (c : SLSplitCtx) (uk : option positive) (rest : list (list Z * SkipList2)) :
    MM (SkipList2 * list SkipList2) :=
  match rest with
  | (begin_key, skt') :: rest =>
      match uk with
      | None => mret (src, skt :: skt' :: map snd rest)
      | Some _ =>
          '(next_start, _) ← SearchGreaterOrEqual src begin_key None;
          '(src, skt, c, uk) ← (fun m => move_keys (size (m_nodes m)) src skt c uk next_start m);
          '(src, done) ← split_rest src skt' (InitSplitTarget skt' c) uk rest;
          mret (src, skt :: done)
      end
  | [] =>
      '(src, skt, _, _) ← (fun m => move_keys (size (m_nodes m)) src skt c uk None m);
      mret (src, [skt])
  end.

Definition split_keymap (src : SkipList2) (skts : list (list Z * SkipList2)) : MM (SkipList2 * list SkipList2) :=
  match skts with
  | [] => mret (src, [])
  | (begin_key, skt) :: rest =>
      let c := InitSplitTarget skt NewSLSplitCtx in
      '(uk, c') ← SearchGreaterOrEqual src begin_key (Some c);
      split_rest src skt (default c c') uk rest
  end.

(** ** Evicting keys

    The walk of [SKTableMem::EvictCleanUserKeyFromKeymap] (sktable.cc) over the key
    map.  [busy] tells the keys that are dirty or referenced; the hash map and the
    column data that belong to a key are not part of the list. *)

(** [mf->FreeUserKey(uk)]: the object is gone. *)
Definition FreeUserKey (d : positive) : MM unit := fun m => _ ← m_data m !! d; Some (tt, m <| m_data ::= delete d |>).

Fixpoint evict_loop (fuel : nat) (busy : positive -> bool) (cache_evict : bool) (l : SkipList2) (c : SLSplitCtx) (uk : option positive)
    (evicted referenced : bool) : MM (SkipList2 * bool * bool) :=
  match uk, fuel with
  | None, _ => mret (l, evicted, referenced)
  | Some _, O => fault
  | Some d, S fuel =>
      if busy d then
        if negb cache_evict then mret (l, evicted, true) else
        '(uk, c') ← Next l None (Some c);
        evict_loop fuel busy cache_evict l (default c c') uk evicted true
      else
        '(removed, l, c) ← RemoveCtx l c;
        _ ← lift removed;
        _ ← match src_cur_del_node c with Some t_node => free t_node | None => mret tt end;
        let c := c <| src_cur_del_node := None |> in
        _ ← SetNode d None;
        _ ← FreeUserKey d;
        '(uk, c') ← Next l None (Some c);
        evict_loop fuel busy cache_evict l (default c c') uk true referenced
  end.

Definition evict_keymap (busy : positive -> bool) (cache_evict : bool) (l : SkipList2) : MM (SkipList2 * bool * bool) := fun m =>
  ('(uk, c) ← First l (Some NewSLSplitCtx);
   evict_loop (size (m_nodes m)) busy cache_evict l (default NewSLSplitCtx c) uk false false) m.
End Operations.
