(* ===== verification/SkipListInv.v ===== *)
(** * The shape of a skip list

    A list of entries, each with an address and a height, determines the towers of
    pointers of a skip list: the pointer of a node at level [i] leads to the first
    later entry that is higher than [i].  [Chain] says so of a memory, for a list
    with an open end: the entries [A], followed at level [i] by [T i].  Linking a
    node in, and taking one out, changes the open ends level by level, each time
    with one write to the last node that is high enough ([Chain_relink]). *)

From Stdlib Require Import ZArith Lia Bool.
From stdpp Require Import base gmap list.
From S2P Require Import Prelude Random SkipList2.

(** ** Entries *)

Record ent : Type := {
  e_at : positive;
  e_height : nat;
  e_data : positive;
  e_key : list Z;
}.

Definition tall (i : nat) (e : ent) : bool := (i <? e_height e)%nat.

(** Where the pointer of level [i] in front of [R] leads. *)
Fixpoint first_tall (i : nat) (R : list ent) : option positive :=
  match R with [] => None | e :: R' => if tall i e then Some (e_at e) else first_tall i R' end.

Definition links (h : nat) (T : nat -> list ent) : list link := map (fun i => to_link (first_tall i (T i))) (seq 0 h).

Lemma first_tall_app i A B : first_tall i (A ++ B) = match first_tall i A with Some x => Some x | None => first_tall i B end.
Proof. induction A as [|e A IH]; [done|]. simpl. by destruct (tall i e). Qed.

Lemma links_lookup h T i : (i < h)%nat -> links h T !! i = Some (to_link (first_tall i (T i))).
Proof. intros Hi. unfold links. rewrite list_lookup_fmap, lookup_seq_lt by done. done. Qed.

Lemma length_links h T : length (links h T) = h.
Proof. unfold links. by rewrite List.length_map, List.length_seq. Qed.

Lemma links_ext h T T' : (forall i, (i < h)%nat -> first_tall i (T i) = first_tall i (T' i)) -> links h T = links h T'.
Proof. intros Heq. apply map_ext_in. intros i Hi%in_seq. rewrite Heq by lia. done. Qed.

(** Replacing the pointer of one level. *)
Definition at_level (T : nat -> list ent) (k : nat) (S : list ent) : nat -> list ent := fun i => if (i =? k)%nat then S else T i.

Lemma links_insert h T k S : (k < h)%nat -> <[k := to_link (first_tall k S)]> (links h T) = links h (at_level T k S).
Proof.
  intros Hk. apply list_eq. intros i. destruct (decide (i < h)%nat) as [Hi|Hi].
  - rewrite (links_lookup h (at_level T k S)) by done. unfold at_level. destruct (Nat.eqb_spec i k) as [->|Hne].
    + apply list_lookup_insert_eq. by rewrite length_links.
    + rewrite list_lookup_insert_ne by done. by rewrite links_lookup.
  - rewrite !lookup_ge_None_2; [done|rewrite length_links; lia|rewrite length_insert, length_links; lia].
Qed.

(** ** Entries in memory *)

Definition node_is (m : mem) (e : ent) (T : nat -> list ent) : Prop :=
  exists prev, m_nodes m !! e_at e =
    Some {| nd_height := e_height e; nd_data := Some (e_data e); nd_prev := prev; nd_next := links (e_height e) T |}.

Definition head_is (m : mem) (hd : positive) (T : nat -> list ent) : Prop :=
  m_nodes m !! hd = Some {| nd_height := kMaxHeight; nd_data := None; nd_prev := Null; nd_next := links kMaxHeight T |}.

Fixpoint Seg (m : mem) (A : list ent) (T : nat -> list ent) : Prop :=
  match A with [] => True | e :: A' => node_is m e (fun i => A' ++ T i) /\ Seg m A' T end.

Definition Chain (m : mem) (hd : positive) (A : list ent) (T : nat -> list ent) : Prop :=
  head_is m hd (fun i => A ++ T i) /\ Seg m A T.

Definition closed : nat -> list ent := fun _ => [].
Definition addrs (hd : positive) (A : list ent) : list positive := hd :: map e_at A.

Lemma addrs_app hd A B : addrs hd (A ++ B) = addrs hd A ++ map e_at B.
Proof. unfold addrs. by rewrite map_app. Qed.

(** Memories with the same data and the same back pointers that differ at [xs] only. *)
Record same_but (xs : list positive) (m m' : mem) : Prop := {
  sb_data : m_data m' = m_data m;
  sb_prev : forall x, nd_prev <$> m_nodes m' !! x = nd_prev <$> m_nodes m !! x;
  sb_nodes : forall x, x ∉ xs -> m_nodes m' !! x = m_nodes m !! x;
}.

Lemma same_but_refl xs m : same_but xs m m.
Proof. by split. Qed.

Lemma same_but_trans xs m1 m2 m3 : same_but xs m1 m2 -> same_but xs m2 m3 -> same_but xs m1 m3.
Proof. intros [D1 P1 N1] [D2 P2 N2]. split; [congruence|intros; by rewrite P2|intros; by rewrite N2, N1]. Qed.

Lemma same_but_mono xs ys m m' : same_but xs m m' -> (forall x, x ∈ xs -> x ∈ ys) -> same_but ys m m'.
Proof. intros [D P N] Hsub. split; try done. intros x Hx. apply N. auto. Qed.

#[export] Hint Resolve same_but_refl : kv.

Lemma node_is_mono m m' e T T' : node_is m e T -> m_nodes m' !! e_at e = m_nodes m !! e_at e ->
  (forall i, (i < e_height e)%nat -> first_tall i (T i) = first_tall i (T' i)) -> node_is m' e T'.
Proof. intros [prev Hp] Hm Heq. exists prev. by rewrite Hm, Hp, (links_ext _ T T'). Qed.

(** A segment survives what does not touch it and leaves its ends the same. *)
Lemma Seg_mono m m' A T T' : Seg m A T -> (forall x, x ∈ map e_at A -> m_nodes m' !! x = m_nodes m !! x) ->
  (forall e i, e ∈ A -> (i < e_height e)%nat -> first_tall i (T i) = first_tall i (T' i)) -> Seg m' A T'.
Proof.
  induction A as [|e A IH]; intros HS Hm Heq; [done|]. destruct HS as [Hn HS]. split.
  - apply (node_is_mono m _ _ _ _ Hn); [apply Hm; left|]. intros i Hi. rewrite !first_tall_app.
    rewrite (Heq e i) by (done || left). done.
  - apply IH; [done|intros x Hx; apply Hm; by right|]. intros e' i He. apply Heq. by right.
Qed.

Lemma Seg_app m A B T : Seg m (A ++ B) T <-> Seg m A (fun i => B ++ T i) /\ Seg m B T.
Proof.
  induction A as [|e A IH]; simpl; [tauto|]. rewrite IH.
  assert (Hn : node_is m e (fun i => (A ++ B) ++ T i) <-> node_is m e (fun i => A ++ B ++ T i)); [|tauto].
  split; intros Hn; apply (node_is_mono m m _ _ _ Hn); try done; intros; by rewrite app_assoc.
Qed.

Lemma head_is_mono m m' hd T T' : head_is m hd T -> m_nodes m' !! hd = m_nodes m !! hd ->
  (forall i, (i < kMaxHeight)%nat -> first_tall i (T i) = first_tall i (T' i)) -> head_is m' hd T'.
Proof. unfold head_is. intros Hh -> Heq. by rewrite Hh, (links_ext _ T T'). Qed.

Lemma Chain_mono m m' hd A T T' : Chain m hd A T -> (forall x, x ∈ addrs hd A -> m_nodes m' !! x = m_nodes m !! x) ->
  Forall (fun e => (e_height e <= kMaxHeight)%nat) A ->
  (forall i, (i < kMaxHeight)%nat -> first_tall i (T i) = first_tall i (T' i)) -> Chain m' hd A T'.
Proof.
  intros [Hh HS] Hm HA Heq. split.
  - apply (head_is_mono m _ _ _ _ Hh); [apply Hm; left|]. intros i Hi. by rewrite !first_tall_app, Heq.
  - apply (Seg_mono m _ _ _ _ HS); [intros x Hx; apply Hm; by right|]. intros e i He Hi. apply Heq.
    rewrite Forall_forall in HA. specialize (HA e He). lia.
Qed.

Lemma Chain_frame m m' hd A T : Chain m hd A T -> (forall x, x ∈ addrs hd A -> m_nodes m' !! x = m_nodes m !! x) -> Chain m' hd A T.
Proof.
  intros [Hh HS] Hm. split; [apply (head_is_mono m _ _ _ _ Hh); [apply Hm; left|done]|].
  apply (Seg_mono m _ _ _ _ HS); [intros x Hx; apply Hm; by right|done].
Qed.

Lemma Chain_app m hd A B T : Chain m hd (A ++ B) T <-> Chain m hd A (fun i => B ++ T i) /\ Seg m B T.
Proof.
  unfold Chain. rewrite Seg_app.
  assert (Hh : head_is m hd (fun i => (A ++ B) ++ T i) <-> head_is m hd (fun i => A ++ B ++ T i)); [|tauto].
  split; intros Hh; apply (head_is_mono m m _ _ _ Hh); try done; intros; by rewrite app_assoc.
Qed.

(** ** The last node that is high enough *)

Definition top (hd : positive) (P : list ent) : positive := match last P with Some e => e_at e | None => hd end.
Definition tower (P : list ent) : nat := match last P with Some e => e_height e | None => kMaxHeight end.
Definition pred (hd : positive) (k : nat) (A : list ent) : positive := top hd (filter (tall k) A).

Lemma top_snoc hd P e : top hd (P ++ [e]) = e_at e.
Proof. unfold top. by rewrite last_snoc. Qed.
Lemma tower_snoc P e : tower (P ++ [e]) = e_height e.
Proof. unfold tower. by rewrite last_snoc. Qed.

Lemma first_tall_none k Q : first_tall k Q = None <-> Forall (fun e => tall k e = false) Q.
Proof.
  induction Q as [|e Q IH]; simpl; [split; auto|]. rewrite Forall_cons. destruct (tall k e); [split; [done|intros []; done]|].
  rewrite IH. tauto.
Qed.

Lemma filter_none k Q : Forall (fun e => tall k e = false) Q -> filter (tall k) Q = [].
Proof. induction 1 as [|e Q He _ IH]; [done|]. rewrite filter_cons_False by (rewrite He; by intros []). done. Qed.

Lemma pred_app_none hd k P Q : Forall (fun e => tall k e = false) Q -> pred hd k (P ++ Q) = pred hd k P.
Proof. intros HQ. unfold pred. by rewrite filter_app, (filter_none k Q HQ), app_nil_r. Qed.

Lemma pred_top hd k P : (k < tower P)%nat -> pred hd k P = top hd P.
Proof.
  unfold pred. induction P as [|e P _] using rev_ind; [done|]. rewrite tower_snoc, top_snoc. intros Hk.
  rewrite filter_app, filter_cons_True, filter_nil by (unfold tall; destruct (Nat.ltb_spec k (e_height e)); [done|lia]).
  apply top_snoc.
Qed.

(** Splitting off the entries after the last high one. *)
Lemma split_tall hd k A : (k < kMaxHeight)%nat -> exists P Q, A = P ++ Q /\ Forall (fun e => tall k e = false) Q /\
  (k < tower P)%nat /\ pred hd k A = top hd P.
Proof.
  intros Hk. induction A as [|e A IH] using rev_ind; [by exists [], []|]. destruct (tall k e) eqn:He.
  - exists (A ++ [e]), []. rewrite app_nil_r, tower_snoc. unfold tall in He. apply Nat.ltb_lt in He.
    split; [done|]. split; [done|]. split; [done|]. apply pred_top. by rewrite tower_snoc.
  - destruct IH as (P & Q & -> & HQ & Ht & Hp). exists P, (Q ++ [e]). rewrite app_assoc.
    split; [done|]. split; [apply Forall_app; split; [done|by constructor]|]. split; [done|]. rewrite pred_app_none by by constructor. done.
Qed.

(** ** Reading and writing a tower *)

Lemma pointer_to_link p m : pointer (to_link p) m = Some (p, m).
Proof. by destruct p. Qed.

Lemma NodeNext_eq m x nd n p : m_nodes m !! x = Some nd -> nd_next nd !! n = Some (to_link p) -> NodeNext x n m = Some (p, m).
Proof.
  intros Hx Hn. unfold NodeNext, deref, lift, mbind, MM_bind, mbind, option_bind. rewrite Hx, Hn. apply pointer_to_link.
Qed.

Lemma SetNext_eq m x nd n v : m_nodes m !! x = Some nd -> (n < length (nd_next nd))%nat ->
  SetNext x n v m = Some (tt, m <| m_nodes ::= <[x := nd <| nd_next ::= <[n := to_link v]> |>]> |>).
Proof.
  intros Hx Hn. unfold SetNext, deref, lift, assign, mbind, MM_bind, mbind, option_bind. rewrite Hx.
  destruct (lookup_lt_is_Some_2 _ _ Hn) as [w ->]. done.
Qed.

Lemma top_cell m hd P Q T : Chain m hd (P ++ Q) T ->
  exists nd, m_nodes m !! top hd P = Some nd /\ nd_height nd = tower P /\ nd_next nd = links (tower P) (fun i => Q ++ T i).
Proof.
  induction P as [|e P _] using rev_ind; intros HC.
  - destruct HC as [Hh _]. exists {| nd_height := kMaxHeight; nd_data := None; nd_prev := Null; nd_next := links kMaxHeight (fun i => Q ++ T i) |}. done.
  - rewrite <- app_assoc in HC. apply Chain_app in HC as [_ [[prev Hp] _]]. rewrite top_snoc, tower_snoc.
    eexists. split; [exact Hp|]. done.
Qed.

Lemma Chain_next m hd P Q T i : Chain m hd (P ++ Q) T -> (i < tower P)%nat ->
  NodeNext (top hd P) i m = Some (first_tall i (Q ++ T i), m).
Proof.
  intros HC Hi. destruct (top_cell m hd P Q T HC) as (nd & Hx & _ & Hn). eapply NodeNext_eq; [done|]. rewrite Hn. by apply links_lookup.
Qed.

Lemma Chain_pred_next m hd A T k : Chain m hd A T -> (k < kMaxHeight)%nat -> NodeNext (pred hd k A) k m = Some (first_tall k (T k), m).
Proof.
  intros HC Hk. destruct (split_tall hd k A Hk) as (P & Q & -> & HQ & Ht & ->). rewrite (Chain_next m hd P Q T k HC Ht).
  by rewrite first_tall_app, (proj2 (first_tall_none k Q) HQ).
Qed.

Lemma top_in hd P : top hd P ∈ addrs hd P.
Proof. induction P as [|e P _] using rev_ind; [left|]. rewrite top_snoc, addrs_app. apply elem_of_app. right. left. Qed.

(** ** The write that changes one level *)

(** Behind a high entry nothing sees what follows at that level. *)
Lemma hidden_tail c k Q T S i : (k < e_height c)%nat -> first_tall i (c :: Q ++ T i) = first_tall i (c :: Q ++ at_level T k S i).
Proof.
  intros Hk. simpl. unfold at_level. destruct (Nat.eqb_spec i k) as [->|]; [|done]. unfold tall. by rewrite (proj2 (Nat.ltb_lt _ _) Hk).
Qed.

Lemma tail_at_level k Q T S i : Forall (fun e => tall k e = false) Q ->
  first_tall i (at_level (fun i => Q ++ T i) k S i) = first_tall i (Q ++ at_level T k S i).
Proof.
  intros HQ. unfold at_level. destruct (Nat.eqb_spec i k) as [->|]; [|done]. by rewrite first_tall_app, (proj2 (first_tall_none k Q) HQ).
Qed.

(** The entries up to the one that is written. *)
Lemma relink_before m m' hd P Q T k S nd : Chain m hd P (fun i => Q ++ T i) -> NoDup (addrs hd P) ->
  Forall (fun e => tall k e = false) Q -> (k < tower P)%nat -> m_nodes m !! top hd P = Some nd ->
  m_nodes m' !! top hd P = Some (nd <| nd_next ::= <[k := to_link (first_tall k S)]> |>) ->
  (forall x, x <> top hd P -> m_nodes m' !! x = m_nodes m !! x) -> Chain m' hd P (fun i => Q ++ at_level T k S i).
Proof.
  intros HC Hnd HQ Ht Hx Hx' Hother. destruct (last P) as [c|] eqn:Hlast.
  - apply last_Some in Hlast as [P' ->]. rewrite tower_snoc in Ht. rewrite top_snoc in *. apply Chain_app in HC as [[Hh HS] [[prev Hc] _]].
    assert (Hne : forall x, x ∈ addrs hd P' -> x <> e_at c).
    { intros x Hin ->. rewrite addrs_app in Hnd. apply NoDup_app in Hnd as (_ & Hdis & _). apply (Hdis _ Hin). left. }
    apply Chain_app. split; [split|split; [|done]].
    + apply (head_is_mono m _ _ _ _ Hh); [apply Hother, Hne; left|]. intros i Hi. rewrite 2!(first_tall_app i P').
      destruct (first_tall i P'); [done|]. by apply hidden_tail.
    + apply (Seg_mono m _ _ _ _ HS); [intros x Hin; apply Hother, Hne; by right|]. intros e i _ _. by apply hidden_tail.
    + exists prev. rewrite Hx in Hc. injection Hc as ->. rewrite Hx'. unfold upd. simpl. do 2 f_equal. rewrite links_insert by done.
      apply links_ext. intros i _. by apply tail_at_level.
  - apply last_None in Hlast as ->. destruct HC as [Hh _]. split; [|done]. unfold head_is in *. unfold top in *. simpl in *.
    rewrite Hx'. rewrite Hx in Hh. injection Hh as ->. unfold upd. simpl. do 2 f_equal. rewrite links_insert by done.
    apply links_ext. intros i _. by apply tail_at_level.
Qed.

Lemma Chain_relink m hd A T k S : Chain m hd A T -> NoDup (addrs hd A) -> (k < kMaxHeight)%nat ->
  exists m', SetNext (pred hd k A) k (first_tall k S) m = Some (tt, m') /\ Chain m' hd A (at_level T k S) /\ same_but (addrs hd A) m m'.
Proof.
  intros HC Hnd Hk. destruct (split_tall hd k A Hk) as (P & Q & -> & HQ & Ht & Hp). rewrite Hp.
  destruct (top_cell m hd P Q T HC) as (nd & Hx & Hh & Hn). apply Chain_app in HC as [HCP HSQ].
  rewrite addrs_app in Hnd |- *. apply NoDup_app in Hnd as (HndP & Hdis & _).
  eexists. split; [apply (SetNext_eq m _ nd); [done|by rewrite Hn, length_links]|].
  set (m' := m <| m_nodes ::= <[top hd P := _]> |>).
  assert (Hother : forall x, x <> top hd P -> m_nodes m' !! x = m_nodes m !! x) by (intros x Hne; simpl; by rewrite lookup_insert_ne).
  split; [apply Chain_app; split|split; [done|..]].
  - apply (relink_before m m' hd P Q T k S nd); try done. simpl. apply lookup_insert_eq.
  - apply (Seg_mono m _ _ _ _ HSQ).
    + intros x Hin. apply Hother. intros ->. by apply (Hdis (top hd P) (top_in hd P)).
    + intros e i He Hi. unfold at_level. destruct (Nat.eqb_spec i k) as [->|]; [|done]. rewrite Forall_forall in HQ. specialize (HQ e He).
      unfold tall in HQ. apply Nat.ltb_ge in HQ. lia.
  - intros x. destruct (decide (x = top hd P)) as [->|Hne]; [|by rewrite Hother]. simpl. by rewrite lookup_insert_eq, Hx.
  - intros x Hout. apply Hother. intros ->. apply Hout. apply elem_of_app. left. apply top_in.
Qed.

(** ** Searching *)

(** The comparator: a total preorder on the keys. *)
Class KeyOrder (compare_ : list Z -> list Z -> Z) : Prop := {
  ko_sym : forall a b, compare_ a b < 0 <-> 0 < compare_ b a;
  ko_trans : forall a b c, compare_ a b <= 0 -> compare_ b c <= 0 -> compare_ a c <= 0;
}.

Definition Datas (m : mem) (L : list ent) : Prop :=
  Forall (fun e => m_data m !! e_data e = Some {| sd_key := e_key e; sd_node := Some (e_at e) |}) L.

Lemma Seg_elem m A T e : Seg m A T -> e ∈ A -> exists T', node_is m e T'.
Proof.
  induction A as [|e' A IH]; intros HS He; [by apply elem_of_nil in He|]. destruct HS as [Hn HS].
  apply elem_of_cons in He as [->|He]; [eauto|]. by apply IH.
Qed.

Lemma Datas_elem m A e : Datas m A -> e ∈ A -> m_data m !! e_data e = Some {| sd_key := e_key e; sd_node := Some (e_at e) |}.
Proof. unfold Datas. rewrite Forall_forall. auto. Qed.

Lemma deref_eq m x nd : m_nodes m !! x = Some nd -> deref x m = Some (nd, m).
Proof. intros Hx. unfold deref, mbind, option_bind. by rewrite Hx. Qed.

Lemma mbind_eq {A B} (c : MM A) (f : A -> MM B) m x m' : c m = Some (x, m') -> (c ≫= f) m = f x m'.
Proof. intros Hc. unfold mbind, MM_bind, mbind, option_bind. by rewrite Hc. Qed.

Lemma GetData_eq m e T : node_is m e T -> GetData (e_at e) m = Some (e_data e, m).
Proof. intros [prev Hx]. unfold GetData. by rewrite (mbind_eq _ _ _ _ _ (deref_eq m _ _ Hx)). Qed.

Lemma GetHeight_eq m e T : node_is m e T -> GetHeight (e_at e) m = Some (e_height e, m).
Proof. intros [prev Hx]. unfold GetHeight. by rewrite (mbind_eq _ _ _ _ _ (deref_eq m _ _ Hx)). Qed.

Lemma GetKeySlice_eq m e A : Datas m A -> e ∈ A -> GetKeySlice (e_data e) m = Some (e_key e, m).
Proof. intros HD He. unfold GetKeySlice, mbind, option_bind. by rewrite (Datas_elem m A e HD He). Qed.

Lemma GetKey_eq m e T A : node_is m e T -> Datas m A -> e ∈ A -> GetKey (e_at e) m = Some (e_key e, m).
Proof.
  intros [prev Hx] HD He. unfold GetKey. rewrite (mbind_eq _ _ _ _ _ (deref_eq m _ _ Hx)).
  unfold mbind at 1, MM_bind, lift. simpl. by apply (GetKeySlice_eq m e A).
Qed.

(** What a search leaves in [prev] from level [n] down. *)
Definition fill (hd : positive) (A : list ent) (n : nat) (a : list link) : list link :=
  imap (fun j v => if (j <=? n)%nat then To (pred hd j A) else v) a.

Lemma fill_lookup hd A n a j : (j <= n)%nat -> (j < length a)%nat -> fill hd A n a !! j = Some (To (pred hd j A)).
Proof.
  intros Hj Hl. unfold fill. rewrite list_lookup_imap. destruct (lookup_lt_is_Some_2 _ _ Hl) as [v ->]. simpl.
  by rewrite (proj2 (Nat.leb_le j n) Hj).
Qed.

Lemma fill_0 hd A a : <[0%nat := To (pred hd 0 A)]> a = fill hd A 0 a.
Proof.
  apply list_eq. intros j. unfold fill. rewrite list_lookup_imap. destruct a as [|v a]; [done|]. destruct j as [|j]; [done|].
  simpl. by destruct (a !! j).
Qed.

Lemma fill_S hd A n a : fill hd A n (<[S n := To (pred hd (S n) A)]> a) = fill hd A (S n) a.
Proof.
  apply list_eq. intros j. unfold fill. rewrite !list_lookup_imap. destruct (decide (j = S n)) as [->|Hne].
  - destruct (decide (S n < length a)%nat) as [Hl|Hl].
    + rewrite list_lookup_insert_eq by done. destruct (lookup_lt_is_Some_2 _ _ Hl) as [v ->]. cbn [fmap option_fmap option_map].
      by rewrite (proj2 (Nat.leb_gt (S n) n)), Nat.leb_refl by lia.
    + rewrite !lookup_ge_None_2 by (rewrite ?length_insert; lia). done.
  - rewrite list_lookup_insert_ne by done. destruct (a !! j); [|done]. cbn [fmap option_fmap option_map].
    destruct (Nat.leb_spec j n), (Nat.leb_spec j (S n)); done || lia.
Qed.

Lemma split_first_tall i Q x : first_tall i Q = Some x -> exists Q1 e Q2, Q = Q1 ++ e :: Q2 /\
  Forall (fun e => tall i e = false) Q1 /\ tall i e = true /\ x = e_at e.
Proof.
  induction Q as [|e Q IH]; [done|]. simpl. destruct (tall i e) eqn:He.
  - intros [= <-]. exists [], e, Q. auto.
  - intros Hx. destruct (IH Hx) as (Q1 & e' & Q2 & -> & HQ & Ht & ->). exists (e :: Q1), e', Q2. auto.
Qed.

Section Descend.
  Variables (m : mem) (hd : positive) (A B : list ent) (go : option positive -> MM bool).
  Hypothesis HC : Chain m hd (A ++ B) closed.
  Hypothesis HA : forall e, e ∈ A -> go (Some (e_at e)) m = Some (true, m).
  Hypothesis HB : forall e, e ∈ B -> go (Some (e_at e)) m = Some (false, m).
  Hypothesis HN : go None m = Some (false, m).

Lemma go_rest i : go (first_tall i B) m = Some (false, m).
Proof.
  destruct (first_tall i B) as [x|] eqn:Hx; [|done]. apply split_first_tall in Hx as (B1 & e & B2 & -> & _ & _ & ->).
  apply HB. apply elem_of_app. right. left.
Qed.

Lemma descend_spec : forall fuel P Q level prev, A = P ++ Q -> (level < tower P)%nat -> (length Q + level < fuel)%nat ->
  descend go fuel (top hd P) level prev m = Some ((pred hd 0 A, first_tall 0 B, fill hd A level <$> prev), m).
Proof.
  induction fuel as [|fuel IH]; intros P Q level prev HPQ Hlev Hf; [lia|]. cbn [descend].
  pose proof HC as HC'. rewrite HPQ, <- app_assoc in HC'. pose proof (Chain_next m hd P (Q ++ B) closed level HC' Hlev) as Hnx.
  unfold closed in Hnx. rewrite app_nil_r in Hnx. rewrite (mbind_eq _ _ _ _ _ Hnx). rewrite first_tall_app.
  destruct (first_tall level Q) as [x|] eqn:HQ.
  - apply split_first_tall in HQ as (Q1 & e & Q2 & -> & HQ1 & Ht & ->). unfold tall in Ht. apply Nat.ltb_lt in Ht.
    rewrite (mbind_eq _ _ _ _ _ (HA e ltac:(rewrite HPQ, !elem_of_app, elem_of_cons; tauto))).
    rewrite <- (top_snoc hd (P ++ Q1) e). apply IH with (Q := Q2).
    + rewrite HPQ, <- !app_assoc. done.
    + by rewrite tower_snoc.
    + rewrite length_app in Hf. simpl in Hf. lia.
  - rewrite (mbind_eq _ _ _ _ _ (go_rest level)). apply first_tall_none in HQ.
    assert (Hp : pred hd level A = top hd P) by (rewrite HPQ, pred_app_none by done; by apply pred_top).
    destruct level as [|level].
    + rewrite Hp. unfold mret, MM_ret. do 3 f_equal. destruct prev as [a|]; [|done]. simpl. f_equal. rewrite <- Hp. apply fill_0.
    + rewrite (IH P Q level) by (done || lia). do 3 f_equal. destruct prev as [a|]; [|done]. simpl. f_equal. rewrite <- Hp. apply fill_S.
Qed.
End Descend.
