(* ===== verification/SkipListOps.v ===== *)
(** * The operations of a skip list

    [Rep] ties a skip list in memory to its entries, in the order of their keys.
    Every operation of SkipList2.v is shown to keep it and to have the effect of
    the operation on a plain sorted list. *)

From Stdlib Require Import ZArith Lia Bool Sorted.
From stdpp Require Import base gmap list fin_maps.
From S2P Require Import Prelude Random SkipList2 SkipListInv.

Ltac step H := rewrite (mbind_eq _ _ _ _ _ H); cbv beta iota.

(** ** Lists of keys and data *)

Section Spec.
  Variable compare_ : list Z -> list Z -> Z.

Abbreviation pairs := (list (list Z * positive)).

Definition s_find (key : list Z) (S : pairs) : option positive := snd <$> head (filter (fun p => compare_ key p.1 = 0) S).
Definition s_ge (key : list Z) (S : pairs) : option positive := snd <$> head (filter (fun p => 0 <= compare_ p.1 key) S).
Definition s_gt (key : list Z) (S : pairs) : option positive := snd <$> head (filter (fun p => 0 < compare_ p.1 key) S).
Definition s_lt (key : list Z) (S : pairs) : option positive := snd <$> last (filter (fun p => compare_ p.1 key < 0) S).
Definition s_insert (key : list Z) (d : positive) (S : pairs) : pairs :=
  filter (fun p => compare_ p.1 key < 0) S ++ (key, d) :: filter (fun p => 0 <= compare_ p.1 key) S.
Definition s_remove (key : list Z) (S : pairs) : pairs := filter (fun p => compare_ p.1 key <> 0) S.
End Spec.

(** ** The representation *)

Definition view (L : list ent) : list (list Z * positive) := map (fun e => (e_key e, e_data e)) L.

Section Rep.
  Variable compare_ : list Z -> list Z -> Z.

Record Rep (m : mem) (l : SkipList2) (L : list ent) : Prop := {
  rp_chain : Chain m (head_ l) L closed;
  rp_datas : Datas m L;
  rp_nodup : NoDup (addrs (head_ l) L);
  rp_heights : Forall (fun e => 1 <= e_height e <= max_height_ l)%nat L;
  rp_max : (1 <= max_height_ l <= kMaxHeight)%nat;
  rp_sorted : StronglySorted (fun a b => compare_ (e_key a) (e_key b) < 0) L;
  rp_count : count_ l = u64 (Z.of_nat (length L));
}.

(** The back pointers. *)
Fixpoint Back (m : mem) (p : positive) (L : list ent) : Prop :=
  match L with [] => True | e :: L' => nd_prev <$> m_nodes m !! e_at e = Some (To p) /\ Back m (e_at e) L' end.

Lemma Back_app m p A B : Back m p (A ++ B) <-> Back m p A /\ Back m (top p A) B.
Proof.
  revert p. induction A as [|e A IH]; intros p; simpl; [unfold top; simpl; tauto|]. rewrite IH.
  replace (top p (e :: A)) with (top (e_at e) A); [tauto|]. unfold top. rewrite last_cons. by destruct (last A).
Qed.

Lemma Back_frame m m' p L : Back m p L -> (forall x, x ∈ map e_at L -> nd_prev <$> m_nodes m' !! x = nd_prev <$> m_nodes m !! x) -> Back m' p L.
Proof.
  revert p. induction L as [|e L IH]; intros p HB Hm; [done|]. destruct HB as [H1 H2]. split; [rewrite Hm; [done|left]|].
  apply IH; [done|]. intros x Hx. apply Hm. by right.
Qed.

(** ** Splitting at a key *)

Context `{!KeyOrder compare_}.

Definition lower (key : list Z) (e : ent) : Prop := compare_ (e_key e) key < 0.
Definition upper (key : list Z) (e : ent) : Prop := 0 <= compare_ (e_key e) key.

Lemma compare_sgn a b : compare_ a b < 0 \/ compare_ a b = 0 /\ compare_ b a = 0 \/ 0 < compare_ a b.
Proof.
  destruct (ko_sym a b), (ko_sym b a).
  lia.
Qed.

Lemma compare_lt_le a b c : compare_ a b < 0 -> compare_ b c <= 0 -> compare_ a c < 0.
Proof.
  intros Hab Hbc. assert (compare_ a c <= 0) by (apply (ko_trans a b c); lia). destruct (compare_sgn a c) as [|[[Hac Hca]|]]; [done| |lia].
  assert (compare_ b a <= 0) by (apply (ko_trans b c a); lia). destruct (ko_sym a b). lia.
Qed.

Lemma compare_le_lt a b c : compare_ a b <= 0 -> compare_ b c < 0 -> compare_ a c < 0.
Proof.
  intros Hab Hbc. assert (compare_ a c <= 0) by (apply (ko_trans a b c); lia). destruct (compare_sgn a c) as [|[[Hac Hca]|]]; [done| |lia].
  assert (compare_ c b <= 0) by (apply (ko_trans c a b); lia). destruct (ko_sym b c). lia.
Qed.

Lemma sorted_app_lt L1 L2 : StronglySorted (fun a b => compare_ (e_key a) (e_key b) < 0) (L1 ++ L2) ->
  StronglySorted (fun a b => compare_ (e_key a) (e_key b) < 0) L1 /\ StronglySorted (fun a b => compare_ (e_key a) (e_key b) < 0) L2 /\
  forall a b, a ∈ L1 -> b ∈ L2 -> compare_ (e_key a) (e_key b) < 0.
Proof.
  induction L1 as [|e L1 IH]; simpl; intros HS; [split; [constructor|split; [done|intros a b Ha; by apply elem_of_nil in Ha]]|].
  apply StronglySorted_inv in HS as [HS He]. destruct (IH HS) as (H1 & H2 & H3). rewrite List.Forall_app in He.
  destruct He as [He1 He2]. split; [by constructor|]. split; [done|]. intros a b [->|Ha]%elem_of_cons Hb; [|auto].
  rewrite List.Forall_forall in He2. by apply He2, list_elem_of_In.
Qed.

Lemma split_at key L : StronglySorted (fun a b => compare_ (e_key a) (e_key b) < 0) L ->
  exists A B, L = A ++ B /\ Forall (lower key) A /\ Forall (upper key) B.
Proof.
  induction L as [|e L IH]; intros HS; [by exists [], []|]. apply StronglySorted_inv in HS as [HS He].
  destruct (Z.lt_ge_cases (compare_ (e_key e) key) 0) as [Hlt|Hge].
  - destruct (IH HS) as (A & B & -> & HA & HB). exists (e :: A), B. split; [done|]. split; [by constructor|done].
  - exists [], (e :: L). split; [done|]. split; [constructor|]. constructor; [done|]. rewrite List.Forall_forall in He.
    apply Forall_forall. intros e' He'%list_elem_of_In. specialize (He e' He'). unfold upper.
    destruct (Z.lt_ge_cases (compare_ (e_key e') key) 0) as [Hlt|]; [|done].
    pose proof (compare_lt_le (e_key e) (e_key e') key He ltac:(lia)). lia.
Qed.

(** The filters of the specification at a split. *)
Section Filters.
  Context (P : list Z * positive -> Prop) `{!forall p, Decision (P p)}.

Lemma filter_view_all A : Forall (fun e => P (e_key e, e_data e)) A -> filter P (view A) = view A.
Proof. induction 1 as [|e A He _ IH]; [done|]. simpl. rewrite filter_cons_True by done. by rewrite IH. Qed.

Lemma filter_view_none A : Forall (fun e => ~ P (e_key e, e_data e)) A -> filter P (view A) = [].
Proof. induction 1 as [|e A He _ IH]; [done|]. simpl. by rewrite filter_cons_False. Qed.

Lemma filter_view_app A B : filter P (view (A ++ B)) = filter P (view A) ++ filter P (view B).
Proof. unfold view. rewrite map_app. apply filter_app. Qed.
End Filters.

(** ** The searches *)

Lemma Chain_alloc m hd A T x : Chain m hd A T -> x ∈ addrs hd A -> is_Some (m_nodes m !! x).
Proof.
  intros [Hh HS] [->|Hx]%elem_of_cons; [by rewrite Hh|]. apply list_elem_of_fmap in Hx as (e & -> & He).
  destruct (Seg_elem m A T e HS He) as (T' & prev & ->). done.
Qed.

Lemma Chain_size m hd A T : Chain m hd A T -> NoDup (addrs hd A) -> (S (length A) <= size (m_nodes m))%nat.
Proof.
  intros HC Hnd. rewrite <- (size_dom (D := gset positive)).
  replace (S (length A)) with (size (list_to_set (addrs hd A) : gset positive)).
  - apply subseteq_size. intros x Hx%elem_of_list_to_set. apply elem_of_dom. by apply (Chain_alloc m hd A T).
  - rewrite size_list_to_set by done. simpl. by rewrite List.length_map.
Qed.

Lemma first_tall_0 R : Forall (fun e => 1 <= e_height e)%nat R -> first_tall 0 R = e_at <$> head R.
Proof.
  intros HR. destruct R as [|e R]; [done|]. apply Forall_cons in HR as [He _]. simpl. unfold tall.
  by rewrite (proj2 (Nat.ltb_lt 0 _)) by lia.
Qed.

Lemma pred_0 hd A : Forall (fun e => 1 <= e_height e)%nat A -> pred hd 0 A = top hd A.
Proof.
  intros HA. apply pred_top. unfold tower. destruct (last A) as [e|] eqn:Hl; [|unfold kMaxHeight; lia].
  apply last_Some in Hl as [A' ->]. apply Forall_app in HA as [_ HA]. apply Forall_cons in HA as [HA _]. lia.
Qed.

Lemma heights_pos h L : Forall (fun e => 1 <= e_height e <= h)%nat L -> Forall (fun e => 1 <= e_height e)%nat L.
Proof. intros HL. eapply Forall_impl; [exact HL|]. simpl. lia. Qed.

Lemma heights_max h L : (h <= kMaxHeight)%nat -> Forall (fun e => 1 <= e_height e <= h)%nat L -> Forall (fun e => e_height e <= kMaxHeight)%nat L.
Proof. intros Hh HL. eapply Forall_impl; [exact HL|]. simpl. lia. Qed.

Section Searches.
  Variables (m : mem) (l : SkipList2) (A B : list ent) (key : list Z).
  Hypothesis HR : Rep m l (A ++ B).
  Hypothesis HA : Forall (lower key) A.
  Hypothesis HB : Forall (upper key) B.

Lemma rep_node e : e ∈ A ++ B -> exists T, node_is m e T.
Proof. apply (Seg_elem m (A ++ B) closed), HR. Qed.

Lemma rep_key e : e ∈ A ++ B -> GetKey (e_at e) m = Some (e_key e, m).
Proof. intros He. destruct (rep_node e He) as [T Hn]. by apply (GetKey_eq m e T (A ++ B) Hn (rp_datas _ _ _ HR)). Qed.

Lemma after_spec b e : e ∈ A ++ B -> (compare_ (e_key e) key <? 0) = b -> KeyIsAfterNode compare_ key (Some (e_at e)) m = Some (b, m).
Proof. intros He <-. unfold KeyIsAfterNode. by step (rep_key e He). Qed.

Lemma search_descend prev : descend (KeyIsAfterNode compare_ key) (search_fuel m) (head_ l) (max_height_ l - 1) prev m =
  Some ((top (head_ l) A, e_at <$> head B, fill (head_ l) A (max_height_ l - 1) <$> prev), m).
Proof.
  pose proof (heights_pos _ _ (rp_heights _ _ _ HR)) as [HhA HhB]%Forall_app.
  rewrite <- (first_tall_0 B), <- (pred_0 (head_ l) A) by done. rewrite Forall_forall in HA, HB.
  apply (descend_spec m (head_ l) A B _ (rp_chain _ _ _ HR)) with (P := []) (Q := A).
  - intros e He. apply after_spec; [apply elem_of_app; by left|]. by apply Z.ltb_lt, HA.
  - intros e He. apply after_spec; [apply elem_of_app; by right|]. by apply Z.ltb_ge, HB.
  - done.
  - done.
  - unfold tower. simpl. pose proof (rp_max _ _ _ HR). lia.
  - pose proof (Chain_size m _ _ _ (rp_chain _ _ _ HR) (rp_nodup _ _ _ HR)) as Hs. rewrite length_app in Hs.
    pose proof (rp_max _ _ _ HR). unfold search_fuel. lia.
Qed.

Lemma FindGreaterOrEqual_spec prev : FindGreaterOrEqual compare_ l key prev m =
  Some ((e_at <$> head B, fill (head_ l) A (max_height_ l - 1) <$> prev), m).
Proof. unfold FindGreaterOrEqual. by rewrite search_descend. Qed.

Lemma FindLessThan_spec : FindLessThan compare_ l key m = Some (top (head_ l) A, m).
Proof. unfold FindLessThan. by rewrite search_descend. Qed.
End Searches.

Lemma FindLast_spec m l L : Rep m l L -> FindLast l m = Some (top (head_ l) L, m).
Proof.
  intros HR. pose proof (heights_pos _ _ (rp_heights _ _ _ HR)) as Hh. unfold FindLast.
  pose proof (rp_chain _ _ _ HR) as HC. rewrite <- (app_nil_r L) in HC.
  rewrite (descend_spec m (head_ l) L [] _ HC) with (P := []) (Q := L); try done.
  - by rewrite pred_0.
  - intros e He. by apply elem_of_nil in He.
  - unfold tower. simpl. pose proof (rp_max _ _ _ HR). lia.
  - pose proof (Chain_size m _ _ _ (rp_chain _ _ _ HR) (rp_nodup _ _ _ HR)) as Hs. pose proof (rp_max _ _ _ HR). unfold search_fuel. lia.
Qed.

(** ** The operations that only read *)

Section Reading.
  Variables (m : mem) (l : SkipList2) (L : list ent).
  Hypothesis HR : Rep m l L.

Lemma view_head B : snd <$> head (view B) = e_data <$> head B.
Proof. by destruct B. Qed.

Lemma view_last A : snd <$> last (view A) = e_data <$> last A.
Proof. unfold view. change (map ?f A) with (f <$> A). rewrite fmap_last. by destruct (last A). Qed.

Lemma lower_not_upper key A : Forall (lower key) A -> Forall (fun e => ~ 0 <= compare_ (e_key e) key) A.
Proof. intros HA. eapply Forall_impl; [exact HA|]. unfold lower. simpl. lia. Qed.

Lemma upper_not_lower key B : Forall (upper key) B -> Forall (fun e => ~ compare_ (e_key e) key < 0) B.
Proof. intros HB. eapply Forall_impl; [exact HB|]. unfold upper. simpl. lia. Qed.

Lemma lower_not_equal key A : Forall (lower key) A -> Forall (fun e => compare_ key (e_key e) <> 0) A.
Proof. intros HA. eapply Forall_impl; [exact HA|]. unfold lower. simpl. intros e. destruct (ko_sym (e_key e) key). lia. Qed.

Lemma s_ge_split key A B : Forall (lower key) A -> Forall (upper key) B -> s_ge compare_ key (view (A ++ B)) = e_data <$> head B.
Proof.
  intros HA HB. unfold s_ge. rewrite filter_view_app, filter_view_none, filter_view_all; try done.
  - apply view_head.
  - by apply lower_not_upper.
Qed.

Lemma s_lt_split key A B : Forall (lower key) A -> Forall (upper key) B -> s_lt compare_ key (view (A ++ B)) = e_data <$> last A.
Proof.
  intros HA HB. unfold s_lt. rewrite filter_view_app, filter_view_all, filter_view_none, app_nil_r; try done.
  - apply view_last.
  - by apply upper_not_lower.
Qed.

(** After an entry from [key] on there is no entry with that key. *)
Lemma above_not_equal key e B : upper key e -> Forall (fun b => compare_ (e_key e) (e_key b) < 0) B -> Forall (fun b => compare_ key (e_key b) <> 0) B.
Proof.
  intros He HB. eapply Forall_impl; [exact HB|]. simpl. intros b Hb. unfold upper in He.
  assert (compare_ key (e_key b) < 0); [|lia]. apply (compare_le_lt _ (e_key e)); [|done]. destruct (ko_sym key (e_key e)), (ko_sym (e_key e) key). lia.
Qed.

Lemma s_find_split key A B : StronglySorted (fun a b => compare_ (e_key a) (e_key b) < 0) (A ++ B) ->
  Forall (lower key) A -> Forall (upper key) B ->
  s_find compare_ key (view (A ++ B)) = e ← head B; if Equal compare_ key (e_key e) then Some (e_data e) else None.
Proof.
  intros HS HA HB. apply sorted_app_lt in HS as (_ & HSB & _). unfold s_find.
  rewrite filter_view_app, filter_view_none by by apply lower_not_equal. destruct B as [|e B]; [done|].
  apply StronglySorted_inv in HSB as [_ HeB]. apply Forall_cons in HB as [He _].
  change (view (e :: B)) with (view ([e] ++ B)). rewrite (filter_view_app _ [e] B), (filter_view_none _ B), app_nil_r.
  - simpl. unfold Equal. destruct (Z.eqb_spec (compare_ key (e_key e)) 0) as [E|E].
    + by rewrite filter_cons_True.
    + by rewrite filter_cons_False.
  - apply (above_not_equal key e); [done|]. by rewrite List.Forall_forall in HeB; apply List.Forall_forall.
Qed.

Lemma split_rep key : exists A B, L = A ++ B /\ Forall (lower key) A /\ Forall (upper key) B.
Proof. apply split_at, HR. Qed.

Lemma data_eq e : e ∈ L -> GetData (e_at e) m = Some (e_data e, m).
Proof. intros He. destruct (Seg_elem m L closed e) as [T Hn]; [apply HR|done|]. by apply (GetData_eq m e T). Qed.

Lemma key_eq e : e ∈ L -> GetKey (e_at e) m = Some (e_key e, m).
Proof. intros He. destruct (Seg_elem m L closed e) as [T Hn]; [apply HR|done|]. by apply (GetKey_eq m e T L Hn (rp_datas _ _ _ HR)). Qed.

Lemma top_not_head A B e : L = A ++ B -> last A = Some e -> top (head_ l) A = e_at e /\ e_at e <> head_ l /\ e ∈ L.
Proof.
  intros -> Hl. apply last_Some in Hl as [A' ->]. rewrite top_snoc. pose proof (rp_nodup _ _ _ HR) as Hnd.
  split; [done|]. split; [|apply elem_of_app; left; apply elem_of_app; right; left].
  intros E. unfold addrs in Hnd. apply NoDup_cons in Hnd as [Hn _]. apply Hn. rewrite <- E, !map_app, !elem_of_app. left. right. left.
Qed.

Lemma Search_spec key : Search compare_ l key None m = Some ((s_find compare_ key (view L), None), m).
Proof.
  destruct (split_rep key) as (A & B & EL & HA & HB). pose proof HR as HR'. rewrite EL in HR'.
  unfold Search, find_with_ctx. step (FindGreaterOrEqual_spec m l A B key HR' HA HB ((fun _ : SLSplitCtx => replicate kMaxHeight (To (head_ l))) <$> None)).
  rewrite EL, (s_find_split key A B (rp_sorted _ _ _ HR') HA HB). destruct B as [|e B]; [done|]. simpl.
  step (key_eq e ltac:(rewrite EL, elem_of_app, elem_of_cons; tauto)). destruct (Equal compare_ key (e_key e)); [|done].
  by step (data_eq e ltac:(rewrite EL, elem_of_app, elem_of_cons; tauto)).
Qed.

Lemma Contains_spec key : Contains compare_ l key m = Some (bool_decide (is_Some (s_find compare_ key (view L))), m).
Proof.
  destruct (split_rep key) as (A & B & EL & HA & HB). pose proof HR as HR'. rewrite EL in HR'.
  unfold Contains. step (FindGreaterOrEqual_spec m l A B key HR' HA HB None).
  rewrite EL, (s_find_split key A B (rp_sorted _ _ _ HR') HA HB). destruct B as [|e B]; [done|]. simpl.
  step (key_eq e ltac:(rewrite EL, elem_of_app, elem_of_cons; tauto)). by destruct (Equal compare_ key (e_key e)).
Qed.

Lemma SearchGreaterOrEqual_spec key : SearchGreaterOrEqual compare_ l key None m = Some ((s_ge compare_ key (view L), None), m).
Proof.
  destruct (split_rep key) as (A & B & EL & HA & HB). pose proof HR as HR'. rewrite EL in HR'.
  unfold SearchGreaterOrEqual, find_with_ctx. step (FindGreaterOrEqual_spec m l A B key HR' HA HB ((fun _ : SLSplitCtx => replicate kMaxHeight (To (head_ l))) <$> None)).
  rewrite EL, (s_ge_split key A B HA HB). destruct B as [|e B]; [done|]. simpl.
  by step (data_eq e ltac:(rewrite EL, elem_of_app, elem_of_cons; tauto)).
Qed.

Lemma top_data A B : L = A ++ B ->
  (if bool_decide (top (head_ l) A = head_ l) then mret None else d ← GetData (top (head_ l) A); mret (Some d)) m = Some (e_data <$> last A, m).
Proof.
  intros EL. destruct (last A) as [e|] eqn:Hl.
  - destruct (top_not_head A B e EL Hl) as (-> & Hne & He). rewrite bool_decide_false by done. by step (data_eq e He).
  - apply last_None in Hl as ->. unfold top. simpl. by rewrite bool_decide_true.
Qed.

Lemma SearchLessThanEqual_spec key : SearchLessThanEqual compare_ l key m = Some (s_lt compare_ key (view L), m).
Proof.
  destruct (split_rep key) as (A & B & EL & HA & HB). pose proof HR as HR'. rewrite EL in HR'.
  unfold SearchLessThanEqual. step (FindLessThan_spec m l A B key HR' HA HB). rewrite (top_data A B EL).
  by rewrite EL, (s_lt_split key A B HA HB).
Qed.

Lemma Last_spec : Last l m = Some (snd <$> last (view L), m).
Proof. unfold Last. step (FindLast_spec m l L HR). by rewrite (top_data L [] ltac:(by rewrite app_nil_r)), view_last. Qed.

Lemma head_next : NodeNext (head_ l) 0 m = Some (e_at <$> head L, m).
Proof.
  pose proof (rp_chain _ _ _ HR) as HC. rewrite <- (app_nil_l L) in HC.
  pose proof (Chain_next m (head_ l) [] L closed 0 HC ltac:(unfold tower, kMaxHeight; simpl; lia)) as Hn.
  unfold closed in Hn. rewrite app_nil_r, first_tall_0 in Hn by apply (heights_pos _ _ (rp_heights _ _ _ HR)). exact Hn.
Qed.

Lemma head_in e : head L = Some e -> e ∈ L.
Proof. clear HR. destruct L; [done|]. intros [= ->]. left. Qed.

Lemma First_spec : First l None m = Some ((snd <$> head (view L), None), m).
Proof.
  unfold First. step head_next. rewrite view_head. destruct (head L) as [e|] eqn:Eh; [|done]. simpl. by step (data_eq e (head_in e Eh)).
Qed.

(** ** From one entry to its neighbours *)

Lemma entry_next A e B : L = A ++ e :: B -> NodeNext (e_at e) 0 m = Some (e_at <$> head B, m).
Proof.
  intros EL. pose proof (rp_chain _ _ _ HR) as HC. pose proof (heights_pos _ _ (rp_heights _ _ _ HR)) as Hh.
  rewrite EL in HC, Hh. apply Forall_app in Hh as [_ Hh]. apply Forall_cons in Hh as [He Hh].
  replace (A ++ e :: B) with ((A ++ [e]) ++ B) in HC by by rewrite <- app_assoc.
  pose proof (Chain_next m (head_ l) (A ++ [e]) B closed 0 HC ltac:(rewrite tower_snoc; lia)) as Hn.
  unfold closed in Hn. rewrite app_nil_r, first_tall_0, top_snoc in Hn by done. exact Hn.
Qed.

Lemma above_entry A e B : L = A ++ e :: B -> Forall (lower (e_key e)) A /\ Forall (fun b => 0 < compare_ (e_key b) (e_key e)) B.
Proof.
  intros EL. pose proof (rp_sorted _ _ _ HR) as HS. rewrite EL in HS. apply sorted_app_lt in HS as (_ & HSB & HAB).
  apply StronglySorted_inv in HSB as [_ HB]. split; apply Forall_forall; intros x Hx.
  - apply HAB; [done|left].
  - rewrite List.Forall_forall in HB. apply ko_sym. by apply HB, list_elem_of_In.
Qed.

Lemma compare_refl k : compare_ k k = 0.
Proof. destruct (ko_sym k k). lia. Qed.

Lemma s_gt_entry A e B : L = A ++ e :: B -> s_gt compare_ (e_key e) (view L) = e_data <$> head B.
Proof.
  intros EL. destruct (above_entry A e B EL) as [HA HB]. unfold s_gt. rewrite EL.
  replace (A ++ e :: B) with ((A ++ [e]) ++ B) by by rewrite <- app_assoc.
  rewrite filter_view_app, filter_view_none, filter_view_all; [apply view_head|done|].
  apply Forall_app. split; [|constructor; [rewrite compare_refl; lia|done]].
  eapply Forall_impl; [exact HA|]. unfold lower. simpl. lia.
Qed.

Lemma Next_spec e : e ∈ L -> Next compare_ l (Some (e_data e)) None m = Some ((s_gt compare_ (e_key e) (view L), None), m).
Proof.
  intros He. pose proof He as (A & B & EL)%list_elem_of_split. unfold Next, GetNode.
  pose proof (Datas_elem m L e (rp_datas _ _ _ HR) He) as Hd.
  assert (Hg : GetNode (e_data e) m = Some (Some (e_at e), m)) by (unfold GetNode, mbind, option_bind; by rewrite Hd).
  step Hg. unfold NextWithNode. unfold mbind at 1, MM_bind, lift. simpl.
  rewrite (s_gt_entry A e B EL). step (entry_next A e B EL). destruct B as [|e' B]; [done|]. simpl.
  by step (data_eq e' ltac:(rewrite EL, elem_of_app, !elem_of_cons; tauto)).
Qed.

Lemma s_lt_entry A e B : L = A ++ e :: B -> s_lt compare_ (e_key e) (view L) = e_data <$> last A.
Proof.
  intros EL. destruct (above_entry A e B EL) as [HA HB]. rewrite EL. apply s_lt_split; [done|].
  constructor; [unfold upper; rewrite compare_refl; lia|]. eapply Forall_impl; [exact HB|]. unfold upper. simpl. lia.
Qed.

Lemma Prev_spec e : Back m (head_ l) L -> e ∈ L -> Prev compare_ l (Some (e_data e)) m = Some (s_lt compare_ (e_key e) (view L), m).
Proof.
  intros HB He. pose proof He as (A & B & EL)%list_elem_of_split. unfold Prev.
  pose proof (Datas_elem m L e (rp_datas _ _ _ HR) He) as Hd.
  assert (Hg : GetNode (e_data e) m = Some (Some (e_at e), m)) by (unfold GetNode, mbind, option_bind; by rewrite Hd).
  step Hg. rewrite (s_lt_entry A e B EL). rewrite EL in HB. apply Back_app in HB as [_ [Hp _]].
  destruct (m_nodes m !! e_at e) as [nd|] eqn:Hx; [|done]. injection Hp as Hp.
  assert (Hpr : NodePrev (e_at e) m = Some (Some (top (head_ l) A), m)).
  { unfold NodePrev. step (deref_eq m _ _ Hx). by rewrite Hp. }
  unfold PrevWithNode. step Hpr. by apply (top_data A (e :: B)).
Qed.

(** An object that is in no list is looked for by its key. *)
Lemma Next_outside d key : m_data m !! d = Some {| sd_key := key; sd_node := None |} ->
  Next compare_ l (Some d) None m = Some ((s_ge compare_ key (view L), None), m).
Proof.
  intros Hd. unfold Next. assert (Hg : GetNode d m = Some (None, m)) by (unfold GetNode, mbind, option_bind; by rewrite Hd).
  assert (Hk : GetKeySlice d m = Some (key, m)) by (unfold GetKeySlice, mbind, option_bind; by rewrite Hd).
  step Hg. step Hk. apply SearchGreaterOrEqual_spec.
Qed.

Lemma Prev_outside d key : m_data m !! d = Some {| sd_key := key; sd_node := None |} ->
  Prev compare_ l (Some d) m = Some (s_lt compare_ key (view L), m).
Proof.
  intros Hd. unfold Prev. assert (Hg : GetNode d m = Some (None, m)) by (unfold GetNode, mbind, option_bind; by rewrite Hd).
  assert (Hk : GetKeySlice d m = Some (key, m)) by (unfold GetKeySlice, mbind, option_bind; by rewrite Hd).
  step Hg. step Hk. apply SearchLessThanEqual_spec.
Qed.
End Reading.
End Rep.
