(* ===== verification/SkipListEdit.v ===== *)
(** * Insertion and removal in a skip list

    Linking a node in and out of the towers, level by level, and the operations of
    SkipList2.v that do it: the constructor, [Insert], [Remove] and the destructor. *)

From Stdlib Require Import ZArith Lia Bool Sorted.
From stdpp Require Import base gmap list fin_maps.
From S2P Require Import Prelude Random SkipList2 SkipListInv SkipListOps.

(** ** One level at a time *)

(** The open ends when the levels below [k] already lead to [S1]. *)
Definition stage (k : nat) (S0 S1 : list ent) : nat -> list ent := fun i => if (i <? k)%nat then S1 else S0.

Lemma Chain_stage m hd A S0 S1 k : Forall (fun e => e_height e <= kMaxHeight)%nat A ->
  Chain m hd A (at_level (stage k S0 S1) k S1) -> Chain m hd A (stage (S k) S0 S1).
Proof.
  intros HA HC. apply (Chain_mono m m hd A _ _ HC); [done|done|]. intros i Hi. unfold at_level, stage.
  destruct (Nat.eqb_spec i k) as [->|Hne]; [by rewrite (proj2 (Nat.ltb_lt k (S k))) by lia|].
  destruct (Nat.ltb_spec i k), (Nat.ltb_spec i (S k)); done || lia.
Qed.

Lemma Chain_start m hd A S0 S1 : Forall (fun e => e_height e <= kMaxHeight)%nat A ->
  Chain m hd A (fun _ => S0) -> Chain m hd A (stage 0 S0 S1).
Proof. intros HA HC. by apply (Chain_mono m m hd A _ _ HC). Qed.

Lemma skip_low i e B : (e_height e <= i)%nat -> first_tall i (e :: B) = first_tall i B.
Proof. intros Hi. simpl. unfold tall. by rewrite (proj2 (Nat.ltb_ge i (e_height e))) by lia. Qed.

Lemma Chain_linked m hd A B e : Forall (fun e => e_height e <= kMaxHeight)%nat A ->
  Chain m hd A (stage (e_height e) B (e :: B)) -> Chain m hd A (fun _ => e :: B).
Proof.
  intros HA HC. apply (Chain_mono m m hd A _ _ HC); [done|done|]. intros i Hi. unfold stage. destruct (Nat.ltb_spec i (e_height e)); [done|].
  by rewrite skip_low.
Qed.

Lemma Chain_unlinked m hd A B e : Forall (fun e => e_height e <= kMaxHeight)%nat A ->
  Chain m hd A (stage (e_height e) (e :: B) B) -> Chain m hd A (fun _ => B).
Proof.
  intros HA HC. apply (Chain_mono m m hd A _ _ HC); [done|done|]. intros i Hi. unfold stage. destruct (Nat.ltb_spec i (e_height e)); [done|].
  by rewrite skip_low.
Qed.

(** A tower whose pointers below [k] are [f] and whose others are [g]. *)
Definition tower_at (h k : nat) (f g : nat -> link) : list link := map (fun i => if (i <? k)%nat then f i else g i) (seq 0 h).

Lemma tower_at_insert h k f g : (k < h)%nat -> <[k := f k]> (tower_at h k f g) = tower_at h (S k) f g.
Proof.
  intros Hk. unfold tower_at. apply list_eq. intros i. destruct (decide (i < h)%nat) as [Hi|Hi].
  - destruct (decide (i = k)) as [->|Hne].
    + rewrite list_lookup_insert_eq by by rewrite List.length_map, List.length_seq.
      rewrite list_lookup_fmap, lookup_seq_lt by done. simpl. by rewrite (proj2 (Nat.ltb_lt k (S k))) by lia.
    + rewrite list_lookup_insert_ne by done. rewrite !list_lookup_fmap, lookup_seq_lt by done. simpl. f_equal.
      destruct (Nat.ltb_spec i k), (Nat.ltb_spec i (S k)); done || lia.
  - rewrite !lookup_ge_None_2; [done| |]; rewrite ?length_insert, List.length_map, List.length_seq; lia.
Qed.

Lemma tower_at_lookup h k f g i : (i < h)%nat -> tower_at h k f g !! i = Some (if (i <? k)%nat then f i else g i).
Proof. intros Hi. unfold tower_at. by rewrite list_lookup_fmap, lookup_seq_lt by done. Qed.

Lemma tower_at_full h f g : tower_at h h f g = map f (seq 0 h).
Proof. apply map_ext_in. intros i Hi%in_seq. by rewrite (proj2 (Nat.ltb_lt i h)) by lia. Qed.

Lemma tower_at_none h f g : tower_at h 0 f g = map g (seq 0 h).
Proof. done. Qed.

Lemma length_tower_at h k f g : length (tower_at h k f g) = h.
Proof. unfold tower_at. by rewrite List.length_map, List.length_seq. Qed.

(** ** Linking in and out *)

(** Memories with the same data that differ at [xs] only, and in back pointers at
    [ys] only. *)
Record edits (xs ys : list positive) (m m' : mem) : Prop := {
  ed_data : m_data m' = m_data m;
  ed_prev : forall x, x ∉ ys -> nd_prev <$> m_nodes m' !! x = nd_prev <$> m_nodes m !! x;
  ed_nodes : forall x, x ∉ xs -> m_nodes m' !! x = m_nodes m !! x;
}.

Lemma edits_refl xs ys m : edits xs ys m m.
Proof. by split. Qed.

Lemma edits_trans xs ys m1 m2 m3 : edits xs ys m1 m2 -> edits xs ys m2 m3 -> edits xs ys m1 m3.
Proof. intros [D1 P1 N1] [D2 P2 N2]. split; [congruence|intros; by rewrite P2, P1|intros; by rewrite N2, N1]. Qed.

Lemma edits_mono xs xs' ys ys' m m' : edits xs ys m m' -> xs ⊆ xs' -> ys ⊆ ys' -> edits xs' ys' m m'.
Proof. intros [D P N] Hx Hy. split; [done|intros; apply P; set_solver|intros; apply N; set_solver]. Qed.

Lemma same_but_edits xs m m' : same_but xs m m' -> edits xs [] m m'.
Proof. intros [D P N]. by split. Qed.

Lemma pred_snoc hd j A e : pred hd j (A ++ [e]) = if (j <? e_height e)%nat then e_at e else pred hd j A.
Proof.
  unfold pred. rewrite filter_app. destruct (Nat.ltb_spec j (e_height e)) as [Hlt|Hge].
  - rewrite filter_cons_True, filter_nil by (unfold tall; by rewrite (proj2 (Nat.ltb_lt _ _) Hlt)). apply top_snoc.
  - rewrite filter_cons_False, filter_nil, app_nil_r; [done|]. unfold tall. rewrite (proj2 (Nat.ltb_ge _ _) Hge). by intros [].
Qed.

Section Levels.
  Variables (hd : positive) (A B : list ent) (e : ent) (prev : list link).
  Hypothesis Hnd : NoDup (addrs hd A).
  Hypothesis Hout : e_at e ∉ addrs hd A.
  Hypothesis HhA : Forall (fun e => e_height e <= kMaxHeight)%nat A.
  Hypothesis Hhe : (e_height e <= kMaxHeight)%nat.
  Hypothesis Hprev : forall j, (j < e_height e)%nat -> prev !! j = Some (To (pred hd j A)).

Definition own (m : mem) (pv : link) (next : list link) : Prop :=
  m_nodes m !! e_at e = Some {| nd_height := e_height e; nd_data := Some (e_data e); nd_prev := pv; nd_next := next |}.

Lemma prev_read j m : (j < e_height e)%nat -> (v ← lift (prev !! j); nonnull v) m = Some (pred hd j A, m).
Proof. intros Hj. unfold mbind, MM_bind, lift, mbind, option_bind. by rewrite (Hprev j Hj). Qed.

Lemma prev_pointer j m : (j < e_height e)%nat -> (v ← lift (prev !! j); pointer v) m = Some (Some (pred hd j A), m).
Proof. intros Hj. unfold mbind, MM_bind, lift, mbind, option_bind. by rewrite (Hprev j Hj). Qed.

(** The write to the tower of [e], and the one to the node before it. *)
Lemma own_SetNext m pv next k v T : own m pv next -> (k < length next)%nat -> Chain m hd A T ->
  exists m', SetNext (e_at e) k v m = Some (tt, m') /\ own m' pv (<[k := to_link v]> next) /\ Chain m' hd A T /\ same_but [e_at e] m m'.
Proof.
  intros Ho Hk HC. eexists. split; [apply (SetNext_eq m _ _ k v Ho); done|]. split; [unfold own; simpl; apply lookup_insert_eq|].
  assert (Hother : forall x, x <> e_at e -> (<[e_at e := {| nd_height := e_height e; nd_data := Some (e_data e); nd_prev := pv; nd_next := <[k := to_link v]> next |}]> (m_nodes m)) !! x = m_nodes m !! x) by (intros; by rewrite lookup_insert_ne).
  split; [apply (Chain_frame m _ hd A T HC); intros x Hx; apply Hother; congruence|]. split; [done| |].
  - intros x. simpl. destruct (decide (x = e_at e)) as [->|Hne]; [by rewrite lookup_insert_eq, Ho|]. by rewrite lookup_insert_ne.
  - intros x Hx. apply Hother. intros ->. apply Hx. left.
Qed.

Lemma own_relink m pv next k S T : own m pv next -> (k < kMaxHeight)%nat -> Chain m hd A T ->
  exists m', SetNext (pred hd k A) k (first_tall k S) m = Some (tt, m') /\ own m' pv next /\ Chain m' hd A (at_level T k S) /\ same_but (addrs hd A) m m'.
Proof.
  intros Ho Hk HC. destruct (Chain_relink m hd A T k S HC Hnd Hk) as (m' & Hset & HC' & Hs). exists m'. split; [done|].
  split; [|done]. unfold own. by rewrite (sb_nodes _ _ _ Hs (e_at e) Hout).
Qed.

Lemma both_but m1 m2 m3 : same_but [e_at e] m1 m2 -> same_but (addrs hd A) m2 m3 -> same_but (e_at e :: addrs hd A) m1 m3.
Proof.
  intros H1 H2. eapply same_but_trans; [apply (same_but_mono _ _ _ _ H1)|apply (same_but_mono _ _ _ _ H2)]; intros x Hx.
  - apply list_elem_of_singleton in Hx as ->. left.
  - by right.
Qed.

Lemma link_levels_spec n : forall k m pv, (k + n = e_height e)%nat -> Chain m hd A (stage k B (e :: B)) ->
  own m pv (tower_at (e_height e) k (fun i => to_link (first_tall i B)) (fun _ => Garbage)) ->
  exists m', link_levels (e_at e) prev (seq k n) m = Some (tt, m') /\ Chain m' hd A (fun _ => e :: B) /\
    own m' pv (links (e_height e) (fun _ => B)) /\ same_but (e_at e :: addrs hd A) m m'.
Proof.
  induction n as [|n IH]; intros k m pv Hk HC Ho; cbn [seq link_levels].
  { exists m. replace k with (e_height e) in * by lia. split; [done|]. split; [by apply Chain_linked|]. rewrite tower_at_full in Ho. auto with kv. }
  step (prev_read k m ltac:(lia)). assert (HCk := Chain_pred_next m hd A _ k HC ltac:(lia)). unfold stage in HCk at 1.
  rewrite Nat.ltb_irrefl in HCk. step HCk.
  destruct (own_SetNext m pv _ k (first_tall k B) (stage k B (e :: B)) Ho) as (m1 & Hs1 & Ho1 & HC1 & Hf1); [rewrite length_tower_at; lia|exact HC|].
  step Hs1. rewrite (tower_at_insert (e_height e) k (fun i => to_link (first_tall i B))) in Ho1 by lia.
  destruct (own_relink m1 pv _ k (e :: B) (stage k B (e :: B)) Ho1) as (m2 & Hs2 & Ho2 & HC2 & Hf2); [lia|exact HC1|].
  simpl in Hs2. unfold tall in Hs2. rewrite (proj2 (Nat.ltb_lt k (e_height e))) in Hs2 by lia. step Hs2.
  destruct (IH (S k) m2 pv) as (m3 & Hs3 & HC3 & Ho3 & Hf3); [lia|by apply Chain_stage|done|].
  exists m3. split; [done|]. split; [done|]. split; [done|]. eapply same_but_trans; [by eapply both_but|done].
Qed.

Lemma own_next m pv T i : own m pv (links (e_height e) T) -> (i < e_height e)%nat -> NodeNext (e_at e) i m = Some (first_tall i (T i), m).
Proof. intros Ho Hi. eapply NodeNext_eq; [exact Ho|]. by apply links_lookup. Qed.

Lemma unlink_levels_spec n : forall k m pv, (k + n = e_height e)%nat -> Chain m hd A (stage k (e :: B) B) ->
  own m pv (links (e_height e) (fun _ => B)) ->
  exists m', unlink_levels (e_at e) prev (seq k n) m = Some (tt, m') /\ Chain m' hd A (fun _ => B) /\
    own m' pv (links (e_height e) (fun _ => B)) /\ same_but (addrs hd A) m m'.
Proof.
  induction n as [|n IH]; intros k m pv Hk HC Ho; cbn [seq unlink_levels].
  { exists m. replace k with (e_height e) in * by lia. split; [done|]. split; [by eapply Chain_unlinked|]. auto with kv. }
  step (prev_read k m ltac:(lia)). step (own_next m pv _ k Ho ltac:(lia)).
  destruct (own_relink m pv _ k B _ Ho ltac:(lia) HC) as (m1 & Hs1 & Ho1 & HC1 & Hf1). step Hs1.
  destruct (IH (S k) m1 pv) as (m2 & Hs2 & HC2 & Ho2 & Hf2); [lia|by apply Chain_stage|done|].
  exists m2. split; [done|]. split; [done|]. split; [done|]. by eapply same_but_trans.
Qed.

(** [Remove(m_ctx)]: the tower of [e] is cleared on the way, and the node after it
    keeps its back pointer. *)
Lemma remove_levels_spec n : forall k m pv, (k + n = e_height e)%nat -> Chain m hd A (stage k (e :: B) B) ->
  own m pv (tower_at (e_height e) k (fun _ => Null) (fun i => to_link (first_tall i B))) ->
  exists m', remove_levels (e_at e) prev (seq k n) m = Some (tt, m') /\ Chain m' hd A (fun _ => B) /\
    own m' pv (replicate (e_height e) Null) /\ same_but (e_at e :: addrs hd A) m m'.
Proof.
  induction n as [|n IH]; intros k m pv Hk HC Ho; cbn [seq remove_levels].
  { exists m. replace k with (e_height e) in * by lia. split; [done|]. split; [by eapply Chain_unlinked|]. rewrite tower_at_full in Ho.
    replace (replicate (e_height e) Null) with (map (fun _ : nat => Null) (seq 0 (e_height e))); [auto with kv|].
    rewrite <- (List.length_seq (e_height e) 0) at 2. generalize (seq 0 (e_height e)). intros s. induction s; simpl; congruence. }
  step (prev_pointer k m ltac:(lia)).
  assert (Hn : NodeNext (e_at e) k m = Some (first_tall k B, m)).
  { eapply NodeNext_eq; [exact Ho|]. simpl. rewrite tower_at_lookup, Nat.ltb_irrefl by lia. done. }
  destruct (own_relink m pv _ k B _ Ho ltac:(lia) HC) as (m1 & Hs1 & Ho1 & HC1 & Hf1).
  assert (Hs1' : (n0 ← NodeNext (e_at e) k; SetNext (pred hd k A) k n0) m = Some (tt, m1)) by by step Hn.
  step Hs1'. destruct (own_SetNext m1 pv _ k None (at_level (stage k (e :: B) B) k B) Ho1) as (m2 & Hs2 & Ho2 & HC2 & Hf2); [rewrite length_tower_at; lia|exact HC1|].
  step Hs2. simpl to_link in Ho2. rewrite (tower_at_insert (e_height e) k (fun _ => Null)) in Ho2 by lia.
  assert (Hif : (if (k =? 0)%nat then n0 ← NodeNext (e_at e) k; match n0 with Some y => SetPrev y (Some (pred hd k A)) | None => mret tt end else mret tt) m2 = Some (tt, m2)).
  { destruct (Nat.eqb_spec k 0) as [->|]; [|done].
    assert (Hn2 : NodeNext (e_at e) 0 m2 = Some (None, m2)).
    { eapply NodeNext_eq; [exact Ho2|]. simpl. rewrite tower_at_lookup by lia. done. }
    by step Hn2. }
  step Hif. destruct (IH (S k) m2 pv) as (m3 & Hs3 & HC3 & Ho3 & Hf3); [lia|by apply Chain_stage|done|].
  exists m3. split; [done|]. split; [done|]. split; [done|]. eapply same_but_trans; [|done].
  eapply same_but_trans; [apply (same_but_mono _ _ _ _ Hf1); intros x Hx; by right|apply (same_but_mono _ _ _ _ Hf2)].
  intros x ->%list_elem_of_singleton. left.
Qed.

(** The back pointer of [e] itself. *)
Lemma own_SetPrev m pv next v T : own m pv next -> Chain m hd A T ->
  exists m', SetPrev (e_at e) v m = Some (tt, m') /\ own m' (to_link v) next /\ Chain m' hd A T /\ edits [e_at e] [e_at e] m m'.
Proof.
  intros Ho HC. eexists. split; [unfold SetPrev; by step (deref_eq m _ _ Ho)|]. split; [unfold own; simpl; apply lookup_insert_eq|].
  assert (Hother : forall x, x <> e_at e -> (<[e_at e := {| nd_height := e_height e; nd_data := Some (e_data e); nd_prev := to_link v; nd_next := next |}]> (m_nodes m)) !! x = m_nodes m !! x) by (intros; by rewrite lookup_insert_ne).
  split; [apply (Chain_frame m _ hd A T HC); intros x Hx; apply Hother; congruence|].
  split; [done| |]; intros x Hx; simpl; rewrite Hother; done || (intros ->; apply Hx; left).
Qed.

(** [Append]: the tower of [e] is empty and becomes the end of every level it reaches. *)
Lemma append_levels_spec n : forall k m pv target, (k + n = e_height e)%nat -> Chain m hd A (stage k [] [e]) ->
  own m pv (replicate (e_height e) Null) ->
  (forall j, (j < kMaxHeight)%nat -> target !! j = Some (To (if (j <? k)%nat then e_at e else pred hd j A))) ->
  exists m' target', append_levels (e_at e) target (seq k n) m = Some (target', m') /\ Chain m' hd A (fun _ => [e]) /\
    own m' (if (k =? 0)%nat && (0 <? n)%nat then To (pred hd 0 A) else pv) (replicate (e_height e) Null) /\
    (forall j, (j < kMaxHeight)%nat -> target' !! j = Some (To (pred hd j (A ++ [e])))) /\ edits (e_at e :: addrs hd A) [e_at e] m m'.
Proof.
  clear Hprev.
  induction n as [|n IH]; intros k m pv target Hk HC Ho Ht; cbn [seq append_levels].
  { exists m, target. replace k with (e_height e) in * by lia. rewrite andb_false_r. split; [done|]. split; [by apply Chain_linked|].
    split; [done|]. split; [|apply edits_refl]. intros j Hj. rewrite (Ht j Hj), pred_snoc. done. }
  assert (Hp : (v ← lift (target !! k); pointer v) m = Some (Some (pred hd k A), m)).
  { unfold mbind, MM_bind, lift, mbind, option_bind. by rewrite (Ht k ltac:(lia)), Nat.ltb_irrefl. }
  step Hp. destruct (own_relink m pv _ k [e] (stage k [] [e]) Ho ltac:(lia) HC) as (m1 & Hs1 & Ho1 & HC1 & Hf1).
  simpl in Hs1. unfold tall in Hs1. rewrite (proj2 (Nat.ltb_lt k (e_height e))) in Hs1 by lia. step Hs1.
  destruct (own_SetNext m1 pv _ k None (at_level (stage k [] [e]) k [e]) Ho1) as (m2 & Hs2 & Ho2 & HC2 & Hf2); [rewrite length_replicate; lia|exact HC1|].
  step Hs2. simpl to_link in Ho2. rewrite insert_replicate in Ho2.
  assert (Hsp : exists m3, (if (k =? 0)%nat then SetPrev (e_at e) (Some (pred hd k A)) else mret tt) m2 = Some (tt, m3) /\
    own m3 (if (k =? 0)%nat then To (pred hd 0 A) else pv) (replicate (e_height e) Null) /\
    Chain m3 hd A (at_level (stage k [] [e]) k [e]) /\ edits [e_at e] [e_at e] m2 m3).
  { destruct (Nat.eqb_spec k 0) as [->|]; [|exists m2; auto using edits_refl]. by apply (own_SetPrev m2 pv). }
  destruct Hsp as (m3 & Hs3 & Ho3 & HC3 & Hf3). step Hs3.
  destruct (IH (S k) m3 _ (<[k := To (e_at e)]> target) ltac:(lia) (Chain_stage _ _ _ _ _ _ HhA HC3) Ho3) as (m4 & t4 & Hs4 & HC4 & Ho4 & Ht4 & Hf4).
  { intros j Hj. destruct (decide (j = k)) as [->|Hne].
    - rewrite list_lookup_insert_eq by (apply lookup_lt_Some with (1 := Ht k Hj)). by rewrite (proj2 (Nat.ltb_lt k (S k))) by lia.
    - rewrite list_lookup_insert_ne, (Ht j Hj) by done. destruct (Nat.ltb_spec j k), (Nat.ltb_spec j (S k)); done || lia. }
  exists m4, t4. split; [done|]. split; [done|]. split; [by rewrite andb_true_r|]. split; [done|].
  eapply edits_trans; [|exact Hf4]. eapply edits_trans; [|apply (edits_mono _ _ _ _ _ _ Hf3); set_solver].
  eapply edits_trans; [apply (edits_mono _ _ _ _ _ _ (same_but_edits _ _ _ Hf1))|apply (edits_mono _ _ _ _ _ _ (same_but_edits _ _ _ Hf2))]; set_solver.
Qed.
End Levels.

(** ** Whole lists *)

Lemma Chain_ext m hd A T T' : (forall i, first_tall i (T i) = first_tall i (T' i)) -> Chain m hd A T -> Chain m hd A T'.
Proof.
  intros Heq [Hh HS]. split; [apply (head_is_mono m m _ _ _ Hh); [done|]|apply (Seg_mono m m _ _ _ HS); [done|auto]].
  intros i _. by rewrite !first_tall_app, Heq.
Qed.

Lemma Chain_glue m hd A R : Chain m hd (A ++ R) closed <-> Chain m hd A (fun _ => R) /\ Seg m R closed.
Proof.
  rewrite Chain_app. split; intros [HC HS]; (split; [|done]); refine (Chain_ext _ _ _ _ _ _ HC); intros i; unfold closed; by rewrite app_nil_r.
Qed.

Lemma Seg_cons m e B pv : m_nodes m !! e_at e = Some {| nd_height := e_height e; nd_data := Some (e_data e); nd_prev := pv; nd_next := links (e_height e) (fun _ => B) |} ->
  Seg m B closed -> Seg m (e :: B) closed.
Proof.
  intros Ho HS. split; [|done]. exists pv. rewrite Ho. do 2 f_equal. apply links_ext. intros i _. unfold closed. by rewrite app_nil_r.
Qed.

Lemma Seg_head m e B : Seg m (e :: B) closed -> exists pv, m_nodes m !! e_at e =
  Some {| nd_height := e_height e; nd_data := Some (e_data e); nd_prev := pv; nd_next := links (e_height e) (fun _ => B) |}.
Proof.
  intros [[pv Hp] _]. exists pv. rewrite Hp. do 2 f_equal. apply links_ext. intros i _. unfold closed. by rewrite app_nil_r.
Qed.

Lemma replicate_seq {X} (v : X) h : replicate h v = map (fun _ => v) (seq 0 h).
Proof. rewrite <- (List.length_seq h 0) at 1. generalize (seq 0 h). intros s. induction s; simpl; congruence. Qed.

(** Everything of the nodes but the back pointers. *)
Definition body (n : Node) : nat * option positive * list link := (nd_height n, nd_data n, nd_next n).
Definition same_towers (m m' : mem) : Prop := forall x, body <$> m_nodes m' !! x = body <$> m_nodes m !! x.

Lemma node_is_towers m m' e T : same_towers m m' -> node_is m e T -> node_is m' e T.
Proof.
  intros Hs [pv Hp]. specialize (Hs (e_at e)). rewrite Hp in Hs. destruct (m_nodes m' !! e_at e) as [nd|] eqn:Hx; [|done].
  injection Hs as E1 E2 E3. exists (nd_prev nd). rewrite Hx. destruct nd. simpl in *. by subst.
Qed.

Lemma Seg_towers m m' A T : same_towers m m' -> Seg m A T -> Seg m' A T.
Proof. intros Hs. induction A as [|e A IH]; [done|]. intros [Hn HS]. split; [by apply (node_is_towers m)|auto]. Qed.

Lemma Chain_towers m m' hd A T : same_towers m m' -> m_nodes m' !! hd = m_nodes m !! hd -> Chain m hd A T -> Chain m' hd A T.
Proof. intros Hs Hh [H1 H2]. split; [unfold head_is in *; by rewrite Hh|by apply (Seg_towers m)]. Qed.

Lemma SetPrev_spec m e T v : node_is m e T -> exists m', SetPrev (e_at e) v m = Some (tt, m') /\ same_towers m m' /\
  edits [e_at e] [e_at e] m m' /\ nd_prev <$> m_nodes m' !! e_at e = Some (to_link v).
Proof.
  intros [pv Hp]. eexists. split; [unfold SetPrev; by step (deref_eq m _ _ Hp)|]. split; [|split].
  - intros x. simpl. destruct (decide (x = e_at e)) as [->|Hne]; [by rewrite lookup_insert_eq, Hp|by rewrite lookup_insert_ne].
  - split; [done| |]; intros x Hx; simpl; rewrite lookup_insert_ne; done || (intros <-; apply Hx; left).
  - simpl. by rewrite lookup_insert_eq.
Qed.

Lemma same_towers_trans m1 m2 m3 : same_towers m1 m2 -> same_towers m2 m3 -> same_towers m1 m3.
Proof. intros H1 H2 x. by rewrite H2, H1. Qed.

(** The back pointers when only the first one changes. *)
Lemma Back_head m m' p q B : Back m p B -> (forall x, x ∈ map e_at (tail B) -> nd_prev <$> m_nodes m' !! x = nd_prev <$> m_nodes m !! x) ->
  (forall e, head B = Some e -> nd_prev <$> m_nodes m' !! e_at e = Some (To q)) -> Back m' q B.
Proof.
  destruct B as [|e B]; [done|]. intros [_ HB] Ht Hh. split; [by apply Hh|]. by apply (Back_frame m m').
Qed.

(** [x->Next(0)->SetPrev(v)], if there is such a node. *)
Lemma set_next_prev m B v : Seg m B closed ->
  exists m', match e_at <$> head B with Some y => SetPrev y (Some v) | None => mret tt end m = Some (tt, m') /\ same_towers m m' /\
    edits (e_at <$> option_list (head B)) (e_at <$> option_list (head B)) m m' /\
    forall e, head B = Some e -> nd_prev <$> m_nodes m' !! e_at e = Some (To v).
Proof.
  destruct B as [|e B]; intros HS.
  - exists m. split; [done|]. split; [done|]. split; [apply edits_refl|]. done.
  - destruct HS as [Hn _]. destruct (SetPrev_spec m e _ (Some v) Hn) as (m' & Hs & Ht & He & Hp). exists m'.
    split; [done|]. split; [done|]. split; [done|]. by intros ? [= <-].
Qed.

(** ** Heights *)

Lemma height_loop_range n : forall h seed, (h <= fst (height_loop n h seed) <= h + n)%nat.
Proof.
  induction n as [|n IH]; intros h seed; cbn [height_loop fst]; [lia|]. destruct (Random.Next seed mod 4 =? 0); [|simpl; lia].
  specialize (IH (S h) (Random.Next seed)). lia.
Qed.

Lemma RandomHeight_range seed : (1 <= fst (RandomHeight seed) <= kMaxHeight)%nat.
Proof. pose proof (height_loop_range (kMaxHeight - 1) 1 seed) as Hr. unfold RandomHeight. unfold kMaxHeight in *. lia. Qed.

Lemma length_set_range prev from n v : length (set_range prev from n v) = length prev.
Proof.
  unfold set_range. revert prev from. induction n as [|n IH]; intros prev from; [done|]. simpl. by rewrite IH, length_insert.
Qed.

Lemma set_range_lookup prev from n v j : (j < length prev)%nat ->
  set_range prev from n v !! j = if decide (from <= j < from + n)%nat then Some v else prev !! j.
Proof.
  unfold set_range. revert prev from. induction n as [|n IH]; intros prev from Hj; simpl; [by rewrite decide_False by lia|].
  rewrite IH by by rewrite length_insert. destruct (decide (j = from)) as [->|Hne].
  - rewrite decide_False, decide_True, list_lookup_insert_eq by (done || lia). done.
  - rewrite list_lookup_insert_ne by done. destruct (decide (S from <= j < S from + n)%nat), (decide (from <= j < from + S n)%nat); done || lia.
Qed.

Lemma pred_high hd A h j : Forall (fun e => 1 <= e_height e <= h)%nat A -> (h <= j)%nat -> pred hd j A = hd.
Proof.
  intros HA Hj. rewrite <- (app_nil_l A). rewrite pred_app_none; [done|]. eapply Forall_impl; [exact HA|]. simpl. intros e He.
  unfold tall. apply Nat.ltb_ge. lia.
Qed.
