(* ===== verification/SkipListMap.v ===== *)
(** * The skip list is a sorted map

    [Insert], [Remove], the constructor and the destructor on whole lists, and the
    theorem that a skip list answers every sequence of operations as a sorted list
    of pairs does, without an invalid access and without a leak. *)

From Stdlib Require Import ZArith Lia Bool Sorted.
From stdpp Require Import base gmap list fin_maps.
From S2P Require Import Prelude Slices Random SkipList2 SkipListInv SkipListOps SkipListEdit.

Section Operations.
  Context `{Malloc}.
  Variable compare_ : list Z -> list Z -> Z.
  Context `{!KeyOrder compare_}.
  Local Abbreviation Rep := (Rep compare_).
  Local Abbreviation lower := (lower compare_).
  Local Abbreviation upper := (upper compare_).

(** ** Insertion *)

(** [prev] after the search and the loop that extends it. *)
Definition insert_prev (l : SkipList2) (A : list ent) (height : nat) : list link :=
  let prev := fill (head_ l) A (max_height_ l - 1) (replicate kMaxHeight Garbage) in
  if (max_height_ l <? height)%nat then set_range prev (max_height_ l) (height - max_height_ l) (To (head_ l)) else prev.

Lemma insert_prev_ok m l A B height j : Rep m l (A ++ B) -> (height <= kMaxHeight)%nat -> (j < height)%nat ->
  insert_prev l A height !! j = Some (To (pred (head_ l) j A)).
Proof.
  intros HR Hh Hj. pose proof (rp_max _ _ _ _ HR) as Hm. unfold insert_prev.
  set (a := fill _ _ _ _). assert (Hl : length a = kMaxHeight) by (unfold a, fill; by rewrite length_imap, length_replicate).
  assert (Hlow : (j < max_height_ l)%nat -> a !! j = Some (To (pred (head_ l) j A))).
  { intros Hjm. apply fill_lookup; [lia|rewrite length_replicate; lia]. }
  destruct (Nat.ltb_spec (max_height_ l) height); [|apply Hlow; lia].
  rewrite set_range_lookup by lia. destruct (decide (max_height_ l <= j < max_height_ l + (height - max_height_ l))%nat); [|apply Hlow; lia].
  pose proof (rp_heights _ _ _ _ HR) as [HA _]%Forall_app. by rewrite (pred_high _ A (max_height_ l)) by (done || lia).
Qed.

Definition insert_list (l : SkipList2) (height : nat) (seed : Z) : SkipList2 :=
  {| head_ := head_ l; max_height_ := max (max_height_ l) height; count_ := u64 (count_ l + 1); rnd_ := seed |}.

(** The entries of other data are not concerned by a write to the data of [d]. *)
Lemma Datas_insert m m' A d s : Datas m A -> (forall e, e ∈ A -> e_data e <> d) -> m_data m' = <[d := s]> (m_data m) -> Datas m' A.
Proof.
  intros HD Hne Hm. unfold Datas in *. rewrite Forall_forall in *. intros e He. rewrite Hm, lookup_insert_ne by (intros E; by apply (Hne e)).
  by apply HD.
Qed.

Lemma sorted_insert A B e : StronglySorted (fun a b => compare_ (e_key a) (e_key b) < 0) (A ++ B) -> Forall (lower (e_key e)) A ->
  Forall (fun b => compare_ (e_key e) (e_key b) < 0) B -> StronglySorted (fun a b => compare_ (e_key a) (e_key b) < 0) (A ++ e :: B).
Proof.
  intros HS HA HB. induction A as [|a A IH]; simpl in *.
  - constructor; [done|]. by apply List.Forall_forall; rewrite List.Forall_forall in HB.
  - apply StronglySorted_inv in HS as [HS Ha]. apply Forall_cons in HA as [Hae HA]. constructor; [by apply IH|].
    rewrite List.Forall_forall in *. intros x [Hx|[<-|Hx]]%in_app_or; [apply Ha, in_or_app; by left|done|apply Ha, in_or_app; by right].
Qed.

(** Allocating the node and linking it into the towers. *)
Lemma insert_node m hd A B d height prev : Chain m hd (A ++ B) closed -> NoDup (addrs hd (A ++ B)) ->
  Forall (fun e => e_height e <= kMaxHeight)%nat A -> (1 <= height <= kMaxHeight)%nat ->
  (forall j, (j < height)%nat -> prev !! j = Some (To (pred hd j A))) -> forall key,
  let x := malloc (m_nodes m) in let e := {| e_at := x; e_height := height; e_data := d; e_key := key |} in
  exists m1 m2, NewNode (Some d) height m = Some (x, m1) /\ link_levels x prev (seq 0 height) m1 = Some (tt, m2) /\
    Chain m2 hd (A ++ e :: B) closed /\ NoDup (addrs hd (A ++ e :: B)) /\ m_data m2 = m_data m /\
    (forall y, y <> x -> nd_prev <$> m_nodes m2 !! y = nd_prev <$> m_nodes m !! y) /\
    (forall y, y ∉ x :: addrs hd A -> m_nodes m2 !! y = m_nodes m !! y).
Proof.
  intros HC Hnd HhA Hh Hprev key x e.
  assert (Hfresh : m_nodes m !! x = None) by apply malloc_fresh.
  assert (Hx : x ∉ addrs hd (A ++ B)) by (intros Hin; destruct (Chain_alloc m hd _ _ x HC Hin) as [? E]; congruence).
  apply Chain_glue in HC as [HCA HSB]. rewrite addrs_app in Hnd, Hx. apply NoDup_app in Hnd as (HndA & Hdis & HndB).
  set (m1 := m <| m_nodes ::= <[x := {| nd_height := height; nd_data := Some d; nd_prev := Garbage; nd_next := replicate height Garbage |}]> |>).
  assert (Hm1 : forall y, y <> x -> m_nodes m1 !! y = m_nodes m !! y) by (intros y Hy; simpl; by rewrite lookup_insert_ne).
  destruct (link_levels_spec hd A B e prev HndA ltac:(set_solver) HhA (proj2 Hh) Hprev height 0 m1 Garbage eq_refl) as (m2 & Hl & HC2 & Ho2 & Hf2).
  - apply Chain_start; [done|]. apply (Chain_frame m); [done|]. intros y Hy. apply Hm1. set_solver.
  - unfold own. simpl. by rewrite lookup_insert_eq, replicate_seq, tower_at_none.
  - exists m1, m2. split; [done|]. split; [exact Hl|]. split; [|split; [|split; [|split]]].
    + apply Chain_glue. split; [done|]. apply (Seg_cons m2 e B Garbage); [exact Ho2|]. apply (Seg_mono m _ _ _ _ HSB); [|done].
      intros y Hy. rewrite (sb_nodes _ _ _ Hf2) by set_solver. apply Hm1. set_solver.
    + rewrite addrs_app. apply NoDup_app. split; [done|]. split; [|constructor; [set_solver|done]].
      intros y Hy. simpl. rewrite elem_of_cons. intros [->|Hy2]; set_solver.
    + by rewrite (sb_data _ _ _ Hf2).
    + intros y Hy. by rewrite (sb_prev _ _ _ Hf2), Hm1.
    + intros y Hy. rewrite (sb_nodes _ _ _ Hf2) by done. apply Hm1. set_solver.
Qed.

Lemma not_in_one (y x : positive) : y <> x -> y ∉ [x].
Proof. intros Hne ->%list_elem_of_singleton. done. Qed.

(** The back pointers of the new node and of the one after it. *)
Lemma insert_back m m0 hd A e B : Chain m hd (A ++ e :: B) closed -> NoDup (addrs hd (A ++ e :: B)) -> Back m0 hd (A ++ B) ->
  Forall (fun e => 1 <= e_height e)%nat (A ++ e :: B) ->
  (forall y, y <> e_at e -> nd_prev <$> m_nodes m !! y = nd_prev <$> m_nodes m0 !! y) ->
  exists m1 m2, SetPrev (e_at e) (Some (top hd A)) m = Some (tt, m1) /\ NodeNext (e_at e) 0 m1 = Some (e_at <$> head B, m1) /\
    match e_at <$> head B with Some y => SetPrev y (Some (e_at e)) | None => mret tt end m1 = Some (tt, m2) /\
    Chain m2 hd (A ++ e :: B) closed /\ Back m2 hd (A ++ e :: B) /\ m_data m2 = m_data m /\
    (forall y, y ∉ addrs hd (A ++ e :: B) -> m_nodes m2 !! y = m_nodes m !! y).
Proof.
  intros HC Hnd HB0 Hh Hpv. pose proof HC as [HCA [Hn HSB]]%Chain_app.
  apply Forall_app in Hh as [_ [He HhB]%Forall_cons].
  rewrite addrs_app in Hnd. apply NoDup_app in Hnd as (HndA & Hdis & [Hex HndB]%NoDup_cons).
  assert (Hhd : hd <> e_at e) by (intros ->; apply (Hdis (e_at e)); left).
  destruct (SetPrev_spec m e _ (Some (top hd A)) Hn) as (m1 & Hs1 & Ht1 & He1 & Hp1).
  assert (HC1 : Chain m1 hd (A ++ e :: B) closed).
  { apply (Chain_towers m); [done| |done]. apply (ed_nodes _ _ _ _ He1). set_solver. }
  assert (HSB1 : Seg m1 B closed) by (apply Chain_app in HC1 as [_ [_ HSB1]]; done).
  assert (Hnx : NodeNext (e_at e) 0 m1 = Some (e_at <$> head B, m1)).
  { replace (A ++ e :: B) with ((A ++ [e]) ++ B) in HC1 by by rewrite <- app_assoc.
    pose proof (Chain_next m1 hd (A ++ [e]) B closed 0 HC1 ltac:(rewrite tower_snoc; lia)) as Hx.
    unfold closed in Hx. by rewrite top_snoc, app_nil_r, first_tall_0 in Hx. }
  destruct (set_next_prev m1 B (e_at e) HSB1) as (m2 & Hs2 & Ht2 & He2 & Hp2).
  exists m1, m2. split; [done|]. split; [done|]. split; [done|].
  assert (Hhead : forall y, y ∈ e_at <$> option_list (head B) -> y ∈ map e_at B) by (destruct B; set_solver).
  assert (Htail : forall y, y ∈ map e_at (tail B) -> y ∉ e_at <$> option_list (head B)).
  { destruct B as [|b B']; [set_solver|]. apply NoDup_cons in HndB as [Hb _]. set_solver. }
  split; [|split; [|split]].
  - apply (Chain_towers m1); [done| |done]. apply (ed_nodes _ _ _ _ He2). intros Hin%Hhead. apply (Hdis hd); [left|by right].
  - apply Back_app in HB0 as [HBA HBB]. apply Back_app. split; [|split].
    + apply (Back_frame m0); [done|]. intros y Hy. assert (y ∈ addrs hd A) by by right.
      assert (Hy1 : y <> e_at e) by (intros ->; apply (Hdis (e_at e)); [done|left]).
      rewrite (ed_prev _ _ _ _ He2 y), (ed_prev _ _ _ _ He1 y (not_in_one _ _ Hy1)), Hpv; [done|done|].
      intros Hin%Hhead. apply (Hdis y); [done|by right].
    + rewrite (ed_prev _ _ _ _ He2); [done|]. intros Hin%Hhead. done.
    + apply (Back_head m0 m2 (top hd A)); [done| |done]. intros y Hy.
      assert (HyB : y ∈ map e_at B) by (destruct B; [done|by right]).
      assert (Hy1 : y <> e_at e) by (intros ->; done).
      by rewrite (ed_prev _ _ _ _ He2 y (Htail y Hy)), (ed_prev _ _ _ _ He1 y (not_in_one _ _ Hy1)), Hpv.
  - by rewrite (ed_data _ _ _ _ He2), (ed_data _ _ _ _ He1).
  - intros y Hy. rewrite addrs_app, not_elem_of_app in Hy. destruct Hy as [_ [Hy1 Hy2]%not_elem_of_cons].
    rewrite (ed_nodes _ _ _ _ He2 y), (ed_nodes _ _ _ _ He1 y (not_in_one _ _ Hy1)); [done|]. by intros Hin%Hhead.
Qed.

(** An object whose key has no entry is in no entry. *)
Lemma outside_data m l A B d s : Rep m l (A ++ B) -> m_data m !! d = Some s -> Forall (lower (sd_key s)) A ->
  Forall (fun b => compare_ (sd_key s) (e_key b) < 0) B -> forall e, e ∈ A ++ B -> e_data e <> d.
Proof.
  intros HR Hd HA HB e He E. pose proof (Datas_elem m _ e (rp_datas _ _ _ _ HR) He) as Hd0. rewrite E, Hd in Hd0. injection Hd0 as ->.
  simpl in *. rewrite Forall_forall in HA, HB. pose proof (compare_refl compare_ (e_key e)) as Hz. apply elem_of_app in He as [He|He].
  - specialize (HA e He). unfold lower in HA. lia.
  - specialize (HB e He). simpl in HB. lia.
Qed.

Lemma Rep_insert m m' l A B e s seed : Rep m l (A ++ B) -> Chain m' (head_ l) (A ++ e :: B) closed -> NoDup (addrs (head_ l) (A ++ e :: B)) ->
  Forall (lower (e_key e)) A -> Forall (fun b => compare_ (e_key e) (e_key b) < 0) B -> m_data m !! e_data e = Some s -> sd_key s = e_key e ->
  m_data m' = <[e_data e := {| sd_key := e_key e; sd_node := Some (e_at e) |}]> (m_data m) -> (1 <= e_height e <= kMaxHeight)%nat ->
  Rep m' (insert_list l (e_height e) seed) (A ++ e :: B).
Proof.
  intros HR HC Hnd HA HB Hd Hk Hm' Hh. pose proof (rp_max _ _ _ _ HR). pose proof (rp_heights _ _ _ _ HR) as [HhA HhB]%Forall_app.
  rewrite <- Hk in HA, HB. pose proof (outside_data m l A B (e_data e) s HR Hd HA HB) as Hne. rewrite Hk in HA, HB.
  split; simpl; [done| |done| |lia| |].
  - assert (HD : Datas m' (A ++ B)) by (eapply (Datas_insert m); [apply HR|exact Hne|done]).
    unfold Datas in *. apply Forall_app in HD as [HDA HDB]. apply Forall_app. split; [done|]. constructor; [|done]. by rewrite Hm', lookup_insert_eq.
  - apply Forall_app. split; [|constructor; [lia|]]; (eapply Forall_impl; [eassumption|simpl; lia]).
  - by apply sorted_insert; [apply HR|..].
  - rewrite (rp_count _ _ _ _ HR), !length_app. simpl. unfold u64, wrap. rewrite Z.add_mod_idemp_l by lia. f_equal. lia.
Qed.

(** The search of [Insert] and the test for a duplicate. *)
Lemma insert_search m l A B key d : Rep m l (A ++ B) -> Forall (lower key) A -> Forall (fun b => compare_ key (e_key b) < 0) B ->
  forall r, let '(height, seed) := RandomHeight (rnd_ l) in
  let prev := insert_prev l A height in
  (x ← NewNode (Some d) height;
   _ ← link_levels x prev (seq 0 height);
   p0 ← (v ← lift (prev !! 0%nat); pointer v);
   _ ← SetPrev x p0;
   n0 ← NodeNext x 0;
   _ ← match n0 with Some y => SetPrev y (Some x) | None => mret tt end;
   _ ← SetNode d (Some x);
   mret (true, insert_list l height seed)) m = r -> Insert compare_ l key d m = r.
Proof.
  intros HR HA HB r. destruct (RandomHeight (rnd_ l)) as [height seed] eqn:Hrh. intros prev <-.
  assert (HBu : Forall (upper key) B).
  { eapply Forall_impl; [exact HB|]. unfold upper. simpl. intros b Hb. destruct (ko_sym key (e_key b)). lia. }
  unfold Insert. step (FindGreaterOrEqual_spec compare_ m l A B key HR HA HBu (Some (replicate kMaxHeight Garbage))).
  cbn [default fmap option_fmap option_map].
  assert (Hdup : match e_at <$> head B with Some x => k ← GetKey x; mret (Equal compare_ key k) | None => mret false end m = Some (false, m)).
  { destruct B as [|b B']; [done|]. simpl. step (key_eq compare_ m l (A ++ b :: B') HR b ltac:(set_solver)). apply Forall_cons in HB as [Hb _].
    unfold Equal. by rewrite (proj2 (Z.eqb_neq _ _)) by lia. }
  step Hdup. rewrite Hrh.
  match goal with |- context [if ?b then ?p else ?q] =>
    replace (if b then p else q) with (prev, {| head_ := head_ l; max_height_ := max (max_height_ l) height; count_ := count_ l; rnd_ := seed |})
  end; [done|]. unfold prev, insert_prev, upd. simpl. destruct (Nat.ltb_spec (max_height_ l) height); (f_equal; f_equal; lia).
Qed.

Lemma Insert_new m l A B key d s : Rep m l (A ++ B) -> Back m (head_ l) (A ++ B) -> Forall (lower key) A ->
  Forall (fun b => compare_ key (e_key b) < 0) B -> m_data m !! d = Some s -> sd_key s = key ->
  exists l' e m', Insert compare_ l key d m = Some ((true, l'), m') /\ Rep m' l' (A ++ e :: B) /\ Back m' (head_ l) (A ++ e :: B) /\
    head_ l' = head_ l /\ e_key e = key /\ e_data e = d /\
    m_data m' = <[d := {| sd_key := key; sd_node := Some (e_at e) |}]> (m_data m) /\ m_nodes m !! e_at e = None /\
    forall x, x ∉ addrs (head_ l) (A ++ e :: B) -> m_nodes m' !! x = m_nodes m !! x.
Proof.
  intros HR HBk HA HB Hd Hkey. pose proof (insert_search m l A B key d HR HA HB) as Hcode.
  pose proof (rp_max _ _ _ _ HR) as Hmax. pose proof (rp_heights _ _ _ _ HR) as [HhA HhB]%Forall_app.
  pose proof (RandomHeight_range (rnd_ l)) as Hh. destruct (RandomHeight (rnd_ l)) as [height seed]. simpl in Hh.
  pose proof (fun j Hj => insert_prev_ok m l A B height j HR (proj2 Hh) Hj) as Hprev.
  destruct (insert_node m (head_ l) A B d height (insert_prev l A height) (rp_chain _ _ _ _ HR) (rp_nodup _ _ _ _ HR)
    (heights_max _ _ (proj2 Hmax) HhA) Hh Hprev key) as (m1 & m2 & Hnew & Hlink & HC2 & Hnd2 & Hd2 & Hp2 & Hf2).
  set (x := malloc (m_nodes m)) in *. set (e := {| e_at := x; e_height := height; e_data := d; e_key := key |}) in *.
  assert (Hpos : Forall (fun e => 1 <= e_height e)%nat (A ++ e :: B)).
  { apply Forall_app. split; [by apply (heights_pos (max_height_ l))|constructor; [simpl; lia|by apply (heights_pos (max_height_ l))]]. }
  destruct (insert_back m2 m (head_ l) A e B HC2 Hnd2 HBk Hpos Hp2) as (m3 & m4 & Hsp & Hnx & Hsn & HC4 & HB4 & Hd4 & Hf4).
  set (m5 := m4 <| m_data ::= <[d := {| sd_key := key; sd_node := Some x |}]> |>).
  exists (insert_list l height seed), e, m5.
  split; [|split; [|split; [by apply (Back_frame m4)|]]].
  - apply Hcode. step Hnew. step Hlink.
    assert (Hp0 : (v ← lift (insert_prev l A height !! 0%nat); pointer v) m2 = Some (Some (top (head_ l) A), m2)).
    { unfold mbind, MM_bind, lift, mbind, option_bind. rewrite Hprev by lia. by rewrite pred_0 by (by apply (heights_pos (max_height_ l))). }
    step Hp0. step Hsp. step Hnx. step Hsn.
    assert (Hsd : SetNode d (Some x) m4 = Some (tt, m5)).
    { unfold SetNode, mbind, option_bind. rewrite Hd4, Hd2, Hd. destruct s. simpl in Hkey. by subst. }
    by step Hsd.
  - apply (Rep_insert m m5 l A B e s seed); try done; [by apply (Chain_frame m4)|simpl; by rewrite Hd4, Hd2].
  - do 3 (split; [done|]). split; [simpl; by rewrite Hd4, Hd2|]. split; [apply malloc_fresh|].
    intros y Hy. simpl. rewrite Hf4 by done. apply Hf2. rewrite addrs_app in Hy. set_solver.
Qed.

Lemma Insert_dup m l L key d : Rep m l L -> is_Some (s_find compare_ key (view L)) -> Insert compare_ l key d m = Some ((false, l), m).
Proof.
  intros HR Hf. destruct (split_at compare_ key L (rp_sorted _ _ _ _ HR)) as (A & B & -> & HA & HB).
  rewrite (s_find_split compare_ key A B (rp_sorted _ _ _ _ HR) HA HB) in Hf. destruct B as [|e B]; [by destruct Hf|]. simpl in Hf.
  unfold Insert. step (FindGreaterOrEqual_spec compare_ m l A (e :: B) key HR HA HB (Some (replicate kMaxHeight Garbage))).
  destruct (Equal compare_ key (e_key e)) eqn:Heq; [|by destruct Hf]. cbn [default fmap option_fmap option_map head].
  assert (Hdup : (k ← GetKey (e_at e); mret (Equal compare_ key k)) m = Some (true, m)).
  { step (key_eq compare_ m l (A ++ e :: B) HR e ltac:(set_solver)). by rewrite Heq. }
  by step Hdup.
Qed.

(** ** Removal *)

Lemma sorted_delete A B e : StronglySorted (fun a b => compare_ (e_key a) (e_key b) < 0) (A ++ e :: B) ->
  StronglySorted (fun a b => compare_ (e_key a) (e_key b) < 0) (A ++ B).
Proof.
  induction A as [|a A IH]; simpl; intros HS; apply StronglySorted_inv in HS as [HS Ha]; [done|]. constructor; [by apply IH|].
  rewrite List.Forall_forall in *. intros x [Hx|Hx]%in_app_or; apply Ha, in_or_app; [by left|right; by right].
Qed.

Lemma sorted_others A B e e' : StronglySorted (fun a b => compare_ (e_key a) (e_key b) < 0) (A ++ e :: B) -> e' ∈ A ++ B -> e_key e' <> e_key e.
Proof.
  intros (_ & HSB & HAB)%sorted_app_lt He' E. apply StronglySorted_inv in HSB as [_ HB]. pose proof (compare_refl compare_ (e_key e)) as Hz.
  apply elem_of_app in He' as [He'|He'].
  - specialize (HAB e' e He' ltac:(left)). rewrite E in HAB. lia.
  - rewrite List.Forall_forall in HB. specialize (HB e' (proj1 (list_elem_of_In _ _) He')). rewrite E in HB. lia.
Qed.

Definition remove_list (l : SkipList2) : SkipList2 := l <| count_ := u64 (count_ l - 1) |>.

Lemma Rep_delete m m' l A B e : Rep m l (A ++ e :: B) -> Chain m' (head_ l) (A ++ B) closed -> Datas m' (A ++ B) ->
  Rep m' (remove_list l) (A ++ B).
Proof.
  intros HR HC HD. split; simpl; [done|done| | |apply HR| |].
  - pose proof (rp_nodup _ _ _ _ HR) as Hnd. rewrite addrs_app in *. apply NoDup_app in Hnd as (H1 & H2 & [_ H3]%NoDup_cons).
    apply NoDup_app. split; [done|]. split; [|done]. intros x Hx Hin. apply (H2 x Hx). by right.
  - pose proof (rp_heights _ _ _ _ HR) as [H1 [_ H2]%Forall_cons]%Forall_app. apply Forall_app. done.
  - eapply sorted_delete. apply HR.
  - rewrite (rp_count _ _ _ _ HR), !length_app. simpl. unfold u64, wrap. rewrite Zminus_mod_idemp_l. f_equal. lia.
Qed.

(** The back pointer of the node after the removed one. *)
Lemma remove_back m hd A e B : Chain m hd (A ++ B) closed -> Back m hd (A ++ e :: B) -> NoDup (addrs hd (A ++ e :: B)) ->
  exists m', match e_at <$> head B with Some y => SetPrev y (Some (top hd A)) | None => mret tt end m = Some (tt, m') /\
    Chain m' hd (A ++ B) closed /\ Back m' hd (A ++ B) /\ m_data m' = m_data m /\
    (forall y, y ∉ map e_at B -> m_nodes m' !! y = m_nodes m !! y).
Proof.
  intros HC HBk Hnd. pose proof HC as [_ HSB]%Chain_app. rewrite addrs_app in Hnd. apply NoDup_app in Hnd as (HndA & Hdis & [Hex HndB]%NoDup_cons).
  destruct (set_next_prev m B (top hd A) HSB) as (m' & Hs & Ht & He & Hp). exists m'. split; [done|].
  assert (Hhead : forall y, y ∈ e_at <$> option_list (head B) -> y ∈ map e_at B) by (destruct B; set_solver).
  assert (Htail : forall y, y ∈ map e_at (tail B) -> y ∉ e_at <$> option_list (head B)).
  { destruct B as [|b B']; [set_solver|]. apply NoDup_cons in HndB as [Hb _]. set_solver. }
  split; [|split; [|split]].
  - apply (Chain_towers m); [done| |done]. apply (ed_nodes _ _ _ _ He). intros Hin%Hhead. apply (Hdis hd); [left|by right].
  - apply Back_app in HBk as [HBA [_ HBB]]. apply Back_app. split.
    + apply (Back_frame m); [done|]. intros y Hy. apply (ed_prev _ _ _ _ He). intros Hin%Hhead. apply (Hdis y); by right.
    + apply (Back_head m m' (e_at e)); [done| |done]. intros y Hy. apply (ed_prev _ _ _ _ He). by apply Htail.
  - apply He.
  - intros y Hy. apply (ed_nodes _ _ _ _ He). by intros Hin%Hhead.
Qed.

Lemma Remove_found m l A e B key : Rep m l (A ++ e :: B) -> Back m (head_ l) (A ++ e :: B) -> Forall (lower key) A ->
  Forall (upper key) (e :: B) -> Equal compare_ key (e_key e) = true ->
  exists m', Remove compare_ l key m = Some ((Some (e_data e), remove_list l), m') /\ Rep m' (remove_list l) (A ++ B) /\
    Back m' (head_ l) (A ++ B) /\ m_data m' = <[e_data e := {| sd_key := e_key e; sd_node := None |}]> (m_data m) /\
    m_nodes m' !! e_at e = None /\ forall x, x ∉ addrs (head_ l) (A ++ e :: B) -> m_nodes m' !! x = m_nodes m !! x.
Proof.
  intros HR HBk HA HB Heq. pose proof (rp_max _ _ _ _ HR) as Hmax. pose proof (rp_heights _ _ _ _ HR) as [HhA [Hhe HhB]%Forall_cons]%Forall_app.
  pose proof (rp_chain _ _ _ _ HR) as [HCA HSB]%Chain_glue. destruct (Seg_head m e B HSB) as [pv Ho]. destruct HSB as [Hn HSB].
  pose proof (rp_nodup _ _ _ _ HR) as Hnd. pose proof Hnd as Hnd'. rewrite addrs_app in Hnd'. apply NoDup_app in Hnd' as (HndA & Hdis & [Hex HndB]%NoDup_cons).
  set (prev := fill (head_ l) A (max_height_ l - 1) (replicate kMaxHeight Garbage)).
  assert (Hprev : forall j, (j < e_height e)%nat -> prev !! j = Some (To (pred (head_ l) j A))).
  { intros j Hj. apply fill_lookup; [lia|rewrite length_replicate; lia]. }
  assert (Hout : e_at e ∉ addrs (head_ l) A) by (intros Hin; apply (Hdis _ Hin); left).
  destruct (unlink_levels_spec (head_ l) A B e prev HndA Hout (heights_max _ _ (proj2 Hmax) HhA) ltac:(lia) Hprev (e_height e) 0 m pv eq_refl
    (Chain_start _ _ _ _ _ (heights_max _ _ (proj2 Hmax) HhA) HCA) Ho) as (m1 & Hs1 & HC1 & Ho1 & Hf1).
  assert (HCl : Chain m1 (head_ l) (A ++ B) closed).
  { apply Chain_glue. split; [done|]. apply (Seg_mono m _ _ _ _ HSB); [|done]. intros y Hy. apply (sb_nodes _ _ _ Hf1).
    intros Hin. apply (Hdis y Hin). by right. }
  assert (HBk1 : Back m1 (head_ l) (A ++ e :: B)) by (apply (Back_frame m); [done|]; intros; apply Hf1).
  destruct (remove_back m1 (head_ l) A e B HCl HBk1 Hnd) as (m2 & Hs2 & HC2 & HB2 & Hd2 & Hf2).
  pose proof (rp_datas _ _ _ _ HR) as HD. pose proof (Datas_elem m _ e HD ltac:(set_solver)) as Hd.
  assert (Ho2 : m_nodes m2 !! e_at e = m_nodes m1 !! e_at e) by by apply Hf2.
  set (m3 := m2 <| m_data ::= <[e_data e := {| sd_key := e_key e; sd_node := None |}]> |>).
  set (m4 := m3 <| m_nodes ::= delete (e_at e) |>). exists m4.
  assert (Hm4 : forall y, y <> e_at e -> m_nodes m4 !! y = m_nodes m2 !! y) by (intros y Hy; simpl; by rewrite lookup_delete_ne).
  assert (Hin4 : forall y, y ∈ addrs (head_ l) (A ++ B) -> y <> e_at e) by (intros y Hy ->; rewrite addrs_app in Hy; set_solver).
  split; [|split; [|split; [|split; [|split]]]].
  - unfold Remove. step (FindGreaterOrEqual_spec compare_ m l A (e :: B) key HR HA HB (Some (replicate kMaxHeight Garbage))).
    cbn [default fmap option_fmap option_map head]. fold prev. step (key_eq compare_ m l (A ++ e :: B) HR e ltac:(set_solver)). rewrite Heq.
    cbn [negb]. step (GetHeight_eq m e _ Hn). step Hs1. step (own_next e m1 pv _ 0 Ho1 ltac:(lia)).
    rewrite first_tall_0 by (by apply (heights_pos (max_height_ l))).
    assert (Hm : match e_at <$> head B with Some y => p0 ← (v ← lift (prev !! 0%nat); pointer v); SetPrev y p0 | None => mret tt end m1 = Some (tt, m2)).
    { pose proof (prev_pointer (head_ l) A e prev Hprev 0 m1 ltac:(lia)) as Hp0. rewrite pred_0 in Hp0 by (by apply (heights_pos (max_height_ l))).
      rewrite <- Hs2. destruct (head B) as [b|]; [|done]. cbn [fmap option_fmap option_map]. by step Hp0. }
    step Hm. assert (Hg : GetData (e_at e) m2 = Some (e_data e, m2)) by (unfold GetData; by step (deref_eq m2 _ _ ltac:(rewrite Ho2; exact Ho1))).
    step Hg. assert (Hsn : SetNode (e_data e) None m2 = Some (tt, m3)).
    { unfold SetNode, mbind, option_bind. by rewrite Hd2, (sb_data _ _ _ Hf1), Hd. }
    step Hsn. assert (Hfr : free (e_at e) m3 = Some (tt, m4)) by (unfold free, mbind, option_bind; simpl; by rewrite Ho2, Ho1).
    by step Hfr.
  - apply (Rep_delete m m4 l A B e HR).
    + apply (Chain_frame m2); [done|]. intros y Hy. auto.
    + assert (HDAB : Datas m (A ++ B)) by (unfold Datas in *; rewrite Forall_app, Forall_cons in HD; apply Forall_app; tauto).
      eapply (Datas_insert m); [done| |simpl; by rewrite Hd2, (sb_data _ _ _ Hf1)].
      intros e' He' E. pose proof (Datas_elem m _ e' HDAB He') as Hd'. rewrite E, Hd in Hd'. injection Hd' as Ek Ea.
      by apply (sorted_others A B e e' (rp_sorted _ _ _ _ HR) He').
  - apply (Back_frame m2); [done|]. intros y Hy. rewrite Hm4; [done|]. apply Hin4. by right.
  - simpl. by rewrite Hd2, (sb_data _ _ _ Hf1).
  - simpl. apply lookup_delete_eq.
  - intros y Hy. rewrite addrs_app in Hy. rewrite Hm4 by set_solver. rewrite Hf2 by set_solver. apply (sb_nodes _ _ _ Hf1). set_solver.
Qed.

Lemma Remove_absent m l L key : Rep m l L -> s_find compare_ key (view L) = None -> Remove compare_ l key m = Some ((None, l), m).
Proof.
  intros HR Hf. destruct (split_at compare_ key L (rp_sorted _ _ _ _ HR)) as (A & B & -> & HA & HB).
  rewrite (s_find_split compare_ key A B (rp_sorted _ _ _ _ HR) HA HB) in Hf.
  unfold Remove. step (FindGreaterOrEqual_spec compare_ m l A B key HR HA HB (Some (replicate kMaxHeight Garbage))).
  destruct B as [|e B]; [done|]. simpl in Hf. cbn [fmap option_fmap option_map head].
  step (key_eq compare_ m l (A ++ e :: B) HR e ltac:(set_solver)). by destruct (Equal compare_ key (e_key e)).
Qed.

(** ** Constructor and destructor *)

Lemma clear_next_spec x is_ : forall m nd, m_nodes m !! x = Some nd -> Forall (fun i => i < length (nd_next nd))%nat is_ ->
  clear_next x is_ m = Some (tt, match is_ with [] => m | _ => m <| m_nodes ::= <[x := nd <| nd_next ::= fun n => fold_left (fun n i => <[i := Null]> n) is_ n |>]> |> end).
Proof.
  induction is_ as [|i is_ IH]; intros m nd Hx Hi; [done|]. apply Forall_cons in Hi as [Hi His]. cbn [clear_next].
  step (SetNext_eq m x nd i None Hx Hi). set (nd1 := nd <| nd_next ::= <[i := Null]> |>).
  rewrite (IH _ nd1); [|simpl; apply lookup_insert_eq|].
  - destruct is_ as [|i' is_]; [done|]. f_equal. f_equal. unfold upd. simpl. f_equal. by rewrite insert_insert_eq.
  - eapply Forall_impl; [exact His|]. intros j Hj. simpl. by rewrite length_insert.
Qed.

Lemma NewSkipList2_spec m : exists l m', NewSkipList2 m = Some (l, m') /\ Rep m' l [] /\ m_data m' = m_data m /\ m_nodes m !! head_ l = None /\
  forall x, x <> head_ l -> m_nodes m' !! x = m_nodes m !! x.
Proof.
  set (x := malloc (m_nodes m)).
  set (m1 := m <| m_nodes ::= <[x := {| nd_height := kMaxHeight; nd_data := None; nd_prev := Garbage; nd_next := replicate kMaxHeight Garbage |}]> |>).
  assert (Hnew : NewNode None kMaxHeight m = Some (x, m1)) by done.
  set (m2 := m <| m_nodes ::= <[x := {| nd_height := kMaxHeight; nd_data := None; nd_prev := Garbage; nd_next := replicate kMaxHeight Null |}]> |>).
  assert (Hclr : clear_next x (seq 0 kMaxHeight) m1 = Some (tt, m2)).
  { erewrite clear_next_spec; [|simpl; apply lookup_insert_eq|simpl; repeat constructor].
    cbn [seq kMaxHeight]. f_equal. f_equal. unfold m1, m2, upd. simpl. f_equal. by rewrite insert_insert_eq. }
  set (m3 := m <| m_nodes ::= <[x := {| nd_height := kMaxHeight; nd_data := None; nd_prev := Null; nd_next := replicate kMaxHeight Null |}]> |>).
  assert (Hsp : SetPrev x None m2 = Some (tt, m3)).
  { unfold SetPrev. step (deref_eq m2 x _ (lookup_insert_eq _ _ _)). unfold assign. f_equal. f_equal. unfold m2, m3, upd. simpl. f_equal.
    by rewrite insert_insert_eq. }
  exists {| head_ := x; max_height_ := 1; count_ := 0; rnd_ := NewRandom 0xdeadbeef |}, m3.
  split; [unfold NewSkipList2; step Hnew; step Hclr; by step Hsp|]. split; [|split; [done|split; [apply malloc_fresh|]]].
  - split; simpl; [|constructor|apply NoDup_singleton|constructor|unfold kMaxHeight; lia|constructor|done].
    split; [|done]. unfold head_is. simpl. by rewrite lookup_insert_eq.
  - intros y Hy. simpl. by rewrite lookup_insert_ne.
Qed.

Lemma destroy_loop_spec B : forall m fuel, Seg m B closed -> NoDup (map e_at B) -> Forall (fun e => 1 <= e_height e)%nat B ->
  Forall (fun e => is_Some (m_data m !! e_data e)) B -> (length B <= fuel)%nat ->
  exists m', destroy_loop fuel (e_at <$> head B) m = Some (tt, m') /\
    (forall x, m_nodes m' !! x = if decide (x ∈ map e_at B) then None else m_nodes m !! x) /\
    (forall d, m_data m' !! d = (fun s => if decide (d ∈ map e_data B) then s <| sd_node := None |> else s) <$> m_data m !! d).
Proof.
  induction B as [|e B IH]; intros m fuel HS Hnd Hh Hd Hf.
  { exists m. split; [by destruct fuel|]. split; [done|]. intros d. simpl. by destruct (m_data m !! d). }
  destruct fuel as [|fuel]; [simpl in Hf; lia|]. destruct (Seg_head m e B HS) as [pv Ho]. destruct HS as [Hn HS].
  apply NoDup_cons in Hnd as [Hx Hnd]. apply Forall_cons in Hh as [He Hh]. apply Forall_cons in Hd as [[s Hs] Hd].
  set (m1 := m <| m_data ::= <[e_data e := s <| sd_node := None |>]> |>). set (m2 := m1 <| m_nodes ::= delete (e_at e) |>).
  assert (Hother : forall x, x <> e_at e -> m_nodes m2 !! x = m_nodes m !! x) by (intros y Hy; simpl; by rewrite lookup_delete_ne).
  destruct (IH m2 fuel) as (m' & Hl & Hn' & Hd'); [|done|done| |simpl in Hf; lia|].
  - apply (Seg_mono m _ _ _ _ HS); [|done]. intros y Hy. apply Hother. intros ->. done.
  - eapply Forall_impl; [exact Hd|]. simpl. intros e' He'. destruct (decide (e_data e' = e_data e)) as [->|Hne].
    + by rewrite lookup_insert_eq.
    + by rewrite lookup_insert_ne.
  - exists m'. split; [|split].
    + cbn [head fmap option_fmap option_map destroy_loop]. step (own_next e m pv _ 0 Ho ltac:(lia)). rewrite first_tall_0 by done.
      step (GetData_eq m e _ Hn). assert (Hsn : SetNode (e_data e) None m = Some (tt, m1)) by (unfold SetNode, mbind, option_bind; by rewrite Hs).
      step Hsn. assert (Hfr : free (e_at e) m1 = Some (tt, m2)) by (unfold free, mbind, option_bind; simpl; by rewrite Ho). by step Hfr.
    + intros x. rewrite Hn'. simpl. destruct (decide (x = e_at e)) as [->|Hne].
      * rewrite lookup_delete_eq. destruct (decide (e_at e ∈ map e_at B)), (decide (e_at e ∈ e_at e :: map e_at B)); done || set_solver.
      * rewrite lookup_delete_ne by done. destruct (decide (x ∈ map e_at B)), (decide (x ∈ e_at e :: map e_at B)); done || set_solver.
    + intros d. rewrite Hd'. simpl. destruct (decide (d = e_data e)) as [->|Hne].
      * rewrite lookup_insert_eq, Hs. simpl. rewrite (decide_True (P := e_data e ∈ e_data e :: _)) by left. by destruct (decide (e_data e ∈ map e_data B)).
      * rewrite lookup_insert_ne by done. destruct (decide (d ∈ map e_data B)), (decide (d ∈ e_data e :: map e_data B)); done || set_solver.
Qed.

Lemma Destroy_spec m l L : Rep m l L -> exists m', DestroySkipList2 l m = Some (tt, m') /\
  (forall x, m_nodes m' !! x = if decide (x ∈ addrs (head_ l) L) then None else m_nodes m !! x) /\
  (forall d, m_data m' !! d = (fun s => if decide (d ∈ map e_data L) then s <| sd_node := None |> else s) <$> m_data m !! d).
Proof.
  intros HR. pose proof (rp_nodup _ _ _ _ HR) as Hnd. apply NoDup_cons in Hnd as [Hhd Hnd]. pose proof (rp_chain _ _ _ _ HR) as [Hh HS].
  pose proof (Chain_size m _ _ _ (rp_chain _ _ _ _ HR) (rp_nodup _ _ _ _ HR)) as Hsz.
  destruct (destroy_loop_spec L m (size (m_nodes m)) HS Hnd (heights_pos _ _ (rp_heights _ _ _ _ HR))) as (m1 & Hl & Hn & Hd).
  - pose proof (rp_datas _ _ _ _ HR) as HD. eapply Forall_impl; [exact HD|]. simpl. intros e ->. done.
  - lia.
  - exists (m1 <| m_nodes ::= delete (head_ l) |>). split; [|split; [|done]].
    + unfold DestroySkipList2. step (head_next compare_ m l L HR). step Hl. unfold free, mbind, option_bind. rewrite Hn, decide_False by done.
      by rewrite Hh.
    + intros x. simpl. destruct (decide (x = head_ l)) as [->|Hne].
      * by rewrite lookup_delete_eq, decide_True by left.
      * rewrite lookup_delete_ne, Hn by done. unfold addrs. destruct (decide (x ∈ map e_at L)), (decide (x ∈ head_ l :: map e_at L)); done || set_solver.
Qed.

(** ** The specification at a split *)

Lemma not_found_above A B key : StronglySorted (fun a b => compare_ (e_key a) (e_key b) < 0) (A ++ B) -> Forall (lower key) A ->
  Forall (upper key) B -> s_find compare_ key (view (A ++ B)) = None -> Forall (fun b => compare_ key (e_key b) < 0) B.
Proof.
  intros HS HA HB Hf. rewrite (s_find_split compare_ key A B HS HA HB) in Hf. destruct B as [|e B]; [done|]. simpl in Hf.
  apply sorted_app_lt in HS as (_ & [_ HeB]%StronglySorted_inv & _). apply Forall_cons in HB as [He _].
  assert (Hke : compare_ key (e_key e) < 0).
  { unfold Equal in Hf. destruct (Z.eqb_spec (compare_ key (e_key e)) 0); [done|]. unfold upper in He. destruct (ko_sym key (e_key e)), (ko_sym (e_key e) key). lia. }
  constructor; [done|]. rewrite List.Forall_forall in HeB. apply Forall_forall. intros b Hb%list_elem_of_In.
  apply (compare_lt_le compare_ _ (e_key e)); [done|]. specialize (HeB b Hb). lia.
Qed.

(** Equality of keys the other way round. *)
Lemma equal_sym a b : compare_ a b = 0 <-> compare_ b a = 0.
Proof. destruct (ko_sym a b), (ko_sym b a). lia. Qed.

Lemma remove_absent L key : s_find compare_ key (view L) = None -> s_remove compare_ key (view L) = view L.
Proof.
  unfold s_find, s_remove. intros Hf. apply filter_view_all. apply Forall_forall. intros e He. simpl. rewrite equal_sym. intros E.
  assert (Hin : (e_key e, e_data e) ∈ filter (fun p : list Z * positive => compare_ key p.1 = 0) (view L)).
  { apply list_elem_of_filter. split; [done|]. apply list_elem_of_fmap. by exists e. }
  destruct (filter _ (view L)); [by apply elem_of_nil in Hin|done].
Qed.

Lemma remove_found A e B key : StronglySorted (fun a b => compare_ (e_key a) (e_key b) < 0) (A ++ e :: B) -> Forall (lower key) A ->
  Forall (upper key) (e :: B) -> Equal compare_ key (e_key e) = true -> s_remove compare_ key (view (A ++ e :: B)) = view (A ++ B).
Proof.
  intros HS HA HB Heq%Z.eqb_eq. unfold s_remove. change (e :: B) with ([e] ++ B). rewrite !filter_view_app.
  apply sorted_app_lt in HS as (_ & [_ HeB]%StronglySorted_inv & _). apply Forall_cons in HB as [He _].
  rewrite (filter_view_all _ A), (filter_view_none _ [e]), (filter_view_all _ B).
  - unfold view. by rewrite map_app.
  - assert (HB' : Forall (fun b => compare_ (e_key e) (e_key b) < 0) B).
    { rewrite List.Forall_forall in HeB. apply Forall_forall. intros b Hb%list_elem_of_In. auto. }
    eapply Forall_impl; [exact (above_not_equal compare_ key e B He HB')|]. simpl. intros b Hb. by rewrite equal_sym.
  - constructor; [|done]. simpl. rewrite equal_sym. tauto.
  - eapply Forall_impl; [exact (lower_not_equal compare_ key A HA)|]. simpl. intros a Ha. by rewrite equal_sym.
Qed.

(** ** Sequences of operations *)

(** The operations of [KeyMap]. *)
Inductive op : Type :=
| OInsert (d : positive) | ORemove (key : list Z) | OSearch (key : list Z) | OContains (key : list Z)
| OGreaterOrEqual (key : list Z) | OLessThanEqual (key : list Z) | ONext (d : positive) | OPrev (d : positive) | OFirst | OLast | OCount.

Inductive answer : Type := ABool (b : bool) | AData (d : option positive) | ASize (n : Z).

Definition exec (l : SkipList2) (o : op) : MM (answer * SkipList2) :=
  match o with
  | OInsert d => key ← GetKeySlice d; '(b, l) ← Insert compare_ l key d; mret (ABool b, l)
  | ORemove key => '(d, l) ← Remove compare_ l key; mret (AData d, l)
  | OSearch key => '(d, _) ← Search compare_ l key None; mret (AData d, l)
  | OContains key => b ← Contains compare_ l key; mret (ABool b, l)
  | OGreaterOrEqual key => '(d, _) ← SearchGreaterOrEqual compare_ l key None; mret (AData d, l)
  | OLessThanEqual key => d ← SearchLessThanEqual compare_ l key; mret (AData d, l)
  | ONext d => '(n, _) ← Next compare_ l (Some d) None; mret (AData n, l)
  | OPrev d => n ← Prev compare_ l (Some d); mret (AData n, l)
  | OFirst => '(d, _) ← First l None; mret (AData d, l)
  | OLast => d ← Last l; mret (AData d, l)
  | OCount => mret (ASize (GetCount l), l)
  end.

Fixpoint exec_all (l : SkipList2) (os : list op) : MM (list answer * SkipList2) :=
  match os with
  | [] => mret ([], l)
  | o :: os => '(a, l) ← exec l o; '(r, l) ← exec_all l os; mret (a :: r, l)
  end.

(** The same operations on a sorted list of keys and data; [dm] has the keys of the
    objects. *)
Section Model.
  Variable dm : gmap positive (list Z).

Definition key_of (d : positive) : list Z := default [] (dm !! d).

Definition spec_step (ps : list (list Z * positive)) (o : op) : answer * list (list Z * positive) :=
  match o with
  | OInsert d =>
      match s_find compare_ (key_of d) ps with Some _ => (ABool false, ps) | None => (ABool true, s_insert compare_ (key_of d) d ps) end
  | ORemove key => (AData (s_find compare_ key ps), s_remove compare_ key ps)
  | OSearch key => (AData (s_find compare_ key ps), ps)
  | OContains key => (ABool (bool_decide (is_Some (s_find compare_ key ps))), ps)
  | OGreaterOrEqual key => (AData (s_ge compare_ key ps), ps)
  | OLessThanEqual key => (AData (s_lt compare_ key ps), ps)
  | ONext d => (AData (if decide (d ∈ map snd ps) then s_gt compare_ (key_of d) ps else s_ge compare_ (key_of d) ps), ps)
  | OPrev d => (AData (s_lt compare_ (key_of d) ps), ps)
  | OFirst => (AData (snd <$> head ps), ps)
  | OLast => (AData (snd <$> last ps), ps)
  | OCount => (ASize (u64 (Z.of_nat (length ps))), ps)
  end.

Fixpoint spec_run (ps : list (list Z * positive)) (os : list op) : list answer :=
  match os with [] => [] | o :: os => let '(a, ps) := spec_step ps o in a :: spec_run ps os end.

Definition spec_final (ps : list (list Z * positive)) (os : list op) : list (list Z * positive) := foldl (fun ps o => snd (spec_step ps o)) ps os.

Definition op_ok (o : op) : Prop := match o with OInsert d | ONext d | OPrev d => is_Some (dm !! d) | _ => True end.

Record LInv (h0 : gmap positive Node) (m : mem) (l : SkipList2) (L : list ent) : Prop := {
  li_rep : Rep m l L;
  li_back : Back m (head_ l) L;
  li_keys : sd_key <$> m_data m = dm;
  li_free : forall d s, m_data m !! d = Some s -> d ∉ map e_data L -> sd_node s = None;
  li_own : forall x, x ∈ addrs (head_ l) L -> h0 !! x = None;
  li_rest : forall x, x ∉ addrs (head_ l) L -> m_nodes m !! x = h0 !! x;
}.

Lemma view_data L : map snd (view L) = map e_data L.
Proof. unfold view. rewrite map_map. done. Qed.

Lemma object h0 m l L d : LInv h0 m l L -> is_Some (dm !! d) ->
  exists s, m_data m !! d = Some s /\ sd_key s = key_of d /\ (d ∉ map snd (view L) -> s = {| sd_key := key_of d; sd_node := None |}) /\
    (d ∈ map snd (view L) -> exists e, e ∈ L /\ e_data e = d /\ e_key e = key_of d).
Proof.
  intros HI [k Hk]. pose proof (li_keys _ _ _ _ HI) as Hdm. rewrite view_data. unfold key_of. rewrite Hk. simpl.
  rewrite <- Hdm, lookup_fmap in Hk. destruct (m_data m !! d) as [s|] eqn:Hs; [|done]. injection Hk as Hk. exists s.
  split; [done|]. split; [done|]. split.
  - intros Hout. pose proof (li_free _ _ _ _ HI d s Hs Hout) as Hn. destruct s. simpl in *. by subst.
  - intros (e & Ed & He)%list_elem_of_fmap. exists e. split; [done|]. split; [done|].
    pose proof (Datas_elem m L e (rp_datas _ _ _ _ (li_rep _ _ _ _ HI)) He) as Hde. rewrite <- Ed, Hs in Hde. injection Hde as ->. done.
Qed.

Lemma keys_update m m' d s s' : sd_key <$> m_data m = dm -> m_data m !! d = Some s -> sd_key s' = sd_key s ->
  m_data m' = <[d := s']> (m_data m) -> sd_key <$> m_data m' = dm.
Proof.
  intros Hdm Hd Hs ->. rewrite fmap_insert, Hs, <- Hdm. apply map_eq. intros j. destruct (decide (j = d)) as [->|Hne].
  - rewrite lookup_insert_eq, lookup_fmap, Hd. done.
  - by rewrite lookup_insert_ne.
Qed.

Lemma insert_step h0 m l L d : LInv h0 m l L -> is_Some (dm !! d) -> exists l' L' m',
  exec l (OInsert d) m = Some ((fst (spec_step (view L) (OInsert d)), l'), m') /\ LInv h0 m' l' L' /\ view L' = snd (spec_step (view L) (OInsert d)).
Proof.
  intros HI Hd. destruct (object h0 m l L d HI Hd) as (s & Hs & Hk & _ & _). pose proof (li_rep _ _ _ _ HI) as HR.
  assert (Hg : GetKeySlice d m = Some (key_of d, m)) by (unfold GetKeySlice, mbind, option_bind; by rewrite Hs, <- Hk).
  unfold exec. step Hg. cbn [spec_step]. set (key := key_of d) in *. destruct (s_find compare_ key (view L)) as [d'|] eqn:Hf.
  { exists l, L, m. step (Insert_dup m l L key d HR ltac:(by rewrite Hf)). done. }
  destruct (split_at compare_ key L (rp_sorted _ _ _ _ HR)) as (A & B & -> & HA & HB).
  pose proof (not_found_above A B key (rp_sorted _ _ _ _ HR) HA HB Hf) as HB'.
  destruct (Insert_new m l A B key d s HR (li_back _ _ _ _ HI) HA HB' Hs Hk) as (l' & e & m' & Hins & HR' & HBk' & Hhd & Hek & Hed & Hdata & Hfr & Hframe).
  exists l', (A ++ e :: B), m'. step Hins. split; [done|]. split.
  - pose proof (li_own _ _ _ _ HI) as Hown. pose proof (li_rest _ _ _ _ HI) as Hrest.
    assert (Hx0 : e_at e ∉ addrs (head_ l) (A ++ B)).
    { intros Hin. destruct (Chain_alloc m _ _ _ _ (rp_chain _ _ _ _ HR) Hin) as [? E]. congruence. }
    split; [done|by rewrite Hhd|..].
    + eapply (keys_update m m' d); [apply (li_keys _ _ _ _ HI)|exact Hs| |exact Hdata]. done.
    + intros d' s' Hs' Hout. rewrite Hdata in Hs'. rewrite map_app in Hout. simpl in Hout. rewrite Hed in Hout.
      rewrite lookup_insert_ne in Hs' by set_solver. apply (li_free _ _ _ _ HI d' s' Hs'). rewrite map_app. set_solver.
    + rewrite Hhd. intros x Hx. rewrite addrs_app in Hx, Hx0. simpl in Hx. destruct (decide (x = e_at e)) as [->|Hne].
      * rewrite <- Hrest; [done|by rewrite addrs_app].
      * apply Hown. rewrite addrs_app. set_solver.
    + rewrite Hhd. intros x Hx. rewrite Hframe by done. apply Hrest. rewrite addrs_app in *. set_solver.
  - unfold s_insert. rewrite !filter_view_app, (filter_view_all _ A), (filter_view_none _ B), (filter_view_none _ A), (filter_view_all _ B), app_nil_r; try done.
    + unfold view. rewrite map_app. simpl. by rewrite Hek, Hed.
    + by apply lower_not_upper.
    + by apply upper_not_lower.
Qed.

Lemma remove_step h0 m l L key : LInv h0 m l L -> exists l' L' m',
  exec l (ORemove key) m = Some ((fst (spec_step (view L) (ORemove key)), l'), m') /\ LInv h0 m' l' L' /\ view L' = snd (spec_step (view L) (ORemove key)).
Proof.
  intros HI. pose proof (li_rep _ _ _ _ HI) as HR. cbn [exec spec_step fst snd].
  destruct (split_at compare_ key L (rp_sorted _ _ _ _ HR)) as (A & B & -> & HA & HB).
  destruct (s_find compare_ key (view (A ++ B))) as [d|] eqn:Hf.
  2: { exists l, (A ++ B), m. step (Remove_absent m l (A ++ B) key HR Hf). split; [done|]. split; [done|]. symmetry. by apply remove_absent. }
  pose proof Hf as Hf'. rewrite (s_find_split compare_ key A B (rp_sorted _ _ _ _ HR) HA HB) in Hf'.
  destruct B as [|e B]; [done|]. simpl in Hf'. destruct (Equal compare_ key (e_key e)) eqn:Heq; [|done]. injection Hf' as <-.
  destruct (Remove_found m l A e B key HR (li_back _ _ _ _ HI) HA HB Heq) as (m' & Hrm & HR' & HBk' & Hdata & Hfree & Hframe).
  exists (remove_list l), (A ++ B), m'. step Hrm. split; [done|].
  pose proof (Datas_elem m _ e (rp_datas _ _ _ _ HR) ltac:(set_solver)) as Hde.
  pose proof (rp_nodup _ _ _ _ HR) as Hnd. rewrite addrs_app in Hnd. apply NoDup_app in Hnd as (_ & Hdis & [Hex _]%NoDup_cons).
  split; [split; [done|done|..]|].
  - eapply (keys_update m m' (e_data e)); [apply (li_keys _ _ _ _ HI)|exact Hde| |exact Hdata]. done.
  - intros d' s' Hs' Hout. rewrite Hdata in Hs'. destruct (decide (d' = e_data e)) as [->|Hne].
    + rewrite lookup_insert_eq in Hs'. by injection Hs' as <-.
    + rewrite lookup_insert_ne in Hs' by done. apply (li_free _ _ _ _ HI d' s' Hs'). rewrite map_app in *. simpl. set_solver.
  - intros x Hx. apply (li_own _ _ _ _ HI). simpl in *. rewrite addrs_app in *. set_solver.
  - intros x Hx. simpl in Hx. destruct (decide (x = e_at e)) as [->|Hne].
    + rewrite Hfree. symmetry. apply (li_own _ _ _ _ HI). rewrite addrs_app. set_solver.
    + rewrite addrs_app in Hx. rewrite Hframe by (rewrite addrs_app; set_solver). apply (li_rest _ _ _ _ HI). rewrite addrs_app. set_solver.
  - symmetry. exact (remove_found A e B key (rp_sorted _ _ _ _ HR) HA HB Heq).
Qed.

Lemma exec_step h0 m l L o : LInv h0 m l L -> op_ok o -> exists l' L' m',
  exec l o m = Some ((fst (spec_step (view L) o), l'), m') /\ LInv h0 m' l' L' /\ view L' = snd (spec_step (view L) o).
Proof.
  intros HI Ho. pose proof (li_rep _ _ _ _ HI) as HR. destruct o as [d|key|key|key|key|key|d|d| | |]; [by apply insert_step|by apply remove_step|..];
    exists l, L, m; (split; [|done]); unfold exec; cbn [spec_step fst].
  - by step (Search_spec compare_ m l L HR key).
  - by step (Contains_spec compare_ m l L HR key).
  - by step (SearchGreaterOrEqual_spec compare_ m l L HR key).
  - by step (SearchLessThanEqual_spec compare_ m l L HR key).
  - destruct (object h0 m l L d HI Ho) as (s & Hs & Hk & Hout & Hin). destruct (decide (d ∈ map snd (view L))) as [Hd|Hd].
    + destruct (Hin Hd) as (e & He & <- & <-). by step (Next_spec compare_ m l L HR e He).
    + rewrite (Hout Hd) in Hs. by step (Next_outside compare_ m l L HR d (key_of d) Hs).
  - destruct (object h0 m l L d HI Ho) as (s & Hs & Hk & Hout & Hin). destruct (decide (d ∈ map snd (view L))) as [Hd|Hd].
    + destruct (Hin Hd) as (e & He & <- & <-). by step (Prev_spec compare_ m l L HR e (li_back _ _ _ _ HI) He).
    + rewrite (Hout Hd) in Hs. by step (Prev_outside compare_ m l L HR d (key_of d) Hs).
  - by step (First_spec compare_ m l L HR).
  - by step (Last_spec compare_ m l L HR).
  - unfold GetCount. rewrite (rp_count _ _ _ _ HR). unfold view. by rewrite List.length_map.
Qed.

Lemma exec_all_spec h0 os : forall m l L, LInv h0 m l L -> Forall op_ok os -> exists l' L' m',
  exec_all l os m = Some ((spec_run (view L) os, l'), m') /\ LInv h0 m' l' L' /\ view L' = spec_final (view L) os.
Proof.
  induction os as [|o os IH]; intros m l L HI Ho; [by exists l, L, m|]. apply Forall_cons in Ho as [Ho Hos].
  destruct (exec_step h0 m l L o HI Ho) as (l1 & L1 & m1 & He & HI1 & Hv). destruct (IH m1 l1 L1 HI1 Hos) as (l2 & L2 & m2 & Hr & HI2 & Hv2).
  exists l2, L2, m2. cbn [exec_all spec_run]. step He. step Hr. unfold spec_final. simpl. rewrite Hv in Hv2 |- *.
  split; [by destruct (spec_step (view L) o)|done].
Qed.
End Model.

(** A list from its construction to its destruction. *)
Definition lifetime (os : list op) : MM (list answer) :=
  l ← NewSkipList2;
  '(answers, l) ← exec_all l os;
  _ ← DestroySkipList2 l;
  mret answers.

Definition start_mem (dm : gmap positive (list Z)) (h0 : gmap positive Node) : mem :=
  {| m_nodes := h0; m_data := (fun k => {| sd_key := k; sd_node := None |}) <$> dm |}.

Lemma start_spec dm h0 : exists l m, NewSkipList2 (start_mem dm h0) = Some (l, m) /\ LInv dm h0 m l [].
Proof.
  destruct (NewSkipList2_spec (start_mem dm h0)) as (l & m1 & Hnew & HR & Hd & Hfr & Hrest). exists l, m1. split; [done|].
  split; [done|done| |..].
  - rewrite Hd. simpl. apply map_eq. intros d. rewrite !lookup_fmap. by destruct (dm !! d).
  - intros d s Hs _. rewrite Hd in Hs. simpl in Hs. rewrite lookup_fmap in Hs. destruct (dm !! d); [|done]. by injection Hs as <-.
  - intros x ->%list_elem_of_singleton. done.
  - intros x Hx. rewrite Hrest; [done|]. intros ->. apply Hx. left.
Qed.

Lemma lifetime_spec dm h0 os : Forall (op_ok dm) os ->
  lifetime os (start_mem dm h0) = Some (spec_run dm [] os, start_mem dm h0).
Proof.
  intros Hos. destruct (start_spec dm h0) as (l & m1 & Hnew & HI).
  destruct (exec_all_spec dm h0 os m1 l [] HI Hos) as (l2 & L2 & m2 & Hrun & HI2 & _).
  destruct (Destroy_spec m2 l2 L2 (li_rep _ _ _ _ _ HI2)) as (m3 & Hdes & Hn3 & Hd3).
  unfold lifetime. step Hnew. step Hrun. step Hdes.
  assert (Hm : m3 = start_mem dm h0); [|by rewrite Hm]. destruct m3 as [n3 d3]. simpl in Hn3, Hd3. unfold start_mem. f_equal.
  - apply map_eq. intros x. rewrite Hn3. destruct (decide (x ∈ addrs (head_ l2) L2)) as [Hx|Hx]; symmetry.
    + by apply (li_own _ _ _ _ _ HI2).
    + symmetry. by apply (li_rest _ _ _ _ _ HI2).
  - apply map_eq. intros d. rewrite Hd3, lookup_fmap, <- (li_keys _ _ _ _ _ HI2), lookup_fmap.
    destruct (m_data m2 !! d) as [s|] eqn:Hs; [|done]. simpl. f_equal. destruct (decide (d ∈ map e_data L2)) as [|Hout]; [done|].
    pose proof (li_free _ _ _ _ _ HI2 d s Hs Hout) as Hn. destruct s. simpl in *. by subst.
Qed.
End Operations.

(** ** The bytewise comparator and an allocator *)

#[export] Instance compare_order : KeyOrder compare.
Proof.
  split.
  - intros a b. destruct (bytewise_total_order a b b) as (_ & -> & _). lia.
  - intros a b c Hab Hbc. destruct (bytewise_total_order a b c) as (E1 & _ & Ht & _). destruct (bytewise_total_order b c c) as (E2 & _).
    destruct (Z.eq_dec (compare a b) 0) as [->%E1|]; [done|]. destruct (Z.eq_dec (compare b c) 0) as [<-%E2|]; [done|].
    assert (compare a c < 0) by (apply Ht; lia). lia.
Qed.

Lemma fresh_free (h : gmap positive Node) : h !! fresh (dom h) = None.
Proof. apply not_elem_of_dom, is_fresh. Qed.

#[export] Instance fresh_malloc : Malloc := {| malloc := fun h => fresh (dom h); malloc_fresh := fresh_free |}.

(** C3: a skip list is a sorted map.  From the constructor to the destructor,
    whatever operations come in between, no access is invalid, every search ends,
    the answers are those of a sorted list of keys (a duplicate is refused, [Next]
    and [Prev] go to the neighbours in the order of the comparator), and the
    destructor leaves the memory as it was: no node is leaked and no object keeps
    a pointer to one. *)
Theorem skiplist_refines_sorted_list `{Malloc} (compare_ : list Z -> list Z -> Z) (dm : gmap positive (list Z)) (h0 : gmap positive Node) (os : list op) :
  KeyOrder compare_ -> Forall (op_ok dm) os ->
  lifetime compare_ os (start_mem dm h0) = Some (spec_run compare_ dm [] os, start_mem dm h0).
Proof. intros HO Hos. by apply lifetime_spec. Qed.

Lemma skiplist_refines_sorted_list_witness :
  let dm : gmap positive (list Z) := <[1%positive := [5]]> (<[2%positive := [3; 1]]> (<[3%positive := [3]]> ∅)) in
  let m := start_mem dm ∅ in
  lifetime compare [OInsert 1; OInsert 2; OInsert 3; OInsert 2; ONext 3; OPrev 1; ORemove [3; 1]; ONext 3; OLast; OGreaterOrEqual [4]; OCount] m =
  Some ([ABool true; ABool true; ABool true; ABool false; AData (Some 2%positive); AData (Some 2%positive); AData (Some 2%positive);
         AData (Some 1%positive); AData (Some 1%positive); AData (Some 1%positive); ASize 2], m).
Proof.
  intros dm m. apply (skiplist_refines_sorted_list compare dm ∅
    [OInsert 1; OInsert 2; OInsert 3; OInsert 2; ONext 3; OPrev 1; ORemove [3; 1]; ONext 3; OLast; OGreaterOrEqual [4]; OCount]).
  - apply compare_order.
  - repeat (constructor; [first [exact I | eexists; vm_compute; reflexivity]|]). constructor.
Defined.
