(* ===== verification/SkipListSplit.v ===== *)
(** * Moving along a skip list with a context

    [SLSplitCtx] remembers, for every level, the last node before the current one,
    so that the current node can be unlinked without a search.  The key map uses it
    to hand its upper keys to new tables (the end of [SKTableMem]'s flush in
    sktable.cc, [split_keymap]) and to evict keys on a walk. *)

From Stdlib Require Import ZArith Lia Bool Sorted.
From stdpp Require Import base gmap list fin_maps.
From S2P Require Import Prelude Slices Random SkipList2 SkipListInv SkipListOps SkipListEdit SkipListMap.

Definition preds_ok (hd : positive) (A : list ent) (a : list link) : Prop :=
  forall j, (j < kMaxHeight)%nat -> a !! j = Some (To (pred hd j A)).

Lemma preds_length hd A a : preds_ok hd A a -> (kMaxHeight <= length a)%nat.
Proof.
  intros Ha. destruct (decide (length a < kMaxHeight)%nat) as [Hl|]; [|lia]. specialize (Ha (length a) Hl).
  by rewrite lookup_ge_None_2 in Ha.
Qed.

(** Moving over an entry. *)
Lemma preds_snoc hd A e a : preds_ok hd A a -> preds_ok hd (A ++ [e]) (set_range a 0 (e_height e) (To (e_at e))).
Proof.
  intros Ha j Hj. pose proof (preds_length _ _ _ Ha). rewrite set_range_lookup, pred_snoc by lia.
  destruct (decide (0 <= j < 0 + e_height e)%nat), (Nat.ltb_spec j (e_height e)); try lia; [done|]. by apply Ha.
Qed.

Lemma preds_head hd a : (kMaxHeight <= length a)%nat -> preds_ok hd [] (set_range a 0 kMaxHeight (To hd)).
Proof. intros Hl j Hj. rewrite set_range_lookup, decide_True by lia. done. Qed.

Section Context.
  Context `{Malloc}.
  Variable compare_ : list Z -> list Z -> Z.
  Context `{!KeyOrder compare_}.
  Local Abbreviation Rep := (Rep compare_).
  Local Abbreviation lower := (lower compare_).
  Local Abbreviation upper := (upper compare_).
  (** When the previous pointers of the list that is split are in order. *)
  Variable in_order : Prop.

(** ** The context operations *)

Definition ctx_prev (l : SkipList2) (A : list ent) : list link := fill (head_ l) A (max_height_ l - 1) (replicate kMaxHeight (To (head_ l))).

Lemma ctx_prev_ok m l A B : Rep m l (A ++ B) -> preds_ok (head_ l) A (ctx_prev l A).
Proof.
  intros HR j Hj. pose proof (rp_max _ _ _ _ HR) as Hm. pose proof (rp_heights _ _ _ _ HR) as [HA _]%Forall_app. unfold ctx_prev.
  destruct (decide (j <= max_height_ l - 1)%nat) as [Hle|Hgt].
  - apply fill_lookup; [done|]. by rewrite length_replicate.
  - unfold fill. rewrite list_lookup_imap, lookup_replicate_2 by done. simpl. rewrite (proj2 (Nat.leb_gt _ _)) by lia.
    by rewrite (pred_high _ A (max_height_ l)) by (done || lia).
Qed.

Definition found_ctx (l : SkipList2) (c : SLSplitCtx) (A B : list ent) : SLSplitCtx :=
  match head B with Some e => c <| src_prev := ctx_prev l A |> <| src_cur_node := Some (e_at e) |> | None => c end.

Lemma search_ctx m l A B key c : Rep m l (A ++ B) -> Forall (lower key) A -> Forall (upper key) B ->
  SearchGreaterOrEqual compare_ l key (Some c) m = Some ((e_data <$> head B, Some (found_ctx l c A B)), m).
Proof.
  intros HR HA HB. unfold SearchGreaterOrEqual, find_with_ctx.
  step (FindGreaterOrEqual_spec compare_ m l A B key HR HA HB ((fun _ => replicate kMaxHeight (To (head_ l))) <$> Some c)).
  unfold found_ctx. destruct B as [|e B]; [done|]. cbn [head fmap option_fmap option_map].
  by step (data_eq compare_ m l (A ++ e :: B) HR e ltac:(set_solver)).
Qed.

Definition removed_ctx (c : SLSplitCtx) (e : ent) : SLSplitCtx := c <| src_cur_node := None |> <| src_cur_del_node := Some (e_at e) |>.

Lemma RemoveCtx_spec m l A e B c : Rep m l (A ++ e :: B) -> preds_ok (head_ l) A (src_prev c) -> src_cur_node c = Some (e_at e) ->
  exists pv m', RemoveCtx l c m = Some ((Some (e_data e), remove_list l, removed_ctx c e), m') /\ Rep m' (remove_list l) (A ++ B) /\
    own e m' pv (replicate (e_height e) Null) /\ same_but (addrs (head_ l) (A ++ [e])) m m'.
Proof.
  intros HR Hp Hc. pose proof (rp_max _ _ _ _ HR) as Hmax. pose proof (rp_heights _ _ _ _ HR) as [HhA [Hhe HhB]%Forall_cons]%Forall_app.
  pose proof (rp_chain _ _ _ _ HR) as [HCA HSB]%Chain_glue. destruct (Seg_head m e B HSB) as [pv Ho]. destruct HSB as [Hn HSB].
  pose proof (rp_nodup _ _ _ _ HR) as Hnd. rewrite addrs_app in Hnd. apply NoDup_app in Hnd as (HndA & Hdis & [Hex HndB]%NoDup_cons).
  assert (Hout : e_at e ∉ addrs (head_ l) A) by (intros Hin; apply (Hdis _ Hin); left).
  destruct (remove_levels_spec (head_ l) A B e (src_prev c) HndA Hout (heights_max _ _ (proj2 Hmax) HhA) ltac:(lia)
    ltac:(intros j Hj; apply Hp; lia) (e_height e) 0 m pv eq_refl (Chain_start _ _ _ _ _ (heights_max _ _ (proj2 Hmax) HhA) HCA) Ho)
    as (m1 & Hs1 & HC1 & Ho1 & Hf1).
  exists pv, m1. split; [|split; [|split; [done|]]].
  - unfold RemoveCtx. rewrite Hc. step (GetHeight_eq m e _ Hn). step Hs1.
    assert (Hg : GetData (e_at e) m1 = Some (e_data e, m1)) by (unfold GetData; by step (deref_eq m1 _ _ Ho1)). by step Hg.
  - apply (Rep_delete compare_ m m1 l A B e HR).
    + apply Chain_glue. split; [done|]. apply (Seg_mono m _ _ _ _ HSB); [|done]. intros y Hy. apply (sb_nodes _ _ _ Hf1).
      intros [->|Hin]%elem_of_cons; [done|]. apply (Hdis y Hin). by right.
    + pose proof (rp_datas _ _ _ _ HR) as HD. unfold Datas in *. rewrite (sb_data _ _ _ Hf1).
      rewrite Forall_app, Forall_cons in HD. apply Forall_app. tauto.
  - apply (same_but_mono _ _ _ _ Hf1). intros x Hx. rewrite addrs_app. set_solver.
Qed.

(** After a removal the next entry becomes the current one. *)
Lemma next_after_remove m l A B c : Rep m l (A ++ B) -> preds_ok (head_ l) A (src_prev c) -> src_cur_node c = None ->
  Next compare_ l None (Some c) m = Some ((e_data <$> head B, Some (c <| src_cur_node := e_at <$> head B |>)), m).
Proof.
  intros HR Hp Hc. unfold Next, NextWithNode. rewrite Hc. pose proof (heights_pos _ _ (rp_heights _ _ _ _ HR)) as [HhA HhB]%Forall_app.
  assert (Hv : (v ← lift (src_prev c !! 0%nat); nonnull v) m = Some (top (head_ l) A, m)).
  { unfold mbind, MM_bind, lift, mbind, option_bind. rewrite (Hp 0%nat) by (unfold kMaxHeight; lia). by rewrite pred_0. }
  step Hv. assert (Hn : NodeNext (top (head_ l) A) 0 m = Some (e_at <$> head B, m)).
  { pose proof (rp_chain _ _ _ _ HR) as HC. pose proof (Chain_next m (head_ l) A B closed 0 HC) as Hx. unfold closed in Hx.
    rewrite app_nil_r, first_tall_0 in Hx by done. apply Hx. unfold tower. destruct (last A) as [a|] eqn:Hl; [|unfold kMaxHeight; lia].
    apply last_Some in Hl as [A' ->]. apply Forall_app in HhA as [_ [? _]%Forall_cons]. lia. }
  step Hn. destruct B as [|e B]; [done|]. cbn [head fmap option_fmap option_map]. pose proof (rp_nodup _ _ _ _ HR) as Hnd.
  rewrite bool_decide_false; [by step (data_eq compare_ m l (A ++ e :: B) HR e ltac:(set_solver))|].
  intros E. rewrite addrs_app in Hnd. apply NoDup_app in Hnd as (_ & Hdis & _). apply (Hdis (head_ l)); [left|rewrite <- E; left].
Qed.

(** Otherwise it is passed over. *)
Lemma next_over m l A e B c : Rep m l (A ++ e :: B) -> preds_ok (head_ l) A (src_prev c) -> src_cur_node c = Some (e_at e) ->
  exists c', Next compare_ l None (Some c) m = Some ((e_data <$> head B, Some c'), m) /\
    (B <> [] -> preds_ok (head_ l) (A ++ [e]) (src_prev c') /\ src_cur_node c' = e_at <$> head B).
Proof.
  intros HR Hp Hc. unfold Next, NextWithNode. rewrite Hc. step (entry_next compare_ m l (A ++ e :: B) HR A e B eq_refl).
  destruct B as [|b B]; [by exists c|]. cbn [head fmap option_fmap option_map].
  destruct (Seg_elem m (A ++ e :: b :: B) closed e) as [T Hn]; [apply HR|set_solver|]. step (GetHeight_eq m e T Hn).
  step (data_eq compare_ m l (A ++ e :: b :: B) HR b ltac:(set_solver)). eexists. split; [done|]. intros _. split; [|done].
  simpl. by apply preds_snoc.
Qed.

Definition append_list (l : SkipList2) (e : ent) : SkipList2 :=
  l <| count_ := u64 (count_ l + 1) |> <| max_height_ ::= fun h => if (h <? e_height e)%nat then e_height e else h |>.

Lemma Append_spec m l A e c pv : Rep m l A -> own e m pv (replicate (e_height e) Null) -> e_at e ∉ addrs (head_ l) A ->
  (1 <= e_height e <= kMaxHeight)%nat -> m_data m !! e_data e = Some {| sd_key := e_key e; sd_node := Some (e_at e) |} ->
  Forall (fun a => compare_ (e_key a) (e_key e) < 0) A -> preds_ok (head_ l) A (target_next c) -> src_cur_del_node c = Some (e_at e) ->
  exists m' t, Append l c m = Some ((append_list l e, c <| src_cur_del_node := None |> <| target_next := t |>), m') /\
    Rep m' (append_list l e) (A ++ [e]) /\ (Back m (head_ l) A -> Back m' (head_ l) (A ++ [e])) /\
    preds_ok (head_ l) (A ++ [e]) t /\ edits (e_at e :: addrs (head_ l) A) [e_at e] m m'.
Proof.
  intros HR Ho Hout Hh Hd HA Hp Hc. pose proof (rp_max _ _ _ _ HR) as Hmax. pose proof (rp_heights _ _ _ _ HR) as HhA.
  pose proof (rp_chain _ _ _ _ HR) as HC. rewrite <- (app_nil_r A) in HC. apply Chain_glue in HC as [HC _].
  destruct (append_levels_spec (head_ l) A e (rp_nodup _ _ _ _ HR) Hout (heights_max _ _ (proj2 Hmax) HhA) (proj2 Hh) (e_height e) 0 m pv (target_next c)
    eq_refl (Chain_start _ _ _ _ _ (heights_max _ _ (proj2 Hmax) HhA) HC) Ho Hp) as (m' & t & Hs & HC' & Ho' & Ht & He).
  exists m', t. rewrite (proj2 (Nat.ltb_lt 0 (e_height e))) in Ho' by lia. cbn [Nat.eqb andb] in Ho'. rewrite pred_0 in Ho' by (by apply (heights_pos (max_height_ l))).
  split; [|split; [|split; [|split; [done|done]]]].
  - unfold Append. rewrite Hc. assert (Hg : GetHeight (e_at e) m = Some (e_height e, m)) by (unfold GetHeight; by step (deref_eq m _ _ Ho)).
    step Hg. by step Hs.
  - assert (Hmx : max_height_ (append_list l e) = max (max_height_ l) (e_height e)) by (simpl; destruct (Nat.ltb_spec (max_height_ l) (e_height e)); lia).
    split; [|..|rewrite Hmx; lia| |].
    + apply Chain_glue. split; [done|]. eapply (Seg_cons m' e []); [rewrite Ho', replicate_seq; done|done].
    + unfold Datas. rewrite (ed_data _ _ _ _ He). apply Forall_app. split; [apply HR|]. by constructor.
    + rewrite addrs_app. apply NoDup_app. split; [apply HR|]. split; [|apply NoDup_singleton].
      intros x Hx ->%list_elem_of_singleton. done.
    + rewrite Hmx. apply Forall_app. split; [eapply Forall_impl; [exact HhA|simpl; lia]|]. constructor; [lia|done].
    + apply (sorted_insert compare_ A [] e); [rewrite app_nil_r; apply HR|done|done].
    + simpl. rewrite (rp_count _ _ _ _ HR), length_app. simpl. unfold u64, wrap. rewrite Z.add_mod_idemp_l by lia. f_equal. lia.
  - intros HB. apply Back_app. split; [|split; [by rewrite Ho'|done]]. apply (Back_frame m); [done|].
    intros x Hx. apply (ed_prev _ _ _ _ He). intros ->%list_elem_of_singleton. apply Hout. by right.
Qed.

(** ** Moving entries to another list *)

Lemma Rep_frame m m' l L : Rep m l L -> m_data m' = m_data m -> (forall x, x ∈ addrs (head_ l) L -> m_nodes m' !! x = m_nodes m !! x) -> Rep m' l L.
Proof.
  intros HR Hd Hn. destruct HR as [HC HD]. split; try done; [by apply (Chain_frame m)|]. unfold Datas in *. by rewrite Hd.
Qed.

Lemma Back_nodes m m' l L : Back m (head_ l) L -> (forall x, x ∈ addrs (head_ l) L -> m_nodes m' !! x = m_nodes m !! x) -> Back m' (head_ l) L.
Proof. intros HB Hn. apply (Back_frame m); [done|]. intros x Hx. rewrite Hn; [done|by right]. Qed.

(** The source has given up the entries between [P] and [R] to the target [A]. *)
Record Moving (m : mem) (src : SkipList2) (P R : list ent) (skt : SkipList2) (A : list ent) (c : SLSplitCtx) : Prop := {
  mv_src : Rep m src (P ++ R);
  mv_srcb : in_order -> Back m (head_ src) P;
  mv_preds : preds_ok (head_ src) P (src_prev c);
  mv_cur : src_cur_node c = e_at <$> head R;
  mv_skt : Rep m skt A;
  mv_sktb : Back m (head_ skt) A;
  mv_target : preds_ok (head_ skt) A (target_next c);
  mv_dis : forall x, x ∈ addrs (head_ src) (P ++ R) -> x ∉ addrs (head_ skt) A;
  mv_lt : forall a b, a ∈ A -> b ∈ R -> compare_ (e_key a) (e_key b) < 0;
}.

Lemma addrs_cons hd P e R : addrs hd (P ++ e :: R) ≡ₚ e_at e :: addrs hd (P ++ R).
Proof. rewrite !addrs_app. simpl. symmetry. apply (Permutation_middle (addrs hd P)). Qed.

Lemma move_one m src P e R skt A c : Moving m src P (e :: R) skt A c -> exists m1 c1 m2 c2 c3,
  RemoveCtx src c m = Some ((Some (e_data e), remove_list src, c1), m1) /\
  Append skt c1 m1 = Some ((append_list skt e, c2), m2) /\
  Next compare_ (remove_list src) None (Some c2) m2 = Some ((e_data <$> head R, Some c3), m2) /\
  Moving m2 (remove_list src) P R (append_list skt e) (A ++ [e]) c3 /\ m_data m2 = m_data m /\
  forall x, x ∉ addrs (head_ src) (P ++ [e]) ++ addrs (head_ skt) A -> m_nodes m2 !! x = m_nodes m !! x.
Proof.
  intros [HR HB Hp Hc HT HTB Ht Hdis Hlt]. destruct (RemoveCtx_spec m src P e R c HR Hp Hc) as (pv & m1 & Hs1 & HR1 & Ho1 & Hf1).
  pose proof (rp_nodup _ _ _ _ HR) as Hnd. rewrite addrs_cons in Hnd. apply NoDup_cons in Hnd as [Hex Hnd].
  assert (Hin : forall x, x ∈ addrs (head_ src) (P ++ [e]) -> x ∈ addrs (head_ src) (P ++ e :: R)) by (intros x; rewrite !addrs_app; set_solver).
  assert (HeT : e_at e ∉ addrs (head_ skt) A) by (apply Hdis; rewrite addrs_app; set_solver).
  assert (HT1 : forall x, x ∈ addrs (head_ skt) A -> m_nodes m1 !! x = m_nodes m !! x).
  { intros x Hx. apply (sb_nodes _ _ _ Hf1). intros Hx'%Hin. by apply (Hdis x Hx'). }
  pose proof (rp_heights _ _ _ _ HR) as [_ [Hhe _]%Forall_cons]%Forall_app. pose proof (rp_max _ _ _ _ HR) as Hmax.
  destruct (Append_spec m1 skt A e (removed_ctx c e) pv (Rep_frame m m1 skt A HT (sb_data _ _ _ Hf1) HT1) Ho1 HeT ltac:(lia)) as (m2 & t & Hs2 & HT2 & HTB2 & Hp2 & He2); try done.
  { rewrite (sb_data _ _ _ Hf1). apply (Datas_elem m (P ++ e :: R)); [apply HR|set_solver]. }
  { apply Forall_forall. intros a Ha. apply Hlt; [done|left]. }
  assert (Hsrc2 : forall x, x ∈ addrs (head_ src) (P ++ R) -> m_nodes m2 !! x = m_nodes m1 !! x).
  { intros x Hx. apply (ed_nodes _ _ _ _ He2). intros [->|Hx']%elem_of_cons; [done|]. apply (Hdis x); [|done]. rewrite addrs_cons. by right. }
  assert (HR2 : Rep m2 (remove_list src) (P ++ R)) by (apply (Rep_frame m1); [done|apply He2|exact Hsrc2]).
  set (c2 := (removed_ctx c e) <| src_cur_del_node := None |> <| target_next := t |>) in *.
  exists m1, (removed_ctx c e), m2, c2, (c2 <| src_cur_node := e_at <$> head R |>).
  split; [done|]. split; [done|]. split; [by apply (next_after_remove m2 (remove_list src) P R c2)|]. split; [split|split]; try done.
  - intros Hio. apply (Back_frame m); [by apply HB|]. intros x Hx. rewrite Hsrc2 by (rewrite addrs_app; set_solver). apply Hf1.
  - apply HTB2. by apply (Back_nodes m).
  - intros x Hx. simpl in Hx. rewrite addrs_app. intros [Hx'|Hx']%elem_of_app; [apply (Hdis x); [rewrite addrs_cons; by right|done]|].
    apply list_elem_of_singleton in Hx' as ->. done.
  - intros a b [Ha|Ha]%elem_of_app Hb; [apply Hlt; [done|by right]|]. apply list_elem_of_singleton in Ha as ->.
    pose proof (rp_sorted _ _ _ _ HR) as (_ & [_ HS]%StronglySorted_inv & _)%sorted_app_lt. rewrite List.Forall_forall in HS. by apply HS, list_elem_of_In.
  - by rewrite (ed_data _ _ _ _ He2), (sb_data _ _ _ Hf1).
  - intros x [Hx1 Hx2]%not_elem_of_app. rewrite (ed_nodes _ _ _ _ He2), (sb_nodes _ _ _ Hf1); [done|done|].
    intros [->|Hx']%elem_of_cons; [|done]. apply Hx1. rewrite addrs_app. set_solver.
Qed.

Lemma data_distinct m l X e Y e' : Rep m l (X ++ e :: Y) -> e' ∈ X ++ Y -> e_data e' <> e_data e.
Proof.
  intros HR He' E. pose proof (rp_datas _ _ _ _ HR) as HD. pose proof (Datas_elem m _ e HD ltac:(set_solver)) as H1.
  pose proof (Datas_elem m _ e' HD ltac:(set_solver)) as H2. rewrite E, H1 in H2. injection H2 as Ek _.
  by apply (sorted_others compare_ X Y e e' (rp_sorted _ _ _ _ HR) He').
Qed.

Lemma move_keys_spec P R1 R2 : forall fuel m src skt c A, Moving m src P (R1 ++ R2) skt A c -> (length R1 <= fuel)%nat ->
  exists m' src' skt' c', move_keys compare_ fuel src skt c (e_data <$> head (R1 ++ R2)) (e_data <$> head R2) m = Some ((src', skt', c', e_data <$> head R2), m') /\
    Moving m' src' P R2 skt' (A ++ R1) c' /\ head_ src' = head_ src /\ head_ skt' = head_ skt /\ m_data m' = m_data m /\
    forall x, x ∉ addrs (head_ src) (P ++ R1) ++ addrs (head_ skt) A -> m_nodes m' !! x = m_nodes m !! x.
Proof.
  induction R1 as [|e R1 IH]; intros fuel m src skt c A HM Hf.
  - exists m, src, skt, c. rewrite app_nil_r. simpl in *. split; [|done]. destruct R2 as [|e R2]; [by destruct fuel|].
    destruct fuel; simpl; by rewrite bool_decide_true.
  - destruct fuel as [|fuel]; [simpl in Hf; lia|]. simpl in HM.
    destruct (move_one m src P e (R1 ++ R2) skt A c HM) as (m1 & c1 & m2 & c2 & c3 & Hs1 & Hs2 & Hs3 & HM2 & Hd2 & Hf2).
    destruct (IH fuel m2 (remove_list src) (append_list skt e) c3 (A ++ [e]) HM2) as (m' & src' & skt' & c' & Hs & HM' & Hh1 & Hh2 & Hd & Hfr); [simpl in Hf; lia|].
    exists m', src', skt', c'. split; [|split; [by rewrite <- app_assoc in HM'|split; [done|split; [done|split; [congruence|]]]]].
    + cbn [app head fmap option_fmap option_map move_keys]. rewrite bool_decide_false.
      * step Hs1. step Hs2. step Hs3. exact Hs.
      * destruct R2 as [|e2 R2]; [done|]. simpl. intros [= E]. pose proof (mv_src _ _ _ _ _ _ _ HM) as HR.
        apply (data_distinct m src P e (R1 ++ e2 :: R2) e2 HR); [set_solver|done].
    + intros x Hx. simpl in Hfr. rewrite Hfr, Hf2; [done|..].
      * rewrite !addrs_app in *. set_solver.
      * simpl. rewrite !addrs_app in *. simpl in *. set_solver.
Qed.

(** ** Distributing the keys *)

(** Consecutive ranges of keys: below the first begin key of [bs], and so on. *)
Fixpoint pieces (bs : list (list Z)) (R : list ent) : list (list ent) :=
  match bs with
  | [] => [R]
  | b :: bs => filter (fun e => compare_ (e_key e) b < 0) R :: pieces bs (filter (fun e => 0 <= compare_ (e_key e) b) R)
  end.

Definition add_first (A : list ent) (Ls : list (list ent)) : list (list ent) := match Ls with [] => [] | L :: Ls => (A ++ L) :: Ls end.

Definition stored (m : mem) (l : SkipList2) (L : list ent) : Prop := Rep m l L /\ Back m (head_ l) L.

(** The list that is split can be read forwards, and backwards if it could be
    before. *)
Definition kept (m : mem) (l : SkipList2) (L : list ent) : Prop := Rep m l L /\ (in_order -> Back m (head_ l) L).

Lemma stored_frame m m' l L : stored m l L -> m_data m' = m_data m -> (forall x, x ∈ addrs (head_ l) L -> m_nodes m' !! x = m_nodes m !! x) -> stored m' l L.
Proof. intros [HR HB] Hd Hn. split; [by apply (Rep_frame m)|by apply (Back_nodes m)]. Qed.

Lemma pieces_nil bs : pieces bs [] = replicate (S (length bs)) [].
Proof. induction bs as [|b bs IH]; [done|]. simpl. by rewrite !filter_nil, IH. Qed.

Lemma add_first_nil Ls : add_first [] Ls = Ls.
Proof. by destruct Ls. Qed.

Lemma filter_at b R1 R2 : Forall (lower b) R1 -> Forall (upper b) R2 ->
  filter (fun e => compare_ (e_key e) b < 0) (R1 ++ R2) = R1 /\ filter (fun e => 0 <= compare_ (e_key e) b) (R1 ++ R2) = R2.
Proof.
  intros H1 H2. rewrite !filter_app. unfold lower, upper in *.
  assert (E1 : filter (fun e => compare_ (e_key e) b < 0) R1 = R1) by (induction H1 as [|e R He _ IH]; [done|]; rewrite filter_cons_True by done; by rewrite IH).
  assert (E2 : filter (fun e => 0 <= compare_ (e_key e) b) R1 = []) by (clear E1; induction H1 as [|e R He _ IH]; [done|]; rewrite filter_cons_False by lia; done).
  assert (E3 : filter (fun e => compare_ (e_key e) b < 0) R2 = []) by (induction H2 as [|e R He _ IH]; [done|]; rewrite filter_cons_False by lia; done).
  assert (E4 : filter (fun e => 0 <= compare_ (e_key e) b) R2 = R2) by (clear E3; induction H2 as [|e R He _ IH]; [done|]; rewrite filter_cons_True by done; by rewrite IH).
  rewrite E1, E2, E3, E4. by rewrite app_nil_r.
Qed.

(** The sub-tables that are still to come are empty and apart. *)
Record Waiting (m : mem) (used : list positive) (rest : list (list Z * SkipList2)) : Prop := {
  wt_empty : Forall (fun t => stored m t.2 []) rest;
  wt_nodup : NoDup (map (fun t => head_ t.2) rest);
  wt_apart : forall t, t ∈ rest -> head_ t.2 ∉ used;
}.

(** The move to one sub-table, up to the begin key of the next. *)
Lemma split_one m src P R skt A c b skt' rest : Moving m src P R skt A c -> Waiting m (addrs (head_ src) (P ++ R) ++ addrs (head_ skt) A) ((b, skt') :: rest) ->
  Forall (lower b) P -> exists R1 R2 m1 src1 skt1 c1, R = R1 ++ R2 /\ Forall (lower b) R1 /\ Forall (upper b) R2 /\
    SearchGreaterOrEqual compare_ src b None m = Some ((e_data <$> head R2, None), m) /\
    move_keys compare_ (size (m_nodes m)) src skt c (e_data <$> head R) (e_data <$> head R2) m = Some ((src1, skt1, c1, e_data <$> head R2), m1) /\
    stored m1 skt1 (A ++ R1) /\ head_ skt1 = head_ skt /\ head_ src1 = head_ src /\ m_data m1 = m_data m /\
    (forall x, x ∉ addrs (head_ src) (P ++ R1) ++ addrs (head_ skt) A -> m_nodes m1 !! x = m_nodes m !! x) /\
    Moving m1 src1 P R2 skt' [] (InitSplitTarget skt' c1) /\ Waiting m1 (addrs (head_ src) (P ++ R2) ++ addrs (head_ skt') []) rest /\
    forall x, x ∈ addrs (head_ skt) (A ++ R1) -> x ∉ addrs (head_ src) (P ++ R2) ++ addrs (head_ skt') [] ++ map (fun t => head_ t.2) rest.
Proof.
  intros HM HW HP. pose proof (mv_src _ _ _ _ _ _ _ HM) as HR. pose proof (rp_sorted _ _ _ _ HR) as (_ & HS & _)%sorted_app_lt.
  destruct (split_at compare_ b R HS) as (R1 & R2 & -> & HR1 & HR2). exists R1, R2.
  destruct (move_keys_spec P R1 R2 (size (m_nodes m)) m src skt c A HM) as (m1 & src1 & skt1 & c1 & Hmv & HM1 & Hh1 & Hh2 & Hd & Hf).
  { pose proof (Chain_size m _ _ _ (rp_chain _ _ _ _ HR) (rp_nodup _ _ _ _ HR)) as Hsz. rewrite !length_app in Hsz. lia. }
  exists m1, src1, skt1, c1. split; [done|]. split; [done|]. split; [done|]. destruct HW as [[He Hes]%Forall_cons [Hn1 Hn2]%NoDup_cons Hap]. cbn [snd map] in Hn1, Hn2, He.
  pose proof (Hap (b, skt') (list_elem_of_here _ _)) as Hb. cbn [snd] in Hb.
  assert (Hsub : forall x, x ∈ addrs (head_ src) (P ++ R1) -> x ∈ addrs (head_ src) (P ++ R1 ++ R2)) by (intros x; rewrite !addrs_app, map_app; set_solver).
  assert (Hkeep : forall t, t ∈ (b, skt') :: rest -> m_nodes m1 !! head_ t.2 = m_nodes m !! head_ t.2).
  { intros t Ht. apply Hf. intros [Hx|Hx]%elem_of_app; apply (Hap t Ht), elem_of_app; [left; by apply Hsub|by right]. }
  split; [|split; [done|split; [|split; [done|split; [done|split; [done|split; [done|split; [|split]]]]]]]].
  - rewrite app_assoc in HR. rewrite (SearchGreaterOrEqual_spec compare_ m src ((P ++ R1) ++ R2) HR b).
    by rewrite (s_ge_split compare_ b (P ++ R1) R2) by (done || (apply Forall_app; done)).
  - split; apply HM1.
  - destruct HM1 as [G1 G2 G3 G4 G5 G6 G7 G8 G9]. split; try done.
    + apply (Rep_frame m); [apply He|done|]. intros x ->%list_elem_of_singleton. apply (Hkeep (b, skt')). left.
    + apply preds_head. by apply preds_length with (1 := G7).
    + intros x Hx ->%list_elem_of_singleton. rewrite Hh1 in Hx. apply Hb. rewrite !addrs_app, map_app in *. set_solver.
    + intros a b' Ha. by apply elem_of_nil in Ha.
  - split; [|done|].
    + apply Forall_forall. intros t Ht. rewrite Forall_forall in Hes. apply (stored_frame m); [by apply Hes|done|].
      intros x ->%list_elem_of_singleton. apply Hkeep. by right.
    + intros t Ht [Hx|Hx]%elem_of_app.
      * apply (Hap t ltac:(by right)). rewrite !addrs_app, map_app in *. set_solver.
      * apply list_elem_of_singleton in Hx. apply Hn1. rewrite <- Hx. apply list_elem_of_fmap. by exists t.
  - intros x Hx. pose proof (mv_dis _ _ _ _ _ _ _ HM1) as Hdis. rewrite Hh1, Hh2 in Hdis.
    assert (Hold : x ∈ addrs (head_ src) (P ++ R1 ++ R2) ++ addrs (head_ skt) A) by (rewrite !addrs_app, map_app in *; set_solver).
    intros [Hx'|[Hx'|Hx']%elem_of_app]%elem_of_app.
    + by apply (Hdis x Hx').
    + apply list_elem_of_singleton in Hx' as ->. apply (Hap (b, skt')); [left|done].
    + apply list_elem_of_fmap in Hx' as (t & -> & Ht). apply (Hap t); [by right|done].
Qed.

Lemma split_rest_spec P rest : forall m src skt c R A, Moving m src P R skt A c ->
  Waiting m (addrs (head_ src) (P ++ R) ++ addrs (head_ skt) A) rest -> Forall (fun t => Forall (lower t.1) P) rest ->
  exists m' src' done, split_rest compare_ src skt c (e_data <$> head R) rest m = Some ((src', done), m') /\ kept m' src' P /\
    Forall2 (stored m') done (add_first A (pieces (map fst rest) R)) /\ m_data m' = m_data m /\
    forall x, x ∉ addrs (head_ src) (P ++ R) ++ addrs (head_ skt) A ++ map (fun t => head_ t.2) rest -> m_nodes m' !! x = m_nodes m !! x.
Proof.
  induction rest as [|[b skt'] rest IH]; intros m src skt c R A HM HW HP.
  - rewrite <- (app_nil_r R) in HM. destruct (move_keys_spec P R [] (size (m_nodes m)) m src skt c A HM) as (m1 & src1 & skt1 & c1 & Hmv & HM1 & Hh1 & Hh2 & Hd & Hf).
    { pose proof (mv_src _ _ _ _ _ _ _ HM) as HR. pose proof (Chain_size m _ _ _ (rp_chain _ _ _ _ HR) (rp_nodup _ _ _ _ HR)) as Hsz. rewrite !length_app in Hsz. lia. }
    rewrite app_nil_r in Hmv. simpl head in Hmv. exists m1, src1, [skt1]. cbn [split_rest].
    split; [by rewrite (mbind_eq (fun m => move_keys compare_ (size (m_nodes m)) src skt c (e_data <$> head R) None m) _ m _ _ Hmv)|].
    destruct HM1 as [G1 G2 _ _ G5 G6 _ _ _]. rewrite app_nil_r in G1. split; [done|]. split; [constructor; [by split|constructor]|].
    split; [done|]. intros x Hx. apply Hf. simpl in Hx. by rewrite app_nil_r in Hx.
  - apply Forall_cons in HP as [HPb HP]. destruct (head R) as [r|] eqn:HR.
    2: { destruct R; [|done]. exists m, src, (skt :: skt' :: map snd rest). split; [done|]. destruct HM as [G1 G2 _ _ G5 G6 _ _ _].
      rewrite app_nil_r in G1. split; [by split|]. split; [|done]. simpl. rewrite filter_nil, !app_nil_r, pieces_nil.
      destruct HW as [[He Hes]%Forall_cons _ _]. constructor; [by split|]. simpl. constructor; [done|].
      clear -Hes. induction Hes as [|t rest Ht _ IH]; simpl; constructor; done. }
    destruct (split_one m src P R skt A c b skt' rest HM HW HPb) as (R1 & R2 & m1 & src1 & skt1 & c1 & -> & HR1 & HR2 & Hse & Hmv & Hst & Hh2 & Hh1 & Hd & Hf & HM1 & HW1 & Hap).
    destruct (IH m1 src1 skt' (InitSplitTarget skt' c1) R2 [] HM1 ltac:(by rewrite Hh1) HP) as (m2 & src2 & done2 & Hsp & Hsrc & Hall & Hd2 & Hf2).
    exists m2, src2, (skt1 :: done2). rewrite HR in Hmv. cbn [split_rest fmap option_fmap option_map].
    split; [step Hse; rewrite (mbind_eq (fun m => move_keys compare_ (size (m_nodes m)) src skt c (Some (e_data r)) (e_data <$> head R2) m) _ m _ _ Hmv); by step Hsp|]. split; [done|]. split; [|split; [congruence|]].
    + simpl. destruct (filter_at b R1 R2 HR1 HR2) as [-> ->]. rewrite add_first_nil in Hall. constructor; [|done].
      apply (stored_frame m1); [done|done|]. rewrite Hh2. intros x Hx. apply Hf2. rewrite Hh1. by apply Hap.
    + intros x Hx. rewrite Hf2, Hf; [done|..]; rewrite ?Hh1; rewrite !addrs_app, ?map_app in *; simpl in *; set_solver.
Qed.

Lemma split_rest_none src skt c rest m : split_rest compare_ src skt c None rest m = Some ((src, skt :: map snd rest), m).
Proof. destruct rest as [|[b skt'] rest]; simpl; [|done]. unfold mbind, MM_bind. simpl. by destruct (size (m_nodes m)). Qed.

Lemma Waiting_stored m u rest : Waiting m u rest -> Forall2 (stored m) (map snd rest) (replicate (length (map fst rest)) []).
Proof. intros [H1 _ _]. induction H1 as [|t rest Ht _ IH]; simpl; by constructor. Qed.

Lemma begin_moving m src skt P R b rest : kept m src (P ++ R) -> Waiting m (addrs (head_ src) (P ++ R)) ((b, skt) :: rest) -> R <> [] ->
  let c := found_ctx src (InitSplitTarget skt NewSLSplitCtx) P R in
  Moving m src P R skt [] c /\ Waiting m (addrs (head_ src) (P ++ R) ++ addrs (head_ skt) []) rest.
Proof.
  intros [HR HB] [[[Hs _] Hes]%Forall_cons [Hn1 Hn2]%NoDup_cons Hap] Hne. unfold found_ctx. destruct R as [|e R]; [done|]. split; split; try done.
  - intros Hio. by apply HB, Back_app in Hio as [? _].
  - by apply (ctx_prev_ok m _ _ (e :: R)).
  - by apply preds_head.
  - intros x Hx ->%list_elem_of_singleton. by apply (Hap (b, skt) ltac:(left)).
  - intros a b' Ha. by apply elem_of_nil in Ha.
  - intros t Ht [Hx|Hx]%elem_of_app; [by apply (Hap t ltac:(by right))|].
    apply list_elem_of_singleton in Hx. apply Hn1. cbn [snd]. rewrite <- Hx. apply list_elem_of_fmap. by exists t.
Qed.

Lemma lower_trans b b' P : Forall (lower b) P -> compare_ b b' < 0 -> Forall (lower b') P.
Proof. intros HP Hb. eapply Forall_impl; [exact HP|]. unfold SkipListOps.lower. simpl. intros e He.
  apply (compare_lt_le compare_ _ b); [done|lia].
Qed.

Lemma split_keymap_spec m src L skts : kept m src L -> Waiting m (addrs (head_ src) L) skts ->
  StronglySorted (fun a b => compare_ a b < 0) (map fst skts) ->
  exists m' src' done, split_keymap compare_ src skts m = Some ((src', done), m') /\
    exists P Ps, pieces (map fst skts) L = P :: Ps /\ kept m' src' P /\ Forall2 (stored m') done Ps.
Proof.
  intros Hst HW HS. destruct skts as [|[b skt] rest]; [exists m, src, []; split; [done|]; by exists L, []|].
  pose proof (proj1 Hst) as HR. destruct (split_at compare_ b L (rp_sorted _ _ _ _ HR)) as (P & R & -> & HP & HRb). cbn [split_keymap].
  step (search_ctx m src P R b (InitSplitTarget skt NewSLSplitCtx) HR HP HRb). cbn [default id map fst pieces].
  destruct (filter_at b P R HP HRb) as [-> ->]. apply StronglySorted_inv in HS as [_ HS]. destruct (decide (R = [])) as [->|Hne].
  - exists m, src, (skt :: map snd rest). simpl. rewrite split_rest_none, pieces_nil. split; [done|]. eexists P, _. split; [done|].
    split; [by rewrite app_nil_r in Hst|]. exact (Waiting_stored _ _ _ HW).
  - destruct (begin_moving m src skt P R b rest Hst HW Hne) as [HM HW'].
    assert (HPr : Forall (fun t => Forall (lower t.1) P) rest).
    { apply Forall_forall. intros t Ht. apply (lower_trans b); [done|]. rewrite List.Forall_forall in HS. by apply HS, in_map, list_elem_of_In. }
    destruct (split_rest_spec P rest m src skt _ R [] HM HW' HPr) as (m' & src' & done & Hsp & Hsrc & Hall & _).
    exists m', src', done. split; [done|]. rewrite add_first_nil in Hall. by eexists P, _.
Qed.

(** ** Reading a list *)

Fixpoint scan (fuel : nat) (l : SkipList2) (uk : option positive) : MM (list (list Z * positive)) :=
  match uk, fuel with
  | None, _ => mret []
  | Some _, O => fault
  | Some d, S fuel => key ← GetKeySlice d; '(uk, _) ← Next compare_ l (Some d) None; r ← scan fuel l uk; mret ((key, d) :: r)
  end.

Fixpoint scan_back (fuel : nat) (l : SkipList2) (uk : option positive) : MM (list (list Z * positive)) :=
  match uk, fuel with
  | None, _ => mret []
  | Some _, O => fault
  | Some d, S fuel => key ← GetKeySlice d; uk ← Prev compare_ l (Some d); r ← scan_back fuel l uk; mret ((key, d) :: r)
  end.

(** All keys from the first to the last, and from the last to the first. *)
Definition contents (l : SkipList2) : MM (list (list Z * positive) * list (list Z * positive)) := fun m =>
  ('(first, _) ← First l None; up ← scan (size (m_nodes m)) l first;
   last ← Last l; down ← scan_back (size (m_nodes m)) l last; mret (up, down)) m.

Lemma scan_spec m l B : forall fuel A, Rep m l (A ++ B) -> (length B <= fuel)%nat -> scan fuel l (e_data <$> head B) m = Some (view B, m).
Proof.
  induction B as [|e B IH]; intros fuel A HR Hf; [by destruct fuel|]. destruct fuel as [|fuel]; [simpl in Hf; lia|]. cbn [head fmap option_fmap option_map scan].
  step (GetKeySlice_eq m e (A ++ e :: B) (rp_datas _ _ _ _ HR) ltac:(set_solver)).
  step (Next_spec compare_ m l (A ++ e :: B) HR e ltac:(set_solver)). rewrite (s_gt_entry compare_ m l _ HR A e B eq_refl).
  assert (HR' : Rep m l ((A ++ [e]) ++ B)) by (by rewrite <- app_assoc). step (IH fuel (A ++ [e]) HR' ltac:(simpl in Hf; lia)). done.
Qed.

Lemma scan_back_spec m l A : forall fuel B, Rep m l (A ++ B) -> Back m (head_ l) (A ++ B) -> (length A <= fuel)%nat ->
  scan_back fuel l (e_data <$> last A) m = Some (reverse (view A), m).
Proof.
  induction A as [|e A IH] using rev_ind; intros fuel B HR HB Hf; [by destruct fuel|]. rewrite length_app in Hf.
  destruct fuel as [|fuel]; [simpl in Hf; lia|]. rewrite last_snoc. rewrite <- app_assoc in HR, HB. cbn [fmap option_fmap option_map scan_back].
  step (GetKeySlice_eq m e (A ++ [e] ++ B) (rp_datas _ _ _ _ HR) ltac:(set_solver)).
  step (Prev_spec compare_ m l (A ++ [e] ++ B) HR e HB ltac:(set_solver)). rewrite (s_lt_entry compare_ m l _ HR A e B eq_refl).
  step (IH fuel ([e] ++ B) HR HB ltac:(simpl in Hf; lia)). unfold view. by rewrite map_app, reverse_app.
Qed.

Lemma contents_spec m l L : stored m l L -> contents l m = Some ((view L, reverse (view L)), m).
Proof.
  intros [HR HB]. pose proof (Chain_size m _ _ _ (rp_chain _ _ _ _ HR) (rp_nodup _ _ _ _ HR)) as Hsz. unfold contents.
  step (First_spec compare_ m l L HR). rewrite view_head. step (scan_spec m l L (size (m_nodes m)) [] HR ltac:(lia)).
  step (Last_spec compare_ m l L HR). rewrite view_last. rewrite <- (app_nil_r L) in HR, HB.
  by step (scan_back_spec m l L (size (m_nodes m)) [] HR HB ltac:(lia)).
Qed.

(** ** A key map and its split *)

Fixpoint new_lists (n : nat) : MM (list SkipList2) :=
  match n with O => mret [] | S n => l ← NewSkipList2; ls ← new_lists n; mret (l :: ls) end.

Fixpoint all_contents (ls : list SkipList2) : MM (list (list (list Z * positive) * list (list Z * positive))) :=
  match ls with [] => mret [] | l :: ls => c ← contents l; cs ← all_contents ls; mret (c :: cs) end.

Fixpoint s_pieces (bs : list (list Z)) (ps : list (list Z * positive)) : list (list (list Z * positive)) :=
  match bs with
  | [] => [ps]
  | b :: bs => filter (fun p => compare_ p.1 b < 0) ps :: s_pieces bs (filter (fun p => 0 <= compare_ p.1 b) ps)
  end.

Lemma view_pieces bs : forall L, map view (pieces bs L) = s_pieces bs (view L).
Proof.
  induction bs as [|b bs IH]; intros L; [done|]. cbn [pieces s_pieces map]. rewrite IH.
  assert (Hf : forall (P : list Z -> Prop) `{!forall k, Decision (P k)} (L : list ent), view (filter (fun e => P (e_key e)) L) = filter (fun p => P p.1) (view L)).
  { clear. intros P HP L. induction L as [|e L IH]; [done|]. cbn [view map]. rewrite !filter_cons. simpl. case_decide; simpl; by rewrite IH. }
  f_equal; [apply (Hf (fun k => compare_ k b < 0) (fun k => decide_rel Z.lt (compare_ k b) 0))|].
  f_equal. apply (Hf (fun k => 0 <= compare_ k b) (fun k => decide_rel Z.le 0 (compare_ k b))).
Qed.

Lemma all_contents_spec m ls Ls : Forall2 (stored m) ls Ls -> all_contents ls m = Some (map (fun L => (view L, reverse (view L))) Ls, m).
Proof. induction 1 as [|l L ls Ls Hl _ IH]; [done|]. cbn [all_contents]. step (contents_spec m l L Hl). by step IH. Qed.

Lemma new_lists_spec n : forall m used, (forall x, x ∈ used -> is_Some (m_nodes m !! x)) -> exists ls m', new_lists n m = Some (ls, m') /\ length ls = n /\
  m_data m' = m_data m /\ (forall x, x ∈ used -> m_nodes m' !! x = m_nodes m !! x) /\ forall bs, length bs = n -> Waiting m' used (zip bs ls).
Proof.
  induction n as [|n IH]; intros m used Hu.
  { exists [], m. split; [done|]. split; [done|]. split; [done|]. split; [done|]. intros [|] ?; [|done]. split; [done|constructor|]. intros t Ht. by apply elem_of_nil in Ht. }
  destruct (NewSkipList2_spec compare_ m) as (l & m1 & Hnew & HR & Hd & Hfr & Hrest).
  assert (Hl : forall x, x ∈ used -> x <> head_ l) by (intros x [? Hx]%Hu ->; congruence).
  assert (Hu1 : forall x, x ∈ head_ l :: used -> is_Some (m_nodes m1 !! x)).
  { intros x [->|Hx]%elem_of_cons; [|rewrite Hrest; auto]. apply (Chain_alloc m1 _ _ _ _ (rp_chain _ _ _ _ HR)). left. }
  destruct (IH m1 (head_ l :: used) Hu1) as (ls & m2 & Hls & Hlen & Hd2 & Hk2 & HW). exists (l :: ls), m2. cbn [new_lists].
  split; [step Hnew; by step Hls|]. split; [simpl; by rewrite Hlen|]. split; [congruence|]. split; [intros x Hx; rewrite Hk2, Hrest; auto; by right|].
  intros [|b bs] [= Hbs]. destruct (HW bs Hbs) as [W1 W2 W3]. simpl. split.
  - constructor; [|done]. apply (stored_frame m1); [by split|done|]. intros x ->%list_elem_of_singleton. apply Hk2. left.
  - simpl. constructor; [|done]. intros (t & E & Ht)%list_elem_of_fmap. apply (W3 t Ht). rewrite <- E. left.
  - intros t [->|Ht]%elem_of_cons; [|specialize (W3 t Ht); set_solver]. simpl. intros Hx. by apply (Hl _ Hx).
Qed.

End Context.
