(* ===== verification/SkipListEvict.v ===== *)
(** * Evicting keys from a skip list

    The walk that removes the clean keys of a key map ([EvictCleanUserKeyFromKeymap],
    sktable.cc) with the current node of a context, what it leaves behind, and the
    split of the key map that follows it at the end of a flush. *)

From Stdlib Require Import ZArith Lia Bool Sorted.
From stdpp Require Import base gmap list fin_maps.
From S2P Require Import Prelude Slices Random SkipList2 SkipListInv SkipListOps SkipListEdit SkipListMap SkipListSplit.

(** The keys that stay, whether one was evicted and whether one was busy. *)
Fixpoint s_evict (busy : positive -> bool) (cache_evict : bool) (ps : list (list Z * positive)) : list (list Z * positive) * bool * bool :=
  match ps with
  | [] => ([], false, false)
  | p :: ps' =>
      if busy p.2 then
        if cache_evict then let '(kept, evicted, _) := s_evict busy cache_evict ps' in (p :: kept, evicted, true) else (p :: ps', false, true)
      else let '(kept, _, referenced) := s_evict busy cache_evict ps' in (kept, true, referenced)
  end.

Section Evict.
  Context `{Malloc}.
  Variable compare_ : list Z -> list Z -> Z.
  Context `{!KeyOrder compare_}.
  Local Abbreviation Rep := (Rep compare_).

Lemma Rep_agree m m' l L : Rep m l L -> (forall x, x ∈ addrs (head_ l) L -> m_nodes m' !! x = m_nodes m !! x) ->
  (forall e, e ∈ L -> m_data m' !! e_data e = m_data m !! e_data e) -> Rep m' l L.
Proof.
  intros HR Hn Hd. destruct HR as [HC HD]. split; try done; [by apply (Chain_frame m)|]. unfold Datas in *. rewrite Forall_forall in *.
  intros e He. rewrite (Hd e He). by apply HD.
Qed.

(** The walk is at the first entry of [R]. *)
Record Walk (m : mem) (l : SkipList2) (P R : list ent) (c : SLSplitCtx) : Prop := {
  wk_rep : Rep m l (P ++ R);
  wk_preds : R <> [] -> preds_ok (head_ l) P (src_prev c);
  wk_cur : R <> [] -> src_cur_node c = e_at <$> head R;
}.

(** What is gone: the nodes and the objects of [G]. *)
Record Freed (m : mem) (l : SkipList2) (L G : list ent) (m' : mem) : Prop := {
  fr_gone : forall e, e ∈ G -> m_nodes m' !! e_at e = None;
  fr_frame : forall x, x ∉ addrs (head_ l) L -> m_nodes m' !! x = m_nodes m !! x;
  fr_data : forall d, m_data m' !! d = if decide (d ∈ map e_data G) then None else m_data m !! d;
}.

Lemma evict_one m l P e R c : Walk m l P (e :: R) c -> exists m1 c1 m2 m3 m' c',
  RemoveCtx l c m = Some ((Some (e_data e), remove_list l, c1), m1) /\ src_cur_del_node c1 = Some (e_at e) /\
  free (e_at e) m1 = Some (tt, m2) /\ SetNode (e_data e) None m2 = Some (tt, m3) /\ FreeUserKey (e_data e) m3 = Some (tt, m') /\
  Next compare_ (remove_list l) None (Some (c1 <| src_cur_del_node := None |>)) m' = Some ((e_data <$> head R, Some c'), m') /\
  Walk m' (remove_list l) P R c' /\ m_nodes m' !! e_at e = None /\ m_data m' = delete (e_data e) (m_data m) /\
  forall x, x ∉ addrs (head_ l) (P ++ [e]) -> m_nodes m' !! x = m_nodes m !! x.
Proof.
  intros [HR Hp Hc]. specialize (Hp ltac:(done)). specialize (Hc ltac:(done)).
  destruct (RemoveCtx_spec compare_ m l P e R c HR Hp Hc) as (pv & m1 & Hrm & HR1 & Ho & Hf).
  pose proof (rp_nodup _ _ _ _ HR) as Hnd. rewrite addrs_cons in Hnd. apply NoDup_cons in Hnd as [Hex _].
  pose proof (Datas_elem m _ e (rp_datas _ _ _ _ HR) ltac:(set_solver)) as Hde.
  set (m2 := m1 <| m_nodes ::= delete (e_at e) |>).
  set (m3 := m2 <| m_data ::= <[e_data e := {| sd_key := e_key e; sd_node := None |}]> |>).
  set (m4 := m3 <| m_data ::= delete (e_data e) |>).
  assert (H1 : free (e_at e) m1 = Some (tt, m2)) by (unfold free, mbind, option_bind; unfold own in Ho; by rewrite Ho).
  assert (H2 : SetNode (e_data e) None m2 = Some (tt, m3)) by (unfold SetNode, mbind, option_bind; simpl; by rewrite (sb_data _ _ _ Hf), Hde).
  assert (H3 : FreeUserKey (e_data e) m3 = Some (tt, m4)) by (unfold FreeUserKey, mbind, option_bind; simpl; by rewrite lookup_insert_eq).
  assert (Hd4 : m_data m4 = delete (e_data e) (m_data m)) by (simpl; by rewrite delete_insert_eq, (sb_data _ _ _ Hf)).
  assert (HR4 : Rep m4 (remove_list l) (P ++ R)).
  { apply (Rep_agree m1); [done|..].
    - intros x Hx. simpl in *. rewrite lookup_delete_ne; [done|]. intros <-. done.
    - intros e' He'. rewrite Hd4, (sb_data _ _ _ Hf), lookup_delete_ne; [done|]. symmetry. by apply (data_distinct compare_ m l P e R). }
  exists m1, (removed_ctx c e), m2, m3, m4, ((removed_ctx c e) <| src_cur_del_node := None |> <| src_cur_node := e_at <$> head R |>).
  split; [done|]. split; [done|]. split; [done|]. split; [done|]. split; [done|].
  split; [by apply (next_after_remove compare_ m4 (remove_list l) P R)|].
  split; [done|]. split; [simpl; apply lookup_delete_eq|]. split; [done|].
  intros x Hx. simpl. rewrite lookup_delete_ne, (sb_nodes _ _ _ Hf); [done|done|]. intros <-. apply Hx. rewrite addrs_app. set_solver.
Qed.

Lemma freed_cons m m2 m' l l' P e R G : NoDup (addrs (head_ l) (P ++ e :: R)) -> head_ l' = head_ l ->
  m_nodes m2 !! e_at e = None -> m_data m2 = delete (e_data e) (m_data m) ->
  (forall x, x ∉ addrs (head_ l) (P ++ [e]) -> m_nodes m2 !! x = m_nodes m !! x) -> Freed m2 l' (P ++ R) G m' -> Freed m l (P ++ e :: R) (e :: G) m'.
Proof.
  intros Hnd Hh Hg Hd Hfr [F1 F2 F3]. rewrite addrs_cons in Hnd. apply NoDup_cons in Hnd as [Hex _]. rewrite Hh in F2. split.
  - intros e' [->|He']%elem_of_cons; [by rewrite F2|by apply F1].
  - intros x Hx. rewrite addrs_cons in Hx. rewrite F2 by set_solver. apply Hfr. rewrite addrs_app in *. set_solver.
  - intros d. rewrite F3, Hd. simpl. destruct (decide (d = e_data e)) as [->|Hne].
    + rewrite lookup_delete_eq. rewrite (decide_True _ _ (list_elem_of_here _ _)). by case_decide.
    + rewrite lookup_delete_ne by done. destruct (decide (d ∈ map e_data G)); [rewrite decide_True by (by right)|rewrite decide_False by set_solver]; done.
Qed.

Lemma first_ctx m l L : Rep m l L -> exists c, First l (Some NewSLSplitCtx) m = Some ((e_data <$> head L, c), m) /\ Walk m l [] L (default NewSLSplitCtx c).
Proof.
  intros HR. unfold First. step (head_next compare_ m l L HR). destruct L as [|e L]; [by exists (Some NewSLSplitCtx)|].
  cbn [head fmap option_fmap option_map]. step (data_eq compare_ m l (e :: L) HR e ltac:(left)). eexists. split; [done|].
  split; [done| |done]. intros _. by apply preds_head.
Qed.

Lemma evict_loop_spec busy cache_evict R : forall fuel m l P c ev rf, Walk m l P R c -> (length R <= fuel)%nat ->
  exists l' K G m' kept ev' rf', evict_loop compare_ fuel busy cache_evict l c (e_data <$> head R) ev rf m = Some ((l', ev || ev', rf || rf'), m') /\
    s_evict busy cache_evict (view R) = (kept, ev', rf') /\ view K = kept /\ R ≡ₚ G ++ K /\ Rep m' l' (P ++ K) /\ head_ l' = head_ l /\
    Freed m l (P ++ R) G m' /\ (ev' = false -> l' = l /\ m' = m /\ K = R).
Proof.
  induction R as [|e R IH]; intros fuel m l P c ev rf HW Hf.
  { exists l, [], [], m, [], false, false. rewrite !orb_false_r. split; [by destruct fuel|]. repeat (split; [done|]). split; [apply HW|]. split; [done|].
    split; [|done]. split; [intros e He; by apply elem_of_nil in He|done|]. intros d. rewrite decide_False; [done|apply not_elem_of_nil]. }
  destruct fuel as [|fuel]; [simpl in Hf; lia|]. cbn [head fmap option_fmap option_map evict_loop view map s_evict snd].
  destruct (busy (e_data e)) eqn:Hb; [destruct cache_evict eqn:Hce|].
  - destruct HW as [HR Hp Hc]. destruct (next_over compare_ m l P e R c HR (Hp ltac:(done)) (Hc ltac:(done))) as (c' & Hn & Hc').
    assert (HW' : Walk m l (P ++ [e]) R c') by (split; [by rewrite <- app_assoc| |]; intros HRne; by apply Hc').
    destruct (IH fuel m l (P ++ [e]) c' ev true HW' ltac:(simpl in Hf; lia)) as (l' & K & G & m' & kept & ev' & rf' & Hrun & Hs & Hv & HP & HR' & Hh & HF & Hno).
    exists l', (e :: K), G, m', ((e_key e, e_data e) :: kept), ev', true. split; [cbn [negb]; step Hn; simpl; rewrite Hrun; by destruct rf|].
    fold (view R). rewrite Hs. split; [done|]. split; [simpl; by rewrite Hv|]. split; [rewrite HP; apply Permutation_middle|].
    rewrite <- app_assoc in HR', HF. split; [done|]. split; [done|]. split; [done|]. intros E. destruct (Hno E) as (-> & -> & ->). done.
  - exists l, (e :: R), [], m, (view (e :: R)), false, true. split; [simpl; by destruct ev, rf|]. repeat (split; [done|]). split; [apply HW|]. split; [done|].
    split; [|done]. split; [intros e' He; by apply elem_of_nil in He|done|]. intros d. rewrite decide_False; [done|apply not_elem_of_nil].
  - destruct (evict_one m l P e R c HW) as (m1 & c1 & m1' & m1'' & m2 & c2 & Hrm & Hdel & Hfree & Hsn & Hfu & Hn & HW2 & Hg & Hd & Hfr).
    destruct (IH fuel m2 (remove_list l) P c2 true rf HW2 ltac:(simpl in Hf; lia)) as (l' & K & G & m' & kept & ev' & rf' & Hrun & Hs & Hv & HP & HR' & Hh & HF & _).
    exists l', K, (e :: G), m', kept, true, rf'. split; [|fold (view R); rewrite Hs; split; [done|split; [done|split; [by rewrite HP|split; [done|split; [done|]]]]]].
    + step Hrm. unfold mbind at 1, MM_bind, lift. simpl. rewrite Hdel. step Hfree. step Hsn. step Hfu. step Hn. simpl. rewrite Hrun. by destruct ev.
    + split; [|done]. apply (freed_cons m m2 m' l (remove_list l)); try done. apply (rp_nodup _ _ _ _ (wk_rep _ _ _ _ _ HW)).
Qed.

Lemma evict_spec busy cache_evict m l L : Rep m l L -> exists l' K G m' kept ev rf,
  evict_keymap compare_ busy cache_evict l m = Some ((l', ev, rf), m') /\ s_evict busy cache_evict (view L) = (kept, ev, rf) /\
  view K = kept /\ L ≡ₚ G ++ K /\ Rep m' l' K /\ head_ l' = head_ l /\ Freed m l L G m' /\
  (ev = false -> l' = l /\ m' = m /\ K = L).
Proof.
  intros HR. pose proof (Chain_size m _ _ _ (rp_chain _ _ _ _ HR) (rp_nodup _ _ _ _ HR)) as Hsz. unfold evict_keymap.
  destruct (first_ctx m l L HR) as (c & Hfi & HW). step Hfi.
  destruct (evict_loop_spec busy cache_evict L (size (m_nodes m)) m l [] (default NewSLSplitCtx c) false false HW ltac:(lia)) as (l' & K & G & m' & kept & ev & rf & Hx).
  by exists l', K, G, m', kept, ev, rf.
Qed.

(** ** A key map and its eviction *)

(** A list, what was done to it, the eviction, the keys that are left, the destructor. *)
Definition evict_run (os : list op) (busy : positive -> bool) (cache_evict : bool) : MM (list (list Z * positive) * bool * bool) :=
  l ← NewSkipList2;
  '(_, l) ← exec_all compare_ l os;
  '(l, evicted, referenced) ← evict_keymap compare_ busy cache_evict l;
  '(first, _) ← First l None;
  kept ← (fun m => scan compare_ (size (m_nodes m)) l first m);
  _ ← DestroySkipList2 l;
  mret (kept, evicted, referenced).

(** The objects that an eviction leaves. *)
Definition s_left (busy : positive -> bool) (cache_evict : bool) (ps : list (list Z * positive)) (dm : gmap positive (list Z)) : gmap positive (list Z) :=
  filter (fun p => p.1 ∉ map snd ps \/ p.1 ∈ map snd (fst (fst (s_evict busy cache_evict ps)))) dm.

Lemma left_spec busy cache_evict dm L G K kept ev rf d : s_evict busy cache_evict (view L) = (kept, ev, rf) -> view K = kept -> L ≡ₚ G ++ K -> NoDup (map e_data L) ->
  s_left busy cache_evict (view L) dm !! d = if decide (d ∈ map e_data G) then None else dm !! d.
Proof.
  intros Hs Hv HP Hnd. unfold s_left. rewrite Hs. simpl. rewrite <- Hv, !view_data.
  assert (HL : map e_data L ≡ₚ map e_data G ++ map e_data K) by (rewrite HP, map_app; done).
  rewrite HL in Hnd. apply NoDup_app in Hnd as (_ & Hdis & _).
  assert (Hiff : (d ∉ map e_data L \/ d ∈ map e_data K) <-> d ∉ map e_data G) by (rewrite HL, elem_of_app; specialize (Hdis d); destruct (decide (d ∈ map e_data K)); tauto).
  destruct (decide (d ∈ map e_data G)) as [HG|HG].
  - apply map_lookup_filter_None_2. right. intros k _. cbn [fst]. tauto.
  - destruct (dm !! d) as [k|] eqn:Hd; [|apply map_lookup_filter_None_2; by left]. apply map_lookup_filter_Some_2; [done|]. cbn [fst]. tauto.
Qed.

Lemma datas_nodup m l L : Rep m l L -> NoDup (map e_data L).
Proof.
  intros HR. pose proof (rp_nodup _ _ _ _ HR) as [_ Hnd]%NoDup_cons. pose proof (rp_datas _ _ _ _ HR) as HD. unfold Datas in HD. clear HR.
  induction L as [|e L IH]; [constructor|]. apply NoDup_cons in Hnd as [Hex Hnd]. apply Forall_cons in HD as [He HD]. constructor; [|by apply IH].
  intros (e' & E & He')%list_elem_of_fmap. apply Hex. rewrite Forall_forall in HD. specialize (HD e' He'). rewrite <- E, He in HD. injection HD as _ ->.
  apply list_elem_of_fmap. by exists e'.
Qed.

Lemma evict_run_spec dm h0 os busy cache_evict : Forall (op_ok dm) os ->
  let ps := spec_final compare_ dm [] os in
  evict_run os busy cache_evict (start_mem dm h0) = Some (s_evict busy cache_evict ps, start_mem (s_left busy cache_evict ps dm) h0).
Proof.
  intros Hos ps. destruct (start_spec compare_ dm h0) as (l & m1 & Hnew & HI).
  destruct (exec_all_spec compare_ dm h0 os m1 l [] HI Hos) as (l2 & L2 & m2 & Hrun & HI2 & Hv). pose proof (li_rep _ _ _ _ _ _ HI2) as HR.
  destruct (evict_spec busy cache_evict m2 l2 L2 HR) as (l3 & K & G & m3 & kept & ev & rf & Hev & Hs & Hk & HP & HR3 & Hh & HF & _).
  pose proof (Chain_size m3 _ _ _ (rp_chain _ _ _ _ HR3) (rp_nodup _ _ _ _ HR3)) as Hsz.
  destruct (Destroy_spec compare_ m3 l3 K HR3) as (m4 & Hdes & Hn4 & Hd4). unfold evict_run. step Hnew. step Hrun. step Hev. step (First_spec compare_ m3 l3 K HR3).
  rewrite view_head. rewrite (mbind_eq (fun m => scan compare_ (size (m_nodes m)) l3 (e_data <$> head K) m) _ _ _ _ (scan_spec compare_ m3 l3 K (size (m_nodes m3)) [] HR3 ltac:(lia))).
  step Hdes. unfold ps. change (spec_final compare_ dm [] os) with (spec_final compare_ dm (view []) os). rewrite <- Hv, Hs, Hk. simpl.
  assert (Hm : m4 = start_mem (s_left busy cache_evict (view L2) dm) h0); [|by rewrite Hm].
  destruct m4 as [n4 d4]. simpl in Hn4, Hd4. unfold start_mem. f_equal; apply map_eq.
  - intros x. rewrite Hn4. destruct (decide (x ∈ addrs (head_ l2) L2)) as [Hx|Hx].
    + rewrite (li_own _ _ _ _ _ _ HI2 x Hx). case_decide as Hx3; [done|]. rewrite Hh in Hx3. apply elem_of_cons in Hx as [->|Hx]; [destruct Hx3; left|].
      apply list_elem_of_fmap in Hx as (e & -> & He). rewrite HP in He. apply elem_of_app in He as [He|He]; [by apply (fr_gone _ _ _ _ _ HF)|].
      destruct Hx3. right. apply list_elem_of_fmap. by exists e.
    + rewrite <- (li_rest _ _ _ _ _ _ HI2 x Hx), <- (fr_frame _ _ _ _ _ HF x Hx). rewrite decide_False; [done|]. rewrite Hh. intros Hx3. apply Hx.
      apply elem_of_cons in Hx3 as [->|Hx3]; [left|right]. rewrite HP, map_app. apply elem_of_app. by right.
  - intros d. rewrite Hd4, lookup_fmap, (left_spec busy cache_evict dm L2 G K kept ev rf d Hs Hk HP (datas_nodup m2 l2 L2 HR)), (fr_data _ _ _ _ _ HF d).
    destruct (decide (d ∈ map e_data G)) as [HG|HG]; [by simpl; repeat case_decide|]. rewrite <- (li_keys _ _ _ _ _ _ HI2), lookup_fmap. destruct (m_data m2 !! d) as [s|] eqn:Hsd; [|done]. simpl. f_equal.
    case_decide as HK; [done|]. pose proof (li_free _ _ _ _ _ _ HI2 d s Hsd) as Hn. rewrite HP, map_app in Hn.
    destruct s as [k n]. simpl in *. rewrite Hn; [done|]. rewrite elem_of_app. tauto.
Qed.

(** ** The end of a flush *)

(** A key map and what was done to it, the new lists of the sub-tables, the
    eviction, the split, and what is read then: the table's keys upwards, and
    downwards unless a key was evicted, and each sub-table's in both directions. *)
Definition flush_run (os : list op) (busy : positive -> bool) (cache_evict : bool) (bs : list (list Z))
    : MM (list (list Z * positive) * option (list (list Z * positive)) * list (list (list Z * positive) * list (list Z * positive))) :=
  l ← NewSkipList2;
  '(_, l) ← exec_all compare_ l os;
  ls ← new_lists (length bs);
  '(l, evicted, _) ← evict_keymap compare_ busy cache_evict l;
  '(l, ls) ← split_keymap compare_ l (zip bs ls);
  '(first, _) ← First l None;
  up ← (fun m => scan compare_ (size (m_nodes m)) l first m);
  down ← (if evicted : bool then mret None else '(_, d) ← contents compare_ l; mret (Some d));
  subs ← all_contents compare_ ls;
  mret (up, down, subs).

(** What an eviction takes away does not touch the lists of the sub-tables. *)
Lemma Waiting_evict m l L G m' rest : Waiting compare_ m (addrs (head_ l) L) rest -> Freed m l L G m' ->
  forall K, L ≡ₚ G ++ K -> Waiting compare_ m' (addrs (head_ l) K) rest.
Proof.
  intros [W1 W2 W3] HF K HP. split; [|done|].
  - rewrite Forall_forall in *. intros t Ht. destruct (W1 t Ht) as [HR _]. split; [|done]. apply (Rep_agree m); [done| |].
    + intros x ->%list_elem_of_singleton. apply (fr_frame _ _ _ _ _ HF), W3, Ht.
    + intros e He. by apply elem_of_nil in He.
  - intros t Ht Hx. apply (W3 t Ht). apply elem_of_cons in Hx as [->|Hx]; [left|right]. rewrite HP, map_app. apply elem_of_app. by right.
Qed.

Lemma flush_run_spec dm h0 os busy cache_evict bs : Forall (op_ok dm) os -> StronglySorted (fun a b => compare_ a b < 0) bs ->
  exists kept evicted referenced main subs m, s_evict busy cache_evict (spec_final compare_ dm [] os) = (kept, evicted, referenced) /\
    s_pieces compare_ bs kept = main :: subs /\
    flush_run os busy cache_evict bs (start_mem dm h0) =
      Some ((main, if evicted then None else Some (reverse main), map (fun ps => (ps, reverse ps)) subs), m).
Proof.
  intros Hos Hbs. destruct (start_spec compare_ dm h0) as (l & m1 & Hnew & HI).
  destruct (exec_all_spec compare_ dm h0 os m1 l [] HI Hos) as (l2 & L2 & m2 & Hrun & HI2 & Hv). pose proof (li_rep _ _ _ _ _ _ HI2) as HR.
  destruct (new_lists_spec compare_ (length bs) m2 (addrs (head_ l2) L2)) as (ls & m3 & Hls & Hlen & Hd & Hk & HW).
  { intros x Hx. by apply (Chain_alloc m2 _ _ _ _ (rp_chain _ _ _ _ HR)). }
  assert (Hst : stored compare_ m3 l2 L2) by (apply (stored_frame compare_ m2); [split; [done|apply HI2]|done|done]).
  destruct (evict_spec busy cache_evict m3 l2 L2 (proj1 Hst)) as (l4 & K & G & m4 & kp & ev & rf & Hev & Hs & Hkp & HP & HR4 & Hh & HF & Hno).
  assert (Hin : kept compare_ (ev = false) m4 l4 K).
  { split; [done|]. intros E. destruct (Hno E) as (-> & -> & ->). apply Hst. }
  assert (Hz : map fst (zip bs ls) = bs) by (apply fst_zip; lia).
  pose proof (Waiting_evict m3 l2 L2 G m4 _ (HW bs eq_refl) HF K HP) as HW4. rewrite <- Hh in HW4.
  destruct (split_keymap_spec compare_ (ev = false) m4 l4 K (zip bs ls) Hin HW4 ltac:(by rewrite Hz)) as (m5 & src & subs & Hsp & P & Ps & Hpc & [HRP HBP] & Hall).
  exists kp, ev, rf, (view P), (map view Ps), m5.
  change (spec_final compare_ dm [] os) with (spec_final compare_ dm (view []) os). rewrite <- Hv. split; [done|].
  split; [by rewrite <- Hkp, <- view_pieces, <- Hz, Hpc|].
  pose proof (Chain_size m5 _ _ _ (rp_chain _ _ _ _ HRP) (rp_nodup _ _ _ _ HRP)) as Hsz.
  unfold flush_run. step Hnew. step Hrun. step Hls. step Hev. step Hsp. step (First_spec compare_ m5 src P HRP). rewrite view_head.
  rewrite (mbind_eq (fun m => scan compare_ (size (m_nodes m)) src (e_data <$> head P) m) _ _ _ _ (scan_spec compare_ m5 src P (size (m_nodes m5)) [] HRP ltac:(lia))).
  destruct ev; [|unfold mbind at 1, MM_bind; step (contents_spec compare_ m5 src P (conj HRP (HBP eq_refl)))];
    unfold mbind, MM_bind; simpl; rewrite (all_contents_spec compare_ m5 _ _ Hall), map_map; done.
Qed.
End Evict.

(** C27: an eviction removes the clean keys and nothing else.  On a cache eviction
    exactly the busy keys stay, otherwise the keys from the first busy one on;
    the walk makes no invalid access and ends, its two flags tell whether a key
    was evicted and whether a busy one was met; the evicted keys' nodes and
    objects are freed, everything else stays as it was, and after the destructor
    nothing of the list is left. *)
Theorem eviction_removes_clean_keys `{Malloc} (compare_ : list Z -> list Z -> Z) (dm : gmap positive (list Z)) (h0 : gmap positive Node) (os : list op)
    (busy : positive -> bool) (cache_evict : bool) : KeyOrder compare_ -> Forall (op_ok dm) os ->
  let ps := spec_final compare_ dm [] os in
  evict_run compare_ os busy cache_evict (start_mem dm h0) = Some (s_evict busy cache_evict ps, start_mem (s_left busy cache_evict ps dm) h0) /\
  (cache_evict = true -> fst (fst (s_evict busy cache_evict ps)) = filter (fun p => busy p.2 = true) ps) /\
  (cache_evict = false -> exists gone, ps = gone ++ fst (fst (s_evict busy cache_evict ps)) /\ Forall (fun p => busy p.2 = false) gone /\
     forall p, head (fst (fst (s_evict busy cache_evict ps))) = Some p -> busy p.2 = true).
Proof.
  intros HO Hos ps. split; [by apply evict_run_spec|]. split; intros ->; induction ps as [|p ps IH]; simpl; try done.
  - rewrite filter_cons, <- IH. destruct (s_evict busy true ps) as [[k e] r], (busy p.2); done.
  - by exists [].
  - destruct IH as (gone & E & Hg & Hh). destruct (busy p.2) eqn:Hb; [by exists []; split; [|split; [constructor|intros ? [= <-]]]|].
    exists (p :: gone). destruct (s_evict busy false ps) as [[k e] r]. simpl in *. split; [by rewrite E|]. split; [by constructor|done].
Qed.

Lemma eviction_removes_clean_keys_witness :
  let dm : gmap positive (list Z) := <[1%positive := [5]]> (<[2%positive := [3; 1]]> (<[3%positive := [3]]> ∅)) in
  let ps := spec_final compare dm [] [OInsert 1; OInsert 2; OInsert 3] in
  ps = [([3], 3%positive); ([3; 1], 2%positive); ([5], 1%positive)] /\
  evict_run compare [OInsert 1; OInsert 2; OInsert 3] (fun d => bool_decide (d = 2%positive)) true (start_mem dm ∅) =
    Some ([([3; 1], 2%positive)], true, true, start_mem (s_left (fun d => bool_decide (d = 2%positive)) true ps dm) ∅).
Proof.
  intros dm ps. split; [vm_compute; reflexivity|].
  assert (Hos : Forall (op_ok dm) [OInsert 1; OInsert 2; OInsert 3]) by (repeat (constructor; [eexists; vm_compute; reflexivity|]); constructor).
  exact (proj1 (eviction_removes_clean_keys compare dm ∅ [OInsert 1; OInsert 2; OInsert 3] (fun d => bool_decide (d = 2%positive)) true compare_order Hos)).
Defined.

(** ** The previous pointer of the next entry *)

(** Three keys; the eviction of the first (or of all but the last) and a step back
    from the first key that is left. *)
Definition prev_after_evict (busy : positive -> bool) (cache_evict : bool) : MM (option positive) :=
  l ← NewSkipList2;
  '(_, l) ← exec_all compare l [OInsert 1; OInsert 2; OInsert 3];
  '(l, _, _) ← evict_keymap compare busy cache_evict l;
  '(first, _) ← First l None;
  Prev compare l first.

Definition three_keys : mem := start_mem (<[1%positive := [1]]> (<[2%positive := [2]]> (<[3%positive := [3]]> ∅))) ∅.

(** After an eviction a step back reads freed memory.  [Remove(m_ctx)] clears
    the removed node's next pointer before it looks there for the node whose
    previous pointer it has to set, so the successor keeps the address of the
    removed node; the eviction frees that node, and [Prev] of the first key that
    is left dereferences it.  Without an eviction the same step answers that there
    is no previous key. *)
Theorem eviction_leaves_dangling_prev :
  prev_after_evict (fun d => (2 <=? d)%positive) false three_keys = None /\
  prev_after_evict (fun d => (3 <=? d)%positive) true three_keys = None /\
  (exists m, prev_after_evict (fun _ => true) true three_keys = Some (None, m)) /\
  (exists r, (l ← NewSkipList2; '(_, l) ← exec_all compare l [OInsert 1; OInsert 2; OInsert 3];
     evict_keymap compare (fun d => (2 <=? d)%positive) false l) three_keys = Some r).
Proof. repeat split; try (vm_compute; reflexivity); eexists; vm_compute; reflexivity. Qed.

(** C18: at the end of a flush a table's keys end up in the sub-table whose range
    holds them.  Whatever was inserted and removed before, the eviction of the
    clean keys and the split of what it leaves at increasing begin keys make no
    invalid access and end; the table keeps the keys below the first begin key and
    every sub-table gets the keys from its begin key up to the next one.  Each
    sub-table can be read forwards and backwards; the table can be read forwards,
    and backwards when the eviction before the split evicted nothing (otherwise a
    step back may meet a freed node, [eviction_leaves_dangling_prev]). *)
Theorem split_distributes_keys `{Malloc} (compare_ : list Z -> list Z -> Z) (dm : gmap positive (list Z)) (h0 : gmap positive Node) (os : list op)
    (busy : positive -> bool) (cache_evict : bool) (bs : list (list Z)) :
  KeyOrder compare_ -> Forall (op_ok dm) os -> StronglySorted (fun a b => compare_ a b < 0) bs ->
  exists kept evicted referenced main subs m, s_evict busy cache_evict (spec_final compare_ dm [] os) = (kept, evicted, referenced) /\
    s_pieces compare_ bs kept = main :: subs /\
    flush_run compare_ os busy cache_evict bs (start_mem dm h0) =
      Some ((main, if evicted then None else Some (reverse main), map (fun ps => (ps, reverse ps)) subs), m).
Proof. intros HO Hos Hbs. by apply flush_run_spec. Qed.

(** The key [[1]] is clean and evicted, then the rest is split. *)
Lemma split_distributes_keys_witness :
  let dm : gmap positive (list Z) := <[1%positive := [5]]> (<[2%positive := [3; 1]]> (<[3%positive := [3]]> (<[4%positive := [9]]> (<[5%positive := [1]]> ∅)))) in
  exists m, flush_run compare [OInsert 1; OInsert 4; OInsert 2; OInsert 5; OInsert 3] (fun d => (d <=? 4)%positive) false [[3; 1]; [4]; [6]] (start_mem dm ∅) =
    Some ([([3], 3%positive)], None, [([([3; 1], 2%positive)], [([3; 1], 2%positive)]);
           ([([5], 1%positive)], [([5], 1%positive)]); ([([9], 4%positive)], [([9], 4%positive)])], m).
Proof.
  intros dm.
  destruct (split_distributes_keys compare dm ∅ [OInsert 1; OInsert 4; OInsert 2; OInsert 5; OInsert 3] (fun d => (d <=? 4)%positive) false [[3; 1]; [4]; [6]])
    as (kept & ev & rf & main & subs & m & Hs & Hp & Hr).
  - apply compare_order.
  - repeat (constructor; [eexists; vm_compute; reflexivity|]). constructor.
  - repeat (constructor; [|repeat (constructor; [vm_compute; reflexivity|]); constructor]). constructor.
  - exists m. rewrite Hr. vm_compute in Hs. injection Hs as <- <- <-. vm_compute in Hp. injection Hp as <- <-. reflexivity.
Defined.
