(* ===== verification/KvFifo.v ===== *)
(** * The completion ring buffer of the KV driver

    Models kv_fifo.h of the driver (directory
    src/kv_kernel_driver/iosched_dd_kr_new/nvme_iosched_driver_new/): the
    circular queue the interrupt handler fills and the completion daemon
    drains.  [head] and [tail] are the two [atomic_t] indexes, [ele] the array
    of [NVME_CQ_DEPTH] words.  The file states what the daemons rely on as the
    class [Fifo] and shows that the ring implements it. *)

From Stdlib Require Import ZArith Lia.
From stdpp Require Import base list gmap.
From S2P Require Import Prelude.

(** ** The interface *)

(** A bounded queue of request pointers; [contents] is its abstract value. *)
Class FifoOps (Q : Type) : Type := {
  fifo_enqueue : Q -> positive -> bool * Q;
  fifo_dequeue : Q -> option positive * Q;
  fifo_nr_ele : Q -> Z;
  fifo_contents : Q -> list positive;
  fifo_ok : Q -> Prop;
}.

(** What the queue promises: first in first out, refused only when [cap]
    elements are queued, and an element counter that is exact. *)
Class Fifo (Q : Type) `{FifoOps Q} (cap : Z) : Prop := {
  fifo_enqueue_room q a : fifo_ok q -> Z.of_nat (length (fifo_contents q)) < cap ->
    exists q', fifo_enqueue q a = (true, q') /\ fifo_ok q' /\
    fifo_contents q' = fifo_contents q ++ [a];
  fifo_enqueue_full q a : fifo_ok q -> cap <= Z.of_nat (length (fifo_contents q)) ->
    fifo_enqueue q a = (false, q);
  fifo_dequeue_nil q : fifo_ok q -> fifo_contents q = [] -> fifo_dequeue q = (None, q);
  fifo_dequeue_cons q a l : fifo_ok q -> fifo_contents q = a :: l ->
    exists q', fifo_dequeue q = (Some a, q') /\ fifo_ok q' /\ fifo_contents q' = l;
  fifo_nr_ele_length q : fifo_ok q -> fifo_nr_ele q = Z.of_nat (length (fifo_contents q));
}.

(** ** The ring *)

Definition NVME_CQ_SHIFT : Z := 17.
Definition NVME_CQ_DEPTH : Z := Z.shiftl 1 NVME_CQ_SHIFT.
Definition NVME_CQ_MASK : Z := NVME_CQ_DEPTH - 1.

(** [order] is never written by the source.  A slot of the zeroed array that
    was never stored holds 0. *)
Record kv_fifo : Type := {
  head : Z;
  tail : Z;
  mask : Z;
  ele : gmap Z Z;
  nr_ele : Z;
}.

Definition ele_at (q : kv_fifo) (i : Z) : Z := default 0 (ele q !! i).

Section Ring.
  Local Open Scope cword_scope.

Definition kv_fifo_isFull (q : kv_fifo) : bool := head q =? ((tail q + 1) & mask q).

Definition kv_fifo_isEmpty (q : kv_fifo) : bool := head q =? tail q.

Definition init_kv_fifo : kv_fifo :=
  {| head := 0; tail := 0; mask := NVME_CQ_MASK; ele := ∅; nr_ele := 0 |}.

(** [destroy_kv_fifo] is [BUG_ON] a non-empty queue. *)
Definition destroy_kv_fifo (q : kv_fifo) : option unit :=
  if kv_fifo_isEmpty q then Some tt else None.

(** The part of [kv_fifo_enqueue] after the test for a full queue: the store
    and the move of [tail] under [q->lock], then the counter. *)
Definition kv_fifo_enqueue_locked (q : kv_fifo) (addr : Z) : kv_fifo :=
  {| head := head q; tail := (tail q + 1) & mask q; mask := mask q;
     ele := <[tail q := addr]> (ele q); nr_ele := nr_ele q + 1 |}.

Definition kv_fifo_enqueue (q : kv_fifo) (addr : Z) : bool * kv_fifo :=
  if kv_fifo_isFull q then (false, q) else (true, kv_fifo_enqueue_locked q addr).

(** NULL is 0. *)
Definition kv_fifo_dequeue (q : kv_fifo) : Z * kv_fifo :=
  if kv_fifo_isEmpty q then (0, q)
  else (ele_at q (head q),
        {| head := (head q + 1) & mask q; tail := tail q; mask := mask q;
           ele := ele q; nr_ele := nr_ele q - 1 |}).
End Ring.

(** ** Abstraction *)

(** The [n] words from index [i] on. *)
Fixpoint ring_words (q : kv_fifo) (i : Z) (n : nat) : list Z :=
  match n with
  | O => []
  | S n' => ele_at q i :: ring_words q (Z.land (i + 1) (mask q)) n'
  end.

Definition ring_length (q : kv_fifo) : Z := Z.land (tail q - head q) (mask q).

Definition ring_contents (q : kv_fifo) : list Z := ring_words q (head q) (Z.to_nat (ring_length q)).

(** The size is a power of two (the source's comment), the indexes are within
    the array and the counter is the distance between them. *)
Definition ring_ok (q : kv_fifo) : Prop :=
  (exists k, 0 < k /\ mask q = 2 ^ k - 1) /\ 0 <= head q <= mask q /\ 0 <= tail q <= mask q /\
  nr_ele q = ring_length q.

(** ** Lemmas *)

Lemma land_mask k x : 0 <= k -> Z.land x (2 ^ k - 1) = x mod 2 ^ k.
Proof. intros. rewrite <- Z.land_ones, Z.ones_equiv by lia. f_equal. Qed.

(** Index arithmetic of the ring, once for all the proofs. *)
Lemma ring_index q : ring_ok q ->
  exists m, 1 < m /\ mask q = m - 1 /\ (forall x, Z.land x (mask q) = x mod m).
Proof.
  intros ((k & Hk & Hm) & _). exists (2 ^ k). split; [|split].
  - pose proof (Z.pow_gt_1 2 k). lia.
  - done.
  - intros x. rewrite Hm. apply land_mask. lia.
Qed.

Lemma mod_cases x m : 0 < m -> 0 <= x + m < 2 * m + m ->
  (x < 0 /\ x mod m = x + m) \/ (0 <= x < m /\ x mod m = x) \/ (m <= x /\ x mod m = x - m).
Proof.
  intros Hm Hx. destruct (Z.lt_ge_cases x 0); [left|right; destruct (Z.lt_ge_cases x m); [left|right]].
  - split; [done|]. symmetry. apply (Z.mod_unique x m (-1)); lia.
  - split; [lia|]. apply Z.mod_small; lia.
  - split; [done|]. symmetry. apply (Z.mod_unique x m 1); lia.
Qed.

(** Name every index of the goal and the context, with its three cases. *)
Ltac ring_arith :=
  repeat match goal with
  | |- context [?x mod ?m] =>
      pose proof (mod_cases x m ltac:(lia) ltac:(lia));
      let r := fresh "r" in set (r := x mod m) in *; clearbody r
  | H : context [?x mod ?m] |- _ =>
      pose proof (mod_cases x m ltac:(lia) ltac:(lia));
      let r := fresh "r" in set (r := x mod m) in *; clearbody r
  end; lia.

Lemma length_ring_words q i n : length (ring_words q i n) = n.
Proof. revert i; induction n; intros; simpl; auto. Qed.

Lemma ring_length_range q : ring_ok q -> 0 <= ring_length q <= mask q.
Proof.
  intros Hq. destruct (ring_index q Hq) as (m & Hm & Hmask & Hl). unfold ring_length.
  rewrite Hl. pose proof (Z.mod_pos_bound (tail q - head q) m). lia.
Qed.

Lemma length_ring_contents q : ring_ok q -> Z.of_nat (length (ring_contents q)) = ring_length q.
Proof.
  intros Hq. unfold ring_contents. rewrite length_ring_words.
  pose proof (ring_length_range q Hq). lia.
Qed.

Lemma ring_words_snoc q i n : ring_ok q -> 0 <= i <= mask q ->
  ring_words q i (S n) = ring_words q i n ++ [ele_at q (Z.land (i + Z.of_nat n) (mask q))].
Proof.
  intros Hq. destruct (ring_index q Hq) as (m & Hm & Hmask & Hl). revert i.
  induction n as [|n IH]; intros i Hi.
  - simpl. rewrite Z.add_0_r, Hl, Z.mod_small by lia. done.
  - change (ring_words q i (S (S n))) with (ele_at q i :: ring_words q (Z.land (i + 1) (mask q)) (S n)).
    rewrite IH by (rewrite Hl, Hmask; pose proof (Z.mod_pos_bound (i + 1) m); lia).
    simpl. do 3 f_equal. rewrite !Hl. f_equal. rewrite Zplus_mod_idemp_l. f_equal. lia.
Qed.

(** Storing outside a window, or moving [tail], leaves the window as it was. *)
Lemma ring_words_frame q q' i n :
  mask q' = mask q -> ring_ok q -> 0 <= i <= mask q ->
  (forall j, (j < n)%nat -> ele_at q' (Z.land (i + Z.of_nat j) (mask q)) = ele_at q (Z.land (i + Z.of_nat j) (mask q))) ->
  ring_words q' i n = ring_words q i n.
Proof.
  intros Hmask' Hq Hi. destruct (ring_index q Hq) as (m & Hm & Hmask & Hl).
  revert i Hi. induction n as [|n IH]; intros i Hi Heq; [done|]. simpl. rewrite Hmask'. f_equal.
  - specialize (Heq 0%nat ltac:(lia)). rewrite Z.add_0_r, Hl, Z.mod_small in Heq by lia. done.
  - apply IH; [rewrite Hl, Hmask; pose proof (Z.mod_pos_bound (i + 1) m); lia|].
    intros j Hj. specialize (Heq (S j) ltac:(lia)). rewrite !Hl in *.
    rewrite Zplus_mod_idemp_l. replace (i + 1 + Z.of_nat j) with (i + Z.of_nat (S j)) by lia. done.
Qed.

Lemma isEmpty_length q : ring_ok q -> kv_fifo_isEmpty q = (ring_length q =? 0).
Proof.
  intros Hq. destruct (ring_index q Hq) as (m & Hm & Hmask & Hl). destruct Hq as (_ & Hh & Ht & _).
  unfold kv_fifo_isEmpty, ring_length. rewrite Hl. apply eq_true_iff_eq. rewrite !Z.eqb_eq.
  split; intros; ring_arith.
Qed.

Lemma isFull_length q : ring_ok q -> kv_fifo_isFull q = (ring_length q =? mask q).
Proof.
  intros Hq. destruct (ring_index q Hq) as (m & Hm & Hmask & Hl). destruct Hq as (_ & Hh & Ht & _).
  unfold kv_fifo_isFull, ring_length. rewrite !Hl. apply eq_true_iff_eq. rewrite !Z.eqb_eq.
  split; intros; ring_arith.
Qed.

Lemma enqueue_locked_length q a : ring_ok q -> ring_length q < mask q ->
  ring_length (kv_fifo_enqueue_locked q a) = ring_length q + 1.
Proof.
  intros Hq Hlt. destruct (ring_index q Hq) as (m & Hm & Hmask & Hl). destruct Hq as (_ & Hh & Ht & _).
  unfold ring_length, kv_fifo_enqueue_locked in *; simpl. rewrite !Hl in *. ring_arith.
Qed.

Lemma enqueue_locked_ok q a : ring_ok q -> ring_length q < mask q ->
  ring_ok (kv_fifo_enqueue_locked q a).
Proof.
  intros Hq Hlt. pose proof (enqueue_locked_length q a Hq Hlt) as Hlen.
  destruct (ring_index q Hq) as (m & Hm & Hmask & Hl). destruct Hq as (Hk & Hh & Ht & Hn).
  unfold ring_ok. rewrite Hlen. simpl. rewrite Hl. split; [done|].
  pose proof (Z.mod_pos_bound (tail q + 1) m). lia.
Qed.

Lemma enqueue_locked_contents q a : ring_ok q -> ring_length q < mask q ->
  ring_contents (kv_fifo_enqueue_locked q a) = ring_contents q ++ [a].
Proof.
  intros Hq Hlt. pose proof (enqueue_locked_ok q a Hq Hlt) as Hq'.
  pose proof (ring_length_range q Hq) as Hr.
  unfold ring_contents. rewrite enqueue_locked_length, Z2Nat.inj_add, Nat.add_1_r by (done || lia).
  rewrite ring_words_snoc by (apply Hq || done). rewrite Z2Nat.id by lia.
  change (head (kv_fifo_enqueue_locked q a)) with (head q).
  change (mask (kv_fifo_enqueue_locked q a)) with (mask q).
  destruct (ring_index q Hq) as (m & Hm & Hmask & Hl). pose proof Hq as (_ & Hh & Ht & _).
  assert (Hend : Z.land (head q + ring_length q) (mask q) = tail q).
  { unfold ring_length. rewrite !Hl. ring_arith. }
  f_equal.
  - apply ring_words_frame; [done|done|done|]. intros j Hj. unfold ele_at; simpl.
    rewrite lookup_insert_ne; [done|]. rewrite Hl. unfold ring_length in *. rewrite Hl in *. intros Heq.
    pose proof (Z.mod_pos_bound (tail q - head q) m).
    assert (Z.of_nat j < (tail q - head q) mod m) by lia. clear Hj Hlt Hend Hr. ring_arith.
  - rewrite Hend. unfold ele_at; simpl. by rewrite lookup_insert_eq.
Qed.

(** Dequeuing a non-empty ring. *)
Lemma dequeue_spec q : ring_ok q -> 0 < ring_length q ->
  exists a q', kv_fifo_dequeue q = (a, q') /\ ring_ok q' /\ ring_contents q = a :: ring_contents q'.
Proof.
  intros Hq Hpos. unfold kv_fifo_dequeue. rewrite isEmpty_length by done.
  destruct (Z.eqb_spec (ring_length q) 0); [lia|].
  eexists _, _; split; [done|].
  destruct (ring_index q Hq) as (m & Hm & Hmask & Hl). pose proof Hq as (Hk & Hh & Ht & Hn).
  set (q' := {| head := _ |}).
  assert (Hlen : ring_length q' = ring_length q - 1).
  { unfold ring_length in *; simpl. rewrite !Hl in *. ring_arith. }
  split.
  - unfold ring_ok. rewrite Hlen. simpl. rewrite Hl, Hn.
    pose proof (Z.mod_pos_bound (head q + 1) m). split; [done|]. lia.
  - unfold ring_contents. rewrite Hlen.
    replace (Z.to_nat (ring_length q)) with (S (Z.to_nat (ring_length q - 1))) by lia.
    cbn [ring_words]. f_equal. symmetry. apply ring_words_frame; try done.
    simpl. rewrite Hl, Hmask. pose proof (Z.mod_pos_bound (head q + 1) m). lia.
Qed.

(** ** The ring implements the interface *)

Definition ptr_of (a : Z) : option positive := match a with Zpos p => Some p | _ => None end.

#[export] Instance kv_fifo_ops : FifoOps kv_fifo := {|
  fifo_enqueue q p := kv_fifo_enqueue q (Zpos p);
  fifo_dequeue q := let '(a, q') := kv_fifo_dequeue q in (ptr_of a, q');
  fifo_nr_ele := nr_ele;
  fifo_contents q := omap ptr_of (ring_contents q);
  fifo_ok q := ring_ok q /\ mask q = NVME_CQ_MASK /\ Forall (fun a => 0 < a) (ring_contents q);
|}.

Lemma ptr_of_pos a : 0 < a -> exists p, a = Zpos p.
Proof. destruct a; [lia|eauto|lia]. Qed.

Lemma length_omap_ptr l : Forall (fun a => 0 < a) l -> length (omap ptr_of l) = length l.
Proof.
  induction 1 as [|a l Ha _ IH]; [done|]. destruct (ptr_of_pos a Ha) as [p ->].
  change (S (length (omap ptr_of l)) = S (length l)). by rewrite IH.
Qed.

Lemma enqueue_mask q a : mask (snd (kv_fifo_enqueue q a)) = mask q.
Proof. unfold kv_fifo_enqueue. by destruct (kv_fifo_isFull q). Qed.
Lemma dequeue_mask q : mask (snd (kv_fifo_dequeue q)) = mask q.
Proof. unfold kv_fifo_dequeue. by destruct (kv_fifo_isEmpty q). Qed.

#[export] Instance kv_fifo_fifo : Fifo kv_fifo NVME_CQ_MASK.
Proof.
  split; intros q; intros.
  - destruct H as (Hq & Hm & Hpos); simpl in *.
    rewrite length_omap_ptr, length_ring_contents in H0 by done.
    unfold kv_fifo_enqueue. rewrite isFull_length by done.
    destruct (Z.eqb_spec (ring_length q) (mask q)); [lia|].
    eexists; split; [done|]. pose proof (enqueue_locked_contents q (Zpos a) Hq ltac:(lia)) as Hc.
    rewrite Hc, omap_app. split; [|done]. split; [apply enqueue_locked_ok; [done|lia]|].
    split; [done|]. apply Forall_app; split; [done|]. repeat constructor.
  - destruct H as (Hq & Hm & Hpos); simpl in *.
    rewrite length_omap_ptr, length_ring_contents in H0 by done.
    pose proof (ring_length_range q Hq).
    unfold kv_fifo_enqueue. rewrite isFull_length by done.
    destruct (Z.eqb_spec (ring_length q) (mask q)); [done|lia].
  - destruct H as (Hq & Hm & Hpos); simpl in *.
    assert (ring_length q = 0) as Hz.
    { rewrite <- length_ring_contents, <- length_omap_ptr, H0 by done. done. }
    unfold kv_fifo_dequeue. rewrite isEmpty_length, Hz by done. done.
  - destruct H as (Hq & Hm & Hpos); simpl in *.
    assert (Hlen : 0 < ring_length q).
    { rewrite <- length_ring_contents, <- length_omap_ptr, H0 by done. simpl. lia. }
    destruct (dequeue_spec q Hq Hlen) as (b & q' & Heq & Hq' & Hc). rewrite Heq, Hc in *.
    inversion Hpos as [|?? Hb Hpos']; subst. destruct (ptr_of_pos b Hb) as [p ->].
    simpl in *. simplify_eq. exists q'. split; [done|]. split; [|done]. split; [done|]. split; [|done].
    pose proof (dequeue_mask q) as Hdm. rewrite Heq in Hdm. simpl in Hdm. by rewrite Hdm.
  - destruct H as (Hq & Hm & Hpos); simpl in *.
    rewrite length_omap_ptr, length_ring_contents by done. apply Hq.
Qed.

Lemma init_ring_ok : ring_ok init_kv_fifo.
Proof. repeat split; try (exists 17; done); vm_compute; congruence. Qed.

Lemma init_fifo_ok : fifo_ok init_kv_fifo /\ fifo_contents init_kv_fifo = [].
Proof. split; [|done]. split; [apply init_ring_ok|]. split; [done|constructor]. Qed.

(** ** The ring against a list *)

Inductive fifo_op : Type := Enqueue (addr : Z) | Dequeue.

(** What the caller sees: the returned flag or the returned pointer. *)
Inductive fifo_obs : Type := ObsFlag (b : bool) | ObsAddr (a : Z).

Definition ring_step (q : kv_fifo) (op : fifo_op) : fifo_obs * kv_fifo :=
  match op with
  | Enqueue a => let '(b, q') := kv_fifo_enqueue q a in (ObsFlag b, q')
  | Dequeue => let '(a, q') := kv_fifo_dequeue q in (ObsAddr a, q')
  end.

(** The specification: a list of at most [cap] addresses. *)
Definition list_step (cap : Z) (l : list Z) (op : fifo_op) : fifo_obs * list Z :=
  match op with
  | Enqueue a => if Z.of_nat (length l) <? cap then (ObsFlag true, l ++ [a]) else (ObsFlag false, l)
  | Dequeue => match l with [] => (ObsAddr 0, []) | a :: l' => (ObsAddr a, l') end
  end.

Fixpoint run {S} (step : S -> fifo_op -> fifo_obs * S) (s : S) (ops : list fifo_op) : list fifo_obs * S :=
  match ops with
  | [] => ([], s)
  | op :: ops' => let '(o, s') := step s op in let '(os, s'') := run step s' ops' in (o :: os, s'')
  end.

(** One step of the simulation. *)
Lemma ring_step_simulates q op : ring_ok q ->
  exists o q', ring_step q op = (o, q') /\ ring_ok q' /\ mask q' = mask q /\
  list_step (mask q) (ring_contents q) op = (o, ring_contents q').
Proof.
  intros Hq. pose proof (ring_length_range q Hq). destruct op as [a|]; unfold ring_step, list_step.
  - unfold kv_fifo_enqueue. rewrite isFull_length, length_ring_contents by done.
    destruct (Z.eqb_spec (ring_length q) (mask q)), (Z.ltb_spec (ring_length q) (mask q)); try lia.
    + by eexists _, q.
    + eexists _, _. split; [done|]. split; [by apply enqueue_locked_ok|]. split; [done|].
      by rewrite enqueue_locked_contents.
  - destruct (Z.eq_dec (ring_length q) 0) as [Hz|Hnz].
    + exists (ObsAddr 0), q. unfold kv_fifo_dequeue. rewrite isEmpty_length, Hz by done.
      unfold ring_contents. rewrite Hz. done.
    + destruct (dequeue_spec q Hq ltac:(lia)) as (a & q' & Heq & Hq' & Hc).
      pose proof (dequeue_mask q) as Hdm. rewrite Heq in *. simpl in Hdm. rewrite Hc.
      by eexists _, q'.
Qed.

(** ** Properties *)

(** C31: started from [init_kv_fifo], any sequence of enqueues and dequeues
    returns what a list of at most [NVME_CQ_MASK] elements returns: the ring is
    first-in first-out, loses nothing, and refuses an element only when full. *)
Theorem ring_refines_list (ops : list fifo_op) :
  exists os q, run ring_step init_kv_fifo ops = (os, q) /\
  run (list_step NVME_CQ_MASK) [] ops = (os, ring_contents q) /\
  nr_ele q = Z.of_nat (length (ring_contents q)).
Proof.
  assert (Hgen : forall q, ring_ok q -> exists os q', run ring_step q ops = (os, q') /\ ring_ok q' /\
    run (list_step (mask q)) (ring_contents q) ops = (os, ring_contents q')).
  { induction ops as [|op ops IH]; intros q Hq; [by exists [], q|]. cbn [run].
    destruct (ring_step_simulates q op Hq) as (o & q1 & -> & Hq1 & Hm & ->).
    destruct (IH q1 Hq1) as (os & q2 & -> & Hq2 & Hl). rewrite Hm in Hl. rewrite Hl. by eexists _, q2. }
  destruct (Hgen init_kv_fifo init_ring_ok) as (os & q & Hr & Hq & Hl). exists os, q.
  split; [done|]. split; [done|]. rewrite length_ring_contents by done. apply Hq.
Qed.

(** [kv_fifo_enqueue] tests for a full queue before it takes [q->lock].
    Two producers that both pass the test with one free slot left overwrite
    nothing, but the second move of [tail] makes the full ring look empty: the
    consumer sees none of the queued completions. *)
Theorem racing_enqueues_lose_queue (q : kv_fifo) (a b : Z) :
  ring_ok q -> ring_length q = mask q - 1 ->
  kv_fifo_isFull q = false /\
  kv_fifo_isEmpty (kv_fifo_enqueue_locked (kv_fifo_enqueue_locked q a) b) = true.
Proof.
  intros Hq Hl. rewrite isFull_length by done. split; [apply Z.eqb_neq; lia|].
  destruct (ring_index q Hq) as (m & Hm & Hmask & Hland). pose proof Hq as (_ & Hh & Ht & _).
  unfold kv_fifo_isEmpty, kv_fifo_enqueue_locked, ring_length in *; simpl. apply Z.eqb_eq.
  rewrite !Hland in *. ring_arith.
Qed.

