(* ===== verification/KvCmd.v ===== *)
(** * KV commands, keys and the bucket of a key

    Models the command layer of the KV NVMe driver (directory
    src/kv_kernel_driver/iosched_dd_kr_new/nvme_iosched_driver_new/): the
    opcodes and command structures of linux_nvme.h and linux_nvme_ioctl.h, the
    opcode classes of nvme.h, [set_kv_cmd] of kv_core.c, [get_hash_key] of
    kv_iosched.c with [hash_128] of kv_iosched.h, and the key comparison of
    [kv_hash_search] in kv_hash.c. *)

From Stdlib Require Import ZArith Lia Bool.
From stdpp Require Import base list.
From S2P Require Import Prelude Coding.

(** ** Opcodes *)

Definition nvme_cmd_kv_store : Z := 0x81.
Definition nvme_cmd_kv_append : Z := 0x83.
Definition nvme_cmd_kv_retrieve : Z := 0x90.
Definition nvme_cmd_kv_delete : Z := 0xA1.
Definition nvme_cmd_kv_iter_req : Z := 0xB1.
Definition nvme_cmd_kv_iter_read : Z := 0xB2.
Definition nvme_cmd_kv_exist : Z := 0xB3.

Definition is_kv_append_cmd (opcode : Z) : bool := opcode =? nvme_cmd_kv_append.
Definition is_kv_store_cmd (opcode : Z) : bool := opcode =? nvme_cmd_kv_store.
Definition is_kv_retrieve_cmd (opcode : Z) : bool := opcode =? nvme_cmd_kv_retrieve.
Definition is_kv_delete_cmd (opcode : Z) : bool := opcode =? nvme_cmd_kv_delete.
Definition is_kv_iter_req_cmd (opcode : Z) : bool := opcode =? nvme_cmd_kv_iter_req.
Definition is_kv_iter_read_cmd (opcode : Z) : bool := opcode =? nvme_cmd_kv_iter_read.
Definition is_kv_exist_cmd (opcode : Z) : bool := opcode =? nvme_cmd_kv_exist.

Definition is_kv_io_cmd (opcode : Z) : bool :=
  is_kv_store_cmd opcode || is_kv_retrieve_cmd opcode || is_kv_delete_cmd opcode ||
  is_kv_append_cmd opcode.

Definition is_kv_special_cmd (opcode : Z) : bool :=
  is_kv_iter_req_cmd opcode || is_kv_iter_read_cmd opcode || is_kv_exist_cmd opcode.

Definition is_kv_cmd (opcode : Z) : bool :=
  is_kv_store_cmd opcode || is_kv_retrieve_cmd opcode || is_kv_delete_cmd opcode ||
  is_kv_iter_req_cmd opcode || is_kv_iter_read_cmd opcode || is_kv_exist_cmd opcode.

Definition KVCMD_INLINE_KEY_MAX : Z := 16.

(** ** The two command structures *)

(** [struct nvme_passthru_kv_cmd], the user's command.  [key] is the 16-byte
    union (the inline key; [cdw12] and [cdw13] are its first two words), [ukey]
    what a long key's [key_addr] points to in user memory, [udata] what
    [data_addr] points to ([None] is NULL) and [cmd_result] the [result] field. *)
Record nvme_passthru_kv_cmd : Type := {
  opcode : Z;
  flags : Z;
  nsid : Z;
  cdw4 : Z;
  cdw5 : Z;
  udata : option (list Z);
  data_length : Z;
  key_length : Z;
  key : list Z;
  ukey : list Z;
  cmd_result : Z;
}.

Definition cdw12 (cmd : nvme_passthru_kv_cmd) : Z := le_value (take 4 (key cmd)).
Definition cdw13 (cmd : nvme_passthru_kv_cmd) : Z := le_value (take 4 (drop 4 (key cmd))).

(** The KV members of the [struct nvme_command] union.  They overlay the same
    bytes: [c_key_len] is also [iter_handle], and the first eight bytes of
    [c_key] are also [iter_val] and [iter_bitmask]. *)
Record nvme_command : Type := {
  c_opcode : Z;
  c_flags : Z;
  c_nsid : Z;
  c_option : Z;
  c_offset : Z;
  c_key_len : Z;
  c_value_len : Z;
  c_key : list Z;
}.

(** [memset(c, 0, sizeof *c)]. *)
Definition zero_command : nvme_command :=
  {| c_opcode := 0; c_flags := 0; c_nsid := 0; c_option := 0; c_offset := 0;
     c_key_len := 0; c_value_len := 0; c_key := replicate 16 0 |}.

(** [memcpy(dst, src, n)]: the first [n] bytes of [dst] are those of [src]. *)
Definition memcpy (dst src : list Z) (n : Z) : list Z :=
  take (Z.to_nat n) src ++ drop (Z.to_nat n) dst.

Section SetCmd.
  Local Open Scope cword_scope.

(** Multi-byte fields are little-endian words; the model keeps their value. *)
Definition set_kv_cmd (c : nvme_command) (cmd : nvme_passthru_kv_cmd) : nvme_command :=
  let op := opcode cmd in
  let inline (k : list Z) :=
    if key_length cmd <=? KVCMD_INLINE_KEY_MAX then memcpy k (key cmd) (key_length cmd) else k in
  if op =? nvme_cmd_kv_store then
    {| c_opcode := op; c_flags := flags cmd; c_nsid := nsid cmd;
       c_option := cdw4 cmd & 0xff; c_offset := cdw5 cmd;
       c_key_len := u8 (key_length cmd - 1); c_value_len := data_length cmd >> 2;
       c_key := inline (c_key c) |}
  else if op =? nvme_cmd_kv_retrieve then
    {| c_opcode := op; c_flags := flags cmd; c_nsid := nsid cmd;
       c_option := cdw4 cmd & 0xff; c_offset := cdw5 cmd;
       c_key_len := u8 (key_length cmd - 1); c_value_len := data_length cmd >> 2;
       c_key := inline (c_key c) |}
  else if op =? nvme_cmd_kv_delete then
    {| c_opcode := op; c_flags := flags cmd; c_nsid := nsid cmd;
       c_option := cdw4 cmd & 0xff; c_offset := c_offset c;
       c_key_len := u8 (key_length cmd - 1); c_value_len := c_value_len c;
       c_key := inline (c_key c) |}
  else if op =? nvme_cmd_kv_iter_req then
    {| c_opcode := op; c_flags := flags cmd; c_nsid := nsid cmd;
       c_option := cdw4 cmd & 0xff; c_offset := c_offset c;
       c_key_len := cdw5 cmd & 0xff; c_value_len := c_value_len c;
       c_key := le_bytes 4 (cdw12 cmd) ++ le_bytes 4 (cdw13 cmd) ++ drop 8 (c_key c) |}
  else if op =? nvme_cmd_kv_iter_read then
    {| c_opcode := op; c_flags := flags cmd; c_nsid := nsid cmd;
       c_option := cdw4 cmd & 0xff; c_offset := c_offset c;
       c_key_len := cdw5 cmd & 0xff; c_value_len := data_length cmd >> 2;
       c_key := c_key c |}
  else
    {| c_opcode := op; c_flags := flags cmd; c_nsid := nsid cmd;
       c_option := c_option c; c_offset := c_offset c;
       c_key_len := c_key_len c; c_value_len := c_value_len c; c_key := c_key c |}.
End SetCmd.

(** ** The bucket of a key *)

Definition KV_HASH_BITS : Z := 17.
Definition KV_HASH_SIZE : Z := Z.shiftl 1 KV_HASH_BITS.

(** The kernel's hash functions (linux/hash.h, linux/stringhash.h). *)
Class KernelHash : Type := {
  GOLDEN_RATIO_64 : Z;
  hash_64 : Z -> Z -> Z;
  full_name_hash : list Z -> Z;
  hash_64_range : forall v bits, 0 <= bits -> 0 <= hash_64 v bits < 2 ^ bits;
}.

Section HashKey.
  Context `{KernelHash}.

Definition __hash_64 (v : Z) : Z := u64 (v * GOLDEN_RATIO_64).

(** [m_low] and [m_high] are the two words of the 16-byte key. *)
Definition hash_128 (m_low m_high bits : Z) : Z := hash_64 (Z.lxor m_low (__hash_64 m_high)) bits.

(** A short key is read as a whole [uint128_t], padding included. *)
Definition get_hash_key (k : list Z) (klen : Z) : Z :=
  if KVCMD_INLINE_KEY_MAX <? klen
  then hash_64 (full_name_hash (take (Z.to_nat klen) k)) KV_HASH_BITS
  else hash_128 (le_value (take 8 k)) (le_value (take 8 (drop 8 k))) KV_HASH_BITS.

Lemma get_hash_key_range k klen : 0 <= get_hash_key k klen < KV_HASH_SIZE.
Proof.
  unfold get_hash_key, hash_128. change KV_HASH_SIZE with (2 ^ KV_HASH_BITS).
  destruct (KVCMD_INLINE_KEY_MAX <? klen); apply hash_64_range; unfold KV_HASH_BITS; lia.
Qed.
End HashKey.

(** ** Comparing keys *)

(** [l[i]] for a pointer to [u64]. *)
Definition u64_at (l : list Z) (i : nat) : Z := le_value (take 8 (drop (8 * i) l)).

(** 0 when the first [count] words agree, -1 otherwise; [i] counts up. *)
Fixpoint longcmp (l1 l2 : list Z) (i count : nat) : Z :=
  match count with
  | O => 0
  | S count' => if u64_at l1 i =? u64_at l2 i then longcmp l1 l2 (S i) count' else -1
  end.

(** Whether [memcmp] of [n] bytes is 0. *)
Definition memcmp_eq (l1 l2 : list Z) (n : nat) : bool :=
  bool_decide (take n l1 = take n l2).

(** The two tests of the loop body of [kv_hash_search]: whole words, then the
    remaining bytes. *)
Definition key_match (k1 k2 : list Z) (klen : Z) : bool :=
  let word_cnt := klen / 8 in
  let remain := Z.land klen 7 in
  if negb (word_cnt =? 0) && negb (longcmp k1 k2 0 (Z.to_nat word_cnt) =? 0) then false
  else if negb (remain =? 0) &&
          negb (memcmp_eq (drop (8 * Z.to_nat word_cnt) k1) (drop (8 * Z.to_nat word_cnt) k2)
                  (Z.to_nat remain)) then false
  else true.

(** ** Lemmas *)

(** [longcmp] decides equality of the bytes it covers. *)
Lemma longcmp_spec count : forall i l1 l2, bytes_ok l1 -> bytes_ok l2 ->
  (8 * (i + count) <= length l1)%nat -> (8 * (i + count) <= length l2)%nat ->
  longcmp l1 l2 i count = 0 <->
  take (8 * count) (drop (8 * i) l1) = take (8 * count) (drop (8 * i) l2).
Proof.
  induction count as [|count IH]; intros i l1 l2 H1 H2 Hl1 Hl2; [done|]. cbn [longcmp].
  assert (Hsplit : forall l : list Z, take (8 * S count) (drop (8 * i) l) =
    take 8 (drop (8 * i) l) ++ take (8 * count) (drop (8 * S i) l)).
  { intros l. replace (8 * S count)%nat with (8 + 8 * count)%nat by lia.
    rewrite <- take_take_drop, drop_drop. do 2 f_equal. f_equal. lia. }
  rewrite !Hsplit. unfold u64_at.
  assert (Hlen : forall l : list Z, (8 * (i + S count) <= length l)%nat -> length (take 8 (drop (8 * i) l)) = 8%nat).
  { intros l Hl. rewrite length_take, length_drop. lia. }
  destruct (Z.eqb_spec (le_value (take 8 (drop (8 * i) l1))) (le_value (take 8 (drop (8 * i) l2)))) as [Heq|Hne].
  - apply le_value_inj in Heq; [|auto with kv|auto with kv|rewrite !Hlen by done; done].
    rewrite (IH (S i)) by (done || lia). rewrite Heq. split; [by intros ->|apply app_inv_head].
  - split; [done|]. intros Happ. apply app_inj_1 in Happ as [Happ _]; [by rewrite Happ in Hne|].
    by rewrite !Hlen.
Qed.

(** The comparison of [kv_hash_search] is equality of the [klen] key bytes. *)
Lemma key_match_spec k1 k2 klen : bytes_ok k1 -> bytes_ok k2 -> 0 <= klen ->
  klen <= Z.of_nat (length k1) -> klen <= Z.of_nat (length k2) ->
  key_match k1 k2 klen = true <-> take (Z.to_nat klen) k1 = take (Z.to_nat klen) k2.
Proof.
  intros H1 H2 Hk Hl1 Hl2. unfold key_match.
  assert (Hrem : Z.land klen 7 = klen mod 8) by (apply (Z.land_ones klen 3); lia).
  rewrite Hrem. pose proof (Z.div_mod klen 8 ltac:(lia)) as Hdm.
  pose proof (Z.mod_pos_bound klen 8 ltac:(lia)). pose proof (Z.div_pos klen 8 Hk ltac:(lia)).
  set (w := klen / 8) in *. set (r := klen mod 8) in *. clearbody w r.
  assert (Hsplit : forall l : list Z, take (Z.to_nat klen) l =
    take (8 * Z.to_nat w) l ++ take (Z.to_nat r) (drop (8 * Z.to_nat w) l)).
  { intros l. rewrite take_take_drop. f_equal. lia. }
  pose proof (longcmp_spec (Z.to_nat w) 0 k1 k2 H1 H2 ltac:(lia) ltac:(lia)) as Hlc.
  rewrite !drop_0 in Hlc. rewrite !Hsplit. unfold memcmp_eq.
  assert (Hl8 : length (take (8 * Z.to_nat w) k1) = length (take (8 * Z.to_nat w) k2))
    by (rewrite !length_take; lia).
  destruct (Z.eqb_spec w 0) as [->|Hw]; cbn [negb andb].
  - change (8 * Z.to_nat 0)%nat with 0%nat. rewrite !drop_0.
    destruct (Z.eqb_spec r 0) as [->|]; cbn [negb andb]; [done|].
    case_bool_decide as Hd; cbn [negb]; [by rewrite Hd|]. split; [done|]. intros Happ. by destruct Hd.
  - destruct (Z.eqb_spec (longcmp k1 k2 0 (Z.to_nat w)) 0) as [Heq|Hne]; cbn [negb].
    + apply Hlc in Heq. rewrite Heq. destruct (Z.eqb_spec r 0) as [->|]; cbn [negb andb]; [done|].
      case_bool_decide as Hd; cbn [negb]; [by rewrite Hd|]. split; [done|]. by intros ?%app_inv_head.
    + split; [done|]. intros [Happ _]%app_inj_1; [|done]. tauto.
Qed.
