(* ===== verification/KvState.v ===== *)
(** * State of the KV I/O scheduler

    Models the structures of kv_iosched.h and the state the handlers of
    kv_hash.c, kv_iosched.c and kv_core.c share: the slab of asynchronous
    requests, the memory queues, the two hash tables, the read-ahead list, the
    daemons and the device.  Pointers are [positive]s into finite maps, so a
    freed object is an absent key and a use after free is visible.

    The handlers run in the state and fault monad [M].  A fault is what the
    kernel would do with the pointer or the lock; the theorems show which
    handlers never fault.  A handler runs to completion except where it sleeps:
    there the other threads run, which is the argument [sleep] of the model. *)

From Stdlib Require Import ZArith Lia Bool.
From stdpp Require Import base list gmap.
From S2P Require Import Prelude KvFifo KvCmd.

(** ** Constants *)

(** Hash tables. *)
Inductive kv_hash_id : Type := KV_RQ_HASH | KV_RA_HASH.
#[export] Instance kv_hash_id_eq : EqDecision kv_hash_id.
Proof. solve_decision. Defined.

(** Memory queue types and submission daemon types. *)
Definition ACTIVE_READ : Z := 0.
Definition ACTIVE_WRITE : Z := 1.
Definition GET_RESERVED : Z := 2.
Definition READ_DAEMON : Z := ACTIVE_READ.
Definition WRITE_DAEMON : Z := ACTIVE_WRITE.
Definition BATCH_READ_DAEMON : Z := READ_DAEMON + 2.
Definition BATCH_WRITE_DAEMON : Z := WRITE_DAEMON + 2.
Definition NR_DAEMON : Z := BATCH_WRITE_DAEMON + 1.

(** Bits of [kv_iosched_struct.state]. *)
Definition KV_iosched_registered : Z := 0.
Definition KV_iosched_congested : Z := 1.
Definition KV_iosched_queue_full : Z := 2.
Definition KV_iosched_flush : Z := 3.
Definition KV_iosched_need_to_wake_read_submit_daemon : Z := 4.
Definition KV_iosched_need_to_wake_write_submit_daemon : Z := 5.
Definition KV_iosched_need_to_wake_multi_read_submit_daemon : Z := 6.
Definition KV_iosched_need_to_wake_multi_write_submit_daemon : Z := 7.

(** Bits of [kv_async_request.state]. *)
Definition KV_async_invalid_rq : Z := 0.
Definition KV_async_blocking_rq : Z := 1.
Definition KV_async_inFlight_rq : Z := 2.
Definition KV_async_SaS : Z := 3.
Definition KV_async_flush_wakeup : Z := 4.
Definition KV_async_waiting_submission : Z := 5.
Definition KV_async_in_readahead : Z := 6.
Definition KV_async_completed : Z := 7.

Definition KV_MAX_INFLIGHT_REQUEST : Z := 512.
Definition DEFAULT_NR_REQ_PER_MEMQ : Z := 256.
Definition KV_PENDING_QUEU_LOW_WATERMARK : Z := Z.shiftl KV_MAX_INFLIGHT_REQUEST 3.
Definition KV_PENDING_QUEU_HIGH_WATERMARK : Z :=
  KV_PENDING_QUEU_LOW_WATERMARK + Z.shiftr KV_MAX_INFLIGHT_REQUEST 1.
Definition COMPLETE_MAX_RQ : Z := 256.

(** Return codes the handlers use. *)
Definition EFAULT : Z := -14.
Definition ENOMEM : Z := -12.
Definition EINVAL : Z := -22.
Definition ENODEV : Z := -19.

Definition KVS_SUCCESS : Z := 0.
Definition KVS_ERR_NOMEM : Z := -13.
Definition KVS_ERR_INVALID_OPCODE : Z := -24.
Definition KVS_ERR_INVALID_FLAGS : Z := -25.
Definition KVS_ERR_EXIST_PENDING_KEY : Z := -26.
Definition KVS_ERR_EXIST_IN_RA_HASH : Z := -27.
Definition KVS_ERR_FAULT : Z := -29.
Definition KVS_ERR_KEY_NOT_EXIST : Z := -30.

(** ** Structures *)

(** [key_addr]: NULL, the key bytes inside the request's own command, or a
    kernel buffer of its own. *)
Inductive key_ptr : Type := KeyNull | KeyInline | KeyHeap (bytes : list Z).

(** [struct kv_async_request].  [rq_hash] is the [hlist_node]: the chain the
    node is linked in, if any.  [rq_req] says whether [req] is set, [rq_cqe]
    and [rq_req_errors] are [cqe.result] and [req->errors], [rq_cpu] the CPU
    whose counter [in_flight_rq] points to.  [rq_lock] is [lock] held. *)
Record kv_async_request : Type := {
  rq_c : nvme_command;
  rq_state : Z;
  rq_data_addr : option (list Z);
  rq_data_length : Z;
  rq_key_addr : key_ptr;
  rq_key_length : Z;
  rq_req : bool;
  rq_cqe : Z;
  rq_req_errors : Z;
  rq_result : Z;
  rq_errors : Z;
  rq_blocking_rq : option positive;
  rq_lock : bool;
  rq_hash_key : Z;
  rq_hash : option (kv_hash_id * Z);
  rq_memq : option positive;
  rq_refcount : Z;
  rq_cpu : option Z;
}.

(** [struct kv_memqueue_struct]; [mq_key] is [blocking_key]. *)
Record kv_memqueue_struct : Type := {
  mq_rq : list positive;
  mq_nr_pending : Z;
  mq_nr_rq : Z;
  mq_key : list Z;
}.

(** [struct kv_hash]: the chains ([hashtable]), the spin locks held and
    [nr_rq]. *)
Record kv_hash : Type := {
  h_table : gmap Z (list positive);
  h_locks : gset Z;
  h_nr_rq : Z;
}.

(** [struct kv_work_struct]: the submission daemons; [sd_queued] says whether
    the work item is queued. *)
Record kv_work_struct : Type := {
  sd_mumemq_list : list positive;
  sd_last_cpu : Z;
  sd_queued : bool;
}.

(** The SSD: what executing a command on a key and a data buffer does, and the
    completion entry with the buffer's new contents. *)
Record dev_answer : Type := {
  ans_errors : Z;
  ans_result : Z;
  ans_data : list Z;
}.

Class Device : Type := {
  dev_state : Type;
  dev_exec : dev_state -> nvme_command -> list Z -> list Z -> dev_state * dev_answer;
}.

(** What the state is of: [struct kv_iosched_struct] and the objects it points
    to.  [dev_queue] holds the requests given to the block layer and not yet
    completed, [s_fails] the outcome of the next fallible kernel calls (true is
    a failure; none left means success), [s_memq_slab] the memory queues that
    were freed, with the fields they were freed with, and [stale_reads] the
    requests whose state word was read after they had been freed. *)
Record driver `{Device} {Q : Type} : Type := {
  s_heap : gmap positive kv_async_request;
  s_next_rq : positive;
  s_memqs : gmap positive kv_memqueue_struct;
  s_next_memq : positive;
  s_memq_slab : list kv_memqueue_struct;
  s_rq_hash : kv_hash;
  s_ra_hash : kv_hash;
  s_ra_list : list positive;
  s_percpu_memq : gmap (Z * Z) positive;
  s_schedd : gset (Z * Z);
  s_submit : gmap Z kv_work_struct;
  s_fifo : Q;
  s_complete_queued : bool;
  s_in_flight : gmap Z Z;
  s_state : Z;
  s_nr_interrupt : Z;
  s_nr_complete : Z;
  s_nr_retry : Z;
  s_dev_queue : list positive;
  s_dev : dev_state;
  s_fails : list bool;
  stale_reads : list positive;
}.
Arguments driver {_} Q.

(** Eta expansions, for the field updates. *)
#[export] Instance eta_kv_async_request : Eta kv_async_request := fun r =>
  {| rq_c := rq_c r; rq_state := rq_state r; rq_data_addr := rq_data_addr r;
     rq_data_length := rq_data_length r; rq_key_addr := rq_key_addr r;
     rq_key_length := rq_key_length r; rq_req := rq_req r; rq_cqe := rq_cqe r;
     rq_req_errors := rq_req_errors r; rq_result := rq_result r; rq_errors := rq_errors r;
     rq_blocking_rq := rq_blocking_rq r; rq_lock := rq_lock r; rq_hash_key := rq_hash_key r;
     rq_hash := rq_hash r; rq_memq := rq_memq r; rq_refcount := rq_refcount r;
     rq_cpu := rq_cpu r |}.
#[export] Instance eta_kv_memqueue_struct : Eta kv_memqueue_struct := fun r =>
  {| mq_rq := mq_rq r; mq_nr_pending := mq_nr_pending r; mq_nr_rq := mq_nr_rq r;
     mq_key := mq_key r |}.
#[export] Instance eta_kv_hash : Eta kv_hash := fun r =>
  {| h_table := h_table r; h_locks := h_locks r; h_nr_rq := h_nr_rq r |}.
#[export] Instance eta_kv_work_struct : Eta kv_work_struct := fun r =>
  {| sd_mumemq_list := sd_mumemq_list r; sd_last_cpu := sd_last_cpu r;
     sd_queued := sd_queued r |}.
#[export] Instance eta_driver `{Device} Q : Eta (driver Q) := fun r =>
  {| s_heap := s_heap r; s_next_rq := s_next_rq r; s_memqs := s_memqs r;
     s_next_memq := s_next_memq r; s_memq_slab := s_memq_slab r; s_rq_hash := s_rq_hash r; s_ra_hash := s_ra_hash r;
     s_ra_list := s_ra_list r; s_percpu_memq := s_percpu_memq r; s_schedd := s_schedd r;
     s_submit := s_submit r; s_fifo := s_fifo r; s_complete_queued := s_complete_queued r;
     s_in_flight := s_in_flight r; s_state := s_state r; s_nr_interrupt := s_nr_interrupt r;
     s_nr_complete := s_nr_complete r; s_nr_retry := s_nr_retry r;
     s_dev_queue := s_dev_queue r; s_dev := s_dev r; s_fails := s_fails r;
     stale_reads := stale_reads r |}.

(** ** The state and fault monad *)

Inductive fault : Type :=
  | NullDeref        (** a NULL pointer is dereferenced *)
  | UseAfterFree     (** a freed object is accessed *)
  | SelfDeadlock     (** a spin lock this thread holds is taken again *)
  | BadUnlock        (** a spin lock that is not held is released *)
  | BugOn            (** [BUG()] *)
  | OutOfBounds      (** a kernel buffer is read past its end *)
  | OutOfFuel.       (** a loop of the model ran out of fuel *)

Inductive outcome (S A : Type) : Type :=
  | Done (a : A) (s : S)
  | Fault (f : fault).
Arguments Done {S A} a s.
Arguments Fault {S A} f.

Definition M (S A : Type) : Type := S -> outcome S A.

Definition ret {S A} (a : A) : M S A := fun s => Done a s.
Definition fail {S A} (f : fault) : M S A := fun _ => Fault f.
Definition bind {S A B} (m : M S A) (k : A -> M S B) : M S B := fun s =>
  match m s with
  | Done a s' => k a s'
  | Fault f => Fault f
  end.
Definition modify {S} (f : S -> S) : M S unit := fun s => Done tt (f s).
Definition gets {S A} (f : S -> A) : M S A := fun s => Done (f s) s.

Declare Scope kv_scope.
Delimit Scope kv_scope with kv.
Notation "x <- m ;; k" := (bind m (fun x => k))
  (at level 100, m at next level, k at level 200, right associativity, only parsing) : kv_scope.
Notation "m ;; k" := (bind m (fun _ => k))
  (at level 100, k at level 200, right associativity, only parsing) : kv_scope.
Open Scope kv_scope.

Definition when {S} (b : bool) (m : M S unit) : M S unit := if b then m else ret tt.

(** [for (x in l) body x]. *)
Fixpoint for_each {S A} (l : list A) (body : A -> M S unit) : M S unit :=
  match l with
  | [] => ret tt
  | x :: l' => body x ;; for_each l' body
  end.

(** ** Primitive operations *)

Section Primitives.
  Context `{Device} {Q : Type}.
  Local Abbreviation M := (M (driver Q)).

(** The next fallible kernel call: true when it fails. *)
Definition fails : M bool := fun s =>
  match s_fails s with
  | [] => Done false s
  | b :: l => Done b (s <| s_fails := l |>)
  end.

(** *** Requests *)

Definition get_rq (i : positive) : M kv_async_request := fun s =>
  match s_heap s !! i with Some r => Done r s | None => Fault UseAfterFree end.

Definition upd_rq (i : positive) (f : kv_async_request -> kv_async_request) : M unit := fun s =>
  match s_heap s !! i with
  | Some r => Done tt (s <| s_heap ::= <[i := f r]> |>)
  | None => Fault UseAfterFree
  end.

Definition spin_lock (i : positive) : M unit :=
  r <- get_rq i ;; if rq_lock r then fail SelfDeadlock else upd_rq i (fun r => r <| rq_lock := true |>).

Definition spin_unlock (i : positive) : M unit :=
  r <- get_rq i ;; if rq_lock r then upd_rq i (fun r => r <| rq_lock := false |>) else fail BadUnlock.

Definition set_rq_bit (n : Z) (i : positive) : M unit :=
  upd_rq i (fun r => r <| rq_state ::= set_bit n |>).
Definition clear_rq_bit (n : Z) (i : positive) : M unit :=
  upd_rq i (fun r => r <| rq_state ::= clear_bit n |>).

Definition atomic_inc (i : positive) : M unit :=
  upd_rq i (fun r => r <| rq_refcount ::= Z.add 1 |>).
Definition atomic_dec (i : positive) : M unit :=
  upd_rq i (fun r => r <| rq_refcount ::= Z.add (-1) |>).
Definition atomic_dec_and_test (i : positive) : M bool :=
  atomic_dec i ;; r <- get_rq i ;; ret (rq_refcount r =? 0).

(** The key bytes a request points to; [None] is NULL. *)
Definition rq_key (r : kv_async_request) : option (list Z) :=
  match rq_key_addr r with
  | KeyNull => None
  | KeyInline => Some (c_key (rq_c r))
  | KeyHeap b => Some b
  end.

Definition deref (k : option (list Z)) : M (list Z) :=
  match k with Some k => ret k | None => fail NullDeref end.

(** The key bytes the device reads: the page of a long key, or the 16 bytes in
    the command. *)
Definition device_key (c : nvme_command) (k : option (list Z)) (klen : Z) : list Z :=
  match k with
  | Some b => if KVCMD_INLINE_KEY_MAX <? klen then b else c_key c
  | None => c_key c
  end.

(** [kv_async_request_alloc] clears the object before it tests the pointer. *)
Definition zero_request : kv_async_request :=
  {| rq_c := zero_command; rq_state := 0; rq_data_addr := None; rq_data_length := 0;
     rq_key_addr := KeyNull; rq_key_length := 0; rq_req := false; rq_cqe := 0;
     rq_req_errors := 0; rq_result := 0; rq_errors := 0; rq_blocking_rq := None;
     rq_lock := false; rq_hash_key := 0; rq_hash := None; rq_memq := None;
     rq_refcount := 0; rq_cpu := None |}.

Definition kv_async_request_alloc : M positive :=
  b <- fails ;;
  if b : bool then fail NullDeref
  else fun s =>
    let i := s_next_rq s in
    Done i (s <| s_heap ::= <[i := zero_request]> |> <| s_next_rq ::= Pos.succ |>).

Definition kv_async_request_free (i : positive) : M unit := fun s =>
  match s_heap s !! i with
  | Some _ => Done tt (s <| s_heap ::= delete i |>)
  | None => Fault UseAfterFree
  end.

(** The buffers are released and the fields reset, the lock released, and the
    object goes back to the slab. *)
Definition free_kv_async_rq (i : positive) : M unit :=
  upd_rq i (fun r =>
    r <| rq_key_addr ::= fun k => if KVCMD_INLINE_KEY_MAX <? rq_key_length r then KeyNull else k |>
      <| rq_data_addr := None |> <| rq_key_length := 0 |> <| rq_data_length := 0 |>
      <| rq_hash_key := KV_HASH_SIZE |> <| rq_req := false |> <| rq_state := 0 |>
      <| rq_memq := None |> <| rq_errors := 0 |>) ;;
  spin_unlock i ;;
  kv_async_request_free i.

(** The idiom [if(atomic_dec_and_test(&rq->refcount)) free_kv_async_rq(rq);
    else spin_unlock(&rq->lock);]. *)
Definition put_locked (i : positive) : M unit :=
  z <- atomic_dec_and_test i ;; if z : bool then free_kv_async_rq i else spin_unlock i.

(** *** Hash chains *)

Definition get_hash (h : kv_hash_id) (s : driver Q) : kv_hash :=
  match h with KV_RQ_HASH => s_rq_hash s | KV_RA_HASH => s_ra_hash s end.

Definition upd_hash (h : kv_hash_id) (f : kv_hash -> kv_hash) (s : driver Q) : driver Q :=
  match h with KV_RQ_HASH => s <| s_rq_hash ::= f |> | KV_RA_HASH => s <| s_ra_hash ::= f |> end.

Definition chain (h : kv_hash) (k : Z) : list positive := default [] (h_table h !! k).

Definition hash_lock (h : kv_hash_id) (k : Z) : M unit := fun s =>
  if decide (k ∈ h_locks (get_hash h s)) then Fault SelfDeadlock
  else Done tt (upd_hash h (fun t => t <| h_locks ::= union {[k]} |>) s).

Definition hash_unlock (h : kv_hash_id) (k : Z) : M unit := fun s =>
  if decide (k ∈ h_locks (get_hash h s))
  then Done tt (upd_hash h (fun t => t <| h_locks ::= fun l => l ∖ {[k]} |>) s)
  else Fault BadUnlock.

(** [hlist_add_head(&rq->hash, hashtable + k)]. *)
Definition hlist_add_head (i : positive) (h : kv_hash_id) (k : Z) : M unit :=
  upd_rq i (fun r => r <| rq_hash := Some (h, k) |>) ;;
  modify (upd_hash h (fun t => t <| h_table ::= <[k := i :: chain t k]> |>)).

(** [hlist_del_init(&rq->hash)]: unlinks the node from the chain it is in. *)
Definition hlist_del_init (i : positive) : M unit :=
  r <- get_rq i ;;
  match rq_hash r with
  | None => ret tt
  | Some (h, k) =>
      upd_rq i (fun r => r <| rq_hash := None |>) ;;
      modify (upd_hash h (fun t => t <| h_table ::= <[k := filter (fun j => j <> i) (chain t k)]> |>))
  end.

Definition hlist_unhashed (r : kv_async_request) : bool :=
  match rq_hash r with None => true | Some _ => false end.

Definition add_nr_rq (h : kv_hash_id) (d : Z) : M unit :=
  modify (upd_hash h (fun t => t <| h_nr_rq ::= Z.add d |>)).

(** *** Memory queues *)

Definition zero_memq : kv_memqueue_struct :=
  {| mq_rq := []; mq_nr_pending := 0; mq_nr_rq := 0; mq_key := replicate 16 0 |}.

(** The slab hands out an object that was freed, which keeps the fields it was
    freed with, or a constructed one ([init_memq_once]).  The object gets a new
    number, so that a pointer to the old one is not taken for it. *)
Definition kv_memq_alloc : M (option positive) :=
  b <- fails ;;
  if b : bool then ret None
  else fun s =>
    let m := s_next_memq s in
    Done (Some m) (s <| s_memqs ::= <[m := default zero_memq (s_memq_slab s !! 0%nat)]> |> <| s_next_memq ::= Pos.succ |>
                     <| s_memq_slab ::= drop 1 |>).

Definition get_memq (m : positive) : M kv_memqueue_struct := fun s =>
  match s_memqs s !! m with Some q => Done q s | None => Fault UseAfterFree end.

Definition upd_memq (m : positive) (f : kv_memqueue_struct -> kv_memqueue_struct) : M unit := fun s =>
  match s_memqs s !! m with
  | Some q => Done tt (s <| s_memqs ::= <[m := f q]> |>)
  | None => Fault UseAfterFree
  end.

Definition kv_memq_free (m : positive) : M unit :=
  upd_memq m (fun q => q <| mq_key := replicate 16 0 |>) ;;
  q <- get_memq m ;;
  modify (fun s => s <| s_memqs ::= delete m |> <| s_memq_slab ::= cons q |>).

(** *** Scheduler state, daemons *)

Definition set_io_bit (n : Z) : M unit := modify (fun s => s <| s_state ::= set_bit n |>).
Definition clear_io_bit (n : Z) : M unit := modify (fun s => s <| s_state ::= clear_bit n |>).
Definition test_and_clear_io_bit (n : Z) : M bool :=
  b <- gets (fun s => test_bit n (s_state s)) ;; clear_io_bit n ;; ret b.

Definition get_submitd (t : Z) : M kv_work_struct := fun s =>
  match s_submit s !! t with Some d => Done d s | None => Fault NullDeref end.
Definition upd_submitd (t : Z) (f : kv_work_struct -> kv_work_struct) : M unit := fun s =>
  match s_submit s !! t with
  | Some d => Done tt (s <| s_submit ::= <[t := f d]> |>)
  | None => Fault NullDeref
  end.

(** [queue_work(submitd->submit_wq, &submitd->submit_work)]. *)
Definition queue_submit_work (t : Z) : M unit := upd_submitd t (fun d => d <| sd_queued := true |>).

(** *** Sleeping *)

(** [wait_on_bit(&rq->state, bit, TASK_KILLABLE)].  When the bit is set the
    thread sleeps and the others run; the wait then reads the state word again,
    which is a stale read when the request has been freed meanwhile. *)
Definition read_state (i : positive) : M (option Z) := fun s =>
  match s_heap s !! i with
  | Some r => Done (Some (rq_state r)) s
  | None => Done None (s <| stale_reads ::= cons i |>)
  end.

Definition wait_on_bit (sleep : driver Q -> driver Q) (i : positive) (bit : Z) : M unit :=
  st <- read_state i ;;
  match st with
  | Some w => if test_bit bit w then modify sleep ;; read_state i ;; ret tt else ret tt
  | None => ret tt
  end.

(** [wait_on_bit(&kv_iosched->state, bit, TASK_KILLABLE)]. *)
Definition wait_on_io_bit (sleep : driver Q -> driver Q) (bit : Z) : M unit :=
  b <- gets (fun s => test_bit bit (s_state s)) ;; when b (modify sleep).
End Primitives.
