(* ===== verification/KvHash.v ===== *)
(** * The request and read-ahead hash tables

    Models kv_hash.c of the KV driver: the chained hash tables that find the
    buffered or in-flight request of a key ([KV_RQ_HASH]) and the data read
    ahead ([KV_RA_HASH]).  The operations keep the source's order of lock,
    search, reference count and unlock; [goto restart] is recursion on fuel. *)

From Stdlib Require Import ZArith Lia Bool.
From stdpp Require Import base list gmap.
From S2P Require Import Prelude KvFifo KvCmd KvState.

Section KvHash.
  Context `{KernelHash} `{Device} {Q : Type}.
  Variable sleep : driver Q -> driver Q.
  Local Abbreviation M := (M (driver Q)).

(** Bits of a request's state. *)
Definition bit (n : Z) (r : kv_async_request) : bool := test_bit n (rq_state r).

Definition kv_hash_init : kv_hash := {| h_table := ∅; h_locks := ∅; h_nr_rq := 0 |}.

(** The loop of [kv_hash_search] along a chain: the first request with the key
    gets a reference.  The keys are only read when there is a byte to compare. *)
Fixpoint kv_hash_search (c : list positive) (key : option (list Z)) (klen : Z) : M (option positive) :=
  match c with
  | [] => ret None
  | i :: c' =>
      r <- get_rq i ;;
      if negb (rq_key_length r =? klen) then kv_hash_search c' key klen
      else
        found <- (if klen =? 0 then ret true
                  else k1 <- deref (rq_key r) ;; k2 <- deref key ;; ret (key_match k1 k2 klen)) ;;
        if found : bool then atomic_inc i ;; ret (Some i)
        else kv_hash_search c' key klen
  end.

Definition search (h : kv_hash_id) (key : option (list Z)) (klen hash_key : Z) : M (option positive) :=
  c <- gets (fun s => chain (get_hash h s) hash_key) ;; kv_hash_search c key klen.

(** [UNLOCK_AND_RESTART] up to its [goto]: the bucket to unlock is read from
    the request after the reference has been dropped. *)
Definition unlock_and_restart (h : kv_hash_id) (i : positive) : M unit :=
  put_locked i ;; r <- get_rq i ;; hash_unlock h (rq_hash_key r).

(** Returns the buffered request with the same key, locked and referenced, or
    NULL when [rq] was inserted. *)
Fixpoint kv_hash_insert (fuel : nat) (h : kv_hash_id) (rq : positive) : M (option positive) :=
  match fuel with
  | O => fail OutOfFuel
  | S fuel' =>
      r <- get_rq rq ;;
      hash_lock h (rq_hash_key r) ;;
      found <- search h (rq_key r) (rq_key_length r) (rq_hash_key r) ;;
      match found with
      | None =>
          hlist_add_head rq h (rq_hash_key r) ;;
          add_nr_rq h 1 ;;
          hash_unlock h (rq_hash_key r) ;;
          ret None
      | Some b =>
          spin_lock b ;;
          rb <- get_rq b ;;
          if bit KV_async_completed rb then unlock_and_restart h b ;; kv_hash_insert fuel' h rq
          else if bit KV_async_invalid_rq rb then unlock_and_restart h b ;; kv_hash_insert fuel' h rq
          else if bit KV_async_blocking_rq rb then unlock_and_restart h b ;; kv_hash_insert fuel' h rq
          else if bit KV_async_inFlight_rq rb then
            hlist_del_init b ;;
            hlist_add_head rq h (rq_hash_key r) ;;
            hash_unlock h (rq_hash_key r) ;;
            set_rq_bit KV_async_blocking_rq b ;;
            upd_rq rq (fun r => r <| rq_blocking_rq := Some b |>) ;;
            ret None
          else
            hash_unlock h (rq_hash_key r) ;;
            ret (Some b)
      end
  end.

(** Returns the request already holding the key, referenced, or NULL when [rq]
    was inserted at the head of the chain and of the read-ahead list. *)
Definition kv_hash_insert_readahead (h : kv_hash_id) (rq : positive) : M (option positive) :=
  r <- get_rq rq ;;
  hash_lock h (rq_hash_key r) ;;
  found <- search h (rq_key r) (rq_key_length r) (rq_hash_key r) ;;
  match found with
  | None =>
      modify (fun s => s <| s_ra_list ::= cons rq |>) ;;
      hlist_add_head rq h (rq_hash_key r) ;;
      add_nr_rq h 1
  | Some _ => ret tt
  end ;;
  hash_unlock h (rq_hash_key r) ;;
  ret found.

Fixpoint kv_hash_find (fuel : nat) (h : kv_hash_id) (key : option (list Z)) (klen hash_key : Z)
    (lock : bool) : M (option positive) :=
  match fuel with
  | O => fail OutOfFuel
  | S fuel' =>
      hash_lock h hash_key ;;
      found <- search h key klen hash_key ;;
      hash_unlock h hash_key ;;
      match found with
      | None => ret None
      | Some i =>
          when lock (spin_lock i) ;;
          z <- atomic_dec_and_test i ;;
          if z : bool then free_kv_async_rq i ;; kv_hash_find fuel' h key klen hash_key lock
          else when lock (spin_unlock i) ;; ret (Some i)
      end
  end.

Definition kv_hash_find_refcnt (h : kv_hash_id) (key : option (list Z)) (klen hash_key : Z) :
    M (option positive) :=
  hash_lock h hash_key ;;
  found <- search h key klen hash_key ;;
  hash_unlock h hash_key ;;
  ret found.

Definition kv_decrease_req_refcnt (i : positive) (lock : bool) : M bool :=
  when lock (spin_lock i) ;;
  z <- atomic_dec_and_test i ;;
  if z : bool then free_kv_async_rq i ;; ret true
  else when lock (spin_unlock i) ;; ret false.

(** For a synchronous command: the buffered request with the key, now invalid
    and unhashed, locked and referenced; the flag is [*inFlight]. *)
Fixpoint kv_hash_find_and_lock (fuel : nat) (h : kv_hash_id) (key : option (list Z))
    (klen hash_key : Z) : M (option positive * bool) :=
  match fuel with
  | O => fail OutOfFuel
  | S fuel' =>
      hash_lock h hash_key ;;
      found <- search h key klen hash_key ;;
      match found with
      | None => hash_unlock h hash_key ;; ret (None, false)
      | Some i =>
          spin_lock i ;;
          r <- get_rq i ;;
          if bit KV_async_completed r then
            unlock_and_restart h i ;; kv_hash_find_and_lock fuel' h key klen hash_key
          else if bit KV_async_invalid_rq r then
            unlock_and_restart h i ;; kv_hash_find_and_lock fuel' h key klen hash_key
          else if bit KV_async_blocking_rq r then
            unlock_and_restart h i ;; kv_hash_find_and_lock fuel' h key klen hash_key
          else if bit KV_async_inFlight_rq r then
            hash_unlock h hash_key ;;
            put_locked i ;;
            wait_on_bit sleep i KV_async_inFlight_rq ;;
            ret (None, true)
          else match rq_blocking_rq r with
          | Some _ =>
              hash_unlock h hash_key ;;
              put_locked i ;;
              r' <- get_rq i ;;
              match rq_blocking_rq r' with
              | Some b => wait_on_bit sleep b KV_async_inFlight_rq
              | None => fail NullDeref
              end ;;
              kv_hash_find_and_lock fuel' h key klen hash_key
          | None =>
              set_rq_bit KV_async_invalid_rq i ;;
              hlist_del_init i ;;
              hash_unlock h hash_key ;;
              add_nr_rq h (-1) ;;
              ret (Some i, false)
          end
      end
  end.

(** For discarding read-ahead data: a buffered read of the key is invalidated. *)
Fixpoint kv_hash_find_read_and_invalidate (fuel : nat) (h : kv_hash_id) (key : option (list Z))
    (klen hash_key : Z) : M (option positive) :=
  match fuel with
  | O => fail OutOfFuel
  | S fuel' =>
      hash_lock h hash_key ;;
      found <- search h key klen hash_key ;;
      match found with
      | None => hash_unlock h hash_key ;; ret None
      | Some i =>
          spin_lock i ;;
          r <- get_rq i ;;
          if bit KV_async_completed r then
            unlock_and_restart h i ;; kv_hash_find_read_and_invalidate fuel' h key klen hash_key
          else if bit KV_async_invalid_rq r then
            unlock_and_restart h i ;; kv_hash_find_read_and_invalidate fuel' h key klen hash_key
          else if bit KV_async_blocking_rq r then
            unlock_and_restart h i ;; kv_hash_find_read_and_invalidate fuel' h key klen hash_key
          else if bit KV_async_inFlight_rq r then
            hash_unlock h hash_key ;;
            put_locked i ;;
            wait_on_bit sleep i KV_async_inFlight_rq ;;
            ret None
          else match rq_blocking_rq r with
          | Some _ =>
              hash_unlock h hash_key ;;
              put_locked i ;;
              r' <- get_rq i ;;
              match rq_blocking_rq r' with
              | Some b => wait_on_bit sleep b KV_async_inFlight_rq
              | None => fail NullDeref
              end ;;
              kv_hash_find_read_and_invalidate fuel' h key klen hash_key
          | None =>
              when (is_kv_retrieve_cmd (c_opcode (rq_c r)))
                (set_rq_bit KV_async_invalid_rq i ;;
                 hlist_del_init i ;;
                 hash_unlock h hash_key ;;
                 add_nr_rq h (-1)) ;;
              z <- atomic_dec_and_test i ;;
              (if z : bool then hash_unlock h hash_key ;; free_kv_async_rq i
               else spin_unlock i ;; hash_unlock h hash_key) ;;
              ret (Some i)
          end
      end
  end.

(** For the completion daemon: the pending request of the key, locked and
    referenced.  The diagnostics of the source only log. *)
Definition kv_hash_find_and_lock_pending_rq (h : kv_hash_id) (key : option (list Z))
    (klen hash_key : Z) : M (option positive) :=
  hash_lock h hash_key ;;
  found <- search h key klen hash_key ;;
  hash_unlock h hash_key ;;
  match found with
  | Some i => spin_lock i ;; ret (Some i)
  | None => ret None
  end.

Definition kv_hash_find_and_del_readahead (h : kv_hash_id) (key : option (list Z))
    (klen hash_key : Z) : M (option positive) :=
  hash_lock h hash_key ;;
  found <- search h key klen hash_key ;;
  match found with
  | Some i =>
      modify (fun s => s <| s_ra_list ::= filter (fun j => j <> i) |>) ;;
      hlist_del_init i ;;
      add_nr_rq h (-1) ;;
      atomic_dec i
  | None => ret tt
  end ;;
  hash_unlock h hash_key ;;
  ret found.

(** 1 when the request was not in a table. *)
Definition kv_hash_delete_readahead (h : kv_hash_id) (i : positive) : M Z :=
  r <- get_rq i ;;
  hash_lock h (rq_hash_key r) ;;
  res <- (if hlist_unhashed r then ret 1
          else modify (fun s => s <| s_ra_list ::= filter (fun j => j <> i) |>) ;;
               hlist_del_init i ;;
               add_nr_rq h (-1) ;;
               ret 0) ;;
  hash_unlock h (rq_hash_key r) ;;
  ret res.

Definition kv_hash_delete (h : kv_hash_id) (i : positive) : M Z :=
  r <- get_rq i ;;
  hash_lock h (rq_hash_key r) ;;
  res <- (if hlist_unhashed r then ret 1
          else hlist_del_init i ;;
               add_nr_rq h (-1) ;;
               ret 0) ;;
  hash_unlock h (rq_hash_key r) ;;
  ret res.
End KvHash.
