(* ===== verification/KvIosched.v ===== *)
(** * The scheduling, submission and completion daemons

    Models kv_iosched.c of the KV driver, with the submission loop
    [__nvme_submit_iosched_kv_cmd] and the interrupt handler
    [kv_end_io_async_rq] of kv_core.c.  An asynchronous request is buffered in
    the active memory queue of its CPU; the scheduling daemon moves the queue to
    a submission daemon's list, the submission daemon gives its requests to the
    block layer unless one of them is pending, the interrupt handler puts a
    finished request in the completion ring and the completion daemon unhashes
    it, wakes the waiters and releases the request pending on it.

    The spin locks [mumemq_lock], [work_lock], [complete_lock] and [ra_lock]
    bracket single list or work-queue operations, which are atomic here; the
    statistics counters and the log messages are left out. *)

From Stdlib Require Import ZArith Lia Bool.
From stdpp Require Import base list gmap.
From S2P Require Import Prelude KvFifo KvCmd KvState KvHash.

Section KvIosched.
  Context `{KernelHash} `{Device} `{FifoOps Q}.
  Variable sleep : driver Q -> driver Q.
  (** [num_online_cpus()]; the possible CPUs are [0 .. nr_cpus - 1]. *)
  Variable nr_cpus : Z.
  Local Abbreviation M := (M (driver Q)).

Definition cpus : list Z := map Z.of_nat (seq 0 (Z.to_nat nr_cpus)).

(** *** Waking the scheduling daemons *)

(** [queue_delayed_work_on]: false when the work is already queued.  The delay
    only says when the daemon runs at the latest. *)
Definition kv_sched_wakeup_delayed (cpu t : Z) : M bool :=
  reg <- gets (fun s => test_bit KV_iosched_registered (s_state s)) ;;
  if reg : bool then
    busy <- gets (fun s => bool_decide ((t, cpu) ∈ s_schedd s)) ;;
    modify (fun s => s <| s_schedd ::= union {[(t, cpu)]} |>) ;;
    ret (negb busy)
  else ret false.

Definition kv_sched_wakeup_immediately (cpu t : Z) : M unit :=
  reg <- gets (fun s => test_bit KV_iosched_registered (s_state s)) ;;
  when reg (modify (fun s => s <| s_schedd ::= union {[(t, cpu)]} |>)).

Definition kv_sched_daemon_busy (cpu t : Z) : M bool :=
  gets (fun s => bool_decide ((t, cpu) ∈ s_schedd s)).

Definition kv_sched_cancel_work (cpu t : Z) : M unit :=
  reg <- gets (fun s => test_bit KV_iosched_registered (s_state s)) ;;
  when reg (modify (fun s => s <| s_schedd ::= fun w => w ∖ {[(t, cpu)]} |>)).

(** *** Scheduling: active queue to submission list *)

Definition get_percpu (t cpu : Z) : M (option positive) := gets (fun s => s_percpu_memq s !! (t, cpu)).

(** Storing NULL removes the entry. *)
Definition set_percpu (t cpu : Z) (m : option positive) : M unit :=
  modify (fun s => s <| s_percpu_memq ::= fun p => partial_alter (fun _ => m) (t, cpu) p |>).

Definition kv_scheduling_workfn (cpu memq_id : Z) : M unit :=
  let reserved_memq := memq_id + GET_RESERVED in
  res <- get_percpu reserved_memq cpu ;;
  ok <- match res with
        | Some _ => ret true
        | None =>
            new_memq <- kv_memq_alloc ;;
            match new_memq with
            | None => ret false
            | Some m => set_percpu reserved_memq cpu (Some m) ;; ret true
            end
        end ;;
  if negb ok then ret tt
  else
    mutable_memq <- get_percpu memq_id cpu ;;
    reserved <- get_percpu reserved_memq cpu ;;
    set_percpu memq_id cpu reserved ;;
    new_memq <- kv_memq_alloc ;;
    set_percpu reserved_memq cpu new_memq ;;
    match mutable_memq with
    | None => fail NullDeref
    | Some m =>
        q <- get_memq m ;;
        match mq_rq q with
        | _ :: _ =>
            upd_submitd memq_id (fun d => d <| sd_mumemq_list ::= fun l => l ++ [m] |>) ;;
            queue_submit_work memq_id
        | [] => kv_memq_free m
        end
    end.

(** [flush_delayed_work]: a queued scheduling work runs now. *)
Definition flush_delayed_work (t cpu : Z) : M unit :=
  busy <- kv_sched_daemon_busy cpu t ;;
  when busy (modify (fun s => s <| s_schedd ::= fun w => w ∖ {[(t, cpu)]} |>) ;;
             kv_scheduling_workfn cpu t).

Definition kv_sched_flush_workqueue (t : Z) : M unit := for_each cpus (fun cpu => flush_delayed_work t cpu).

(** *** Submission *)

Definition atomic_inc_return (cpu : Z) : M Z :=
  n <- gets (fun s => default 0 (s_in_flight s !! cpu)) ;;
  modify (fun s => s <| s_in_flight ::= <[cpu := n + 1]> |>) ;;
  ret (n + 1).

(** [SUBMIT_ERROR_RETURN]. *)
Definition submit_error_return (i m : positive) (err : Z) : M Z :=
  upd_rq i (fun r => r <| rq_req := false |>) ;;
  upd_memq m (fun q => q <| mq_rq ::= cons i |>) ;;
  ret err.

(** One request of the loop, on the CPU [cpu]: [inl] is a [return], [inr] goes
    on with the next one.  [req] is NULL whenever an iteration starts.  The
    error code of a failed block layer call stands for any non-zero one. *)
Definition submit_one (m : positive) (cpu : Z) (i : positive) : M (Z + unit) :=
  r <- get_rq i ;;
  match rq_blocking_rq r with
  | Some _ =>
      spin_unlock i ;;
      upd_rq i (fun r => r <| rq_blocking_rq := None |>) ;;
      ret (inl EINVAL)
  | None =>
      alloc_err <- fails ;;
      if alloc_err : bool then spin_unlock i ;; ret (inl ENOMEM)
      else
        spin_lock i ;;
        upd_memq m (fun q => q <| mq_rq ::= filter (fun j => j <> i) |>) ;;
        clear_rq_bit KV_async_waiting_submission i ;;
        r <- get_rq i ;;
        if bit KV_async_invalid_rq r then
          upd_memq m (fun q => q <| mq_nr_rq ::= Z.add (-1) |>) ;;
          clear_rq_bit KV_async_flush_wakeup i ;;
          put_locked i ;;
          ret (inr tt)
        else
          set_rq_bit KV_async_inFlight_rq i ;;
          spin_unlock i ;;
          upd_rq i (fun r => r <| rq_req := true |>) ;;
          r <- get_rq i ;;
          let has_data := match rq_data_addr r with Some _ => negb (rq_data_length r =? 0) | None => false end in
          e1 <- fails ;;
          e2 <- (if has_data then fails else ret false) ;;
          if e1 || e2 then x <- submit_error_return i m ENODEV ;; ret (inl x)
          else
            let long_key := match rq_key r with
                            | Some _ => KVCMD_INLINE_KEY_MAX <? rq_key_length r | None => false end in
            e3 <- (if long_key then fails else ret false) ;;
            e4 <- (if long_key then fails else ret false) ;;
            if e3 || e4 then x <- submit_error_return i m ENOMEM ;; ret (inl x)
            else
              upd_rq i (fun r => r <| rq_cpu := Some cpu |>) ;;
              n <- atomic_inc_return cpu ;;
              when (KV_MAX_INFLIGHT_REQUEST <? n)
                (set_io_bit KV_iosched_congested ;;
                 wait_on_io_bit sleep KV_iosched_congested) ;;
              modify (fun s => s <| s_dev_queue ::= fun l => l ++ [i] |>) ;;
              upd_memq m (fun q => q <| mq_nr_rq ::= Z.add (-1) |>) ;;
              ret (inr tt)
  end.

Fixpoint submit_loop (m : positive) (cpu : Z) (l : list positive) : M Z :=
  match l with
  | [] => ret 0
  | i :: l' =>
      x <- submit_one m cpu i ;;
      match x with
      | inl err => ret err
      | inr _ => submit_loop m cpu l'
      end
  end.

Definition __nvme_submit_iosched_kv_cmd (m : positive) (cpu : Z) : M Z :=
  q <- get_memq m ;; submit_loop m cpu (mq_rq q).

(** The wait for the blocking key of a batch: the request holding it must have
    been submitted before the batch is. *)
Definition wait_blocking_key (bkey : list Z) : M unit :=
  found <- kv_hash_find_refcnt KV_RQ_HASH (Some bkey) KVCMD_INLINE_KEY_MAX
             (get_hash_key bkey KVCMD_INLINE_KEY_MAX) ;;
  match found with
  | None => ret tt
  | Some i =>
      spin_lock i ;;
      r <- get_rq i ;;
      if negb (bit KV_async_completed r) && negb (bit KV_async_inFlight_rq r) then
        set_rq_bit KV_async_waiting_submission i ;;
        spin_unlock i ;;
        (fix wake (l : list Z) : M unit :=
           match l with
           | [] => ret tt
           | c :: l' =>
               r <- get_rq i ;;
               p <- get_percpu READ_DAEMON c ;;
               if bool_decide (rq_memq r = p) then
                 match rq_memq r with
                 | None => fail NullDeref
                 | Some m =>
                     q <- get_memq m ;;
                     when (negb (mq_nr_rq q =? 0)) (kv_sched_wakeup_immediately c READ_DAEMON) ;;
                     flush_delayed_work READ_DAEMON c
                 end
               else wake l'
           end) cpus ;;
        wait_on_bit sleep i KV_async_waiting_submission ;;
        kv_decrease_req_refcnt i true ;;
        ret tt
      else
        freed <- kv_decrease_req_refcnt i false ;;
        if freed : bool then ret tt else spin_unlock i
  end.

(** [submitd->last_cpu] after a submission. *)
Definition next_cpu (t last : Z) : Z :=
  let n := if (t =? READ_DAEMON) || (t =? BATCH_READ_DAEMON) then last + 1
           else if (t =? WRITE_DAEMON) || (t =? BATCH_WRITE_DAEMON) then last + 2 else last in
  if nr_cpus <=? n then 0 else n.

(** The wake-up bit of a daemon that stopped at a pending request. *)
Definition need_to_wake_bit (t : Z) : Z :=
  if t =? READ_DAEMON then KV_iosched_need_to_wake_read_submit_daemon
  else if t =? WRITE_DAEMON then KV_iosched_need_to_wake_write_submit_daemon
  else if t =? BATCH_READ_DAEMON then KV_iosched_need_to_wake_multi_read_submit_daemon
  else KV_iosched_need_to_wake_multi_write_submit_daemon.

(** The [while] loop of the submission daemon of type [t], running on [cpu]. *)
Fixpoint kv_submission_workfn (fuel : nat) (t cpu : Z) : M unit :=
  match fuel with
  | O => fail OutOfFuel
  | S fuel' =>
      d <- get_submitd t ;;
      match sd_mumemq_list d with
      | [] => ret tt
      | m :: rest =>
          q <- get_memq m ;;
          if negb (mq_nr_pending q =? 0) then
            upd_submitd t (fun d => d <| sd_mumemq_list := rest ++ [m] |>) ;;
            n <- gets (fun s => fifo_nr_ele (s_fifo s)) ;;
            when (negb (n =? 0)) (modify (fun s => s <| s_complete_queued := true |>)) ;;
            set_io_bit KV_iosched_need_to_wake_write_submit_daemon ;;
            set_io_bit (need_to_wake_bit t)
          else
            upd_submitd t (fun d => d <| sd_mumemq_list := rest |>) ;;
            when (negb (forallb (Z.eqb 0) (mq_key q))) (wait_blocking_key (mq_key q)) ;;
            err <- __nvme_submit_iosched_kv_cmd m cpu ;;
            upd_submitd t (fun d => d <| sd_last_cpu ::= next_cpu t |>) ;;
            q <- get_memq m ;;
            if negb (mq_nr_rq q =? 0) then
              upd_submitd t (fun d => d <| sd_mumemq_list ::= fun l => l ++ [m] |>) ;;
              if negb (err =? 0) then fail BugOn else kv_submission_workfn fuel' t cpu
            else
              kv_memq_free m ;;
              kv_submission_workfn fuel' t cpu
      end
  end.

(** *** The interrupt handler *)

(** [while(!kv_fifo_enqueue(...))] spins until there is room. *)
Definition kv_end_io_async_rq (i : positive) : M unit :=
  ok <- (fun s => let '(ok, q) := fifo_enqueue (s_fifo s) i in Done ok (s <| s_fifo := q |>)) ;;
  if negb ok then fail OutOfFuel
  else modify (fun s => s <| s_nr_interrupt ::= Z.add 1 |> <| s_complete_queued := true |>).

(** The device finishes the request [i] it was given: the completion entry and
    the data are in place when the handler runs. *)
Definition device_complete (i : positive) : M unit :=
  r <- get_rq i ;;
  (fun s =>
     let '(d, ans) := dev_exec (s_dev s) (rq_c r) (device_key (rq_c r) (rq_key r) (rq_key_length r))
                       (default [] (rq_data_addr r)) in
     Done tt (s <| s_dev := d |>
                <| s_dev_queue ::= filter (fun j => j <> i) |>
                <| s_heap ::= <[i := r <| rq_cqe := ans_result ans |>
                                        <| rq_req_errors := ans_errors ans |>
                                        <| rq_data_addr := if is_kv_retrieve_cmd (c_opcode (rq_c r))
                                             then (fun _ => ans_data ans) <$> rq_data_addr r
                                             else rq_data_addr r |> ]> |>)) ;;
  kv_end_io_async_rq i.

(** *** Completion *)

Definition dec_in_flight (r : kv_async_request) : M unit :=
  match rq_cpu r with
  | Some cpu => modify (fun s => s <| s_in_flight ::= <[cpu := default 0 (s_in_flight s !! cpu) - 1]> |>)
  | None => fail NullDeref
  end.

(** Releasing the request that was pending on [r]. *)
Definition unblock_pending (r : kv_async_request) : M unit :=
  pend <- kv_hash_find_and_lock_pending_rq KV_RQ_HASH (rq_key r) (rq_key_length r) (rq_hash_key r) ;;
  match pend with
  | None => ret tt
  | Some p =>
      rp <- get_rq p ;;
      match rq_blocking_rq rp with
      | Some _ =>
          upd_rq p (fun r => r <| rq_blocking_rq := None |>) ;;
          match rq_memq rp with
          | Some m => upd_memq m (fun q => q <| mq_nr_pending ::= Z.add (-1) |>)
          | None => fail NullDeref
          end
      | None => ret tt
      end ;;
      put_locked p
  end.

(** One iteration of the [while] loop of the completion daemon. *)
Definition complete_one (i : positive) : M unit :=
  r <- get_rq i ;;
  dec_in_flight r ;;
  test_and_clear_io_bit KV_iosched_congested ;;
  kv_hash_delete KV_RQ_HASH i ;;
  low <- gets (fun s => h_nr_rq (s_rq_hash s) <? KV_PENDING_QUEU_LOW_WATERMARK) ;;
  when low (test_and_clear_io_bit KV_iosched_queue_full ;; ret tt) ;;
  spin_lock i ;;
  set_rq_bit KV_async_completed i ;;
  r <- get_rq i ;;
  (if negb (rq_req r) then fail NullDeref
   else upd_rq i (fun r => r <| rq_errors := rq_req_errors r |>)) ;;
  (if is_kv_retrieve_cmd (c_opcode (rq_c r)) then upd_rq i (fun r => r <| rq_result := rq_cqe r |>)
   else upd_rq i (fun r => r <| rq_result := rq_data_length r |>)) ;;
  when (is_kv_retrieve_cmd (c_opcode (rq_c r)))
    (ra_rq <- kv_hash_insert_readahead KV_RA_HASH i ;;
     match ra_rq with
     | None => set_rq_bit KV_async_in_readahead i
     | Some a => z <- atomic_dec_and_test a ;; when z (spin_lock a ;; free_kv_async_rq a)
     end) ;;
  clear_rq_bit KV_async_inFlight_rq i ;;
  clear_rq_bit KV_async_flush_wakeup i ;;
  r <- get_rq i ;;
  when (bit KV_async_blocking_rq r)
    (clear_rq_bit KV_async_blocking_rq i ;; unblock_pending r) ;;
  upd_rq i (fun r => r <| rq_req := false |>) ;;
  r <- get_rq i ;;
  (if bit KV_async_in_readahead r then spin_unlock i else put_locked i) ;;
  modify (fun s => s <| s_nr_complete ::= Z.add 1 |>).

Fixpoint completion_loop (fuel : nat) : M unit :=
  match fuel with
  | O => fail OutOfFuel
  | S fuel' =>
      x <- (fun s => let '(a, q) := fifo_dequeue (s_fifo s) in Done a (s <| s_fifo := q |>)) ;;
      match x with
      | Some i => complete_one i ;; completion_loop fuel'
      | None =>
          n <- gets (fun s => s_nr_interrupt s =? s_nr_complete s) ;;
          if n : bool then ret tt
          else modify (fun s => s <| s_nr_retry ::= Z.add 1 |>) ;; completion_loop fuel'
      end
  end.

(** Queues the submission daemon that asked to be woken. *)
Definition wake_submit (bitn t : Z) : M unit :=
  b <- test_and_clear_io_bit bitn ;; when b (queue_submit_work t).

Definition kv_completion_workfn (fuel : nat) : M unit :=
  completion_loop fuel ;;
  wake_submit KV_iosched_need_to_wake_read_submit_daemon READ_DAEMON ;;
  wake_submit KV_iosched_need_to_wake_write_submit_daemon WRITE_DAEMON ;;
  wake_submit KV_iosched_need_to_wake_multi_read_submit_daemon BATCH_READ_DAEMON ;;
  wake_submit KV_iosched_need_to_wake_multi_write_submit_daemon BATCH_WRITE_DAEMON.

(** *** Initialisation *)

Definition memq_types : list Z := [ACTIVE_READ; ACTIVE_WRITE; 2; 3].
Definition daemon_types : list Z := [READ_DAEMON; WRITE_DAEMON; BATCH_READ_DAEMON; BATCH_WRITE_DAEMON].

(** [create_workqueue] may fail; the error is returned to the caller. *)
Fixpoint try_each {A} (l : list A) (body : A -> M bool) : M bool :=
  match l with
  | [] => ret true
  | x :: l' => ok <- body x ;; if ok : bool then try_each l' body else ret false
  end.

Definition init_kv_workqueue : M Z :=
  ok1 <- try_each [ACTIVE_READ; ACTIVE_WRITE] (fun t => try_each cpus (fun cpu =>
           b <- fails ;; ret (negb b))) ;;
  if negb ok1 then ret ENOMEM else
  ok2 <- try_each daemon_types (fun t =>
           b <- fails ;;
           if b : bool then ret false
           else modify (fun s => s <| s_submit ::=
                  <[t := {| sd_mumemq_list := []; sd_last_cpu := 0; sd_queued := false |}]> |>) ;;
                ret true) ;;
  if negb ok2 then ret ENOMEM else
  b <- fails ;;
  if b : bool then ret ENOMEM
  else modify (fun s => s <| s_complete_queued := false |>) ;; ret 0.

(** [fifo0] is the queue [init_kv_fifo] sets up. *)
Definition kv_iosched_init (fifo0 : Q) : M Z :=
  err <- init_kv_workqueue ;;
  if negb (err =? 0) then ret err else
  modify (fun s => s <| s_fifo := fifo0 |>) ;;
  ok <- try_each memq_types (fun t =>
          b <- fails ;;
          if b : bool then ret false
          else try_each cpus (fun cpu =>
                 m <- kv_memq_alloc ;;
                 set_percpu t cpu m ;;
                 ret (match m with Some _ => true | None => false end))) ;;
  if negb ok then ret ENOMEM else
  modify (fun s =>
    s <| s_rq_hash := kv_hash_init |> <| s_ra_hash := kv_hash_init |> <| s_ra_list := [] |>
      <| s_in_flight := ∅ |> <| s_nr_interrupt := 0 |> <| s_nr_complete := 0 |>
      <| s_nr_retry := 0 |> <| s_state ::= set_bit KV_iosched_registered |>) ;;
  ret 0.

(** *** Work queues *)

(** The kernel takes a queued work off its queue and runs it. *)
Definition run_submit_work (fuel : nat) (t cpu : Z) : M unit :=
  d <- get_submitd t ;;
  when (sd_queued d) (upd_submitd t (fun d => d <| sd_queued := false |>) ;;
                      kv_submission_workfn fuel t cpu).

Definition run_complete_work (fuel : nat) : M unit :=
  b <- gets (fun s => s_complete_queued s) ;;
  when b (modify (fun s => s <| s_complete_queued := false |>) ;; kv_completion_workfn fuel).

(** *** Shutdown *)

(** [wait_on_atomic_t]: sleeps until the counter of [cpu] is 0. *)
Definition wait_in_flight (cpu : Z) : M unit :=
  n <- gets (fun s => default 0 (s_in_flight s !! cpu)) ;;
  when (negb (n =? 0)) (modify sleep).

Definition MAX_HOST_CPU : nat := 128.

Definition destroy_ra (i : positive) : M unit :=
  kv_hash_delete KV_RA_HASH i ;;
  modify (fun s => s <| s_ra_list ::= filter (fun j => j <> i) |>) ;;
  spin_lock i ;;
  put_locked i.

(** [destroy_fifo] is [destroy_kv_fifo]; [None] is its [BUG_ON]. *)
Definition kv_iosched_destroy (fuel : nat) (destroy_fifo : Q -> option unit) : M unit :=
  reg <- test_and_clear_io_bit KV_iosched_registered ;;
  if negb reg then ret tt else
  for_each [ACTIVE_READ; ACTIVE_WRITE] (fun t => for_each cpus (fun cpu => flush_delayed_work t cpu)) ;;
  for_each memq_types (fun t => for_each cpus (fun cpu =>
    m <- get_percpu t cpu ;;
    match m with
    | None => ret tt
    | Some m =>
        q <- get_memq m ;;
        if negb (mq_nr_rq q =? 0)
        then upd_submitd t (fun d => d <| sd_mumemq_list ::= fun l => l ++ [m] |>)
        else kv_memq_free m
    end)) ;;
  modify (fun s => s <| s_percpu_memq := ∅ |>) ;;
  for_each daemon_types (fun t => queue_submit_work t ;; run_submit_work fuel t 0) ;;
  for_each (map Z.of_nat (seq 0 MAX_HOST_CPU)) wait_in_flight ;;
  modify (fun s => s <| s_complete_queued := true |>) ;;
  run_complete_work fuel ;;
  b <- gets (fun s => destroy_fifo (s_fifo s)) ;;
  match b with None => fail BugOn | Some _ => ret tt end ;;
  l <- gets s_ra_list ;;
  for_each l destroy_ra.
End KvIosched.
