(* ===== verification/KvCore.v ===== *)
(** * The ioctl handlers of the KV driver

    Models kv_core.c: the asynchronous put, get and delete
    ([nvme_kv_iosched_cmd] and its batch form), the synchronous commands that
    take over a buffered request of the same key ([nvme_kv_cmd] and its batch
    form), the flush, the discarding of read-ahead data and the non-blocking
    read.  A handler's argument is the user's command as [copy_from_user] reads
    it; its result says what it returned and what it wrote back. *)

From Stdlib Require Import ZArith Lia Bool.
From stdpp Require Import base list gmap.
From S2P Require Import Prelude KvFifo KvCmd KvState KvHash KvIosched.

(** What the user sees: the return value, [ucmd->result] and [ucmd->status]
    when they are written, and the bytes written at [data_addr]. *)
Record uout : Type := {
  o_ret : Z;
  o_result : option Z;
  o_status : option Z;
  o_data : option (list Z);
}.

(** [put_user(result, &ucmd->result); return ret;] *)
Definition reply (r : Z) (result : option Z) : uout :=
  {| o_ret := r; o_result := result; o_status := None; o_data := None |}.

(** [struct kv_sync_request]. *)
Record kv_sync_request : Type := {
  sr_c : nvme_command;
  sr_udata : option (list Z);
  sr_udata_length : Z;
  sr_key : option (list Z);
  sr_key_length : Z;
}.

Section KvCore.
  Context `{KernelHash} `{Device} `{FifoOps Q}.
  Variable sleep : driver Q -> driver Q.
  Variable nr_cpus : Z.
  Local Abbreviation M := (M (driver Q)).

(** *** Keys and read-ahead *)

(** [inl (status, cmd.result)] when the key cannot be fetched. *)
Definition kv_get_key (cmd : nvme_passthru_kv_cmd) : M (Z * Z + list Z) :=
  nomem <- fails ;;
  if nomem : bool then ret (inl (ENOMEM, KVS_ERR_NOMEM)) else
  bad <- fails ;;
  if bad : bool then ret (inl (EFAULT, KVS_ERR_FAULT))
  else ret (inr (take (Z.to_nat (key_length cmd)) (ukey cmd))).

(** The key of a command: fetched when it is long, the inline bytes otherwise. *)
Definition fetch_key (cmd : nvme_passthru_kv_cmd) : M (Z * Z + list Z) :=
  if KVCMD_INLINE_KEY_MAX <? key_length cmd then kv_get_key cmd else ret (inr (key cmd)).

(** [copy_to_user(dst, src, n)] reads [n] bytes of the kernel buffer [src]. *)
Definition copy_to_user (src : option (list Z)) (n : Z) : M (list Z) :=
  let b := default [] src in
  if n <=? Z.of_nat (length b) then ret (take (Z.to_nat n) b) else fail OutOfBounds.

(** Removes the read-ahead entry of the key.  For a retrieve the user gets its
    data: [Some (result, status, data)] is the source's [true]. *)
Definition kv_do_readahead (k : list Z) (hash_key : Z) (cmd : nvme_passthru_kv_cmd) :
    M (option (Z * Z * list Z)) :=
  found <- kv_hash_find_and_del_readahead KV_RA_HASH (Some k) (key_length cmd) hash_key ;;
  match found with
  | None => ret None
  | Some a =>
      spin_lock a ;;
      r <- get_rq a ;;
      out <- (if is_kv_retrieve_cmd (opcode cmd) then
                d <- copy_to_user (rq_data_addr r) (data_length cmd) ;;
                ret (Some (rq_result r, rq_errors r, d))
              else ret None) ;;
      put_locked a ;;
      ret out
  end.

(** *** Synchronous commands *)

Definition init_kv_sync_request (k : option (list Z)) (cmd : nvme_passthru_kv_cmd) : kv_sync_request :=
  {| sr_c := set_kv_cmd zero_command cmd; sr_udata := udata cmd;
     sr_udata_length := data_length cmd; sr_key := k; sr_key_length := key_length cmd |}.

(** The user buffer of the synchronous request takes the buffered data (a
    [copy_to_user] to a NULL buffer writes nothing). *)
Definition kv_move_async_to_sync (a : kv_async_request) (sy : kv_sync_request) (k : list Z) :
    M kv_sync_request :=
  data <- (match rq_data_addr a with
           | Some d =>
               if rq_data_length a =? 0 then ret (sr_udata sy)
               else if negb (sr_udata_length sy =? rq_data_length a) then fail BugOn
               else d <- copy_to_user (Some d) (sr_udata_length sy) ;; ret ((fun _ => d) <$> sr_udata sy)
           | None => ret (sr_udata sy)
           end) ;;
  ret {| sr_c := rq_c a; sr_udata := data; sr_udata_length := sr_udata_length sy;
         sr_key := Some k; sr_key_length := rq_key_length a |}.

(** The device returns data for reads only. *)
Definition reads_data (op : Z) : bool := is_kv_retrieve_cmd op || is_kv_iter_read_cmd op.

(** Result of [__nvme_submit_kv_user_cmd]: its return value, [sync_rq->result],
    the status it puts to the user and the data the device wrote. *)
Record sync_result : Type := {
  sy_ret : Z;
  sy_result : Z;
  sy_status : option Z;
  sy_data : option (list Z);
}.

Definition sync_error (err : Z) : sync_result :=
  {| sy_ret := err; sy_result := 0; sy_status := None; sy_data := None |}.

(** The block layer calls before the command is issued; the error of a failed
    one stands for any non-zero error.  [None] is success. *)
Definition prepare_sync (sy : kv_sync_request) : M (option Z) :=
  if negb (is_kv_cmd (c_opcode (sr_c sy))) then ret (Some EINVAL) else
  e0 <- fails ;;
  if e0 : bool then ret (Some ENOMEM) else
  let has_data := match sr_udata sy with Some _ => negb (sr_udata_length sy =? 0) | None => false end in
  e1 <- fails ;;
  e2 <- (if has_data then fails else ret false) ;;
  if e1 || e2 then ret (Some ENODEV) else
  let long_key := match sr_key sy with
                  | Some _ => KVCMD_INLINE_KEY_MAX <? sr_key_length sy | None => false end in
  e3 <- (if long_key then fails else ret false) ;;
  e4 <- (if long_key then fails else ret false) ;;
  if e3 || e4 then ret (Some ENOMEM) else ret None.

(** The user memory [blk_rq_map_user] maps. *)
Definition sync_data (sy : kv_sync_request) : list Z :=
  take (Z.to_nat (sr_udata_length sy)) (default [] (sr_udata sy)).

(** [blk_execute_rq_nowait] and the wait for its completion. *)
Definition execute_sync (sy : kv_sync_request) : M dev_answer := fun s =>
  let '(d, ans) := dev_exec (s_dev s) (sr_c sy) (device_key (sr_c sy) (sr_key sy) (sr_key_length sy))
                     (sync_data sy) in
  Done ans (s <| s_dev := d |>).

Definition __nvme_submit_kv_user_cmd (sy : kv_sync_request) : M sync_result :=
  err <- prepare_sync sy ;;
  match err with
  | Some e => ret (sync_error e)
  | None =>
      ans <- execute_sync sy ;;
      let missing := ans_errors ans =? 0x310 in
      ret {| sy_ret := if missing then 0 else ans_errors ans; sy_result := ans_result ans;
             sy_status := if missing then Some KVS_ERR_KEY_NOT_EXIST else None;
             sy_data := if reads_data (c_opcode (sr_c sy)) then Some (ans_data ans) else None |}
  end.

(** What a synchronous command does with the invalidated buffered request [b]
    of its key: a retrieve turns a buffered store or delete into its own
    command.  [inl] is an allocation failure; otherwise the request to send (if
    it was taken over), [cmd.result], whether a delete was merged, and the data
    copied to the user. *)
Definition take_over (cmd : nvme_passthru_kv_cmd) (k : list Z) (b : positive) :
    M (unit + (option kv_sync_request * Z * bool * option (list Z))) :=
  r <- get_rq b ;;
  let op := c_opcode (rq_c r) in
  if is_kv_retrieve_cmd (opcode cmd) && is_kv_store_cmd op then
    nomem <- fails ;;
    if nomem : bool then put_locked b ;; ret (inl tt) else
    sy <- kv_move_async_to_sync r
            {| sr_c := zero_command; sr_udata := udata cmd; sr_udata_length := rq_data_length r;
               sr_key := None; sr_key_length := 0 |} k ;;
    put_locked b ;;
    ret (inr (Some sy, rq_data_length r, false, sr_udata sy))
  else if is_kv_retrieve_cmd (opcode cmd) && is_kv_delete_cmd op then
    nomem <- fails ;;
    if nomem : bool then put_locked b ;; ret (inl tt) else
    sy <- kv_move_async_to_sync r
            {| sr_c := zero_command; sr_udata := None; sr_udata_length := 0;
               sr_key := None; sr_key_length := 0 |} k ;;
    put_locked b ;;
    ret (inr (Some sy, 0, true, None))
  else
    put_locked b ;;
    ret (inr (None, 0, false, None)).

(** The tail of [nvme_kv_cmd] from [build_rq]: [sy] is the request taken over,
    [result] is [cmd.result], [copied] the data already copied to the user. *)
Definition build_rq (cmd : nvme_passthru_kv_cmd) (k : option (list Z)) (sy : option kv_sync_request)
    (result merge_status : Z) (copied : option (list Z)) : M uout :=
  let send (sy : kv_sync_request) :=
    res <- __nvme_submit_kv_user_cmd sy ;;
    let status := if merge_status =? 0 then sy_ret res else merge_status in
    let result := if result =? 0 then sy_result res else result in
    let data := match sy_data res with Some d => Some d | None => copied end in
    let out r o := {| o_ret := r; o_result := o; o_status := sy_status res; o_data := data |} in
    if 0 <=? status then
      bad <- fails ;;
      if bad : bool then ret (out EFAULT None) else ret (out status (Some result))
    else ret (out status None) in
  match sy with
  | Some sy => send sy
  | None =>
      nomem <- fails ;;
      if nomem : bool then ret (reply ENOMEM (Some KVS_ERR_NOMEM))
      else send (init_kv_sync_request k cmd)
  end.

(** A read-ahead hit: [status], [KVS_ERR_EXIST_IN_RA_HASH] and the data. *)
Definition ra_hit (hit : Z * Z * list Z) : M uout :=
  let '(result, status, d) := hit in
  let out r o := {| o_ret := r; o_result := o; o_status := Some KVS_ERR_EXIST_IN_RA_HASH; o_data := Some d |} in
  if 0 <=? status then
    bad <- fails ;;
    if bad : bool then ret (out EFAULT None) else ret (out status (Some result))
  else ret (out status None).

Definition nvme_kv_cmd (fuel : nat) (cmd : nvme_passthru_kv_cmd) : M uout :=
  bad <- fails ;;
  if bad : bool then ret (reply EFAULT None) else
  if negb (flags cmd =? 0) then ret (reply EINVAL (Some KVS_ERR_INVALID_FLAGS)) else
  if negb (is_kv_cmd (opcode cmd)) then ret (reply EINVAL (Some KVS_ERR_INVALID_OPCODE)) else
  if is_kv_exist_cmd (opcode cmd) then ret (reply EINVAL (Some KVS_ERR_INVALID_OPCODE)) else
  if is_kv_special_cmd (opcode cmd) then build_rq cmd None None (cmd_result cmd) 0 None else
  k <- fetch_key cmd ;;
  match k with
  | inl (status, result) => ret (reply status (Some result))
  | inr k =>
      let hash_key := get_hash_key k (key_length cmd) in
      hit <- kv_do_readahead k hash_key cmd ;;
      match hit with
      | Some hit => ra_hit hit
      | None =>
          x <- kv_hash_find_and_lock sleep fuel KV_RQ_HASH (Some k) (key_length cmd) hash_key ;;
          let '(b, inFlight) := x in
          if inFlight : bool then
            hit <- kv_do_readahead k hash_key cmd ;;
            match hit with
            | Some hit => ra_hit hit
            | None => build_rq cmd (Some k) None 0 0 None
            end
          else match b with
          | None => build_rq cmd (Some k) None 0 0 None
          | Some b =>
              t <- take_over cmd k b ;;
              match t with
              | inl _ => ret (reply ENOMEM (Some KVS_ERR_NOMEM))
              | inr (sy, result, deleted, copied) =>
                  build_rq cmd (Some k) sy result (if deleted : bool then 0x10 else 0) copied
              end
          end
      end
  end.

(** *** Batches of synchronous commands *)

(** [build_sync_rq]: the return value, the request to send if the command was
    not answered from memory, and what was written to the user so far. *)
Definition build_sync_rq (fuel : nat) (cmd : nvme_passthru_kv_cmd) :
    M (Z * option kv_sync_request * uout) :=
  let err e res := ret (e, None, reply e res) in
  let build k copied res :=
    nomem <- fails ;;
    if nomem : bool then err ENOMEM (Some KVS_ERR_NOMEM)
    else ret (0, Some (init_kv_sync_request k cmd),
              {| o_ret := 0; o_result := res; o_status := None; o_data := copied |}) in
  bad <- fails ;;
  if bad : bool then err EINVAL None else
  if negb (flags cmd =? 0) then err EINVAL (Some KVS_ERR_INVALID_FLAGS) else
  if negb (is_kv_cmd (opcode cmd)) then err EINVAL (Some KVS_ERR_INVALID_OPCODE) else
  if is_kv_exist_cmd (opcode cmd) then err EINVAL (Some KVS_ERR_INVALID_OPCODE) else
  if is_kv_special_cmd (opcode cmd) then build None None None else
  k <- fetch_key cmd ;;
  match k with
  | inl (status, result) => err status (Some result)
  | inr k =>
      let hash_key := get_hash_key k (key_length cmd) in
      let ra_out (hit : Z * Z * list Z) r :=
        ret (r, None, {| o_ret := r; o_result := None;
                         o_status := Some KVS_ERR_EXIST_IN_RA_HASH; o_data := Some (snd hit) |}) in
      hit <- kv_do_readahead k hash_key cmd ;;
      match hit with
      | Some hit => ra_out hit (snd (fst hit))
      | None =>
          x <- kv_hash_find_and_lock sleep fuel KV_RQ_HASH (Some k) (key_length cmd) hash_key ;;
          let '(b, inFlight) := x in
          if inFlight : bool then
            hit <- kv_do_readahead k hash_key cmd ;;
            match hit with
            | Some hit => ra_out hit 0
            | None => build (Some k) None None
            end
          else match b with
          | None => build (Some k) None None
          | Some b =>
              t <- take_over cmd k b ;;
              match t with
              | inl _ => err ENOMEM (Some KVS_ERR_NOMEM)
              | inr (Some sy, _, deleted, copied) =>
                  ret (0, Some sy, {| o_ret := 0; o_status := None; o_data := copied;
                                      o_result := if deleted : bool then Some KVS_ERR_KEY_NOT_EXIST else None |})
              | inr (None, _, _, _) => build (Some k) None None
              end
          end
      end
  end.

(** [ret] after a request has been prepared: mapping the data sets it to 0,
    adding a long key sets it to the length of the key. *)
Definition ret_after (r : Z) (sy : kv_sync_request) : Z :=
  let mapped := match sr_udata sy with Some _ => negb (sr_udata_length sy =? 0) | None => false end in
  let long_key := match sr_key sy with
                  | Some _ => KVCMD_INLINE_KEY_MAX <? sr_key_length sy | None => false end in
  if long_key then sr_key_length sy else if mapped then 0 else r.

(** The first loop of [nvme_submit_kv_multicmd]: the first error stops it. *)
Fixpoint prepare_all (r : Z) (l : list kv_sync_request) : M Z :=
  match l with
  | [] => ret r
  | sy :: l' =>
      err <- prepare_sync sy ;;
      match err with Some e => ret e | None => prepare_all (ret_after r sy) l' end
  end.

(** The requests are issued together; results and status go back to each
    user command. *)
Definition multi_reply (ans : dev_answer) (sy : kv_sync_request) (o : uout) : uout :=
  {| o_ret := o_ret o; o_result := Some (ans_result ans);
     o_status := Some (if ans_errors ans =? 0x310 then KVS_ERR_KEY_NOT_EXIST else u32 (ans_errors ans));
     o_data := if reads_data (c_opcode (sr_c sy)) then Some (ans_data ans) else o_data o |}.

Fixpoint execute_all (l : list (option kv_sync_request * uout)) : M (list uout) :=
  match l with
  | [] => ret []
  | (None, o) :: l' => os <- execute_all l' ;; ret (o :: os)
  | (Some sy, o) :: l' =>
      ans <- execute_sync sy ;;
      os <- execute_all l' ;;
      ret (multi_reply ans sy o :: os)
  end.

Fixpoint build_all (fuel : nat) (cmds : list nvme_passthru_kv_cmd) :
    M (Z * list (option kv_sync_request * uout)) :=
  match cmds with
  | [] => ret (0, [])
  | cmd :: cmds' =>
      x <- build_sync_rq fuel cmd ;;
      let '(e, sy, o) := x in
      if negb (e =? 0) then ret (e, [(sy, o)])
      else y <- build_all fuel cmds' ;; let '(e, l) := y in ret (e, (sy, o) :: l)
  end.

(** What the cleanup loop writes to the users when nothing was issued: [stale]
    stands for the completion entry and the [req] pointer the slab left in a
    request that was not filled in. *)
Definition unissued (stale : kv_sync_request -> uout -> uout) (x : option kv_sync_request * uout) : uout :=
  match x with (Some sy, o) => stale sy o | (None, o) => o end.

(** [cmds] are the [count] commands that follow the header in user memory.  A
    failure while building or preparing is returned and nothing is issued.  The
    [next] pointers are those of the list just built: the source sets them to
    NULL in [init_kv_sync_request] but not in [kv_move_async_to_sync]. *)
Definition nvme_kv_multi_cmd (stale : kv_sync_request -> uout -> uout) (fuel : nat) (cmds : list nvme_passthru_kv_cmd) :
    M (Z * list uout) :=
  bad <- fails ;;
  if bad : bool then ret (EFAULT, []) else
  x <- build_all fuel cmds ;;
  let '(e, l) := x in
  if negb (e =? 0) then ret (e, map snd l) else
  e <- prepare_all 0 (omap fst l) ;;
  if negb (e =? 0) then ret (e, map (unissued stale) l) else
  os <- execute_all l ;;
  ret (0, os).

(** *** Asynchronous commands *)

(** [KVS_SUCCESS], or the error and [cmd.result]. *)
Definition init_kv_async_request (i : positive) (cmd : nvme_passthru_kv_cmd) (hash_key : Z) : M (Z * Z) :=
  upd_rq i (fun r => r <| rq_c := set_kv_cmd zero_command cmd |>) ;;
  data <- (if data_length cmd =? 0 then ret (inr None)
           else
             nomem <- fails ;;
             if nomem : bool then ret (inl (ENOMEM, KVS_ERR_NOMEM))
             else if is_kv_store_cmd (opcode cmd) then
               bad <- fails ;;
               if bad : bool then ret (inl (EFAULT, KVS_ERR_FAULT))
               else ret (inr (Some (take (Z.to_nat (data_length cmd)) (default [] (udata cmd)))))
             else ret (inr (Some (replicate (Z.to_nat (data_length cmd)) 0)))) ;;
  match data with
  | inl err => ret err
  | inr d =>
      upd_rq i (fun r =>
        r <| rq_data_addr := d |> <| rq_data_length := data_length cmd |>
          <| rq_key_addr ::= fun k => if key_length cmd <=? KVCMD_INLINE_KEY_MAX then KeyInline else k |>
          <| rq_key_length := key_length cmd |> <| rq_hash_key := hash_key |>
          <| rq_state := 0 |> <| rq_refcount := 1 |>) ;;
      ret (KVS_SUCCESS, 0)
  end.

(** A new request [a] met the buffered request [b] of its key: a retrieve is
    dropped, a store or delete replaces what [b] was about to do. *)
Definition merge_buffered (cmd : nvme_passthru_kv_cmd) (a b : positive) : M unit :=
  if is_kv_retrieve_cmd (opcode cmd) then
    put_locked b ;;
    put_locked a
  else
    r <- get_rq a ;;
    upd_rq b (fun rb => rb <| rq_data_addr := rq_data_addr r |> <| rq_data_length := rq_data_length r |>
                           <| rq_c := rq_c r |>) ;;
    put_locked b ;;
    upd_rq a (fun r => r <| rq_data_addr := None |> <| rq_data_length := 0 |>) ;;
    put_locked a.

(** Adds the inserted request [a] to the memory queue [m]; when it is pending
    the lock and the reference on the blocking request are released. *)
Definition enqueue_memq (a m : positive) : M unit :=
  upd_rq a (fun r => r <| rq_memq := Some m |>) ;;
  upd_memq m (fun q => q <| mq_rq ::= cons a |> <| mq_nr_rq ::= Z.add 1 |>) ;;
  r <- get_rq a ;;
  match rq_blocking_rq r with
  | Some b => upd_memq m (fun q => q <| mq_nr_pending ::= Z.add 1 |>) ;; put_locked b
  | None => ret tt
  end ;;
  spin_unlock a.

(** Drops the read-ahead data a store or delete makes obsolete. *)
Definition drop_readahead (a : positive) : M unit :=
  r <- get_rq a ;;
  found <- kv_hash_find_and_del_readahead KV_RA_HASH (rq_key r) (rq_key_length r) (rq_hash_key r) ;;
  match found with
  | Some i => spin_lock i ;; put_locked i
  | None => ret tt
  end.

Definition key_free_out (status result : Z) : M uout :=
  if 0 <=? status then
    bad <- fails ;;
    if bad : bool then ret (reply EFAULT None) else ret (reply status (Some result))
  else ret (reply status None).

Definition nvme_kv_iosched_cmd (fuel : nat) (cpu : Z) (cmd : nvme_passthru_kv_cmd) : M uout :=
  bad <- fails ;;
  if bad : bool then ret (reply EFAULT None) else
  if negb (flags cmd =? 0) then ret (reply EINVAL (Some KVS_ERR_INVALID_FLAGS)) else
  if negb (is_kv_io_cmd (opcode cmd)) then ret (reply EINVAL (Some KVS_ERR_INVALID_OPCODE)) else
  k <- fetch_key cmd ;;
  match k with
  | inl (status, result) => ret (reply status (Some result))
  | inr k =>
      let hash_key := get_hash_key k (key_length cmd) in
      in_ra <- (if is_kv_retrieve_cmd (opcode cmd)
                then kv_hash_find fuel KV_RA_HASH (Some k) (key_length cmd) hash_key true
                else ret None) ;;
      match in_ra with
      | Some _ => key_free_out 0 KVS_ERR_EXIST_IN_RA_HASH
      | None =>
          a <- kv_async_request_alloc ;;
          x <- init_kv_async_request a cmd hash_key ;;
          let '(status, result) := x in
          if negb (status =? 0) then kv_async_request_free a ;; key_free_out status result
          else
            spin_lock a ;;
            b <- kv_hash_insert fuel KV_RQ_HASH a ;;
            match b with
            | Some b => merge_buffered cmd a b ;; key_free_out 0 KVS_ERR_EXIST_PENDING_KEY
            | None =>
                let request_type := if is_kv_retrieve_cmd (opcode cmd) then ACTIVE_READ else ACTIVE_WRITE in
                m <- get_percpu request_type cpu ;;
                match m with
                | None => fail NullDeref
                | Some m =>
                    enqueue_memq a m ;;
                    when (negb (is_kv_retrieve_cmd (opcode cmd))) (drop_readahead a) ;;
                    kv_sched_wakeup_delayed cpu request_type ;;
                    busy1 <- kv_sched_daemon_busy cpu request_type ;;
                    d <- get_submitd request_type ;;
                    q <- get_memq m ;;
                    when (negb busy1 && negb (sd_queued d) || (DEFAULT_NR_REQ_PER_MEMQ <=? mq_nr_rq q))
                      (kv_sched_wakeup_immediately cpu request_type) ;;
                    n <- gets (fun s => h_nr_rq (s_rq_hash s)) ;;
                    when (KV_PENDING_QUEU_HIGH_WATERMARK <? n)
                      (set_io_bit KV_iosched_queue_full ;; wait_on_io_bit sleep KV_iosched_queue_full) ;;
                    key_free_out KVS_SUCCESS KVS_SUCCESS
                end
            end
      end
  end.

(** *** Batches of asynchronous commands *)

(** One command of the batch, buffered in the batch's own queue [m].  [inl] is
    an early return, [inr] goes on. *)
Definition multi_async_one (fuel : nat) (m : positive) (cmd : nvme_passthru_kv_cmd) : M (Z + unit) :=
  k <- fetch_key cmd ;;
  match k with
  | inl (status, _) => kv_memq_free m ;; ret (inl status)
  | inr k =>
      let hash_key := get_hash_key k (key_length cmd) in
      in_ra <- (if is_kv_retrieve_cmd (opcode cmd)
                then kv_hash_find fuel KV_RA_HASH (Some k) (key_length cmd) hash_key true
                else ret None) ;;
      match in_ra with
      | Some _ => ret (inr tt)
      | None =>
          a <- kv_async_request_alloc ;;
          x <- init_kv_async_request a cmd hash_key ;;
          if negb (fst x =? 0) then kv_async_request_free a ;; ret (inr tt)
          else
            spin_lock a ;;
            b <- kv_hash_insert fuel KV_RQ_HASH a ;;
            match b with
            | Some b => merge_buffered cmd a b ;; ret (inr tt)
            | None =>
                enqueue_memq a m ;;
                when (negb (is_kv_retrieve_cmd (opcode cmd))) (drop_readahead a) ;;
                ret (inr tt)
            end
      end
  end.

(** The loop over the commands; [request_type] is 0 until a command is
    accepted. *)
Fixpoint multi_async_loop (fuel : nat) (m : positive) (cmds : list nvme_passthru_kv_cmd)
    (request_type : Z) : M (Z + Z) :=
  match cmds with
  | [] => ret (inr request_type)
  | cmd :: cmds' =>
      bad <- fails ;;
      if bad : bool then multi_async_loop fuel m cmds' request_type
      else if negb (is_kv_io_cmd (opcode cmd)) then multi_async_loop fuel m cmds' request_type
      else
        let request_type :=
          if request_type =? 0
          then if is_kv_retrieve_cmd (opcode cmd) then BATCH_READ_DAEMON else BATCH_WRITE_DAEMON
          else request_type in
        x <- multi_async_one fuel m cmd ;;
        match x with
        | inl status => ret (inl status)
        | inr _ => multi_async_loop fuel m cmds' request_type
        end
  end.

(** [bkey] is the 16-byte blocking key and [cmds] the commands that follow it
    in user memory. *)
Definition nvme_kv_multi_iosched_cmd (fuel : nat) (bkey : list Z) (cmds : list nvme_passthru_kv_cmd) : M Z :=
  memq <- kv_memq_alloc ;;
  bad <- fails ;;
  if bad : bool then ret EFAULT else
  match memq with
  | None => fail NullDeref
  | Some m =>
      bad <- fails ;;
      if bad : bool then ret EFAULT else
      upd_memq m (fun q => q <| mq_key := bkey |>) ;;
      x <- multi_async_loop fuel m cmds 0 ;;
      match x with
      | inl status => ret status
      | inr request_type =>
          q <- get_memq m ;;
          match mq_rq q with
          | _ :: _ =>
              upd_submitd request_type (fun d => d <| sd_mumemq_list ::= fun l => l ++ [m] |>) ;;
              queue_submit_work request_type
          | [] => kv_memq_free m
          end ;;
          bad <- fails ;;
          ret (if bad : bool then EFAULT else KVS_SUCCESS)
      end
  end.

(** *** Flush *)

(** [None] is the NULL key of a command without one. *)
Definition optional_key (cmd : nvme_passthru_kv_cmd) : M (Z * Z + option (list Z)) :=
  if KVCMD_INLINE_KEY_MAX <? key_length cmd then
    k <- kv_get_key cmd ;; ret (match k with inl e => inl e | inr k => inr (Some k) end)
  else ret (inr (if key_length cmd =? 0 then None else Some (key cmd))).

(** Every active queue of the type that holds requests is scheduled now. *)
Definition wake_and_flush (t : Z) : M unit :=
  for_each (cpus nr_cpus) (fun cpu =>
    m <- get_percpu t cpu ;;
    match m with
    | None => fail NullDeref
    | Some m => q <- get_memq m ;; when (negb (mq_nr_rq q =? 0)) (kv_sched_wakeup_immediately cpu t)
    end) ;;
  kv_sched_flush_workqueue nr_cpus t.

Definition flush_single (t : Z) (k : list Z) (klen : Z) : M unit :=
  found <- kv_hash_find_refcnt KV_RQ_HASH (Some k) klen (get_hash_key k klen) ;;
  match found with
  | None => ret tt
  | Some i =>
      spin_lock i ;;
      r <- get_rq i ;;
      if negb (bit KV_async_completed r) then
        when (t =? ACTIVE_WRITE) (set_rq_bit KV_async_flush_wakeup i) ;;
        spin_unlock i ;;
        wake_and_flush t ;;
        when (t =? ACTIVE_WRITE) (wait_on_bit sleep i KV_async_flush_wakeup) ;;
        kv_decrease_req_refcnt i true ;;
        ret tt
      else
        freed <- kv_decrease_req_refcnt i false ;;
        if freed : bool then ret tt else spin_unlock i
  end.

Definition flush_all (t : Z) : M unit :=
  wake_and_flush t ;;
  d <- get_submitd WRITE_DAEMON ;;
  match last (sd_mumemq_list d) with
  | None => ret tt
  | Some m =>
      q <- get_memq m ;;
      match last (mq_rq q) with
      | None => ret tt
      | Some i =>
          spin_lock i ;;
          when (t =? ACTIVE_WRITE) (set_rq_bit KV_async_flush_wakeup i) ;;
          spin_unlock i ;;
          when (t =? ACTIVE_WRITE) (wait_on_bit sleep i KV_async_flush_wakeup)
      end
  end.

Definition nvme_kv_flush_cmd (cmd : nvme_passthru_kv_cmd) : M uout :=
  bad <- fails ;;
  if bad : bool then ret (reply EFAULT None) else
  if negb (flags cmd =? 0) then ret (reply EINVAL (Some KVS_ERR_INVALID_FLAGS)) else
  let t := if is_kv_retrieve_cmd (opcode cmd) then ACTIVE_READ else ACTIVE_WRITE in
  k <- optional_key cmd ;;
  match k with
  | inl (status, result) => ret (reply status (Some result))
  | inr k =>
      n <- gets (fun s => h_nr_rq (s_rq_hash s)) ;;
      match k with
      | Some k => flush_single t k (key_length cmd)
      | None => when (negb (n =? 0)) (flush_all t)
      end ;;
      bad <- fails ;;
      ret (if bad : bool then reply EFAULT None else reply 0 (Some KVS_SUCCESS))
  end.

(** *** Read-ahead data *)

Definition discard_one (i : positive) : M unit :=
  res <- kv_hash_delete_readahead KV_RA_HASH i ;;
  when (res =? 0) (spin_lock i ;; put_locked i).

Definition nvme_kv_discard_readahead_cmd (fuel : nat) (cmd : nvme_passthru_kv_cmd) : M uout :=
  bad <- fails ;;
  if bad : bool then ret (reply EFAULT None) else
  if negb (flags cmd =? 0) then ret (reply EINVAL (Some KVS_ERR_INVALID_FLAGS)) else
  k <- optional_key cmd ;;
  match k with
  | inl (status, result) => ret (reply status (Some result))
  | inr k =>
      match k with
      | Some k =>
          let hash_key := get_hash_key k (key_length cmd) in
          kv_hash_find_read_and_invalidate sleep fuel KV_RQ_HASH (Some k) (key_length cmd) hash_key ;;
          found <- kv_hash_find_and_del_readahead KV_RA_HASH (Some k) (key_length cmd) hash_key ;;
          match found with
          | Some i => spin_lock i ;; put_locked i
          | None => ret tt
          end
      | None =>
          l <- gets s_ra_list ;;
          modify (fun s => s <| s_ra_list := [] |>) ;;
          for_each l discard_one
      end ;;
      bad <- fails ;;
      ret (if bad : bool then reply EFAULT None else reply 0 (Some KVS_SUCCESS))
  end.

Definition nvme_kv_read_from_readahead_cmd (cmd : nvme_passthru_kv_cmd) : M uout :=
  bad <- fails ;;
  if bad : bool then ret (reply EFAULT None) else
  if negb (flags cmd =? 0) then ret (reply EINVAL (Some KVS_ERR_INVALID_FLAGS)) else
  if negb (is_kv_retrieve_cmd (opcode cmd)) then ret (reply EINVAL (Some KVS_ERR_INVALID_OPCODE)) else
  k <- fetch_key cmd ;;
  match k with
  | inl (status, result) => ret (reply status (Some result))
  | inr k =>
      hit <- kv_do_readahead k (get_hash_key k (key_length cmd)) cmd ;;
      match hit with
      | Some hit => ra_hit hit
      | None =>
          bad <- fails ;;
          ret (if bad : bool then reply EFAULT None else reply 0 (Some 0))
      end
  end.
End KvCore.
