(* ===== verification/KvInv.v ===== *)
(** * The invariant of the I/O scheduler

    Between two handlers every request is in one of three places: buffered in a
    memory queue, in flight (submitted, at the device or in the completion
    ring), or kept as read-ahead data.  This file states that, together with
    what the hash tables, the queues and the counters say about the requests,
    as the invariant [Inv], and proves the lemmas about single updates that the
    preservation proofs are made of. *)

From Stdlib Require Import ZArith Lia Bool.
From stdpp Require Import base list gmap.
From S2P Require Import Prelude KvFifo KvCmd KvState KvHash KvIosched.

(** ** Keys *)

(** A short key as the driver expects it: 16 bytes, zero after the key. *)
Definition key_wf (k : list Z) (klen : Z) : Prop :=
  length k = 16%nat /\ bytes_ok k /\ 0 <= klen <= 16 /\
  drop (Z.to_nat klen) k = replicate (16 - Z.to_nat klen) 0.

(** What identifies the key of a request. *)
Definition kid (r : kv_async_request) : list Z * Z := (c_key (rq_c r), rq_key_length r).

Lemma key_match_wf k1 k2 klen : key_wf k1 klen -> key_wf k2 klen ->
  key_match k1 k2 klen = true <-> k1 = k2.
Proof.
  intros (Hl1 & Hb1 & Hr & Hp1) (Hl2 & Hb2 & _ & Hp2).
  rewrite key_match_spec by (done || lia). split; [|by intros ->].
  intros Ht. rewrite <- (take_drop (Z.to_nat klen) k1), <- (take_drop (Z.to_nat klen) k2).
  by rewrite Ht, Hp1, Hp2.
Qed.

(** ** Bits of the state word after an update *)

Lemma bit_upd n r f : bit n (r <| rq_state ::= f |>) = test_bit n (f (rq_state r)).
Proof. reflexivity. Qed.

Ltac flag_ne := vm_compute; congruence.
Lemma test_set_flag n w : 0 <= n -> test_bit n (set_bit n w) = true.
Proof. apply test_set_bit. Qed.

Create Rewrite HintDb flags.
#[export] Hint Rewrite test_clear_bit : flags.
#[export] Hint Rewrite test_set_bit test_set_bit_ne test_clear_bit_ne using flag_ne : flags.

(** ** Tables *)

Section Tables.
  Context `{KernelHash}.

(** The chains link exactly the requests whose [hash] node says so, and no two
    requests of a table have the same key. *)
Record HashInv (heap : gmap positive kv_async_request) (T : kv_hash_id -> gmap Z (list positive)) : Prop := {
  hi_nodup h k : NoDup (default [] (T h !! k));
  hi_chain h k i : i ∈ default [] (T h !! k) <-> exists r, heap !! i = Some r /\ rq_hash r = Some (h, k);
  hi_uniq h k1 k2 i j ri rj : heap !! i = Some ri -> heap !! j = Some rj ->
    rq_hash ri = Some (h, k1) -> rq_hash rj = Some (h, k2) -> kid ri = kid rj -> i = j;
}.

(** Number of requests linked in a table. *)
Definition hashed_in (h : kv_hash_id) (r : kv_async_request) : bool :=
  match rq_hash r with Some (h', _) => bool_decide (h = h') | None => false end.

Definition count_hashed (h : kv_hash_id) (heap : gmap positive kv_async_request) : Z :=
  Z.of_nat (size (filter (fun p => hashed_in h p.2 = true) heap)).

Definition b2z (b : bool) : Z := if b then 1 else 0.

Lemma count_hashed_insert h heap i r :
  heap !! i = None -> count_hashed h (<[i := r]> heap) = count_hashed h heap + b2z (hashed_in h r).
Proof.
  intros Hi. unfold count_hashed. destruct (hashed_in h r) eqn:Hr; simpl.
  - rewrite map_filter_insert_True by done. rewrite map_size_insert_None; [lia|].
    apply map_lookup_filter_None. by left.
  - rewrite map_filter_insert_False by (simpl; congruence). rewrite delete_id by done. lia.
Qed.

Lemma count_hashed_delete h heap i r :
  heap !! i = Some r -> count_hashed h (delete i heap) = count_hashed h heap - b2z (hashed_in h r).
Proof.
  intros Hi. rewrite <- (insert_id heap i r Hi) at 2. rewrite <- insert_delete_eq.
  rewrite count_hashed_insert by apply lookup_delete_eq. lia.
Qed.

Lemma count_hashed_upd h heap i r r' : heap !! i = Some r ->
  count_hashed h (<[i := r']> heap) = count_hashed h heap - b2z (hashed_in h r) + b2z (hashed_in h r').
Proof.
  intros Hi. rewrite <- insert_delete_eq, count_hashed_insert by apply lookup_delete_eq.
  by rewrite (count_hashed_delete h heap i r).
Qed.

Lemma HashInv_upd heap T i r r' : heap !! i = Some r -> rq_hash r' = rq_hash r -> kid r' = kid r ->
  HashInv heap T -> HashInv (<[i := r']> heap) T.
Proof.
  intros Hi Hh Hk [Hn Hc Hu]. split; [done| |].
  - intros h k j. rewrite Hc. destruct (decide (i = j)) as [->|Hne].
    + rewrite lookup_insert_eq, Hi. split; intros (x & ? & ?); simplify_eq; eexists; split; eauto; congruence.
    + by rewrite lookup_insert_ne.
  - intros h k1 k2 a b ra rb. rewrite !lookup_insert_Some.
    intros [[<- <-]|[Ha Hra]] [[<- <-]|[Hb Hrb]]; try done; rewrite ?Hh, ?Hk; intros; eauto.
Qed.

Lemma HashInv_new heap T i r : heap !! i = None -> rq_hash r = None ->
  HashInv heap T -> HashInv (<[i := r]> heap) T.
Proof.
  intros Hi Hh [Hn Hc Hu]. split; [done| |].
  - intros h k j. rewrite Hc. destruct (decide (i = j)) as [->|Hne].
    + rewrite lookup_insert_eq, Hi. split; intros (x & ? & ?); simplify_eq; congruence.
    + by rewrite lookup_insert_ne.
  - intros h k1 k2 a b ra rb. rewrite !lookup_insert_Some.
    intros [[<- <-]|[Ha Hra]] [[<- <-]|[Hb Hrb]]; try done; try congruence; eauto.
Qed.

Lemma HashInv_delete heap T i r : heap !! i = Some r -> rq_hash r = None ->
  HashInv heap T -> HashInv (delete i heap) T.
Proof.
  intros Hi Hh [Hn Hc Hu]. split; [done| |].
  - intros h k j. rewrite Hc. destruct (decide (i = j)) as [->|Hne].
    + rewrite lookup_delete_eq, Hi. split; intros (x & ? & ?); simplify_eq; congruence.
    + by rewrite lookup_delete_ne.
  - intros h k1 k2 a b ra rb. rewrite !lookup_delete_Some. intros [? ?] [? ?]; eauto.
Qed.

(** Storing the chain [c] for bucket [k] of table [h]. *)
Definition set_chain (T : kv_hash_id -> gmap Z (list positive)) (h : kv_hash_id) (k : Z)
    (c : list positive) : kv_hash_id -> gmap Z (list positive) :=
  fun h' => if decide (h = h') then <[k := c]> (T h') else T h'.

Lemma set_chain_lookup T h k c h' k' :
  default [] (set_chain T h k c h' !! k') =
  if decide (h = h' /\ k = k') then c else default [] (T h' !! k').
Proof.
  unfold set_chain. destruct (decide (h = h')) as [->|]; [|by rewrite decide_False by tauto].
  destruct (decide (k = k')) as [->|].
  - by rewrite lookup_insert_eq, decide_True.
  - by rewrite lookup_insert_ne, decide_False by tauto.
Qed.

(** [hlist_add_head] of an unlinked request whose key is not in the table. *)
Lemma HashInv_link heap T i r h k : heap !! i = Some r -> rq_hash r = None ->
  (forall j rj kj, heap !! j = Some rj -> rq_hash rj = Some (h, kj) -> kid rj <> kid r) ->
  HashInv heap T ->
  HashInv (<[i := r <| rq_hash := Some (h, k) |>]> heap) (set_chain T h k (i :: default [] (T h !! k))).
Proof.
  intros Hi Hh Hfresh [Hn Hc Hu]. split.
  - intros h' k'. rewrite set_chain_lookup. destruct (decide _); [|done].
    constructor; [|done]. rewrite Hc. intros (x & ? & ?); simplify_eq; congruence.
  - intros h' k' j. rewrite set_chain_lookup. destruct (decide (i = j)) as [->|Hne].
    + rewrite lookup_insert_eq. destruct (decide _) as [[<- <-]|Hd].
      * split; [|left]. eexists; split; [done|done].
      * rewrite Hc. split; [intros (x & ? & Hx); congruence|].
        intros (x & ? & Hx); simplify_eq/=. tauto.
    + rewrite lookup_insert_ne by done. destruct (decide _) as [[<- <-]|Hd]; [|apply Hc].
      rewrite <- Hc, elem_of_cons. intuition congruence.
  - intros h' k1 k2 a b ra rb. rewrite !lookup_insert_Some.
    intros [[<- <-]|[Ha Hra]] [[<- <-]|[Hb Hrb]] H1 H2 Hk.
    + done.
    + injection H1 as <- <-. destruct (Hfresh b rb k2 Hrb H2). symmetry. exact Hk.
    + injection H2 as <- <-. destruct (Hfresh a ra k1 Hra H1). exact Hk.
    + by eapply Hu.
Qed.

(** [hlist_del_init]. *)
Lemma HashInv_unlink heap T i r h k : heap !! i = Some r -> rq_hash r = Some (h, k) ->
  HashInv heap T ->
  HashInv (<[i := r <| rq_hash := None |>]> heap)
    (set_chain T h k (filter (fun j => j <> i) (default [] (T h !! k)))).
Proof.
  intros Hi Hh [Hn Hc Hu]. split.
  - intros h' k'. rewrite set_chain_lookup. destruct (decide _); [|done]. by apply NoDup_filter.
  - intros h' k' j. rewrite set_chain_lookup. destruct (decide (i = j)) as [->|Hne].
    + rewrite lookup_insert_eq. destruct (decide _) as [[<- <-]|Hd].
      * rewrite list_elem_of_filter. split; [by intros []|]. intros (x & ? & ?); by simplify_eq.
      * rewrite Hc. split; intros (x & ? & Hx); simplify_eq/=. tauto.
    + rewrite lookup_insert_ne by done. destruct (decide _) as [[<- <-]|Hd]; [|apply Hc].
      rewrite <- Hc, list_elem_of_filter. intuition congruence.
  - intros h' k1 k2 a b ra rb. rewrite !lookup_insert_Some.
    intros [[<- <-]|[Ha Hra]] [[<- <-]|[Hb Hrb]]; try done; eauto.
Qed.
End Tables.

(** ** The invariant *)

(** What a handler in the middle of its work carries: the requests it has taken
    off a queue, the queues it holds, the queues whose [nr_rq] it has still to
    decrement, the blocking requests whose waiter is not linked to them yet or
    any more, and the number of completions it has still to count. *)
Record ghost : Type := {
  g_own : list positive;
  g_memqs : list positive;
  g_lag : list positive;
  g_orphan : list positive;
  g_busy : Z;
}.

#[export] Instance eta_ghost : Eta ghost := fun g =>
  {| g_own := g_own g; g_memqs := g_memqs g; g_lag := g_lag g; g_orphan := g_orphan g;
     g_busy := g_busy g |}.

(** Nothing is carried. *)
Definition idle : ghost := {| g_own := []; g_memqs := []; g_lag := []; g_orphan := []; g_busy := 0 |}.

Definition lag (g : ghost) (m : positive) : Z := if decide (m ∈ g_lag g) then 1 else 0.

Definition flying (r : kv_async_request) : bool := bit KV_async_inFlight_rq r.
Definition in_ra (r : kv_async_request) : bool := bit KV_async_in_readahead r.
Definition invalid (r : kv_async_request) : bool := bit KV_async_invalid_rq r.
Definition completed (r : kv_async_request) : bool := bit KV_async_completed r.
Definition blocking (r : kv_async_request) : bool := bit KV_async_blocking_rq r.
Definition pending (r : kv_async_request) : bool :=
  match rq_blocking_rq r with Some _ => true | None => false end.

Definition is_write (op : Z) : bool := is_kv_store_cmd op || is_kv_delete_cmd op.

(** How many requests of a queue are pending. *)
Fixpoint count_pending (heap : gmap positive kv_async_request) (l : list positive) : Z :=
  match l with
  | [] => 0
  | i :: l' => (match heap !! i with Some r => b2z (pending r) | None => 0 end) + count_pending heap l'
  end.

(** Where a memory queue is: active or reserved for a CPU, in the list of a
    submission daemon, or carried by one. *)
Inductive memq_loc : Type := LPercpu (t cpu : Z) | LDaemon (t : Z) | LCarried.
#[export] Instance memq_loc_eq : EqDecision memq_loc.
Proof. solve_decision. Defined.

(** ** Memory queues and daemons *)

Section Queues.
  Variable nr_cpus : Z.
  Variables (carried : list positive) (percpu : gmap (Z * Z) positive) (submit : gmap Z kv_work_struct).

Definition at_loc (m : positive) (l : memq_loc) : Prop :=
  match l with
  | LPercpu t cpu => percpu !! (t, cpu) = Some m
  | LDaemon t => exists d, submit !! t = Some d /\ m ∈ sd_mumemq_list d
  | LCarried => m ∈ carried
  end.

(** The slots there are: four types of queues for each CPU (nothing is said of
    the CPUs before there are any). *)
Definition slot_ok (k : Z * Z) : Prop := 0 <= k.1 < NR_DAEMON /\ (0 < nr_cpus -> 0 <= k.2 < nr_cpus).

(** Every queue pointer is to an allocated queue, and every allocated queue is
    in exactly one place; every CPU has its two active queues, every daemon exists
    and there are no other slots. *)
Record QInv (memqs : gmap positive kv_memqueue_struct) (next : positive) : Prop := {
  qi_located m l : at_loc m l -> is_Some (memqs !! m);
  qi_uniq m l1 l2 : at_loc m l1 -> at_loc m l2 -> l1 = l2;
  qi_nodup t d : submit !! t = Some d -> NoDup (sd_mumemq_list d);
  qi_carried : NoDup carried;
  qi_active t cpu : t = ACTIVE_READ \/ t = ACTIVE_WRITE -> 0 <= cpu < nr_cpus ->
    is_Some (percpu !! (t, cpu));
  qi_daemons t : 0 <= t < NR_DAEMON -> is_Some (submit !! t);
  qi_fresh m : is_Some (memqs !! m) -> (m < next)%positive;
  qi_reach m : is_Some (memqs !! m) -> exists l, at_loc m l;
  qi_slots k m : percpu !! k = Some m -> slot_ok k;
  qi_types t d : submit !! t = Some d -> 0 <= t < NR_DAEMON;
}.
End Queues.

(** The length of the buffers a key is read with: the clients use one length per
    key. *)
Class ReadLen : Type := read_len : list Z * Z -> Z.

Section Invariant.
  Context `{KernelHash} `{Device} `{FifoOps Q} `{ReadLen}.
  Variable nr_cpus : Z.

Definition tables (s : driver Q) (h : kv_hash_id) : gmap Z (list positive) := h_table (get_hash h s).

Definition flying_list (g : ghost) (s : driver Q) : list positive :=
  g_own g ++ s_dev_queue s ++ fifo_contents (s_fifo s).

(** What holds of every request, whatever its place. *)
Record rq_base (r : kv_async_request) : Prop := {
  rb_inline : rq_key_addr r = KeyInline;
  rb_key : key_wf (c_key (rq_c r)) (rq_key_length r);
  rb_hash_key : rq_hash_key r = get_hash_key (c_key (rq_c r)) (rq_key_length r);
  rb_key_len : c_key_len (rq_c r) = u8 (rq_key_length r - 1);
  rb_opcode : is_write (c_opcode (rq_c r)) || is_kv_retrieve_cmd (c_opcode (rq_c r)) = true;
  rb_plain : c_option (rq_c r) = 0 /\ c_offset (rq_c r) = 0;
  rb_lock : rq_lock r = false;
  rb_refcount : rq_refcount r = 1;
  rb_data : match rq_data_addr r with
            | Some d => rq_data_length r = Z.of_nat (length d) /\ d <> []
            | None => rq_data_length r = 0 end;
  rb_sized : 4 * c_value_len (rq_c r) = rq_data_length r;
  rb_delete : is_kv_delete_cmd (c_opcode (rq_c r)) = true -> rq_data_length r = 0;
  rb_read : is_kv_retrieve_cmd (c_opcode (rq_c r)) = true -> rq_data_length r = read_len (kid r);
}.

Record ra_ok (r : kv_async_request) : Prop := {
  ra_bits : completed r = true /\ flying r = false /\ invalid r = false /\ blocking r = false;
  ra_hash : rq_hash r = Some (KV_RA_HASH, rq_hash_key r);
  ra_opcode : is_kv_retrieve_cmd (c_opcode (rq_c r)) = true;
  ra_pending : pending r = false;
}.

Record fly_ok (r : kv_async_request) : Prop := {
  fly_bits : completed r = false /\ invalid r = false;
  fly_hash : rq_hash r = if blocking r then None else Some (KV_RQ_HASH, rq_hash_key r);
  fly_pending : pending r = false;
  fly_req : rq_req r = true;
  fly_cpu : is_Some (rq_cpu r);
}.

Record buf_ok (r : kv_async_request) : Prop := {
  buf_bits : completed r = false /\ blocking r = false;
  buf_hash : rq_hash r = if invalid r then None else Some (KV_RQ_HASH, rq_hash_key r);
  buf_pending : invalid r = true -> pending r = false;
}.

Definition place_ok (g : ghost) (s : driver Q) (i : positive) (r : kv_async_request) : Prop :=
  if in_ra r then ra_ok r /\ i ∈ s_ra_list s
  else if flying r then fly_ok r /\ i ∈ flying_list g s
  else buf_ok r /\ exists m q, rq_memq r = Some m /\ s_memqs s !! m = Some q /\ i ∈ mq_rq q.

(** A queue whose count is [lg] ahead of its list.  The queue of a batch with a
    blocking key is left out. *)
Record memq_ok (heap : gmap positive kv_async_request) (lg : Z) (m : positive)
    (q : kv_memqueue_struct) : Prop := {
  mo_nodup : NoDup (mq_rq q);
  mo_nr_rq : mq_nr_rq q = Z.of_nat (length (mq_rq q)) + lg;
  mo_key : forallb (Z.eqb 0) (mq_key q) = true;
  mo_nr_pending : mq_nr_pending q = count_pending heap (mq_rq q);
  mo_members i : i ∈ mq_rq q -> exists r, heap !! i = Some r /\ in_ra r = false /\ flying r = false /\
    rq_memq r = Some m;
}.

Record Inv (g : ghost) (s : driver Q) : Prop := {
  inv_base i r : s_heap s !! i = Some r -> rq_base r;
  inv_place i r : s_heap s !! i = Some r -> place_ok g s i r;
  inv_hash : HashInv (s_heap s) (tables s);
  inv_locks h : h_locks (get_hash h s) = ∅;
  inv_nr h : h_nr_rq (get_hash h s) = count_hashed h (s_heap s);
  inv_memq m q : s_memqs s !! m = Some q -> memq_ok (s_heap s) (lag g m) m q;
  inv_flying : NoDup (flying_list g s) /\
    forall i, i ∈ flying_list g s -> exists r, s_heap s !! i = Some r /\ in_ra r = false /\ flying r = true;
  inv_ra : NoDup (s_ra_list s) /\
    forall i, i ∈ s_ra_list s -> exists r, s_heap s !! i = Some r /\ in_ra r = true;
  inv_pending i r b : s_heap s !! i = Some r -> rq_blocking_rq r = Some b ->
    exists rb, s_heap s !! b = Some rb /\ flying rb = true /\ blocking rb = true /\ kid rb = kid r;
  inv_blocking b rb : s_heap s !! b = Some rb -> blocking rb = true ->
    b ∈ g_orphan g \/ exists i r, s_heap s !! i = Some r /\ rq_blocking_rq r = Some b;
  inv_queues : QInv nr_cpus (g_memqs g) (s_percpu_memq s) (s_submit s) (s_memqs s) (s_next_memq s);
  inv_fresh i : is_Some (s_heap s !! i) -> (i < s_next_rq s)%positive;
  inv_fifo : fifo_ok (s_fifo s) /\
    s_nr_interrupt s = s_nr_complete s + Z.of_nat (length (fifo_contents (s_fifo s))) + g_busy g;
  inv_fails : s_fails s = [];
  inv_lag m : m ∈ g_lag g -> m ∈ g_memqs g;
  inv_slab q : q ∈ s_memq_slab s -> q = zero_memq;
}.
End Invariant.
