(* ===== verification/KvExec.v ===== *)
(** * Symbolic execution of the hash operations

    What each operation of kv_hash.c does to a state, as equations between the
    operation and an explicit update of the state, under the hypotheses the
    invariant provides.  The handlers are run with these equations. *)

From Stdlib Require Import ZArith Lia Bool.
From stdpp Require Import base list gmap.
From S2P Require Import Prelude KvFifo KvCmd KvState KvHash KvIosched KvInv.

(** Running the first of two steps. *)
Lemma bind_done {S A B} (m : M S A) (k : A -> M S B) s a s' : m s = Done a s' -> bind m k s = k a s'.
Proof. intros Hm. unfold bind. by rewrite Hm. Qed.

(** Run the next step of a program with an equation. *)
Tactic Notation "run" uconstr(H) :=
  first [refine (eq_trans (bind_done _ _ _ _ _ H) _) | refine (eq_trans H _)]; cbv beta iota.

Section Exec.
  Context `{KernelHash} `{Device} {Q : Type}.
  Implicit Types s : driver Q.

(** ** Requests *)

(** Storing and removing one request. *)
Definition put_rq (i : positive) (r : kv_async_request) s : driver Q := s <| s_heap ::= <[i := r]> |>.
Definition drop_rq (i : positive) s : driver Q := s <| s_heap ::= delete i |>.

Lemma put_rq_lookup i r s : s_heap (put_rq i r s) !! i = Some r.
Proof. apply lookup_insert_eq. Qed.
Lemma put_rq_lookup_ne i j r s : i <> j -> s_heap (put_rq i r s) !! j = s_heap s !! j.
Proof. apply lookup_insert_ne. Qed.
Lemma put_rq_Some i r s j x : s_heap (put_rq i r s) !! j = Some x <->
  (i = j /\ r = x) \/ (i <> j /\ s_heap s !! j = Some x).
Proof. apply lookup_insert_Some. Qed.
Lemma drop_rq_Some i s j x : s_heap (drop_rq i s) !! j = Some x <-> i <> j /\ s_heap s !! j = Some x.
Proof. apply lookup_delete_Some. Qed.
Lemma put_rq_twice i r r' s : put_rq i r' (put_rq i r s) = put_rq i r' s.
Proof. unfold put_rq, upd. simpl. by rewrite insert_insert_eq. Qed.
Lemma put_rq_id i r s : s_heap s !! i = Some r -> put_rq i r s = s.
Proof. intros Hi. unfold put_rq, upd. destruct s. simpl in *. by rewrite insert_id. Qed.
Lemma drop_put_rq i r s : drop_rq i (put_rq i r s) = drop_rq i s.
Proof. unfold drop_rq, put_rq, upd. simpl. by rewrite delete_insert_eq. Qed.
Lemma put_rq_comm i j r r' s : i <> j -> put_rq i r (put_rq j r' s) = put_rq j r' (put_rq i r s).
Proof. intros Hne. unfold put_rq, upd. simpl. by rewrite insert_insert_ne. Qed.

Lemma fails_eq s : s_fails s = [] -> fails s = Done false s.
Proof. intros Hf. unfold fails. by rewrite Hf. Qed.

Lemma get_rq_eq s i r : s_heap s !! i = Some r -> get_rq i s = Done r s.
Proof. intros Hi. unfold get_rq. by rewrite Hi. Qed.

Lemma upd_rq_eq s i r f : s_heap s !! i = Some r -> upd_rq i f s = Done tt (put_rq i (f r) s).
Proof. intros Hi. unfold upd_rq. by rewrite Hi. Qed.

Lemma spin_lock_eq s i r : s_heap s !! i = Some r -> rq_lock r = false ->
  spin_lock i s = Done tt (put_rq i (r <| rq_lock := true |>) s).
Proof.
  intros Hi Hl. unfold spin_lock. rewrite (bind_done _ _ _ _ _ (get_rq_eq s i r Hi)), Hl.
  by rewrite (upd_rq_eq s i r).
Qed.

Lemma spin_unlock_eq s i r : s_heap s !! i = Some r -> rq_lock r = true ->
  spin_unlock i s = Done tt (put_rq i (r <| rq_lock := false |>) s).
Proof.
  intros Hi Hl. unfold spin_unlock. rewrite (bind_done _ _ _ _ _ (get_rq_eq s i r Hi)), Hl.
  by rewrite (upd_rq_eq s i r).
Qed.

Lemma dec_and_test_eq s i r : s_heap s !! i = Some r ->
  atomic_dec_and_test i s =
  Done (rq_refcount r - 1 =? 0) (put_rq i (r <| rq_refcount ::= Z.add (-1) |>) s).
Proof.
  intros Hi. unfold atomic_dec_and_test, atomic_dec.
  rewrite (bind_done _ _ _ _ _ (upd_rq_eq s i r _ Hi)).
  rewrite (bind_done _ _ _ _ _ (get_rq_eq _ i _ (put_rq_lookup i _ s))). unfold ret. do 2 f_equal.
  simpl. lia.
Qed.

Lemma free_eq s i r : s_heap s !! i = Some r -> rq_lock r = true ->
  free_kv_async_rq i s = Done tt (drop_rq i s).
Proof.
  intros Hi Hl. unfold free_kv_async_rq. rewrite (bind_done _ _ _ _ _ (upd_rq_eq s i r _ Hi)).
  erewrite bind_done by (apply spin_unlock_eq; [apply put_rq_lookup|done]).
  rewrite put_rq_twice. unfold kv_async_request_free. rewrite put_rq_lookup. f_equal. apply drop_put_rq.
Qed.

(** Dropping a reference on a locked request that is not the last one. *)
Lemma put_locked_eq s i r : s_heap s !! i = Some r -> rq_lock r = true -> rq_refcount r <> 1 ->
  put_locked i s =
  Done tt (put_rq i (r <| rq_refcount ::= Z.add (-1) |> <| rq_lock := false |>) s).
Proof.
  intros Hi Hl Hr. unfold put_locked. rewrite (bind_done _ _ _ _ _ (dec_and_test_eq s i r Hi)).
  destruct (Z.eqb_spec (rq_refcount r - 1) 0); [lia|].
  rewrite (spin_unlock_eq _ i _ (put_rq_lookup i _ s)) by done. by rewrite put_rq_twice.
Qed.

(** Dropping the last one. *)
Lemma put_locked_free s i r : s_heap s !! i = Some r -> rq_lock r = true -> rq_refcount r = 1 ->
  put_locked i s = Done tt (drop_rq i s).
Proof.
  intros Hi Hl Hr. unfold put_locked. rewrite (bind_done _ _ _ _ _ (dec_and_test_eq s i r Hi)), Hr.
  change (1 - 1 =? 0) with true. cbv iota.
  rewrite (free_eq _ i _ (put_rq_lookup i _ s)) by done. by rewrite drop_put_rq.
Qed.

(** ** Searching a chain *)

Definition inline_wf (r : kv_async_request) : Prop :=
  rq_key_addr r = KeyInline /\ key_wf (c_key (rq_c r)) (rq_key_length r).

Definition inc_ref (i : positive) (r : kv_async_request) s : driver Q :=
  put_rq i (r <| rq_refcount ::= Z.add 1 |>) s.

Lemma kv_hash_search_spec s c k klen : key_wf k klen ->
  (forall i, i ∈ c -> exists r, s_heap s !! i = Some r /\ inline_wf r) ->
  (exists i r, i ∈ c /\ s_heap s !! i = Some r /\ kid r = (k, klen) /\
    kv_hash_search c (Some k) klen s = Done (Some i) (inc_ref i r s)) \/
  ((forall i r, i ∈ c -> s_heap s !! i = Some r -> kid r <> (k, klen)) /\
    kv_hash_search c (Some k) klen s = Done None s).
Proof.
  intros Hk. induction c as [|i c IH]; intros Hc.
  - right. split; [|done]. intros i r Hi. by apply elem_of_nil in Hi.
  - destruct (Hc i ltac:(left)) as (r & Hi & Haddr & Hwf).
    assert (Hc' : forall j, j ∈ c -> exists r, s_heap s !! j = Some r /\ inline_wf r)
      by (intros j Hj; apply Hc; by right).
    specialize (IH Hc'). cbn [kv_hash_search]. rewrite (bind_done _ _ _ _ _ (get_rq_eq s i r Hi)).
    assert (Hskip : kid r <> (k, klen) ->
      (exists j rj, j ∈ i :: c /\ s_heap s !! j = Some rj /\ kid rj = (k, klen) /\
        kv_hash_search c (Some k) klen s = Done (Some j) (inc_ref j rj s)) \/
      ((forall j rj, j ∈ i :: c -> s_heap s !! j = Some rj -> kid rj <> (k, klen)) /\
        kv_hash_search c (Some k) klen s = Done None s)).
    { intros Hne. destruct IH as [(j & rj & Hj & Hlk & Hkid & Heq)|[Hnone Heq]].
      - left. exists j, rj. split; [by right|done].
      - right. split; [|done]. intros j rj [->|Hj]%elem_of_cons Hlk; [|by eapply Hnone]. congruence. }
    unfold kid in Hskip. destruct (Z.eqb_spec (rq_key_length r) klen) as [Hlen|Hlen]; cbn [negb];
      [|apply Hskip; congruence].
    assert (Hcmp : forall kk, (if klen =? 0 then ret true
        else k1 <- deref (rq_key r);; k2 <- deref (Some k);; ret (key_match k1 k2 klen)) s = kk ->
        kk = Done (bool_decide (c_key (rq_c r) = k)) s).
    { intros kk <-. unfold rq_key. rewrite Haddr. rewrite Hlen in Hwf.
      pose proof (key_match_wf _ _ _ Hwf Hk) as Hm. destruct (Z.eqb_spec klen 0) as [->|].
      - unfold ret. f_equal. symmetry. apply bool_decide_eq_true_2, Hm. reflexivity.
      - cbn. unfold ret. f_equal. apply eq_true_iff_eq. by rewrite Hm, bool_decide_eq_true. }
    rewrite (bind_done _ _ _ _ _ (Hcmp _ eq_refl)). case_bool_decide as Hkk.
    + left. exists i, r. split; [left|]. split; [done|]. split; [unfold kid; congruence|].
      unfold atomic_inc. by rewrite (bind_done _ _ _ _ _ (upd_rq_eq s i r _ Hi)).
    + apply Hskip. congruence.
Qed.

(** ** Running under a bucket lock *)

(** The state with the lock of bucket [k] of table [h] held. *)
Definition lk (h : kv_hash_id) (k : Z) s : driver Q :=
  upd_hash h (fun t => t <| h_locks := {[k]} |>) s.

Definition unlocked s : Prop := forall h, h_locks (get_hash h s) = ∅.

Lemma hash_lock_eq h k s : unlocked s -> hash_lock h k s = Done tt (lk h k s).
Proof.
  intros Hl. specialize (Hl h). unfold hash_lock. rewrite Hl, decide_False by set_solver.
  f_equal. unfold lk. destruct h; simpl in *; unfold upd; simpl; rewrite Hl;
    by rewrite union_empty_r_L.
Qed.

Lemma hash_unlock_eq h k s : unlocked s -> hash_unlock h k (lk h k s) = Done tt s.
Proof.
  intros Hl. specialize (Hl h). unfold hash_unlock.
  replace (h_locks (get_hash h (lk h k s))) with ({[k]} : gset Z) by (by destruct h).
  rewrite decide_True by set_solver. f_equal. unfold lk.
  destruct s, h; simpl in *; unfold upd; simpl;
    [destruct s_rq_hash | destruct s_ra_hash]; simpl in *; subst; by rewrite difference_diag_L.
Qed.

(** An operation that does not use the table locks runs the same under one. *)
Class LockFree {A} (m : M (driver Q) A) : Prop :=
  lock_free : forall h k s a s', m s = Done a s' -> m (lk h k s) = Done a (lk h k s').

#[export] Instance lf_ret {A} (a : A) : LockFree (ret a).
Proof. intros h k s a' s' Heq. by injection Heq as <- <-. Qed.

#[export] Instance lf_fail {A} f : LockFree (A:=A) (fail f).
Proof. by intros h k s a' s' Heq. Qed.

#[export] Instance lf_bind {A B} (m : M (driver Q) A) (f : A -> M (driver Q) B) :
  LockFree m -> (forall a, LockFree (f a)) -> LockFree (bind m f).
Proof.
  intros Hm Hf h k s b s'. unfold bind. destruct (m s) as [a s1|] eqn:Heq; [|done].
  rewrite (Hm h k s a s1 Heq). apply Hf.
Qed.

#[export] Instance lf_if {A} (b : bool) (m1 m2 : M (driver Q) A) :
  LockFree m1 -> LockFree m2 -> LockFree (if b then m1 else m2).
Proof. by destruct b. Qed.

Lemma lk_heap h k s : s_heap (lk h k s) = s_heap s.
Proof. by destruct h. Qed.

#[export] Instance lf_get_rq i : LockFree (get_rq i).
Proof.
  intros h k s r s'. unfold get_rq. rewrite lk_heap. destruct (s_heap s !! i); [|done].
  intros Heq. by injection Heq as <- <-.
Qed.

#[export] Instance lf_upd_rq i f : LockFree (upd_rq i f).
Proof.
  intros h k s r s'. unfold upd_rq. rewrite lk_heap. destruct (s_heap s !! i); [|done].
  intros Heq. injection Heq as <- <-. by destruct h.
Qed.

#[export] Instance lf_upd_hash h' f : (forall t, h_locks (f t) = h_locks t) ->
  (forall t l, f (t <| h_locks := l |>) = (f t) <| h_locks := l |>) ->
  LockFree (modify (upd_hash h' f)).
Proof.
  intros Hl Hc h k s r s' Heq. injection Heq as <- <-. unfold modify. f_equal.
  specialize (Hc (get_hash h s) {[k]}). unfold lk.
  destruct h, h'; simpl in *; unfold upd in *; simpl in *; try done; by rewrite Hc.
Qed.

#[export] Instance lf_ra_list f : LockFree (modify (fun s : driver Q => s <| s_ra_list ::= f |>)).
Proof. intros h k s r s' Heq. injection Heq as <- <-. by destruct h. Qed.

#[export] Instance lf_deref x : LockFree (deref x).
Proof. destruct x; apply _. Qed.

#[export] Instance lf_spin_lock i : LockFree (spin_lock i).
Proof. unfold spin_lock. apply _. Qed.
#[export] Instance lf_spin_unlock i : LockFree (spin_unlock i).
Proof. unfold spin_unlock. apply _. Qed.
#[export] Instance lf_set_rq_bit n i : LockFree (set_rq_bit n i).
Proof. unfold set_rq_bit. apply _. Qed.
#[export] Instance lf_atomic_dec i : LockFree (atomic_dec i).
Proof. unfold atomic_dec. apply _. Qed.

#[export] Instance lf_kv_hash_search c key klen : LockFree (kv_hash_search c key klen).
Proof. induction c as [|i c IH]; cbn [kv_hash_search]; unfold atomic_inc; apply _. Qed.

#[export] Instance lf_search h key klen k : LockFree (search h key klen k).
Proof.
  intros h' k' s a s'. unfold search, gets, bind.
  replace (chain (get_hash h (lk h' k' s)) k) with (chain (get_hash h s) k) by (by destruct h, h').
  apply lf_kv_hash_search.
Qed.

#[export] Instance lf_add_nr_rq h d : LockFree (add_nr_rq h d).
Proof. unfold add_nr_rq. apply lf_upd_hash; reflexivity. Qed.

(** ** Linking and unlinking *)

(** [hlist_add_head] and [hlist_del_init] as updates of the state. *)
Definition link (i : positive) (r : kv_async_request) (h : kv_hash_id) (k : Z) s : driver Q :=
  upd_hash h (fun t => t <| h_table ::= <[k := i :: chain t k]> |>)
    (put_rq i (r <| rq_hash := Some (h, k) |>) s).

Definition unlink (i : positive) (r : kv_async_request) (h : kv_hash_id) (k : Z) s : driver Q :=
  upd_hash h (fun t => t <| h_table ::= <[k := filter (fun j => j <> i) (chain t k)]> |>)
    (put_rq i (r <| rq_hash := None |>) s).

Lemma upd_hash_put_rq h f i r s : upd_hash h f (put_rq i r s) = put_rq i r (upd_hash h f s).
Proof. by destruct h. Qed.
Lemma upd_hash_drop_rq h f i s : upd_hash h f (drop_rq i s) = drop_rq i (upd_hash h f s).
Proof. by destruct h. Qed.
Lemma upd_hash_twice h f1 f2 s : upd_hash h f2 (upd_hash h f1 s) = upd_hash h (fun t => f2 (f1 t)) s.
Proof. by destruct h. Qed.
Lemma upd_hash_ext h f1 f2 s : f1 (get_hash h s) = f2 (get_hash h s) -> upd_hash h f1 s = upd_hash h f2 s.
Proof. intros Heq. destruct h; simpl in *; unfold upd; by rewrite Heq. Qed.
Lemma heap_upd_hash h f s : s_heap (upd_hash h f s) = s_heap s.
Proof. by destruct h. Qed.

Lemma hlist_add_head_eq s i r h k : s_heap s !! i = Some r ->
  hlist_add_head i h k s = Done tt (link i r h k s).
Proof.
  intros Hi. unfold hlist_add_head. by rewrite (bind_done _ _ _ _ _ (upd_rq_eq s i r _ Hi)).
Qed.

Lemma hlist_del_init_eq s i r h k : s_heap s !! i = Some r -> rq_hash r = Some (h, k) ->
  hlist_del_init i s = Done tt (unlink i r h k s).
Proof.
  intros Hi Hh. unfold hlist_del_init. rewrite (bind_done _ _ _ _ _ (get_rq_eq s i r Hi)), Hh.
  by rewrite (bind_done _ _ _ _ _ (upd_rq_eq s i r _ Hi)).
Qed.

#[export] Instance lf_hlist_add_head i h k : LockFree (hlist_add_head i h k).
Proof. unfold hlist_add_head. apply lf_bind; [apply _|]. intros _. apply lf_upd_hash; reflexivity. Qed.

#[export] Instance lf_hlist_del_init i : LockFree (hlist_del_init i).
Proof.
  unfold hlist_del_init. apply lf_bind; [apply _|]. intros r. destruct (rq_hash r) as [[h k]|]; [|apply _].
  apply lf_bind; [apply _|]. intros _. apply lf_upd_hash; reflexivity.
Qed.

Lemma tables_link s i r h k h' :
  tables (link i r h k s) h' = set_chain (tables s) h k (i :: default [] (tables s h !! k)) h'.
Proof. unfold tables, set_chain, link, chain. by destruct h, h'. Qed.

Lemma tables_unlink s i r h k h' :
  tables (unlink i r h k s) h' =
  set_chain (tables s) h k (filter (fun j => j <> i) (default [] (tables s h !! k))) h'.
Proof. unfold tables, set_chain, unlink, chain. by destruct h, h'. Qed.

Lemma HashInv_ext heap T T' : (forall h, T h = T' h) -> HashInv heap T -> HashInv heap T'.
Proof. intros He [Hn Hc Hu]. split; [intros; rewrite <- He; done| |done]. intros. by rewrite <- He. Qed.

(** ** Searching under the invariant *)

(** What a search relies on. *)
Record searchable s : Prop := {
  se_hash : HashInv (s_heap s) (tables s);
  se_wf i r h k : s_heap s !! i = Some r -> rq_hash r = Some (h, k) ->
    inline_wf r /\ k = get_hash_key (c_key (rq_c r)) (rq_key_length r);
  se_unlocked : unlocked s;
}.

(** No request of table [h] has the key. *)
Definition absent (h : kv_hash_id) (key : list Z * Z) s : Prop :=
  forall i r k, s_heap s !! i = Some r -> rq_hash r = Some (h, k) -> kid r <> key.

(** The request of table [h] with the key. *)
Definition present (h : kv_hash_id) (k : list Z) (klen : Z) (i : positive) (r : kv_async_request) s : Prop :=
  s_heap s !! i = Some r /\ rq_hash r = Some (h, get_hash_key k klen) /\ kid r = (k, klen).

Lemma search_spec s h k klen : searchable s -> key_wf k klen ->
  (exists i r, present h k klen i r s /\
    search h (Some k) klen (get_hash_key k klen) s = Done (Some i) (inc_ref i r s)) \/
  (absent h (k, klen) s /\ search h (Some k) klen (get_hash_key k klen) s = Done None s).
Proof.
  intros [Hh Hwf _] Hk. unfold search.
  rewrite (bind_done _ _ s (chain (get_hash h s) (get_hash_key k klen)) s) by reflexivity.
  pose proof (hi_chain _ _ Hh h (get_hash_key k klen)) as Hc. unfold tables in Hc. fold (chain (get_hash h s) (get_hash_key k klen)) in Hc.
  destruct (kv_hash_search_spec s (chain (get_hash h s) (get_hash_key k klen)) k klen Hk)
    as [(i & r & Hi & Hlk & Hkid & Heq)|[Hnone Heq]].
  - intros i Hi. apply Hc in Hi as (r & Hlk & Hr). exists r. split; [done|]. by eapply Hwf.
  - left. exists i, r. split; [|done]. apply Hc in Hi as (r' & Hlk' & Hr). simplify_eq. done.
  - right. split; [|done]. intros i r k' Hlk Hr Hkid.
    destruct (Hwf i r h k' Hlk Hr) as [_ ->]. apply (Hnone i r); [|done|done].
    apply Hc. exists r. split; [done|]. unfold kid in Hkid. injection Hkid as <- <-. done.
Qed.

(** ** Updating one request *)

Lemma unlocked_put_rq i r s : unlocked s -> unlocked (put_rq i r s).
Proof. intros Hu h. by destruct h; apply (Hu KV_RQ_HASH) || apply (Hu KV_RA_HASH). Qed.

(** Locking, referencing and releasing again gives the same request. *)
Lemma ref_unref r : rq_lock r = false ->
  (r <| rq_refcount ::= Z.add 1 |> <| rq_lock := true |>) <| rq_refcount ::= Z.add (-1) |> <| rq_lock := false |> = r.
Proof. intros Hl. destruct r. unfold upd. simpl in *. subst. f_equal. lia. Qed.

Definition held (r : kv_async_request) : kv_async_request :=
  r <| rq_refcount ::= Z.add 1 |> <| rq_lock := true |>.

(** Locking the request a search found. *)
Lemma lock_found s i r : s_heap s !! i = Some r -> rq_lock r = false ->
  spin_lock i (inc_ref i r s) = Done tt (put_rq i (held r) s).
Proof.
  intros Hi Hl. rewrite (spin_lock_eq _ i (r <| rq_refcount ::= Z.add 1 |>)).
  - f_equal. apply put_rq_twice.
  - apply put_rq_lookup.
  - done.
Qed.

(** Releasing it, with whatever has changed in it. *)
Lemma put_held_put s i r : rq_lock r = false -> rq_refcount r <> 0 ->
  put_locked i (put_rq i (held r) s) = Done tt (put_rq i r s).
Proof.
  intros Hl Hr. rewrite (put_locked_eq _ i (held r)).
  - f_equal. unfold held. by rewrite put_rq_twice, ref_unref.
  - apply put_rq_lookup.
  - done.
  - simpl. lia.
Qed.

(** Releasing it unchanged. *)
Lemma put_held s i r : s_heap s !! i = Some r -> rq_lock r = false -> rq_refcount r <> 0 ->
  put_locked i (put_rq i (held r) s) = Done tt s.
Proof.
  intros Hi Hl Hr. rewrite put_held_put by done. f_equal. by apply put_rq_id.
Qed.
End Exec.
