(* ===== verification/KvHashSpec.v ===== *)
(** * Specifications of the hash operations

    What every operation of kv_hash.c returns and leaves behind when the tables
    are well formed, one lemma per operation and branch. *)

From Stdlib Require Import ZArith Lia Bool.
From stdpp Require Import base list gmap.
From S2P Require Import Prelude KvFifo KvCmd KvState KvHash KvIosched KvInv KvExec.

Section HashSpec.
  Context `{KernelHash} `{Device} {Q : Type}.
  Variable sleep : driver Q -> driver Q.
  Implicit Types s : driver Q.

(** Taking the lock of the key's bucket and searching, then going on with [f]. *)
Lemma locked_search s h k klen : searchable s -> key_wf k klen ->
  (exists i r, present h k klen i r s /\ forall A (f : option positive -> M (driver Q) A),
    (hash_lock h (get_hash_key k klen) ;;
     x <- search h (Some k) klen (get_hash_key k klen) ;; f x) s =
    f (Some i) (lk h (get_hash_key k klen) (inc_ref i r s))) \/
  (absent h (k, klen) s /\ forall A (f : option positive -> M (driver Q) A),
    (hash_lock h (get_hash_key k klen) ;;
     x <- search h (Some k) klen (get_hash_key k klen) ;; f x) s =
    f None (lk h (get_hash_key k klen) s)).
Proof.
  intros Hs Hk. pose proof (hash_lock_eq h (get_hash_key k klen) s (se_unlocked s Hs)) as Hl.
  destruct (search_spec s h k klen Hs Hk) as [(i & r & Hp & Heq)|[Ha Heq]];
    apply (lf_search h (Some k) klen _ h (get_hash_key k klen)) in Heq.
  - left. exists i, r. split; [done|]. intros A f. run Hl. by run Heq.
  - right. split; [done|]. intros A f. run Hl. by run Heq.
Qed.

Lemma unlocked_inc_ref i r s : unlocked s -> unlocked (inc_ref i r s).
Proof. apply unlocked_put_rq. Qed.

(** Steps that run under the lock, given what they do without it. *)
Lemma run_locked {A B} h k s (m : M (driver Q) A) `{Hl : !LockFree m} (f : A -> M (driver Q) B) a s' :
  m s = Done a s' -> bind m f (lk h k s) = f a (lk h k s').
Proof. intros Hm. unfold bind. by rewrite (Hl h k s a s' Hm). Qed.

Lemma run_unlock {B} h k s (f : unit -> M (driver Q) B) :
  unlocked s -> bind (hash_unlock h k) f (lk h k s) = f tt s.
Proof. intros Hu. by run (hash_unlock_eq h k s Hu). Qed.

Tactic Notation "runl" uconstr(H) := refine (eq_trans (run_locked _ _ _ _ _ _ _ H) _); cbv beta iota.

(** ** Lookups *)

Lemma kv_hash_find_refcnt_spec s h k klen : searchable s -> key_wf k klen ->
  (exists i r, present h k klen i r s /\
    kv_hash_find_refcnt h (Some k) klen (get_hash_key k klen) s = Done (Some i) (inc_ref i r s)) \/
  (absent h (k, klen) s /\
    kv_hash_find_refcnt h (Some k) klen (get_hash_key k klen) s = Done None s).
Proof.
  intros Hs Hk. unfold kv_hash_find_refcnt. pose proof (se_unlocked s Hs) as Hu.
  destruct (locked_search s h k klen Hs Hk) as [(i & r & Hp & Heq)|[Ha Heq]].
  - left. exists i, r. split; [done|]. rewrite Heq. by rewrite run_unlock by by apply unlocked_inc_ref.
  - right. split; [done|]. rewrite Heq. by rewrite run_unlock.
Qed.

(** [kv_hash_find] looks without keeping a reference. *)
Lemma kv_hash_find_spec n s h k klen : searchable s -> key_wf k klen ->
  (forall i r, present h k klen i r s -> rq_lock r = false /\ rq_refcount r <> 0) ->
  (exists i r, present h k klen i r s /\
    kv_hash_find (S n) h (Some k) klen (get_hash_key k klen) true s = Done (Some i) s) \/
  (absent h (k, klen) s /\
    kv_hash_find (S n) h (Some k) klen (get_hash_key k klen) true s = Done None s).
Proof.
  intros Hs Hk Hfree. cbn [kv_hash_find]. pose proof (se_unlocked s Hs) as Hu.
  destruct (locked_search s h k klen Hs Hk) as [(i & r & Hp & Heq)|[Ha Heq]].
  - left. exists i, r. split; [done|]. rewrite Heq. clear Heq.
    destruct (Hfree i r Hp) as [Hl Hr]. destruct Hp as (Hi & _).
    rewrite run_unlock by by apply unlocked_inc_ref. cbn [when].
    run (lock_found s i r Hi Hl). run (dec_and_test_eq _ i (held r) (put_rq_lookup i (held r) s)).
    destruct (Z.eqb_spec (rq_refcount (held r) - 1) 0); [simpl in *; lia|]. cbn [when].
    rewrite put_rq_twice. erewrite bind_done by (apply spin_unlock_eq; [apply put_rq_lookup|done]).
    rewrite put_rq_twice. unfold held. rewrite ref_unref by done. unfold ret. f_equal.
    by apply put_rq_id.
  - right. split; [done|]. rewrite Heq. by rewrite run_unlock.
Qed.

(** ** Insertion *)

Definition nr_add (h : kv_hash_id) (d : Z) s : driver Q :=
  upd_hash h (fun t => t <| h_nr_rq ::= Z.add d |>) s.

Lemma unlocked_link i r h k s : unlocked s -> unlocked (link i r h k s).
Proof. intros Hu h'. specialize (Hu h'). by destruct h, h'. Qed.
Lemma unlocked_unlink i r h k s : unlocked s -> unlocked (unlink i r h k s).
Proof. intros Hu h'. specialize (Hu h'). by destruct h, h'. Qed.
Lemma unlocked_nr_add h d s : unlocked s -> unlocked (nr_add h d s).
Proof. intros Hu h'. specialize (Hu h'). by destruct h, h'. Qed.

(** A request found in the request table is neither completed, nor invalid, nor
    already blocking another one. *)
Definition live_rq (r : kv_async_request) : Prop :=
  rq_lock r = false /\ rq_refcount r <> 0 /\ completed r = false /\ invalid r = false /\ blocking r = false.

(** [a] takes the place of the in-flight request [b] in the chain and waits
    for it. *)
Definition displace (h : kv_hash_id) (a b : positive) (ra rb : kv_async_request) s : driver Q :=
  put_rq a (ra <| rq_hash := Some (h, rq_hash_key ra) |> <| rq_blocking_rq := Some b |>)
    (put_rq b ((held rb) <| rq_hash := None |> <| rq_state ::= set_bit KV_async_blocking_rq |>)
      (upd_hash h (fun t => t <| h_table ::= <[rq_hash_key ra :=
         a :: filter (fun j => j <> b) (chain t (rq_hash_key ra))]> |>) s)).

Lemma displace_eq h a b ra rb s : a <> b -> s_heap s !! a = Some ra ->
  put_rq a (ra <| rq_hash := Some (h, rq_hash_key ra) |> <| rq_blocking_rq := Some b |>)
    (put_rq b (((held rb) <| rq_hash := None |>) <| rq_state ::= set_bit KV_async_blocking_rq |>)
      (link a ra h (rq_hash_key ra) (unlink b (held rb) h (rq_hash_key ra) (put_rq b (held rb) s)))) =
  displace h a b ra rb s.
Proof.
  intros Hne Ha. unfold displace, link, unlink. rewrite !upd_hash_put_rq, upd_hash_twice.
  rewrite put_rq_twice, (put_rq_comm b a), !put_rq_twice by done.
  do 2 f_equal. apply upd_hash_ext. unfold upd, chain. simpl.
  by rewrite lookup_insert_eq, insert_insert_eq.
Qed.

Lemma kv_hash_insert_spec n s h a ra : searchable s ->
  s_heap s !! a = Some ra -> rq_hash ra = None -> inline_wf ra ->
  rq_hash_key ra = get_hash_key (c_key (rq_c ra)) (rq_key_length ra) ->
  (forall b rb, present h (c_key (rq_c ra)) (rq_key_length ra) b rb s -> live_rq rb) ->
  (absent h (kid ra) s /\
   kv_hash_insert (S n) h a s = Done None (nr_add h 1 (link a ra h (rq_hash_key ra) s))) \/
  (exists b rb, present h (c_key (rq_c ra)) (rq_key_length ra) b rb s /\ a <> b /\
   kv_hash_insert (S n) h a s =
   if flying rb then Done None (displace h a b ra rb s) else Done (Some b) (put_rq b (held rb) s)).
Proof.
  intros Hs Ha Hunh [Haddr Hwf] Hhk Hlive. pose proof (se_unlocked s Hs) as Hu.
  assert (Hkey : rq_key ra = Some (c_key (rq_c ra))) by (unfold rq_key; by rewrite Haddr).
  destruct (locked_search s h _ _ Hs Hwf) as [(b & rb & Hp & Heq)|[Hab Heq]].
  - right. exists b, rb. pose proof Hp as (Hb & Hbh & Hkid). split; [done|].
    assert (Hne : a <> b) by (intros ->; simplify_eq; congruence). split; [done|].
    destruct (Hlive b rb Hp) as (Hl & Hr & Hco & Hin & Hbl).
    cbn [kv_hash_insert]. run (get_rq_eq s a ra Ha). rewrite Hkey, Hhk, Heq. cbv beta iota.
    runl (lock_found s b rb Hb Hl).
    runl (get_rq_eq _ b (held rb) (put_rq_lookup b (held rb) s)).
    change (bit KV_async_completed (held rb)) with (completed rb).
    change (bit KV_async_invalid_rq (held rb)) with (invalid rb).
    change (bit KV_async_blocking_rq (held rb)) with (blocking rb).
    change (bit KV_async_inFlight_rq (held rb)) with (flying rb).
    rewrite Hco, Hin, Hbl. destruct (flying rb) eqn:Hf; cbv iota.
    + runl (hlist_del_init_eq _ b (held rb) h _ (put_rq_lookup b _ s) Hbh).
      assert (Ha' : s_heap (unlink b (held rb) h (rq_hash_key ra) (put_rq b (held rb) s)) !! a = Some ra).
      { unfold unlink. by rewrite heap_upd_hash, !put_rq_lookup_ne. }
      rewrite <- Hhk. runl (hlist_add_head_eq _ a ra h _ Ha').
      rewrite run_unlock by (apply unlocked_link, unlocked_unlink, unlocked_put_rq; done).
      unfold set_rq_bit. erewrite bind_done.
      2:{ apply (upd_rq_eq _ b ((held rb) <| rq_hash := None |>)).
          unfold link, unlink. rewrite heap_upd_hash, put_rq_lookup_ne, heap_upd_hash by done.
          apply put_rq_lookup. }
      erewrite bind_done.
      2:{ apply (upd_rq_eq _ a (ra <| rq_hash := Some (h, rq_hash_key ra) |>)).
          rewrite put_rq_lookup_ne by done. unfold link. rewrite heap_upd_hash. apply put_rq_lookup. }
      unfold ret. f_equal. by apply displace_eq.
    + by rewrite run_unlock by by apply unlocked_put_rq.
  - left. split; [done|].
    cbn [kv_hash_insert]. run (get_rq_eq s a ra Ha). rewrite Hkey, Hhk, Heq. cbv beta iota.
    runl (hlist_add_head_eq s a ra h _ Ha).
    runl (eq_refl : add_nr_rq h 1 _ = Done tt (nr_add h 1 _)).
    rewrite run_unlock by (apply unlocked_nr_add, unlocked_link; done). by rewrite <- Hhk.
Qed.

(** ** Taking over a buffered request *)

(** The wait has read the state word of [i] once more. *)
Definition after_wait (i : positive) s : driver Q :=
  match s_heap s !! i with Some _ => s | None => s <| stale_reads ::= cons i |> end.

Lemma wait_on_bit_eq s i r n : s_heap s !! i = Some r -> bit n r = true ->
  wait_on_bit sleep i n s = Done tt (after_wait i (sleep s)).
Proof.
  intros Hi Hb. unfold wait_on_bit, read_state, bind, modify, ret, after_wait. rewrite Hi.
  unfold bit in Hb. rewrite Hb. by destruct (s_heap (sleep s) !! i).
Qed.

(** The buffered request [i] is invalidated and unlinked, and comes back locked
    and referenced. *)
Definition invalidate (h : kv_hash_id) (i : positive) (r : kv_async_request) s : driver Q :=
  put_rq i ((held r) <| rq_state ::= set_bit KV_async_invalid_rq |> <| rq_hash := None |>)
    (nr_add h (-1) (upd_hash h (fun t => t <| h_table ::=
       <[rq_hash_key r := filter (fun j => j <> i) (chain t (rq_hash_key r))]> |>) s)).

Lemma kv_hash_find_and_lock_spec n s h k klen : searchable s -> key_wf k klen ->
  (forall i r, present h k klen i r s -> live_rq r /\ rq_hash_key r = get_hash_key k klen) ->
  (absent h (k, klen) s /\
   kv_hash_find_and_lock sleep (S n) h (Some k) klen (get_hash_key k klen) s = Done (None, false) s) \/
  (exists i r, present h k klen i r s /\
   kv_hash_find_and_lock sleep (S n) h (Some k) klen (get_hash_key k klen) s =
   if flying r then Done (None, true) (after_wait i (sleep s))
   else match rq_blocking_rq r with
   | Some b => match s_heap s !! b with
               | Some rb => if flying rb
                   then kv_hash_find_and_lock sleep n h (Some k) klen (get_hash_key k klen) (after_wait b (sleep s))
                   else kv_hash_find_and_lock sleep n h (Some k) klen (get_hash_key k klen) s
               | None => kv_hash_find_and_lock sleep n h (Some k) klen (get_hash_key k klen)
                           (s <| stale_reads ::= cons b |>)
               end
   | None => Done (Some i, false) (invalidate h i r s)
   end).
Proof.
  intros Hs Hk Hlive. pose proof (se_unlocked s Hs) as Hu.
  destruct (locked_search s h k klen Hs Hk) as [(i & r & Hp & Heq)|[Hab Heq]].
  2:{ left. split; [done|]. cbn [kv_hash_find_and_lock]. rewrite Heq. by rewrite run_unlock. }
  right. exists i, r. split; [done|]. destruct (Hlive i r Hp) as [(Hl & Hr & Hco & Hin & Hbl) Hhk].
  destruct Hp as (Hi & Hh & _). cbn [kv_hash_find_and_lock]. rewrite Heq. cbv beta iota.
  runl (lock_found s i r Hi Hl).
  runl (get_rq_eq _ i (held r) (put_rq_lookup i (held r) s)).
  change (bit KV_async_completed (held r)) with (completed r).
  change (bit KV_async_invalid_rq (held r)) with (invalid r).
  change (bit KV_async_blocking_rq (held r)) with (blocking r).
  change (bit KV_async_inFlight_rq (held r)) with (flying r).
  change (rq_blocking_rq (held r)) with (rq_blocking_rq r).
  rewrite Hco, Hin, Hbl. cbv iota. destruct (flying r) eqn:Hf; [|destruct (rq_blocking_rq r) as [b|] eqn:Hpend].
  - rewrite run_unlock by by apply unlocked_put_rq. run (put_held s i r Hi Hl Hr).
    run (wait_on_bit_eq s i r KV_async_inFlight_rq Hi Hf). done.
  - rewrite run_unlock by by apply unlocked_put_rq. run (put_held s i r Hi Hl Hr).
    run (get_rq_eq s i r Hi). rewrite Hpend. destruct (s_heap s !! b) as [rb|] eqn:Hb.
    + destruct (flying rb) eqn:Hfb; [by run (wait_on_bit_eq s b rb KV_async_inFlight_rq Hb Hfb)|].
      unfold wait_on_bit, read_state, bind. rewrite Hb. unfold flying, bit in Hfb. by rewrite Hfb.
    + unfold wait_on_bit, read_state, bind. by rewrite Hb.
  - unfold set_rq_bit. runl (upd_rq_eq _ i (held r) _ (put_rq_lookup i _ s)).
    rewrite put_rq_twice.
    set (r' := (held r) <| rq_state ::= set_bit KV_async_invalid_rq |>).
    assert (Hh' : rq_hash r' = Some (h, get_hash_key k klen)) by exact Hh.
    runl (hlist_del_init_eq _ i r' h _ (put_rq_lookup i r' s) Hh').
    rewrite run_unlock by (apply unlocked_unlink, unlocked_put_rq; done).
    unfold add_nr_rq, modify, bind, ret. f_equal. unfold invalidate, unlink, nr_add. rewrite Hhk.
    by rewrite !upd_hash_put_rq, put_rq_twice.
Qed.

(** ** The completion daemon's lookups *)

Lemma kv_hash_find_and_lock_pending_spec s h k klen : searchable s -> key_wf k klen ->
  (forall i r, present h k klen i r s -> rq_lock r = false) ->
  (exists i r, present h k klen i r s /\
    kv_hash_find_and_lock_pending_rq h (Some k) klen (get_hash_key k klen) s =
    Done (Some i) (put_rq i (held r) s)) \/
  (absent h (k, klen) s /\
    kv_hash_find_and_lock_pending_rq h (Some k) klen (get_hash_key k klen) s = Done None s).
Proof.
  intros Hs Hk Hfree. unfold kv_hash_find_and_lock_pending_rq. pose proof (se_unlocked s Hs) as Hu.
  destruct (locked_search s h k klen Hs Hk) as [(i & r & Hp & Heq)|[Ha Heq]].
  - left. exists i, r. split; [done|]. rewrite Heq. rewrite run_unlock by by apply unlocked_inc_ref.
    pose proof (Hfree i r Hp) as Hl. destruct Hp as (Hi & _). by run (lock_found s i r Hi Hl).
  - right. split; [done|]. rewrite Heq. by rewrite run_unlock.
Qed.

(** [kv_hash_delete] unlinks a linked request. *)
Lemma kv_hash_delete_spec s h i r k : unlocked s -> s_heap s !! i = Some r ->
  rq_hash r = Some (h, k) -> rq_hash_key r = k ->
  kv_hash_delete h i s = Done 0 (nr_add h (-1) (unlink i r h k s)).
Proof.
  intros Hu Hi Hh <-. unfold kv_hash_delete. run (get_rq_eq s i r Hi).
  run (hash_lock_eq h (rq_hash_key r) s Hu). unfold hlist_unhashed. rewrite Hh.
  assert (Hstep : (hlist_del_init i ;; add_nr_rq h (-1) ;; ret 0) s =
    Done 0 (nr_add h (-1) (unlink i r h (rq_hash_key r) s))) by by run (hlist_del_init_eq s i r h _ Hi Hh).
  runl Hstep.
  by rewrite run_unlock by (apply unlocked_nr_add, unlocked_unlink; done).
Qed.

Lemma kv_hash_delete_unhashed s h i r : unlocked s -> s_heap s !! i = Some r -> rq_hash r = None ->
  kv_hash_delete h i s = Done 1 s.
Proof.
  intros Hu Hi Hh. unfold kv_hash_delete. run (get_rq_eq s i r Hi).
  run (hash_lock_eq h (rq_hash_key r) s Hu). unfold hlist_unhashed. rewrite Hh.
  runl (eq_refl : ret 1 s = Done 1 s). by rewrite run_unlock.
Qed.

(** ** Read-ahead entries *)

(** [i] becomes the first entry of the read-ahead list. *)
Definition add_ra (i : positive) s : driver Q := s <| s_ra_list ::= cons i |>.
Definition del_ra (i : positive) s : driver Q := s <| s_ra_list ::= filter (fun j => j <> i) |>.

Lemma kv_hash_insert_readahead_spec s h a ra : searchable s ->
  s_heap s !! a = Some ra -> rq_hash ra = None -> inline_wf ra ->
  rq_hash_key ra = get_hash_key (c_key (rq_c ra)) (rq_key_length ra) ->
  (absent h (kid ra) s /\ kv_hash_insert_readahead h a s =
    Done None (nr_add h 1 (link a ra h (rq_hash_key ra) (add_ra a s)))) \/
  (exists b rb, present h (c_key (rq_c ra)) (rq_key_length ra) b rb s /\ a <> b /\
    kv_hash_insert_readahead h a s = Done (Some b) (inc_ref b rb s)).
Proof.
  intros Hs Ha Hunh [Haddr Hwf] Hhk. pose proof (se_unlocked s Hs) as Hu.
  assert (Hkey : rq_key ra = Some (c_key (rq_c ra))) by (unfold rq_key; by rewrite Haddr).
  destruct (locked_search s h _ _ Hs Hwf) as [(b & rb & Hp & Heq)|[Hab Heq]].
  - right. exists b, rb. split; [done|]. split; [intros ->; destruct Hp as (? & ? & _); congruence|].
    unfold kv_hash_insert_readahead. run (get_rq_eq s a ra Ha). rewrite Hkey, Hhk, Heq. cbv beta iota.
    runl (eq_refl : ret tt _ = Done tt _).
    by rewrite run_unlock by by apply unlocked_inc_ref.
  - left. split; [done|]. unfold kv_hash_insert_readahead. run (get_rq_eq s a ra Ha).
    rewrite Hkey, Hhk, Heq. cbv beta iota. rewrite <- Hhk.
    assert (Hstep : (modify (fun s => s <| s_ra_list ::= cons a |>) ;;
      hlist_add_head a h (rq_hash_key ra) ;; add_nr_rq h 1) s =
      Done tt (nr_add h 1 (link a ra h (rq_hash_key ra) (add_ra a s)))).
    { rewrite (bind_done _ _ s tt (add_ra a s)) by reflexivity.
      by run (hlist_add_head_eq (add_ra a s) a ra h (rq_hash_key ra) Ha). }
    runl Hstep.
    rewrite run_unlock; [done|]. apply unlocked_nr_add, unlocked_link. intros h'. by specialize (Hu h'); destruct h'.
Qed.

Lemma kv_hash_find_and_del_readahead_spec s h k klen : searchable s -> key_wf k klen ->
  (exists i r, present h k klen i r s /\
    kv_hash_find_and_del_readahead h (Some k) klen (get_hash_key k klen) s =
    Done (Some i) (nr_add h (-1) (unlink i r h (get_hash_key k klen) (del_ra i s)))) \/
  (absent h (k, klen) s /\
    kv_hash_find_and_del_readahead h (Some k) klen (get_hash_key k klen) s = Done None s).
Proof.
  intros Hs Hk. pose proof (se_unlocked s Hs) as Hu. unfold kv_hash_find_and_del_readahead.
  destruct (locked_search s h k klen Hs Hk) as [(i & r & Hp & Heq)|[Ha Heq]]; rewrite Heq; cbv beta iota.
  - left. exists i, r. split; [done|]. destruct Hp as (Hi & Hh & _).
    assert (Hstep : (modify (fun s => s <| s_ra_list ::= filter (fun j => j <> i) |>) ;;
      hlist_del_init i ;; add_nr_rq h (-1) ;; atomic_dec i) (inc_ref i r s) =
      Done tt (nr_add h (-1) (unlink i r h (get_hash_key k klen) (del_ra i s)))).
    { rewrite (bind_done _ _ _ tt (inc_ref i r (del_ra i s))) by reflexivity.
      set (r' := r <| rq_refcount ::= Z.add 1 |>).
      assert (Hh' : rq_hash r' = Some (h, get_hash_key k klen)) by exact Hh.
      run (hlist_del_init_eq (inc_ref i r (del_ra i s)) i r' h _ (put_rq_lookup i r' (del_ra i s)) Hh').
      rewrite (bind_done _ _ _ tt (nr_add h (-1) (unlink i (r <| rq_refcount ::= Z.add 1 |>) h
        (get_hash_key k klen) (inc_ref i r (del_ra i s))))) by reflexivity.
      unfold atomic_dec, unlink, nr_add, inc_ref. rewrite !upd_hash_put_rq, put_rq_twice.
      run (upd_rq_eq _ i _ (fun r => r <| rq_refcount ::= Z.add (-1) |>) (put_rq_lookup i _
        (upd_hash h (fun t => t <| h_nr_rq ::= Z.add (-1) |>) (upd_hash h (fun t => t <| h_table ::=
          <[get_hash_key k klen := filter (fun j => j <> i) (chain t (get_hash_key k klen))]> |>) (del_ra i s))))).
      rewrite put_rq_twice. do 2 f_equal. destruct r. unfold upd. simpl. f_equal. lia. }
    runl Hstep. rewrite run_unlock; [done|].
    apply unlocked_nr_add, unlocked_unlink. intros h'. by specialize (Hu h'); destruct h'.
  - right. split; [done|]. runl (eq_refl : ret tt s = Done tt s).
    by rewrite run_unlock.
Qed.

(** [kv_hash_delete_readahead] of a linked entry. *)
Lemma kv_hash_delete_readahead_spec s h i r k : unlocked s -> s_heap s !! i = Some r ->
  rq_hash r = Some (h, k) -> rq_hash_key r = k ->
  kv_hash_delete_readahead h i s = Done 0 (nr_add h (-1) (unlink i r h k (del_ra i s))).
Proof.
  intros Hu Hi Hh <-. unfold kv_hash_delete_readahead. run (get_rq_eq s i r Hi).
  run (hash_lock_eq h (rq_hash_key r) s Hu). unfold hlist_unhashed. rewrite Hh.
  assert (Hstep : (modify (fun s => s <| s_ra_list ::= filter (fun j => j <> i) |>) ;;
    hlist_del_init i ;; add_nr_rq h (-1) ;; ret 0) s =
    Done 0 (nr_add h (-1) (unlink i r h (rq_hash_key r) (del_ra i s)))).
  { rewrite (bind_done _ _ s tt (del_ra i s)) by reflexivity.
    by run (hlist_del_init_eq (del_ra i s) i r h _ Hi Hh). }
  runl Hstep. rewrite run_unlock; [done|].
  apply unlocked_nr_add, unlocked_unlink. intros h'. by specialize (Hu h'); destruct h'.
Qed.
End HashSpec.
