(* ===== verification/KvTrans.v ===== *)
(** * The invariant under elementary transitions

    Each lemma takes a state that satisfies [Inv] through one transition of the
    scheduler: a request is added, displaced, merged, invalidated, submitted,
    completed or dropped.  KvDaemons.v, KvSubmit.v, KvAsync.v and
    KvSync.v show that the handlers make these transitions. *)

From Stdlib Require Import ZArith Lia Bool.
From stdpp Require Import base list gmap.
From S2P Require Import Prelude KvFifo KvCmd KvState KvHash KvIosched KvInv KvExec KvHashSpec.

Section Trans.
  Context `{KernelHash} `{Device} `{FifoOps Q} `{ReadLen}.
  Variable nr_cpus : Z.
  Local Abbreviation Inv := (Inv nr_cpus).
  Implicit Types s : driver Q.
  Implicit Types g : ghost.

(** ** What the invariant says about a request *)

(** The fields the invariant does not mention. *)
Definition core_eq s s' : Prop :=
  s_heap s' = s_heap s /\ s_next_rq s' = s_next_rq s /\ s_memqs s' = s_memqs s /\
  s_next_memq s' = s_next_memq s /\ s_memq_slab s' = s_memq_slab s /\ s_rq_hash s' = s_rq_hash s /\ s_ra_hash s' = s_ra_hash s /\
  s_ra_list s' = s_ra_list s /\ s_percpu_memq s' = s_percpu_memq s /\ s_submit s' = s_submit s /\
  s_fifo s' = s_fifo s /\ s_nr_interrupt s' = s_nr_interrupt s /\
  s_nr_complete s' = s_nr_complete s /\ s_dev_queue s' = s_dev_queue s /\ s_fails s' = s_fails s.

Lemma inv_core g s s' : core_eq s s' -> Inv g s -> Inv g s'.
Proof.
  intros Hc [? ? ? ? ? ? ? ? ? ? ? ? ? ? ? ?]. destruct s, s'. unfold core_eq in Hc. simpl in Hc.
  destruct_and!; subst. by split.
Qed.

Lemma inv_hashed g s i r h k : Inv g s -> s_heap s !! i = Some r -> rq_hash r = Some (h, k) ->
  k = rq_hash_key r /\
  match h with
  | KV_RQ_HASH => in_ra r = false /\ completed r = false /\ invalid r = false /\ blocking r = false
  | KV_RA_HASH => in_ra r = true
  end.
Proof.
  intros HI Hi Hh. pose proof (inv_place _ _ _ HI i r Hi) as Hp. unfold place_ok in Hp.
  destruct (in_ra r) eqn:Hra; [|destruct (flying r) eqn:Hf].
  - destruct Hp as [[_ Hr _ _] _]. rewrite Hr in Hh. by simplify_eq.
  - destruct Hp as [[[? ?] Hr _ _ _] _]. rewrite Hr in Hh. destruct (blocking r); by simplify_eq.
  - destruct Hp as [[[? ?] Hr _] _]. rewrite Hr in Hh. destruct (invalid r) eqn:?; by simplify_eq.
Qed.

Lemma inv_unlocked g s : Inv g s -> unlocked s.
Proof. intros HI h. apply (inv_locks _ _ _ HI). Qed.

Lemma rq_base_inline r : rq_base r -> inline_wf r.
Proof. intros []. by split. Qed.

Lemma inv_searchable g s : Inv g s -> searchable s.
Proof.
  intros HI. split; [apply (inv_hash _ _ _ HI)| |by eapply inv_unlocked].
  intros i r h k Hi Hh. pose proof (inv_base _ _ _ HI i r Hi) as Hb. split; [by apply rq_base_inline|].
  destruct (inv_hashed g s i r h k HI Hi Hh) as [-> _]. apply Hb.
Qed.

Lemma inv_present_rq g s k klen i r : Inv g s -> present KV_RQ_HASH k klen i r s ->
  live_rq r /\ rq_hash_key r = get_hash_key k klen /\ in_ra r = false.
Proof.
  intros HI (Hi & Hh & _). destruct (inv_base _ _ _ HI i r Hi) as [].
  destruct (inv_hashed g s i r _ _ HI Hi Hh) as (<- & Hra & ? & ? & ?).
  split; [|done]. repeat split; try done. lia.
Qed.

Lemma inv_present_ra g s k klen i r : Inv g s -> present KV_RA_HASH k klen i r s ->
  in_ra r = true /\ rq_lock r = false /\ rq_refcount r = 1 /\ rq_hash_key r = get_hash_key k klen.
Proof.
  intros HI (Hi & Hh & _). destruct (inv_base _ _ _ HI i r Hi) as [].
  by destruct (inv_hashed g s i r _ _ HI Hi Hh) as (<- & Hra).
Qed.

(** ** Counting pending requests *)

Lemma count_pending_ext heap heap' l :
  (forall i, i ∈ l -> (match heap' !! i with Some r => b2z (pending r) | None => 0 end) =
                 match heap !! i with Some r => b2z (pending r) | None => 0 end) ->
  count_pending heap' l = count_pending heap l.
Proof.
  induction l as [|i l IH]; intros Hl; [done|]. simpl. rewrite Hl by left. f_equal.
  apply IH. intros j Hj. apply Hl. by right.
Qed.

Lemma count_pending_notin heap i r l : i ∉ l -> count_pending (<[i := r]> heap) l = count_pending heap l.
Proof.
  intros Hi. apply count_pending_ext. intros j Hj. rewrite lookup_insert_ne; [done|]. by intros ->.
Qed.

Lemma count_pending_delete_notin heap i l : i ∉ l -> count_pending (delete i heap) l = count_pending heap l.
Proof.
  intros Hi. apply count_pending_ext. intros j Hj. rewrite lookup_delete_ne; [done|]. by intros ->.
Qed.

(** Changing whether one member of the queue is pending. *)
Lemma count_pending_upd heap i r r' l : NoDup l -> i ∈ l -> heap !! i = Some r ->
  count_pending (<[i := r']> heap) l = count_pending heap l - b2z (pending r) + b2z (pending r').
Proof.
  intros Hnd Hi Hr. induction Hnd as [|j l Hj Hnd IH]; [by apply elem_of_nil in Hi|]. simpl.
  apply elem_of_cons in Hi as [->|Hi].
  - rewrite lookup_insert_eq, Hr, count_pending_notin by done. lia.
  - rewrite IH by done. rewrite lookup_insert_ne by (intros ->; done). lia.
Qed.

Lemma count_pending_remove heap i r l : NoDup l -> i ∈ l -> heap !! i = Some r ->
  count_pending heap (filter (fun j => j <> i) l) = count_pending heap l - b2z (pending r).
Proof.
  intros Hnd Hi Hr. induction Hnd as [|j l Hj Hnd IH]; [by apply elem_of_nil in Hi|].
  destruct (decide (j = i)) as [->|Hne].
  - rewrite filter_cons_False by tauto. simpl. rewrite Hr.
    rewrite filter_notin by done. lia.
  - apply elem_of_cons in Hi as [->|Hi]; [done|]. rewrite filter_cons_True by done. simpl. rewrite IH by done. lia.
Qed.

Lemma count_pending_nonneg heap l : 0 <= count_pending heap l.
Proof.
  induction l as [|i l IH]; simpl; [lia|]. destruct (heap !! i) as [r|]; [|lia]. unfold b2z. destruct (pending r); lia.
Qed.

Lemma count_pending_zero heap l i r : count_pending heap l = 0 -> i ∈ l -> heap !! i = Some r -> pending r = false.
Proof.
  induction l as [|j l IH]; intros Hc Hi Hr; [by apply elem_of_nil in Hi|]. simpl in Hc.
  pose proof (count_pending_nonneg heap l). apply elem_of_cons in Hi as [->|Hi].
  - rewrite Hr in Hc. destruct (pending r); [simpl in Hc; lia|done].
  - apply IH; [|done|done]. destruct (heap !! j) as [x|]; [|lia]. unfold b2z in Hc. destruct (pending x); lia.
Qed.

(** ** Queues and tables under an update *)

(** What a memory queue depends on. *)
Definition mview (r : kv_async_request) : bool * bool * option positive * bool :=
  (in_ra r, flying r, rq_memq r, pending r).

Lemma memq_ok_frame heap heap' lg m q : memq_ok heap lg m q ->
  (forall i, i ∈ mq_rq q -> mview <$> heap' !! i = mview <$> heap !! i) -> memq_ok heap' lg m q.
Proof.
  intros [Hn Hr Hk Hp Hm] Heq. split; [done|done|done| |].
  - rewrite Hp. symmetry. apply count_pending_ext. intros i Hi. specialize (Heq i Hi).
    destruct (heap !! i), (heap' !! i); simpl in Heq; unfold mview in Heq; simplify_eq; congruence.
  - intros i Hi. destruct (Hm i Hi) as (r & Hlk & ? & ? & ?). specialize (Heq i Hi). rewrite Hlk in Heq.
    destruct (heap' !! i) as [r'|]; simpl in Heq; [|done]. unfold mview in Heq. simplify_eq.
    exists r'. repeat split; congruence.
Qed.

(** Queues that do not hold [i] do not see a change of [i]. *)
Lemma memq_ok_insert heap lg m q i r : memq_ok heap lg m q -> i ∉ mq_rq q -> memq_ok (<[i := r]> heap) lg m q.
Proof.
  intros Hm Hi. eapply memq_ok_frame; [done|]. intros j Hj. rewrite lookup_insert_ne; [done|]. by intros ->.
Qed.
Lemma memq_ok_delete heap lg m q i : memq_ok heap lg m q -> i ∉ mq_rq q -> memq_ok (delete i heap) lg m q.
Proof.
  intros Hm Hi. eapply memq_ok_frame; [done|]. intros j Hj. rewrite lookup_delete_ne; [done|]. by intros ->.
Qed.

(** A request is in a queue only if it is buffered there. *)
Lemma not_in_memq heap lg m q i r : memq_ok heap lg m q -> heap !! i = Some r ->
  in_ra r = true \/ flying r = true \/ rq_memq r <> Some m -> i ∉ mq_rq q.
Proof.
  intros [_ _ _ _ Hm] Hi Hr Hin. destruct (Hm i Hin) as (r' & Hi' & ? & ? & ?). simplify_eq.
  destruct Hr as [|[|]]; congruence.
Qed.
Lemma fresh_not_in_memq heap lg m q i : memq_ok heap lg m q -> heap !! i = None -> i ∉ mq_rq q.
Proof. intros [_ _ _ _ Hm] Hi Hin. destruct (Hm i Hin) as (r' & Hi' & _). congruence. Qed.

Lemma QInv_upd_memq nc c p sb memqs next m q : is_Some (memqs !! m) ->
  QInv nc c p sb memqs next -> QInv nc c p sb (<[m := q]> memqs) next.
Proof.
  intros Hm [Hl Hu Hn Hc Ha Hd Hf Hr]. split; try done.
  - intros m' l Hat. destruct (decide (m = m')) as [->|]; [rewrite lookup_insert_eq; eauto|].
    rewrite lookup_insert_ne by done. by eapply Hl.
  - intros m'. destruct (decide (m = m')) as [->|]; [by intros; apply Hf|].
    rewrite lookup_insert_ne by done. apply Hf.
  - intros m'. destruct (decide (m = m')) as [->|]; [by intros; apply Hr|].
    rewrite lookup_insert_ne by done. apply Hr.
Qed.

(** ** Changing a request without moving it *)

(** What the structures know about a request. *)
Definition shape (r : kv_async_request) :=
  (mview r, rq_blocking_rq r, blocking r, kid r, rq_hash r).

Lemma shape_fields r r' : shape r' = shape r ->
  in_ra r' = in_ra r /\ flying r' = flying r /\ rq_memq r' = rq_memq r /\
  rq_blocking_rq r' = rq_blocking_rq r /\ blocking r' = blocking r /\ kid r' = kid r /\ rq_hash r' = rq_hash r.
Proof.
  intros Heq. split; [apply (f_equal (fun x => x.1.1.1.1.1.1.1) Heq)|].
  split; [apply (f_equal (fun x => x.1.1.1.1.1.1.2) Heq)|].
  split; [apply (f_equal (fun x => x.1.1.1.1.1.2) Heq)|].
  split; [apply (f_equal (fun x => x.1.1.1.2) Heq)|]. split; [apply (f_equal (fun x => x.1.1.2) Heq)|].
  split; [apply (f_equal (fun x => x.1.2) Heq)|apply (f_equal snd Heq)].
Qed.

Lemma inv_same_shape g s i r r' : Inv g s -> s_heap s !! i = Some r -> shape r' = shape r ->
  rq_base r' -> place_ok g s i r' -> Inv g (put_rq i r' s).
Proof.
  intros HI Hi Hsh Hb Hp. destruct (shape_fields _ _ Hsh) as (Hra & Hf & Hmq & Hbr & Hbl & Hk & Hh).
  pose proof HI as [Ibase Iplace Ihash Ilocks Inr Imemq [Ifl1 Ifl2] [Ira1 Ira2] Ipend Iblk Iq Ifresh Ififo Ifails Ilag].
  split; try done; simpl.
  - intros j rj Hj. apply lookup_insert_Some in Hj as [[<- <-]|[? Hj]]; [done|by eapply Ibase].
  - intros j rj Hj. apply lookup_insert_Some in Hj as [[<- <-]|[? Hj]]; [done|by eapply Iplace].
  - by eapply HashInv_upd.
  - intros h. rewrite (count_hashed_upd h _ i r) by done. unfold hashed_in. rewrite Hh.
    specialize (Inr h). by destruct h; simpl in *; rewrite Inr; lia.
  - intros m q Hm. eapply memq_ok_frame; [by apply Imemq|]. intros j _.
    destruct (decide (i = j)) as [->|]; [|by rewrite lookup_insert_ne].
    rewrite lookup_insert_eq, Hi. simpl. f_equal. apply (f_equal (fun x => x.1.1.1.1) Hsh).
  - split; [done|]. intros j Hj. destruct (Ifl2 j Hj) as (rj & Hlk & ? & ?).
    destruct (decide (i = j)) as [->|]; [|by rewrite lookup_insert_ne; eauto].
    rewrite lookup_insert_eq. rewrite Hi in Hlk. injection Hlk as <-. exists r'. split; [done|]. split; congruence.
  - split; [done|]. intros j Hj. destruct (Ira2 j Hj) as (rj & Hlk & ?).
    destruct (decide (i = j)) as [->|]; [|by rewrite lookup_insert_ne; eauto].
    rewrite lookup_insert_eq. rewrite Hi in Hlk. injection Hlk as <-. exists r'. split; [done|]. congruence.
  - intros j rj b Hj Hbj. assert (exists x, s_heap s !! j = Some x /\ rq_blocking_rq x = Some b /\ kid x = kid rj)
      as (x & Hx & Hxb & Hxk).
    { apply lookup_insert_Some in Hj as [[<- <-]|[? Hj]]; eexists; split; eauto; split; congruence. }
    destruct (Ipend j x b Hx Hxb) as (rb & Hrb & ? & ? & ?).
    destruct (decide (i = b)) as [->|]; [|rewrite lookup_insert_ne by done; exists rb; repeat split; congruence].
    rewrite lookup_insert_eq. rewrite Hi in Hrb. injection Hrb as <-. exists r'. repeat split; congruence.
  - intros b rb Hlk Hblk. assert (exists x, s_heap s !! b = Some x /\ blocking x = true) as (x & Hx & Hxb).
    { apply lookup_insert_Some in Hlk as [[<- <-]|[? Hlk]]; eexists; split; eauto; congruence. }
    destruct (Iblk b x Hx Hxb) as [|(j & rj & Hj & Hjb)]; [by left|right]. exists j.
    destruct (decide (i = j)) as [->|]; [|rewrite lookup_insert_ne by done; eauto].
    rewrite lookup_insert_eq. rewrite Hi in Hj. injection Hj as <-. exists r'. split; [done|]. congruence.
  - intros j [x Hx]. apply Ifresh. apply lookup_insert_Some in Hx as [[<- _]|[_ Hx]]; eauto.
Qed.

(** ** Adding a request *)

(** The chain of a bucket with [a] in front, and without [b]. *)
Definition add_chain (h : kv_hash_id) (k : Z) (a : positive) s : driver Q :=
  upd_hash h (fun t => t <| h_table ::= <[k := a :: chain t k]> |>) s.
Definition del_chain (h : kv_hash_id) (k : Z) (b : positive) s : driver Q :=
  upd_hash h (fun t => t <| h_table ::= <[k := filter (fun j => j <> b) (chain t k)]> |>) s.

Lemma tables_add_chain h k a s h' :
  tables (add_chain h k a s) h' = set_chain (tables s) h k (a :: default [] (tables s h !! k)) h'.
Proof. unfold tables, set_chain, add_chain, chain. by destruct h, h'. Qed.
Lemma tables_del_chain h k b s h' :
  tables (del_chain h k b s) h' =
  set_chain (tables s) h k (filter (fun j => j <> b) (default [] (tables s h !! k))) h'.
Proof. unfold tables, set_chain, del_chain, chain. by destruct h, h'. Qed.

Definition put_memq (m : positive) (q : kv_memqueue_struct) s : driver Q := s <| s_memqs ::= <[m := q]> |>.

Lemma put_memq_put_rq m q i r s : put_memq m q (put_rq i r s) = put_rq i r (put_memq m q s).
Proof. reflexivity. Qed.

(** The request [a] in front of queue [m]; [pd] is 1 when it is pending. *)
Definition queue_new (m : positive) (q : kv_memqueue_struct) (a : positive) (pd : Z) s : driver Q :=
  put_memq m (q <| mq_rq ::= cons a |> <| mq_nr_rq ::= Z.add 1 |> <| mq_nr_pending ::= Z.add pd |>) s.

Definition bump s : driver Q := s <| s_next_rq ::= Pos.succ |>.

Lemma place_ok_mono g s g' s' i r : place_ok g s i r ->
  (in_ra r = true -> i ∈ s_ra_list s -> i ∈ s_ra_list s') ->
  (flying r = true -> i ∈ flying_list g s -> i ∈ flying_list g' s') ->
  (in_ra r = false -> flying r = false ->
   forall m q, s_memqs s !! m = Some q -> i ∈ mq_rq q -> exists q', s_memqs s' !! m = Some q' /\ i ∈ mq_rq q') ->
  place_ok g' s' i r.
Proof.
  unfold place_ok. intros Hp Hra Hfl Hmq. destruct (in_ra r); [|destruct (flying r)].
  - destruct Hp; auto.
  - destruct Hp; auto.
  - destruct Hp as [Hb (m & q & Hm & Hq & Hi)]. split; [done|].
    destruct (Hmq eq_refl eq_refl m q Hq Hi) as (q' & Hq' & Hi'). eauto 6.
Qed.

Lemma HashInv_add heap T a r h k : heap !! a = None -> rq_hash r = Some (h, k) ->
  (forall j rj kj, heap !! j = Some rj -> rq_hash rj = Some (h, kj) -> kid rj <> kid r) ->
  HashInv heap T -> HashInv (<[a := r]> heap) (set_chain T h k (a :: default [] (T h !! k))).
Proof.
  intros Ha Hr Hf HT. set (r0 := r <| rq_hash := None |>).
  assert (Hr0 : r = r0 <| rq_hash := Some (h, k) |>).
  { subst r0. destruct r. unfold upd. simpl in *. by subst. }
  rewrite Hr0, <- (insert_insert_eq heap a _ r0). apply HashInv_link; [apply lookup_insert_eq|done| |].
  - intros j rj kj Hj. apply lookup_insert_Some in Hj as [[<- <-]|[? Hj]]; [done|].
    change (kid r0) with (kid r). intros Hh. by eapply Hf.
  - by apply HashInv_new.
Qed.

Lemma memq_ok_cons heap lg m q a r : heap !! a = None -> memq_ok heap lg m q ->
  in_ra r = false -> flying r = false -> rq_memq r = Some m ->
  memq_ok (<[a := r]> heap) lg m
    (q <| mq_rq ::= cons a |> <| mq_nr_rq ::= Z.add 1 |> <| mq_nr_pending ::= Z.add (b2z (pending r)) |>).
Proof.
  intros Ha Hm Hra Hfl Hmq. pose proof (fresh_not_in_memq _ _ _ _ _ Hm Ha) as Hni.
  destruct Hm as [Hn Hr Hk Hp Hm]. split; simpl.
  - by constructor.
  - rewrite Hr. lia.
  - done.
  - by rewrite lookup_insert_eq, count_pending_notin, Hp.
  - intros i [->|Hi]%elem_of_cons; [rewrite lookup_insert_eq; eauto|].
    rewrite lookup_insert_ne by (intros ->; done). by apply Hm.
Qed.

Lemma inv_fresh_none g s : Inv g s -> s_heap s !! s_next_rq s = None.
Proof.
  intros HI. destruct (s_heap s !! s_next_rq s) eqn:Hlk; [|done].
  pose proof (inv_fresh _ _ _ HI (s_next_rq s) ltac:(eauto)). lia.
Qed.

(** A new request whose key is in no table.  When it is pending, the request it
    waits for was an orphan. *)
Lemma inv_add g o o' s r m q : Inv (g <| g_orphan := o |>) s -> s_memqs s !! m = Some q ->
  rq_base r -> buf_ok r -> rq_hash r = Some (KV_RQ_HASH, rq_hash_key r) ->
  in_ra r = false -> flying r = false -> rq_memq r = Some m ->
  (forall b, rq_blocking_rq r = Some b ->
    exists rb, s_heap s !! b = Some rb /\ flying rb = true /\ blocking rb = true /\ kid rb = kid r) ->
  (forall b, b ∈ o -> b ∈ o' \/ rq_blocking_rq r = Some b) ->
  absent KV_RQ_HASH (kid r) s ->
  Inv (g <| g_orphan := o' |>)
    (queue_new m q (s_next_rq s) (b2z (pending r)) (nr_add KV_RQ_HASH 1
      (add_chain KV_RQ_HASH (rq_hash_key r) (s_next_rq s) (put_rq (s_next_rq s) r (bump s))))).
Proof.
  intros HI Hm Hb Hbuf Hh Hra Hfl Hmq Hbr Ho Habs. pose proof (inv_fresh_none _ s HI) as Ha.
  set (a := s_next_rq s) in *.
  pose proof HI as [Ibase Iplace Ihash Ilocks Inr Imemq [Ifl1 Ifl2] [Ira1 Ira2] Ipend Iblk Iq Ifresh Ififo Ifails Ilag].
  assert (Hne : forall j, is_Some (s_heap s !! j) -> a <> j) by (intros j [x Hx] ->; congruence).
  split; try done; simpl.
  - intros j rj Hj. apply lookup_insert_Some in Hj as [[<- <-]|[? Hj]]; [done|by eapply Ibase].
  - intros j rj Hj. apply lookup_insert_Some in Hj as [[<- <-]|[? Hj]].
    + unfold place_ok. rewrite Hra, Hfl. split; [done|]. eexists m, _. split; [done|]. simpl.
      rewrite lookup_insert_eq. split; [done|]. left.
    + eapply place_ok_mono; [by eapply Iplace|done|done|]. simpl. intros _ _ m' q' Hm' Hj'.
      destruct (decide (m = m')) as [->|]; [|rewrite lookup_insert_ne by done; eauto].
      rewrite lookup_insert_eq. eexists; split; [done|]. simpl. rewrite Hm in Hm'. injection Hm' as <-. by right.
  - eapply HashInv_ext; [|by apply (HashInv_add (s_heap s) (tables s) a r KV_RQ_HASH)]. intros h. by destruct h.
  - intros h. specialize (Ilocks h). by destruct h.
  - intros h. etransitivity; [|symmetry; apply (count_hashed_insert h (s_heap s) a r Ha)].
    unfold hashed_in. rewrite Hh, <- Inr. destruct h; simpl; lia.
  - intros m' q' Hm'. apply lookup_insert_Some in Hm' as [[<- <-]|[Hne' Hm']].
    + apply memq_ok_cons; auto. by apply Imemq.
    + apply memq_ok_insert; [by apply Imemq|]. eapply fresh_not_in_memq; [by apply Imemq|done].
  - split; [done|]. intros j Hj. destruct (Ifl2 j Hj) as (rj & Hlk & ? & ?).
    rewrite lookup_insert_ne by (apply Hne; eauto). eauto.
  - split; [done|]. intros j Hj. destruct (Ira2 j Hj) as (rj & Hlk & ?).
    rewrite lookup_insert_ne by (apply Hne; eauto). eauto.
  - intros j rj b Hj Hbj. assert (exists rb, s_heap s !! b = Some rb /\ flying rb = true /\
      blocking rb = true /\ kid rb = kid rj) as (rb & Hrb & ?).
    { apply lookup_insert_Some in Hj as [[<- <-]|[? Hj]]; eauto. }
    rewrite lookup_insert_ne by (apply Hne; eauto). eauto.
  - intros b rb Hlk Hblk. apply lookup_insert_Some in Hlk as [[<- <-]|[? Hlk]].
    { destruct Hbuf as [[_ Hbb] _ _]. congruence. }
    destruct (Iblk b rb Hlk Hblk) as [Hbo|(j & rj & Hj & Hjb)].
    + destruct (Ho b Hbo) as [|Hab]; [by left|right]. exists a, r. by rewrite lookup_insert_eq.
    + right. exists j, rj. by rewrite lookup_insert_ne by (apply Hne; eauto).
  - apply QInv_upd_memq; eauto.
  - intros j [x Hx]. apply lookup_insert_Some in Hx as [[<- _]|[_ Hx]]; [lia|].
    pose proof (Ifresh j ltac:(eauto)). lia.
Qed.

(** ** Unlinking a request where it is *)

(** [i] without its place in the request table. *)
Definition unhash (i : positive) (r : kv_async_request) s : driver Q :=
  nr_add KV_RQ_HASH (-1) (del_chain KV_RQ_HASH (rq_hash_key r) i s).

Lemma inv_unhash g o o' s i r r' : Inv (g <| g_orphan := o |>) s -> s_heap s !! i = Some r ->
  rq_hash r = Some (KV_RQ_HASH, rq_hash_key r) -> rq_hash r' = None ->
  mview r' = mview r -> rq_blocking_rq r' = rq_blocking_rq r -> kid r' = kid r ->
  rq_base r' -> place_ok g s i r' ->
  (forall b, b ∈ o -> b ∈ o') -> (blocking r' = true -> i ∈ o') ->
  Inv (g <| g_orphan := o' |>) (put_rq i r' (unhash i r s)).
Proof.
  intros HI Hi Hh Hh' Hmv Hbr Hk Hb Hp Ho Hblk.
  assert (Hnb : blocking r = false) by by destruct (inv_hashed _ s i r _ _ HI Hi Hh) as (_ & _ & _ & _ & ?).
  pose proof HI as [Ibase Iplace Ihash Ilocks Inr Imemq [Ifl1 Ifl2] [Ira1 Ira2] Ipend Iblk Iq Ifresh Ififo Ifails Ilag].
  assert (Hlk : forall j rj, s_heap s !! j = Some rj -> exists x, <[i := r']> (s_heap s) !! j = Some x /\
    mview x = mview rj /\ rq_blocking_rq x = rq_blocking_rq rj /\ kid x = kid rj /\ (blocking rj = true -> blocking x = true)).
  { intros j rj Hj. destruct (decide (i = j)) as [->|]; [|rewrite lookup_insert_ne by done; eauto 8].
    rewrite lookup_insert_eq. rewrite Hi in Hj. injection Hj as <-. exists r'. rewrite Hnb. done. }
  split; try done; simpl.
  - intros j rj Hj. apply lookup_insert_Some in Hj as [[<- <-]|[? Hj]]; [done|by eapply Ibase].
  - intros j rj Hj. apply lookup_insert_Some in Hj as [[<- <-]|[? Hj]]; [done|by eapply Iplace].
  - set (r0 := r <| rq_hash := None |>). rewrite <- (insert_insert_eq (s_heap s) i r' r0).
    eapply HashInv_upd; [apply lookup_insert_eq|done|done|].
    eapply HashInv_ext; [|by apply (HashInv_unlink _ (tables s))]. intros h. by destruct h.
  - intros h. specialize (Ilocks h). by destruct h.
  - intros h. etransitivity; [|symmetry; apply (count_hashed_upd h (s_heap s) i r r' Hi)].
    unfold hashed_in. rewrite Hh, Hh', <- Inr. destruct h; simpl; lia.
  - intros m q Hm. eapply memq_ok_frame; [by apply Imemq|]. intros j _.
    destruct (s_heap s !! j) as [rj|] eqn:Hj.
    + destruct (Hlk j rj Hj) as (x & Hx & Hxm & _). simpl in *. rewrite Hx. simpl. by f_equal.
    + rewrite lookup_insert_ne; [by rewrite Hj|]. intros ->. congruence.
  - split; [done|]. intros j Hj. destruct (Ifl2 j Hj) as (rj & Hrj & ? & ?).
    destruct (Hlk j rj Hrj) as (x & Hx & Hxm & _). exists x. unfold mview in Hxm. injection Hxm as ? ? ? ?.
    split; [done|]. split; congruence.
  - split; [done|]. intros j Hj. destruct (Ira2 j Hj) as (rj & Hrj & ?).
    destruct (Hlk j rj Hrj) as (x & Hx & Hxm & _). exists x. unfold mview in Hxm. injection Hxm as ? ? ? ?.
    split; [done|]. congruence.
  - intros j rj b Hj Hbj. assert (exists x, s_heap s !! j = Some x /\ rq_blocking_rq x = Some b /\ kid x = kid rj)
      as (x & Hx & Hxb & Hxk).
    { apply lookup_insert_Some in Hj as [[<- <-]|[? Hj]]; eexists; split; eauto; split; congruence. }
    destruct (Ipend j x b Hx Hxb) as (rb & Hrb & Hf & Hbb & Hkb).
    destruct (Hlk b rb Hrb) as (y & Hy & Hym & _ & Hyk & Hyb). exists y. unfold mview in Hym. injection Hym as ? ? ? ?.
    repeat split; [done|congruence|auto|congruence].
  - intros b rb Hb' Hblk'. apply lookup_insert_Some in Hb' as [[<- <-]|[? Hb']]; [auto|].
    destruct (Iblk b rb Hb' Hblk') as [|(j & rj & Hj & Hjb)]; [by left; apply Ho|right].
    destruct (Hlk j rj Hj) as (x & Hx & _ & Hxb & _). exists j, x. split; [done|]. congruence.
  - intros j [x Hx]. apply Ifresh. apply lookup_insert_Some in Hx as [[<- _]|[_ Hx]]; eauto.
Qed.

(** ** Taking a request off its queue *)

Definition without (i : positive) (q : kv_memqueue_struct) : kv_memqueue_struct :=
  q <| mq_rq ::= filter (fun j => j <> i) |>.

(** The queue's count is one ahead of its list until it is decremented. *)
Lemma memq_ok_take heap heap' lg m q i r : memq_ok heap lg m q -> i ∈ mq_rq q ->
  heap !! i = Some r -> pending r = false -> (forall j, j <> i -> heap' !! j = heap !! j) ->
  memq_ok heap' (lg + 1) m (without i q).
Proof.
  intros [Hn Hr Hk Hp Hm] Hi Hlk Hpd Heq. split; simpl.
  - by apply NoDup_filter.
  - rewrite length_filter_once by done. lia.
  - done.
  - rewrite (count_pending_ext heap).
    + rewrite (count_pending_remove heap i r), Hpd by done. simpl. lia.
    + intros j [Hj _]%list_elem_of_filter. by rewrite Heq.
  - intros j [Hne Hj]%list_elem_of_filter. rewrite Heq by done. by apply Hm.
Qed.

Lemma lag_cons g m m' : lag (g <| g_lag ::= cons m |>) m' = if decide (m = m') then 1 else lag g m'.
Proof.
  unfold lag. simpl. destruct (decide (m = m')) as [->|Hne].
  - by rewrite decide_True by left.
  - apply decide_ext. rewrite elem_of_cons. intuition congruence.
Qed.

Lemma lag_notin g m : m ∉ g_lag g -> lag g m = 0.
Proof. intros Hm. unfold lag. by rewrite decide_False. Qed.

(** The queues after [i] has left queue [m] and changed in the heap. *)
Lemma memqs_take g s m q i r heap' : Inv g s -> s_memqs s !! m = Some q -> i ∈ mq_rq q -> m ∉ g_lag g ->
  s_heap s !! i = Some r -> pending r = false -> (forall j, j <> i -> heap' !! j = s_heap s !! j) ->
  forall m' q', <[m := without i q]> (s_memqs s) !! m' = Some q' ->
    memq_ok heap' (lag (g <| g_lag ::= cons m |>) m') m' q'.
Proof.
  intros HI Hm Hi Hlag Hlk Hpd Heq m' q' Hm'. pose proof (inv_memq _ _ _ HI) as Imemq.
  rewrite lag_cons. apply lookup_insert_Some in Hm' as [[<- <-]|[Hne Hm']].
  - rewrite decide_True by done. pose proof (Imemq m q Hm) as Hok. rewrite lag_notin in Hok by done.
    by eapply (memq_ok_take _ _ 0).
  - rewrite decide_False by done. destruct (mo_members _ _ _ _ (Imemq m q Hm) i Hi) as (r' & Hr' & ? & ? & Hmq).
    eapply memq_ok_frame; [by apply Imemq|]. intros j Hj. rewrite Heq; [done|]. intros ->.
    destruct (mo_members _ _ _ _ (Imemq m' q' Hm') i Hj) as (r2 & Hr2 & ? & ? & Hmq2). congruence.
Qed.

(** What stays in a queue when [i] leaves [m]. *)
Lemma memqs_keep s m q i j m' q' : s_memqs s !! m = Some q -> j <> i ->
  s_memqs s !! m' = Some q' -> j ∈ mq_rq q' ->
  exists q2, <[m := without i q]> (s_memqs s) !! m' = Some q2 /\ j ∈ mq_rq q2.
Proof.
  intros Hm Hne Hm' Hj. destruct (decide (m = m')) as [->|]; [|rewrite lookup_insert_ne by done; eauto].
  rewrite lookup_insert_eq. eexists; split; [done|]. rewrite Hm in Hm'. injection Hm' as <-.
  simpl. by apply list_elem_of_filter.
Qed.

(** A buffered request goes to the device: the daemon carries it. *)
Lemma inv_submit g s m q i r r' : Inv g s -> s_memqs s !! m = Some q -> i ∈ mq_rq q -> m ∉ g_lag g ->
  m ∈ g_memqs g ->
  s_heap s !! i = Some r -> pending r = false -> rq_base r' -> fly_ok r' -> in_ra r' = false ->
  flying r' = true -> blocking r' = false -> rq_blocking_rq r' = None -> kid r' = kid r -> rq_hash r' = rq_hash r ->
  Inv (g <| g_own ::= cons i |> <| g_lag ::= cons m |>) (put_memq m (without i q) (put_rq i r' s)).
Proof.
  intros HI Hm Hi Hlag Hcar Hlk Hpd Hb Hfly Hra Hfl Hnb Hbr Hk Hh.
  pose proof HI as [Ibase Iplace Ihash Ilocks Inr Imemq [Ifl1 Ifl2] [Ira1 Ira2] Ipend Iblk Iq Ifresh Ififo Ifails Ilag].
  destruct (mo_members _ _ _ _ (Imemq m q Hm) i Hi) as (x & Hx & Hra0 & Hfl0 & Hmq0).
  rewrite Hlk in Hx. injection Hx as <-.
  assert (Hbr0 : rq_blocking_rq r = None) by (unfold pending in Hpd; by destruct (rq_blocking_rq r)).
  split; try done; simpl.
  - intros j rj Hj. apply lookup_insert_Some in Hj as [[<- <-]|[? Hj]]; [done|by eapply Ibase].
  - intros j rj Hj. apply lookup_insert_Some in Hj as [[<- <-]|[? Hj]].
    + unfold place_ok. rewrite Hra, Hfl. split; [done|]. left.
    + eapply place_ok_mono; [by eapply Iplace|done|by right|]. intros _ _ m' q' Hm' Hj'. by eapply memqs_keep.
  - by eapply HashInv_upd.
  - intros h. etransitivity; [|symmetry; apply (count_hashed_upd h (s_heap s) i r r' Hlk)].
    unfold hashed_in. rewrite Hh, <- Inr. simpl. destruct h; simpl; lia.
  - apply (memqs_take g s m q i r); try done. intros j Hj. by apply lookup_insert_ne.
  - split.
    + constructor; [|done]. intros Hin. destruct (Ifl2 i Hin) as (x & Hx & _ & ?). congruence.
    + intros j [->|Hj]%elem_of_cons; [rewrite lookup_insert_eq; eauto|].
      destruct (Ifl2 j Hj) as (rj & Hrj & ? & ?). rewrite lookup_insert_ne by congruence. eauto.
  - split; [done|]. intros j Hj. destruct (Ira2 j Hj) as (rj & Hrj & ?). rewrite lookup_insert_ne by congruence. eauto.
  - intros j rj b Hj Hbj. apply lookup_insert_Some in Hj as [[<- <-]|[? Hj]]; [congruence|].
    destruct (Ipend j rj b Hj Hbj) as (rb & Hrb & ? & ?). rewrite lookup_insert_ne by congruence. eauto.
  - intros b rb Hlb Hblk. apply lookup_insert_Some in Hlb as [[<- <-]|[? Hlb]]; [congruence|].
    destruct (Iblk b rb Hlb Hblk) as [|(j & rj & Hj & Hjb)]; [by left|right]. exists j, rj.
    by rewrite lookup_insert_ne by congruence.
  - apply QInv_upd_memq; eauto.
  - intros j [x Hx]. apply Ifresh. apply lookup_insert_Some in Hx as [[<- _]|[_ Hx]]; eauto.
  - intros m' [->|]%elem_of_cons; auto.
Qed.

(** ** Dropping a request *)

(** No request waits for [i]. *)
Definition no_waiter (i : positive) s : Prop :=
  forall j r, s_heap s !! j = Some r -> rq_blocking_rq r <> Some i.

(** What all droppings of a request [i] that waits for nothing have in common:
    the structures have let go of it and changed nothing else. *)
Lemma inv_remove g g' s s' i r : Inv g s -> s_heap s !! i = Some r -> pending r = false -> no_waiter i s ->
  s_heap s' = delete i (s_heap s) -> HashInv (delete i (s_heap s)) (tables s') ->
  (forall h, h_locks (get_hash h s') = ∅) ->
  (forall h, h_nr_rq (get_hash h s') = count_hashed h (delete i (s_heap s))) ->
  (forall m q, s_memqs s' !! m = Some q -> memq_ok (delete i (s_heap s)) (lag g' m) m q) ->
  (forall j m q, j <> i -> s_memqs s !! m = Some q -> j ∈ mq_rq q ->
    exists q', s_memqs s' !! m = Some q' /\ j ∈ mq_rq q') ->
  NoDup (flying_list g' s') -> (forall j, j ∈ flying_list g' s' <-> j ∈ flying_list g s /\ j <> i) ->
  NoDup (s_ra_list s') -> (forall j, j ∈ s_ra_list s' <-> j ∈ s_ra_list s /\ j <> i) ->
  (forall b, b ∈ g_orphan g -> b ∈ g_orphan g' \/ b = i) ->
  QInv nr_cpus (g_memqs g') (s_percpu_memq s') (s_submit s') (s_memqs s') (s_next_memq s') ->
  s_next_rq s' = s_next_rq s ->
  s_fifo s' = s_fifo s -> s_nr_interrupt s' = s_nr_interrupt s -> s_nr_complete s' = s_nr_complete s ->
  g_busy g' = g_busy g -> s_fails s' = s_fails s -> (forall m, m ∈ g_lag g' -> m ∈ g_memqs g') ->
  s_memq_slab s' = s_memq_slab s -> Inv g' s'.
Proof.
  intros HI Hi Hpd Hnw Hheap Hh Hl Hnr Hmq Hkeep Hfl Hfl' Hra Hra' Ho Hq Hnext Hfifo Hint Hcmp Hbusy Hfails Hlag Hslab.
  assert (Hbr : rq_blocking_rq r = None) by (unfold pending in Hpd; by destruct (rq_blocking_rq r)).
  pose proof HI as [Ibase Iplace Ihash Ilocks Inr Imemq [Ifl1 Ifl2] [Ira1 Ira2] Ipend Iblk Iq Ifresh Ififo Ifails Ilag].
  split; rewrite ?Hheap, ?Hnext, ?Hfifo, ?Hint, ?Hcmp, ?Hbusy, ?Hfails, ?Hslab; try done.
  - intros j rj [_ Hj]%lookup_delete_Some. by eapply Ibase.
  - intros j rj [Hne Hj]%lookup_delete_Some. eapply place_ok_mono; [by eapply Iplace| | |].
    + intros _ Hin. by apply Hra'.
    + intros _ Hin. by apply Hfl'.
    + intros _ _ m q. by apply Hkeep.
  - split; [done|]. intros j [Hj Hne]%Hfl'. destruct (Ifl2 j Hj) as (rj & ? & ? & ?).
    rewrite lookup_delete_ne by done. eauto.
  - split; [done|]. intros j [Hj Hne]%Hra'. destruct (Ira2 j Hj) as (rj & ? & ?).
    rewrite lookup_delete_ne by done. eauto.
  - intros j rj b [Hne Hj]%lookup_delete_Some Hb. destruct (Ipend j rj b Hj Hb) as (rb & Hrb & ?).
    exists rb. rewrite lookup_delete_ne; [done|]. intros ->. by apply (Hnw j rj).
  - intros b rb [Hne Hb]%lookup_delete_Some Hblk. destruct (Iblk b rb Hb Hblk) as [Hor|(j & rj & Hj & Hjb)].
    + left. by destruct (Ho b Hor) as [| ->].
    + right. exists j, rj. split; [|done]. rewrite lookup_delete_ne; [done|]. congruence.
  - intros j [x Hx]. apply lookup_delete_Some in Hx as [_ Hx]. apply Ifresh. eauto.
Qed.

Lemma notin_flying g s i r : Inv g s -> s_heap s !! i = Some r -> flying r = false -> i ∉ flying_list g s.
Proof. intros HI Hi Hf Hin. destruct (inv_flying _ _ _ HI) as [_ Hfl]. destruct (Hfl i Hin) as (x & ? & ? & ?). congruence. Qed.
Lemma notin_ra g s i r : Inv g s -> s_heap s !! i = Some r -> in_ra r = false -> i ∉ s_ra_list s.
Proof. intros HI Hi Hf Hin. destruct (inv_ra _ _ _ HI) as [_ Hra]. destruct (Hra i Hin) as (x & ? & ?). congruence. Qed.

(** Only flying requests have waiters. *)
Lemma not_flying_no_waiter g s i r : Inv g s -> s_heap s !! i = Some r -> flying r = false -> no_waiter i s.
Proof. intros HI Hi Hf j rj Hj Hb. destruct (inv_pending _ _ _ HI j rj i Hj Hb) as (x & ? & ? & _). congruence. Qed.

Lemma count_unhashed h heap i r : heap !! i = Some r -> rq_hash r = None ->
  count_hashed h (delete i heap) = count_hashed h heap.
Proof. intros Hi Hh. rewrite (count_hashed_delete h heap i r Hi). unfold hashed_in. rewrite Hh. simpl. lia. Qed.

(** An invalid buffered request is dropped instead of being submitted. *)
Lemma inv_discard g s m q i r : Inv g s -> s_memqs s !! m = Some q -> i ∈ mq_rq q -> m ∉ g_lag g ->
  m ∈ g_memqs g -> s_heap s !! i = Some r -> invalid r = true ->
  Inv (g <| g_lag ::= cons m |>) (put_memq m (without i q) (drop_rq i s)).
Proof.
  intros HI Hm Hi Hlag Hcar Hlk Hinv.
  destruct (mo_members _ _ _ _ (inv_memq _ _ _ HI m q Hm) i Hi) as (x & Hx & Hra & Hfl & Hmq).
  rewrite Hlk in Hx. injection Hx as <-.
  assert (Hbuf : buf_ok r) by (pose proof (inv_place _ _ _ HI i r Hlk) as Hp; unfold place_ok in Hp;
    rewrite Hra, Hfl in Hp; apply Hp).
  destruct Hbuf as [_ Hh Hpd]. rewrite Hinv in Hh.
  pose proof (notin_flying g s i r HI Hlk Hfl). pose proof (notin_ra g s i r HI Hlk Hra).
  eapply (inv_remove g _ s _ i r); try done; simpl; auto.
  - by eapply not_flying_no_waiter.
  - eapply HashInv_delete; [done|done|apply (inv_hash _ _ _ HI)].
  - apply (inv_locks _ _ _ HI).
  - intros h. rewrite (count_unhashed h _ i r) by done. apply (inv_nr _ _ _ HI).
  - apply (memqs_take g s m q i r); auto. intros j Hj. by apply lookup_delete_ne.
  - intros j m' q' Hj Hm' Hin. by eapply memqs_keep.
  - apply (inv_flying _ _ _ HI).
  - intros j. split; [intros Hj; split; [done|by intros ->]|by intros []].
  - apply (inv_ra _ _ _ HI).
  - intros j. split; [intros Hj; split; [done|by intros ->]|by intros []].
  - apply QInv_upd_memq; [eauto|]. apply (inv_queues _ _ _ HI).
  - intros m' [->|Hm']%elem_of_cons; [done|]. by apply (inv_lag _ _ _ HI).
Qed.

(** A carried request that blocks nobody any more is dropped. *)
Lemma inv_drop_flying g o o' l s i r : Inv (g <| g_own := i :: l |> <| g_orphan := o |>) s ->
  s_heap s !! i = Some r -> blocking r = true -> no_waiter i s ->
  (forall b, b ∈ o -> b ∈ o' \/ b = i) ->
  Inv (g <| g_own := l |> <| g_orphan := o' |>) (drop_rq i s).
Proof.
  intros HI Hlk Hblk Hnw Ho. pose proof (inv_flying _ _ _ HI) as [Hnd Hfl].
  destruct (Hfl i ltac:(left)) as (x & Hx & Hra & Hf). rewrite Hlk in Hx. injection Hx as <-.
  assert (Hok : fly_ok r) by (pose proof (inv_place _ _ _ HI i r Hlk) as Hp; unfold place_ok in Hp;
    rewrite Hra, Hf in Hp; apply Hp).
  destruct Hok as [_ Hh Hpd _ _]. rewrite Hblk in Hh. pose proof (notin_ra _ s i r HI Hlk Hra).
  change (flying_list _ s) with (i :: flying_list (g <| g_own := l |>) s) in Hnd.
  apply NoDup_cons in Hnd as [Hni Hnd].
  eapply (inv_remove _ _ s _ i r HI); try done; simpl; auto.
  - eapply HashInv_delete; [done|done|apply (inv_hash _ _ _ HI)].
  - apply (inv_locks _ _ _ HI).
  - intros h. rewrite (count_unhashed h _ i r) by done. apply (inv_nr _ _ _ HI).
  - intros m q Hm. apply memq_ok_delete; [by apply (inv_memq _ _ _ HI)|].
    eapply not_in_memq; [by apply (inv_memq _ _ _ HI)|done|auto].
  - eauto.
  - intros j. change (j ∈ flying_list (g <| g_own := l |>) s <-> j ∈ i :: flying_list (g <| g_own := l |>) s /\ j <> i).
    rewrite elem_of_cons. split; [intros Hj; split; [by right|]|by intros [[->|] ?]].
    intros ->. by apply Hni.
  - apply (inv_ra _ _ _ HI).
  - intros j. split; [intros Hj; split; [done|by intros ->]|by intros []].
  - apply (inv_queues _ _ _ HI).
  - apply (inv_lag _ _ _ HI).
Qed.

(** The read-ahead entry [i] is dropped. *)
Definition unhash_ra (i : positive) (r : kv_async_request) s : driver Q :=
  nr_add KV_RA_HASH (-1) (del_chain KV_RA_HASH (rq_hash_key r) i (del_ra i s)).

Lemma in_ra_ok g s i r : Inv g s -> s_heap s !! i = Some r -> in_ra r = true -> ra_ok r /\ i ∈ s_ra_list s.
Proof. intros HI Hi Hra. pose proof (inv_place _ _ _ HI i r Hi) as Hp. unfold place_ok in Hp. by rewrite Hra in Hp. Qed.

Lemma inv_drop_ra g s i r : Inv g s -> s_heap s !! i = Some r -> in_ra r = true ->
  Inv g (drop_rq i (unhash_ra i r s)).
Proof.
  intros HI Hlk Hra. destruct (in_ra_ok g s i r HI Hlk Hra) as [[(_ & Hf & _ & _) Hh _ Hpd] Hin].
  pose proof (notin_flying g s i r HI Hlk Hf).
  eapply (inv_remove _ _ s _ i r HI); try done; simpl; auto.
  - by eapply not_flying_no_waiter.
  - rewrite <- (delete_insert_eq (s_heap s) i (r <| rq_hash := None |>)).
    eapply HashInv_delete; [apply lookup_insert_eq|done|].
    eapply HashInv_ext; [|by apply (HashInv_unlink _ (tables s)); [| |apply (inv_hash _ _ _ HI)]].
    intros h. by destruct h.
  - intros h. pose proof (inv_locks _ _ _ HI h). by destruct h.
  - intros h. rewrite (count_hashed_delete h _ i r) by done. unfold hashed_in. rewrite Hh, <- (inv_nr _ _ _ HI h).
    destruct h; simpl; lia.
  - intros m q Hm. apply memq_ok_delete; [by apply (inv_memq _ _ _ HI)|].
    eapply not_in_memq; [by apply (inv_memq _ _ _ HI)|done|auto].
  - eauto.
  - apply (inv_flying _ _ _ HI).
  - intros j. split; [intros Hj; split; [done|by intros ->]|by intros []].
  - apply NoDup_filter, (inv_ra _ _ _ HI).
  - intros j. rewrite list_elem_of_filter. tauto.
  - apply (inv_queues _ _ _ HI).
  - apply (inv_lag _ _ _ HI).
Qed.

(** ** Read-ahead data, waiters and counts *)

(** A completed read becomes the first read-ahead entry. *)
Definition hash_ra (i : positive) (r : kv_async_request) s : driver Q :=
  nr_add KV_RA_HASH 1 (add_chain KV_RA_HASH (rq_hash_key r) i (add_ra i s)).

Lemma inv_add_ra g s i r : Inv g s -> s_heap s !! i = None -> (i < s_next_rq s)%positive ->
  rq_base r -> ra_ok r -> in_ra r = true -> absent KV_RA_HASH (kid r) s ->
  Inv g (put_rq i r (hash_ra i r s)).
Proof.
  intros HI Ha Hlt Hb Hok Hra Habs. pose proof Hok as [(Hc & Hf & Hin & Hnb) Hh Hop Hpd].
  assert (Hbr : rq_blocking_rq r = None) by (unfold pending in Hpd; by destruct (rq_blocking_rq r)).
  pose proof HI as [Ibase Iplace Ihash Ilocks Inr Imemq [Ifl1 Ifl2] [Ira1 Ira2] Ipend Iblk Iq Ifresh Ififo Ifails Ilag].
  assert (Hne : forall j, is_Some (s_heap s !! j) -> i <> j) by (intros j [x Hx] ->; congruence).
  split; try done; simpl.
  - intros j rj Hj. apply lookup_insert_Some in Hj as [[<- <-]|[? Hj]]; [done|by eapply Ibase].
  - intros j rj Hj. apply lookup_insert_Some in Hj as [[<- <-]|[? Hj]].
    + unfold place_ok. rewrite Hra. split; [done|]. left.
    + eapply place_ok_mono; [by eapply Iplace|by right|done|]. simpl. eauto.
  - eapply HashInv_ext; [|by apply (HashInv_add (s_heap s) (tables s) i r KV_RA_HASH)]. intros h. by destruct h.
  - intros h. specialize (Ilocks h). by destruct h.
  - intros h. etransitivity; [|symmetry; apply (count_hashed_insert h (s_heap s) i r Ha)].
    unfold hashed_in. rewrite Hh, <- Inr. destruct h; simpl; lia.
  - intros m q Hm. apply memq_ok_insert; [by apply Imemq|]. eapply fresh_not_in_memq; [by apply Imemq|done].
  - split; [done|]. intros j Hj. destruct (Ifl2 j Hj) as (rj & Hlk & ? & ?).
    rewrite lookup_insert_ne by (apply Hne; eauto). eauto.
  - split.
    + constructor; [|done]. intros Hi. destruct (Ira2 i Hi) as (x & Hx & _). congruence.
    + intros j [->|Hj]%elem_of_cons; [rewrite lookup_insert_eq; eauto|].
      destruct (Ira2 j Hj) as (rj & Hlk & ?). rewrite lookup_insert_ne by (apply Hne; eauto). eauto.
  - intros j rj b Hj Hbj. apply lookup_insert_Some in Hj as [[<- <-]|[? Hj]]; [congruence|].
    destruct (Ipend j rj b Hj Hbj) as (rb & Hrb & ?). rewrite lookup_insert_ne by (apply Hne; eauto). eauto.
  - intros b rb Hlk Hblk. apply lookup_insert_Some in Hlk as [[<- <-]|[? Hlk]]; [congruence|].
    destruct (Iblk b rb Hlk Hblk) as [|(j & rj & Hj & Hjb)]; [by left|right]. exists j, rj.
    by rewrite lookup_insert_ne by (apply Hne; eauto).
  - intros j [x Hx]. apply lookup_insert_Some in Hx as [[<- _]|[_ Hx]]; [lia|]. apply Ifresh. eauto.
Qed.

(** A pending request is buffered and in the request table. *)
Lemma pending_buffered g s i r : Inv g s -> s_heap s !! i = Some r -> pending r = true ->
  in_ra r = false /\ flying r = false /\ invalid r = false /\ buf_ok r /\
  rq_hash r = Some (KV_RQ_HASH, rq_hash_key r) /\
  exists m q, rq_memq r = Some m /\ s_memqs s !! m = Some q /\ i ∈ mq_rq q.
Proof.
  intros HI Hi Hpd. pose proof (inv_place _ _ _ HI i r Hi) as Hp. unfold place_ok in Hp.
  destruct (in_ra r); [destruct Hp as [[] _]; congruence|].
  destruct (flying r); [destruct Hp as [[] _]; congruence|].
  destruct Hp as [Hbuf Hloc]. pose proof Hbuf as [_ Hh Hinv]. destruct (invalid r); [|done].
  by rewrite Hinv in Hpd.
Qed.

Lemma pending_of r b : rq_blocking_rq r = Some b -> pending r = true.
Proof. intros Hb. unfold pending. by rewrite Hb. Qed.

(** At most one request waits for another one. *)
Lemma one_waiter g s i j ri rj b : Inv g s -> s_heap s !! i = Some ri -> s_heap s !! j = Some rj ->
  rq_blocking_rq ri = Some b -> rq_blocking_rq rj = Some b -> i = j.
Proof.
  intros HI Hi Hj Hbi Hbj. destruct (inv_pending _ _ _ HI i ri b Hi Hbi) as (rb & Hb & _ & _ & Hki).
  destruct (inv_pending _ _ _ HI j rj b Hj Hbj) as (rb' & Hb' & _ & _ & Hkj).
  destruct (pending_buffered g s i ri HI Hi (pending_of _ _ Hbi)) as (_ & _ & _ & _ & ? & _).
  destruct (pending_buffered g s j rj HI Hj (pending_of _ _ Hbj)) as (_ & _ & _ & _ & ? & _).
  eapply (hi_uniq _ _ (inv_hash _ _ _ HI) KV_RQ_HASH _ _ i j ri rj); eauto. congruence.
Qed.

(** The waiter [p] of [b] is released. *)
Lemma inv_unblock g s p rp b m q : Inv g s -> s_heap s !! p = Some rp -> rq_blocking_rq rp = Some b ->
  rq_memq rp = Some m -> s_memqs s !! m = Some q ->
  Inv (g <| g_orphan ::= cons b |>)
    (put_memq m (q <| mq_nr_pending ::= Z.add (-1) |>) (put_rq p (rp <| rq_blocking_rq := None |>) s)) /\
  no_waiter b (put_memq m (q <| mq_nr_pending ::= Z.add (-1) |>) (put_rq p (rp <| rq_blocking_rq := None |>) s)).
Proof.
  intros HI Hp Hb Hmq Hm.
  pose proof (pending_of _ _ Hb) as Hpd. set (r' := rp <| rq_blocking_rq := None |>).
  pose proof HI as [Ibase Iplace Ihash Ilocks Inr Imemq [Ifl1 Ifl2] [Ira1 Ira2] Ipend Iblk Iq Ifresh Ififo Ifails Ilag].
  destruct (pending_buffered g s p rp HI Hp Hpd) as (Hra & Hfl & _ & [[Hco Hnb] Hh Hinv] & _ & m' & q' & ? & ? & Hin).
  simplify_eq.
  assert (Hlk : forall j rj, s_heap s !! j = Some rj -> exists x, <[p := r']> (s_heap s) !! j = Some x /\
    in_ra x = in_ra rj /\ flying x = flying rj /\ rq_memq x = rq_memq rj /\ kid x = kid rj /\ blocking x = blocking rj).
  { intros j rj Hj. destruct (decide (p = j)) as [->|]; [|rewrite lookup_insert_ne by done; eauto 8].
    rewrite lookup_insert_eq. rewrite Hp in Hj. injection Hj as <-. by exists r'. }
  split; [split; try done; simpl|].
  - intros j rj Hj. apply lookup_insert_Some in Hj as [[<- <-]|[? Hj]]; [|by eapply Ibase].
    by destruct (Ibase p rp Hp); split.
  - intros j rj Hj. apply lookup_insert_Some in Hj as [[<- <-]|[? Hj]].
    + unfold place_ok. change (in_ra r') with (in_ra rp). change (flying r') with (flying rp). rewrite Hra, Hfl.
      split; [by split|]. eexists m, _. simpl. by rewrite lookup_insert_eq.
    + eapply place_ok_mono; [by eapply Iplace|done|done|]. simpl. intros _ _ m' q' Hm' Hj'.
      destruct (decide (m = m')) as [->|]; [|rewrite lookup_insert_ne by done; eauto].
      rewrite lookup_insert_eq. simplify_eq. eauto.
  - by eapply HashInv_upd.
  - intros h. etransitivity; [|symmetry; apply (count_hashed_upd h (s_heap s) p rp r' Hp)].
    rewrite <- Inr. change (hashed_in h r') with (hashed_in h rp). simpl. destruct h; simpl; lia.
  - intros m' q' Hm'. apply lookup_insert_Some in Hm' as [[<- <-]|[Hne Hm']].
    + destruct (Imemq m q Hm) as [Hn Hr Hk Hc Hmem]. split; simpl; try done.
      * rewrite (count_pending_upd _ p rp), Hpd by done. simpl. lia.
      * intros j Hj. destruct (Hmem j Hj) as (rj & Hrj & ? & ? & ?). destruct (Hlk j rj Hrj) as (x & ? & ? & ? & ? & ? & ?).
        exists x. repeat split; congruence.
    + apply memq_ok_insert; [by apply Imemq|]. eapply not_in_memq; [by apply Imemq|done|]. right; right. congruence.
  - split; [done|]. intros j Hj. destruct (Ifl2 j Hj) as (rj & Hrj & ? & ?). destruct (Hlk j rj Hrj) as (x & ? & ? & ? & ?).
    exists x. repeat split; congruence.
  - split; [done|]. intros j Hj. destruct (Ira2 j Hj) as (rj & Hrj & ?). destruct (Hlk j rj Hrj) as (x & ? & ? & ?).
    exists x. split; congruence.
  - intros j rj b' Hj Hbj. apply lookup_insert_Some in Hj as [[<- <-]|[? Hj]]; [done|].
    destruct (Ipend j rj b' Hj Hbj) as (rb & Hrb & ? & ? & ?). destruct (Hlk b' rb Hrb) as (x & ? & ? & ? & ? & ? & ?).
    exists x. repeat split; congruence.
  - intros b' rb Hlb Hblk. assert (exists x, s_heap s !! b' = Some x /\ blocking x = true) as (x & Hx & Hxb).
    { apply lookup_insert_Some in Hlb as [[<- <-]|[? Hlb]]; eauto. }
    destruct (Iblk b' x Hx Hxb) as [|(j & rj & Hj & Hjb)]; [left; by right|].
    destruct (decide (p = j)) as [->|]; [left; simplify_eq; left|right].
    exists j, rj. by rewrite lookup_insert_ne.
  - apply QInv_upd_memq; eauto.
  - intros j [x Hx]. apply Ifresh. apply lookup_insert_Some in Hx as [[<- _]|[_ Hx]]; eauto.
  - intros j rj Hj Hbj. simpl in Hj. apply lookup_insert_Some in Hj as [[<- <-]|[Hne Hj]]; [done|].
    apply Hne. by eapply one_waiter.
Qed.

(** A handler may say that it is about to orphan more requests. *)
Lemma inv_orphans g o o' s : Inv (g <| g_orphan := o |>) s -> (forall b, b ∈ o -> b ∈ o') -> Inv (g <| g_orphan := o' |>) s.
Proof.
  intros [Ibase Iplace Ihash Ilocks Inr Imemq Ifl Ira Ipend Iblk Iq Ifresh Ififo Ifails Ilag] Ho. split; try done.
  intros b rb Hb Hblk. destruct (Iblk b rb Hb Hblk); simpl in *; auto.
Qed.

(** The carried request [i] leaves the request table, as if it were being
    displaced. *)
Lemma inv_detach g s i r l : Inv (g <| g_own := i :: l |> <| g_orphan := [] |>) s -> s_heap s !! i = Some r ->
  exists rU, Inv (g <| g_own := i :: l |> <| g_orphan := [i] |>) (put_rq i rU (if blocking r then s else unhash i r s)) /\
    blocking rU = true /\ rq_hash rU = None /\ kid rU = kid r.
Proof.
  intros HI Hi. destruct (inv_flying _ _ _ HI) as [_ Hfl]. destruct (Hfl i ltac:(left)) as (x & Hx & Hra & Hf).
  rewrite Hi in Hx. injection Hx as <-. pose proof (inv_place _ _ _ HI i r Hi) as Hp. unfold place_ok in Hp.
  rewrite Hra, Hf in Hp. destruct Hp as [[[Hc Hinv] Hh Hpd Hreq Hcpu] Hin]. destruct (blocking r) eqn:Hb.
  - exists r. rewrite put_rq_id by done. split; [|done]. apply (inv_orphans _ []); [done|]. intros b Hbn.
    by apply elem_of_nil in Hbn.
  - set (rU := r <| rq_hash := None |> <| rq_state ::= set_bit KV_async_blocking_rq |>).
    assert (Hbits : blocking rU = true /\ flying rU = flying r /\ in_ra rU = in_ra r /\ completed rU = completed r /\
      invalid rU = invalid r).
    { unfold rU, blocking, flying, in_ra, completed, invalid, bit. simpl. by autorewrite with flags. }
    destruct Hbits as (Hb1 & Hb2 & Hb3 & Hb4 & Hb5). exists rU. split; [|done].
    apply (inv_unhash (g <| g_own := i :: l |>) [] [i] s i r rU); try done.
    + unfold mview. by rewrite Hb2, Hb3.
    + destruct (inv_base _ _ _ HI i r Hi). by split.
    + unfold place_ok. rewrite Hb2, Hb3, Hra, Hf. split; [|done]. split; try done; [by rewrite Hb4, Hb5|by rewrite Hb1].
    + intros b Hbn. by apply elem_of_nil in Hbn.
    + intros _. left.
Qed.

(** ** Moving requests and queues *)

(** Requests and queues change place; the requests themselves stay as they are. *)
Lemma inv_relocate g g' s s' : Inv g s ->
  s_heap s' = s_heap s -> s_next_rq s' = s_next_rq s -> s_rq_hash s' = s_rq_hash s ->
  s_ra_hash s' = s_ra_hash s -> s_ra_list s' = s_ra_list s -> s_fails s' = s_fails s ->
  g_orphan g' = g_orphan g -> flying_list g' s' ≡ₚ flying_list g s ->
  (forall m q, s_memqs s' !! m = Some q -> memq_ok (s_heap s) (lag g' m) m q) ->
  (forall m q i, s_memqs s !! m = Some q -> i ∈ mq_rq q -> exists q', s_memqs s' !! m = Some q' /\ i ∈ mq_rq q') ->
  QInv nr_cpus (g_memqs g') (s_percpu_memq s') (s_submit s') (s_memqs s') (s_next_memq s') ->
  fifo_ok (s_fifo s') ->
  s_nr_interrupt s' = s_nr_complete s' + Z.of_nat (length (fifo_contents (s_fifo s'))) + g_busy g' ->
  (forall m, m ∈ g_lag g' -> m ∈ g_memqs g') ->
  (forall q, q ∈ s_memq_slab s' -> q ∈ s_memq_slab s \/ q = zero_memq) ->
  Inv g' s'.
Proof.
  intros HI Hheap Hnext Hrq Hra Hral Hfails Ho Hfl Hmq Hkeep Hq Hfok Hfc Hlag Hslab.
  assert (Hh : forall h, get_hash h s' = get_hash h s) by (intros []; done).
  pose proof HI as [Ibase Iplace Ihash Ilocks Inr Imemq [Ifl1 Ifl2] [Ira1 Ira2] Ipend Iblk Iq Ifresh Ififo Ifails Ilag].
  split; rewrite ?Hheap, ?Hnext, ?Hral, ?Hfails, ?Ho, ?Hfl; try done.
  - intros j rj Hj. eapply place_ok_mono; [by eapply Iplace|by rewrite Hral|by rewrite Hfl|]. eauto.
  - eapply HashInv_ext; [|done]. intros h. unfold tables. by rewrite Hh.
  - intros h. by rewrite Hh.
  - intros h. by rewrite Hh.
  - split; [done|]. intros j. rewrite Hfl. apply Ifl2.
  - intros q [Hin|]%Hslab; [by eapply inv_slab|done].
Qed.

(** The queue's count catches up with its list. *)
Lemma inv_settle g s m q l : Inv (g <| g_lag := m :: l |>) s -> m ∉ l -> s_memqs s !! m = Some q ->
  Inv (g <| g_lag := l |>) (put_memq m (q <| mq_nr_rq ::= Z.add (-1) |>) s).
Proof.
  change (g <| g_lag := m :: l |>) with ((g <| g_lag := l |>) <| g_lag ::= cons m |>).
  intros HI Hl Hm. pose proof (inv_memq _ _ _ HI) as Imemq.
  eapply (inv_relocate _ _ s); try done; simpl.
  - intros m' q' Hm'. specialize (Imemq m'). rewrite lag_cons in Imemq.
    apply lookup_insert_Some in Hm' as [[<- <-]|[Hne Hm']]; [|rewrite decide_False in Imemq by done; by apply Imemq].
    rewrite decide_True in Imemq by done. destruct (Imemq q Hm) as [Hn Hr Hk Hp Hmem].
    split; simpl; try done. rewrite lag_notin by done. lia.
  - intros m' q' i Hm' Hi. destruct (decide (m = m')) as [->|]; [|rewrite lookup_insert_ne by done; eauto].
    rewrite lookup_insert_eq. simplify_eq. eauto.
  - apply QInv_upd_memq; [eauto|apply (inv_queues _ _ _ HI)].
  - apply (inv_fifo _ _ _ HI).
  - apply (inv_fifo _ _ _ HI).
  - intros m' Hm'. apply (inv_lag _ _ _ HI). by right.
  - auto.
Qed.

(** A carried request is given to the block layer. *)
Lemma inv_to_device g s i l : Inv (g <| g_own := i :: l |>) s ->
  Inv (g <| g_own := l |>) (s <| s_dev_queue ::= fun d => d ++ [i] |>).
Proof.
  intros HI. eapply (inv_relocate _ _ s); try done; simpl.
  - unfold flying_list. simpl. rewrite <- !app_assoc. simpl.
    by rewrite <- (Permutation_middle (s_dev_queue s)), <- (Permutation_middle l).
  - apply (inv_memq _ _ _ HI).
  - eauto.
  - apply (inv_queues _ _ _ HI).
  - apply (inv_fifo _ _ _ HI).
  - apply (inv_fifo _ _ _ HI).
  - apply (inv_lag _ _ _ HI).
  - auto.
Qed.

(** The queue pointers change, the queues do not. *)
Lemma inv_requeue g c s percpu submit : Inv g s -> (forall m, m ∈ g_lag g -> m ∈ c) ->
  QInv nr_cpus c percpu submit (s_memqs s) (s_next_memq s) ->
  Inv (g <| g_memqs := c |>) (s <| s_percpu_memq := percpu |> <| s_submit := submit |>).
Proof.
  intros HI Hl Hq. eapply (inv_relocate _ _ s); try done; simpl; eauto.
  - apply (inv_memq _ _ _ HI).
  - apply (inv_fifo _ _ _ HI).
  - apply (inv_fifo _ _ _ HI).
Qed.

Definition new_memq s : driver Q :=
  s <| s_memqs ::= <[s_next_memq s := zero_memq]> |> <| s_next_memq ::= Pos.succ |> <| s_memq_slab ::= drop 1 |>.

Lemma fresh_memq g s : Inv g s -> s_memqs s !! s_next_memq s = None.
Proof.
  intros HI. destruct (s_memqs s !! s_next_memq s) eqn:Hm; [|done].
  pose proof (qi_fresh _ _ _ _ _ _ (inv_queues _ _ _ HI) (s_next_memq s) ltac:(eauto)). lia.
Qed.

(** A new queue is carried by whoever allocated it. *)
Lemma q_new c p sb memqs next : QInv nr_cpus c p sb memqs next ->
  QInv nr_cpus (next :: c) p sb (<[next := zero_memq]> memqs) (Pos.succ next).
Proof.
  intros [Hl Hu Hn Hc Ha Hd Hf Hr].
  assert (Hold : forall m, is_Some (memqs !! m) -> m <> next) by (intros m Hm ->; specialize (Hf next Hm); lia).
  assert (Hno : forall l, ~ at_loc c p sb next l) by (intros l Hat; by apply (Hold next (Hl _ _ Hat))).
  assert (Hat : forall x l, at_loc (next :: c) p sb x l -> (x = next /\ l = LCarried) \/ at_loc c p sb x l).
  { intros x [| |] Hx; simpl in *; auto. apply elem_of_cons in Hx as [->|]; auto. }
  split; try done.
  - intros x l [[-> _]|Hx]%Hat; [rewrite lookup_insert_eq; eauto|]. pose proof (Hold _ (Hl _ _ Hx)).
    rewrite lookup_insert_ne by done. by eapply Hl.
  - intros x l1 l2 [[-> ->]|Hx]%Hat [[? ->]|Hy]%Hat; subst; try done; [by destruct (Hno _ Hy)|by destruct (Hno _ Hx)|by eapply Hu].
  - constructor; [|done]. apply (Hno LCarried).
  - intros m [q Hq]. apply lookup_insert_Some in Hq as [[<- _]|[_ Hq]]; [lia|]. pose proof (Hf m ltac:(eauto)). lia.
  - intros m [q Hq]. apply lookup_insert_Some in Hq as [[<- _]|[_ Hq]]; [exists LCarried; left|].
    destruct (Hr m ltac:(eauto)) as [l Hm]. exists l. destruct l; simpl in *; auto. by right.
Qed.

Lemma inv_new_memq g s : Inv g s -> Inv (g <| g_memqs ::= cons (s_next_memq s) |>) (new_memq s).
Proof.
  intros HI. pose proof (fresh_memq g s HI) as Hfr.
  assert (Hlag : s_next_memq s ∉ g_lag g).
  { intros Hin%(inv_lag _ _ _ HI).
    destruct (qi_located _ _ _ _ _ _ (inv_queues _ _ _ HI) (s_next_memq s) LCarried Hin). congruence. }
  eapply (inv_relocate g _ s); try done; simpl.
  - intros m q Hm. apply lookup_insert_Some in Hm as [[<- <-]|[Hne Hm]]; [|by apply (inv_memq _ _ _ HI)].
    split; simpl; try done; [constructor|by rewrite lag_notin|]. intros i Hi. by apply elem_of_nil in Hi.
  - intros m q i Hm Hi. rewrite lookup_insert_ne by congruence. eauto.
  - apply q_new, (inv_queues _ _ _ HI).
  - apply (inv_fifo _ _ _ HI).
  - apply (inv_fifo _ _ _ HI).
  - intros m Hm. right. by apply (inv_lag _ _ _ HI).
  - intros q Hq. left. destruct (s_memq_slab s); [done|by right].
Qed.

(** A carried queue is freed. *)
Definition free_memq (m : positive) (q : kv_memqueue_struct) s : driver Q :=
  s <| s_memqs ::= delete m |> <| s_memq_slab ::= cons q |>.

Lemma q_free c p sb memqs next m : QInv nr_cpus (m :: c) p sb memqs next -> QInv nr_cpus c p sb (delete m memqs) next.
Proof.
  intros [Hl Hu Hn Hc Ha Hd Hf Hr]. apply NoDup_cons in Hc as [Hm Hc].
  assert (Hat : forall x l, at_loc c p sb x l -> at_loc (m :: c) p sb x l) by (intros x [| |] Hx; simpl in *; auto; by right).
  assert (Hno : forall l, ~ at_loc c p sb m l).
  { intros l Hx. assert (l = LCarried) as -> by (eapply Hu; [by apply Hat|left]). done. }
  split; try done.
  - intros x l Hx. rewrite lookup_delete_ne by (intros ->; by eapply Hno). by eapply Hl, Hat.
  - eauto.
  - intros x [q [_ Hq]%lookup_delete_Some]. eauto.
  - intros x [q [Hne Hq]%lookup_delete_Some]. destruct (Hr x ltac:(eauto)) as [l Hx]. exists l.
    destruct l; simpl in *; auto. by apply elem_of_cons in Hx as [->|].
Qed.

Lemma inv_free_memq g c s m q : Inv (g <| g_memqs := m :: c |>) s -> s_memqs s !! m = Some q -> mq_rq q = [] -> m ∉ g_lag g ->
  Inv (g <| g_memqs := c |>) (free_memq m zero_memq s).
Proof.
  intros HI Hm Hempty Hlag. eapply (inv_relocate _ _ s); try done; simpl.
  - intros m' q' [_ Hm']%lookup_delete_Some. by apply (inv_memq _ _ _ HI).
  - intros m' q' i Hm' Hi. rewrite lookup_delete_ne; [eauto|]. intros ->. simplify_eq. rewrite Hempty in Hi.
    by apply elem_of_nil in Hi.
  - apply q_free, (inv_queues _ _ _ HI).
  - apply (inv_fifo _ _ _ HI).
  - apply (inv_fifo _ _ _ HI).
  - intros m' Hm'. pose proof (inv_lag _ _ _ HI m' Hm') as Hin. simpl in Hin. by apply elem_of_cons in Hin as [->|].
  - intros q' [->|]%elem_of_cons; auto.
Qed.
End Trans.
