(* ===== verification/KvView.v ===== *)
(** * What the driver promises: the key-value map behind the requests

    A client sees one map from keys to values.  The driver spreads it over the
    requests it buffers, the ones in flight and the SSD: the value of a key is
    what the buffered write of the key says, otherwise what the write in flight
    says, otherwise what the device holds.  What a get in flight or the
    read-ahead data of a key says is that value too, unless the key is [raced].
    [View] relates a driver state to that map; the lemmas follow it through the
    transitions of KvTrans.v. *)

From Stdlib Require Import ZArith Lia Bool.
From stdpp Require Import base list gmap.
From S2P Require Import Prelude KvFifo KvCmd KvState KvHash KvIosched KvInv KvExec KvHashSpec KvTrans.

(** The contract of the SSD for the commands the driver buffers (no option, no
    offset, a key of at most 16 bytes inside the command, a value length that
    is the buffer's in dwords): a map that stores, deletes and retrieves.
    [dev_get d k l] is the value of the key whose 16 bytes are [k] and whose
    length field is [l]. *)
Definition plain (c : nvme_command) (data : list Z) : Prop :=
  c_option c = 0 /\ c_offset c = 0 /\ 4 * c_value_len c = Z.of_nat (length data).

Class KvDevice `{Device} : Type := {
  dev_get : dev_state -> list Z -> Z -> option (list Z);
  dev_store d c data : is_kv_store_cmd (c_opcode c) = true -> plain c data ->
    ans_errors (dev_exec d c (c_key c) data).2 = 0 /\
    forall k l, dev_get (dev_exec d c (c_key c) data).1 k l =
      if decide ((k, l) = (c_key c, c_key_len c)) then Some data else dev_get d k l;
  dev_delete d c data : is_kv_delete_cmd (c_opcode c) = true -> plain c data ->
    ans_errors (dev_exec d c (c_key c) data).2 = 0 /\
    forall k l, dev_get (dev_exec d c (c_key c) data).1 k l =
      if decide ((k, l) = (c_key c, c_key_len c)) then None else dev_get d k l;
  dev_retrieve d c buf : is_kv_retrieve_cmd (c_opcode c) = true -> plain c buf ->
    (forall k l, dev_get (dev_exec d c (c_key c) buf).1 k l = dev_get d k l) /\
    length (ans_data (dev_exec d c (c_key c) buf).2) = length buf /\
    match dev_get d (c_key c) (c_key_len c) with
    | Some v => ans_errors (dev_exec d c (c_key c) buf).2 = 0 /\
                ans_result (dev_exec d c (c_key c) buf).2 = Z.of_nat (length v) /\
                ans_data (dev_exec d c (c_key c) buf).2 = take (length buf) v ++ drop (length v) buf
    | None => ans_errors (dev_exec d c (c_key c) buf).2 = 0x310
    end;
}.

(** ** Live writes *)

(** In a memory queue and still to be submitted. *)
Definition buffered (r : kv_async_request) : bool := negb (in_ra r) && negb (flying r) && negb (invalid r).

(** The value a write gives its key. *)
Definition wval (r : kv_async_request) : option (list Z) :=
  if is_kv_store_cmd (c_opcode (rq_c r)) then Some (default [] (rq_data_addr r)) else None.

(** The keys for which the clients may send an asynchronous command while an
    asynchronous get of the key is in flight.  What the driver keeps as
    read-ahead data of such a key may be older than the last write. *)
Class Raced : Type := raced : list Z * Z -> bool.

(** The key of a get: [None] while it is buffered; then whether it has become
    read-ahead data, and the result, status and data it has. *)
Definition lr (r : kv_async_request) : option ((list Z * Z) * option (bool * (Z * Z * list Z))) :=
  if is_kv_retrieve_cmd (c_opcode (rq_c r)) then
    if in_ra r then Some (kid r, Some (true, (rq_result r, rq_errors r, default [] (rq_data_addr r))))
    else if flying r then Some (kid r, Some (false, (rq_cqe r, rq_req_errors r, default [] (rq_data_addr r))))
    else if invalid r then None else Some (kid r, None)
  else None.

(** The answer of the device to a get of a key with value [v]. *)
Definition answers (a : Z * Z * list Z) (v : option (list Z)) : Prop :=
  match v with
  | Some v => a.1.2 = 0 /\ a.1.1 = Z.of_nat (length v) /\ take (length a.2) v `prefix_of` a.2
  | None => a.1.2 = 0x310
  end.

(** The key, whether it is in flight and the value of a write that has not been
    completed. *)
Definition lw (r : kv_async_request) : option ((list Z * Z) * bool * option (list Z)) :=
  if is_write (c_opcode (rq_c r)) && (buffered r || flying r) then Some (kid r, flying r, wval r) else None.

Section View.
  Context `{KernelHash} `{KvDevice} `{FifoOps Q} `{ReadLen} {R : Raced}.
  Variable nr_cpus : Z.
  Local Abbreviation Inv := (Inv nr_cpus).
  Implicit Types s : driver Q.
  Implicit Types g : ghost.

Definition kvmap : Type := gmap (list Z * Z) (list Z).

Definition live s (i : positive) (x : (list Z * Z) * bool * option (list Z)) : Prop :=
  exists r, s_heap s !! i = Some r /\ lw r = Some x.

Definition seen s (i : positive) (x : (list Z * Z) * option (bool * (Z * Z * list Z))) : Prop :=
  exists r, s_heap s !! i = Some r /\ lr r = Some x.

(** A get of [kk] is in flight or has become read-ahead data. *)
Definition reading s (i : positive) (kk : list Z * Z) : Prop := exists x, seen s i (kk, Some x).

Definition dev_val s (kk : list Z * Z) : option (list Z) := dev_get (s_dev s) kk.1 (u8 (kk.2 - 1)).

Record View s (V : kvmap) : Prop := {
  v_buf i kk v : live s i (kk, false, v) -> V !! kk = v;
  v_fly i kk v : live s i (kk, true, v) -> (forall j w, ~ live s j (kk, false, w)) -> V !! kk = v;
  v_dev kk : key_wf kk.1 kk.2 -> (forall j f w, ~ live s j (kk, f, w)) -> V !! kk = dev_val s kk;
  v_done i kk v : i ∈ fifo_contents (s_fifo s) -> live s i (kk, true, v) -> dev_val s kk = v;
  v_alone i kk : reading s i kk -> raced kk = false ->
    (forall j f w, ~ live s j (kk, f, w)) /\ (forall j, ~ seen s j (kk, None));
  v_answer i kk ra a : seen s i (kk, Some (ra, a)) -> raced kk = false -> ra = true \/ i ∈ fifo_contents (s_fifo s) ->
    answers a (V !! kk);
}.

Lemma view_frame s s' V : View s V -> (forall i x, live s' i x <-> live s i x) ->
  (forall i x, seen s' i x -> seen s i x) -> (forall kk, dev_val s' kk = dev_val s kk) ->
  (forall i, i ∈ fifo_contents (s_fifo s') -> i ∈ fifo_contents (s_fifo s)) -> View s' V.
Proof.
  intros [Hb Hf Hd Hdone Hal Han] Hl Hs Hdev Hfifo. split.
  - intros i kk v Hlv. apply (Hb i kk v). by apply Hl.
  - intros i kk v Hlv Hno. apply (Hf i kk v); [by apply Hl|]. intros j w Hj. apply (Hno j w). by apply Hl.
  - intros kk Hwf Hno. rewrite Hdev. apply Hd; [done|]. intros j f w Hj. apply (Hno j f w). by apply Hl.
  - intros i kk v Hi Hlv%Hl. rewrite Hdev. apply (Hdone i); [|done]. by eapply Hfifo.
  - intros i kk [x Hx] Hr. destruct (Hal i kk ltac:(eexists; eauto) Hr) as [H1' H2'].
    split; [intros j f w Hj; by eapply H1', Hl|intros j Hj; by eapply H2', Hs].
  - intros i kk ra a Hi Hr Ho. apply (Han i kk ra a); [by apply Hs|done|]. destruct Ho; auto.
Qed.

(** No get goes into flight. *)
Definition readers_kept s s' : Prop := forall i kk, reading s' i kk -> reading s i kk.

#[export] Instance readers_kept_preorder : PreOrder readers_kept.
Proof. split; [by intros s i kk|]. intros s1 s2 s3 K1 K2 i kk Hi. by apply K1, K2. Qed.

Lemma readers_seen s s' : (forall i x, seen s' i x -> seen s i x) -> readers_kept s s'.
Proof. intros Hs i kk [x Hx]. exists x. by apply Hs. Qed.

(** One request changes. *)
Lemma live_put i r s j x : live (put_rq i r s) j x <-> if decide (i = j) then lw r = Some x else live s j x.
Proof.
  unfold live. destruct (decide (i = j)) as [->|Hne].
  - rewrite put_rq_lookup. split; [intros (? & ? & ?); by simplify_eq|eauto].
  - by rewrite put_rq_lookup_ne.
Qed.
Lemma live_drop i s j x : live (drop_rq i s) j x <-> i <> j /\ live s j x.
Proof.
  unfold live, drop_rq. simpl. split.
  - intros (r & [? ?]%lookup_delete_Some & ?). eauto.
  - intros (Hne & r & ? & ?). exists r. by rewrite lookup_delete_ne.
Qed.

Lemma seen_put i r s j x : seen (put_rq i r s) j x <-> if decide (i = j) then lr r = Some x else seen s j x.
Proof.
  unfold seen. destruct (decide (i = j)) as [->|Hne].
  - rewrite put_rq_lookup. split; [intros (? & ? & ?); by simplify_eq|eauto].
  - by rewrite put_rq_lookup_ne.
Qed.
Lemma seen_drop i s j x : seen (drop_rq i s) j x -> seen s j x.
Proof. unfold seen, drop_rq. simpl. intros (r & [? ?]%lookup_delete_Some & ?). by exists r. Qed.

(** The request [i] stops being a get, or stays the same one. *)
Lemma seen_put_old i r r' s : s_heap s !! i = Some r -> lr r' = lr r \/ lr r' = None ->
  forall j x, seen (put_rq i r' s) j x -> seen s j x.
Proof.
  intros Hi Hlr j x Hs%seen_put. destruct (decide (i = j)) as [<-|]; [|done].
  destruct Hlr as [Hl|Hl]; rewrite Hl in Hs; [by exists r|done].
Qed.

(** A state with the same heap, device and ring. *)
Lemma view_core s s' V : s_heap s' = s_heap s -> s_dev s' = s_dev s -> s_fifo s' = s_fifo s -> View s V -> View s' V.
Proof.
  intros Hh Hd Hf HV. apply (view_frame s); [done| | | |by rewrite Hf].
  - intros i x. unfold live. by rewrite Hh.
  - intros i x. unfold seen. by rewrite Hh.
  - intros kk. unfold dev_val. by rewrite Hd.
Qed.

(** A request changes without being a write before or after, or without its
    write changing, and without becoming a get. *)
Lemma view_put s i r r' V : s_heap s !! i = Some r -> lw r' = lw r -> lr r' = lr r \/ lr r' = None -> View s V -> View (put_rq i r' s) V.
Proof.
  intros Hi Hlw Hlr HV. apply (view_frame s); try done; [|by eapply seen_put_old]. intros j x. rewrite live_put.
  destruct (decide (i = j)) as [->|]; [|done]. rewrite Hlw. unfold live. rewrite Hi.
  split; [eauto|intros (? & ? & ?); by simplify_eq].
Qed.
(** A get is buffered; no get of a key that is not raced is in flight or kept. *)
Lemma live_new s i r j x : s_heap s !! i = None -> lw r = None -> live (put_rq i r s) j x <-> live s j x.
Proof.
  intros Hi Hlw. rewrite live_put. destruct (decide (i = j)) as [->|]; [|done]. rewrite Hlw. unfold live. rewrite Hi.
  split; [done|intros (? & ? & ?); by simplify_eq].
Qed.
Lemma view_new s i r kk V : s_heap s !! i = None -> lw r = None -> lr r = Some (kk, None) ->
  (raced kk = false -> forall j, ~ reading s j kk) -> View s V -> View (put_rq i r s) V.
Proof.
  intros Hi Hlw Hlr Hno [Hb Hf Hd Hdone Hal Han].
  assert (Hl : forall j x, live (put_rq i r s) j x <-> live s j x) by (intros; by apply live_new).
  assert (Hs : forall j k x, seen (put_rq i r s) j (k, Some x) -> seen s j (k, Some x)).
  { intros j k x Hj%seen_put. destruct (decide (i = j)); [congruence|done]. }
  split.
  - intros j kk' v Hj. by eapply Hb, Hl.
  - intros j kk' v Hj Hnone. eapply Hf; [by apply Hl|]. intros x w Hx. by eapply Hnone, Hl.
  - intros kk' Hwf Hnone. apply Hd; [done|]. intros x f w Hx. by eapply Hnone, Hl.
  - intros j kk' v Hj Hlv%Hl. by eapply Hdone.
  - intros j kk' [x Hx%Hs] Hr. destruct (Hal j kk' ltac:(eexists; eauto) Hr) as [H1' H2']. split; [intros y f w Hy; by eapply H1', Hl|].
    intros y Hy%seen_put. destruct (decide (i = y)); [|by eapply H2'].
    rewrite Hlr in Hy. injection Hy as ->. by eapply Hno; [|exists x].
  - intros j kk' ra a Hj%Hs Hr Ho. by eapply Han.
Qed.
Lemma view_drop s i r V : s_heap s !! i = Some r -> lw r = None -> View s V -> View (drop_rq i s) V.
Proof.
  intros Hi Hlw HV. apply (view_frame s); try done; [|apply seen_drop]. intros j x. rewrite live_drop.
  split; [by intros []|]. intros Hx. split; [|done]. intros ->. destruct Hx as (? & ? & ?). by simplify_eq.
Qed.

(** ** Live writes of a key *)

Lemma lw_kid r kk f v : lw r = Some (kk, f, v) -> kid r = kk /\ flying r = f /\ wval r = v /\
  is_write (c_opcode (rq_c r)) = true /\ (buffered r || flying r) = true.
Proof.
  unfold lw. destruct (is_write _), (buffered r || flying r) eqn:Hb; simpl; try done.
  intros Heq. injection Heq as <- <- <-. auto.
Qed.

Lemma buffered_hashed g s i r : Inv g s -> s_heap s !! i = Some r -> buffered r = true ->
  rq_hash r = Some (KV_RQ_HASH, rq_hash_key r).
Proof.
  intros HI Hi Hb. unfold buffered in Hb. pose proof (inv_place _ _ _ HI i r Hi) as Hp. unfold place_ok in Hp.
  destruct (in_ra r), (flying r), (invalid r) eqn:Hinv; try done. destruct Hp as [[_ Hh _] _]. by rewrite Hinv in Hh.
Qed.

(** The request table holds at most one buffered write of a key. *)
Lemma live_buf_uniq g s i j kk v w : Inv g s -> live s i (kk, false, v) -> live s j (kk, false, w) -> i = j.
Proof.
  intros HI (r & Hi & Hr) (x & Hj & Hx). apply lw_kid in Hr as (Hk & Hf & _ & _ & Hb). apply lw_kid in Hx as (Hk' & Hf' & _ & _ & Hb').
  rewrite Hf, orb_false_r in Hb. rewrite Hf', orb_false_r in Hb'.
  eapply (hi_uniq _ _ (inv_hash _ _ _ HI) KV_RQ_HASH); [done|done| | |congruence];
    by eapply buffered_hashed.
Qed.

(** When the request table does not have the key, and nobody is being
    displaced, no write of the key is live. *)
Lemma absent_not_live g s kk i f v : Inv g s -> g_orphan g = [] -> absent KV_RQ_HASH kk s -> ~ live s i (kk, f, v).
Proof.
  intros HI Ho Ha (r & Hi & (Hk & Hf & _ & _ & Hb)%lw_kid). destruct (flying r) eqn:Hfl; subst f.
  - pose proof (inv_place _ _ _ HI i r Hi) as Hp. unfold place_ok in Hp. rewrite Hfl in Hp.
    destruct (in_ra r) eqn:Hra; [destruct Hp as [[[? [? _]] _ _ _] _]; congruence|].
    destruct Hp as [[_ Hh _ _ _] _]. destruct (blocking r) eqn:Hbl; [|by eapply Ha].
    destruct (inv_blocking _ _ _ HI i r Hi Hbl) as [Hin|(j & rj & Hj & Hjb)].
    { rewrite Ho in Hin. by apply elem_of_nil in Hin. }
    destruct (inv_pending _ _ _ HI j rj i Hj Hjb) as (x & Hx & _ & _ & Hkx).
    rewrite Hi in Hx. injection Hx as <-.
    destruct (pending_buffered _ _ s j rj HI Hj (pending_of _ _ Hjb)) as (_ & _ & _ & _ & Hhj & _).
    apply (Ha j rj (rq_hash_key rj) Hj Hhj). congruence.
  - rewrite orb_false_r in Hb. by eapply Ha; [| |done]; [|eapply buffered_hashed].
Qed.

(** ** Writes *)

(** A write is not a get. *)
Lemma lw_lr r x : lw r = Some x -> lr r = None.
Proof.
  unfold lw, lr. destruct (is_write (c_opcode (rq_c r))) eqn:Hw; [|done]. intros _.
  unfold is_write, is_kv_store_cmd, is_kv_delete_cmd, is_kv_retrieve_cmd in *. apply orb_true_iff in Hw as [->%Z.eqb_eq| ->%Z.eqb_eq]; done.
Qed.

(** The map after a write. *)
Definition set_val (kk : list Z * Z) (v : option (list Z)) (V : kvmap) : kvmap := partial_alter (fun _ => v) kk V.

Lemma set_val_lookup kk v V kk' : set_val kk v V !! kk' = if decide (kk = kk') then v else V !! kk'.
Proof.
  unfold set_val. destruct (decide (kk = kk')) as [->|]; [apply lookup_partial_alter_eq|by apply lookup_partial_alter_ne].
Qed.
Lemma set_val_id kk v V : V !! kk = v -> set_val kk v V = V.
Proof. intros <-. apply partial_alter_self. Qed.

(** The buffered request [i] becomes the write of [kk]. *)
Lemma view_write s i r kk v V : lw r = Some (kk, false, v) ->
  (forall j w, j <> i -> ~ live s j (kk, false, w)) ->
  (forall kk' f w, live s i (kk', f, w) -> kk' = kk /\ f = false) ->
  i ∉ fifo_contents (s_fifo s) -> (raced kk = false -> forall j, ~ reading s j kk) ->
  View s V -> View (put_rq i r s) (set_val kk v V).
Proof.
  intros Hr Hno Hi Hnf Hnr [Hb Hf Hd Hdone Hal Han].
  assert (Hs : forall j x, seen (put_rq i r s) j x -> seen s j x).
  { intros j x Hj%seen_put. destruct (decide (i = j)); [|done]. by rewrite (lw_lr _ _ Hr) in Hj. }
  split.
  - intros j kk' w Hj. rewrite set_val_lookup. apply live_put in Hj. destruct (decide (i = j)) as [->|Hne].
    + rewrite Hr in Hj. injection Hj as <- <-. by rewrite decide_True.
    + destruct (decide (kk = kk')) as [->|]; [by destruct (Hno j w)|by apply (Hb j)].
  - intros j kk' w Hj Hnone. rewrite set_val_lookup. destruct (decide (kk = kk')) as [->|Hk].
    + destruct (Hnone i v). apply live_put. by rewrite decide_True.
    + apply live_put in Hj. destruct (decide (i = j)) as [->|]; [rewrite Hr in Hj; congruence|].
      apply (Hf j); [done|]. intros x y Hxy. apply (Hnone x y). apply live_put.
      destruct (decide (i = x)) as [->|]; [|done]. destruct (Hi _ _ _ Hxy). congruence.
  - intros kk' Hwf Hnone. rewrite set_val_lookup. destruct (decide (kk = kk')) as [->|Hk].
    + destruct (Hnone i false v). apply live_put. by rewrite decide_True.
    + apply Hd; [done|]. intros x f y Hxy. apply (Hnone x f y). apply live_put.
      destruct (decide (i = x)) as [->|]; [|done]. destruct (Hi _ _ _ Hxy). congruence.
  - intros j kk' w Hj Hl. apply live_put in Hl. destruct (decide (i = j)) as [->|]; [done|]. by apply (Hdone j).
  - intros j kk' [x Hx%Hs] Hra. destruct (Hal j kk' ltac:(eexists; eauto) Hra) as [H1' H2']. split; [|intros y Hy%Hs; by eapply H2'].
    intros y f w Hy%live_put. destruct (decide (i = y)); [|by eapply H1'].
    rewrite Hr in Hy. injection Hy as -> _ _. by eapply Hnr; [|exists x].
  - intros j kk' ra a Hj%Hs Hra Ho. rewrite set_val_lookup. destruct (decide (kk = kk')) as [->|]; [|by eapply Han].
    destruct (Hnr Hra j). by eexists.
Qed.

(** The buffered write [i] goes into flight. *)
Lemma view_submit s i r' kk v V : live s i (kk, false, v) -> lw r' = Some (kk, true, v) ->
  (forall j f w, j <> i -> ~ live s j (kk, f, w)) -> i ∉ fifo_contents (s_fifo s) ->
  View s V -> View (put_rq i r' s) V.
Proof.
  intros Hi Hr Hno Hnf [Hb Hf Hd Hdone Hal Han].
  assert (Hoth : forall j kk' f w, kk' <> kk -> live (put_rq i r' s) j (kk', f, w) <-> live s j (kk', f, w)).
  { intros j kk' f w Hk. rewrite live_put. destruct (decide (i = j)) as [->|]; [|done].
    rewrite Hr. destruct Hi as (x & Hx & Hlx). split; [congruence|]. intros (y & ? & ?). congruence. }
  assert (Hs : forall j x, seen (put_rq i r' s) j x -> seen s j x).
  { intros j x Hj%seen_put. destruct (decide (i = j)); [|done]. by rewrite (lw_lr _ _ Hr) in Hj. }
  split.
  - intros j kk' w Hj. destruct (decide (kk' = kk)) as [->|Hk]; [|by apply (Hb j), Hoth].
    apply live_put in Hj. destruct (decide (i = j)) as [->|Hne]; [congruence|]. by destruct (Hno j false w).
  - intros j kk' w Hj Hnone. destruct (decide (kk' = kk)) as [->|Hk].
    + apply live_put in Hj. destruct (decide (i = j)) as [->|Hne]; [|by destruct (Hno j true w)].
      rewrite Hr in Hj. injection Hj as <-. by apply (Hb j).
    + apply (Hf j); [by apply Hoth|]. intros x y Hxy. apply (Hnone x y). by apply Hoth.
  - intros kk' Hwf Hnone. destruct (decide (kk' = kk)) as [->|Hk].
    + destruct (Hnone i true v). apply live_put. by rewrite decide_True.
    + apply Hd; [done|]. intros x f y Hxy. apply (Hnone x f y). by apply Hoth.
  - intros j kk' w Hj Hl. apply live_put in Hl. destruct (decide (i = j)) as [->|]; [done|]. by apply (Hdone j).
  - intros j kk' [x Hx%Hs] Hra. destruct (Hal j kk' ltac:(eexists; eauto) Hra) as [H1' H2']. split; [|intros y Hy%Hs; by eapply H2'].
    intros y f w Hy. destruct (decide (kk' = kk)) as [->|]; [by eapply H1'|by eapply H1', Hoth].
  - intros j kk' ra a Hj%Hs Hra Ho. by eapply Han.
Qed.

(** The buffered get [i] goes into flight: it is the only request of its key. *)
Lemma view_submit_read s i r' kk x V : seen s i (kk, None) -> lr r' = Some (kk, Some x) -> lw r' = None -> 
  (forall j f w, ~ live s j (kk, f, w)) -> (forall j, j <> i -> ~ seen s j (kk, None)) -> x.1 = false ->
  i ∉ fifo_contents (s_fifo s) -> View s V -> View (put_rq i r' s) V.
Proof.
  intros Hi Hr Hw Hnl Hns Hx Hnf [Hb Hf Hd Hdone Hal Han].
  assert (Hl : forall j x, live (put_rq i r' s) j x <-> live s j x).
  { intros j y. rewrite live_put. destruct (decide (i = j)) as [<-|]; [|done]. rewrite Hw. split; [done|].
    destruct Hi as (r1 & H1' & Hl1). intros (r2 & H2' & Hl2). rewrite H1' in H2'. injection H2' as <-. by rewrite (lw_lr _ _ Hl2) in Hl1. }
  split.
  - intros j kk' v Hj. by eapply Hb, Hl.
  - intros j kk' v Hj Hnone. eapply Hf; [by apply Hl|]. intros y w Hy. by eapply Hnone, Hl.
  - intros kk' Hwf Hnone. apply Hd; [done|]. intros y f w Hy. by eapply Hnone, Hl.
  - intros j kk' v Hj Hlv%Hl. by eapply Hdone.
  - intros j kk' [y Hy%seen_put] Hra. assert (Hk : (kk' = kk \/ reading s j kk')).
    { destruct (decide (i = j)); [rewrite Hr in Hy; left; congruence|right; by exists y]. }
    destruct (decide (kk' = kk)) as [->|Hne].
    + split; [intros z f w Hz; by eapply Hnl, Hl|]. intros z Hz%seen_put. destruct (decide (i = z)); [congruence|by eapply Hns].
    + destruct Hk as [|Hk]; [done|]. destruct (Hal j kk' Hk Hra) as [H1' H2']. split; [intros z f w Hz; by eapply H1', Hl|].
      intros z Hz%seen_put. destruct (decide (i = z)); [congruence|by eapply H2'].
  - intros j kk' ra a Hj%seen_put Hra Ho. destruct (decide (i = j)) as [<-|]; [|by eapply Han].
    rewrite Hr in Hj. injection Hj as <- ->. simpl in Hx. subst ra. by destruct Ho.
Qed.

(** The write [i] in flight, executed by the device, is dropped. *)
Lemma view_complete s i kk v V : live s i (kk, true, v) -> dev_val s kk = v ->
  (forall j w, j <> i -> ~ live s j (kk, true, w)) -> View s V -> View (drop_rq i s) V.
Proof.
  intros Hi Hdv Hno [Hb Hf Hd Hdone Hal Han]. split.
  - intros j kk' w Hj. apply live_drop in Hj as [_ Hj]. by apply (Hb j).
  - intros j kk' w [Hne Hj]%live_drop Hnone. apply (Hf j); [done|]. intros x y Hxy. apply (Hnone x y).
    apply live_drop. split; [|done]. intros ->. destruct Hi as (r1 & ? & ?), Hxy as (r2 & ? & ?). congruence.
  - intros kk' Hwf Hnone. destruct (decide (kk' = kk)) as [->|Hk].
    + change (dev_val (drop_rq i s) kk) with (dev_val s kk). rewrite Hdv. apply (Hf i); [done|].
      intros x y Hxy. apply (Hnone x false y). apply live_drop. split; [|done]. intros ->.
      destruct Hi as (r1 & ? & ?), Hxy as (r2 & ? & ?). congruence.
    + change (dev_val (drop_rq i s) kk') with (dev_val s kk'). apply Hd; [done|].
      intros x f y Hxy. apply (Hnone x f y). apply live_drop. split; [|done]. intros ->.
      destruct Hi as (r1 & ? & ?), Hxy as (r2 & ? & ?). congruence.
  - intros j kk' w Hj [Hne Hl]%live_drop. by apply (Hdone j).
  - intros j kk' [x Hx%seen_drop] Hra. destruct (Hal j kk' ltac:(eexists; eauto) Hra) as [H1' H2'].
    split; [intros y f w [_ Hy]%live_drop; by eapply H1'|intros y Hy%seen_drop; by eapply H2'].
  - intros j kk' ra a Hj%seen_drop Hra Ho. by eapply Han.
Qed.

(** The device executes a write of [kk]; no write of [kk] is live afterwards. *)
Lemma view_sync s s' kk v V : View s V ->
  (forall j kk' f w, kk' <> kk -> live s' j (kk', f, w) <-> live s j (kk', f, w)) ->
  (forall j f w, ~ live s' j (kk, f, w)) ->
  (forall kk', key_wf kk'.1 kk'.2 -> dev_val s' kk' = if decide (kk = kk') then v else dev_val s kk') ->
  (forall i kk' w, live s i (kk', true, w) -> key_wf kk'.1 kk'.2) ->
  (forall j x, seen s' j x -> seen s j x) -> (raced kk = false -> forall j, ~ reading s j kk) ->
  s_fifo s' = s_fifo s -> View s' (set_val kk v V).
Proof.
  intros [Hb Hf Hd Hdone Hal Han] Hoth Hno Hdev Hwfl Hs Hnr Hfifo. split.
  - intros j kk' w Hj. rewrite set_val_lookup. destruct (decide (kk = kk')) as [->|Hk]; [by destruct (Hno _ _ _ Hj)|].
    by apply (Hb j), Hoth.
  - intros j kk' w Hj Hnone. rewrite set_val_lookup. destruct (decide (kk = kk')) as [->|Hk]; [by destruct (Hno _ _ _ Hj)|].
    apply (Hf j); [by apply Hoth|]. intros x y Hxy. apply (Hnone x y). by apply Hoth.
  - intros kk' Hwf Hnone. rewrite set_val_lookup, Hdev by done. destruct (decide (kk = kk')) as [->|Hk]; [done|].
    apply Hd; [done|]. intros x f y Hxy. apply (Hnone x f y). by apply Hoth.
  - intros j kk' w Hj Hl. destruct (decide (kk = kk')) as [->|Hk]; [by destruct (Hno _ _ _ Hl)|].
    apply Hoth in Hl; [|done]. rewrite Hdev by eauto. rewrite decide_False by done.
    apply (Hdone j); [by rewrite <- Hfifo|done].
  - intros j kk' [x Hx%Hs] Hra. destruct (Hal j kk' ltac:(eexists; eauto) Hra) as [H1' H2']. split; [|intros y Hy%Hs; by eapply H2'].
    intros y f w Hy. destruct (decide (kk' = kk)) as [->|]; [by eapply Hno|by eapply H1', Hoth].
  - intros j kk' ra a Hj%Hs Hra Ho. rewrite Hfifo in Ho. rewrite set_val_lookup. destruct (decide (kk = kk')) as [->|]; [|by eapply Han].
    destruct (Hnr Hra j). by eexists.
Qed.

(** The device executes the request [i] in flight: a write of [kk]. *)
Lemma view_device s s' i kk v V : View s V -> (forall j x, live s' j x <-> live s j x) ->
  live s i (kk, true, v) -> (forall j w, j <> i -> ~ live s j (kk, true, w)) ->
  (forall kk', key_wf kk'.1 kk'.2 -> dev_val s' kk' = if decide (kk = kk') then v else dev_val s kk') ->
  (forall j kk' w, live s j (kk', true, w) -> key_wf kk'.1 kk'.2) ->
  (forall j x, seen s' j x -> seen s j x) ->
  (forall j, j ∈ fifo_contents (s_fifo s') -> j = i \/ j ∈ fifo_contents (s_fifo s)) -> View s' V.
Proof.
  intros [Hb Hf Hd Hdone Hal Han] Hl Hi Hno Hdev Hwfl Hs Hfifo. split.
  - intros j kk' w Hj. by apply (Hb j), Hl.
  - intros j kk' w Hj Hnone. apply (Hf j); [by apply Hl|]. intros x y Hxy. apply (Hnone x y). by apply Hl.
  - intros kk' Hwf Hnone. rewrite Hdev by done. destruct (decide (kk = kk')) as [->|Hk].
    + destruct (Hnone i true v). by apply Hl.
    + apply Hd; [done|]. intros x f y Hxy. apply (Hnone x f y). by apply Hl.
  - intros j kk' w Hj Hlv. apply Hl in Hlv. rewrite Hdev by eauto. destruct (decide (kk = kk')) as [->|Hk].
    + destruct (decide (j = i)) as [->|Hne]; [|by destruct (Hno j w)].
      destruct Hi as (r1 & ? & ?), Hlv as (r2 & ? & ?). congruence.
    + apply (Hdone j); [|done]. destruct (Hfifo j Hj) as [->|]; [|done].
      destruct Hi as (r1 & ? & ?), Hlv as (r2 & ? & ?). congruence.
  - intros j kk' [x Hx%Hs] Hra. destruct (Hal j kk' ltac:(eexists; eauto) Hra) as [H1' H2'].
    split; [intros y f w Hy; by eapply H1', Hl|intros y Hy%Hs; by eapply H2'].
  - intros j kk' ra a Hj%Hs Hra Ho. eapply Han; [done|done|]. destruct Ho as [|Hin]; [by left|]. destruct (Hfifo j Hin) as [->|]; [|by right].
    destruct Hi as (r1 & H1' & Hl1), Hj as (r2 & H2' & Hl2). rewrite H1' in H2'. injection H2' as <-. by rewrite (lw_lr _ _ Hl1) in Hl2.
Qed.

(** The device executes the get [i] in flight. *)
Lemma view_device_read s s' i r kk a V : View s V -> (forall j x, live s' j x <-> live s j x) ->
  s_heap s !! i = Some r -> lr r = Some (kk, Some (false, a)) -> key_wf kk.1 kk.2 ->
  (forall j x, j <> i -> seen s' j x -> seen s j x) ->
  (forall x, seen s' i x -> exists a', x = (kk, Some (false, a')) /\ answers a' (dev_val s kk)) ->
  (forall kk', dev_val s' kk' = dev_val s kk') ->
  (forall j, j ∈ fifo_contents (s_fifo s') -> j = i \/ j ∈ fifo_contents (s_fifo s)) -> View s' V.
Proof.
  intros [Hb Hf Hd Hdone Hal Han] Hl Hi Hr Hwf Hs Hsi Hdev Hfifo.
  assert (Hrd : reading s i kk) by (by exists (false, a), r). assert (Hsi' : forall j kk', reading s' j kk' -> reading s j kk').
  { intros j kk' [x Hx]. destruct (decide (j = i)) as [->|]; [|exists x; by apply Hs].
    destruct (Hsi _ Hx) as (a' & [= -> ->] & _). done. }
  split.
  - intros j kk' v Hj. by eapply Hb, Hl.
  - intros j kk' v Hj Hnone. eapply Hf; [by apply Hl|]. intros y w Hy. by eapply Hnone, Hl.
  - intros kk' Hwf' Hnone. rewrite Hdev. apply Hd; [done|]. intros y f w Hy. by eapply Hnone, Hl.
  - intros j kk' v Hj Hlv%Hl. rewrite Hdev. destruct (Hfifo j Hj) as [->|]; [|by eapply Hdone].
    destruct Hlv as (r2 & H2' & Hl2). rewrite Hi in H2'. injection H2' as <-. by rewrite (lw_lr _ _ Hl2) in Hr.
  - intros j kk' Hj%Hsi' Hra. destruct (Hal j kk' Hj Hra) as [H1' H2']. split; [intros y f w Hy; by eapply H1', Hl|].
    intros y Hy. destruct (decide (y = i)) as [->|]; [by destruct (Hsi _ Hy) as (? & ? & _)|by eapply H2', Hs].
  - intros j kk' ra a' Hj Hra Ho. destruct (decide (j = i)) as [->|Hne].
    + destruct (Hsi _ Hj) as (b & [= -> -> ->] & Hans). destruct (Hal i kk Hrd Hra) as [H1' _]. rewrite Hd; [done|done|]. apply H1'.
    + eapply Han; [by apply Hs|done|]. destruct Ho as [|Hin]; [by left|]. destruct (Hfifo j Hin); [done|by right].
Qed.

(** The get [i] in flight, executed by the device, becomes read-ahead data. *)
Lemma view_keep s i r r' kk a V : s_heap s !! i = Some r -> lr r = Some (kk, Some (false, a)) -> lw r' = None ->
  lr r' = Some (kk, Some (true, a)) -> (raced kk = false -> answers a (V !! kk)) ->
  View s V -> View (put_rq i r' s) V.
Proof.
  intros Hi Hr Hw' Hr' Hans [Hb Hf Hd Hdone Hal Han].
  assert (Hl : forall j x, live (put_rq i r' s) j x <-> live s j x).
  { intros j y. rewrite live_put. destruct (decide (i = j)) as [<-|]; [|done]. rewrite Hw'. split; [done|].
    intros (r2 & H2' & Hl2). rewrite Hi in H2'. injection H2' as <-. by rewrite (lw_lr _ _ Hl2) in Hr. }
  assert (Hrd : forall j kk', reading (put_rq i r' s) j kk' -> reading s j kk').
  { intros j kk' [x Hx%seen_put]. destruct (decide (i = j)) as [<-|]; [|by exists x]. rewrite Hr' in Hx. injection Hx as <- _.
    by exists (false, a), r. }
  split.
  - intros j kk' v Hj. by eapply Hb, Hl.
  - intros j kk' v Hj Hnone. eapply Hf; [by apply Hl|]. intros y w Hy. by eapply Hnone, Hl.
  - intros kk' Hwf' Hnone. apply Hd; [done|]. intros y f w Hy. by eapply Hnone, Hl.
  - intros j kk' v Hj Hlv%Hl. by eapply Hdone.
  - intros j kk' Hj%Hrd Hra. destruct (Hal j kk' Hj Hra) as [H1' H2']. split; [intros y f w Hy; by eapply H1', Hl|].
    intros y Hy%seen_put. destruct (decide (i = y)); [congruence|by eapply H2'].
  - intros j kk' ra a' Hj%seen_put Hra Ho. destruct (decide (i = j)) as [<-|]; [|by eapply Han].
    rewrite Hr' in Hj. injection Hj as <- <- <-. by apply Hans.
Qed.

(** ** At most one request of a key is in flight *)

Lemma flying_ok g s i r : Inv g s -> s_heap s !! i = Some r -> flying r = true ->
  in_ra r = false /\ fly_ok r /\ i ∈ flying_list g s.
Proof.
  intros HI Hi Hf. pose proof (inv_place _ _ _ HI i r Hi) as Hp. unfold place_ok in Hp. rewrite Hf in Hp.
  destruct (in_ra r); [|done]. destruct Hp as [[(_ & ? & _) _ _ _] _]. congruence.
Qed.

Lemma in_flight_ok g s i r : Inv g s -> i ∈ flying_list g s -> s_heap s !! i = Some r ->
  in_ra r = false /\ flying r = true /\ rq_base r /\ fly_ok r.
Proof.
  intros HI Hin Hi. destruct (inv_flying _ _ _ HI) as [_ Hfl]. destruct (Hfl i Hin) as (x & Hx & Hra & Hf).
  rewrite Hi in Hx. injection Hx as <-. split; [done|]. split; [done|]. split; [apply (inv_base _ _ _ HI i r Hi)|].
  by destruct (flying_ok g s i r HI Hi Hf) as (_ & ? & _).
Qed.

(** What the table holds for the key of a request in flight: the request itself
    or the one that waits for it. *)
Lemma flying_hashed g s i r : Inv g s -> g_orphan g = [] -> s_heap s !! i = Some r -> flying r = true ->
  exists j rj, s_heap s !! j = Some rj /\ rq_hash rj = Some (KV_RQ_HASH, rq_hash_key rj) /\ kid rj = kid r /\
    (j = i \/ (rq_blocking_rq rj = Some i /\ flying rj = false)).
Proof.
  intros HI Ho Hi Hf. destruct (flying_ok g s i r HI Hi Hf) as (_ & [_ Hh _ _ _] & _).
  destruct (blocking r) eqn:Hb; [|eauto 8].
  destruct (inv_blocking _ _ _ HI i r Hi Hb) as [Hin|(j & rj & Hj & Hjb)].
  { rewrite Ho in Hin. by apply elem_of_nil in Hin. }
  destruct (inv_pending _ _ _ HI j rj i Hj Hjb) as (x & Hx & _ & _ & Hk).
  rewrite Hi in Hx. injection Hx as <-.
  destruct (pending_buffered _ _ s j rj HI Hj (pending_of _ _ Hjb)) as (_ & Hfj & _ & _ & Hhj & _).
  exists j, rj. eauto 8.
Qed.

Lemma one_flying g s i j ri rj : Inv g s -> g_orphan g = [] -> s_heap s !! i = Some ri -> s_heap s !! j = Some rj ->
  flying ri = true -> flying rj = true -> kid ri = kid rj -> i = j.
Proof.
  intros HI Ho Hi Hj Hfi Hfj Hk.
  destruct (flying_hashed g s i ri HI Ho Hi Hfi) as (a & ra & Ha & Hha & Hka & Hwa).
  destruct (flying_hashed g s j rj HI Ho Hj Hfj) as (b & rb & Hb & Hhb & Hkb & Hwb).
  assert (a = b) as <- by (eapply (hi_uniq _ _ (inv_hash _ _ _ HI) KV_RQ_HASH _ _ a b ra rb); eauto; congruence).
  rewrite Ha in Hb. injection Hb as <-.
  destruct Hwa as [->|[Hwa Hf]], Hwb as [->|[Hwb Hf']]; congruence.
Qed.

Lemma live_flying_wf g s i kk f v : Inv g s -> live s i (kk, f, v) -> key_wf kk.1 kk.2.
Proof. intros HI (r & Hi & (<- & _)%lw_kid). apply (rb_key _ (inv_base _ _ _ HI i r Hi)). Qed.

Lemma live_fly_uniq g s i j kk v w : Inv g s -> g_orphan g = [] -> live s i (kk, true, v) -> live s j (kk, true, w) -> i = j.
Proof.
  intros HI Ho (ri & Hi & (Hki & Hfi & _)%lw_kid) (rj & Hj & (Hkj & Hfj & _)%lw_kid).
  eapply one_flying; eauto; congruence.
Qed.

(** ** What the device does with a command *)

Lemma key_len_inj a b : 0 <= a <= 16 -> 0 <= b <= 16 -> u8 (a - 1) = u8 (b - 1) -> a = b.
Proof.
  intros Ha Hb Heq. assert (Hp : forall x, 0 <= x <= 16 -> u8 (x - 1) = if x =? 0 then 255 else x - 1).
  { intros x Hx. destruct (Z.eqb_spec x 0) as [->|]; [done|]. apply wrap_small. lia. }
  rewrite !Hp in Heq by lia. destruct (Z.eqb_spec a 0), (Z.eqb_spec b 0); lia.
Qed.

Lemma dev_write_val d c klen data kk : is_write (c_opcode c) = true -> plain c data ->
  key_wf (c_key c) klen -> c_key_len c = u8 (klen - 1) -> key_wf kk.1 kk.2 ->
  dev_get (dev_exec d c (c_key c) data).1 kk.1 (u8 (kk.2 - 1)) =
  if decide ((c_key c, klen) = kk) then (if is_kv_store_cmd (c_opcode c) then Some data else None)
  else dev_get d kk.1 (u8 (kk.2 - 1)).
Proof.
  intros Hw Hp (_ & _ & Hk & _) Hl (_ & _ & Hkk & _).
  assert (Hiff : (kk.1, u8 (kk.2 - 1)) = (c_key c, c_key_len c) <-> (c_key c, klen) = kk).
  { rewrite Hl. destruct kk as [k n]. simpl in *. split; intros Heq; injection Heq as ? ?; subst; [|done].
    f_equal. by apply key_len_inj. }
  unfold is_write in Hw. destruct (is_kv_store_cmd (c_opcode c)) eqn:Hs.
  - destruct (dev_store d c data Hs Hp) as [_ ->]. by apply decide_ext.
  - destruct (dev_delete d c data Hw Hp) as [_ ->]. by apply decide_ext.
Qed.
End View.

(** ** Keys that become raced *)

Section Race.
  Context `{KernelHash} `{KvDevice} `{FifoOps Q} `{ReadLen}.
  Variable nr_cpus : Z.
  Local Abbreviation Inv := (Inv nr_cpus).
  Implicit Types s : driver Q.
  Implicit Types g : ghost.

(** [kk] counts as raced while a command of it is handled. *)
Definition racing (R : Raced) (kk : list Z * Z) : Raced := fun k => bool_decide (k = kk) || R k.

Lemma view_race (R : Raced) kk s V : View (R := R) s V -> View (R := racing R kk) s V.
Proof.
  intros [Hb Hf Hd Hdone Hal Han]. split; try done.
  - intros i k Hi Hr. apply (Hal i k Hi). unfold racing, raced in Hr. by apply orb_false_iff in Hr as [_ Hr].
  - intros i k ra a Hi Hr. apply (Han i k ra a Hi). unfold racing, raced in Hr. by apply orb_false_iff in Hr as [_ Hr].
Qed.

Lemma view_unrace (R : Raced) kk s V : (R kk = false -> forall i, ~ reading s i kk) ->
  View (R := racing R kk) s V -> View (R := R) s V.
Proof.
  intros Hno [Hb Hf Hd Hdone Hal Han].
  assert (Hk : forall i k, reading s i k -> R k = false -> racing R kk k = false).
  { intros i k Hi Hr. unfold racing. rewrite Hr, orb_false_r. apply bool_decide_eq_false. intros ->. by eapply Hno. }
  split; try done.
  - intros i k Hi Hr. apply (Hal i k Hi). by eapply Hk.
  - intros i k ra a Hi Hr. apply (Han i k ra a Hi). eapply Hk; [|done]. by exists (ra, a).
Qed.

(** A get of [kk] is in flight. *)
Definition is_flying_get (kk : list Z * Z) (r : kv_async_request) : bool :=
  flying r && is_kv_retrieve_cmd (c_opcode (rq_c r)) && bool_decide (kid r = kk).
Definition get_in_flight s (kk : list Z * Z) : bool := existsb (fun p => is_flying_get kk p.2) (map_to_list (s_heap s)).

Lemma get_in_flight_spec s kk : get_in_flight s kk = true <->
  exists i r, s_heap s !! i = Some r /\ flying r = true /\ is_kv_retrieve_cmd (c_opcode (rq_c r)) = true /\ kid r = kk.
Proof.
  unfold get_in_flight, is_flying_get. rewrite existsb_exists. split.
  - intros ((i & r) & Hin & Hb). apply list_elem_of_In, elem_of_map_to_list in Hin. simpl in Hb.
    apply andb_true_iff in Hb as [[Hf Hop]%andb_true_iff Hk%bool_decide_eq_true]. eauto 6.
  - intros (i & r & Hi & Hf & Hop & Hk). exists (i, r). split; [by apply list_elem_of_In, elem_of_map_to_list|]. simpl.
    rewrite Hf, Hop. by apply bool_decide_eq_true.
Qed.

(** A get that is being read is in flight or in the read-ahead table. *)
Lemma reading_cases g s i kk : Inv g s -> reading s i kk -> exists r, s_heap s !! i = Some r /\ kid r = kk /\
  is_kv_retrieve_cmd (c_opcode (rq_c r)) = true /\
  (flying r = true \/ in_ra r = true /\ rq_hash r = Some (KV_RA_HASH, rq_hash_key r)).
Proof.
  intros HI (x & r & Hi & Hr). exists r. split; [done|]. unfold lr in Hr.
  destruct (is_kv_retrieve_cmd (c_opcode (rq_c r))); [|done]. pose proof (inv_place _ _ _ HI i r Hi) as Hp. unfold place_ok in Hp.
  destruct (in_ra r); [|destruct (flying r); [|by destruct (invalid r)]].
  - injection Hr as Hk _. destruct Hp as [[_ Hh _ _] _]. split; [done|]. split; [done|]. by right.
  - injection Hr as Hk _. split; [done|]. split; [done|]. by left.
Qed.

Lemma flying_reading g s i r : Inv g s -> s_heap s !! i = Some r -> flying r = true ->
  is_kv_retrieve_cmd (c_opcode (rq_c r)) = true -> reading s i (kid r).
Proof.
  intros HI Hi Hf Hop. destruct (flying_ok _ g s i r HI Hi Hf) as (Hra & _). eexists _, r. split; [done|]. unfold lr. by rewrite Hop, Hra, Hf.
Qed.

Lemma hashed_reading g s i r k : Inv g s -> s_heap s !! i = Some r -> rq_hash r = Some (KV_RA_HASH, k) -> reading s i (kid r).
Proof.
  intros HI Hi Hh. destruct (inv_hashed _ g s i r _ _ HI Hi Hh) as (_ & Hra). pose proof (inv_place _ _ _ HI i r Hi) as Hp.
  unfold place_ok in Hp. rewrite Hra in Hp. destruct Hp as [[_ _ Hop _] _]. eexists _, r. split; [done|]. unfold lr. by rewrite Hop, Hra.
Qed.

Lemma not_reading_quiet g s i kk : Inv g s -> absent KV_RA_HASH kk s -> get_in_flight s kk = false -> ~ reading s i kk.
Proof.
  intros HI Ha Hg Hr. destruct (reading_cases g s i kk HI Hr) as (r & Hi & Hk & Hop & [Hf|[_ Hh]]); [|by eapply Ha].
  assert (get_in_flight s kk = true) by (apply get_in_flight_spec; eauto 6). congruence.
Qed.

Lemma not_reading_absent g s i kk : Inv g s -> g_orphan g = [] -> absent KV_RA_HASH kk s -> absent KV_RQ_HASH kk s -> ~ reading s i kk.
Proof.
  intros HI Ho Ha Hq Hr. destruct (reading_cases g s i kk HI Hr) as (r & Hi & Hk & Hop & [Hf|[_ Hh]]); [|by eapply Ha].
  destruct (flying_hashed _ g s i r HI Ho Hi Hf) as (j & rj & Hj & Hhj & Hkj & _). eapply Hq; [done|done|congruence].
Qed.

(** A key that is not raced and has a buffered request has no other one. *)
Lemma not_reading_buffered {R : Raced} g s V b rb j : Inv g s -> View s V -> s_heap s !! b = Some rb ->
  rq_hash rb = Some (KV_RQ_HASH, rq_hash_key rb) -> flying rb = false -> raced (kid rb) = false -> ~ reading s j (kid rb).
Proof.
  intros HI HV Hb Hh Hf Hr Hj. destruct (v_alone _ _ HV j _ Hj Hr) as [Hl Hs].
  destruct (inv_hashed _ g s b rb _ _ HI Hb Hh) as (_ & Hra & _ & Hinv & _).
  pose proof (rb_opcode _ (inv_base _ _ _ HI b rb Hb)) as Ho. destruct (is_write (c_opcode (rq_c rb))) eqn:Hw.
  - apply (Hl b false (wval rb)). exists rb. split; [done|]. unfold lw, buffered. by rewrite Hw, Hra, Hf, Hinv.
  - apply (Hs b). exists rb. split; [done|]. unfold lr. simpl in Ho. by rewrite Ho, Hra, Hf, Hinv.
Qed.

(** What the asynchronous handlers ask of the clients. *)
Definition quiet {R : Raced} s (kk : list Z * Z) : bool := raced kk || negb (get_in_flight s kk).

(** No get goes into flight, and those that are keep their answers. *)
Definition gets_kept s s' : Prop := forall i kk x, seen s' i (kk, Some x) -> seen s i (kk, Some x).

#[export] Instance gets_kept_preorder : PreOrder gets_kept.
Proof. split; [by intros s i kk|]. intros s1 s2 s3 K1 K2 i kk x Hi. by apply K1, K2. Qed.

Lemma gets_reading s s' i kk : gets_kept s s' -> reading s' i kk -> reading s i kk.
Proof. intros Hk [x Hx]. exists x. by apply Hk. Qed.

Lemma gets_core s s' : s_heap s' = s_heap s -> gets_kept s s'.
Proof. intros Hh i kk x. unfold seen. by rewrite Hh. Qed.

Lemma gets_put i r s : match lr r with Some (_, Some _) => False | _ => True end -> gets_kept s (put_rq i r s).
Proof. intros Hr j kk x Hj%seen_put. destruct (decide (i = j)); [|done]. by rewrite Hj in Hr. Qed.

Lemma quiet_kept {R : Raced} g s s' kk : Inv g s' -> gets_kept s s' -> quiet s kk = true -> quiet s' kk = true.
Proof.
  intros HI' Hk. unfold quiet. destruct (raced kk); [done|]. simpl. rewrite !negb_true_iff. intros Hq.
  destruct (get_in_flight s' kk) eqn:Hg; [|done]. apply get_in_flight_spec in Hg as (i & r' & Hi & Hf & Hop & <-).
  destruct (flying_ok _ g s' i r' HI' Hi Hf) as (Hra & _).
  destruct (Hk i (kid r') (false, (rq_cqe r', rq_req_errors r', default [] (rq_data_addr r')))) as (r & Hr & Hlr).
  { exists r'. split; [done|]. unfold lr. by rewrite Hop, Hra, Hf. }
  assert (get_in_flight s (kid r') = true); [|congruence]. apply get_in_flight_spec. exists i, r. unfold lr in Hlr.
  destruct (is_kv_retrieve_cmd (c_opcode (rq_c r))), (in_ra r), (flying r), (invalid r); try done; split_and!; congruence.
Qed.
End Race.
