(* ===== verification/KvDaemons.v ===== *)
(** * The daemons keep the invariant and the map

    The interrupt handler, the completion daemon, the scheduling daemon and the
    submission daemon of kv_iosched.c and kv_core.c, run in a state that
    satisfies the invariant: they do not fault, keep the invariant and leave
    the map the clients see unchanged. *)

From Stdlib Require Import ZArith Lia Bool.
From stdpp Require Import base list gmap.
From S2P Require Import Prelude KvFifo KvCmd KvState KvHash KvIosched KvInv KvExec KvHashSpec KvTrans KvView.

Section Completion.
  Context `{KernelHash} `{KvDevice} `{Fifo Q cap} `{ReadLen} {R : Raced}.
  Variable nr_cpus : Z.
  Local Abbreviation Inv := (Inv nr_cpus).
  Implicit Types s : driver Q.
  Implicit Types g : ghost.
  Implicit Types V : kvmap.
  (** The queues other threads carry. *)
  Variable carried : list positive.

(** The invariant and the map. *)
Definition Sim g s V : Prop := Inv g s /\ View s V.

(** What the other threads find unchanged after a daemon has run: no request
    appears, none enters the request table, and a queue they carry is as it was
    if it has no pending request. *)
Record kept s s' : Prop := {
  kept_rq i r' : s_heap s' !! i = Some r' -> exists r, s_heap s !! i = Some r /\ kid r' = kid r /\
    c_opcode (rq_c r') = c_opcode (rq_c r) /\ rq_data_length r' = rq_data_length r /\
    (hashed_in KV_RQ_HASH r' = true -> hashed_in KV_RQ_HASH r = true) /\
    (flying r = true -> flying r' = true \/ in_ra r' = true) /\ (in_ra r = true -> in_ra r' = true);
  kept_memq m q : m ∈ carried -> s_memqs s !! m = Some q -> mq_nr_pending q = 0 -> s_memqs s' !! m = Some q;
}.

#[export] Instance kept_preorder : PreOrder kept.
Proof.
  split.
  - intros s. split; eauto 10.
  - intros s1 s2 s3 [K1 M1] [K2 M2]. split; [|eauto].
    intros i r3 Hi. destruct (K2 i r3 Hi) as (r2 & Hi2 & ? & ? & ? & ? & Hf2 & ?).
    destruct (K1 i r2 Hi2) as (r1 & Hi1 & ? & ? & ? & ? & Hf1 & ?).
    exists r1. repeat split; try congruence; auto.
    intros Hf. destruct (Hf1 Hf); [auto|right; auto].
Qed.

Lemma kept_core s s' : s_heap s' = s_heap s -> s_memqs s' = s_memqs s -> kept s s'.
Proof. intros Hh Hm. split; rewrite ?Hh, ?Hm; [|done]. eauto 10. Qed.

(** What an interrupt or the completion daemon leaves alone: moreover no get
    goes into flight. *)
Record undisturbed s s' : Prop := {
  und_kept : kept s s';
  und_readers : readers_kept s s';
}.

#[export] Instance undisturbed_preorder : PreOrder undisturbed.
Proof. split; [by split|]. intros s1 s2 s3 [K1 R1] [K2 R2]. split; by transitivity s2. Qed.

Lemma und_core s s' : s_heap s' = s_heap s -> s_memqs s' = s_memqs s -> undisturbed s s'.
Proof. intros Hh Hm. split; [by apply kept_core|]. apply readers_seen. intros i x. unfold seen. by rewrite Hh. Qed.

Lemma searchable_put s i r r' : searchable s -> s_heap s !! i = Some r -> rq_hash r' = rq_hash r ->
  kid r' = kid r -> inline_wf r' -> searchable (put_rq i r' s).
Proof.
  intros [Hh Hw Hu] Hi Hhash Hk Hin. split.
  - by eapply HashInv_upd.
  - intros j rj h k Hj Hhj. simpl in Hj. apply lookup_insert_Some in Hj as [[<- <-]|[_ Hj]]; [|by eapply Hw].
    rewrite Hhash in Hhj. destruct (Hw i r h k Hi Hhj) as [_ ->]. split; [done|]. unfold kid in Hk. by injection Hk as -> ->.
  - by apply unlocked_put_rq.
Qed.

Lemma searchable_core s s' : s_heap s' = s_heap s -> s_rq_hash s' = s_rq_hash s -> s_ra_hash s' = s_ra_hash s ->
  searchable s -> searchable s'.
Proof.
  intros Hh Hrq Hra [Hi Hw Hu]. assert (Hg : forall h, get_hash h s' = get_hash h s) by (intros []; done).
  split; rewrite ?Hh; [|done|intros h; by rewrite Hg].
  eapply HashInv_ext; [|done]. intros h. unfold tables. by rewrite Hg.
Qed.

(** ** Releasing the waiter of a completed request *)

Lemma unblock_eq s r p rp b m q : searchable s -> rq_key_addr r = KeyInline -> key_wf (c_key (rq_c r)) (rq_key_length r) ->
  rq_hash_key r = get_hash_key (c_key (rq_c r)) (rq_key_length r) ->
  s_heap s !! p = Some rp -> rq_hash rp = Some (KV_RQ_HASH, rq_hash_key rp) -> kid rp = kid r ->
  rq_lock rp = false -> rq_refcount rp <> 0 ->
  rq_blocking_rq rp = Some b -> rq_memq rp = Some m -> s_memqs s !! m = Some q ->
  unblock_pending r s =
  Done tt (put_memq m (q <| mq_nr_pending ::= Z.add (-1) |>) (put_rq p (rp <| rq_blocking_rq := None |>) s)).
Proof.
  intros Hs Haddr Hwf Hhk Hp Hh Hk Hl Hr Hb Hmq Hm.
  assert (Hpres : forall i x, present KV_RQ_HASH (c_key (rq_c r)) (rq_key_length r) i x s -> i = p /\ x = rp).
  { intros i x (Hi & Hhi & Hki). assert (i = p) as ->; [|split; congruence].
    eapply (hi_uniq _ _ (se_hash _ Hs) KV_RQ_HASH _ _ i p x rp); eauto. by rewrite Hki, Hk. }
  unfold unblock_pending, rq_key. rewrite Haddr, Hhk.
  destruct (kv_hash_find_and_lock_pending_spec s KV_RQ_HASH _ _ Hs Hwf) as [(i & x & Hpx & Heq)|[Ha _]].
  - by intros i x [-> ->]%Hpres.
  - destruct (Hpres i x Hpx) as [-> ->]. run Heq.
    run (get_rq_eq _ p (held rp) (put_rq_lookup p (held rp) s)).
    change (rq_blocking_rq (held rp)) with (rq_blocking_rq rp). change (rq_memq (held rp)) with (rq_memq rp).
    rewrite Hb, Hmq. cbv iota.
    set (s1 := put_rq p (held rp) s). set (r1 := (held rp) <| rq_blocking_rq := None |>).
    assert (Hstep : (upd_rq p (fun r => r <| rq_blocking_rq := None |>) ;;
      upd_memq m (fun q => q <| mq_nr_pending ::= Z.add (-1) |>)) s1 =
      Done tt (put_memq m (q <| mq_nr_pending ::= Z.add (-1) |>) (put_rq p r1 s1))).
    { run (upd_rq_eq s1 p (held rp) _ (put_rq_lookup p (held rp) s)). unfold upd_memq. by rewrite (Hm : s_memqs (put_rq p _ s1) !! m = Some q). }
    run Hstep. subst s1 r1. rewrite put_rq_twice.
    rewrite !put_memq_put_rq.
    change ((held rp) <| rq_blocking_rq := None |>) with (held (rp <| rq_blocking_rq := None |>)).
    by apply put_held_put.
  - destruct (Ha p rp _ Hp Hh). by rewrite Hk.
Qed.

(** ** Completing a request *)

(** The request once it is out of the request table and its result is set. *)
Definition finished (r : kv_async_request) : kv_async_request :=
  r <| rq_hash := None |> <| rq_lock := true |> <| rq_state ::= set_bit KV_async_completed |>
    <| rq_errors := rq_req_errors r |>
    <| rq_result := if is_kv_retrieve_cmd (c_opcode (rq_c r)) then rq_cqe r else rq_data_length r |>.

(** What [complete_one] does with it. *)
Definition keep_readahead (i : positive) : M (driver Q) unit :=
  ra_rq <- kv_hash_insert_readahead KV_RA_HASH i ;;
  match ra_rq with
  | None => set_rq_bit KV_async_in_readahead i
  | Some a => z <- atomic_dec_and_test a ;; when z (spin_lock a ;; free_kv_async_rq a)
  end.

Definition complete_tail (i : positive) : M (driver Q) unit :=
  clear_rq_bit KV_async_inFlight_rq i ;;
  clear_rq_bit KV_async_flush_wakeup i ;;
  r <- get_rq i ;;
  when (bit KV_async_blocking_rq r)
    (clear_rq_bit KV_async_blocking_rq i ;; unblock_pending r) ;;
  upd_rq i (fun r => r <| rq_req := false |>) ;;
  r <- get_rq i ;;
  (if bit KV_async_in_readahead r then spin_unlock i else put_locked i) ;;
  modify (fun s => s <| s_nr_complete ::= Z.add 1 |>).

(** Out of the request table unless a waiter has taken its place. *)
Definition unhash_if (i : positive) (r : kv_async_request) s : driver Q :=
  if blocking r then s else unhash i r s.

Lemma unhash_core i r s s' : s_rq_hash s' = s_rq_hash s -> s_heap (unhash i r s') = s_heap s' /\
  s_rq_hash (unhash i r s') = s_rq_hash (unhash i r s).
Proof. intros Hh. split; [done|]. simpl. by rewrite Hh. Qed.

(** The states that differ only in what no other part of the model of the
    completion daemon reads. *)
Definition tweak (st : Z) (fl : gmap Z Z) s : driver Q := s <| s_state := st |> <| s_in_flight := fl |>.

(** The scheduler's state word after the writers have been woken. *)
Definition woken s : Z :=
  let st := clear_bit KV_iosched_congested (s_state s) in
  if h_nr_rq (s_rq_hash s) <? KV_PENDING_QUEU_LOW_WATERMARK then clear_bit KV_iosched_queue_full st else st.

Lemma complete_one_head s i r cpu : s_heap s !! i = Some r -> rq_cpu r = Some cpu -> unlocked s ->
  rq_lock r = false -> rq_req r = true ->
  rq_hash r = (if blocking r then None else Some (KV_RQ_HASH, rq_hash_key r)) ->
  complete_one i s =
    (when (is_kv_retrieve_cmd (c_opcode (rq_c r))) (keep_readahead i) ;; complete_tail i)
      (put_rq i (finished r) (tweak (woken (unhash_if i r s))
        (<[cpu := default 0 (s_in_flight s !! cpu) - 1]> (s_in_flight s)) (unhash_if i r s))).
Proof.
  intros Hi Hcpu Hu Hl Hreq Hh. unfold complete_one. run (get_rq_eq s i r Hi). unfold dec_in_flight. rewrite Hcpu.
  set (s1 := s <| s_in_flight ::= <[cpu := default 0 (s_in_flight s !! cpu) - 1]> |>).
  rewrite (bind_done _ _ _ tt s1) by reflexivity.
  set (s2 := s1 <| s_state ::= clear_bit KV_iosched_congested |>).
  rewrite (bind_done _ _ _ (test_bit KV_iosched_congested (s_state s1)) s2) by reflexivity.
  set (r0 := r <| rq_hash := None |>).
  assert (Hdel : exists z, kv_hash_delete KV_RQ_HASH i s2 = Done z (put_rq i r0 (unhash_if i r s2))).
  { unfold unhash_if. destruct (blocking r) eqn:Hb.
    - eexists. rewrite (kv_hash_delete_unhashed s2 KV_RQ_HASH i r) by done. f_equal. symmetry. apply put_rq_id.
      etransitivity; [exact Hi|]. subst r0. f_equal. destruct r. unfold upd. simpl in *. by subst.
    - eexists. rewrite (kv_hash_delete_spec s2 KV_RQ_HASH i r (rq_hash_key r)) by done. reflexivity. }
  destruct Hdel as [z Hdel]. run Hdel. clear Hdel z.
  set (s3 := put_rq i r0 (unhash_if i r s2)).
  set (st := woken (unhash_if i r s)).
  assert (Hlow : forall A (f : M (driver Q) A),
    (low <- gets (fun s => h_nr_rq (s_rq_hash s) <? KV_PENDING_QUEU_LOW_WATERMARK) ;;
     when low (test_and_clear_io_bit KV_iosched_queue_full ;; ret tt) ;; f) s3 = f (s3 <| s_state := st |>)).
  { intros A f. unfold gets, bind. subst st. unfold woken.
    replace (h_nr_rq (s_rq_hash s3)) with (h_nr_rq (s_rq_hash (unhash_if i r s)))
      by (unfold s3, s2, s1, unhash_if; by destruct (blocking r)).
    replace (s_state (unhash_if i r s)) with (s_state s) by (unfold unhash_if; by destruct (blocking r)).
    replace (clear_bit KV_iosched_congested (s_state s)) with (s_state s3)
      by (unfold s3, s2, s1, unhash_if; by destruct (blocking r)).
    destruct (_ <? KV_PENDING_QUEU_LOW_WATERMARK); reflexivity. }
  rewrite Hlow. clear Hlow.
  set (s4 := tweak st (<[cpu := default 0 (s_in_flight s !! cpu) - 1]> (s_in_flight s)) (unhash_if i r s)).
  replace (s3 <| s_state := st |>) with (put_rq i r0 s4) by (unfold s3, s4, s2, s1, unhash_if; by destruct (blocking r)).
  clearbody s4. clear s1 s2 s3.
  run (spin_lock_eq _ i r0 (put_rq_lookup i r0 s4) Hl). rewrite put_rq_twice.
  unfold set_rq_bit. run (upd_rq_eq _ i _ _ (put_rq_lookup i _ s4)). rewrite put_rq_twice.
  run (get_rq_eq _ i _ (put_rq_lookup i _ s4)). 
  match goal with |- context [negb (rq_req ?x)] => change (rq_req x) with (rq_req r) end. rewrite Hreq. cbn [negb].
  run (upd_rq_eq _ i _ _ (put_rq_lookup i _ s4)). rewrite put_rq_twice.
  subst r0. unfold finished.
  change (c_opcode (rq_c (r <| rq_hash := None |> <| rq_lock := true |> <| rq_state ::= set_bit KV_async_completed |>)))
    with (c_opcode (rq_c r)).
  destruct (is_kv_retrieve_cmd (c_opcode (rq_c r))) eqn:Hop.
  - run (upd_rq_eq _ i _ _ (put_rq_lookup i _ s4)). rewrite put_rq_twice. reflexivity.
  - run (upd_rq_eq _ i _ _ (put_rq_lookup i _ s4)). rewrite put_rq_twice. reflexivity.
Qed.

(** The completed read [r] as the read-ahead entry of its key. *)
Definition ra_entry (r : kv_async_request) : kv_async_request :=
  r <| rq_hash := Some (KV_RA_HASH, rq_hash_key r) |> <| rq_state ::= set_bit KV_async_in_readahead |>.

Lemma hash_ra_put i r r' s : hash_ra i r (put_rq i r' s) = put_rq i r' (hash_ra i r s).
Proof. reflexivity. Qed.

Lemma hash_ra_drop i r s : drop_rq i (hash_ra i r s) = hash_ra i r (drop_rq i s).
Proof. reflexivity. Qed.
Lemma hash_ra_key i r r' s : rq_hash_key r' = rq_hash_key r -> hash_ra i r' s = hash_ra i r s.
Proof. intros Hk. unfold hash_ra. by rewrite Hk. Qed.

Lemma keep_readahead_eq s i r : searchable s -> s_heap s !! i = Some r -> rq_hash r = None -> inline_wf r ->
  rq_hash_key r = get_hash_key (c_key (rq_c r)) (rq_key_length r) ->
  (forall b rb, present KV_RA_HASH (c_key (rq_c r)) (rq_key_length r) b rb s -> rq_refcount rb <> 0) ->
  (absent KV_RA_HASH (kid r) s /\ keep_readahead i s = Done tt (put_rq i (ra_entry r) (hash_ra i r s))) \/
  keep_readahead i s = Done tt s.
Proof.
  intros Hs Hi Hh Hin Hhk Href. unfold keep_readahead.
  destruct (kv_hash_insert_readahead_spec s KV_RA_HASH i r Hs Hi Hh Hin Hhk) as [[Ha Heq]|(b & rb & Hp & Hne & Heq)].
  - left. split; [done|]. run Heq. set (r1 := r <| rq_hash := Some (KV_RA_HASH, rq_hash_key r) |>).
    change (nr_add _ _ _) with (put_rq i r1 (hash_ra i r s)).
    unfold set_rq_bit. run (upd_rq_eq _ i r1 _ (put_rq_lookup i r1 (hash_ra i r s))). by rewrite put_rq_twice.
  - right. run Heq. pose proof (Href b rb Hp) as Hr. destruct Hp as (Hb & _).
    run (dec_and_test_eq _ b _ (put_rq_lookup b (rb <| rq_refcount ::= Z.add 1 |>) s)).
    match goal with |- context [?x =? 0] => destruct (Z.eqb_spec x 0) as [Hz|_] end; [simpl in Hz; lia|].
    cbn [when]. unfold ret. f_equal. unfold inc_ref. rewrite put_rq_twice. apply put_rq_id. rewrite Hb. f_equal.
    destruct rb. unfold upd. simpl. f_equal. lia.
Qed.

Definition landed (r : kv_async_request) : kv_async_request :=
  r <| rq_state ::= clear_bit KV_async_inFlight_rq |> <| rq_state ::= clear_bit KV_async_flush_wakeup |>.
Definition unblocked (r : kv_async_request) : kv_async_request :=
  if blocking r then r <| rq_state ::= clear_bit KV_async_blocking_rq |> else r.
(** The request when the daemon lets go of it. *)
Definition settled (r : kv_async_request) : kv_async_request :=
  (unblocked (landed r)) <| rq_req := false |> <| rq_lock := false |>.

Definition count_complete s : driver Q := s <| s_nr_complete ::= Z.add 1 |>.

Lemma blocking_landed r : blocking (landed r) = blocking r.
Proof. unfold blocking, landed, bit. simpl. by autorewrite with flags. Qed.

Lemma complete_tail_eq s s' i r : rq_lock r = true -> (in_ra r = false -> rq_refcount r = 1) ->
  (if blocking r then unblock_pending (landed r) (put_rq i (unblocked (landed r)) s) =
    Done tt (put_rq i (unblocked (landed r)) s') else s' = s) ->
  complete_tail i (put_rq i r s) =
  Done tt (count_complete (if in_ra r then put_rq i (settled r) s' else drop_rq i s')).
Proof.
  intros Hl Hr Hub. unfold complete_tail, clear_rq_bit.
  run (upd_rq_eq _ i r _ (put_rq_lookup i r s)). rewrite put_rq_twice.
  run (upd_rq_eq _ i _ _ (put_rq_lookup i _ s)). rewrite put_rq_twice. fold (landed r).
  run (get_rq_eq _ i _ (put_rq_lookup i (landed r) s)). fold (blocking (landed r)).
  rewrite (blocking_landed r).
  assert (Hblk : forall A (f : M (driver Q) A),
    (when (blocking r) (upd_rq i (fun r => r <| rq_state ::= clear_bit KV_async_blocking_rq |>) ;;
                        unblock_pending (landed r)) ;; f) (put_rq i (landed r) s) =
    f (put_rq i (unblocked (landed r)) s')).
  { intros A f. unfold unblocked in *. rewrite (blocking_landed r) in *. destruct (blocking r); cbn [when].
    - refine (bind_done _ _ _ tt _ _). run (upd_rq_eq _ i _ _ (put_rq_lookup i (landed r) s)).
      rewrite put_rq_twice. done.
    - by rewrite Hub. }
  rewrite Hblk. clear Hblk.
  run (upd_rq_eq _ i _ _ (put_rq_lookup i _ s')). rewrite put_rq_twice.
  run (get_rq_eq _ i _ (put_rq_lookup i _ s')).
  set (r2 := (unblocked (landed r)) <| rq_req := false |>).
  assert (Hra : bit KV_async_in_readahead r2 = in_ra r).
  { subst r2. unfold in_ra, unblocked, landed, blocking, bit. destruct (test_bit KV_async_blocking_rq _); simpl;
      by autorewrite with flags. }
  rewrite Hra. assert (Hl2 : rq_lock r2 = true) by (subst r2; unfold unblocked; by destruct (blocking (landed r))).
  assert (Hr2 : rq_refcount r2 = rq_refcount r) by (subst r2; unfold unblocked; by destruct (blocking (landed r))).
  destruct (in_ra r).
  - run (spin_unlock_eq _ i r2 (put_rq_lookup i r2 s') Hl2). rewrite put_rq_twice. reflexivity.
  - rewrite <- (drop_put_rq i r2). run (put_locked_free _ i r2 (put_rq_lookup i r2 s') Hl2 ltac:(rewrite Hr2; auto)).
    reflexivity.
Qed.

(** The request waiting for [i], and what releasing it does. *)
Definition waiter : Type := positive * kv_async_request * positive * kv_memqueue_struct.

Definition release (w : option waiter) s : driver Q :=
  match w with
  | None => s
  | Some (p, rp, m, q) =>
      put_memq m (q <| mq_nr_pending ::= Z.add (-1) |>) (put_rq p (rp <| rq_blocking_rq := None |>) s)
  end.

Definition waits_for (i : positive) s (w : waiter) : Prop :=
  let '(p, rp, m, q) := w in p <> i /\ s_heap s !! p = Some rp /\ rq_blocking_rq rp = Some i /\
  rq_hash rp = Some (KV_RQ_HASH, rq_hash_key rp) /\ rq_memq rp = Some m /\ s_memqs s !! m = Some q.

Definition waiter_of (i : positive) (r : kv_async_request) s (w : option waiter) : Prop :=
  if blocking r then exists x, w = Some x /\ waits_for i s x else w = None.

Lemma waiter_exists g s i r : Inv g s -> g_orphan g = [] -> s_heap s !! i = Some r -> flying r = true ->
  exists w, waiter_of i r s w.
Proof.
  intros HI Ho Hi Hf. unfold waiter_of. destruct (blocking r) eqn:Hb; [|eauto].
  destruct (inv_blocking _ _ _ HI i r Hi Hb) as [Hin|(p & rp & Hp & Hpb)].
  { rewrite Ho in Hin. by apply elem_of_nil in Hin. }
  destruct (pending_buffered _ _ s p rp HI Hp (pending_of _ _ Hpb)) as (_ & Hfp & _ & _ & Hh & m & q & Hm & Hq & _).
  exists (Some (p, rp, m, q)). eexists; split; [done|]. repeat split; try done. congruence.
Qed.

Lemma release_hash_ra w i r s : release w (hash_ra i r s) = hash_ra i r (release w s).
Proof. by destruct w as [[[[p rp] m] q]|]. Qed.

Lemma release_put w i r s : (forall x, w = Some x -> waits_for i s x) -> release w (put_rq i r s) = put_rq i r (release w s).
Proof.
  destruct w as [[[[p rp] m] q]|]; [|done]. intros Hw. destruct (Hw _ eq_refl) as (Hne & _).
  unfold release. by rewrite put_rq_comm, put_memq_put_rq.
Qed.

(** A waiter is not changed by what happens to other requests. *)
Lemma waits_for_frame i s s' x : (forall j, j <> i -> s_heap s' !! j = s_heap s !! j) -> s_memqs s' = s_memqs s ->
  waits_for i s x -> waits_for i s' x.
Proof. intros Hh Hm. destruct x as [[[p rp] m] q]. intros (Hne & ?). unfold waits_for. by rewrite Hh, Hm. Qed.

Lemma release_inv g i rU w s : Inv (g <| g_orphan := [i] |>) (put_rq i rU s) ->
  (forall x, w = Some x -> waits_for i s x) -> (w = None -> no_waiter i (put_rq i rU s)) ->
  Inv (g <| g_orphan := [i; i] |>) (put_rq i rU (release w s)) /\ no_waiter i (put_rq i rU (release w s)).
Proof.
  intros HI Hw Hn. rewrite <- release_put by done. destruct w as [[[[p rp] m] q]|].
  - destruct (Hw _ eq_refl) as (Hne & Hp & Hb & Hh & Hm & Hq). unfold release.
    assert (Hp' : s_heap (put_rq i rU s) !! p = Some rp) by by rewrite put_rq_lookup_ne.
    change (g <| g_orphan := [i; i] |>) with ((g <| g_orphan := [i] |>) <| g_orphan ::= cons i |>).
    by apply (inv_unblock nr_cpus).
  - split; [|by apply Hn]. apply (inv_orphans _ _ [i]); [done|]. intros b Hb. right. done.
Qed.

Lemma release_live w i s j x : (forall y, w = Some y -> waits_for i s y) -> live (release w s) j x <-> live s j x.
Proof.
  destruct w as [[[[p rp] m] q]|]; [|done]. intros Hw. destruct (Hw _ eq_refl) as (Hne & Hp & _).
  change (live (put_rq p (rp <| rq_blocking_rq := None |>) s) j x <-> live s j x). rewrite live_put.
  destruct (decide (p = j)) as [->|]; [|done]. change (lw _) with (lw rp). unfold live. rewrite Hp.
  split; [eauto|intros (? & ? & ?); by simplify_eq].
Qed.

Lemma release_seen w i s j x : (forall y, w = Some y -> waits_for i s y) -> seen (release w s) j x -> seen s j x.
Proof.
  destruct w as [[[[p rp] m] q]|]; [|done]. intros Hw. destruct (Hw _ eq_refl) as (Hne & Hp & _).
  change (seen (put_rq p (rp <| rq_blocking_rq := None |>) s) j x -> seen s j x). apply (seen_put_old p rp); [done|by left].
Qed.

Lemma release_kept w i g s : Inv g s -> (forall y, w = Some y -> waits_for i s y) -> kept s (release w s).
Proof.
  intros HI Hw. destruct w as [[[[p rp] m] q]|]; [|reflexivity]. destruct (Hw _ eq_refl) as (Hne & Hp & Hb & Hh & Hm & Hq).
  split.
  - intros j rj Hj. simpl in Hj. apply lookup_insert_Some in Hj as [[<- <-]|[? Hj]]; [|eauto 10].
    exists rp. split; [done|]. repeat split; auto.
  - intros m' q' _ Hm' Hz. simpl. rewrite lookup_insert_ne; [done|]. intros ->. rewrite Hm' in Hq. injection Hq as ->.
    destruct (pending_buffered _ _ s p rp HI Hp (pending_of _ _ Hb)) as (_ & _ & _ & _ & _ & m2 & q2 & ? & ? & Hin).
    simplify_eq. destruct (inv_memq _ _ _ HI _ _ Hm') as [_ _ _ Hc _]. rewrite Hz in Hc.
    assert (pending rp = false) as Hpd by (by eapply count_pending_zero). unfold pending in Hpd. by rewrite Hb in Hpd.
Qed.

Lemma release_lookup w i s j x : (forall y, w = Some y -> waits_for i s y) -> s_heap (release w s) !! j = Some x ->
  exists y, s_heap s !! j = Some y /\ rq_hash x = rq_hash y /\ kid x = kid y.
Proof.
  destruct w as [[[[p rp] m] q]|]; [|eauto]. intros Hw Hj. destruct (Hw _ eq_refl) as (_ & Hp & _).
  apply (put_rq_Some p (rp <| rq_blocking_rq := None |>) s) in Hj as [[<- <-]|[_ Hj]]; eauto.
Qed.

(** Running it. *)
Lemma release_eq g i r rU rr rr2 w s s2 : Inv g (put_rq i rU s) -> kid rU = kid rr ->
  blocking r = true -> waiter_of i r s w -> searchable (put_rq i rr2 s2) ->
  (forall j, j <> i -> s_heap s2 !! j = s_heap s !! j) -> s_memqs s2 = s_memqs s ->
  inline_wf rr -> rq_hash_key rr = get_hash_key (c_key (rq_c rr)) (rq_key_length rr) ->
  unblock_pending rr (put_rq i rr2 s2) = Done tt (put_rq i rr2 (release w s2)).
Proof.
  intros HI Hk Hb Hw Hs Hheap Hmq [Haddr Hwf] Hhk. unfold waiter_of in Hw. rewrite Hb in Hw.
  destruct Hw as (x & -> & Hx). pose proof (waits_for_frame i s s2 x Hheap Hmq Hx) as Hx2.
  rewrite <- release_put by (by intros ? [= ->]).
  destruct x as [[[p rp] m] q]. destruct Hx as (Hne & Hp & Hbp & _). destruct Hx2 as (_ & Hp2 & _ & Hh & Hm & Hq).
  assert (Hp1 : s_heap (put_rq i rU s) !! p = Some rp) by by rewrite put_rq_lookup_ne.
  destruct (inv_pending _ _ _ HI p rp i Hp1 Hbp) as (y & Hy & _ & _ & Hky). rewrite put_rq_lookup in Hy. injection Hy as <-.
  destruct (inv_base _ _ _ HI p rp Hp1). unfold release.
  apply (unblock_eq _ rr p rp i m q); try done; [by rewrite put_rq_lookup_ne|congruence|lia].
Qed.

(** A linked read-ahead entry leaves the tables searchable. *)
Lemma searchable_ra s i r r' : searchable s -> s_heap s !! i = Some r -> rq_hash r = None ->
  rq_hash_key r = get_hash_key (c_key (rq_c r)) (rq_key_length r) -> absent KV_RA_HASH (kid r) s ->
  rq_hash r' = Some (KV_RA_HASH, rq_hash_key r) -> kid r' = kid r -> inline_wf r' ->
  searchable (put_rq i r' (hash_ra i r s)).
Proof.
  intros [Hh Hw Hu] Hi Hn Hhk Ha Hh' Hk Hin. set (r1 := r <| rq_hash := Some (KV_RA_HASH, rq_hash_key r) |>). split.
  - simpl. rewrite <- (insert_insert_eq (s_heap s) i r' r1). eapply HashInv_upd; [apply lookup_insert_eq|done|done|].
    eapply HashInv_ext; [|by apply (HashInv_link (s_heap s) (tables s) i r KV_RA_HASH (rq_hash_key r))].
    intros h. by destruct h.
  - intros j rj h k Hj Hhj. simpl in Hj. apply lookup_insert_Some in Hj as [[<- <-]|[_ Hj]]; [|by eapply Hw].
    rewrite Hh' in Hhj. injection Hhj as <- <-. split; [done|]. rewrite Hhk. unfold kid in Hk. by injection Hk as -> ->.
  - intros h. specialize (Hu h). by destruct h.
Qed.

(** The entry the completion daemon leaves behind. *)
Definition readahead_of (r : kv_async_request) : kv_async_request := settled (ra_entry (finished r)).

Lemma readahead_hash_key r : rq_hash_key (readahead_of r) = rq_hash_key r.
Proof. unfold readahead_of, settled, unblocked. by destruct (blocking (landed (ra_entry (finished r)))). Qed.

Lemma readahead_of_ok r : rq_base r -> fly_ok r -> is_kv_retrieve_cmd (c_opcode (rq_c r)) = true ->
  rq_base (readahead_of r) /\ ra_ok (readahead_of r) /\ in_ra (readahead_of r) = true /\ kid (readahead_of r) = kid r.
Proof.
  intros [] [[Hc Hinv] _ Hpd _ _] Hop. unfold readahead_of, settled, unblocked. rewrite (blocking_landed (ra_entry (finished r))).
  assert (Hb : blocking (ra_entry (finished r)) = blocking r).
  { unfold blocking, ra_entry, finished, bit. simpl. by autorewrite with flags. }
  rewrite Hb. destruct (blocking r) eqn:Hblk; (split; [by split|]); (split; [split|split; [|done]]);
    unfold completed, flying, invalid, blocking, in_ra, bit, landed, ra_entry, finished in *; simpl; try done;
    autorewrite with flags; done.
Qed.

Lemma bits_finished r : in_ra (finished r) = in_ra r /\ blocking (finished r) = blocking r.
Proof. unfold in_ra, blocking, finished, bit. simpl. by autorewrite with flags. Qed.
Lemma bits_ra_entry r : in_ra (ra_entry r) = true /\ blocking (ra_entry r) = blocking r.
Proof. unfold in_ra, blocking, ra_entry, bit. simpl. by autorewrite with flags. Qed.
Lemma same_landed r : kid (landed r) = kid r /\ (inline_wf r -> inline_wf (landed r)) /\
  (inline_wf r -> inline_wf (unblocked (landed r))) /\ kid (unblocked (landed r)) = kid r /\
  rq_hash (unblocked (landed r)) = rq_hash r.
Proof. unfold unblocked. by destruct (blocking (landed r)). Qed.

Lemma put_drop_rq i r s : put_rq i r (drop_rq i s) = put_rq i r s.
Proof. unfold put_rq, drop_rq, upd. simpl. by rewrite insert_delete_eq. Qed.

(** The state [complete_one] leaves, without the bookkeeping of wake-ups: the
    waiter released and the request dropped, or kept as read-ahead data. *)
Definition completed_state (ra : bool) (i : positive) (r : kv_async_request) (w : option waiter) s : driver Q :=
  let s1 := release w (unhash_if i r s) in
  count_complete (if ra then put_rq i (readahead_of r) (hash_ra i r s1) else drop_rq i s1).

(** One completion: [rU] is [r] detached from the request table. *)
Section CompleteOne.
  Variables (g : ghost) (l : list positive) (s : driver Q) (i : positive) (r rU : kv_async_request).
  Variables (w : option waiter) (st : Z) (fl : gmap Z Z).
  Hypothesis HI : Inv (g <| g_own := i :: l |> <| g_orphan := [] |>) s.
  Hypothesis Hi : s_heap s !! i = Some r.
  Hypothesis Hw : waiter_of i r s w.
  Hypothesis HU : Inv (g <| g_own := i :: l |> <| g_orphan := [i] |>) (put_rq i rU (unhash_if i r s)).
  Hypothesis HhU : rq_hash rU = None.
  Hypothesis HkU : kid rU = kid r.

Lemma c1_flying : in_ra r = false /\ flying r = true /\ rq_base r /\ fly_ok r.
Proof.
  eapply in_flight_ok; [exact HI| |exact Hi]. left.
Qed.

Lemma c1_inline : inline_wf (finished r).
Proof. destruct c1_flying as (_ & _ & [] & _). by split. Qed.

Lemma c1_heap j : s_heap (unhash_if i r s) !! j = s_heap s !! j.
Proof. unfold unhash_if. by destruct (blocking r). Qed.

Lemma c1_waiter : waiter_of i r (unhash_if i r s) w.
Proof using Hw. generalize Hw. unfold waiter_of, unhash_if. by destruct (blocking r). Qed.

Lemma c1_searchable rr : rq_hash rr = None -> kid rr = kid r -> inline_wf rr ->
  searchable (put_rq i rr (tweak st fl (unhash_if i r s))).
Proof.
  intros Hrh Hrk Hin. rewrite <- (put_rq_twice i rU).
  eapply searchable_put; [|apply put_rq_lookup|congruence|congruence|done].
  eapply searchable_core; [..|eapply inv_searchable, HU]; done.
Qed.

(** The tail of [complete_one] on a state [s2] whose tables can be searched. *)
Lemma c1_tail s2 rr : searchable (put_rq i (unblocked (landed rr)) s2) ->
  (forall j, s_heap s2 !! j = s_heap s !! j) -> s_memqs s2 = s_memqs s ->
  kid rr = kid r -> inline_wf rr -> rq_hash_key rr = rq_hash_key r -> rq_lock rr = true -> rq_refcount rr = 1 ->
  blocking rr = blocking r ->
  complete_tail i (put_rq i rr s2) =
  Done tt (count_complete (if in_ra rr then put_rq i (settled rr) (release w s2) else drop_rq i (release w s2))).
Proof.
  intros Hs Hheap Hmq Hk Hin Hhk Hl Hr Hb. apply complete_tail_eq; [done|done|]. rewrite Hb.
  destruct (blocking r) eqn:Hblk.
  - destruct (same_landed rr) as (Hk1 & Hi1 & Hi2 & Hk2 & Hh2). destruct c1_flying as (_ & _ & [] & _).
    eapply (release_eq _ i r rU); [exact HU|by rewrite Hk1, HkU|done|apply c1_waiter|done| | |by apply Hi1|].
    + intros j _. by rewrite c1_heap.
    + rewrite Hmq. unfold unhash_if. by rewrite Hblk.
    + simpl. rewrite Hhk. unfold kid in Hk. injection Hk as -> ->. done.
  - unfold waiter_of in Hw. rewrite Hblk in Hw. by subst w.
Qed.

Lemma c1_drop : complete_tail i (put_rq i (finished r) (tweak st fl (unhash_if i r s))) =
  Done tt (tweak st fl (completed_state false i r w s)).
Proof.
  destruct (bits_finished r) as [Hfra Hfbl]. destruct c1_flying as (Hra & _ & [] & _).
  destruct (same_landed (finished r)) as (Hk1 & Hi1 & Hi2 & Hk2 & Hh2).
  rewrite c1_tail; try done.
  - rewrite Hfra, Hra. unfold completed_state. by destruct w as [[[[? ?] ?] ?]|].
  - apply c1_searchable; [done|by rewrite Hk2|by apply Hi2, c1_inline].
  - intros j. apply c1_heap.
  - unfold unhash_if. by destruct (blocking r).
Qed.

Lemma c1_keep : absent KV_RA_HASH (kid r) (put_rq i (finished r) (tweak st fl (unhash_if i r s))) ->
  complete_tail i (put_rq i (ra_entry (finished r)) (hash_ra i (finished r) (tweak st fl (unhash_if i r s)))) =
  Done tt (tweak st fl (completed_state true i r w s)).
Proof.
  intros Ha. set (rr := ra_entry (finished r)). destruct c1_flying as (Hra & _ & [] & _).
  destruct (bits_finished r) as [_ Hfbl]. destruct (bits_ra_entry (finished r)) as [Hera Hebl].
  destruct (same_landed rr) as (Hk1 & Hi1 & Hi2 & Hk2 & Hh2).
  assert (Hin : inline_wf rr) by by split.
  rewrite c1_tail; try done.
  - subst rr. rewrite Hera. unfold completed_state. rewrite release_hash_ra. by destruct w as [[[[? ?] ?] ?]|].
  - rewrite <- (put_rq_twice i (finished r)), <- (hash_ra_put i (finished r) (finished r)).
    apply (searchable_ra _ i (finished r)); [|apply put_rq_lookup|done|done|done| | |].
    + by apply c1_searchable, c1_inline.
    + by rewrite Hh2.
    + by rewrite Hk2.
    + by apply Hi2.
  - intros j. apply c1_heap.
  - unfold unhash_if. by destruct (blocking r).
  - by rewrite <- Hfbl, <- Hebl.
Qed.

Lemma c1_absent rr : kid rr = kid r -> rq_hash rr = None ->
  absent KV_RA_HASH (kid r) (put_rq i rr (tweak st fl (unhash_if i r s))) -> absent KV_RA_HASH (kid r) s.
Proof.
  intros Hk Hh Ha j rj k Hj Hhj. destruct (decide (j = i)) as [->|Hne].
  - rewrite Hi in Hj. injection Hj as <-. destruct c1_flying as (_ & _ & _ & [_ Hh' _ _ _]).
    rewrite Hh' in Hhj. by destruct (blocking r).
  - apply (Ha j rj k); [|done]. rewrite put_rq_lookup_ne by done. change (s_heap (tweak st fl ?x)) with (s_heap x).
    by rewrite c1_heap.
Qed.
End CompleteOne.

Lemma complete_one_eq g l s i r w : Inv (g <| g_own := i :: l |> <| g_orphan := [] |>) s -> s_heap s !! i = Some r ->
  waiter_of i r s w ->
  exists ra st fl, complete_one i s = Done tt (tweak st fl (completed_state ra i r w s)) /\
    (ra = true -> is_kv_retrieve_cmd (c_opcode (rq_c r)) = true /\ absent KV_RA_HASH (kid r) s).
Proof.
  intros HI Hi Hw. destruct (inv_detach _ g s i r l HI Hi) as (rU & HU & HbU & HhU & HkU).
  fold (unhash_if i r s) in HU. destruct (c1_flying g l s i r HI Hi) as (Hra & Hf & Hb & [_ Hh _ Hreq [cpu Hcpu]]).
  rewrite (complete_one_head s i r cpu) by (done || apply Hb || by eapply inv_unlocked).
  set (st := woken _). set (fl := <[cpu := _]> _).
  pose proof (c1_drop g l s i r rU w st fl HI Hi Hw HU HhU HkU) as Hdrop.
  destruct (is_kv_retrieve_cmd (c_opcode (rq_c r))) eqn:Hop; cbn [when]; [|by exists false, st, fl].
  set (sB := tweak st fl (unhash_if i r s)) in *.
  assert (Hin : inline_wf (finished r)) by by eapply c1_inline.
  destruct (keep_readahead_eq (put_rq i (finished r) sB) i (finished r)) as [[Ha Hkr]|Hkr]; try done.
  - eapply c1_searchable; done.
  - apply put_rq_lookup.
  - apply Hb.
  - intros b rb (Hbl & Hhb & _). simpl in Hbl. apply lookup_insert_Some in Hbl as [[<- <-]|[_ Hbl]]; [done|].
    change (s_heap sB) with (s_heap (unhash_if i r s)) in Hbl. rewrite c1_heap in Hbl.
    destruct (inv_base _ _ _ HI b rb Hbl). lia.
  - exists true, st, fl. split; [|intros _; split; [done|]; by apply (c1_absent g l s i r st fl HI Hi (finished r))].
    run Hkr. rewrite hash_ra_put, put_rq_twice. by eapply c1_keep.
  - exists false, st, fl. split; [|done]. by run Hkr.
Qed.

Lemma inv_count_complete g n s : Inv (g <| g_busy := n + 1 |>) s -> Inv (g <| g_busy := n |>) (count_complete s).
Proof.
  intros HI. eapply (inv_relocate _ _ _ s); try done; simpl; eauto.
  - apply (inv_memq _ _ _ HI).
  - apply (inv_queues _ _ _ HI).
  - apply (inv_fifo _ _ _ HI).
  - destruct (inv_fifo _ _ _ HI) as [_ ->]. simpl. lia.
  - apply (inv_lag _ _ _ HI).
Qed.

Lemma waiter_of_some i r s w x : waiter_of i r s w -> w = Some x -> waits_for i s x.
Proof. unfold waiter_of. destruct (blocking r); [|congruence]. intros (y & -> & Hy) Hx. by injection Hx as ->. Qed.

Lemma waiter_of_none g i r s w : Inv g s -> s_heap s !! i = Some r -> waiter_of i r s w -> w = None -> no_waiter i s.
Proof.
  unfold waiter_of. intros HI Hi Hw Hn j rj Hj Hjb. destruct (inv_pending _ _ _ HI j rj i Hj Hjb) as (x & Hx & _ & Hb & _).
  rewrite Hi in Hx. injection Hx as <-. rewrite Hb in Hw. destruct Hw as (x & -> & _). done.
Qed.

Lemma completed_inv g l n s i r w ra :
  Inv (g <| g_own := i :: l |> <| g_orphan := [] |> <| g_busy := n + 1 |>) s -> s_heap s !! i = Some r -> waiter_of i r s w ->
  (ra = true -> is_kv_retrieve_cmd (c_opcode (rq_c r)) = true /\ absent KV_RA_HASH (kid r) s) ->
  Inv (g <| g_own := l |> <| g_orphan := [] |> <| g_busy := n |>) (completed_state ra i r w s).
Proof.
  intros HI Hi Hw Hra. apply inv_count_complete. set (g1 := g <| g_busy := n + 1 |>).
  change (Inv (g1 <| g_own := i :: l |> <| g_orphan := [] |>) s) in HI.
  change (Inv (g1 <| g_own := l |> <| g_orphan := [] |>) (if ra then put_rq i (readahead_of r) (hash_ra i r (release w (unhash_if i r s)))
    else drop_rq i (release w (unhash_if i r s)))).
  destruct (inv_detach _ g1 s i r l HI Hi) as (rU & HU & HbU & HhU & HkU). fold (unhash_if i r s) in HU.
  destruct (c1_flying g1 l s i r HI Hi) as (Hra0 & Hf & Hb & Hfly).
  destruct (release_inv _ i rU w _ HU) as [HR Hno].
  { intros x Hx. eapply waiter_of_some; [|done]. by apply c1_waiter. }
  { intros Hn j rj Hj. apply put_rq_Some in Hj as [[<- <-]|[_ Hj]].
    - destruct (in_flight_ok _ _ _ i rU HU ltac:(left) (put_rq_lookup i rU _)) as (_ & _ & _ & [_ _ Hpd _ _]).
      unfold pending in Hpd. by destruct (rq_blocking_rq rU).
    - rewrite c1_heap in Hj. by apply (waiter_of_none _ i r s w HI Hi Hw Hn j rj). }
  pose proof (inv_drop_flying _ g1 _ [] l _ i rU HR (put_rq_lookup i rU _) HbU Hno) as HD.
  rewrite drop_put_rq in HD. assert (HD' : Inv (g1 <| g_own := l |> <| g_orphan := [] |>) (drop_rq i (release w (unhash_if i r s)))).
  { apply HD. intros b [->|[->|Hn]%elem_of_cons]%elem_of_cons; auto. }
  destruct ra; [|done]. destruct (Hra eq_refl) as [Hop Ha].
  destruct (readahead_of_ok r Hb Hfly Hop) as (Hb' & Hok & Hin & Hk).
  rewrite <- put_drop_rq, hash_ra_drop, <- (hash_ra_key i r (readahead_of r)) by apply readahead_hash_key.
  apply (inv_add_ra _ _ (drop_rq i (release w (unhash_if i r s))) i (readahead_of r)); try done.
  - apply lookup_delete_eq.
  - pose proof (inv_fresh _ _ _ HI i ltac:(eauto)) as Hlt. unfold release, unhash_if.
    by destruct w as [[[[? ?] ?] ?]|], (blocking r).
  - intros j x k [Hne Hj]%drop_rq_Some Hhx.
    destruct (release_lookup w i (unhash_if i r s) j x) as (y & Hy & Hhy & Hky); [|done|].
    { intros y Hy. eapply waiter_of_some; [|done]. by apply c1_waiter. }
    rewrite c1_heap in Hy. rewrite Hk, Hky. apply (Ha j y k); [done|congruence].
Qed.

Lemma lw_read r : is_write (c_opcode (rq_c r)) = false -> lw r = None.
Proof. intros Hw. unfold lw. by rewrite Hw. Qed.

Lemma retrieve_not_write op : is_kv_retrieve_cmd op = true -> is_write op = false.
Proof. unfold is_kv_retrieve_cmd, is_write. by intros ->%Z.eqb_eq. Qed.

(** A get in flight that becomes read-ahead data keeps its answer. *)
Lemma readahead_tags r : is_kv_retrieve_cmd (c_opcode (rq_c r)) = true -> flying r = true -> in_ra r = false ->
  let a := (rq_cqe r, rq_req_errors r, default [] (rq_data_addr r)) in
  lw (readahead_of r) = None /\ lr r = Some (kid r, Some (false, a)) /\ lr (readahead_of r) = Some (kid r, Some (true, a)).
Proof.
  intros Hop Hf Hra a. split; [|split].
  - apply lw_read, retrieve_not_write. unfold readahead_of, settled, unblocked. by destruct (blocking (landed (ra_entry (finished r)))).
  - unfold lr. by rewrite Hop, Hra, Hf.
  - assert (Hin : in_ra (readahead_of r) = true).
    { unfold readahead_of, settled, unblocked. destruct (blocking (landed (ra_entry (finished r)))); unfold in_ra, landed, ra_entry, bit; simpl;
        by autorewrite with flags. }
    unfold lr. rewrite Hin. unfold readahead_of, settled, unblocked.
    destruct (blocking (landed (ra_entry (finished r)))); simpl; by rewrite Hop.
Qed.

Lemma completed_view g l n s i r w ra V :
  Inv (g <| g_own := i :: l |> <| g_orphan := [] |> <| g_busy := n |>) s -> s_heap s !! i = Some r -> waiter_of i r s w ->
  (ra = true -> is_kv_retrieve_cmd (c_opcode (rq_c r)) = true) ->
  (forall kk v, live s i (kk, true, v) -> dev_val s kk = v) ->
  (forall kk a, seen s i (kk, Some (false, a)) -> raced kk = false -> answers a (V !! kk)) ->
  View s V -> View (completed_state ra i r w s) V.
Proof.
  intros HI Hi Hw Hra Hdone Hans HV. set (sR := release w (unhash_if i r s)).
  destruct (in_flight_ok _ _ s i r HI ltac:(left) Hi) as (Hnra & Hf & _ & _).
  assert (Hwx : forall x, w = Some x -> waits_for i (unhash_if i r s) x).
  { intros x Hx. eapply waiter_of_some; [|done]. by apply c1_waiter. }
  assert (Hlive : forall j x, live sR j x <-> live s j x).
  { intros j x. unfold sR. rewrite (release_live w i) by done. unfold live. by rewrite c1_heap. }
  assert (HR : View sR V).
  { apply (view_frame s); [done|done| | |]; [|unfold sR, release, unhash_if; destruct w as [[[[? ?] ?] ?]|], (blocking r); done..].
    intros j x Hj%(release_seen w i); [|done]. unfold seen in *. by rewrite c1_heap in Hj. }
  assert (HiR : s_heap sR !! i = Some r).
  { unfold sR. rewrite <- Hi, <- (c1_heap s i r i). destruct w as [[[[p rp] m] q]|]; [|done].
    destruct (Hwx _ eq_refl) as (Hne & _). by apply (put_rq_lookup_ne p i). }
  assert (HD : View (drop_rq i sR) V).
  { destruct (is_write (c_opcode (rq_c r))) eqn:Hwr; [|by apply (view_drop sR i r); [|apply lw_read|]].
    assert (Hl : live s i (kid r, true, wval r)) by (exists r; split; [done|]; unfold lw; by rewrite Hwr, Hf, orb_true_r).
    apply (view_complete sR i (kid r) (wval r)); [by apply Hlive| | |done].
    - rewrite <- (Hdone _ _ Hl). unfold sR, release, unhash_if. by destruct w as [[[[? ?] ?] ?]|], (blocking r).
    - intros j v Hne Hj%Hlive. apply Hne. eapply (live_fly_uniq _ _ s); [exact HI|done|exact Hj|exact Hl]. }
  unfold completed_state. fold sR. destruct ra; [|by eapply view_core; [..|exact HD]].
  destruct (readahead_tags r (Hra eq_refl) Hf Hnra) as (Hlw & Hlr & Hlr').
  apply (view_core (put_rq i (readahead_of r) sR)); [done|done|done|].
  eapply (view_keep sR i r); [done|exact Hlr|done|exact Hlr'| |done]. intros Hrc. eapply Hans; [|done]. by exists r.
Qed.

Lemma kept_drop i s : kept s (drop_rq i s).
Proof. split; [|done]. intros j r [_ Hj]%drop_rq_Some. eauto 10. Qed.

Lemma kept_unhash i r s : kept s (unhash_if i r s).
Proof. apply kept_core; unfold unhash_if; by destruct (blocking r). Qed.

Lemma completed_kept g l n s i r w ra :
  Inv (g <| g_own := i :: l |> <| g_orphan := [] |> <| g_busy := n |>) s -> s_heap s !! i = Some r -> waiter_of i r s w ->
  (ra = true -> is_kv_retrieve_cmd (c_opcode (rq_c r)) = true) -> kept s (completed_state ra i r w s).
Proof.
  intros HI Hi Hw Hra. destruct (in_flight_ok _ _ s i r HI ltac:(left) Hi) as (_ & Hf & Hb & Hfly).
  assert (Hk : kept s (release w (unhash_if i r s))).
  { transitivity (release w s).
    - eapply release_kept; [exact HI|]. intros x Hx. by eapply waiter_of_some.
    - apply kept_core; unfold unhash_if, release; by destruct (blocking r), w as [[[[? ?] ?] ?]|]. }
  unfold completed_state. destruct ra.
  2:{ etransitivity; [exact Hk|]. etransitivity; [apply (kept_drop i)|by apply kept_core]. }
  destruct (readahead_of_ok r Hb Hfly (Hra eq_refl)) as (_ & Hok & Hin & Hk').
  split; [|apply Hk]. intros j x Hj. apply (put_rq_Some i) in Hj as [[<- <-]|[_ Hj]]; [|by apply (kept_rq _ _ Hk)].
  exists r. split; [done|]. split; [done|]. destruct Hok as [_ Hh _ _].
  unfold hashed_in. rewrite Hh, Hin.
  split; [|split; [|by repeat split; auto]];
    unfold readahead_of, settled, unblocked; by destruct (blocking (landed (ra_entry (finished r)))).
Qed.

Lemma completed_readers g l n s i r w ra :
  Inv (g <| g_own := i :: l |> <| g_orphan := [] |> <| g_busy := n |>) s -> s_heap s !! i = Some r -> waiter_of i r s w ->
  (ra = true -> is_kv_retrieve_cmd (c_opcode (rq_c r)) = true) -> readers_kept s (completed_state ra i r w s).
Proof.
  intros HI Hi Hw Hra. destruct (in_flight_ok _ _ s i r HI ltac:(left) Hi) as (Hnra & Hf & _).
  assert (Hk : readers_kept s (release w (unhash_if i r s))).
  { apply readers_seen. intros j x Hj%(release_seen w i); [unfold seen in *; by rewrite c1_heap in Hj|].
    intros y Hy. eapply waiter_of_some; [|done]. by apply c1_waiter. }
  intros j kk [x Hx]. unfold completed_state in Hx. destruct ra.
  - destruct (readahead_tags r (Hra eq_refl) Hf Hnra) as (_ & Hlr & Hlr').
    change (seen (put_rq i (readahead_of r) (release w (unhash_if i r s))) j (kk, Some x)) in Hx. apply seen_put in Hx.
    destruct (decide (i = j)) as [<-|]; [|apply Hk; by exists x]. rewrite Hlr' in Hx. injection Hx as <- _. by eexists _, r.
  - change (seen (drop_rq i (release w (unhash_if i r s))) j (kk, Some x)) in Hx. apply seen_drop in Hx. apply Hk. by exists x.
Qed.

(** ** The completion daemon *)

Lemma complete_one_ok g l n s i V :
  Inv (g <| g_own := i :: l |> <| g_orphan := [] |> <| g_busy := n + 1 |>) s -> View s V ->
  (forall kk v, live s i (kk, true, v) -> dev_val s kk = v) ->
  (forall kk a, seen s i (kk, Some (false, a)) -> raced kk = false -> answers a (V !! kk)) ->
  exists s', complete_one i s = Done tt s' /\ Sim (g <| g_own := l |> <| g_orphan := [] |> <| g_busy := n |>) s' V /\
    undisturbed s s' /\ s_fifo s' = s_fifo s /\ s_dev_queue s' = s_dev_queue s.
Proof.
  intros HI HV Hdone Hans. destruct (inv_flying _ _ _ HI) as [_ Hfl]. destruct (Hfl i ltac:(left)) as (r & Hi & _ & Hf).
  destruct (waiter_exists _ s i r HI eq_refl Hi Hf) as [w Hw].
  assert (HI' : Inv ((g <| g_busy := n + 1 |>) <| g_own := i :: l |> <| g_orphan := [] |>) s) by exact HI.
  destruct (complete_one_eq _ l s i r w HI' Hi Hw) as (ra & st & fl & Heq & Hra).
  eexists. split; [exact Heq|]. split; [split|split; [|split]].
  - eapply inv_core; [|eapply completed_inv; [exact HI|exact Hi|exact Hw|exact Hra]]. by repeat split.
  - eapply view_core; [..|eapply (completed_view g l (n + 1) s i r w ra); try done; by intros [? _]%Hra]; done.
  - transitivity (completed_state ra i r w s); [|by apply und_core].
    split; [eapply (completed_kept g l (n + 1))|eapply (completed_readers g l (n + 1))]; try done; by intros [? _]%Hra.
  - unfold tweak, completed_state, release, unhash_if. by destruct ra, w as [[[[? ?] ?] ?]|], (blocking r).
  - unfold tweak, completed_state, release, unhash_if. by destruct ra, w as [[[[? ?] ?] ?]|], (blocking r).
Qed.

(** Between handlers: nobody is being displaced and every completion counted. *)
Definition settled_ghost g : Prop := g_orphan g = [] /\ g_busy g = 0.

Lemma sim_dequeue g s V i l q : Sim g s V -> g_busy g = 0 -> fifo_contents (s_fifo s) = i :: l ->
  fifo_ok q -> fifo_contents q = l ->
  Sim (g <| g_own ::= cons i |> <| g_busy := 1 |>) (s <| s_fifo := q |>) V /\
  (forall kk v, live s i (kk, true, v) -> dev_val s kk = v) /\
  (forall kk a, seen s i (kk, Some (false, a)) -> raced kk = false -> answers a (V !! kk)).
Proof.
  intros [HI HV] Hbusy Hc Hq Hl. split; [split|split].
  - eapply (inv_relocate _ g _ s); try done; simpl; eauto.
    + unfold flying_list. simpl. rewrite Hc, Hl. rewrite !app_assoc. apply Permutation_middle.
    + apply (inv_memq _ _ _ HI).
    + apply (inv_queues _ _ _ HI).
    + destruct (inv_fifo _ _ _ HI) as [_ ->]. rewrite Hc, Hl, Hbusy. simpl. lia.
    + apply (inv_lag _ _ _ HI).
  - apply (view_frame s); try done. simpl. intros j Hj. rewrite Hc. right. by rewrite <- Hl.
  - intros kk v. apply (v_done _ _ HV). rewrite Hc. left.
  - intros kk a Hs Hr. apply (v_answer _ _ HV i kk false a); [done|done|]. right. rewrite Hc. left.
Qed.

Lemma completion_loop_ok n : forall g s V, Sim g s V -> settled_ghost g ->
  (length (fifo_contents (s_fifo s)) < n)%nat ->
  exists s', completion_loop n s = Done tt s' /\ Sim g s' V /\ undisturbed s s' /\
    fifo_contents (s_fifo s') = [] /\ s_dev_queue s' = s_dev_queue s.
Proof.
  induction n as [|n IH]; intros g s V HS [Ho Hbusy] Hn; [lia|].
  destruct (inv_fifo _ _ _ (proj1 HS)) as [Hq Hcnt]. cbn [completion_loop].
  destruct (fifo_contents (s_fifo s)) as [|i l] eqn:Hc.
  - rewrite (bind_done _ _ _ None s).
    + exists s. rewrite (bind_done _ _ _ true s); [done|]. unfold gets. f_equal. rewrite Hcnt, Hbusy. simpl.
      apply Z.eqb_eq. lia.
    + rewrite fifo_dequeue_nil by done. f_equal. by destruct s.
  - destruct (fifo_dequeue_cons _ i l Hq Hc) as (q & Hdq & Hq' & Hc').
    rewrite (bind_done _ _ _ (Some i) (s <| s_fifo := q |>)) by (by rewrite Hdq).
    destruct (sim_dequeue g s V i l q HS Hbusy Hc Hq' Hc') as ([HI HV] & Hdone & Hans).
    assert (Hg : g <| g_own ::= cons i |> <| g_busy := 1 |> = g <| g_own := i :: g_own g |> <| g_orphan := [] |> <| g_busy := 0 + 1 |>)
      by (destruct g; simpl in *; by subst).
    rewrite Hg in HI. destruct (complete_one_ok _ _ 0 _ _ _ HI HV Hdone Hans) as (s1 & Hrun & HS1 & Hk1 & Hf1 & Hd1).
    replace (g <| g_own := g_own g |> <| g_orphan := [] |> <| g_busy := 0 |>) with g in HS1 by (destruct g; simpl in *; by subst).
    rewrite (bind_done _ _ _ _ _ Hrun). destruct (IH g s1 V HS1) as (s' & Hrun' & HS' & Hk' & Hf' & Hd'); [done| |].
    + rewrite Hf1. simpl. rewrite Hc'. simpl in Hn. lia.
    + exists s'. split; [done|]. split; [done|]. split; [|by rewrite Hd', Hd1].
      transitivity s1; [|done]. transitivity (s <| s_fifo := q |>); [by apply und_core|done].
Qed.

Lemma sim_core g s s' V : core_eq s s' -> s_dev s' = s_dev s -> Sim g s V -> Sim g s' V.
Proof.
  intros Hc Hd [HI HV]. split; [by eapply inv_core|]. unfold core_eq in Hc. destruct_and! Hc. by eapply view_core.
Qed.

(** Marking a work item as queued changes nothing. *)
Lemma QInv_submit c p sb memqs next t d d' : sb !! t = Some d -> sd_mumemq_list d' = sd_mumemq_list d ->
  QInv nr_cpus c p sb memqs next -> QInv nr_cpus c p (<[t := d']> sb) memqs next.
Proof.
  intros Ht Hl [Hloc Hu Hn Hc Ha Hd Hf Hr].
  assert (Hat : forall m l, at_loc c p (<[t := d']> sb) m l -> at_loc c p sb m l).
  { intros m [t' cpu|t'|]; simpl; try done. intros (x & Hx & Hm).
    apply lookup_insert_Some in Hx as [[<- <-]|[_ Hx]]; [exists d; by rewrite <- Hl|eauto]. }
  assert (Hta : forall m l, at_loc c p sb m l -> at_loc c p (<[t := d']> sb) m l).
  { intros m [t' cpu|t'|]; simpl; try done. intros (x & Hx & Hm). destruct (decide (t = t')) as [<-|Hne].
    - exists d'. rewrite lookup_insert_eq, Hl. by simplify_eq.
    - exists x. by rewrite lookup_insert_ne. }
  split; eauto.
  - intros t' x Hx. apply lookup_insert_Some in Hx as [[<- <-]|[_ Hx]]; [rewrite Hl|]; by eapply Hn.
  - intros t' Ht'. destruct (decide (t = t')) as [->|]; [rewrite lookup_insert_eq; eauto|].
    rewrite lookup_insert_ne by done. by apply Hd.
  - intros m Hm. destruct (Hr m Hm) as [l Hx]. eauto.
  - intros t' x Hx. apply lookup_insert_Some in Hx as [[<- <-]|[_ Hx]]; eauto.
Qed.

Lemma queue_submit_ok g s V t : Sim g s V -> 0 <= t < NR_DAEMON ->
  exists s', queue_submit_work t s = Done tt s' /\ Sim g s' V /\ undisturbed s s' /\ s_fifo s' = s_fifo s /\ s_dev_queue s' = s_dev_queue s.
Proof.
  intros [HI HV] Ht. destruct (qi_daemons _ _ _ _ _ _ (inv_queues _ _ _ HI) t Ht) as [d Hd].
  unfold queue_submit_work, upd_submitd. rewrite Hd. eexists. split; [done|].
  split; [split|split; [by apply und_core|done]]; [|by eapply view_core; [..|exact HV]].
  pose proof (inv_requeue _ g (g_memqs g) s (s_percpu_memq s) (<[t := d <| sd_queued := true |>]> (s_submit s)) HI) as HR.
  replace (g <| g_memqs := g_memqs g |>) with g in HR by by destruct g. apply HR; [apply (inv_lag _ _ _ HI)|].
  eapply QInv_submit; [done|done|apply (inv_queues _ _ _ HI)].
Qed.

Lemma wake_submit_ok g s V b t : Sim g s V -> 0 <= t < NR_DAEMON ->
  exists s', wake_submit b t s = Done tt s' /\ Sim g s' V /\ undisturbed s s' /\ s_fifo s' = s_fifo s /\ s_dev_queue s' = s_dev_queue s.
Proof.
  intros HS Ht. unfold wake_submit.
  rewrite (bind_done _ _ s (test_bit b (s_state s)) (s <| s_state ::= clear_bit b |>)) by reflexivity.
  assert (HS' : Sim g (s <| s_state ::= clear_bit b |>) V) by (eapply sim_core; [..|exact HS]; by repeat split).
  destruct (test_bit b (s_state s)); cbn [when].
  - destruct (queue_submit_ok _ _ V t HS' Ht) as (s' & Hrun & ? & Hk & ? & ?). exists s'. split; [done|]. split; [done|].
    split; [|done]. etransitivity; [|exact Hk]. by apply und_core.
  - eexists. split; [done|]. split; [done|]. split; [by apply und_core|done].
Qed.

(** The completion daemon empties the ring. *)
Lemma kv_completion_workfn_ok n g s V : Sim g s V -> settled_ghost g -> (length (fifo_contents (s_fifo s)) < n)%nat ->
  exists s', kv_completion_workfn n s = Done tt s' /\ Sim g s' V /\ undisturbed s s' /\
    fifo_contents (s_fifo s') = [] /\ s_dev_queue s' = s_dev_queue s.
Proof.
  intros HS Hg Hn. unfold kv_completion_workfn.
  destruct (completion_loop_ok n g s V HS Hg Hn) as (s0 & R0 & HS0 & K0 & F0 & D0). rewrite (bind_done _ _ _ _ _ R0).
  destruct (wake_submit_ok g s0 V KV_iosched_need_to_wake_read_submit_daemon READ_DAEMON HS0 ltac:(done)) as (s1 & R1 & HS1 & K1 & F1 & D1). rewrite (bind_done _ _ _ _ _ R1).
  destruct (wake_submit_ok g s1 V KV_iosched_need_to_wake_write_submit_daemon WRITE_DAEMON HS1 ltac:(done)) as (s2 & R2 & HS2 & K2 & F2 & D2). rewrite (bind_done _ _ _ _ _ R2).
  destruct (wake_submit_ok g s2 V KV_iosched_need_to_wake_multi_read_submit_daemon BATCH_READ_DAEMON HS2 ltac:(done)) as (s3 & R3 & HS3 & K3 & F3 & D3). rewrite (bind_done _ _ _ _ _ R3).
  destruct (wake_submit_ok g s3 V KV_iosched_need_to_wake_multi_write_submit_daemon BATCH_WRITE_DAEMON HS3 ltac:(done)) as (s4 & R4 & HS4 & K4 & F4 & D4).
  exists s4. split; [exact R4|]. split; [done|]. split; [by rewrite K0, K1, K2, K3|]. rewrite F4, F3, F2, F1. split; [done|congruence].
Qed.

(** ** The interrupt handler *)

(** The request with the answer of the device. *)
Definition answered (r : kv_async_request) (ans : dev_answer) : kv_async_request :=
  r <| rq_cqe := ans_result ans |> <| rq_req_errors := ans_errors ans |>
    <| rq_data_addr := if is_kv_retrieve_cmd (c_opcode (rq_c r))
         then (fun _ => ans_data ans) <$> rq_data_addr r else rq_data_addr r |>.

Definition exec_rq s (r : kv_async_request) : dev_state * dev_answer :=
  dev_exec (s_dev s) (rq_c r) (c_key (rq_c r)) (default [] (rq_data_addr r)).

Definition answer_state i r q s : driver Q :=
  s <| s_heap ::= <[i := answered r (exec_rq s r).2]> |> <| s_dev := (exec_rq s r).1 |>
    <| s_dev_queue ::= filter (fun j => j <> i) |> <| s_fifo := q |> <| s_nr_interrupt ::= Z.add 1 |> <| s_complete_queued := true |>.

Lemma device_complete_eq s i r q : s_heap s !! i = Some r -> rq_base r ->
  fifo_enqueue (s_fifo s) i = (true, q) -> device_complete i s = Done tt (answer_state i r q s).
Proof.
  intros Hi Hb Hq. unfold device_complete. run (get_rq_eq s i r Hi).
  assert (Hkey : device_key (rq_c r) (rq_key r) (rq_key_length r) = c_key (rq_c r)).
  { unfold device_key, rq_key. rewrite (rb_inline _ Hb). by destruct (KVCMD_INLINE_KEY_MAX <? rq_key_length r). }
  rewrite Hkey. unfold bind at 1. unfold answer_state, answered, exec_rq.
  destruct (dev_exec (s_dev s) (rq_c r) (c_key (rq_c r)) (default [] (rq_data_addr r))) as [d ans].
  unfold kv_end_io_async_rq, bind. simpl. by rewrite Hq.
Qed.

Lemma rq_plain r : rq_base r -> plain (rq_c r) (default [] (rq_data_addr r)).
Proof.
  intros []. destruct rb_plain. split; [done|]. split; [done|]. rewrite rb_sized.
  by destruct (rq_data_addr r) as [d|]; [destruct rb_data|].
Qed.

Lemma answered_base r s : rq_base r -> rq_base (answered r (exec_rq s r).2).
Proof.
  intros Hb. pose proof (rq_plain r Hb) as Hp. destruct Hb. split; try done.
  simpl. destruct (is_kv_retrieve_cmd (c_opcode (rq_c r))) eqn:Hop; [|done].
  destruct (dev_retrieve (s_dev s) (rq_c r) _ Hop Hp) as (_ & Hlen & _).
  unfold exec_rq. destruct (rq_data_addr r) as [d|]; [|done]. simpl in *.
  rewrite Hlen. destruct rb_data as [? Hne]. split; [done|].
  intros Hn. rewrite Hn in Hlen. by destruct d.
Qed.

Lemma inv_answer g s i r q : Inv g s -> s_heap s !! i = Some r -> i ∈ s_dev_queue s -> fifo_ok q ->
  fifo_contents q = fifo_contents (s_fifo s) ++ [i] -> Inv g (answer_state i r q s).
Proof.
  intros HI Hi Hin Hq Hc. assert (Hfl : i ∈ flying_list g s) by (unfold flying_list; rewrite !elem_of_app; auto).
  destruct (in_flight_ok _ g s i r HI Hfl Hi) as (Hra & Hf & Hb & Hfly).
  assert (HP : Inv g (put_rq i (answered r (exec_rq s r).2) s)).
  { eapply inv_same_shape; [done|done|done|by apply answered_base|].
    unfold place_ok. change (in_ra (answered _ _)) with (in_ra r). change (flying (answered _ _)) with (flying r).
    rewrite Hra, Hf. split; [|done]. by destruct Hfly. }
  assert (Hnd : NoDup (s_dev_queue s)).
  { destruct (inv_flying _ _ _ HI) as [Hnd _]. apply NoDup_app in Hnd as (_ & _ & Hnd). by apply NoDup_app in Hnd as (? & _). }
  eapply (inv_relocate _ g g _ _ HP); try done; simpl; eauto.
  - unfold flying_list. simpl. rewrite Hc. apply Permutation_app_head.
    rewrite (filter_once_perm i (s_dev_queue s)) at 2 by done. rewrite app_assoc.
    by rewrite (Permutation_app_comm (_ ++ _) [i]).
  - apply (inv_memq _ _ _ HP).
  - apply (inv_queues _ _ _ HI).
  - rewrite Hc, length_app. destruct (inv_fifo _ _ _ HI) as [_ ->]. simpl. lia.
  - apply (inv_lag _ _ _ HI).
Qed.

Lemma read_not_retrieve r : rq_base r -> is_write (c_opcode (rq_c r)) = false -> is_kv_retrieve_cmd (c_opcode (rq_c r)) = true.
Proof. intros Hb Hw. pose proof (rb_opcode _ Hb) as Ho. by rewrite Hw in Ho. Qed.

Lemma write_not_retrieve op : is_write op = true -> is_kv_retrieve_cmd op = false.
Proof. intros Hw. destruct (is_kv_retrieve_cmd op) eqn:Hr; [|done]. by rewrite retrieve_not_write in Hw. Qed.

Lemma lw_answered r ans : lw (answered r ans) = lw r.
Proof.
  unfold lw. change (c_opcode (rq_c (answered r ans))) with (c_opcode (rq_c r)).
  destruct (is_write (c_opcode (rq_c r))) eqn:Hw; [|done].
  change (buffered (answered r ans)) with (buffered r). change (flying (answered r ans)) with (flying r).
  change (kid (answered r ans)) with (kid r). unfold wval. simpl.
  assert (is_kv_retrieve_cmd (c_opcode (rq_c r)) = false) as ->; [|done].
  destruct (is_kv_retrieve_cmd (c_opcode (rq_c r))) eqn:Hr; [|done]. by rewrite retrieve_not_write in Hw.
Qed.

Lemma lr_answered r ans : is_kv_retrieve_cmd (c_opcode (rq_c r)) = true -> flying r = true -> in_ra r = false ->
  lr (answered r ans) = Some (kid r, Some (false, (ans_result ans, ans_errors ans, default [] ((fun _ => ans_data ans) <$> rq_data_addr r)))).
Proof.
  intros Hop Hf Hra. unfold lr. change (in_ra (answered r ans)) with (in_ra r). change (flying (answered r ans)) with (flying r).
  rewrite Hra, Hf. simpl. by rewrite Hop.
Qed.

(** What the device answers to a get in flight. *)
Lemma device_answers s r : rq_base r -> is_kv_retrieve_cmd (c_opcode (rq_c r)) = true ->
  let ans := (exec_rq s r).2 in
  answers (ans_result ans, ans_errors ans, default [] ((fun _ => ans_data ans) <$> rq_data_addr r)) (dev_val s (kid r)).
Proof.
  intros Hb Hop ans. destruct (dev_retrieve (s_dev s) (rq_c r) _ Hop (rq_plain r Hb)) as (_ & Hlen & Hans).
  fold (exec_rq s r) in Hlen, Hans. fold ans in Hlen, Hans. unfold dev_val, kid. simpl. rewrite <- (rb_key_len _ Hb).
  unfold answers. destruct (dev_get _ _ _) as [v|]; [|done]. destruct Hans as (He & Hr & Hd). simpl. split; [done|]. split; [done|].
  destruct (rq_data_addr r) as [d|]; simpl in *; [|apply prefix_nil]. rewrite Hlen, Hd. by apply prefix_app_r.
Qed.

Lemma view_answer g s i r q V : Inv g s -> g_orphan g = [] -> s_heap s !! i = Some r -> i ∈ s_dev_queue s ->
  fifo_contents q = fifo_contents (s_fifo s) ++ [i] -> View s V -> View (answer_state i r q s) V.
Proof.
  intros HI Ho Hi Hin Hc HV. assert (Hfl : i ∈ flying_list g s) by (unfold flying_list; rewrite !elem_of_app; auto).
  destruct (in_flight_ok _ g s i r HI Hfl Hi) as (Hra & Hf & Hb & Hfly). pose proof (rq_plain r Hb) as Hp.
  assert (Hlive : forall j x, live (answer_state i r q s) j x <-> live s j x).
  { intros j x. change (live (put_rq i (answered r (exec_rq s r).2) s) j x <-> live s j x). rewrite live_put, lw_answered.
    destruct (decide (i = j)) as [->|]; [|done]. unfold live. rewrite Hi. split; [eauto|intros (? & ? & ?); by simplify_eq]. }
  destruct (is_write (c_opcode (rq_c r))) eqn:Hw.
  - assert (Hl : live s i (kid r, true, wval r)) by (exists r; split; [done|]; unfold lw; by rewrite Hw, Hf, orb_true_r).
    eapply (view_device s _ i (kid r) (wval r)); try done.
    + intros j w Hne Hj. apply Hne. by eapply (live_fly_uniq _ g s).
    + intros kk Hkk. destruct Hb. by apply dev_write_val.
    + intros j kk w Hj. by eapply live_flying_wf.
    + apply (seen_put_old i r (answered r (exec_rq s r).2) s Hi). right. unfold lr. simpl. by rewrite (write_not_retrieve _ Hw).
    + simpl. intros j. rewrite Hc, elem_of_app, list_elem_of_singleton. tauto.
  - pose proof (read_not_retrieve r Hb Hw) as Hop. eapply (view_device_read s _ i r (kid r)); try done.
    + unfold lr. by rewrite Hop, Hra, Hf.
    + apply (rb_key _ Hb).
    + intros j x Hne Hj. change (seen (put_rq i (answered r (exec_rq s r).2) s) j x) in Hj. apply seen_put in Hj. by rewrite decide_False in Hj.
    + intros x Hx. change (seen (put_rq i (answered r (exec_rq s r).2) s) i x) in Hx. apply seen_put in Hx. rewrite decide_True in Hx by done.
      rewrite lr_answered in Hx by done. injection Hx as <-. eexists. split; [done|]. by apply device_answers.
    + intros kk. destruct (dev_retrieve (s_dev s) (rq_c r) _ Hop Hp) as [Hg _]. apply Hg.
    + simpl. intros j. rewrite Hc, elem_of_app, list_elem_of_singleton. tauto.
Qed.

Lemma device_complete_ok g s V i : Sim g s V -> settled_ghost g -> i ∈ s_dev_queue s ->
  Z.of_nat (length (fifo_contents (s_fifo s))) < cap ->
  exists s', device_complete i s = Done tt s' /\ Sim g s' V /\ undisturbed s s' /\
    fifo_contents (s_fifo s') = fifo_contents (s_fifo s) ++ [i] /\
    s_dev_queue s' = filter (fun j => j <> i) (s_dev_queue s).
Proof.
  intros [HI HV] [Ho _] Hin Hroom. destruct (inv_fifo _ _ _ HI) as [Hq _].
  destruct (fifo_enqueue_room _ i Hq Hroom) as (q & Heq & Hq' & Hc).
  destruct (inv_flying _ _ _ HI) as [_ Hfl]. destruct (Hfl i) as (r & Hi & _).
  { unfold flying_list. rewrite !elem_of_app. auto. }
  exists (answer_state i r q s). split; [apply device_complete_eq; [done|by eapply inv_base|done]|].
  split; [split; [by apply inv_answer|by eapply view_answer]|]. split; [|done].
  split; [split; [|done]|].
  - intros j x Hj. apply (put_rq_Some i) in Hj as [[<- <-]|[_ Hj]]; [|eauto 10]. exists r. repeat split; auto.
  - intros j kk [x Hx]. change (seen (put_rq i (answered r (exec_rq s r).2) s) j (kk, Some x)) in Hx. apply seen_put in Hx.
    destruct (decide (i = j)) as [<-|]; [|by exists x].
    destruct (in_flight_ok _ g s i r HI) as (Hra & Hf & _); [unfold flying_list; rewrite !elem_of_app; auto|done|].
    destruct (is_kv_retrieve_cmd (c_opcode (rq_c r))) eqn:Hop; [|unfold lr in Hx; simpl in Hx; by rewrite Hop in Hx].
    rewrite lr_answered in Hx by done. injection Hx as <- _. eexists _, r. split; [done|]. unfold lr. by rewrite Hop, Hra, Hf.
Qed.
End Completion.
