(* ===== verification/KvSubmit.v ===== *)
(** * Scheduling and submission

    The scheduling daemon ([kv_scheduling_workfn]) and the submission daemon
    ([kv_submission_workfn] with [__nvme_submit_iosched_kv_cmd]) run without a
    fault, keep the invariant and leave the clients' map unchanged.  Most of
    the work is about who holds a memory queue: an active or reserved slot of a
    CPU, the list of a daemon, or a daemon that carries it. *)

From Stdlib Require Import ZArith Lia Bool.
From stdpp Require Import base list gmap.
From S2P Require Import Prelude KvFifo KvCmd KvState KvHash KvIosched KvInv KvExec KvHashSpec KvTrans KvView KvDaemons.

(** ** Passing queues around *)

Section Passing.
  Variable nr_cpus : Z.
  Local Abbreviation QInv := (QInv nr_cpus).
  Implicit Types (c : list positive) (p : gmap (Z * Z) positive) (sb : gmap Z kv_work_struct).

(** An active queue is taken and the reserved one takes its place. *)
Lemma q_swap c p sb memqs next t u cpu m m2 : QInv c p sb memqs next -> t <> u ->
  p !! (t, cpu) = Some m -> p !! (u, cpu) = Some m2 -> u <> ACTIVE_READ -> u <> ACTIVE_WRITE ->
  QInv (m :: c) (<[(t, cpu) := m2]> (delete (u, cpu) p)) sb memqs next.
Proof.
  intros [Hl Hu Hn Hc Ha Hd Hf Hr Hsl Hty] Htu Hm Hm2 Hu1 Hu2.
  assert (Hne : m <> m2).
  { intros <-. pose proof (Hu m (LPercpu t cpu) (LPercpu u cpu) Hm Hm2). congruence. }
  assert (Hat : forall x l, at_loc (m :: c) (<[(t, cpu) := m2]> (delete (u, cpu) p)) sb x l ->
    exists l0, at_loc c p sb x l0 /\ (l = if decide (l0 = LPercpu t cpu) then LCarried
      else if decide (l0 = LPercpu u cpu) then LPercpu t cpu else l0)).
  { intros x [t' cpu'|t'|] Hx; simpl in Hx.
    - apply lookup_insert_Some in Hx as [[[= <- <-] <-]|[Hk Hx]].
      + exists (LPercpu u cpu). split; [done|]. rewrite decide_False, decide_True by congruence. done.
      + apply lookup_delete_Some in Hx as [Hk' Hx]. exists (LPercpu t' cpu'). split; [done|].
        by rewrite !decide_False by congruence.
    - exists (LDaemon t'). split; [done|]. by rewrite !decide_False by congruence.
    - apply elem_of_cons in Hx as [->|Hx]; [exists (LPercpu t cpu); split; [done|]; by rewrite decide_True|].
      exists LCarried. split; [done|]. by rewrite !decide_False by congruence. }
  split; try done.
  - intros x l (l0 & Hl0 & _)%Hat. by eapply Hl.
  - intros x l1 l2 (k1 & H1 & ->)%Hat (k2 & H2 & ->)%Hat. by rewrite (Hu x k1 k2 H1 H2).
  - constructor; [|done]. intros Hin. pose proof (Hu m LCarried (LPercpu t cpu) Hin Hm). done.
  - intros t' cpu' Ht' Hcpu. destruct (decide ((t, cpu) = (t', cpu'))) as [<-|Hk]; [rewrite lookup_insert_eq; eauto|].
    rewrite lookup_insert_ne, lookup_delete_ne by (try done; intros [=]; destruct Ht'; congruence). by apply Ha.
  - intros x Hx. destruct (Hr x Hx) as [l Hat']. destruct l as [t' cpu'|t'|]; [|by exists (LDaemon t')|exists LCarried; by right].
    destruct (decide ((t', cpu') = (t, cpu))) as [[= -> ->]|Hk1]; [exists LCarried; simpl in Hat'; simplify_eq; left|].
    destruct (decide ((t', cpu') = (u, cpu))) as [[= -> ->]|Hk2].
    + exists (LPercpu t cpu). simpl in *. rewrite lookup_insert_eq. congruence.
    + exists (LPercpu t' cpu'). simpl in *. by rewrite lookup_insert_ne, lookup_delete_ne by congruence.
  - intros k x Hk. apply lookup_insert_Some in Hk as [[<- _]|[_ [_ Hk]%lookup_delete_Some]]; eauto.
Qed.

(** A carried queue is given to a free slot of a CPU. *)
Lemma q_give_percpu c p sb memqs next k m : QInv (m :: c) p sb memqs next -> p !! k = None -> slot_ok nr_cpus k ->
  QInv c (<[k := m]> p) sb memqs next.
Proof.
  intros [Hl Hu Hn Hc Ha Hd Hf Hr Hsl Hty] Hk Hsk. apply NoDup_cons in Hc as [Hm Hc]. destruct k as [t cpu].
  assert (Hat : forall x l, at_loc c (<[(t, cpu) := m]> p) sb x l ->
    exists l0, at_loc (m :: c) p sb x l0 /\ l = if decide (x = m) then LPercpu t cpu else l0).
  { assert (Hat0 : forall l, at_loc (m :: c) p sb m l -> l = LCarried) by (intros l Hml; eapply Hu; [done|left]).
    intros x l Hx. destruct (decide (x = m)) as [->|Hne].
    - exists LCarried. split; [left|]. destruct l as [t' cpu'|t'|]; simpl in Hx.
      + apply lookup_insert_Some in Hx as [[[= <- <-] _]|[_ Hx]]; [done|]. by specialize (Hat0 (LPercpu t' cpu') Hx).
      + by specialize (Hat0 (LDaemon t') Hx).
      + done.
    - exists l. split; [|done]. destruct l as [t' cpu'|t'|]; simpl in *; [|done|by right].
      apply lookup_insert_Some in Hx as [[_ ?]|[_ Hx]]; [congruence|done]. }
  split; try done.
  - intros x l (l0 & Hl0 & _)%Hat. by eapply Hl.
  - intros x l1 l2 (k1 & H1 & ->)%Hat (k2 & H2 & ->)%Hat. by rewrite (Hu x k1 k2 H1 H2).
  - intros t' cpu' Ht' Hcpu. destruct (decide ((t, cpu) = (t', cpu'))) as [<-|Hne]; [rewrite lookup_insert_eq; eauto|].
    rewrite lookup_insert_ne by done. by apply Ha.
  - intros x Hx. destruct (Hr x Hx) as [l Hx']. destruct l as [t' cpu'|t'|]; simpl in Hx'.
    + exists (LPercpu t' cpu'). simpl. rewrite lookup_insert_ne; [done|]. intros [= <- <-]. congruence.
    + by exists (LDaemon t').
    + apply elem_of_cons in Hx' as [->|Hx']; [exists (LPercpu t cpu); apply lookup_insert_eq|by exists LCarried].
  - intros k x Hkx. apply lookup_insert_Some in Hkx as [[<- _]|[_ Hkx]]; eauto.
Qed.

(** A carried queue goes to the end of a daemon's list. *)
Lemma q_give_daemon c p sb memqs next t d d' m : QInv (m :: c) p sb memqs next -> sb !! t = Some d ->
  sd_mumemq_list d' = sd_mumemq_list d ++ [m] -> QInv c p (<[t := d']> sb) memqs next.
Proof.
  intros [Hl Hu Hn Hc Ha Hd Hf Hr Hsl Hty] Ht Hd'. apply NoDup_cons in Hc as [Hm Hc].
  assert (Hat0 : forall l, at_loc (m :: c) p sb m l -> l = LCarried) by (intros l Hml; eapply Hu; [done|left]).
  assert (Hat : forall x l, at_loc c p (<[t := d']> sb) x l ->
    exists l0, at_loc (m :: c) p sb x l0 /\ l = if decide (x = m) then LDaemon t else l0).
  { intros x l Hx. destruct (decide (x = m)) as [->|Hne].
    - exists LCarried. split; [left|]. destruct l as [t' cpu'|t'|]; simpl in Hx.
      + by specialize (Hat0 (LPercpu t' cpu') Hx).
      + destruct Hx as (y & Hy & Hin). apply lookup_insert_Some in Hy as [[<- <-]|[_ Hy]]; [done|].
        specialize (Hat0 (LDaemon t') ltac:(simpl; eauto)). done.
      + done.
    - exists l. split; [|done]. destruct l as [t' cpu'|t'|]; simpl in *; [done| |by right].
      destruct Hx as (y & Hy & Hin). apply lookup_insert_Some in Hy as [[<- <-]|[_ Hy]]; [|eauto].
      rewrite Hd' in Hin. apply elem_of_app in Hin as [Hin|Hin%list_elem_of_singleton]; [eauto|done]. }
  split; try done.
  - intros x l (l0 & Hl0 & _)%Hat. by eapply Hl.
  - intros x l1 l2 (k1 & H1 & ->)%Hat (k2 & H2 & ->)%Hat. by rewrite (Hu x k1 k2 H1 H2).
  - intros t' x Hx. apply lookup_insert_Some in Hx as [[<- <-]|[_ Hx]]; [|by eapply Hn]. rewrite Hd'.
    apply NoDup_app. split; [by eapply Hn|]. split; [|apply NoDup_singleton].
    intros y Hy ->%list_elem_of_singleton. specialize (Hat0 (LDaemon t) ltac:(simpl; eauto)). done.
  - intros t' Ht'. destruct (decide (t = t')) as [->|]; [rewrite lookup_insert_eq; eauto|].
    rewrite lookup_insert_ne by done. by apply Hd.
  - intros x Hx. destruct (Hr x Hx) as [l Hx']. destruct l as [t' cpu'|t'|]; simpl in Hx'.
    + by exists (LPercpu t' cpu').
    + destruct Hx' as (y & Hy & Hin). destruct (decide (t = t')) as [<-|Hne].
      * exists (LDaemon t), d'. rewrite lookup_insert_eq, Hd'. split; [done|]. simplify_eq. apply elem_of_app. by left.
      * exists (LDaemon t'), y. by rewrite lookup_insert_ne.
    + apply elem_of_cons in Hx' as [->|Hx']; [|by exists LCarried]. exists (LDaemon t), d'. rewrite lookup_insert_eq, Hd'.
      split; [done|]. apply elem_of_app. right. left.
  - intros t' x Hx. apply lookup_insert_Some in Hx as [[<- <-]|[_ Hx]]; eauto.
Qed.

(** A daemon takes the first queue of its list. *)
Lemma q_take_daemon c p sb memqs next t d d' m rest : QInv c p sb memqs next -> sb !! t = Some d ->
  sd_mumemq_list d = m :: rest -> sd_mumemq_list d' = rest -> QInv (m :: c) p (<[t := d']> sb) memqs next.
Proof.
  intros [Hl Hu Hn Hc Ha Hd Hf Hr Hsl Hty] Ht Hm Hd'. pose proof (Hn t d Ht) as Hnd. rewrite Hm in Hnd.
  apply NoDup_cons in Hnd as [Hni Hnd].
  assert (Hmd : at_loc c p sb m (LDaemon t)) by (exists d; rewrite Hm; split; [done|left]).
  assert (Hat : forall x l, at_loc (m :: c) p (<[t := d']> sb) x l ->
    exists l0, at_loc c p sb x l0 /\ l = if decide (x = m) then LCarried else l0).
  { intros x l Hx. destruct (decide (x = m)) as [->|Hne].
    - exists (LDaemon t). split; [done|]. destruct l as [t' cpu'|t'|]; simpl in Hx.
      + specialize (Hu m (LPercpu t' cpu') (LDaemon t) Hx Hmd). done.
      + destruct Hx as (y & Hy & Hin). apply lookup_insert_Some in Hy as [[<- <-]|[Hne Hy]]; [by rewrite Hd' in Hin|].
        pose proof (Hu m (LDaemon t') (LDaemon t) ltac:(simpl; eauto) Hmd). congruence.
      + done.
    - exists l. split; [|done]. destruct l as [t' cpu'|t'|]; simpl in *; [done| |by apply elem_of_cons in Hx as [->|]].
      destruct Hx as (y & Hy & Hin). apply lookup_insert_Some in Hy as [[<- <-]|[_ Hy]]; [|eauto].
      exists d. split; [done|]. rewrite Hm. right. by rewrite <- Hd'. }
  split; try done.
  - intros x l (l0 & Hl0 & _)%Hat. by eapply Hl.
  - intros x l1 l2 (k1 & H1 & ->)%Hat (k2 & H2 & ->)%Hat. by rewrite (Hu x k1 k2 H1 H2).
  - intros t' x Hx. apply lookup_insert_Some in Hx as [[<- <-]|[_ Hx]]; [by rewrite Hd'|by eapply Hn].
  - constructor; [|done]. intros Hin. pose proof (Hu m LCarried (LDaemon t) Hin Hmd). done.
  - intros t' Ht'. destruct (decide (t = t')) as [->|]; [rewrite lookup_insert_eq; eauto|].
    rewrite lookup_insert_ne by done. by apply Hd.
  - intros x Hx. destruct (Hr x Hx) as [l Hx']. destruct l as [t' cpu'|t'|]; simpl in Hx'.
    + by exists (LPercpu t' cpu').
    + destruct Hx' as (y & Hy & Hin). destruct (decide (t = t')) as [<-|Hne].
      * simplify_eq. rewrite Hm in Hin. apply elem_of_cons in Hin as [->|Hin]; [exists LCarried; left|].
        exists (LDaemon t), d'. by rewrite lookup_insert_eq.
      * exists (LDaemon t'), y. by rewrite lookup_insert_ne.
    + exists LCarried. by right.
  - intros t' x Hx. apply lookup_insert_Some in Hx as [[<- <-]|[_ Hx]]; eauto.
Qed.
End Passing.

Section Scheduling.
  Context `{KernelHash} `{KvDevice} `{Fifo Q cap} `{ReadLen} {R : Raced}.
  Variable nr_cpus : Z.
  Local Abbreviation Inv := (Inv nr_cpus).
  Local Abbreviation Sim := (Sim nr_cpus).
  Implicit Types s : driver Q.
  Implicit Types g : ghost.
  Implicit Types V : kvmap.

(** The queue pointers change. *)
Definition set_queues (p : gmap (Z * Z) positive) (sb : gmap Z kv_work_struct) s : driver Q :=
  s <| s_percpu_memq := p |> <| s_submit := sb |>.

Lemma sim_requeue g c p sb s V : Sim g s V -> (forall m, m ∈ g_lag g -> m ∈ c) ->
  QInv nr_cpus c p sb (s_memqs s) (s_next_memq s) -> Sim (g <| g_memqs := c |>) (set_queues p sb s) V.
Proof.
  intros [HI HV] Hl Hq. split; [by apply inv_requeue|]. by eapply view_core; [..|exact HV].
Qed.

Lemma sim_queues g s V : Sim g s V -> QInv nr_cpus (g_memqs g) (s_percpu_memq s) (s_submit s) (s_memqs s) (s_next_memq s).
Proof. intros [HI _]. apply (inv_queues _ _ _ HI). Qed.

Lemma kv_memq_alloc_eq s : s_fails s = [] -> (forall q, q ∈ s_memq_slab s -> q = zero_memq) -> kv_memq_alloc s = Done (Some (s_next_memq s)) (new_memq s).
Proof.
  intros Hf Hz. unfold kv_memq_alloc, fails, bind, new_memq. rewrite Hf. repeat f_equal.
  destruct (s_memq_slab s) as [|q l] eqn:Hs; [done|]. simpl. apply Hz. left.
Qed.

(** A new queue is carried by whoever allocated it. *)
Lemma sim_new_carried g s V : Sim g s V -> Sim (g <| g_memqs ::= cons (s_next_memq s) |>) (new_memq s) V.
Proof.
  intros [HI HV]. split; [by apply inv_new_memq|]. by eapply view_core; [..|exact HV].
Qed.

(** A carried queue that is empty goes back to the slab, and is clean. *)
Lemma sim_free_carried g c s V m q : Sim (g <| g_memqs := m :: c |>) s V -> s_memqs s !! m = Some q -> mq_rq q = [] ->
  m ∉ g_lag g ->
  kv_memq_free m s = Done tt (free_memq m zero_memq s) /\ Sim (g <| g_memqs := c |>) (free_memq m zero_memq s) V.
Proof.
  intros HS Hm Hq Hlag. pose proof HS as [HI HV]. destruct (inv_memq _ _ _ HI m q Hm) as [_ Hr _ Hp _].
  rewrite Hq in Hr, Hp. rewrite lag_notin in Hr by done. simpl in Hr, Hp.
  split.
  - unfold kv_memq_free, upd_memq, get_memq, bind, modify. rewrite Hm. simpl. rewrite lookup_insert_eq.
    unfold free_memq, upd. simpl. rewrite delete_insert_eq. do 3 f_equal. unfold zero_memq. destruct q as [x y z k]. simpl in *. by subst.
  - split; [|by eapply view_core; [..|exact HV]]. by eapply inv_free_memq.
Qed.

(** The slot of a CPU that is neither active nor taken gets a queue. *)
Lemma sim_give_percpu g c s V k m : Sim (g <| g_memqs := m :: c |>) s V -> s_percpu_memq s !! k = None -> slot_ok nr_cpus k ->
  m ∉ g_lag g -> Sim (g <| g_memqs := c |>) (s <| s_percpu_memq ::= <[k := m]> |>) V.
Proof.
  intros HS Hk Hsk Hlag. pose proof (q_give_percpu _ _ _ _ _ _ k m (sim_queues _ s V HS) Hk Hsk) as Hq.
  pose proof (inv_lag _ _ _ (proj1 HS)) as Hl.
  eapply (sim_requeue _ c) in HS; [|intros m' Hm'|exact Hq].
  - eapply sim_core; [..|exact HS]; by repeat split.
  - specialize (Hl m' Hm'). simpl in Hl. apply elem_of_cons in Hl as [->|]; done.
Qed.

Lemma notin_lag g c s V m : Sim (g <| g_memqs := c |>) s V -> m ∉ c -> m ∉ g_lag g.
Proof. intros [HI _] Hm Hl. apply Hm. exact (inv_lag _ _ _ HI m Hl). Qed.

Lemma fresh_not_lag g s V : Sim g s V -> s_next_memq s ∉ g_lag g.
Proof.
  intros HS Hl%(inv_lag _ _ _ (proj1 HS)). destruct (qi_located _ _ _ _ _ _ (sim_queues g s V HS) _ LCarried Hl) as [q Hq].
  pose proof (fresh_memq _ g s (proj1 HS)). congruence.
Qed.

Lemma kept_new_memq g s V : Sim g s V -> kept (g_memqs g) s (new_memq s).
Proof.
  intros [HI _]. pose proof (fresh_memq _ g s HI) as Hfr. split; [eauto 10|].
  intros m q Hm Hq _. simpl. rewrite lookup_insert_ne; [done|]. intros <-. congruence.
Qed.

Lemma kept_queues c p sb s : kept c s (set_queues p sb s).
Proof. by apply kept_core. Qed.

Lemma ghost_memqs g : g <| g_memqs := g_memqs g |> = g.
Proof. by destruct g. Qed.

(** The requests stay as they are and no queue grows. *)
Definition requeued s s' : Prop :=
  s_heap s' = s_heap s /\ forall m q, s_memqs s' !! m = Some q -> s_memqs s !! m = Some q \/ mq_rq q = [].

#[export] Instance requeued_preorder : PreOrder requeued.
Proof.
  split; [split; auto|]. intros s1 s2 s3 [Hh1 Hm1] [Hh2 Hm2]. split; [congruence|]. intros m q [Hq|Hq]%Hm2; auto.
Qed.

(** The queue of a slot, if there is one, is empty. *)
Definition empty_slot s (k : Z * Z) : Prop :=
  forall m q, s_percpu_memq s !! k = Some m -> s_memqs s !! m = Some q -> mq_rq q = [].

Lemma empty_slot_mono s s' k k' : requeued s s' -> s_percpu_memq s' !! k' = s_percpu_memq s !! k -> empty_slot s k -> empty_slot s' k'.
Proof. intros [_ Hm] Hk He m q Hp [Hq|Hq]%Hm; [|done]. apply (He m q); [by rewrite <- Hk|done]. Qed.

Lemma requeued_new_memq s : requeued s (new_memq s).
Proof. split; [done|]. intros m q Hm. simpl in Hm. apply lookup_insert_Some in Hm as [[<- <-]|[_ Hm]]; auto. Qed.

(** The reserved queue of the CPU is there, allocated now if it was not. *)
Definition ensure_reserved (u cpu : Z) : M (driver Q) bool :=
  res <- get_percpu u cpu ;;
  match res with
  | Some _ => ret true
  | None =>
      new_memq <- kv_memq_alloc ;;
      match new_memq with
      | None => ret false
      | Some m => set_percpu u cpu (Some m) ;; ret true
      end
  end.

Lemma ensure_reserved_ok g s V u cpu : Sim g s V -> slot_ok nr_cpus (u, cpu) ->
  exists s1 m2, ensure_reserved u cpu s = Done true s1 /\ Sim g s1 V /\ kept (g_memqs g) s s1 /\
    s_percpu_memq s1 !! (u, cpu) = Some m2 /\
    (forall k, k <> (u, cpu) -> s_percpu_memq s1 !! k = s_percpu_memq s !! k) /\
    requeued s s1 /\ (empty_slot s (u, cpu) -> empty_slot s1 (u, cpu)).
Proof.
  intros HS Hsk. unfold ensure_reserved, get_percpu. rewrite (bind_done _ _ s (s_percpu_memq s !! (u, cpu)) s) by reflexivity.
  destruct (s_percpu_memq s !! (u, cpu)) as [m2|] eqn:Hu; [exists s, m2; split; [done|]; split; [done|]; split; [reflexivity|]; split; [done|]; split; [done|]; split; [reflexivity|done]|].
  rewrite (bind_done _ _ _ _ _ (kv_memq_alloc_eq s (inv_fails _ _ _ (proj1 HS)) (inv_slab _ _ _ (proj1 HS)))).
  set (m := s_next_memq s). exists ((new_memq s) <| s_percpu_memq ::= <[(u, cpu) := m]> |>), m.
  split; [reflexivity|]. split; [|split; [|split; [|split; [|split]]]].
  - rewrite <- (ghost_memqs g). apply sim_give_percpu; [|done|done|].
    + pose proof (sim_new_carried g s V HS) as HN. eapply sim_core; [..|exact HN]; by repeat split.
    + by eapply fresh_not_lag.
  - transitivity (new_memq s); [by eapply kept_new_memq|by apply kept_core].
  - simpl. apply lookup_insert_eq.
  - intros k Hk. simpl. by apply lookup_insert_ne.
  - transitivity (new_memq s); [apply requeued_new_memq|]. split; auto.
  - intros _ x q Hx Hq. simpl in Hx, Hq. rewrite lookup_insert_eq in Hx. injection Hx as <-. rewrite lookup_insert_eq in Hq.
    by injection Hq as <-.
Qed.

(** The active queue [m] is taken out, the reserved one put in its place, and a
    new one reserved. *)
Definition rotated (t u cpu : Z) (m2 : positive) s : driver Q :=
  (new_memq s) <| s_percpu_memq ::= fun p => <[(u, cpu) := s_next_memq s]> (<[(t, cpu) := m2]> p) |>.

Lemma sim_rotate g s V t u cpu m m2 : Sim g s V -> t <> u -> u <> ACTIVE_READ -> u <> ACTIVE_WRITE ->
  s_percpu_memq s !! (t, cpu) = Some m -> s_percpu_memq s !! (u, cpu) = Some m2 ->
  Sim (g <| g_memqs ::= cons m |>) (rotated t u cpu m2 s) V.
Proof.
  intros HS Htu Hu1 Hu2 Hm Hm2. pose proof (inv_lag _ _ _ (proj1 HS)) as Hlag.
  pose proof (q_swap _ _ _ _ _ _ t u cpu m m2 (sim_queues g s V HS) Htu Hm Hm2 Hu1 Hu2) as Hq.
  pose proof (sim_requeue g _ _ _ s V HS ltac:(intros x Hx; right; auto) Hq) as H1'.
  set (s1 := set_queues _ _ s) in H1'. set (x := s_next_memq s).
  pose proof (fresh_not_lag g s V HS) as Hx.
  pose proof (sim_new_carried _ s1 V H1') as H2'.
  assert (H3' : Sim (g <| g_memqs := m :: g_memqs g |>) ((new_memq s1) <| s_percpu_memq ::= <[(u, cpu) := x]> |>) V).
  { apply sim_give_percpu; [|simpl; rewrite lookup_insert_ne by congruence; apply lookup_delete_eq|exact (qi_slots _ _ _ _ _ _ (sim_queues g s V HS) _ _ Hm2)|done].
    eapply sim_core; [..|exact H2']; by repeat split. }
  assert (Heq : <[(u, cpu) := x]> (<[(t, cpu) := m2]> (s_percpu_memq s)) =
    <[(u, cpu) := x]> (<[(t, cpu) := m2]> (delete (u, cpu) (s_percpu_memq s)))).
  { rewrite !(insert_insert_ne _ (u, cpu) (t, cpu)) by congruence. by rewrite insert_delete_eq. }
  eapply sim_core; [..|exact H3']; [|done]. by repeat split.
Qed.

Lemma lag_memqs g c : g_lag (g <| g_memqs := c |>) = g_lag g.
Proof. reflexivity. Qed.

(** The taken queue goes to the submission daemon, or back to the slab. *)
Definition dispatch (t : Z) (m : positive) : M (driver Q) unit :=
  q <- get_memq m ;;
  match mq_rq q with
  | _ :: _ =>
      upd_submitd t (fun d => d <| sd_mumemq_list ::= fun l => l ++ [m] |>) ;;
      queue_submit_work t
  | [] => kv_memq_free m
  end.

Lemma dispatch_ok g s V t m : Sim (g <| g_memqs ::= cons m |>) s V -> m ∉ g_memqs g -> m ∉ g_lag g -> 0 <= t < NR_DAEMON ->
  exists s', dispatch t m s = Done tt s' /\ Sim g s' V /\ kept (g_memqs g) s s' /\ requeued s s' /\ s_percpu_memq s' = s_percpu_memq s.
Proof.
  intros HS Hm Hlag Ht. pose proof (sim_queues _ s V HS) as Hqi.
  destruct (qi_located _ _ _ _ _ _ Hqi m LCarried ltac:(left)) as [q Hq]. unfold dispatch.
  rewrite (bind_done _ _ _ q s) by (unfold get_memq; by rewrite Hq). destruct (mq_rq q) as [|i l] eqn:Hrq.
  - destruct (sim_free_carried g (g_memqs g) s V m q HS Hq Hrq Hlag) as [Hrun HS'].
    rewrite ghost_memqs in HS'. eexists. split; [exact Hrun|]. split; [done|]. split; [split; [eauto 10|]|split; [split; [done|]|done]].
    + intros m' q' Hm' Hq' _. simpl. rewrite lookup_delete_ne; [done|]. by intros ->.
    + intros x y Hx. simpl in Hx. apply lookup_delete_Some in Hx as [_ Hx]. by left.
  - destruct (qi_daemons _ _ _ _ _ _ Hqi t Ht) as [d Hd].
    set (d' := d <| sd_mumemq_list ::= fun l => l ++ [m] |>).
    rewrite (bind_done _ _ _ tt (s <| s_submit ::= <[t := d']> |>)) by (unfold upd_submitd; by rewrite Hd).
    unfold queue_submit_work, upd_submitd. simpl. rewrite lookup_insert_eq. eexists. split; [reflexivity|].
    split; [|split; [by apply kept_core|split; [split; auto|done]]]. rewrite <- (ghost_memqs g).
    pose proof (q_give_daemon _ _ _ _ _ _ t d (d' <| sd_queued := true |>) m Hqi Hd eq_refl) as Hq'.
    eapply (sim_requeue _ (g_memqs g)) in HS; [|intros x Hx|exact Hq'].
    + eapply sim_core; [..|exact HS]; [|done]. repeat split; try done. simpl. apply insert_insert_eq.
    + pose proof (inv_lag _ _ _ (proj1 HS) x Hx) as Hin. simpl in Hin, Hx. apply elem_of_cons in Hin as [->|]; done.
Qed.

(** What the scheduling daemon does to the slots of its CPU: the active one gets
    the reserved queue, the reserved one a new queue. *)
Definition slots_shifted (t cpu : Z) s s' : Prop :=
  requeued s s' /\ empty_slot s' (t + GET_RESERVED, cpu) /\ (empty_slot s (t + GET_RESERVED, cpu) -> empty_slot s' (t, cpu)) /\
  forall k, k <> (t, cpu) -> k <> (t + GET_RESERVED, cpu) -> empty_slot s k -> empty_slot s' k.

Lemma rotated_slots t u cpu m2 s : t <> u -> s_percpu_memq s !! (u, cpu) = Some m2 ->
  requeued s (rotated t u cpu m2 s) /\ empty_slot (rotated t u cpu m2 s) (u, cpu) /\
  (empty_slot s (u, cpu) -> empty_slot (rotated t u cpu m2 s) (t, cpu)) /\
  forall k, k <> (t, cpu) -> k <> (u, cpu) -> empty_slot s k -> empty_slot (rotated t u cpu m2 s) k.
Proof.
  intros Htu Hm2. assert (HR : requeued s (rotated t u cpu m2 s)) by (transitivity (new_memq s); [apply requeued_new_memq|split; auto]).
  split; [done|]. split; [|split].
  - intros x q Hx Hq. simpl in Hx, Hq. rewrite lookup_insert_eq in Hx. injection Hx as <-. rewrite lookup_insert_eq in Hq. by injection Hq as <-.
  - apply (empty_slot_mono s _ _ _ HR). simpl. rewrite lookup_insert_ne by congruence. by rewrite lookup_insert_eq.
  - intros k Hk1 Hk2. apply (empty_slot_mono s _ _ _ HR). simpl. by rewrite !lookup_insert_ne by congruence.
Qed.

(** The scheduling daemon. *)
Lemma kv_scheduling_workfn_ok g s V t cpu : Sim g s V -> t = ACTIVE_READ \/ t = ACTIVE_WRITE -> 0 <= cpu < nr_cpus ->
  exists s', kv_scheduling_workfn cpu t s = Done tt s' /\ Sim g s' V /\ kept (g_memqs g) s s' /\ slots_shifted t cpu s s'.
Proof.
  intros HS Ht Hcpu. set (u := t + GET_RESERVED). assert (Hu : u <> t /\ u <> ACTIVE_READ /\ u <> ACTIVE_WRITE /\ 0 <= t < NR_DAEMON).
  { subst u. by destruct Ht as [-> | ->]. }
  destruct Hu as (Hut & Hu1 & Hu2 & Htd). unfold kv_scheduling_workfn. fold u. fold (ensure_reserved u cpu).
  destruct (ensure_reserved_ok g s V u cpu HS) as (s1 & m2 & Hrun & HS1 & Hk1 & Hm2 & Hoth & HR1 & He1);
    [split; [subst u; destruct Ht as [-> | ->]; done|done]|].
  change (exists s', bind (ensure_reserved u cpu) (fun ok => if negb ok then ret tt else
    mutable_memq <- get_percpu t cpu ;;
    reserved <- get_percpu u cpu ;;
    set_percpu t cpu reserved ;;
    new_memq <- kv_memq_alloc ;;
    set_percpu u cpu new_memq ;;
    match mutable_memq with None => fail NullDeref | Some m => dispatch t m end) s = Done tt s' /\ Sim g s' V /\ kept (g_memqs g) s s' /\ slots_shifted t cpu s s').
  rewrite (bind_done _ _ _ _ _ Hrun). cbn [negb]. clear Hrun.
  destruct (qi_active _ _ _ _ _ _ (sim_queues g s1 V HS1) t cpu Ht Hcpu) as [m Hm].
  unfold get_percpu, gets. rewrite (bind_done _ _ s1 _ s1) by reflexivity.
  rewrite (bind_done _ _ s1 _ s1) by reflexivity. rewrite Hm, Hm2.
  set (s2 := s1 <| s_percpu_memq ::= <[(t, cpu) := m2]> |>).
  rewrite (bind_done _ _ s1 tt s2) by reflexivity.
  rewrite (bind_done _ _ _ _ _ (kv_memq_alloc_eq s2 (inv_fails _ _ _ (proj1 HS1)) (inv_slab _ _ _ (proj1 HS1)))).
  rewrite (bind_done _ _ _ tt (rotated t u cpu m2 s1)) by reflexivity.
  pose proof (sim_rotate g s1 V t u cpu m m2 HS1 (not_eq_sym Hut) Hu1 Hu2 Hm Hm2) as HR.
  assert (Hmc : m ∉ g_memqs g).
  { intros Hin. pose proof (qi_uniq _ _ _ _ _ _ (sim_queues g s1 V HS1) m (LPercpu t cpu) LCarried Hm Hin). done. }
  destruct (dispatch_ok g _ V t m HR Hmc) as (s' & Hrun & HS' & Hk' & HR' & Hp'); [|done|].
  { intros Hl. apply Hmc, (inv_lag _ _ _ (proj1 HS1)), Hl. }
  exists s'. split; [exact Hrun|]. split; [done|]. split.
  - rewrite Hk1. etransitivity; [|exact Hk']. transitivity (new_memq s1); [by eapply kept_new_memq|by apply kept_core].
  - destruct (rotated_slots t u cpu m2 s1 (not_eq_sym Hut) Hm2) as (HR2 & Heu & Het & Hek).
    assert (Hlift : forall k, empty_slot (rotated t u cpu m2 s1) k -> empty_slot s' k)
      by (intros k; apply (empty_slot_mono _ _ _ _ HR'); by rewrite Hp').
    split; [by rewrite HR1, HR2|]. fold u. split; [by apply Hlift|]. split; [by intros He; apply Hlift, Het, He1|].
    intros k Hk1' Hk2' He. apply Hlift, Hek; [done|done|]. apply (empty_slot_mono s s1 k k HR1); [by apply Hoth|done].
Qed.
End Scheduling.

(** ** Sleeping *)

(** The queues a submission daemon has still to submit. *)
Definition daemon_list `{Device} {Q} (s : driver Q) (t : Z) : option (list positive) := sd_mumemq_list <$> s_submit s !! t.
Definition same_lists `{Device} {Q} (s s' : driver Q) : Prop := forall t, daemon_list s' t = daemon_list s t.

#[export] Instance same_lists_preorder `{Device} {Q} : PreOrder (@same_lists _ Q).
Proof. split; [by intros s t|]. intros s1 s2 s3 K1 K2 t. by rewrite K2, K1. Qed.

(** What a thread may rely on when it sleeps: the interrupts and completions
    that run meanwhile keep the invariant and the map, leave what it carries
    alone, schedule no queue and submit no request. *)
Class QuietSleep `{KernelHash} `{KvDevice} `{FifoOps Q} `{ReadLen} (nr_cpus : Z) (sleep : driver Q -> driver Q) : Prop := {
  sleep_sim {R : Raced} g s V : settled_ghost g -> Sim nr_cpus g s V -> Sim nr_cpus g (sleep s) V;
  sleep_kept {R : Raced} g s V : settled_ghost g -> Sim nr_cpus g s V -> undisturbed (g_memqs g) s (sleep s);
  sleep_lists {R : Raced} g s V : settled_ghost g -> Sim nr_cpus g s V -> same_lists s (sleep s);
}.

Section Submission.
  Context `{KernelHash} `{KvDevice} `{Fifo Q cap} `{ReadLen} {R : Raced}.
  Variable nr_cpus : Z.
  Context (sleep : driver Q -> driver Q) `{!QuietSleep nr_cpus sleep}.
  Local Abbreviation Inv := (Inv nr_cpus).
  Local Abbreviation Sim := (Sim nr_cpus).
  Implicit Types s : driver Q.
  Implicit Types g : ghost.
  Implicit Types V : kvmap.

(** The request once it is submitted on [cpu]. *)
Definition submitted (cpu : Z) (r : kv_async_request) : kv_async_request :=
  r <| rq_lock := true |> <| rq_state ::= clear_bit KV_async_waiting_submission |>
    <| rq_state ::= set_bit KV_async_inFlight_rq |> <| rq_lock := false |> <| rq_req := true |> <| rq_cpu := Some cpu |>.

Lemma submitted_bits cpu r : flying (submitted cpu r) = true /\ in_ra (submitted cpu r) = in_ra r /\
  blocking (submitted cpu r) = blocking r /\ invalid (submitted cpu r) = invalid r /\ completed (submitted cpu r) = completed r.
Proof. unfold submitted, flying, in_ra, blocking, invalid, completed, bit. simpl. by autorewrite with flags. Qed.

Lemma pending_none r : pending r = false <-> rq_blocking_rq r = None.
Proof. unfold pending. by destruct (rq_blocking_rq r). Qed.

(** A buffered request is the only live write of its key unless it is pending. *)
Lemma buffered_sole g s i r j f v : Inv g s -> g_orphan g = [] -> s_heap s !! i = Some r -> buffered r = true ->
  pending r = false -> j <> i -> ~ live s j (kid r, f, v).
Proof.
  intros HI Ho Hi Hb Hpd Hne (x & Hj & (Hk & Hf & _ & _ & Hbf)%lw_kid).
  pose proof (buffered_hashed _ g s i r HI Hi Hb) as Hh. destruct (flying x) eqn:Hfx.
  - destruct (flying_hashed _ g s j x HI Ho Hj Hfx) as (a & ra & Ha & Hha & Hka & Hw).
    assert (a = i) as -> by (eapply (hi_uniq _ _ (inv_hash _ _ _ HI) KV_RQ_HASH _ _ a i ra r); eauto; congruence).
    rewrite Hi in Ha. injection Ha as <-. destruct Hw as [->|[Hw _]]; [done|]. apply pending_none in Hpd. congruence.
  - rewrite orb_false_r in Hbf. apply Hne.
    eapply (hi_uniq _ _ (inv_hash _ _ _ HI) KV_RQ_HASH _ _ j i x r); eauto. by eapply (buffered_hashed _ g s j).
Qed.

(** The table holds at most one buffered request of a key. *)
Lemma waiting_sole g s i r j : Inv g s -> s_heap s !! i = Some r -> buffered r = true -> seen s j (kid r, None) -> j = i.
Proof.
  intros HI Hi Hb (x & Hj & Hx). unfold lr in Hx. destruct (is_kv_retrieve_cmd _); [|done].
  destruct (in_ra x) eqn:Hra, (flying x) eqn:Hf, (invalid x) eqn:Hinv; try done. assert (Hk : kid x = kid r) by congruence.
  eapply (hi_uniq _ _ (inv_hash _ _ _ HI) KV_RQ_HASH _ _ j i x r); [done|done| |by eapply (buffered_hashed _ g s i)|done].
  eapply (buffered_hashed _ g s j); [done|done|]. unfold buffered. by rewrite Hra, Hf, Hinv.
Qed.

Lemma sim_submit g s V m q i r cpu : Sim g s V -> settled_ghost g -> s_memqs s !! m = Some q -> i ∈ mq_rq q ->
  m ∉ g_lag g -> m ∈ g_memqs g -> s_heap s !! i = Some r -> pending r = false -> invalid r = false ->
  Sim (g <| g_own ::= cons i |> <| g_lag ::= cons m |>) (put_memq m (without i q) (put_rq i (submitted cpu r) s)) V.
Proof.
  intros [HI HV] [Ho _] Hm Hi Hlag Hcar Hlk Hpd Hinv.
  destruct (mo_members _ _ _ _ (inv_memq _ _ _ HI m q Hm) i Hi) as (x & Hx & Hra & Hfl & Hmq).
  rewrite Hlk in Hx. injection Hx as <-. destruct (submitted_bits cpu r) as (B1 & B2 & B3 & B4 & B5).
  assert (Hbuf : buffered r = true) by (unfold buffered; by rewrite Hra, Hfl, Hinv).
  pose proof (buffered_hashed _ g s i r HI Hlk Hbuf) as Hh.
  destruct (inv_hashed _ g s i r _ _ HI Hlk Hh) as (_ & _ & Hc & _ & Hnb).
  split.
  - eapply inv_submit; try done; try congruence.
    + destruct (inv_base _ _ _ HI i r Hlk). by split.
    + split; [by rewrite B4, B5|rewrite B3, Hnb; done|done|done|simpl; eauto].
    + by apply pending_none.
  - apply (view_core (put_rq i (submitted cpu r) s)); [done|done|done|]. destruct (is_write (c_opcode (rq_c r))) eqn:Hw.
    + apply (view_submit s i _ (kid r) (wval r)); try done.
      * exists r. split; [done|]. unfold lw. by rewrite Hw, Hbuf, Hfl.
      * unfold lw. change (c_opcode (rq_c (submitted cpu r))) with (c_opcode (rq_c r)). by rewrite Hw, B1, orb_true_r.
      * intros j f v Hne. by eapply buffered_sole.
      * pose proof (notin_flying _ g s i r HI Hlk Hfl) as Hn. unfold flying_list in Hn. rewrite !elem_of_app in Hn. tauto.
    + pose proof (read_not_retrieve r (inv_base _ _ _ HI i r Hlk) Hw) as Hop.
      eapply (view_submit_read s i (submitted cpu r) (kid r)); try done.
      * exists r. split; [done|]. unfold lr. by rewrite Hop, Hra, Hfl, Hinv.
      * unfold lr. change (is_kv_retrieve_cmd (c_opcode (rq_c (submitted cpu r)))) with (is_kv_retrieve_cmd (c_opcode (rq_c r))).
        by rewrite Hop, B2, Hra, B1.
      * by apply lw_read.
      * intros j f v Hj. destruct (decide (j = i)) as [->|Hne]; [|by eapply buffered_sole].
        destruct Hj as (x & Hx & Hlx). rewrite Hlk in Hx. injection Hx as <-. by rewrite lw_read in Hlx.
      * intros j Hne Hj. by eapply Hne, (waiting_sole g s).
      * done.
      * pose proof (notin_flying _ g s i r HI Hlk Hfl) as Hn. unfold flying_list in Hn. rewrite !elem_of_app in Hn. tauto.
Qed.

(** A request leaves its queue: [nr_rq] is decremented at the end. *)
Definition shorter (i : positive) (q : kv_memqueue_struct) : kv_memqueue_struct :=
  (without i q) <| mq_nr_rq ::= Z.add (-1) |>.

Lemma upd_memq_eq s m q f : s_memqs s !! m = Some q -> upd_memq m f s = Done tt (put_memq m (f q) s).
Proof. intros Hm. unfold upd_memq. by rewrite Hm. Qed.

Lemma put_memq_twice m q q' s : put_memq m q' (put_memq m q s) = put_memq m q' s.
Proof. unfold put_memq, upd. simpl. by rewrite insert_insert_eq. Qed.
Lemma put_memq_lookup m q s : s_memqs (put_memq m q s) !! m = Some q.
Proof. apply lookup_insert_eq. Qed.

(** Removing from the queue, clearing the wait bit: the request is locked. *)
Definition taken (r : kv_async_request) : kv_async_request :=
  r <| rq_lock := true |> <| rq_state ::= clear_bit KV_async_waiting_submission |>.

Lemma sim_settle g c l s V m q : Sim (g <| g_memqs := c |> <| g_lag := m :: l |>) s V -> m ∉ l ->
  s_memqs s !! m = Some q -> Sim (g <| g_memqs := c |> <| g_lag := l |>) (put_memq m (q <| mq_nr_rq ::= Z.add (-1) |>) s) V.
Proof.
  intros [HI HV] Hl Hm. split; [by apply inv_settle|]. by apply (view_core s).
Qed.

(** The invalid request is dropped. *)
Lemma submit_one_invalid g s V m q i r cpu : Sim g s V -> s_memqs s !! m = Some q -> i ∈ mq_rq q ->
  m ∉ g_lag g -> m ∈ g_memqs g -> s_heap s !! i = Some r -> pending r = false -> invalid r = true ->
  submit_one sleep m cpu i s = Done (inr tt) (put_memq m (shorter i q) (drop_rq i s)) /\
  Sim g (put_memq m (shorter i q) (drop_rq i s)) V.
Proof.
  intros [HI HV] Hm Hi Hlag Hcar Hlk Hpd Hinv. destruct (inv_base _ _ _ HI i r Hlk). split.
  - unfold submit_one. run (get_rq_eq s i r Hlk). rewrite (proj1 (pending_none r) Hpd).
    rewrite (bind_done _ _ s false s) by (apply fails_eq, (inv_fails _ _ _ HI)).
    run (spin_lock_eq s i r Hlk rb_lock).
    run (upd_memq_eq (put_rq i (r <| rq_lock := true |>) s) m q (fun q => q <| mq_rq ::= filter (fun j => j <> i) |>) Hm).
    fold (without i q). rewrite put_memq_put_rq. set (s1 := put_memq m (without i q) s).
    unfold clear_rq_bit. run (upd_rq_eq _ i _ _ (put_rq_lookup i _ s1)). rewrite put_rq_twice. fold (taken r).
    run (get_rq_eq _ i _ (put_rq_lookup i (taken r) s1)).
    assert (Hb : bit KV_async_invalid_rq (taken r) = true).
    { rewrite <- Hinv. unfold taken, invalid, bit. simpl. by autorewrite with flags. }
    rewrite Hb. run (upd_memq_eq (put_rq i (taken r) s1) m (without i q) _ (put_memq_lookup m _ s)).
    fold (shorter i q). rewrite put_memq_put_rq. subst s1. rewrite put_memq_twice.
    run (upd_rq_eq _ i _ _ (put_rq_lookup i (taken r) (put_memq m (shorter i q) s))). rewrite put_rq_twice.
    set (r2 := (taken r) <| rq_state ::= clear_bit KV_async_flush_wakeup |>).
    run (put_locked_free _ i r2 (put_rq_lookup i r2 (put_memq m (shorter i q) s)) eq_refl rb_refcount).
    unfold ret. f_equal. by rewrite drop_put_rq.
  - assert (HS : Sim (g <| g_lag ::= cons m |>) (put_memq m (without i q) (drop_rq i s)) V).
    { split; [by eapply inv_discard|]. apply (view_core (drop_rq i s)); [done|done|done|].
      eapply view_drop; [done| |done]. unfold lw, buffered. rewrite Hinv. simpl.
      destruct (mo_members _ _ _ _ (inv_memq _ _ _ HI m q Hm) i Hi) as (x & Hx & _ & Hfl & _).
      rewrite Hlk in Hx. injection Hx as <-. by rewrite Hfl, andb_false_r, andb_false_r. }
    eapply (sim_settle g (g_memqs g) (g_lag g)) in HS; [|done|apply put_memq_lookup].
    rewrite put_memq_twice in HS. replace (g <| g_memqs := g_memqs g |> <| g_lag := g_lag g |>) with g in HS by by destruct g.
    exact HS.
Qed.

Lemma kept_mono (c c' : list positive) s s' : kept c s s' -> (forall m, m ∈ c' -> m ∈ c) -> kept c' s s'.
Proof. intros [K1 K2] Hc. split; [done|]. intros m q Hm. by apply K2, Hc. Qed.

Lemma kept_put_memq c m q s : m ∉ c -> kept c s (put_memq m q s).
Proof. intros Hm. split; [eauto 10|]. intros m' q' Hm' Hq' _. simpl. rewrite lookup_insert_ne; [done|]. by intros <-. Qed.

Lemma kept_submitted c i r cpu s : s_heap s !! i = Some r -> kept c s (put_rq i (submitted cpu r) s).
Proof.
  intros Hi. split; [|done]. intros j x [[<- <-]|[_ Hj]]%put_rq_Some; [|eauto 10].
  destruct (submitted_bits cpu r) as (B1 & B2 & _). exists r. rewrite B1, B2. repeat split; auto.
Qed.

(** The counter of the CPU, and the sleep when the device is congested. *)
Definition throttle (cpu : Z) : M (driver Q) unit :=
  n <- atomic_inc_return cpu ;;
  when (KV_MAX_INFLIGHT_REQUEST <? n)
    (set_io_bit KV_iosched_congested ;; wait_on_io_bit sleep KV_iosched_congested).

Lemma throttle_ok g s V cpu : Sim g s V -> settled_ghost g ->
  exists s', throttle cpu s = Done tt s' /\ Sim g s' V /\ kept (g_memqs g) s s' /\ same_lists s s'.
Proof.
  intros HS Hg. unfold throttle, atomic_inc_return.
  set (n := default 0 (s_in_flight s !! cpu)). set (s1 := s <| s_in_flight ::= <[cpu := n + 1]> |>).
  rewrite (bind_done _ _ s (n + 1) s1) by reflexivity.
  assert (HS1 : Sim g s1 V) by (eapply sim_core; [..|exact HS]; by repeat split).
  destruct (KV_MAX_INFLIGHT_REQUEST <? n + 1); cbn [when].
  - set (s2 := s1 <| s_state ::= set_bit KV_iosched_congested |>).
    assert (HS2 : Sim g s2 V) by (eapply sim_core; [..|exact HS1]; by repeat split).
    rewrite (bind_done _ _ s1 tt s2) by reflexivity. unfold wait_on_io_bit.
    rewrite (bind_done _ _ s2 true s2) by (unfold gets; f_equal; by apply test_set_bit).
    cbn [when]. exists (sleep s2). split; [done|]. split; [by apply sleep_sim|].
    split; [transitivity s2; [by apply kept_core|by eapply und_kept, sleep_kept]|].
    transitivity s2; [done|by eapply sleep_lists].
  - exists s1. split; [done|]. split; [done|]. split; [by apply kept_core|done].
Qed.

(** What follows the removal from the queue when the request is valid and the
    block layer calls succeed. *)
Lemma submit_one_run g s V m q i r cpu : Sim g s V -> s_memqs s !! m = Some q ->
  s_heap s !! i = Some r -> pending r = false -> invalid r = false ->
  submit_one sleep m cpu i s =
  (throttle cpu ;;
   modify (fun s => s <| s_dev_queue ::= fun l => l ++ [i] |>) ;;
   upd_memq m (fun q => q <| mq_nr_rq ::= Z.add (-1) |>) ;;
   ret (inr tt)) (put_memq m (without i q) (put_rq i (submitted cpu r) s)).
Proof.
  intros [HI HV] Hm Hlk Hpd Hinv. destruct (inv_base _ _ _ HI i r Hlk). pose proof (inv_fails _ _ _ HI) as Hf.
  unfold submit_one. run (get_rq_eq s i r Hlk). rewrite (proj1 (pending_none r) Hpd).
  run (fails_eq s Hf). run (spin_lock_eq s i r Hlk rb_lock).
  run (upd_memq_eq (put_rq i (r <| rq_lock := true |>) s) m q (fun q => q <| mq_rq ::= filter (fun j => j <> i) |>) Hm).
  fold (without i q). rewrite put_memq_put_rq. set (s1 := put_memq m (without i q) s).
  unfold clear_rq_bit. run (upd_rq_eq _ i _ _ (put_rq_lookup i _ s1)). rewrite put_rq_twice. fold (taken r).
  run (get_rq_eq _ i _ (put_rq_lookup i (taken r) s1)).
  assert (Hb : bit KV_async_invalid_rq (taken r) = false).
  { rewrite <- Hinv. unfold taken, invalid, bit. simpl. by autorewrite with flags. }
  rewrite Hb. unfold set_rq_bit. run (upd_rq_eq _ i _ _ (put_rq_lookup i (taken r) s1)). rewrite put_rq_twice.
  set (r2 := (taken r) <| rq_state ::= set_bit KV_async_inFlight_rq |>).
  run (spin_unlock_eq _ i r2 (put_rq_lookup i r2 s1) eq_refl). rewrite put_rq_twice.
  run (upd_rq_eq _ i _ _ (put_rq_lookup i (r2 <| rq_lock := false |>) s1)). rewrite put_rq_twice.
  set (r3 := r2 <| rq_lock := false |> <| rq_req := true |>).
  run (get_rq_eq _ i _ (put_rq_lookup i r3 s1)). run (fails_eq (put_rq i r3 s1) Hf).
  assert (He2 : (if match rq_data_addr r3 with Some _ => negb (rq_data_length r3 =? 0) | None => false end
    then fails else ret false) (put_rq i r3 s1) = Done false (put_rq i r3 s1)).
  { destruct (match rq_data_addr r3 with Some _ => _ | None => _ end); [by apply fails_eq|done]. }
  run He2. cbn [orb]. assert (Hk : match rq_key r3 with Some _ => KVCMD_INLINE_KEY_MAX <? rq_key_length r3 | None => false end = false).
  { change (rq_key r3) with (rq_key r). unfold rq_key. rewrite rb_inline. apply Z.ltb_ge. apply rb_key. }
  rewrite Hk. run (eq_refl : ret false (put_rq i r3 s1) = Done false (put_rq i r3 s1)).
  run (eq_refl : ret false (put_rq i r3 s1) = Done false (put_rq i r3 s1)). cbn [orb].
  run (upd_rq_eq _ i r3 _ (put_rq_lookup i r3 s1)). rewrite put_rq_twice. reflexivity.
Qed.

Lemma submit_one_ok g c s V m q i cpu : Sim (g <| g_memqs := m :: c |>) s V -> settled_ghost g ->
  s_memqs s !! m = Some q -> i ∈ mq_rq q -> m ∉ g_lag g -> m ∉ c -> mq_nr_pending q = 0 ->
  exists s', submit_one sleep m cpu i s = Done (inr tt) s' /\ Sim (g <| g_memqs := m :: c |>) s' V /\
    s_memqs s' !! m = Some (shorter i q) /\ kept c s s' /\ same_lists s s'.
Proof.
  intros HS Hg Hm Hi Hlag Hmc Hz. set (g1 := g <| g_memqs := m :: c |>) in *. pose proof (inv_memq _ _ _ (proj1 HS) m q Hm) as Hok.
  destruct (mo_members _ _ _ _ Hok i Hi) as (r & Hlk & Hra & Hfl & Hmq).
  assert (Hpd : pending r = false).
  { eapply (count_pending_zero (s_heap s) (mq_rq q)); [|done|done]. rewrite <- (mo_nr_pending _ _ _ _ Hok). done. }
  destruct (invalid r) eqn:Hinv.
  - destruct (submit_one_invalid g1 s V m q i r cpu HS Hm Hi Hlag ltac:(left) Hlk Hpd Hinv) as [Hrun HS'].
    eexists. split; [exact Hrun|]. split; [done|]. split; [apply put_memq_lookup|].
    split; [transitivity (drop_rq i s); [apply kept_drop|by apply kept_put_memq]|done].
  - rewrite (submit_one_run g1 s V m q i r cpu HS Hm Hlk Hpd Hinv).
    pose proof (sim_submit g1 s V m q i r cpu HS Hg Hm Hi Hlag ltac:(left) Hlk Hpd Hinv) as HS1.
    set (s1 := put_memq m (without i q) (put_rq i (submitted cpu r) s)) in *.
    destruct (throttle_ok _ s1 V cpu HS1 Hg) as (s2 & Hrun & HS2 & Hk2 & Hl2). rewrite (bind_done _ _ _ _ _ Hrun).
    pose proof (kept_memq _ _ _ Hk2 m (without i q) ltac:(left) (put_memq_lookup m _ _) Hz) as Hm2.
    set (s3 := s2 <| s_dev_queue ::= fun l => l ++ [i] |>).
    rewrite (bind_done _ _ s2 tt s3) by reflexivity.
    rewrite (bind_done _ _ _ _ _ (upd_memq_eq s3 m (without i q) _ Hm2)).
    eexists. split; [reflexivity|]. split; [|split; [apply put_memq_lookup|split; [|exact Hl2]]].
    + assert (HS3 : Sim (g <| g_memqs := m :: c |> <| g_lag := m :: g_lag g |>) s3 V).
      { destruct HS2 as [HI2 HV2]. split; [|by apply (view_core s2)].
        pose proof (inv_to_device nr_cpus (g1 <| g_lag := m :: g_lag g |>) s2 i (g_own g)) as HD.
        replace (g <| g_memqs := m :: c |> <| g_lag := m :: g_lag g |>) with
          ((g1 <| g_lag := m :: g_lag g |>) <| g_own := g_own g |>) by (by destruct g). apply HD. exact HI2. }
      eapply sim_settle in HS3; [|done|exact Hm2]. replace g1 with (g <| g_memqs := m :: c |> <| g_lag := g_lag g |>) by (by destruct g).
      exact HS3.
    + transitivity s1; [|transitivity s2].
      * transitivity (put_rq i (submitted cpu r) s); [by apply kept_submitted|by apply kept_put_memq].
      * eapply kept_mono; [exact Hk2|]. intros x Hx. by right.
      * transitivity s3; [by apply kept_core|by apply kept_put_memq].
Qed.

(** Submitting a list of requests of the queue empties it of them. *)
Definition empty_of (l : list positive) (q : kv_memqueue_struct) : kv_memqueue_struct :=
  fold_left (fun q i => shorter i q) l q.

Lemma submit_loop_ok l : forall g c s V m q cpu, Sim (g <| g_memqs := m :: c |>) s V -> settled_ghost g ->
  s_memqs s !! m = Some q -> NoDup l -> (forall i, i ∈ l -> i ∈ mq_rq q) -> m ∉ g_lag g -> m ∉ c -> mq_nr_pending q = 0 ->
  exists s', submit_loop sleep m cpu l s = Done 0 s' /\ Sim (g <| g_memqs := m :: c |>) s' V /\
    s_memqs s' !! m = Some (empty_of l q) /\ kept c s s' /\ same_lists s s'.
Proof.
  induction l as [|i l IH]; intros g c s V m q cpu HS Hg Hm Hnd Hl Hlag Hmc Hz.
  - exists s. split; [done|]. split; [done|]. split; [done|]. split; reflexivity.
  - apply NoDup_cons in Hnd as [Hni Hnd].
    destruct (submit_one_ok g c s V m q i cpu HS Hg Hm (Hl i ltac:(left)) Hlag Hmc Hz) as (s1 & Hrun & HS1 & Hm1 & Hk1 & Hl1).
    cbn [submit_loop]. rewrite (bind_done _ _ _ _ _ Hrun).
    destruct (IH g c s1 V m (shorter i q) cpu HS1 Hg Hm1 Hnd) as (s' & Hrun' & HS' & Hm' & Hk' & Hl'); try done.
    + intros j Hj. simpl. apply list_elem_of_filter. split; [by intros ->|]. apply Hl. by right.
    + exists s'. split; [done|]. split; [done|]. split; [done|]. by split; transitivity s1.
Qed.

Lemma empty_of_all l q : mq_rq q = l -> mq_rq (empty_of l q) = [].
Proof.
  assert (Hgen : forall l q, (forall i, i ∈ mq_rq q -> i ∈ l) -> mq_rq (empty_of l q) = []).
  { clear. induction l as [|i l IH]; intros q Hq; simpl.
    - destruct (mq_rq q) as [|j]; [done|]. specialize (Hq j ltac:(left)). by apply elem_of_nil in Hq.
    - apply IH. intros j. simpl. rewrite list_elem_of_filter. intros [Hne [->|]%Hq%elem_of_cons]; done. }
  intros <-. by apply Hgen.
Qed.

(** ** The submission daemon *)

Lemma get_memq_eq s m q : s_memqs s !! m = Some q -> get_memq m s = Done q s.
Proof. intros Hm. unfold get_memq. by rewrite Hm. Qed.
Lemma get_submitd_eq s t d : s_submit s !! t = Some d -> get_submitd t s = Done d s.
Proof. intros Hd. unfold get_submitd. by rewrite Hd. Qed.

Definition put_submitd (t : Z) (d : kv_work_struct) s : driver Q := s <| s_submit ::= <[t := d]> |>.

Lemma upd_submitd_eq s t d f : s_submit s !! t = Some d -> upd_submitd t f s = Done tt (put_submitd t (f d) s).
Proof. intros Hd. unfold upd_submitd. by rewrite Hd. Qed.

(** The daemon takes the first queue of its list. *)
Lemma sim_take g s V t d m rest : Sim g s V -> s_submit s !! t = Some d -> sd_mumemq_list d = m :: rest ->
  Sim (g <| g_memqs := m :: g_memqs g |>) (put_submitd t (d <| sd_mumemq_list := rest |>) s) V /\ m ∉ g_memqs g.
Proof.
  intros HS Hd Hl. pose proof (sim_queues _ g s V HS) as Hqi.
  pose proof (q_take_daemon _ _ _ _ _ _ t d (d <| sd_mumemq_list := rest |>) m rest Hqi Hd Hl eq_refl) as Hq. split.
  - eapply (sim_requeue _ _ (m :: g_memqs g)) in HS; [|intros x Hx; right; by apply (inv_lag _ _ _ (proj1 HS))|exact Hq].
    eapply sim_core; [..|exact HS]; by repeat split.
  - pose proof (qi_carried _ _ _ _ _ _ Hq) as Hnd. by apply NoDup_cons in Hnd as [? _].
Qed.

(** Fields of a daemon other than its list. *)
Lemma sim_submitd g s V t d d' : Sim g s V -> s_submit s !! t = Some d -> sd_mumemq_list d' = sd_mumemq_list d ->
  Sim g (put_submitd t d' s) V.
Proof.
  intros HS Hd Hl. pose proof (QInv_submit _ _ _ _ _ _ t d d' Hd Hl (sim_queues _ g s V HS)) as Hq.
  eapply (sim_requeue _ _ (g_memqs g)) in HS; [|apply (inv_lag _ _ _ (proj1 HS))|exact Hq].
  rewrite ghost_memqs in HS. eapply sim_core; [..|exact HS]; by repeat split.
Qed.

(** A queue with a pending request goes to the end of the list. *)
Lemma sim_requeue_last g s V t d m rest : Sim g s V -> s_submit s !! t = Some d -> sd_mumemq_list d = m :: rest ->
  Sim g (put_submitd t (d <| sd_mumemq_list := rest ++ [m] |>) s) V.
Proof.
  intros HS Hd Hl. destruct (sim_take g s V t d m rest HS Hd Hl) as [HT Hm].
  pose proof (q_give_daemon _ _ _ _ _ _ t (d <| sd_mumemq_list := rest |>) (d <| sd_mumemq_list := rest ++ [m] |>) m
    (sim_queues _ _ _ V HT) (lookup_insert_eq _ _ _) eq_refl) as Hq.
  eapply (sim_requeue _ _ (g_memqs g)) in HT; [|apply (inv_lag _ _ _ (proj1 HS))|exact Hq].
  replace (g <| g_memqs := m :: g_memqs g |> <| g_memqs := g_memqs g |>) with g in HT by by destruct g.
  eapply sim_core; [..|exact HT]; [|done]. repeat split; try done. simpl. by rewrite insert_insert_eq.
Qed.

(** One queue without pending requests: all of it is submitted and the queue
    goes back to the slab. *)
Definition submit_queue (t cpu : Z) (m : positive) (again : M (driver Q) unit) : M (driver Q) unit :=
  err <- __nvme_submit_iosched_kv_cmd sleep m cpu ;;
  upd_submitd t (fun d => d <| sd_last_cpu ::= next_cpu nr_cpus t |>) ;;
  q <- get_memq m ;;
  if negb (mq_nr_rq q =? 0) then
    upd_submitd t (fun d => d <| sd_mumemq_list ::= fun l => l ++ [m] |>) ;;
    if negb (err =? 0) then fail BugOn else again
  else kv_memq_free m ;; again.

Lemma submit_queue_ok g s V t cpu m q again : Sim (g <| g_memqs := m :: g_memqs g |>) s V -> settled_ghost g ->
  m ∉ g_memqs g -> m ∉ g_lag g -> 0 <= t < NR_DAEMON -> s_memqs s !! m = Some q -> mq_nr_pending q = 0 ->
  exists s', submit_queue t cpu m again s = again s' /\ Sim g s' V /\ kept (g_memqs g) s s' /\ same_lists s s'.
Proof.
  intros HS Hg Hmc Hlag Ht Hm Hz. unfold submit_queue, __nvme_submit_iosched_kv_cmd.
  destruct (submit_loop_ok (mq_rq q) g (g_memqs g) s V m q cpu HS Hg Hm) as (s1 & Hrun & HS1 & Hm1 & Hk1 & Hl1); try done.
  { apply (mo_nodup _ _ _ _ (inv_memq _ _ _ (proj1 HS) m q Hm)). }
  rewrite (bind_done _ _ s 0 s1) by (by rewrite (bind_done _ _ _ _ _ (get_memq_eq s m q Hm))).
  destruct (qi_daemons _ _ _ _ _ _ (sim_queues _ _ s1 V HS1) t Ht) as [d Hd].
  rewrite (bind_done _ _ _ _ _ (upd_submitd_eq s1 t d _ Hd)). set (d' := d <| sd_last_cpu ::= _ |>).
  pose proof (sim_submitd _ s1 V t d d' HS1 Hd eq_refl) as HS2. set (s2 := put_submitd t d' s1) in *.
  rewrite (bind_done _ _ _ _ _ (get_memq_eq s2 m _ Hm1)).
  pose proof (empty_of_all (mq_rq q) q eq_refl) as Hempty.
  assert (Hnr : mq_nr_rq (empty_of (mq_rq q) q) = 0).
  { pose proof (mo_nr_rq _ _ _ _ (inv_memq _ _ _ (proj1 HS2) m _ Hm1)) as Hn. rewrite Hempty in Hn.
    by rewrite lag_notin in Hn. }
  rewrite Hnr. cbn [negb Z.eqb]. destruct (sim_free_carried _ g (g_memqs g) s2 V m _ HS2 Hm1 Hempty Hlag) as [Hfree HS3].
  rewrite (bind_done _ _ _ _ _ Hfree). rewrite ghost_memqs in HS3. eexists. split; [reflexivity|]. split; [done|]. split.
  - etransitivity; [exact Hk1|]. transitivity s2; [by apply kept_core|]. split; [eauto 10|].
    intros m' q' Hm' Hq' _. simpl. rewrite lookup_delete_ne; [done|]. by intros ->.
  - etransitivity; [exact Hl1|]. intros t'. unfold daemon_list. simpl. destruct (decide (t = t')) as [<-|].
    + by rewrite lookup_insert_eq, Hd.
    + by rewrite lookup_insert_ne.
Qed.

(** The daemon stops with an empty list or at a queue with a pending request. *)
Definition stopped s (t : Z) : Prop :=
  daemon_list s t = Some [] \/
  exists l m q, daemon_list s t = Some (l ++ [m]) /\ s_memqs s !! m = Some q /\ mq_nr_pending q <> 0.

Lemma kv_submission_workfn_ok n : forall g s V t cpu l, Sim g s V -> settled_ghost g -> 0 <= t < NR_DAEMON ->
  daemon_list s t = Some l -> (length l < n)%nat ->
  exists s', kv_submission_workfn sleep nr_cpus n t cpu s = Done tt s' /\ Sim g s' V /\ kept (g_memqs g) s s' /\ stopped s' t.
Proof.
  induction n as [|n IH]; intros g s V t cpu l HS Hg Ht Hl Hn; [lia|]. unfold daemon_list in Hl.
  destruct (s_submit s !! t) as [d|] eqn:Hd; [|done]. simpl in Hl. injection Hl as Hl.
  cbn [kv_submission_workfn]. rewrite (bind_done _ _ _ _ _ (get_submitd_eq s t d Hd)), Hl.
  destruct l as [|m rest].
  { exists s. split; [done|]. split; [done|]. split; [reflexivity|]. left. unfold daemon_list. by rewrite Hd, <- Hl. }
  assert (Hat : at_loc (g_memqs g) (s_percpu_memq s) (s_submit s) m (LDaemon t)) by (exists d; rewrite Hl; split; [done|left]).
  destruct (qi_located _ _ _ _ _ _ (sim_queues _ g s V HS) m _ Hat) as [q Hm].
  rewrite (bind_done _ _ _ _ _ (get_memq_eq s m q Hm)). destruct (Z.eqb_spec (mq_nr_pending q) 0) as [Hz|Hz]; cbn [negb].
  - rewrite (bind_done _ _ _ _ _ (upd_submitd_eq s t d _ Hd)).
    destruct (sim_take g s V t d m rest HS Hd Hl) as [HT Hmc]. set (s1 := put_submitd t _ s) in *.
    rewrite (mo_key _ _ _ _ (inv_memq _ _ _ (proj1 HS) m q Hm)). cbn [negb when].
    rewrite (bind_done _ _ s1 tt s1) by reflexivity.
    change (exists s', submit_queue t cpu m (kv_submission_workfn sleep nr_cpus n t cpu) s1 = Done tt s' /\ Sim g s' V /\
      kept (g_memqs g) s s' /\ stopped s' t).
    destruct (submit_queue_ok g s1 V t cpu m q (kv_submission_workfn sleep nr_cpus n t cpu) HT Hg Hmc (fun Hin => Hmc (inv_lag _ _ _ (proj1 HS) m Hin)) Ht Hm Hz)
      as (s2 & Hrun & HS2 & Hk2 & Hl2).
    destruct (IH g s2 V t cpu rest HS2 Hg Ht) as (s' & Hrun' & HS' & Hk' & Hst).
    + rewrite Hl2. unfold daemon_list. simpl. by rewrite lookup_insert_eq.
    + simpl in Hn. lia.
    + exists s'. split; [by rewrite Hrun|]. split; [done|]. split; [|done]. transitivity s1; [by apply kept_core|].
      by transitivity s2.
  - rewrite (bind_done _ _ _ _ _ (upd_submitd_eq s t d _ Hd)).
    pose proof (sim_requeue_last g s V t d m rest HS Hd Hl) as HS1. set (s1 := put_submitd t _ s) in *.
    rewrite (bind_done _ _ s1 (fifo_nr_ele (s_fifo s)) s1) by reflexivity.
    assert (Hstop : forall s', s_submit s' = s_submit s1 -> s_memqs s' = s_memqs s1 -> stopped s' t).
    { intros s' Hsb Hmq. right. exists rest, m, q. rewrite Hmq. split; [|done]. unfold daemon_list. rewrite Hsb. simpl.
      by rewrite lookup_insert_eq. }
    destruct (negb (fifo_nr_ele (s_fifo s) =? 0)); cbn [when]; (eexists; split; [reflexivity|]);
      (split; [eapply sim_core; [..|exact HS1]; by repeat split|]); (split; [by apply kept_core|by apply Hstop]).
Qed.
End Submission.
