(* ===== verification/KvFrame.v ===== *)
(** * What the daemons leave alone

    The submission and completion daemons and the interrupt handler never make
    a request pending, never add a request to a memory queue and never move a
    queue, apart from the list of the submission daemon that runs.  [framed]
    states this of a program; the lemmas follow the programs to their primitive
    steps. *)

From Stdlib Require Import ZArith Lia Bool.
From stdpp Require Import base list gmap.
From S2P Require Import Prelude KvFifo KvCmd KvState KvHash KvIosched KvInv KvExec KvHashSpec KvTrans KvView KvDaemons KvSubmit.

Section Frame.
  Context `{KernelHash} `{Device} `{FifoOps Q}.
  Local Abbreviation M := (M (driver Q)).
  Implicit Types s : driver Q.
  Implicit Types T : Z -> Prop.

(** No kernel call fails and no queue has a blocking key. *)
Definition calm s : Prop :=
  s_fails s = [] /\ forall m q, s_memqs s !! m = Some q -> forallb (Z.eqb 0) (mq_key q) = true.

(** No request waits for another one. *)
Definition no_pending s : Prop := forall i r, s_heap s !! i = Some r -> rq_blocking_rq r = None.

(** From [s] to [s'] only the lists of the daemons [T] change, no request becomes
    pending, and an empty queue stays empty. *)
Record frame T s s' : Prop := {
  fr_percpu : s_percpu_memq s' = s_percpu_memq s;
  fr_lists t : ~ T t -> daemon_list s' t = daemon_list s t;
  fr_pending : no_pending s -> no_pending s';
  fr_queues m q' : s_memqs s' !! m = Some q' -> exists q, s_memqs s !! m = Some q /\ (mq_rq q = [] -> mq_rq q' = []);
}.

#[export] Instance frame_preorder T : PreOrder (frame T).
Proof.
  split; [split; try done; eauto|]. intros s1 s2 s3 [P1 L1 N1 Q1] [P2 L2 N2 Q2]. split.
  - congruence.
  - intros t Ht. by rewrite L2, L1.
  - auto.
  - intros m q (q2 & Hq2 & He2)%Q2. destruct (Q1 m q2 Hq2) as (q1 & ? & ?). eauto.
Qed.

Definition framed T {A} (p : M A) : Prop :=
  forall s a s', calm s -> p s = Done a s' -> calm s' /\ frame T s s'.

Lemma framed_bind T {A B} (p : M A) (k : A -> M B) : framed T p -> (forall a, framed T (k a)) -> framed T (bind p k).
Proof.
  intros Hp Hk s b s' Hc. unfold bind. destruct (p s) as [a s1|] eqn:Hrun; [|done]. intros Hrun'.
  destruct (Hp s a s1 Hc Hrun) as [Hc1 F1]. destruct (Hk a s1 b s' Hc1 Hrun') as [Hc2 F2]. split; [done|]. by transitivity s1.
Qed.

(** A step that changes neither requests nor queues nor who has them. *)
Lemma framed_core T {A} (p : M A) : (forall s a s', p s = Done a s' ->
    s_heap s' = s_heap s /\ s_memqs s' = s_memqs s /\ s_percpu_memq s' = s_percpu_memq s /\ s_submit s' = s_submit s /\
    (s_fails s = [] -> s_fails s' = [])) -> framed T p.
Proof.
  intros Hp s a s' [Hf Hk] Hrun. destruct (Hp s a s' Hrun) as (Hh & Hm & Hpc & Hs & Hfl). split.
  - split; [auto|by rewrite Hm].
  - split; [done|intros t _; unfold daemon_list; by rewrite Hs|unfold no_pending; by rewrite Hh|rewrite Hm; eauto].
Qed.

Lemma framed_ret T {A} (a : A) : framed T (ret a).
Proof. intros s b s' Hc [= _ <-]. split; [done|reflexivity]. Qed.
Lemma framed_fail T {A} f : framed T (fail f : M A).
Proof. done. Qed.
Lemma framed_gets T {A} (f : driver Q -> A) : framed T (gets f).
Proof. intros s b s' Hc [= _ <-]. split; [done|reflexivity]. Qed.
Lemma framed_when T b (p : M unit) : framed T p -> framed T (when b p).
Proof. destruct b; [done|intros _; apply framed_ret]. Qed.

Lemma framed_modify T f : (forall s, s_heap (f s) = s_heap s /\ s_memqs (f s) = s_memqs s /\ s_percpu_memq (f s) = s_percpu_memq s /\
  s_submit (f s) = s_submit s /\ s_fails (f s) = s_fails s) -> framed T (modify f).
Proof. intros Hf. apply framed_core. intros s a s' [= _ <-]. destruct (Hf s) as (? & ? & ? & ? & Hfl). by rewrite Hfl. Qed.

(** No kernel call fails. *)
Lemma framed_fails T {A} (k : bool -> M A) : framed T (k false) -> framed T (bind fails k).
Proof. intros Hk s a s' Hc. unfold bind, fails. rewrite (proj1 Hc). by apply Hk. Qed.
Lemma framed_may_fail T {A} (b : bool) (k : bool -> M A) : framed T (k false) -> framed T (bind (if b then fails else ret false) k).
Proof. destruct b; [apply framed_fails|done]. Qed.

(** *** Requests *)

Lemma framed_get_rq T i : framed T (get_rq i).
Proof. apply framed_core. intros s a s'. unfold get_rq. destruct (s_heap s !! i); [|done]. by intros [= _ <-]. Qed.

Lemma framed_upd_rq T i f : (forall r, rq_blocking_rq r = None -> rq_blocking_rq (f r) = None) -> framed T (upd_rq i f).
Proof.
  intros Hf s a s' Hc. unfold upd_rq. destruct (s_heap s !! i) as [r|] eqn:Hi; [|done]. intros [= _ <-]. split; [done|].
  split; try done; [|eauto]. intros Hn j x Hx. simpl in Hx. apply lookup_insert_Some in Hx as [[<- <-]|[_ Hx]]; [|by eapply Hn].
  apply Hf. by eapply Hn.
Qed.

Lemma framed_free T i : framed T (kv_async_request_free i).
Proof.
  intros s a s' Hc. unfold kv_async_request_free. destruct (s_heap s !! i) as [r|] eqn:Hi; [|done]. intros [= _ <-]. split; [done|].
  split; try done; [|eauto]. intros Hn j x Hx. simpl in Hx. apply lookup_delete_Some in Hx as [_ Hx]. by eapply Hn.
Qed.

(** *** Queues *)

Lemma framed_get_memq T {A} m (k : kv_memqueue_struct -> M A) :
  (forall q, forallb (Z.eqb 0) (mq_key q) = true -> framed T (k q)) -> framed T (bind (get_memq m) k).
Proof.
  intros Hk s a s' Hc. unfold bind, get_memq. destruct (s_memqs s !! m) as [q|] eqn:Hm; [|done].
  apply Hk; [|done]. by apply (proj2 Hc m).
Qed.

Lemma framed_upd_memq T m f : (forall q, (forallb (Z.eqb 0) (mq_key q) = true -> forallb (Z.eqb 0) (mq_key (f q)) = true) /\
  (mq_rq q = [] -> mq_rq (f q) = [])) -> framed T (upd_memq m f).
Proof.
  intros Hf s a s' [Hfl Hk]. unfold upd_memq. destruct (s_memqs s !! m) as [q|] eqn:Hm; [|done]. intros [= _ <-].
  destruct (Hf q) as [Hfk Hfr]. split.
  - split; [done|]. intros x y Hx. simpl in Hx. apply lookup_insert_Some in Hx as [[<- <-]|[_ Hx]]; [apply Hfk|]; by eapply Hk.
  - split; try done. intros x y Hx. simpl in Hx. apply lookup_insert_Some in Hx as [[<- <-]|[_ Hx]]; eauto.
Qed.

Lemma framed_memq_free T m : framed T (kv_memq_free m).
Proof.
  unfold kv_memq_free. apply framed_bind; [by apply framed_upd_memq|intros _]. apply framed_get_memq. intros q Hq.
  intros s a s' [Hf Hk] [= _ <-]. split; [split; [done|]|split; try done]; simpl.
  - intros x y [_ Hx]%lookup_delete_Some. by eapply Hk.
  - intros x y [_ Hx]%lookup_delete_Some. eauto.
Qed.

Lemma framed_get_submitd T t : framed T (get_submitd t).
Proof. apply framed_core. intros s a s'. unfold get_submitd. destruct (s_submit s !! t); [|done]. by intros [= _ <-]. Qed.

(** The list of a daemon of [T] changes, or that of another one does not. *)
Lemma framed_upd_submitd T t f : T t \/ (forall d, sd_mumemq_list (f d) = sd_mumemq_list d) -> framed T (upd_submitd t f).
Proof.
  intros Hf s a s' Hc. unfold upd_submitd. destruct (s_submit s !! t) as [d|] eqn:Hd; [|done]. intros [= _ <-]. split; [done|].
  split; try done; [|eauto]. intros u Hu. unfold daemon_list. simpl. destruct (decide (t = u)) as [<-|Hne].
  - rewrite lookup_insert_eq, Hd. simpl. destruct Hf as [Hf|Hf]; [done|by rewrite Hf].
  - by rewrite lookup_insert_ne.
Qed.

(** *** Tables and the ring *)

Lemma framed_hash_lock T h k : framed T (hash_lock h k).
Proof. apply framed_core. intros s a s'. unfold hash_lock. destruct (decide _); [done|]. intros [= _ <-]. by destruct h. Qed.
Lemma framed_hash_unlock T h k : framed T (hash_unlock h k).
Proof. apply framed_core. intros s a s'. unfold hash_unlock. destruct (decide _); [|done]. intros [= _ <-]. by destruct h. Qed.
Lemma framed_upd_hash T h f : framed T (modify (upd_hash h f)).
Proof. apply framed_modify. intros s. by destruct h. Qed.
Lemma framed_dequeue T : framed T (fun s => let '(a, q) := fifo_dequeue (s_fifo s) in Done a (s <| s_fifo := q |>)).
Proof. apply framed_core. intros s a s'. destruct (fifo_dequeue (s_fifo s)). by intros [= _ <-]. Qed.
Lemma framed_enqueue T i : framed T (fun s => let '(ok, q) := fifo_enqueue (s_fifo s) i in Done ok (s <| s_fifo := q |>)).
Proof. apply framed_core. intros s a s'. destruct (fifo_enqueue (s_fifo s) i). by intros [= _ <-]. Qed.

End Frame.

(** Follows the program to its primitive steps. *)
Ltac frame_tac :=
  repeat match goal with
  | |- context [false || false] => cbn [orb]
  | |- framed _ (bind fails _) => apply framed_fails
  | |- framed _ (bind (if _ then fails else ret false) _) => apply framed_may_fail
  | |- framed _ (bind (get_memq _) _) => apply framed_get_memq; intros ? ?
  | |- framed _ (bind _ _) => apply framed_bind; [|intros ?]
  | Hk : ?b = true |- framed _ (when (negb ?b) _) => rewrite Hk; cbn [negb when]
  | |- framed _ (when _ _) => apply framed_when
  | |- framed _ (ret _) => apply framed_ret
  | |- framed _ (fail _) => apply framed_fail
  | |- framed _ (gets _) => apply framed_gets
  | |- framed _ (get_rq _) => apply framed_get_rq
  | |- framed _ (upd_rq _ _) => apply framed_upd_rq; by intros ?
  | |- framed _ (hash_lock _ _) => apply framed_hash_lock
  | |- framed _ (hash_unlock _ _) => apply framed_hash_unlock
  | |- framed _ (modify (upd_hash _ _)) => apply framed_upd_hash
  | |- framed _ (modify _) => apply framed_modify; by intros ?
  | |- framed _ (get_submitd _) => apply framed_get_submitd
  | |- framed _ (match ?x with _ => _ end) => destruct x
  end.

(** The environment of a sleeping thread stays within the frame. *)
Class PassiveSleep `{KernelHash} `{Device} `{FifoOps Q} (sleep : driver Q -> driver Q) : Prop :=
  passive s : calm s -> calm (sleep s) /\ frame (fun _ => False) s (sleep s).

Section Daemons.
  Context `{KernelHash} `{Device} `{FifoOps Q}.
  Local Abbreviation framed := (framed (Q := Q)).
  Implicit Types T : Z -> Prop.

Lemma framed_spin_lock T i : framed T (spin_lock i).
Proof. unfold spin_lock. frame_tac. Qed.
Lemma framed_spin_unlock T i : framed T (spin_unlock i).
Proof. unfold spin_unlock. frame_tac. Qed.
Lemma framed_free_rq T i : framed T (free_kv_async_rq i).
Proof. unfold free_kv_async_rq, spin_unlock. frame_tac. apply framed_free. Qed.
Lemma framed_put_locked T i : framed T (put_locked i).
Proof. unfold put_locked, atomic_dec_and_test, atomic_dec. frame_tac; [apply framed_free_rq|apply framed_spin_unlock]. Qed.
Lemma framed_search T c : forall k klen, framed T (kv_hash_search c k klen).
Proof. induction c as [|i c IH]; intros k klen; cbn [kv_hash_search]; unfold deref, atomic_inc; frame_tac; auto. Qed.
Lemma framed_hash_delete T h i : framed T (kv_hash_delete h i).
Proof. unfold kv_hash_delete, hlist_del_init, add_nr_rq. frame_tac. Qed.
Lemma framed_insert_readahead T h i : framed T (kv_hash_insert_readahead h i).
Proof. unfold kv_hash_insert_readahead, search, hlist_add_head, add_nr_rq. frame_tac. apply framed_search. Qed.
Lemma framed_pending_rq T h k klen hk : framed T (kv_hash_find_and_lock_pending_rq h k klen hk).
Proof. unfold kv_hash_find_and_lock_pending_rq, search. frame_tac; [apply framed_search|apply framed_spin_lock]. Qed.
Lemma framed_io_bit T n : framed T (test_and_clear_io_bit n).
Proof. unfold test_and_clear_io_bit, clear_io_bit. frame_tac. Qed.
Lemma framed_unblock T r : framed T (unblock_pending r).
Proof.
  unfold unblock_pending. frame_tac; [apply framed_pending_rq|by apply framed_upd_memq|apply framed_put_locked].
Qed.

Lemma framed_complete_one T i : framed T (complete_one i).
Proof.
  unfold complete_one, dec_in_flight, set_rq_bit, clear_rq_bit, atomic_dec_and_test, atomic_dec.
  frame_tac; auto using framed_io_bit, framed_hash_delete, framed_spin_lock, framed_spin_unlock, framed_put_locked,
    framed_insert_readahead, framed_free_rq, framed_unblock.
Qed.

Lemma framed_completion_loop T n : framed T (completion_loop n).
Proof. induction n as [|n IH]; cbn [completion_loop]; frame_tac; auto using framed_dequeue, framed_complete_one. Qed.

Lemma framed_queue_submit T t : framed T (queue_submit_work t).
Proof. apply framed_upd_submitd. by right. Qed.

Lemma framed_completion T n : framed T (kv_completion_workfn n).
Proof. unfold kv_completion_workfn, wake_submit. frame_tac; auto using framed_completion_loop, framed_io_bit, framed_queue_submit. Qed.

Lemma framed_device_complete T i : framed T (device_complete i).
Proof.
  intros s a s' Hc. unfold device_complete at 1, bind at 1, get_rq. destruct (s_heap s !! i) as [r|] eqn:Hi; [|done].
  unfold bind at 1. destruct (dev_exec _ _ _ _) as [d ans].
  match goal with |- kv_end_io_async_rq i ?s1 = _ -> _ => assert (F1 : frame T s s1) end.
  { split; try done; [|eauto]. intros Hn j x Hx. simpl in Hx. apply lookup_insert_Some in Hx as [[<- <-]|[_ Hx]]; [|by eapply Hn].
    by eapply Hn in Hi. }
  intros Hrun. assert (F2 : framed T (kv_end_io_async_rq i)) by (unfold kv_end_io_async_rq; frame_tac; apply framed_enqueue).
  eapply F2 in Hrun as [? ?]; [|exact Hc]. split; [done|by etransitivity].
Qed.

Section Submit.
  Context (sleep : driver Q -> driver Q) `{!PassiveSleep sleep}.
  Variable nr_cpus : Z.

Lemma framed_sleep T : framed T (modify sleep).
Proof. intros s a s' Hc [= _ <-]. destruct (passive s Hc) as [Hc' [? L ? ?]]. split; [done|]. split; auto. Qed.

Lemma framed_submit_one T m cpu i : framed T (submit_one sleep m cpu i).
Proof.
  unfold submit_one, set_rq_bit, clear_rq_bit, atomic_inc_return, set_io_bit, wait_on_io_bit. frame_tac;
    try apply framed_spin_lock; try apply framed_spin_unlock; try apply framed_put_locked; try apply framed_sleep;
    apply framed_upd_memq; intros q; split; try done; simpl; by intros ->.
Qed.

Lemma framed_submit_loop T m cpu l : framed T (submit_loop sleep m cpu l).
Proof. induction l as [|i l IH]; cbn [submit_loop]; frame_tac; auto using framed_submit_one. Qed.

Lemma framed_submission T n t cpu : T t -> framed T (kv_submission_workfn sleep nr_cpus n t cpu).
Proof.
  intros HT. induction n as [|n IH]; cbn [kv_submission_workfn]; [apply framed_fail|].
  unfold __nvme_submit_iosched_kv_cmd, set_io_bit. frame_tac; try (apply framed_upd_submitd; by left);
    auto using framed_submit_loop, framed_memq_free.
Qed.
End Submit.
End Daemons.
