(* ===== verification/KvAsync.v ===== *)
(** * Asynchronous commands

    [nvme_kv_iosched_cmd] of kv_core.c in a state that satisfies the invariant:
    it does not fault, keeps the invariant, and its put or delete becomes the
    newest write of the key in the map the clients see. *)

From Stdlib Require Import ZArith Lia Bool.
From stdpp Require Import base list gmap.
From S2P Require Import Prelude KvFifo KvCmd KvState KvHash KvIosched KvCore KvInv KvExec KvHashSpec KvTrans KvView KvDaemons KvSubmit.

(** ** Commands *)

(** A plain put, get or delete with a key of at most 16 bytes, zero-padded, and
    a value of whole dwords. *)
Record cmd_ok `{ReadLen} (cmd : nvme_passthru_kv_cmd) : Prop := {
  co_opcode : is_write (opcode cmd) || is_kv_retrieve_cmd (opcode cmd) = true;
  co_flags : flags cmd = 0;
  co_option : cdw4 cmd = 0 /\ cdw5 cmd = 0;
  co_key : key_wf (key cmd) (key_length cmd);
  co_length : 0 <= data_length cmd /\ 4 * (data_length cmd / 4) = data_length cmd;
  co_store : is_kv_store_cmd (opcode cmd) = true -> Z.of_nat (length (default [] (udata cmd))) = data_length cmd;
  co_delete : is_kv_delete_cmd (opcode cmd) = true -> data_length cmd = 0;
  co_read : is_kv_retrieve_cmd (opcode cmd) = true -> data_length cmd = read_len (key cmd, key_length cmd);
}.

Definition cmd_key (cmd : nvme_passthru_kv_cmd) : list Z * Z := (key cmd, key_length cmd).

(** The map after a command. *)
Definition apply_cmd (cmd : nvme_passthru_kv_cmd) (V : kvmap) : kvmap :=
  if is_kv_store_cmd (opcode cmd) then set_val (cmd_key cmd) (Some (default [] (udata cmd))) V
  else if is_kv_delete_cmd (opcode cmd) then set_val (cmd_key cmd) None V
  else V.

Lemma cmd_opcode `{ReadLen} cmd : cmd_ok cmd ->
  opcode cmd = nvme_cmd_kv_store \/ opcode cmd = nvme_cmd_kv_retrieve \/ opcode cmd = nvme_cmd_kv_delete.
Proof.
  intros Hc. pose proof (co_opcode _ Hc) as Ho. unfold is_write, is_kv_store_cmd, is_kv_delete_cmd, is_kv_retrieve_cmd in Ho.
  rewrite !orb_true_iff, !Z.eqb_eq in Ho. tauto.
Qed.

Lemma memcpy_key k klen : key_wf k klen -> memcpy (replicate 16 0) k klen = k.
Proof.
  intros (Hl & _ & Hk & Hp). unfold memcpy. rewrite drop_replicate, <- Hp. apply take_drop.
Qed.

(** The command the device gets. *)
Lemma set_kv_cmd_ok `{ReadLen} cmd : cmd_ok cmd ->
  let c := set_kv_cmd zero_command cmd in
  c_opcode c = opcode cmd /\ c_option c = 0 /\ c_offset c = 0 /\ c_key c = key cmd /\
  c_key_len c = u8 (key_length cmd - 1) /\ 4 * c_value_len c = data_length cmd.
Proof.
  intros Hc c. pose proof (memcpy_key _ _ (co_key _ Hc)) as Hk. destruct (co_key _ Hc) as (_ & _ & Hlen & _).
  assert (Hin : (key_length cmd <=? KVCMD_INLINE_KEY_MAX) = true) by (apply Z.leb_le; apply Hlen).
  destruct (co_option _ Hc) as [Ho1 Ho2]. destruct (co_length _ Hc) as [_ Hd]. subst c. unfold set_kv_cmd. rewrite Hin, Ho1, Ho2.
  assert (Hsh : Z.shiftr (data_length cmd) 2 = data_length cmd / 4) by by rewrite Z.shiftr_div_pow2.
  destruct (cmd_opcode _ Hc) as [Heq|[Heq|Heq]]; pose proof (co_delete _ Hc) as Hdel; rewrite Heq in *; simpl.
  - rewrite Hsh. repeat split; auto.
  - rewrite Hsh. repeat split; auto.
  - repeat split; auto. by rewrite Hdel.
Qed.

(** The data buffer of the new request. *)
Definition cmd_data (cmd : nvme_passthru_kv_cmd) : option (list Z) :=
  if data_length cmd =? 0 then None
  else if is_kv_store_cmd (opcode cmd) then Some (take (Z.to_nat (data_length cmd)) (default [] (udata cmd)))
  else Some (replicate (Z.to_nat (data_length cmd)) 0).

(** The request [init_kv_async_request] sets up. *)
Definition new_rq `{KernelHash} (cmd : nvme_passthru_kv_cmd) : kv_async_request :=
  {| rq_c := set_kv_cmd zero_command cmd; rq_state := 0; rq_data_addr := cmd_data cmd;
     rq_data_length := data_length cmd; rq_key_addr := KeyInline; rq_key_length := key_length cmd;
     rq_req := false; rq_cqe := 0; rq_req_errors := 0; rq_result := 0; rq_errors := 0;
     rq_blocking_rq := None; rq_lock := false; rq_hash_key := get_hash_key (key cmd) (key_length cmd);
     rq_hash := None; rq_memq := None; rq_refcount := 1; rq_cpu := None |}.

Lemma new_rq_base `{KernelHash} `{ReadLen} cmd : cmd_ok cmd -> rq_base (new_rq cmd).
Proof.
  intros Hc. destruct (set_kv_cmd_ok cmd Hc) as (H1 & H2 & H3 & H4 & H5 & H6). split; simpl; try done.
  - rewrite H4. apply (co_key _ Hc).
  - by rewrite H4.
  - rewrite H1. apply (co_opcode _ Hc).
  - unfold cmd_data. destruct (co_length _ Hc) as [Hpos _]. destruct (Z.eqb_spec (data_length cmd) 0) as [|Hne]; [done|].
    destruct (is_kv_store_cmd (opcode cmd)) eqn:Hs.
    + rewrite length_take. pose proof (co_store _ Hc Hs). split; [lia|]. intros Hn. apply (f_equal length) in Hn.
      rewrite length_take in Hn. simpl in Hn. lia.
    + rewrite length_replicate. split; [lia|]. intros Hn. apply (f_equal length) in Hn. rewrite length_replicate in Hn. simpl in Hn. lia.
  - rewrite H1. apply (co_delete _ Hc).
  - rewrite H1. unfold kid. simpl. rewrite H4. apply (co_read _ Hc).
Qed.

Lemma new_rq_kid `{KernelHash} `{ReadLen} cmd : cmd_ok cmd -> kid (new_rq cmd) = cmd_key cmd.
Proof. intros Hc. destruct (set_kv_cmd_ok cmd Hc) as (_ & _ & _ & Hk & _). unfold kid, cmd_key. simpl. by rewrite Hk. Qed.

Lemma new_rq_opcode `{KernelHash} `{ReadLen} cmd : cmd_ok cmd -> c_opcode (rq_c (new_rq cmd)) = opcode cmd.
Proof. intros Hc. by destruct (set_kv_cmd_ok cmd Hc) as (Ho & _). Qed.

(** The value it writes. *)
Lemma new_rq_wval `{KernelHash} `{ReadLen} cmd : cmd_ok cmd -> is_kv_store_cmd (opcode cmd) = true ->
  default [] (rq_data_addr (new_rq cmd)) = default [] (udata cmd).
Proof.
  intros Hc Hs. pose proof (co_store _ Hc Hs) as Hl. simpl. unfold cmd_data. rewrite Hs.
  destruct (Z.eqb_spec (data_length cmd) 0) as [Hz|]; simpl.
  - symmetry. apply length_zero_iff_nil. lia.
  - rewrite <- Hl, Nat2Z.id. apply firstn_all.
Qed.

Section Async.
  Context `{KernelHash} `{KvDevice} `{Fifo Q cap} `{ReadLen} {R : Raced}.
  Variable nr_cpus : Z.
  Context (sleep : driver Q -> driver Q) `{!QuietSleep nr_cpus sleep}.
  Local Abbreviation Inv := (Inv nr_cpus).
  Local Abbreviation Sim := (Sim nr_cpus).
  Implicit Types s : driver Q.
  Implicit Types g : ghost.
  Implicit Types V : kvmap.

(** ** A new request *)

(** The locked new request of the command, alone in the slab. *)
Definition fresh_rq (cmd : nvme_passthru_kv_cmd) s : driver Q :=
  put_rq (s_next_rq s) ((new_rq cmd) <| rq_lock := true |>) (bump s).

(** Allocating, filling in and locking it. *)
Lemma alloc_eq s : s_fails s = [] ->
  kv_async_request_alloc s = Done (s_next_rq s) (put_rq (s_next_rq s) zero_request (bump s)).
Proof. intros Hf. unfold kv_async_request_alloc, bind. by rewrite fails_eq. Qed.

Lemma init_eq s cmd a : s_fails s = [] -> cmd_ok cmd ->
  init_kv_async_request a cmd (get_hash_key (key cmd) (key_length cmd)) (put_rq a zero_request (bump s)) =
  Done (KVS_SUCCESS, 0) (put_rq a (new_rq cmd) (bump s)).
Proof.
  intros Hf Hc. unfold init_kv_async_request. run (upd_rq_eq _ a _ _ (put_rq_lookup a zero_request (bump s))). rewrite put_rq_twice.
  set (r1 := zero_request <| rq_c := set_kv_cmd zero_command cmd |>). set (s1 := put_rq a r1 (bump s)).
  assert (Hdata : (if data_length cmd =? 0 then ret (inr None)
    else nomem <- fails ;;
      if nomem : bool then ret (inl (ENOMEM, KVS_ERR_NOMEM))
      else if is_kv_store_cmd (opcode cmd) then bad <- fails ;;
        if bad : bool then ret (inl (EFAULT, KVS_ERR_FAULT))
        else ret (inr (Some (take (Z.to_nat (data_length cmd)) (default [] (udata cmd)))))
      else ret (inr (Some (replicate (Z.to_nat (data_length cmd)) 0)))) s1 = Done (inr (cmd_data cmd)) s1).
  { unfold cmd_data. destruct (data_length cmd =? 0); [done|]. run (fails_eq s1 Hf).
    destruct (is_kv_store_cmd (opcode cmd)); [by run (fails_eq s1 Hf)|done]. }
  run Hdata. run (upd_rq_eq _ a r1 _ (put_rq_lookup a r1 (bump s))). rewrite put_rq_twice. unfold ret. do 2 f_equal.
  destruct (co_key _ Hc) as (_ & _ & Hlen & _).
  assert ((key_length cmd <=? KVCMD_INLINE_KEY_MAX) = true) as -> by (apply Z.leb_le; apply Hlen). reflexivity.
Qed.

Lemma lock_eq s cmd : spin_lock (s_next_rq s) (put_rq (s_next_rq s) (new_rq cmd) (bump s)) = Done tt (fresh_rq cmd s).
Proof.
  etransitivity; [exact (spin_lock_eq _ _ (new_rq cmd) (put_rq_lookup _ (new_rq cmd) (bump s)) eq_refl)|].
  by rewrite put_rq_twice.
Qed.

Lemma searchable_new s r : searchable s -> s_heap s !! s_next_rq s = None -> rq_hash r = None ->
  searchable (put_rq (s_next_rq s) r (bump s)).
Proof.
  intros [Hh Hw Hu] Ha Hr. split.
  - by apply HashInv_new.
  - intros j rj h k [[<- <-]|[_ Hj]]%put_rq_Some Hhj; [congruence|by eapply Hw].
  - intros h. specialize (Hu h). by destruct h.
Qed.

(** The slab hands out a new number; nothing else changes. *)
Lemma sim_bump g s V : Sim g s V -> Sim g (bump s) V.
Proof.
  intros [HI HV]. split; [|by apply (view_core s)].
  destruct HI as [Ibase Iplace Ihash Ilocks Inr Imemq Ifl Ira Ipend Iblk Iq Ifresh Ififo Ifails Ilag].
  split; try done. intros i Hi. specialize (Ifresh i Hi). simpl. lia.
Qed.

Lemma drop_fresh cmd s : s_heap s !! s_next_rq s = None -> drop_rq (s_next_rq s) (fresh_rq cmd s) = bump s.
Proof.
  intros Ha. unfold fresh_rq. rewrite drop_put_rq. unfold drop_rq, bump, upd. simpl. by rewrite delete_id.
Qed.

(** The three outcomes of inserting it: alone, behind a request in flight, or
    merged with a buffered one. *)
Lemma insert_fresh g s V cmd n : Sim g s V -> cmd_ok cmd ->
  let a := s_next_rq s in let r := (new_rq cmd) <| rq_lock := true |> in
  (absent KV_RQ_HASH (cmd_key cmd) s /\
   kv_hash_insert (S n) KV_RQ_HASH a (fresh_rq cmd s) = Done None (nr_add KV_RQ_HASH 1 (link a r KV_RQ_HASH (rq_hash_key r) (fresh_rq cmd s)))) \/
  (exists b rb, present KV_RQ_HASH (key cmd) (key_length cmd) b rb s /\ a <> b /\
   kv_hash_insert (S n) KV_RQ_HASH a (fresh_rq cmd s) =
   if flying rb then Done None (displace KV_RQ_HASH a b r rb (fresh_rq cmd s))
   else Done (Some b) (put_rq b (held rb) (fresh_rq cmd s))).
Proof.
  intros [HI HV] Hc a r. pose proof (inv_fresh_none _ g s HI) as Ha. fold a in Ha.
  pose proof (new_rq_base cmd Hc) as Hb. pose proof (new_rq_kid cmd Hc) as Hk.
  assert (Hs : searchable (fresh_rq cmd s)) by (apply searchable_new; [by eapply inv_searchable|done|done]).
  assert (Hp : forall b rb k klen, present KV_RQ_HASH k klen b rb (fresh_rq cmd s) -> present KV_RQ_HASH k klen b rb s).
  { intros b rb k klen (Hlk & Hh & Hkid). apply put_rq_Some in Hlk as [[_ <-]|[_ Hlk]]; [done|]. by split. }
  unfold kid, cmd_key in Hk. injection Hk as Hk1.
  destruct (kv_hash_insert_spec n (fresh_rq cmd s) KV_RQ_HASH a r) as [[Habs Heq]|(b & rb & Hpr & Hne & Heq)]; try done.
  - apply put_rq_lookup.
  - destruct Hb. by split.
  - apply Hb.
  - intros b rb Hpr. by destruct (inv_present_rq _ g s _ _ b rb HI (Hp _ _ _ _ Hpr)) as [? _].
  - left. split; [|exact Heq]. intros j rj k Hj Hhj. rewrite <- (new_rq_kid cmd Hc). apply (Habs j rj k); [|done].
    unfold fresh_rq. rewrite put_rq_lookup_ne; [done|]. intros <-. subst a. congruence.
  - right. exists b, rb. apply Hp in Hpr. simpl in Hpr. rewrite Hk1 in Hpr. done.
Qed.

(** ** Merging with a buffered request *)

(** The buffered request takes the command and the data of the new one. *)
Definition merged (cmd : nvme_passthru_kv_cmd) (rb : kv_async_request) : kv_async_request :=
  rb <| rq_data_addr := cmd_data cmd |> <| rq_data_length := data_length cmd |>
     <| rq_c := set_kv_cmd zero_command cmd |>.

Lemma merged_base cmd rb : cmd_ok cmd -> rq_base rb -> kid rb = cmd_key cmd -> rq_base (merged cmd rb).
Proof.
  intros Hc Hb Hk. pose proof (new_rq_base cmd Hc) as Hn. destruct (set_kv_cmd_ok cmd Hc) as (_ & _ & _ & Hck & _).
  unfold kid, cmd_key in Hk. injection Hk as Hk1 Hk2.
  split; try apply Hn; try apply Hb; simpl; rewrite ?Hck, ?Hk2.
  - apply (co_key _ Hc).
  - by rewrite (rb_hash_key _ Hb), Hk1, Hk2.
  - apply Hn.
  - intros Hr. change (kid (merged cmd rb)) with (c_key (set_kv_cmd zero_command cmd), rq_key_length rb).
    rewrite Hk2. by apply (rb_read _ Hn).
Qed.

Lemma is_write_cases cmd : cmd_ok cmd -> is_kv_retrieve_cmd (opcode cmd) = false -> is_write (opcode cmd) = true.
Proof. intros Hc Hr. pose proof (co_opcode _ Hc) as Ho. by rewrite Hr, orb_false_r in Ho. Qed.

Lemma apply_read cmd V : is_kv_retrieve_cmd (opcode cmd) = true -> apply_cmd cmd V = V.
Proof. unfold is_kv_retrieve_cmd, apply_cmd. by intros ->%Z.eqb_eq. Qed.

(** A write of the command as a value for its key. *)
Definition cmd_val (cmd : nvme_passthru_kv_cmd) : option (list Z) :=
  if is_kv_store_cmd (opcode cmd) then Some (default [] (udata cmd)) else None.

Lemma apply_write cmd V : is_write (opcode cmd) = true -> apply_cmd cmd V = set_val (cmd_key cmd) (cmd_val cmd) V.
Proof.
  unfold apply_cmd, cmd_val, is_write. destruct (is_kv_store_cmd (opcode cmd)); [done|]. simpl. by intros ->.
Qed.

Lemma wval_cmd cmd r : cmd_ok cmd -> c_opcode (rq_c r) = opcode cmd -> rq_data_addr r = cmd_data cmd -> wval r = cmd_val cmd.
Proof.
  intros Hc Ho Hd. unfold wval, cmd_val. rewrite Ho, Hd. destruct (is_kv_store_cmd (opcode cmd)) eqn:Hs; [|done].
  f_equal. apply (new_rq_wval cmd Hc Hs).
Qed.

(** The only buffered write of a key is the request the table holds. *)
Lemma hashed_sole g s b rb j v : Inv g s -> s_heap s !! b = Some rb -> rq_hash rb = Some (KV_RQ_HASH, rq_hash_key rb) ->
  j <> b -> ~ live s j (kid rb, false, v).
Proof.
  intros HI Hb Hh Hne (x & Hj & (Hk & Hf & _ & _ & Hbf)%lw_kid). rewrite Hf, orb_false_r in Hbf. apply Hne.
  eapply (hi_uniq _ _ (inv_hash _ _ _ HI) KV_RQ_HASH _ _ j b x rb); eauto. by eapply (buffered_hashed _ g s j).
Qed.

Lemma sim_merge g s V cmd b rb : Sim g s V -> cmd_ok cmd -> s_heap s !! b = Some rb ->
  rq_hash rb = Some (KV_RQ_HASH, rq_hash_key rb) -> kid rb = cmd_key cmd -> flying rb = false ->
  is_write (opcode cmd) = true -> Sim g (put_rq b (merged cmd rb) s) (set_val (cmd_key cmd) (cmd_val cmd) V).
Proof.
  intros [HI HV] Hc Hb Hh Hk Hf Hw. pose proof (new_rq_opcode cmd Hc) as Hop. simpl in Hop.
  destruct (inv_hashed _ g s b rb _ _ HI Hb Hh) as (_ & Hra & Hco & Hinv & Hbl).
  assert (Hbuf : buffered rb = true) by (unfold buffered; by rewrite Hra, Hf, Hinv).
  assert (Hk' : kid (merged cmd rb) = kid rb).
  { rewrite Hk. pose proof (new_rq_kid cmd Hc) as Hk'. unfold kid, cmd_key in *. injection Hk as _ Hk2. simpl in *. congruence. }
  split.
  - eapply inv_same_shape; [done|done| |apply merged_base; [done|by eapply inv_base|done]|].
    + unfold shape. by rewrite Hk'.
    + pose proof (inv_place _ _ _ HI b rb Hb) as Hp. unfold place_ok in *.
      change (in_ra (merged cmd rb)) with (in_ra rb). change (flying (merged cmd rb)) with (flying rb).
      rewrite Hra, Hf in *. destruct Hp as [[] ?]. by split.
  - rewrite <- Hk. apply view_write; try done.
    + unfold lw. simpl. rewrite Hop, Hw. change (buffered (merged cmd rb)) with (buffered rb). rewrite Hbuf. simpl.
      rewrite Hk'. change (flying (merged cmd rb)) with (flying rb). rewrite Hf. by rewrite (wval_cmd cmd).
    + intros j w Hne. by eapply hashed_sole.
    + intros kk f w (x & Hx & (Hkx & Hfx & _)%lw_kid). simplify_eq. by rewrite Hf.
    + pose proof (notin_flying _ g s b rb HI Hb Hf) as Hn. unfold flying_list in Hn. rewrite !elem_of_app in Hn. tauto.
    + intros Hr j. by eapply (not_reading_buffered nr_cpus g s V b).
Qed.

Lemma merge_ok g s V cmd b rb : Sim g s V -> cmd_ok cmd -> present KV_RQ_HASH (key cmd) (key_length cmd) b rb s ->
  s_next_rq s <> b -> flying rb = false ->
  exists s', merge_buffered cmd (s_next_rq s) b (put_rq b (held rb) (fresh_rq cmd s)) = Done tt s' /\ Sim g s' (apply_cmd cmd V) /\ gets_kept s s'.
Proof.
  intros HS Hc Hp Hne Hf. pose proof HS as [HI HV]. pose proof (inv_fresh_none _ g s HI) as Ha. set (a := s_next_rq s) in *.
  destruct (inv_present_rq _ g s _ _ b rb HI Hp) as ((Hl & Hr & _) & Hhk & _). destruct Hp as (Hb & Hh & Hk).
  set (r := (new_rq cmd) <| rq_lock := true |>).
  assert (Hb' : s_heap (fresh_rq cmd s) !! b = Some rb) by (unfold fresh_rq; by rewrite put_rq_lookup_ne).
  assert (Hfree : put_locked a (fresh_rq cmd s) = Done tt (bump s)).
  { etransitivity; [exact (put_locked_free _ a r (put_rq_lookup a r (bump s)) eq_refl eq_refl)|]. f_equal. by apply drop_fresh. }
  unfold merge_buffered. destruct (is_kv_retrieve_cmd (opcode cmd)) eqn:Hop.
  - rewrite (bind_done _ _ _ _ _ (put_held (fresh_rq cmd s) b rb Hb' Hl Hr)). exists (bump s). split; [exact Hfree|].
    rewrite apply_read by done. split; [by apply sim_bump|by apply gets_core].
  - pose proof (is_write_cases cmd Hc Hop) as Hw. rewrite (apply_write cmd V Hw).
    exists (put_rq b (merged cmd rb) (bump s)). split; [|split; [apply sim_merge; try done; [by apply sim_bump|by rewrite Hhk]|]].
    2:{ transitivity (bump s); [by apply gets_core|]. apply gets_put. unfold lr.
        by rewrite (new_rq_opcode cmd Hc : c_opcode (rq_c (merged cmd rb)) = _), Hop. }
    assert (Ha1 : s_heap (put_rq b (held rb) (fresh_rq cmd s)) !! a = Some r).
    { rewrite put_rq_lookup_ne by done. apply put_rq_lookup. }
    run (get_rq_eq _ a r Ha1). run (upd_rq_eq _ b _ _ (put_rq_lookup b (held rb) (fresh_rq cmd s))). rewrite put_rq_twice.
    change (put_rq b _ (fresh_rq cmd s)) with (put_rq b (held (merged cmd rb)) (fresh_rq cmd s)).
    run (put_held_put (fresh_rq cmd s) b (merged cmd rb) Hl Hr). unfold fresh_rq. fold a r. rewrite put_rq_comm by done.
    run (upd_rq_eq _ a r _ (put_rq_lookup a r (put_rq b (merged cmd rb) (bump s)))). rewrite put_rq_twice.
    set (r1 := r <| rq_data_addr := None |> <| rq_data_length := 0 |>).
    etransitivity; [exact (put_locked_free _ a r1 (put_rq_lookup a r1 _) eq_refl eq_refl)|]. rewrite drop_put_rq. f_equal.
    unfold drop_rq, put_rq, bump, upd. simpl. rewrite delete_insert_ne by done. by rewrite delete_id.
Qed.

(** ** Adding to a memory queue *)

(** The queue with the new request in front; [pd] says it is pending. *)
Definition queue_cons (a : positive) (pd : bool) (q : kv_memqueue_struct) : kv_memqueue_struct :=
  let q1 := q <| mq_rq ::= cons a |> <| mq_nr_rq ::= Z.add 1 |> in
  if pd then q1 <| mq_nr_pending ::= Z.add 1 |> else q1.

Lemma enqueue_alone s a m q r : s_memqs s !! m = Some q -> rq_lock r = true -> rq_blocking_rq r = None ->
  enqueue_memq a m (put_rq a r s) =
  Done tt (put_memq m (queue_cons a false q) (put_rq a (r <| rq_memq := Some m |> <| rq_lock := false |>) s)).
Proof.
  intros Hm Hl Hb. unfold enqueue_memq. run (upd_rq_eq _ a r _ (put_rq_lookup a r s)). rewrite put_rq_twice.
  set (r1 := r <| rq_memq := Some m |>).
  run (upd_memq_eq (put_rq a r1 s) m q (fun q => q <| mq_rq ::= cons a |> <| mq_nr_rq ::= Z.add 1 |>) Hm).
  fold (queue_cons a false q). rewrite put_memq_put_rq.
  run (get_rq_eq _ a r1 (put_rq_lookup a r1 _)). rewrite (Hb : rq_blocking_rq r1 = None).
  set (s1 := put_memq m (queue_cons a false q) s). run (eq_refl : ret tt (put_rq a r1 s1) = Done tt (put_rq a r1 s1)).
  rewrite (spin_unlock_eq _ a r1 (put_rq_lookup a r1 s1) Hl). by rewrite put_rq_twice.
Qed.

Lemma enqueue_pending s a b m q r rb : s_memqs s !! m = Some q -> rq_lock r = true -> rq_blocking_rq r = Some b ->
  a <> b -> rq_lock rb = false -> rq_refcount rb <> 0 ->
  enqueue_memq a m (put_rq a r (put_rq b (held rb) s)) =
  Done tt (put_memq m (queue_cons a true q) (put_rq a (r <| rq_memq := Some m |> <| rq_lock := false |>) (put_rq b rb s))).
Proof.
  intros Hm Hl Hb Hne Hlb Hrb. unfold enqueue_memq. run (upd_rq_eq _ a r _ (put_rq_lookup a r (put_rq b (held rb) s))). rewrite put_rq_twice.
  set (r1 := r <| rq_memq := Some m |>). set (s1 := put_rq b (held rb) s).
  run (upd_memq_eq (put_rq a r1 s1) m q (fun q => q <| mq_rq ::= cons a |> <| mq_nr_rq ::= Z.add 1 |>) Hm).
  fold (queue_cons a false q). rewrite put_memq_put_rq.
  run (get_rq_eq _ a r1 (put_rq_lookup a r1 _)). rewrite (Hb : rq_blocking_rq r1 = Some b).
  assert (Hstep : (upd_memq m (fun q => q <| mq_nr_pending ::= Z.add 1 |>) ;; put_locked b)
    (put_rq a r1 (put_memq m (queue_cons a false q) s1)) =
    Done tt (put_rq a r1 (put_rq b rb (put_memq m (queue_cons a true q) s)))).
  { run (upd_memq_eq (put_rq a r1 (put_memq m (queue_cons a false q) s1)) m (queue_cons a false q) _ (put_memq_lookup m _ s1)).
    fold (queue_cons a true q). rewrite put_memq_put_rq, put_memq_twice. subst s1. rewrite put_memq_put_rq, put_rq_comm by done.
    rewrite (put_held_put _ b rb Hlb Hrb). by rewrite put_rq_comm. }
  run Hstep. rewrite (spin_unlock_eq _ a r1 (put_rq_lookup a r1 _) Hl). rewrite put_rq_twice. by rewrite <- !put_memq_put_rq.
Qed.

(** The new request in its queue. *)
Definition queued_rq (cmd : nvme_passthru_kv_cmd) (m : positive) (blk : option positive) : kv_async_request :=
  (new_rq cmd) <| rq_hash := Some (KV_RQ_HASH, get_hash_key (key cmd) (key_length cmd)) |>
    <| rq_blocking_rq := blk |> <| rq_memq := Some m |>.

Lemma queued_rq_ok cmd m blk : cmd_ok cmd -> rq_base (queued_rq cmd m blk) /\ buf_ok (queued_rq cmd m blk) /\
  in_ra (queued_rq cmd m blk) = false /\ flying (queued_rq cmd m blk) = false /\ buffered (queued_rq cmd m blk) = true /\
  kid (queued_rq cmd m blk) = cmd_key cmd /\ rq_hash (queued_rq cmd m blk) = Some (KV_RQ_HASH, rq_hash_key (queued_rq cmd m blk)).
Proof.
  intros Hc. pose proof (new_rq_base cmd Hc) as Hb. split; [by destruct Hb; split|]. split; [by split|].
  do 3 (split; [done|]). split; [apply (new_rq_kid cmd Hc)|done].
Qed.

Lemma lw_queued cmd m blk : cmd_ok cmd ->
  lw (queued_rq cmd m blk) = if is_write (opcode cmd) then Some (cmd_key cmd, false, cmd_val cmd) else None.
Proof.
  intros Hc. destruct (queued_rq_ok cmd m blk Hc) as (_ & _ & _ & Hf & Hbuf & Hk & _). unfold lw. rewrite Hbuf, Hf, Hk. simpl.
  rewrite (new_rq_opcode cmd Hc : c_opcode (set_kv_cmd zero_command cmd) = opcode cmd), andb_true_r.
  destruct (is_write (opcode cmd)); [|done]. rewrite (wval_cmd cmd _ Hc (new_rq_opcode cmd Hc : c_opcode _ = _)); done.
Qed.

Lemma lr_queued cmd m blk : cmd_ok cmd ->
  lr (queued_rq cmd m blk) = if is_kv_retrieve_cmd (opcode cmd) then Some (cmd_key cmd, None) else None.
Proof.
  intros Hc. destruct (queued_rq_ok cmd m blk Hc) as (_ & _ & Hra & Hf & _ & Hk & _). unfold lr. rewrite Hra, Hf, Hk.
  by rewrite (new_rq_opcode cmd Hc : c_opcode (rq_c (queued_rq cmd m blk)) = opcode cmd).
Qed.
Lemma gets_queued i cmd m blk s : cmd_ok cmd -> gets_kept s (put_rq i (queued_rq cmd m blk) s).
Proof. intros Hc. apply gets_put. rewrite lr_queued by done. by destruct (is_kv_retrieve_cmd (opcode cmd)). Qed.

(** The map when a new request is added to a state without buffered write of
    its key. *)
Lemma view_queued g s V cmd m blk : Inv g s -> View s V -> cmd_ok cmd -> absent KV_RQ_HASH (cmd_key cmd) s ->
  (raced (cmd_key cmd) = false -> forall j, ~ reading s j (cmd_key cmd)) ->
  View (put_rq (s_next_rq s) (queued_rq cmd m blk) s) (apply_cmd cmd V).
Proof.
  intros HI HV Hc Ha Hnr. pose proof (inv_fresh_none _ g s HI) as Hn. pose proof (lw_queued cmd m blk Hc) as Hlw.
  destruct (is_write (opcode cmd)) eqn:Hw.
  - rewrite (apply_write cmd V Hw). apply view_write; [done| | | |done|done].
    + intros j w _ (x & Hj & (Hk & Hf & _ & _ & Hbf)%lw_kid). rewrite Hf, orb_false_r in Hbf.
      apply (Ha j x (rq_hash_key x)); [done|by eapply (buffered_hashed _ g s j)|done].
    + intros kk f w (x & Hx & _). congruence.
    + intros Hin. destruct (inv_flying _ _ _ HI) as [_ Hfl]. destruct (Hfl (s_next_rq s)) as (x & Hx & _).
      { unfold flying_list. rewrite !elem_of_app. auto. }
      congruence.
  - assert (Hr : is_kv_retrieve_cmd (opcode cmd) = true) by (pose proof (co_opcode _ Hc) as Ho; by rewrite Hw in Ho).
    rewrite (apply_read cmd V Hr). apply (view_new _ _ _ (cmd_key cmd)); try done. by rewrite lr_queued, Hr.
Qed.

Lemma queue_cons_eq m q a pd s : put_memq m (queue_cons a pd q) s = queue_new m q a (b2z pd) s.
Proof. unfold queue_new. f_equal. destruct q, pd; unfold queue_cons, upd; simpl; f_equal. Qed.

(** The state after a new request has been queued alone. *)
Definition queued_alone (cmd : nvme_passthru_kv_cmd) (m : positive) (q : kv_memqueue_struct) s : driver Q :=
  put_memq m (queue_cons (s_next_rq s) false q) (put_rq (s_next_rq s) (queued_rq cmd m None)
    (nr_add KV_RQ_HASH 1 (add_chain KV_RQ_HASH (get_hash_key (key cmd) (key_length cmd)) (s_next_rq s) (bump s)))).

Lemma sim_alone g s V cmd m q : Sim g s V -> settled_ghost g -> cmd_ok cmd -> s_memqs s !! m = Some q ->
  absent KV_RQ_HASH (cmd_key cmd) s -> (raced (cmd_key cmd) = false -> forall j, ~ reading s j (cmd_key cmd)) ->
  Sim g (queued_alone cmd m q s) (apply_cmd cmd V) /\ gets_kept s (queued_alone cmd m q s).
Proof.
  intros [HI HV] [Ho _] Hc Hm Ha Hnr. split; [|transitivity (put_rq (s_next_rq s) (queued_rq cmd m None) s); [by apply gets_queued|by apply gets_core]]. destruct (queued_rq_ok cmd m None Hc) as (Hb & Hbuf & Hra & Hf & _ & Hk & Hh). split.
  - unfold queued_alone. rewrite queue_cons_eq. assert (Hg : g = g <| g_orphan := [] |>) by (destruct g; simpl in *; by subst).
    rewrite Hg in HI |- *. pose proof (inv_add nr_cpus g [] [] s (queued_rq cmd m None) m q HI Hm Hb Hbuf Hh Hra Hf eq_refl) as HA.
    apply HA; [done| |by rewrite Hk]. intros b Hbn. by apply elem_of_nil in Hbn.
  - apply (view_core (put_rq (s_next_rq s) (queued_rq cmd m None) s)); [done|done|done|]. by eapply view_queued.
Qed.

(** The state after a new request has been queued behind [b], which is in
    flight. *)
Definition displaced (rb : kv_async_request) : kv_async_request :=
  rb <| rq_hash := None |> <| rq_state ::= set_bit KV_async_blocking_rq |>.

Definition queued_pending (cmd : nvme_passthru_kv_cmd) (m : positive) (q : kv_memqueue_struct) (b : positive)
    (rb : kv_async_request) s : driver Q :=
  put_memq m (queue_cons (s_next_rq s) true q) (put_rq (s_next_rq s) (queued_rq cmd m (Some b)) (put_rq b (displaced rb)
    (upd_hash KV_RQ_HASH (fun t => t <| h_table ::= <[rq_hash_key rb :=
       s_next_rq s :: filter (fun j => j <> b) (chain t (rq_hash_key rb))]> |>) (bump s)))).

Lemma displaced_bits rb : blocking (displaced rb) = true /\ flying (displaced rb) = flying rb /\ in_ra (displaced rb) = in_ra rb /\
  completed (displaced rb) = completed rb /\ invalid (displaced rb) = invalid rb.
Proof. unfold displaced, blocking, flying, in_ra, completed, invalid, bit. simpl. by autorewrite with flags. Qed.

Lemma lw_displaced rb : lw (displaced rb) = lw rb.
Proof.
  destruct (displaced_bits rb) as (_ & B2 & B3 & _ & B5). unfold lw, buffered. rewrite B2, B3, B5. done.
Qed.

Lemma lr_displaced rb : lr (displaced rb) = lr rb.
Proof.
  destruct (displaced_bits rb) as (_ & B2 & B3 & _ & B5). unfold lr. by rewrite B2, B3, B5.
Qed.

(** [b] makes room for the new request. *)
Lemma sim_displace g s V b rb : Sim g s V -> g_orphan g = [] -> s_heap s !! b = Some rb ->
  rq_hash rb = Some (KV_RQ_HASH, rq_hash_key rb) -> flying rb = true ->
  let s1 := put_rq b (displaced rb) (unhash b rb s) in
  Sim (g <| g_orphan := [b] |>) s1 V /\ absent KV_RQ_HASH (kid rb) s1.
Proof.
  intros [HI HV] Ho Hb Hh Hf s1. destruct (displaced_bits rb) as (B1 & B2 & B3 & B4 & B5).
  destruct (flying_ok _ g s b rb HI Hb Hf) as (Hra & [[Hc Hinv] _ Hpd Hreq Hcpu] & Hin). split; [split|].
  - assert (Hg : g = g <| g_orphan := [] |>) by (destruct g; simpl in *; by subst). rewrite Hg in HI.
    apply (inv_unhash _ g [] [b] s b rb (displaced rb)); try done.
    + unfold mview. by rewrite B2, B3.
    + destruct (inv_base _ _ _ HI b rb Hb). by split.
    + unfold place_ok. rewrite B2, B3, Hra, Hf. split; [|done]. split; try done; [by rewrite B4, B5|by rewrite B1].
    + intros x Hx. by apply elem_of_nil in Hx.
    + intros _. left.
  - apply (view_core (put_rq b (displaced rb) s)); [done|done|done|]. eapply view_put; [done|apply lw_displaced|left; apply lr_displaced|done].
  - intros j rj k Hj Hhj Hk. apply put_rq_Some in Hj as [[_ <-]|[Hne Hj]]; [done|]. apply Hne. symmetry.
    eapply (hi_uniq _ _ (inv_hash _ _ _ HI) KV_RQ_HASH _ _ j b rj rb); eauto.
Qed.

Lemma sim_pending g s V cmd m q b rb : Sim g s V -> settled_ghost g -> cmd_ok cmd -> s_memqs s !! m = Some q ->
  s_heap s !! b = Some rb -> s_next_rq s <> b -> rq_hash rb = Some (KV_RQ_HASH, rq_hash_key rb) -> kid rb = cmd_key cmd -> flying rb = true ->
  rq_hash_key rb = get_hash_key (key cmd) (key_length cmd) -> (raced (cmd_key cmd) = false -> forall j, ~ reading s j (cmd_key cmd)) ->
  Sim g (queued_pending cmd m q b rb s) (apply_cmd cmd V) /\ gets_kept s (queued_pending cmd m q b rb s).
Proof.
  intros HS [Ho _] Hc Hm Hb Hne Hh Hk Hf Hhk Hnr. destruct (sim_displace g s V b rb HS Ho Hb Hh Hf) as [[HD HVD] Habs].
  set (s1 := put_rq b (displaced rb) (unhash b rb s)) in *. rewrite Hk in Habs.
  destruct (queued_rq_ok cmd m (Some b) Hc) as (Hbq & Hbuf & Hra & Hfq & _ & Hkq & Hhq).
  assert (Hg : g = g <| g_orphan := [] |>) by (destruct g; simpl in *; by subst).
  destruct (displaced_bits rb) as (B1 & B2 & _).
  assert (Hgk : gets_kept s s1) by (intros j kk x Hj; eapply (seen_put_old b rb (displaced rb)); [done|left; apply lr_displaced|exact Hj]).
  split; [|transitivity s1; [done|]; transitivity (put_rq (s_next_rq s) (queued_rq cmd m (Some b)) s1); [by apply gets_queued|by apply gets_core]].
  split.
  - rewrite Hg. pose proof (inv_add nr_cpus g [b] [] s1 (queued_rq cmd m (Some b)) m q HD Hm Hbq Hbuf Hhq Hra Hfq eq_refl) as HA.
    eapply inv_core; [|apply HA; [| |by rewrite Hkq]].
    + rewrite <- queue_cons_eq. repeat split; try done. unfold queued_pending, s1, put_memq, put_rq, nr_add, add_chain, unhash, del_chain.
      simpl. unfold chain, upd. simpl. rewrite <- Hhk, lookup_insert_eq. simpl. rewrite insert_insert_eq. f_equal. lia.
    + intros x [= <-]. exists (displaced rb). split; [apply put_rq_lookup|]. rewrite Hkq, <- Hk. by rewrite B2.
    + intros x ->%list_elem_of_singleton. by right.
  - apply (view_core (put_rq (s_next_rq s1) (queued_rq cmd m (Some b)) s1)); [done|done|done|].
    eapply view_queued; try done. intros Hr j Hj. eapply Hnr; [done|]. by eapply gets_reading.
Qed.

(** Inserting and queueing, or inserting and merging. *)
Lemma insert_ok g s V cmd m q n : Sim g s V -> settled_ghost g -> cmd_ok cmd -> s_memqs s !! m = Some q ->
  (raced (cmd_key cmd) = false -> forall j, ~ reading s j (cmd_key cmd)) ->
  let a := s_next_rq s in
  (exists b s1 s', kv_hash_insert (S n) KV_RQ_HASH a (fresh_rq cmd s) = Done (Some b) s1 /\
     merge_buffered cmd a b s1 = Done tt s' /\ Sim g s' (apply_cmd cmd V) /\ gets_kept s s' /\
     exists rb, present KV_RQ_HASH (key cmd) (key_length cmd) b rb s /\ flying rb = false) \/
  (exists blk s1 s', kv_hash_insert (S n) KV_RQ_HASH a (fresh_rq cmd s) = Done None s1 /\
     s_percpu_memq s1 = s_percpu_memq s /\
     enqueue_memq a m s1 = Done tt s' /\ Sim g s' (apply_cmd cmd V) /\ s_heap s' !! a = Some (queued_rq cmd m blk) /\
     is_Some (s_memqs s' !! m) /\ gets_kept s s').
Proof.
  intros HS Hg Hc Hm Hnr a. pose proof HS as [HI HV]. set (r := (new_rq cmd) <| rq_lock := true |>).
  pose proof (insert_fresh g s V cmd n HS Hc) as Hins. cbv zeta in Hins. fold a r in Hins.
  destruct Hins as [[Habs Heq]|(b & rb & Hp & Hne & Heq)].
  - right. exists None. do 2 eexists. split; [exact Heq|]. split; [done|].
    set (r1 := r <| rq_hash := Some (KV_RQ_HASH, rq_hash_key r) |>).
    set (sB := nr_add KV_RQ_HASH 1 (add_chain KV_RQ_HASH (rq_hash_key r) a (bump s))).
    assert (HsA : nr_add KV_RQ_HASH 1 (link a r KV_RQ_HASH (rq_hash_key r) (fresh_rq cmd s)) = put_rq a r1 sB).
    { unfold link, fresh_rq, sB, add_chain. rewrite put_rq_twice. reflexivity. }
    split; [rewrite HsA; exact (enqueue_alone sB a m q r1 Hm eq_refl eq_refl)|].
    destruct (sim_alone g s V cmd m q HS Hg Hc Hm Habs Hnr) as [HSa Hga].
    split; [exact HSa|]. split; [apply put_rq_lookup|]. split; [rewrite put_memq_lookup; eauto|exact Hga].
  - destruct (inv_present_rq _ g s _ _ b rb HI Hp) as ((Hl & Hr & _) & Hhk & _). destruct (flying rb) eqn:Hf.
    + right. destruct Hp as (Hb & Hh & Hk). exists (Some b). do 2 eexists. split; [exact Heq|]. split; [done|].
      set (r1 := r <| rq_hash := Some (KV_RQ_HASH, rq_hash_key r) |> <| rq_blocking_rq := Some b |>).
      set (sB := upd_hash KV_RQ_HASH (fun t => t <| h_table ::= <[rq_hash_key r :=
        a :: filter (fun j => j <> b) (chain t (rq_hash_key r))]> |>) (bump s)).
      assert (HsA : displace KV_RQ_HASH a b r rb (fresh_rq cmd s) = put_rq a r1 (put_rq b (held (displaced rb)) sB)).
      { unfold displace, fresh_rq. rewrite upd_hash_put_rq, (put_rq_comm b a), put_rq_twice by done. reflexivity. }
      split; [rewrite HsA; exact (enqueue_pending sB a b m q r1 (displaced rb) Hm eq_refl eq_refl Hne Hl Hr)|].
      assert (Hbase : put_memq m (queue_cons a true q) (put_rq a (queued_rq cmd m (Some b)) (put_rq b (displaced rb) sB)) =
        queued_pending cmd m q b rb s) by (unfold queued_pending, sB; by rewrite Hhk).
      destruct (sim_pending g s V cmd m q b rb) as [HSp Hgp]; try done; [by rewrite Hhk|].
      rewrite <- Hbase in HSp, Hgp. split; [exact HSp|]. split; [apply put_rq_lookup|]. split; [rewrite put_memq_lookup; eauto|exact Hgp].
    + left. destruct (merge_ok g s V cmd b rb HS Hc Hp Hne Hf) as (s' & Hrun & HS').
      exists b. do 2 eexists. split; [exact Heq|]. split; [exact Hrun|]. split; [apply HS'|]. split; [apply HS'|eauto].
Qed.

(** ** Obsolete read-ahead data *)

Lemma drop_readahead_ok g s V a r : Sim g s V -> s_heap s !! a = Some r ->
  exists s', drop_readahead a s = Done tt s' /\ Sim g s' V /\ s_memqs s' = s_memqs s /\
    gets_kept s s' /\ absent KV_RA_HASH (kid r) s'.
Proof.
  intros HS Ha. pose proof HS as [HI HV]. pose proof (inv_base _ _ _ HI a r Ha) as Hb. unfold drop_readahead.
  rewrite (bind_done _ _ _ _ _ (get_rq_eq s a r Ha)). unfold rq_key. rewrite (rb_inline _ Hb), (rb_hash_key _ Hb).
  destruct (kv_hash_find_and_del_readahead_spec s KV_RA_HASH _ _ (inv_searchable _ g s HI) (rb_key _ Hb)) as [(i & x & Hp & Heq)|[Hn Heq]];
    rewrite (bind_done _ _ _ _ _ Heq).
  - destruct (inv_present_ra _ g s _ _ i x HI Hp) as (Hra & Hl & Href & Hhk). destruct Hp as (Hi & Hh & Hk).
    set (x1 := x <| rq_hash := None |>). rewrite <- Hhk.
    change (nr_add _ _ _) with (put_rq i x1 (unhash_ra i x s)).
    assert (Hl1 : rq_lock x1 = false) by exact Hl.
    rewrite (bind_done _ _ _ _ _ (spin_lock_eq _ i x1 (put_rq_lookup i x1 _) Hl1)), put_rq_twice.
    set (x2 := x1 <| rq_lock := true |>).
    exists (drop_rq i (unhash_ra i x s)). split.
    + etransitivity; [exact (put_locked_free _ i x2 (put_rq_lookup i x2 (unhash_ra i x s)) eq_refl Href)|].
      by rewrite drop_put_rq.
    + split; [|split; [done|split]].
      2:{ intros j kk y Hj. change (seen (drop_rq i s) j (kk, Some y)) in Hj. by apply seen_drop in Hj. }
      2:{ intros j rj k Hj Hhj Hkj. apply drop_rq_Some in Hj as [Hne Hj]. apply Hne. symmetry.
          eapply (hi_uniq _ _ (inv_hash _ _ _ HI) KV_RA_HASH _ _ j i rj x); eauto. by rewrite Hkj, Hk. }
      split; [by apply inv_drop_ra|].
      apply (view_core (drop_rq i s)); [done|done|done|]. eapply view_drop; [done| |done].
      destruct (in_ra_ok _ g s i x HI Hi Hra) as [[(_ & Hf & _) _ _ _] _]. unfold lw, buffered. by rewrite Hra, Hf, andb_false_r.
  - exists s. done.
Qed.

End Async.

Section Handler.
  Context `{KernelHash} `{KvDevice} `{Fifo Q cap} `{ReadLen} {R : Raced}.
  Variable nr_cpus : Z.
  Context (sleep : driver Q -> driver Q) `{!QuietSleep nr_cpus sleep}.
  Local Abbreviation Inv := (Inv nr_cpus).
  Local Abbreviation Sim := (Sim nr_cpus).
  Implicit Types s : driver Q.
  Implicit Types g : ghost.
  Implicit Types V : kvmap.

(** ** The handler *)

Lemma fetch_key_eq s cmd : cmd_ok cmd -> fetch_key cmd s = Done (inr (key cmd)) s.
Proof.
  intros Hc. unfold fetch_key. destruct (co_key _ Hc) as (_ & _ & Hlen & _).
  assert ((KVCMD_INLINE_KEY_MAX <? key_length cmd) = false) as ->; [|done]. apply Z.ltb_ge. apply Hlen.
Qed.

Lemma key_free_out_eq s status result : s_fails s = [] -> 0 <= status ->
  key_free_out status result s = Done (reply status (Some result)) s.
Proof.
  intros Hf Hs. unfold key_free_out. assert ((0 <=? status) = true) as -> by by apply Z.leb_le. by run (fails_eq s Hf).
Qed.

(** Waking the scheduling daemon, and the sleep of a writer that is too fast. *)
Definition sched_tail (cpu t : Z) (m : positive) : M (driver Q) uout :=
  kv_sched_wakeup_delayed cpu t ;;
  busy1 <- kv_sched_daemon_busy cpu t ;;
  d <- get_submitd t ;;
  q <- get_memq m ;;
  when (negb busy1 && negb (sd_queued d) || (DEFAULT_NR_REQ_PER_MEMQ <=? mq_nr_rq q))
    (kv_sched_wakeup_immediately cpu t) ;;
  n <- gets (fun s => h_nr_rq (s_rq_hash s)) ;;
  when (KV_PENDING_QUEU_HIGH_WATERMARK <? n)
    (set_io_bit KV_iosched_queue_full ;; wait_on_io_bit sleep KV_iosched_queue_full) ;;
  key_free_out KVS_SUCCESS KVS_SUCCESS.

Lemma wakeup_delayed_ok g s V cpu t : Sim g s V ->
  exists b s', kv_sched_wakeup_delayed cpu t s = Done b s' /\ Sim g s' V /\ s_memqs s' = s_memqs s /\ s_submit s' = s_submit s.
Proof.
  intros HS. unfold kv_sched_wakeup_delayed, gets, bind, modify, ret.
  destruct (test_bit KV_iosched_registered (s_state s)); do 2 eexists; split; try done.
  split; [|done]. eapply sim_core; [..|exact HS]; by repeat split.
Qed.

Lemma wakeup_immediately_ok g s V cpu t : Sim g s V ->
  exists s', kv_sched_wakeup_immediately cpu t s = Done tt s' /\ Sim g s' V.
Proof.
  intros HS. unfold kv_sched_wakeup_immediately, gets, bind, when, modify, ret.
  destruct (test_bit KV_iosched_registered (s_state s)); eexists; split; try done.
  eapply sim_core; [..|exact HS]; by repeat split.
Qed.

Lemma sched_tail_ok g s V cpu t m : Sim g s V -> settled_ghost g -> 0 <= t < NR_DAEMON -> is_Some (s_memqs s !! m) ->
  exists s', sched_tail cpu t m s = Done (reply 0 (Some KVS_SUCCESS)) s' /\ Sim g s' V.
Proof.
  intros HS Hg Ht [q Hm]. unfold sched_tail.
  destruct (wakeup_delayed_ok g s V cpu t HS) as (b & s1 & Hrun & HS1 & Hm1 & Hsb). rewrite (bind_done _ _ _ _ _ Hrun).
  rewrite (bind_done _ _ s1 (bool_decide ((t, cpu) ∈ s_schedd s1)) s1) by reflexivity.
  destruct (qi_daemons _ _ _ _ _ _ (sim_queues _ g s1 V HS1) t Ht) as [d Hd].
  rewrite (bind_done _ _ _ _ _ (get_submitd_eq s1 t d Hd)). rewrite <- Hm1 in Hm.
  rewrite (bind_done _ _ _ _ _ (get_memq_eq s1 m q Hm)).
  set (w := negb _ && _ || _).
  assert (Hw : exists s2, when w (kv_sched_wakeup_immediately cpu t) s1 = Done tt s2 /\ Sim g s2 V).
  { destruct w; cbn [when]; [by apply wakeup_immediately_ok|by exists s1]. }
  destruct Hw as (s2 & Hrun2 & HS2). rewrite (bind_done _ _ _ _ _ Hrun2).
  rewrite (bind_done _ _ s2 (h_nr_rq (s_rq_hash s2)) s2) by reflexivity.
  assert (Hfull : exists s3, when (KV_PENDING_QUEU_HIGH_WATERMARK <? h_nr_rq (s_rq_hash s2))
    (set_io_bit KV_iosched_queue_full ;; wait_on_io_bit sleep KV_iosched_queue_full) s2 = Done tt s3 /\ Sim g s3 V).
  { destruct (_ <? _); cbn [when]; [|by exists s2]. set (s3 := s2 <| s_state ::= set_bit KV_iosched_queue_full |>).
    assert (HS3 : Sim g s3 V) by (eapply sim_core; [..|exact HS2]; by repeat split).
    rewrite (bind_done _ _ s2 tt s3) by reflexivity. unfold wait_on_io_bit.
    rewrite (bind_done _ _ s3 true s3) by (unfold gets; f_equal; by apply test_set_bit).
    exists (sleep s3). split; [done|]. by apply sleep_sim. }
  destruct Hfull as (s3 & Hrun3 & HS3). rewrite (bind_done _ _ _ _ _ Hrun3). exists s3. split; [|done].
  apply key_free_out_eq; [apply (inv_fails _ _ _ (proj1 HS3))|done].
Qed.

(** The look at the read-ahead data before a get is buffered. *)
Definition ra_check (fuel : nat) (cmd : nvme_passthru_kv_cmd) : M (driver Q) (option positive) :=
  if is_kv_retrieve_cmd (opcode cmd)
  then kv_hash_find fuel KV_RA_HASH (Some (key cmd)) (key_length cmd) (get_hash_key (key cmd) (key_length cmd)) true
  else ret None.

Lemma ra_check_ok g s V cmd n : Sim g s V -> cmd_ok cmd ->
  (is_kv_retrieve_cmd (opcode cmd) = true /\ exists i, ra_check (S n) cmd s = Done (Some i) s) \/
  (ra_check (S n) cmd s = Done None s /\ (is_kv_retrieve_cmd (opcode cmd) = true -> absent KV_RA_HASH (cmd_key cmd) s)).
Proof.
  intros [HI HV] Hc. unfold ra_check. destruct (is_kv_retrieve_cmd (opcode cmd)); [|by right].
  destruct (kv_hash_find_spec n s KV_RA_HASH _ _ (inv_searchable _ g s HI) (co_key _ Hc)) as [(i & r & _ & Heq)|[Ha Heq]];
    [|left; split; eauto|by right].
  intros i r Hp. destruct (inv_present_ra _ g s _ _ i r HI Hp) as (_ & ? & ? & _). split; [done|lia].
Qed.

(** The new request is merged with a buffered one, or queued and the read-ahead
    data of the key dropped; either way no get of the key is left that could
    answer with an old value. *)
Lemma store_ok g s V cmd m q n : Sim g s V -> settled_ghost g -> cmd_ok cmd -> s_memqs s !! m = Some q ->
  quiet s (cmd_key cmd) = true -> (is_kv_retrieve_cmd (opcode cmd) = true -> absent KV_RA_HASH (cmd_key cmd) s) ->
  let a := s_next_rq s in
  (exists b s1 s', kv_hash_insert (S n) KV_RQ_HASH a (fresh_rq cmd s) = Done (Some b) s1 /\
     merge_buffered cmd a b s1 = Done tt s' /\ Sim g s' (apply_cmd cmd V) /\ gets_kept s s') \/
  (exists s1 s2 s', kv_hash_insert (S n) KV_RQ_HASH a (fresh_rq cmd s) = Done None s1 /\ s_percpu_memq s1 = s_percpu_memq s /\
     enqueue_memq a m s1 = Done tt s2 /\ when (negb (is_kv_retrieve_cmd (opcode cmd))) (drop_readahead a) s2 = Done tt s' /\
     Sim g s' (apply_cmd cmd V) /\ is_Some (s_memqs s' !! m) /\ gets_kept s s').
Proof.
  intros HS Hg Hc Hm Hquiet Habs a. pose proof HS as [HI HV]. set (kk := cmd_key cmd) in *.
  assert (HR : KvDaemons.Sim nr_cpus (R := racing R kk) g s V) by (split; [done|by apply view_race]).
  assert (Hraced : raced (Raced := racing R kk) kk = true) by (unfold racing, raced; by rewrite bool_decide_true).
  assert (Hun : forall s', KvDaemons.Sim nr_cpus (R := racing R kk) g s' (apply_cmd cmd V) -> (R kk = false -> forall i, ~ reading s' i kk) ->
    Sim g s' (apply_cmd cmd V)).
  { intros s' [HI' HV'] Hno. split; [done|]. by apply (view_unrace R kk). }
  assert (Hnone : forall s' i, KvDaemons.Sim nr_cpus (R := racing R kk) g s' (apply_cmd cmd V) -> gets_kept s s' -> absent KV_RA_HASH kk s' -> R kk = false -> ~ reading s' i kk).
  { intros s' i [HI' _] Hk Ha Hr. apply (not_reading_quiet nr_cpus g); [done|done|].
    pose proof (quiet_kept nr_cpus g s s' kk HI' Hk Hquiet) as Hq. unfold quiet, raced in Hq. rewrite Hr in Hq. by apply negb_true_iff in Hq. }
  destruct (insert_ok nr_cpus (R := racing R kk) g s V cmd m q n HR Hg Hc Hm) as [(b & s1 & s' & Hins & Hmrg & HS' & Hk & rb & Hp & Hf)|(blk & s1 & s2 & Hins & Hpc & Henq & HS2 & Ha & Hm2 & Hk)];
    [by intros Hr; fold kk in Hr; rewrite Hraced in Hr| |].
  - left. exists b, s1, s'. split; [done|]. split; [done|]. split; [|done]. apply Hun; [done|]. intros Hr i Hi.
    destruct (inv_present_rq _ g s _ _ b rb HI Hp) as (_ & Hhk & _). destruct Hp as (Hb & Hh & Hkb).
    eapply (not_reading_buffered nr_cpus g s V b rb i); try done; [by rewrite Hhk|by rewrite Hkb|].
    rewrite Hkb. by eapply gets_reading.
  - right. exists s1, s2. destruct (is_kv_retrieve_cmd (opcode cmd)) eqn:Hop; cbn [negb when].
    + exists s2. do 4 (split; [done|]). split; [|done]. apply Hun; [done|]. intros Hr i Hi. eapply (not_reading_quiet nr_cpus g s i kk HI).
      * by apply Habs.
      * unfold quiet, raced in Hquiet. rewrite Hr in Hquiet. by apply negb_true_iff in Hquiet.
      * by eapply gets_reading.
    + destruct (drop_readahead_ok nr_cpus (R := racing R kk) g s2 _ a _ HS2 Ha) as (s3 & Hrun & HS3 & Hmq & Hk3 & Ha3).
      destruct (queued_rq_ok cmd m blk Hc) as (_ & _ & _ & _ & _ & Hkid & _). rewrite Hkid in Ha3.
      assert (Hk' : gets_kept s s3) by (by transitivity s2).
      exists s3. do 4 (split; [done|]). split; [|by rewrite Hmq]. apply Hun; [done|]. intros Hr i. by apply Hnone.
Qed.

(** The replies of an accepted command. *)
Definition accepted (cmd : nvme_passthru_kv_cmd) (out : uout) : Prop :=
  out = reply 0 (Some KVS_SUCCESS) \/ out = reply 0 (Some KVS_ERR_EXIST_PENDING_KEY) \/
  (is_kv_retrieve_cmd (opcode cmd) = true /\ out = reply 0 (Some KVS_ERR_EXIST_IN_RA_HASH)).

Lemma nvme_kv_iosched_cmd_ok g s V cmd n cpu : Sim g s V -> settled_ghost g -> cmd_ok cmd -> quiet s (cmd_key cmd) = true ->
  0 <= cpu < nr_cpus ->
  exists out s', nvme_kv_iosched_cmd sleep (S n) cpu cmd s = Done out s' /\ Sim g s' (apply_cmd cmd V) /\ accepted cmd out.
Proof.
  intros HS Hg Hc Hquiet Hcpu. pose proof HS as [HI HV]. pose proof (inv_fails _ _ _ HI) as Hf. unfold nvme_kv_iosched_cmd.
  rewrite (bind_done _ _ _ _ _ (fails_eq s Hf)), (co_flags _ Hc). cbn [negb Z.eqb].
  assert (Hio : is_kv_io_cmd (opcode cmd) = true) by (destruct (cmd_opcode _ Hc) as [->|[->| ->]]; done).
  rewrite Hio. cbn [negb]. rewrite (bind_done _ _ _ _ _ (fetch_key_eq s cmd Hc)). cbv zeta.
  change (if is_kv_retrieve_cmd (opcode cmd) then kv_hash_find _ _ _ _ _ _ else ret None) with (ra_check (S n) cmd).
  pose proof (ra_check_ok g s V cmd n HS Hc) as Hra.
  destruct Hra as [[Hop (i & Hrun)]|[Hrun Habs]]; rewrite (bind_done _ _ _ _ _ Hrun).
  { rewrite key_free_out_eq by done. do 2 eexists. split; [done|]. split; [by rewrite apply_read|]. right; right. done. }
  rewrite (bind_done _ _ _ _ _ (alloc_eq s Hf)), (bind_done _ _ _ _ _ (init_eq s cmd (s_next_rq s) Hf Hc)).
  cbn [negb Z.eqb KVS_SUCCESS]. rewrite (bind_done _ _ _ _ _ (lock_eq s cmd)).
  set (t := if is_kv_retrieve_cmd (opcode cmd) then ACTIVE_READ else ACTIVE_WRITE).
  assert (Ht : (t = ACTIVE_READ \/ t = ACTIVE_WRITE) /\ 0 <= t < NR_DAEMON) by (subst t; destruct (is_kv_retrieve_cmd (opcode cmd)); split; auto; done).
  destruct Ht as [Ht Htd]. destruct (qi_active _ _ _ _ _ _ (sim_queues _ g s V HS) t cpu Ht Hcpu) as [m Hm].
  destruct (qi_located _ _ _ _ _ _ (sim_queues _ g s V HS) m (LPercpu t cpu) Hm) as [q Hq].
  destruct (store_ok g s V cmd m q n HS Hg Hc Hq Hquiet Habs) as [(b & s1 & s2 & Hins & Hmrg & HS2 & _)|(s1 & s2 & s3 & Hins & Hpc & Henq & Hrun3 & HS3 & Hm3 & _)];
    rewrite (bind_done _ _ _ _ _ Hins).
  { rewrite (bind_done _ _ _ _ _ Hmrg), key_free_out_eq; [|apply (inv_fails _ _ _ (proj1 HS2))|done].
    do 2 eexists. split; [done|]. split; [done|]. right; left. done. }
  rewrite (bind_done _ _ s1 (Some m) s1) by (unfold get_percpu, gets; by rewrite Hpc, Hm).
  rewrite (bind_done _ _ _ _ _ Henq), (bind_done _ _ _ _ _ Hrun3).
  change (exists out s', sched_tail cpu t m s3 = Done out s' /\ Sim g s' (apply_cmd cmd V) /\ accepted cmd out).
  destruct (sched_tail_ok g s3 _ cpu t m HS3 Hg Htd Hm3) as (s' & Hrun' & HS'). do 2 eexists. split; [exact Hrun'|]. split; [done|by left].
Qed.
End Handler.
