(* ===== verification/KvSync.v ===== *)
(** * Synchronous commands

    [nvme_kv_cmd] of kv_core.c in a state that satisfies the invariant: it does
    not fault, keeps the invariant, takes over or waits for an asynchronous
    request of the same key, performs its write, and answers a get with the
    value the clients' map has for the key unless it answers from read-ahead
    data. *)

From Stdlib Require Import ZArith Lia Bool.
From stdpp Require Import base list gmap.
From S2P Require Import Prelude KvFifo KvCmd KvState KvHash KvIosched KvCore KvInv KvExec KvHashSpec KvTrans KvView KvDaemons KvSubmit KvAsync.

(** A sleep that lasts until no request is in flight; that of a killable wait may end
    earlier, when the thread is killed, which is not covered. *)
Class WakingSleep `{KernelHash} `{KvDevice} `{FifoOps Q} `{ReadLen} (nr_cpus : Z) (sleep : driver Q -> driver Q) : Prop := {
  waking_quiet :: QuietSleep nr_cpus sleep;
  sleep_wakes {R : Raced} g s V i r : settled_ghost g -> g_own g = [] -> Sim nr_cpus g s V ->
    s_heap (sleep s) !! i = Some r -> flying r = false;
}.

Section Sync.
  Context `{KernelHash} `{KvDevice} `{Fifo Q cap} `{ReadLen} {R : Raced}.
  Variable nr_cpus : Z.
  Context (sleep : driver Q -> driver Q) `{!WakingSleep nr_cpus sleep}.
  Local Abbreviation Inv := (Inv nr_cpus).
  Local Abbreviation Sim := (Sim nr_cpus).
  Implicit Types s : driver Q.
  Implicit Types g : ghost.
  Implicit Types V : kvmap.

(** ** Read-ahead data *)

(** A state from which the read-ahead entry [i] is gone. *)
Lemma sim_drop_ra g s V i r : Sim g s V -> s_heap s !! i = Some r -> in_ra r = true ->
  Sim g (drop_rq i (unhash_ra i r s)) V.
Proof.
  intros [HI HV] Hi Hra. split; [by apply inv_drop_ra|].
  apply (view_core (drop_rq i s)); [done|done|done|]. eapply view_drop; [done| |done].
  destruct (in_ra_ok _ g s i r HI Hi Hra) as [[(_ & Hf & _) _ _ _] _]. unfold lw, buffered. by rewrite Hra, Hf, andb_false_r.
Qed.

Lemma kept_drop_ra c i r s : kept c s (drop_rq i (unhash_ra i r s)).
Proof. transitivity (drop_rq i s); [apply kept_drop|by apply kept_core]. Qed.

(** The read-ahead data of a key that is not raced is its value. *)
Definition hit_ok (cmd : nvme_passthru_kv_cmd) V (hit : option (Z * Z * list Z)) : Prop :=
  match hit with
  | Some hit => is_kv_retrieve_cmd (opcode cmd) = true /\ Z.of_nat (length hit.2) = data_length cmd /\
      (raced (cmd_key cmd) = false -> answers hit (V !! cmd_key cmd))
  | None => True
  end.

Lemma do_readahead_ok g s V cmd : Sim g s V -> cmd_ok cmd ->
  exists hit s', kv_do_readahead (key cmd) (get_hash_key (key cmd) (key_length cmd)) cmd s = Done hit s' /\
    Sim g s' V /\ kept (g_memqs g) s s' /\ hit_ok cmd V hit /\
    (absent KV_RQ_HASH (cmd_key cmd) s -> absent KV_RQ_HASH (cmd_key cmd) s') /\ absent KV_RA_HASH (cmd_key cmd) s'.
Proof.
  intros HS Hc. pose proof HS as [HI HV]. unfold kv_do_readahead.
  destruct (kv_hash_find_and_del_readahead_spec s KV_RA_HASH _ _ (inv_searchable _ g s HI) (co_key _ Hc)) as [(i & x & Hp & Heq)|[Hn Heq]];
    rewrite (bind_done _ _ _ _ _ Heq).
  - destruct (inv_present_ra _ g s _ _ i x HI Hp) as (Hra & Hl & Href & Hhk). destruct Hp as (Hi & Hh & Hk).
    set (x1 := x <| rq_hash := None |>). rewrite <- Hhk. change (nr_add _ _ _) with (put_rq i x1 (unhash_ra i x s)).
    assert (Hl1 : rq_lock x1 = false) by exact Hl.
    rewrite (bind_done _ _ _ _ _ (spin_lock_eq _ i x1 (put_rq_lookup i x1 _) Hl1)), put_rq_twice.
    set (x2 := x1 <| rq_lock := true |>). set (s1 := unhash_ra i x s).
    rewrite (bind_done _ _ _ _ _ (get_rq_eq _ i x2 (put_rq_lookup i x2 s1))).
    assert (Hout : exists out, (if is_kv_retrieve_cmd (opcode cmd) then
        d <- copy_to_user (rq_data_addr x2) (data_length cmd) ;; ret (Some (rq_result x2, rq_errors x2, d))
      else ret None) (put_rq i x2 s1) = Done out (put_rq i x2 s1) /\ hit_ok cmd V out).
    { destruct (is_kv_retrieve_cmd (opcode cmd)) eqn:Hop; [|by eexists]. unfold copy_to_user. change (rq_data_addr x2) with (rq_data_addr x).
      destruct (in_ra_ok _ g s i x HI Hi Hra) as [[_ _ Hret _] _].
      pose proof (inv_base _ _ _ HI i x Hi) as Hb. pose proof (rb_data _ Hb) as Hd.
      assert (Hle : data_length cmd = rq_data_length x) by (rewrite (co_read _ Hc Hop), (rb_read _ Hb Hret); by rewrite Hk).
      assert (Hlen : Z.of_nat (length (default [] (rq_data_addr x))) = data_length cmd) by (destruct (rq_data_addr x); [destruct Hd|]; simpl in *; lia).
      rewrite Hlen, Z.leb_refl. eexists. split; [reflexivity|]. rewrite <- Hlen, Nat2Z.id, firstn_all. split; [done|]. split; [done|].
      intros Hrc. eapply (v_answer _ _ HV i (cmd_key cmd) true); [|done|by left]. exists x. split; [done|]. unfold lr. rewrite Hret, Hra.
      by rewrite Hk. }
    destruct Hout as (out & Hrun & Hret). rewrite (bind_done _ _ _ _ _ Hrun).
    rewrite (bind_done _ _ _ _ _ (put_locked_free _ i x2 (put_rq_lookup i x2 s1) eq_refl Href)), drop_put_rq.
    exists out. eexists. split; [reflexivity|]. split; [by apply sim_drop_ra|]. split; [apply kept_drop_ra|]. split; [done|]. split.
    + intros Ha j rj k [_ Hj]%drop_rq_Some. by apply (Ha j rj k).
    + intros j rj k [Hne Hj]%drop_rq_Some Hhj Hkj. apply Hne. symmetry.
      eapply (hi_uniq _ _ (inv_hash _ _ _ HI) KV_RA_HASH _ _ j i rj x); eauto. by rewrite Hkj, Hk.
  - exists None, s. done.
Qed.

(** ** Finding the request of the key *)

Lemma sim_after_wait g s V i : Sim g s V -> Sim g (after_wait i s) V.
Proof. intros HS. unfold after_wait. destruct (s_heap s !! i); [done|]. eapply sim_core; [..|exact HS]; by repeat split. Qed.

Lemma heap_after_wait i s : s_heap (after_wait i s) = s_heap s.
Proof. unfold after_wait. by destruct (s_heap s !! i). Qed.

Lemma kept_after_wait c i s : kept c s (after_wait i s).
Proof. apply kept_core; unfold after_wait; by destruct (s_heap s !! i). Qed.

(** Sleeping until the requests in flight are done. *)
Lemma sleep_ok g s V i : Sim g s V -> settled_ghost g -> g_own g = [] ->
  Sim g (after_wait i (sleep s)) V /\ undisturbed (g_memqs g) s (after_wait i (sleep s)) /\
  (forall j r, s_heap (after_wait i (sleep s)) !! j = Some r -> flying r = false).
Proof.
  intros HS Hg Ho. split; [by apply sim_after_wait, sleep_sim|]. split.
  - transitivity (sleep s); [by eapply sleep_kept|]. split; [apply kept_after_wait|].
    apply readers_seen. intros j x. unfold seen. by rewrite heap_after_wait.
  - intros j r. rewrite heap_after_wait. by eapply sleep_wakes.
Qed.

(** A key whose request was in flight has none any more. *)
Lemma absent_after g s s' V V' k klen i r : Sim g s V -> Sim g s' V' -> kept (g_memqs g) s s' ->
  (forall j r, s_heap s' !! j = Some r -> flying r = false) ->
  present KV_RQ_HASH k klen i r s -> flying r = true -> absent KV_RQ_HASH (k, klen) s'.
Proof.
  intros HS HS' Hkept Hnf (Hi & Hh & Hk) Hf j x kx Hj Hhx Hkx.
  destruct (kept_rq _ _ _ Hkept j x Hj) as (y & Hy & Hky & _ & _ & Hhy & Hfy & _).
  assert (Hhash : hashed_in KV_RQ_HASH y = true) by (apply Hhy; unfold hashed_in; rewrite Hhx; by apply bool_decide_eq_true).
  unfold hashed_in in Hhash. destruct (rq_hash y) as [[h ky]|] eqn:Hhy'; [|done]. apply bool_decide_eq_true in Hhash. subst h.
  assert (j = i) as ->.
  { eapply (hi_uniq _ _ (inv_hash _ _ _ (proj1 HS)) KV_RQ_HASH _ _ j i y r); eauto. congruence. }
  rewrite Hi in Hy. injection Hy as <-. destruct (Hfy Hf) as [Hfx|Hrax]; [by rewrite (Hnf i x Hj) in Hfx|].
  destruct (in_ra_ok _ g s' i x (proj1 HS') Hj Hrax) as [[_ Hhra _ _] _]. congruence.
Qed.

(** What [kv_hash_find_and_lock] finds: nothing, nothing any more after the wait
    for the request in flight, or a buffered request it has made invalid. *)
Inductive found (g : ghost) V (k : list Z) (klen : Z) s : option positive * bool -> driver Q -> Prop :=
  | FoundNone w s' : Sim g s' V -> absent KV_RQ_HASH (k, klen) s' -> kept (g_memqs g) s s' ->
      (w = false -> absent KV_RA_HASH (k, klen) s -> raced (k, klen) = false -> forall j, ~ reading s' j (k, klen)) ->
      found g V k klen s (None, w) s'
  | FoundBuffered i r s' : Sim g s' V -> present KV_RQ_HASH k klen i r s' -> flying r = false -> rq_blocking_rq r = None ->
      kept (g_memqs g) s s' -> found g V k klen s (Some i, false) (invalidate KV_RQ_HASH i r s').

(** The search goes on after the wait for a request another one of the key was
    pending on: if the key is not raced no get of it was in flight. *)
Lemma found_after g V k klen s s1 x s' : kept (g_memqs g) s s1 ->
  (absent KV_RA_HASH (k, klen) s -> raced (k, klen) = false -> absent KV_RA_HASH (k, klen) s1) ->
  found g V k klen s1 x s' -> found g V k klen s x s'.
Proof.
  intros Hk Ha Hf. destruct Hf; econstructor; try done; [by transitivity s1|auto|by transitivity s1].
Qed.

Lemma find_and_lock_step n g s V k klen : Sim g s V -> settled_ghost g -> g_own g = [] -> key_wf k klen ->
  (exists x s', kv_hash_find_and_lock sleep (S n) KV_RQ_HASH (Some k) klen (get_hash_key k klen) s = Done x s' /\ found g V k klen s x s') \/
  (exists s1, kv_hash_find_and_lock sleep (S n) KV_RQ_HASH (Some k) klen (get_hash_key k klen) s =
     kv_hash_find_and_lock sleep n KV_RQ_HASH (Some k) klen (get_hash_key k klen) s1 /\
     Sim g s1 V /\ kept (g_memqs g) s s1 /\ (forall j r, s_heap s1 !! j = Some r -> flying r = false) /\
     (absent KV_RA_HASH (k, klen) s -> raced (k, klen) = false -> absent KV_RA_HASH (k, klen) s1) /\
     exists j r, s_heap s !! j = Some r /\ flying r = true).
Proof.
  intros HS Hg Ho Hk. pose proof HS as [HI HV].
  destruct (kv_hash_find_and_lock_spec sleep n s KV_RQ_HASH k klen (inv_searchable _ g s HI) Hk) as [[Ha Heq]|(i & r & Hp & Heq)].
  - intros i r Hp. by destruct (inv_present_rq _ g s _ _ i r HI Hp) as (? & ? & _).
  - left. do 2 eexists. split; [exact Heq|]. constructor; [done|done|reflexivity|].
    intros _ Hra _ j. by apply (not_reading_absent nr_cpus g); [| apply Hg | |].
  - destruct (flying r) eqn:Hf; [|destruct (rq_blocking_rq r) as [b|] eqn:Hb].
    + left. do 2 eexists. split; [exact Heq|]. destruct (sleep_ok g s V i HS Hg Ho) as (HS1 & Hk1 & Hnf).
      apply FoundNone; [done|apply (absent_after g s _ V V k klen i r); try done; apply Hk1|apply Hk1|done].
    + right. pose proof Hp as (Hi & Hh & Hkid). destruct (inv_present_rq _ g s _ _ i r HI Hp) as (_ & Hhk & _). destruct (inv_pending _ _ _ HI i r b Hi Hb) as (rb & Hrb & Hfb & _).
      rewrite Hrb, Hfb in Heq. exists (after_wait b (sleep s)). split; [exact Heq|].
      destruct (sleep_ok g s V b HS Hg Ho) as (HS1 & Hk1 & Hnf). split; [done|]. split; [apply Hk1|]. split; [done|]. split; [|eauto].
      intros _ Hrc j x kx Hj Hhj Hkj. rewrite <- Hkid in Hrc.
      eapply (not_reading_buffered nr_cpus g s V i r j); try done; [by rewrite Hhk|]. rewrite Hkid, <- Hkj. apply (und_readers _ _ _ Hk1).
      eapply hashed_reading; [apply HS1|done|done].
    + left. do 2 eexists. split; [exact Heq|]. econstructor; [done|done|done|done|reflexivity].
Qed.

Lemma find_and_lock_ok n g s V k klen : Sim g s V -> settled_ghost g -> g_own g = [] -> key_wf k klen ->
  exists x s', kv_hash_find_and_lock sleep (S (S n)) KV_RQ_HASH (Some k) klen (get_hash_key k klen) s = Done x s' /\
    found g V k klen s x s'.
Proof.
  intros HS Hg Ho Hk. destruct (find_and_lock_step (S n) g s V k klen HS Hg Ho Hk) as [Hdone|(s1 & Heq & HS1 & Hk1 & Hnf & Ha1 & _)]; [done|].
  rewrite Heq. destruct (find_and_lock_step n g s1 V k klen HS1 Hg Ho Hk) as [(x & s' & Hrun & Hfd)|(_ & _ & _ & _ & _ & _ & j & r & Hj & Hf)].
  - exists x, s'. split; [done|]. by eapply found_after.
  - by rewrite (Hnf j r Hj) in Hf.
Qed.

(** ** Sending a command to the device *)

Definition sync_exec (sy : kv_sync_request) s : dev_state * dev_answer :=
  dev_exec (s_dev s) (sr_c sy) (c_key (sr_c sy)) (sync_data sy).

Definition answer_of (sy : kv_sync_request) (ans : dev_answer) : sync_result :=
  let missing := ans_errors ans =? 0x310 in
  {| sy_ret := if missing then 0 else ans_errors ans; sy_result := ans_result ans;
     sy_status := if missing then Some KVS_ERR_KEY_NOT_EXIST else None;
     sy_data := if reads_data (c_opcode (sr_c sy)) then Some (ans_data ans) else None |}.

Definition exec_state (sy : kv_sync_request) s : driver Q := s <| s_dev := (sync_exec sy s).1 |>.

Lemma submit_user_eq s sy : s_fails s = [] -> is_kv_cmd (c_opcode (sr_c sy)) = true -> sr_key_length sy <= 16 ->
  __nvme_submit_kv_user_cmd sy s = Done (answer_of sy (sync_exec sy s).2) (exec_state sy s).
Proof.
  intros Hf Hop Hl. unfold __nvme_submit_kv_user_cmd.
  assert (Hlong : (KVCMD_INLINE_KEY_MAX <? sr_key_length sy) = false) by (apply Z.ltb_ge; exact Hl).
  assert (Hprep : prepare_sync sy s = Done None s).
  { unfold prepare_sync. rewrite Hop. cbn [negb]. run (fails_eq s Hf). run (fails_eq s Hf).
    assert (He2 : (if match sr_udata sy with Some _ => negb (sr_udata_length sy =? 0) | None => false end
      then fails else ret false) s = Done false s).
    { destruct (match sr_udata sy with Some _ => _ | None => _ end); [by apply fails_eq|done]. }
    run He2. cbn [orb]. rewrite Hlong. assert (Hk : match sr_key sy with Some _ => false | None => false end = false) by by destruct (sr_key sy).
    rewrite Hk. reflexivity. }
  run Hprep. assert (Hkey : device_key (sr_c sy) (sr_key sy) (sr_key_length sy) = c_key (sr_c sy)).
  { unfold device_key. rewrite Hlong. by destruct (sr_key sy). }
  unfold execute_sync. rewrite Hkey. unfold bind, exec_state, sync_exec.
  by destruct (dev_exec (s_dev s) (sr_c sy) (c_key (sr_c sy)) (sync_data sy)).
Qed.

(** The request a command sends: the one taken over, or its own. *)
Definition sent (cmd : nvme_passthru_kv_cmd) (k : option (list Z)) (sy : option kv_sync_request) : kv_sync_request :=
  match sy with Some sy => sy | None => init_kv_sync_request k cmd end.

Definition sync_out (res : sync_result) (result merge_status : Z) (copied : option (list Z)) : uout :=
  {| o_ret := if merge_status =? 0 then sy_ret res else merge_status;
     o_result := Some (if result =? 0 then sy_result res else result); o_status := sy_status res;
     o_data := match sy_data res with Some d => Some d | None => copied end |}.

Lemma build_rq_eq s cmd k sy result ms copied : s_fails s = [] -> is_kv_cmd (c_opcode (sr_c (sent cmd k sy))) = true ->
  sr_key_length (sent cmd k sy) <= 16 -> 0 <= ms ->
  (ms = 0 -> 0 <= sy_ret (answer_of (sent cmd k sy) (sync_exec (sent cmd k sy) s).2)) ->
  build_rq cmd k sy result ms copied s =
  Done (sync_out (answer_of (sent cmd k sy) (sync_exec (sent cmd k sy) s).2) result ms copied) (exec_state (sent cmd k sy) s).
Proof.
  intros Hf Hop Hl Hms Hret. unfold build_rq.
  set (y := sent cmd k sy) in *. set (res := answer_of y (sync_exec y s).2) in *. cbv zeta.
  assert (Hsend : forall x, x = y -> (res <- __nvme_submit_kv_user_cmd x ;;
    (let status := if ms =? 0 then sy_ret res else ms in
     let result := if result =? 0 then sy_result res else result in
     let data := match sy_data res with Some d => Some d | None => copied end in
     let out r o := {| o_ret := r; o_result := o; o_status := sy_status res; o_data := data |} in
     if 0 <=? status then
       bad <- fails ;; if bad : bool then ret (out EFAULT None) else ret (out status (Some result))
     else ret (out status None))) s = Done (sync_out res result ms copied) (exec_state y s)).
  { intros x ->. run (submit_user_eq s y Hf Hop Hl). cbv zeta. fold res.
    assert ((0 <=? (if ms =? 0 then sy_ret res else ms)) = true) as ->.
    { apply Z.leb_le. destruct (Z.eqb_spec ms 0); [by apply Hret|done]. }
    by run (fails_eq (exec_state y s) Hf). }
  destruct sy as [sy'|]; [by apply Hsend|]. run (fails_eq s Hf). by apply Hsend.
Qed.

(** A write sent to the device when no write of its key is live becomes the
    value of the key. *)
Lemma sim_sync_write g s0 s V sy klen : View s0 V -> Inv g s0 -> Inv g s -> settled_ghost g ->
  s_dev s = s_dev s0 -> s_fifo s = s_fifo s0 ->
  let c := sr_c sy in let kk := (c_key c, klen) in
  is_write (c_opcode c) = true -> plain c (sync_data sy) -> key_wf (c_key c) klen -> c_key_len c = u8 (klen - 1) ->
  (forall j kk' f w, kk' <> kk -> live s j (kk', f, w) <-> live s0 j (kk', f, w)) ->
  absent KV_RQ_HASH kk s -> (forall j x, seen s j x -> seen s0 j x) -> (raced kk = false -> forall j, ~ reading s0 j kk) ->
  Sim g (exec_state sy s) (set_val kk (if is_kv_store_cmd (c_opcode c) then Some (sync_data sy) else None) V) /\
  ans_errors (sync_exec sy s).2 = 0.
Proof.
  intros HV HI0 HI [Ho _] Hdev Hfifo c kk Hw Hp Hk Hl Hlive Habs Hseen Hnr. split; [split|].
  - eapply inv_core; [|exact HI]. by repeat split.
  - apply (view_sync s0); try done.
    + intros j f w. by eapply (absent_not_live _ g s).
    + intros kk' Hwf. unfold dev_val. simpl. unfold sync_exec. rewrite Hdev. fold c.
      rewrite (dev_write_val (s_dev s0) c klen) by done. done.
    + intros j kk' w Hj. by eapply (live_flying_wf _ g s0).
  - unfold is_write in Hw. unfold sync_exec. fold c. destruct (is_kv_store_cmd (c_opcode c)) eqn:Hs.
    + by destruct (dev_store (s_dev s) c _ Hs Hp) as [? _].
    + by destruct (dev_delete (s_dev s) c _ Hw Hp) as [? _].
Qed.

(** ** Taking over a buffered request *)

Definition invalidated (r : kv_async_request) : kv_async_request :=
  r <| rq_state ::= set_bit KV_async_invalid_rq |> <| rq_hash := None |>.

(** The buffered request [i] is invalid and out of the table. *)
Definition invalid_state (i : positive) (r : kv_async_request) s : driver Q := put_rq i (invalidated r) (unhash i r s).

Lemma invalidated_bits r : invalid (invalidated r) = true /\ flying (invalidated r) = flying r /\ in_ra (invalidated r) = in_ra r /\
  completed (invalidated r) = completed r /\ blocking (invalidated r) = blocking r.
Proof. unfold invalidated, blocking, flying, in_ra, completed, invalid, bit. simpl. by autorewrite with flags. Qed.

Lemma lw_invalidated r : flying r = false -> lw (invalidated r) = None.
Proof.
  intros Hf. destruct (invalidated_bits r) as (B1 & B2 & B3 & _). unfold lw, buffered. rewrite B1, B2, Hf. by rewrite andb_false_r, andb_false_r.
Qed.

Lemma invalid_state_ok g s V k klen i r : Sim g s V -> settled_ghost g -> present KV_RQ_HASH k klen i r s -> flying r = false ->
  rq_blocking_rq r = None ->
  let s' := invalid_state i r s in
  Inv g s' /\ absent KV_RQ_HASH (k, klen) s' /\
  (forall j kk f w, kk <> (k, klen) -> live s' j (kk, f, w) <-> live s j (kk, f, w)) /\
  (if is_write (c_opcode (rq_c r)) then V !! (k, klen) = wval r else View s' V) /\
  (forall j x, seen s' j x -> seen s j x) /\ (raced (k, klen) = false -> forall j, ~ reading s j (k, klen)).
Proof.
  intros [HI HV] [Ho _] Hp Hf Hb s'. destruct (inv_present_rq _ g s _ _ i r HI Hp) as ((_ & _ & Hc & Hinv & Hbl) & Hhk & Hra).
  destruct Hp as (Hi & Hh & Hk). rewrite <- Hhk in Hh. destruct (invalidated_bits r) as (B1 & B2 & B3 & B4 & B5).
  assert (Hbuf : buffered r = true) by (unfold buffered; by rewrite Hra, Hf, Hinv).
  assert (Hlr : lr (invalidated r) = None) by (unfold lr; rewrite B1, B2, B3, Hf, Hra; by destruct (is_kv_retrieve_cmd _)).
  split; [|split; [|split; [|split; [|split]]]].
  - assert (Hg : g = g <| g_orphan := [] |>) by (destruct g; simpl in *; by subst). rewrite Hg in HI |- *.
    apply (inv_unhash _ g [] [] s i r (invalidated r)); try done.
    + unfold mview. by rewrite B2, B3.
    + destruct (inv_base _ _ _ HI i r Hi). by split.
    + pose proof (inv_place _ _ _ HI i r Hi) as Hpl. unfold place_ok in *. rewrite B2, B3, Hra, Hf in *.
      destruct Hpl as [_ Hloc]. split; [|done]. split; [by rewrite B4, B5|by rewrite B1|]. intros _. by apply pending_none.
    + by rewrite B5, Hbl.
  - intros j rj kj Hj Hhj Hkj. apply put_rq_Some in Hj as [[_ <-]|[Hne Hj]]; [done|]. apply Hne. symmetry.
    eapply (hi_uniq _ _ (inv_hash _ _ _ HI) KV_RQ_HASH _ _ j i rj r); eauto. congruence.
  - intros j kk f w Hne. change (live (put_rq i (invalidated r) s) j (kk, f, w) <-> live s j (kk, f, w)).
    rewrite live_put. destruct (decide (i = j)) as [<-|]; [|done]. rewrite lw_invalidated by done.
    split; [done|]. intros (x & Hx & (Hkx & _)%lw_kid). rewrite Hi in Hx. injection Hx as <-. congruence.
  - destruct (is_write (c_opcode (rq_c r))) eqn:Hw.
    + rewrite <- Hk. apply (v_buf _ _ HV i). exists r. split; [done|]. unfold lw. by rewrite Hw, Hbuf, Hf.
    + apply (view_core (put_rq i (invalidated r) s)); [done|done|done|].
      eapply view_put; [done| |by right|done]. by rewrite lw_invalidated, lw_read.
  - intros j x. apply (seen_put_old i r (invalidated r) s Hi). by right.
  - rewrite <- Hk. intros Hr j. by eapply (not_reading_buffered nr_cpus g s V i).
Qed.

(** A command for the synchronous path: the user buffer is there and has the
    length the command says. *)
Record sync_cmd_ok (cmd : nvme_passthru_kv_cmd) : Prop := {
  so_cmd : cmd_ok cmd;
  so_buffer : Z.of_nat (length (default [] (udata cmd))) = data_length cmd;
  so_udata : is_kv_retrieve_cmd (opcode cmd) = true -> is_Some (udata cmd);
}.

Definition rq_data_ok (r : kv_async_request) : Prop :=
  match rq_data_addr r with
  | Some d => rq_data_length r = Z.of_nat (length d) /\ d <> []
  | None => rq_data_length r = 0 end.

(** What a get that meets a buffered write sends instead. *)
Definition taken_over (cmd : nvme_passthru_kv_cmd) (k : list Z) (r : kv_async_request) : kv_sync_request :=
  {| sr_c := rq_c r;
     sr_udata := if is_kv_store_cmd (c_opcode (rq_c r))
       then match rq_data_addr r with Some d => (fun _ => d) <$> udata cmd | None => udata cmd end else None;
     sr_udata_length := if is_kv_store_cmd (c_opcode (rq_c r)) then rq_data_length r else 0;
     sr_key := Some k; sr_key_length := rq_key_length r |}.

Lemma move_eq s x sy k : rq_data_ok x -> sr_udata_length sy = rq_data_length x ->
  kv_move_async_to_sync x sy k s = Done
    {| sr_c := rq_c x; sr_udata := match rq_data_addr x with Some d => (fun _ => d) <$> sr_udata sy | None => sr_udata sy end;
       sr_udata_length := sr_udata_length sy; sr_key := Some k; sr_key_length := rq_key_length x |} s.
Proof.
  unfold rq_data_ok. intros Hd Hl. unfold kv_move_async_to_sync. destruct (rq_data_addr x) as [d|]; [|done].
  destruct Hd as [Hd Hne]. assert (Z.of_nat (length d) <> 0) by by destruct d.
  destruct (Z.eqb_spec (rq_data_length x) 0) as [|_]; [lia|]. rewrite Hl, Z.eqb_refl. unfold copy_to_user. simpl.
  rewrite Hd, Z.leb_refl, Nat2Z.id, firstn_all. done.
Qed.

Lemma take_over_eq g s V cmd k i r : Sim g s V -> s_heap s !! i = Some r ->
  take_over cmd k i (invalidate KV_RQ_HASH i r s) =
  Done (inr (if is_kv_retrieve_cmd (opcode cmd) && is_write (c_opcode (rq_c r))
             then (Some (taken_over cmd k r), if is_kv_store_cmd (c_opcode (rq_c r)) then rq_data_length r else 0,
                   negb (is_kv_store_cmd (c_opcode (rq_c r))), sr_udata (taken_over cmd k r))
             else (None, 0, false, None))) (invalid_state i r s).
Proof.
  intros [HI HV] Hi. pose proof (inv_base _ _ _ HI i r Hi) as Hb. unfold take_over. set (x := held (invalidated r)).
  change (invalidate KV_RQ_HASH i r s) with (put_rq i x (unhash i r s)). set (s1 := put_rq i x (unhash i r s)).
  assert (Hput : put_locked i s1 = Done tt (invalid_state i r s)).
  { apply put_held_put; [apply (rb_lock _ Hb)|]. change (rq_refcount r <> 0). by rewrite (rb_refcount _ Hb). }
  assert (Hf : s_fails s1 = []) by apply (inv_fails _ _ _ HI).
  run (get_rq_eq _ i x (put_rq_lookup i x (unhash i r s))). fold s1. cbv zeta.
  change (c_opcode (rq_c x)) with (c_opcode (rq_c r)). unfold is_write.
  destruct (is_kv_retrieve_cmd (opcode cmd)); cbn [andb]; [|by run Hput].
  unfold taken_over. destruct (is_kv_store_cmd (c_opcode (rq_c r))) eqn:Hst; cbn [orb].
  - run (fails_eq s1 Hf). run (move_eq s1 x {| sr_c := zero_command; sr_udata := udata cmd; sr_udata_length := rq_data_length x;
               sr_key := None; sr_key_length := 0 |} k (rb_data _ Hb) eq_refl). by run Hput.
  - destruct (is_kv_delete_cmd (c_opcode (rq_c r))) eqn:Hdel; [|by run Hput].
    run (fails_eq s1 Hf). run (move_eq s1 x {| sr_c := zero_command; sr_udata := None; sr_udata_length := 0;
               sr_key := None; sr_key_length := 0 |} k (rb_data _ Hb) (eq_sym (rb_delete _ Hb Hdel))). run Hput.
    by destruct (rq_data_addr x).
Qed.

(** ** The command *)

(** A command that needs no request taken over sends its own. *)
Lemma own_request_ok cmd : sync_cmd_ok cmd -> let sy := init_kv_sync_request (Some (key cmd)) cmd in
  c_opcode (sr_c sy) = opcode cmd /\ plain (sr_c sy) (sync_data sy) /\ c_key (sr_c sy) = key cmd /\
  c_key_len (sr_c sy) = u8 (key_length cmd - 1) /\ sync_data sy = default [] (udata cmd).
Proof.
  intros [Hc Hl Hu] sy. destruct (set_kv_cmd_ok cmd Hc) as (Ho & Hv & Hopt & Hk & Hkl & Hoff).
  assert (Hd : sync_data sy = default [] (udata cmd)).
  { unfold sync_data. simpl. rewrite <- Hl, Nat2Z.id. apply firstn_all. }
  rewrite Hd. unfold sy. simpl. split; [done|]. split; [|done]. split; [done|]. split; [done|]. by rewrite Hl.
Qed.

(** The key has no request any more, and the device is the one of [s0]. *)
Record cleared g V (kk : list Z * Z) s0 s : Prop := {
  cl_view : View s0 V;
  cl_inv0 : Inv g s0;
  cl_inv : Inv g s;
  cl_dev : s_dev s = s_dev s0;
  cl_fifo : s_fifo s = s_fifo s0;
  cl_live j kk' f w : kk' <> kk -> live s j (kk', f, w) <-> live s0 j (kk', f, w);
  cl_absent : absent KV_RQ_HASH kk s;
  cl_seen j x : seen s j x -> seen s0 j x;
  cl_quiet : raced kk = false -> forall j, ~ reading s0 j kk;
}.

Lemma cleared_same g V kk s : Sim g s V -> absent KV_RQ_HASH kk s -> (raced kk = false -> forall j, ~ reading s j kk) -> cleared g V kk s s.
Proof. intros [HI HV] Ha Hn. by split. Qed.

Definition buf_len (cmd : nvme_passthru_kv_cmd) : nat := length (default [] (udata cmd)).

(** What the client sees, given the map of the clients. *)
Definition replied (cmd : nvme_passthru_kv_cmd) V (out : uout) : Prop :=
  if is_kv_retrieve_cmd (opcode cmd) then
    match V !! cmd_key cmd with
    | Some v => o_ret out = 0 /\ o_status out = None /\ (v <> [] -> o_result out = Some (Z.of_nat (length v))) /\
                exists d, o_data out = Some d /\ take (buf_len cmd) v `prefix_of` d
    | None => o_ret out = 0x10 \/ o_ret out = 0 /\ o_status out = Some KVS_ERR_KEY_NOT_EXIST
    end
  else o_ret out = 0.

Lemma send_write_ok g s0 s V cmd : cleared g V (cmd_key cmd) s0 s -> settled_ghost g -> sync_cmd_ok cmd ->
  is_write (opcode cmd) = true ->
  exists out s', build_rq cmd (Some (key cmd)) None 0 0 None s = Done out s' /\ Sim g s' (apply_cmd cmd V) /\ o_ret out = 0.
Proof.
  intros [HV HI0 HI Hdev Hfifo Hlive Ha Hseen Hnr] Hg Hs Hw. destruct (own_request_ok cmd Hs) as (Ho & Hp & Hk & Hkl & Hd).
  set (sy := init_kv_sync_request (Some (key cmd)) cmd) in *. pose proof (co_key _ (so_cmd _ Hs)) as Hwf.
  destruct (sim_sync_write g s0 s V sy (key_length cmd)) as [HS Herr]; try done; rewrite ?Hk, ?Ho; try done.
  assert (Hret : sy_ret (answer_of sy (sync_exec sy s).2) = 0) by (simpl; by rewrite Herr).
  eexists _, _. split; [|split].
  - apply build_rq_eq; [apply (inv_fails _ _ _ HI)| |apply Hwf|done|]; [|intros _; change (sent _ _ _) with sy; by rewrite Hret].
    change (sent _ _ _) with sy. rewrite Ho. destruct (cmd_opcode _ (so_cmd _ Hs)) as [->|[->| ->]]; done.
  - rewrite apply_write by done. rewrite Ho, Hk, Hd in HS. exact HS.
  - exact Hret.
Qed.

Lemma send_read_ok g s V cmd : Sim g s V -> settled_ghost g -> absent KV_RQ_HASH (cmd_key cmd) s -> sync_cmd_ok cmd ->
  is_kv_retrieve_cmd (opcode cmd) = true ->
  exists out s', build_rq cmd (Some (key cmd)) None 0 0 None s = Done out s' /\ Sim g s' V /\ replied cmd V out.
Proof.
  intros [HI HV] [Hg _] Ha Hs Hop. destruct (own_request_ok cmd Hs) as (Ho & Hp & Hk & Hkl & Hd).
  set (sy := init_kv_sync_request (Some (key cmd)) cmd) in *. pose proof (co_key _ (so_cmd _ Hs)) as Hwf.
  destruct (dev_retrieve (s_dev s) (sr_c sy) (sync_data sy)) as (Hsame & Hlen & Hans); [by rewrite Ho|done|].
  fold (sync_exec sy s) in *.
  assert (Hmap : V !! cmd_key cmd = dev_get (s_dev s) (c_key (sr_c sy)) (c_key_len (sr_c sy))).
  { rewrite Hk, Hkl. apply (v_dev _ _ HV (cmd_key cmd)); [done|]. intros j f w. by eapply (absent_not_live _ g s). }
  rewrite <- Hmap in Hans. eexists _, _. split; [|split; [split|]].
  - apply build_rq_eq; [apply (inv_fails _ _ _ HI)| |apply Hwf|done|].
    + change (sent _ _ _) with sy. rewrite Ho. destruct (cmd_opcode _ (so_cmd _ Hs)) as [->|[->| ->]]; done.
    + intros _. change (sent _ _ _) with sy. simpl. destruct (V !! cmd_key cmd); [destruct Hans as [-> _]|rewrite Hans]; done.
  - eapply inv_core; [|exact HI]. by repeat split.
  - apply (view_frame s); [done|done|done| |done]. intros kk. apply Hsame.
  - unfold replied. rewrite Hop. change (sent _ _ _) with sy. unfold sync_out, answer_of, reads_data.
    rewrite Ho, Hop. cbn [orb sy_ret sy_result sy_status sy_data o_ret o_result o_status o_data Z.eqb].
    destruct (V !! cmd_key cmd) as [v|].
    + destruct Hans as (-> & -> & ->). simpl. split; [done|]. split; [done|]. split; [done|]. eexists. split; [done|].
      rewrite Hd. by apply prefix_app_r.
    + rewrite Hans. simpl. by right.
Qed.

(** The state in which a buffered request has been taken out of the queues. *)
Lemma cleared_invalid g s V k klen i r : Sim g s V -> settled_ghost g -> present KV_RQ_HASH k klen i r s -> flying r = false ->
  rq_blocking_rq r = None -> cleared g V (k, klen) s (invalid_state i r s).
Proof.
  intros HS Hg Hp Hf Hb. destruct (invalid_state_ok g s V k klen i r HS Hg Hp Hf Hb) as (HI & Ha & Hl & _ & Hsn & Hnr).
  destruct HS as [HI0 HV]. by split.
Qed.

Lemma taken_over_data cmd r : rq_base r -> is_write (c_opcode (rq_c r)) = true -> is_kv_retrieve_cmd (opcode cmd) = true ->
  sync_cmd_ok cmd -> sync_data (taken_over cmd (key cmd) r) = default [] (rq_data_addr r) /\
  plain (rq_c r) (sync_data (taken_over cmd (key cmd) r)).
Proof.
  intros Hb Hw Hop Hs. destruct (so_udata _ Hs Hop) as [u Hu].
  assert (Hd : sync_data (taken_over cmd (key cmd) r) = default [] (rq_data_addr r)).
  { unfold sync_data, taken_over. simpl. pose proof (rb_data _ Hb) as Hda.
    destruct (is_kv_store_cmd (c_opcode (rq_c r))) eqn:Hst.
    - rewrite Hu. destruct (rq_data_addr r) as [d|]; simpl.
      + destruct Hda as [-> _]. rewrite Nat2Z.id. apply firstn_all.
      + by rewrite Hda.
    - unfold is_write in Hw. rewrite Hst in Hw. rewrite (rb_delete _ Hb Hw) in Hda.
      destruct (rq_data_addr r) as [d|]; [|done]. by destruct Hda as [? Hne], d. }
  split; [done|]. rewrite Hd. by apply rq_plain.
Qed.

Lemma store_no_read op : is_kv_store_cmd op = true -> reads_data op = false.
Proof. unfold is_kv_store_cmd, reads_data, is_kv_retrieve_cmd, is_kv_iter_read_cmd. intros ->%Z.eqb_eq. done. Qed.

(** A get of a key whose write is buffered sends the write and is answered with it. *)
Lemma send_taken_ok g s V cmd i r : Sim g s V -> settled_ghost g -> sync_cmd_ok cmd -> is_kv_retrieve_cmd (opcode cmd) = true ->
  present KV_RQ_HASH (key cmd) (key_length cmd) i r s -> flying r = false -> rq_blocking_rq r = None ->
  is_write (c_opcode (rq_c r)) = true ->
  let st := is_kv_store_cmd (c_opcode (rq_c r)) in
  exists out s', build_rq cmd (Some (key cmd)) (Some (taken_over cmd (key cmd) r)) (if st then rq_data_length r else 0)
      (if negb st then 0x10 else 0) (sr_udata (taken_over cmd (key cmd) r)) (invalid_state i r s) = Done out s' /\
    Sim g s' V /\ replied cmd V out.
Proof.
  intros HS Hg Hs Hop Hp Hf Hbl Hw st. destruct (cleared_invalid g s V _ _ i r HS Hg Hp Hf Hbl) as [HV HI0 HI Hdev Hfifo Hlive Ha Hseen Hnr].
  destruct (invalid_state_ok g s V _ _ i r HS Hg Hp Hf Hbl) as (_ & _ & _ & Hval & _). rewrite Hw in Hval.
  destruct Hp as (Hi & _ & Hkid). pose proof (inv_base _ _ _ HI0 i r Hi) as Hb. unfold kid in Hkid. injection Hkid as Hk1 Hk2.
  destruct (taken_over_data cmd r Hb Hw Hop Hs) as [Hd Hpl]. destruct (so_udata _ Hs Hop) as [u Hu].
  set (sy := taken_over cmd (key cmd) r) in *. set (s1 := invalid_state i r s) in *.
  destruct (sim_sync_write g s s1 V sy (key_length cmd)) as [HS' Herr]; try done.
  { change (sr_c sy) with (rq_c r). rewrite Hk1. apply (co_key _ (so_cmd _ Hs)). }
  { change (sr_c sy) with (rq_c r). rewrite <- Hk2. apply (rb_key_len _ Hb). }
  { change (sr_c sy) with (rq_c r). by rewrite Hk1. }
  { change (sr_c sy) with (rq_c r). by rewrite Hk1. }
  { change (sr_c sy) with (rq_c r). by rewrite Hk1. }
  change (sr_c sy) with (rq_c r) in HS'. rewrite Hk1, Hd in HS'. fold st in HS'. unfold wval in Hval. fold st in Hval.
  rewrite set_val_id in HS' by done.
  assert (Hret : sy_ret (answer_of sy (sync_exec sy s1).2) = 0) by (simpl; by rewrite Herr).
  eexists _, _. split; [|split; [exact HS'|]].
  - apply build_rq_eq; [apply (inv_fails _ _ _ HI)| | | |].
    + change (sr_c (sent _ _ _)) with (rq_c r). unfold is_kv_cmd, is_write in *. fold st in Hw |- *.
      destruct st; [done|]. cbn [orb] in *. by rewrite Hw, orb_true_r.
    + change (sr_key_length (sent _ _ _)) with (rq_key_length r). rewrite Hk2. apply (co_key _ (so_cmd _ Hs)).
    + by destruct st.
    + intros _. change (sent _ _ _) with sy. by rewrite Hret.
  - unfold replied, cmd_key. rewrite Hop, Hval. change (sent _ _ _) with sy. unfold sync_out. rewrite Hret.
    destruct st eqn:Hst; [|by left]. simpl.
    assert (Hread : reads_data (c_opcode (rq_c r)) = false) by (unfold st in Hst; by rewrite store_no_read).
    change (sr_c sy) with (rq_c r). rewrite Herr, Hread. split; [done|]. split; [done|].
    unfold sy, taken_over. cbn [sr_udata]. fold st. rewrite Hst, Hu. pose proof (rb_data _ Hb) as Hda.
    destruct (rq_data_addr r) as [d|]; simpl.
    + destruct Hda as [-> Hne]. assert (Z.of_nat (length d) <> 0) by by destruct d.
      destruct (Z.eqb_spec (Z.of_nat (length d)) 0); [done|]. split; [done|]. eexists. split; [done|]. apply prefix_take.
    + split; [done|]. eexists. split; [done|]. rewrite take_nil. apply prefix_nil.
Qed.

(** What a get that is answered from read-ahead data gets: the data of the key's
    value in the map, or the device's status for a missing key.  Nothing is said
    of the data when the key is raced. *)
Definition ra_replied (cmd : nvme_passthru_kv_cmd) V (out : uout) : Prop :=
  is_kv_retrieve_cmd (opcode cmd) = true /\ o_status out = Some KVS_ERR_EXIST_IN_RA_HASH /\
  (raced (cmd_key cmd) = false ->
   match V !! cmd_key cmd with
   | Some v => o_ret out = 0 /\ o_result out = Some (Z.of_nat (length v)) /\
               exists d, o_data out = Some d /\ take (Z.to_nat (data_length cmd)) v `prefix_of` d
   | None => o_ret out = 0x310
   end).

Lemma ra_hit_eq s cmd V hit : s_fails s = [] -> hit_ok cmd V (Some hit) -> exists out, ra_hit hit s = Done out s /\ ra_replied cmd V out.
Proof.
  intros Hf (Hop & Hlen & Hans). destruct hit as [[result status] d]. unfold ra_hit. simpl in Hlen, Hans.
  assert (Hout : exists out, (if 0 <=? status then bad <- fails ;;
      ret {| o_ret := if bad : bool then EFAULT else status; o_result := if bad then None else Some result;
             o_status := Some KVS_ERR_EXIST_IN_RA_HASH; o_data := Some d |}
    else ret {| o_ret := status; o_result := None; o_status := Some KVS_ERR_EXIST_IN_RA_HASH; o_data := Some d |}) s = Done out s /\
    ra_replied cmd V out).
  2:{ destruct Hout as (out & Hrun & Hr). exists out. split; [|done]. rewrite <- Hrun. destruct (0 <=? status); [|done].
      by rewrite !(bind_done _ _ _ _ _ (fails_eq s Hf)). }
  destruct (0 <=? status) eqn:Hs.
  - rewrite (bind_done _ _ _ _ _ (fails_eq s Hf)). eexists. split; [done|]. split; [done|]. split; [done|]. intros Hr. specialize (Hans Hr).
    unfold answers in Hans. destruct (V !! cmd_key cmd) as [v|]; [|done]. destruct Hans as (He & Hl & Hd). simpl in *.
    split; [done|]. split; [by rewrite Hl|]. exists d. split; [done|]. rewrite <- Hlen, Nat2Z.id. done.
  - eexists. split; [done|]. split; [done|]. split; [done|]. intros Hr. specialize (Hans Hr). apply Z.leb_gt in Hs.
    unfold answers in Hans. destruct (V !! cmd_key cmd) as [v|]; [destruct Hans|]; simpl in *; lia.
Qed.

(** The answer is the one the map gives. *)
Definition answered_with (cmd : nvme_passthru_kv_cmd) V (out : uout) : Prop := ra_replied cmd V out \/ replied cmd V out.

(** The command sent for itself when its key has no request. *)
Lemma send_own_ok g s0 s V cmd : cleared g V (cmd_key cmd) s0 s -> settled_ghost g -> sync_cmd_ok cmd ->
  (is_kv_retrieve_cmd (opcode cmd) = true -> View s V) ->
  exists out s', build_rq cmd (Some (key cmd)) None 0 0 None s = Done out s' /\ Sim g s' (apply_cmd cmd V) /\ answered_with cmd V out.
Proof.
  intros Hcl Hg Hs Hv. destruct (is_kv_retrieve_cmd (opcode cmd)) eqn:Hop.
  - destruct (send_read_ok g s V cmd) as (out & s' & Hrun & HS & Hr); try done.
    + split; [apply (cl_inv _ _ _ _ _ Hcl)|by apply Hv].
    + apply (cl_absent _ _ _ _ _ Hcl).
    + exists out, s'. rewrite apply_read by done. split; [done|]. split; [done|by right].
  - pose proof (is_write_cases cmd (so_cmd _ Hs) Hop) as Hw.
    destruct (send_write_ok g s0 s V cmd Hcl Hg Hs Hw) as (out & s' & Hrun & HS & Hr).
    exists out, s'. split; [done|]. split; [done|]. right. unfold replied. by rewrite Hop.
Qed.

(** What follows the search, for a buffered request. *)
Lemma take_and_send_ok g s V cmd i r : Sim g s V -> settled_ghost g -> sync_cmd_ok cmd ->
  present KV_RQ_HASH (key cmd) (key_length cmd) i r s -> flying r = false -> rq_blocking_rq r = None ->
  exists out s', (t <- take_over cmd (key cmd) i ;;
    match t with
    | inl _ => ret (reply ENOMEM (Some KVS_ERR_NOMEM))
    | inr (sy, result, deleted, copied) => build_rq cmd (Some (key cmd)) sy result (if deleted : bool then 0x10 else 0) copied
    end) (invalidate KV_RQ_HASH i r s) = Done out s' /\ Sim g s' (apply_cmd cmd V) /\ answered_with cmd V out.
Proof.
  intros HS Hg Hs Hp Hf Hb. rewrite (bind_done _ _ _ _ _ (take_over_eq g s V cmd (key cmd) i r HS (proj1 Hp))).
  destruct (is_kv_retrieve_cmd (opcode cmd) && is_write (c_opcode (rq_c r))) eqn:Hm.
  - apply andb_true_iff in Hm as [Hop Hw]. rewrite apply_read by done.
    destruct (send_taken_ok g s V cmd i r) as (out & s' & Hrun & HS' & Hr); try done. exists out, s'. split; [done|]. split; [done|by right].
  - apply send_own_ok with (s0 := s); [by apply cleared_invalid|done|done|]. intros Hop. rewrite Hop in Hm. simpl in Hm.
    destruct (invalid_state_ok g s V _ _ i r HS Hg Hp Hf Hb) as (_ & _ & _ & Hv & _). by rewrite Hm in Hv.
Qed.

Lemma nvme_kv_cmd_ok n g s V cmd : Sim g s V -> settled_ghost g -> g_own g = [] -> sync_cmd_ok cmd ->
  exists out s', nvme_kv_cmd sleep (S (S n)) cmd s = Done out s' /\ Sim g s' (apply_cmd cmd V) /\ answered_with cmd V out.
Proof.
  intros HS Hg Ho Hs. pose proof (so_cmd _ Hs) as Hc. unfold nvme_kv_cmd.
  rewrite (bind_done _ _ _ _ _ (fails_eq s (inv_fails _ _ _ (proj1 HS)))), (co_flags _ Hc). cbn [negb Z.eqb].
  assert (Hopc : is_kv_cmd (opcode cmd) = true /\ is_kv_exist_cmd (opcode cmd) = false /\ is_kv_special_cmd (opcode cmd) = false).
  { destruct (cmd_opcode _ Hc) as [->|[->| ->]]; done. }
  destruct Hopc as (-> & -> & ->). cbn [negb]. pose proof (co_key _ Hc) as Hk.
  assert (Hfetch : fetch_key cmd s = Done (inr (key cmd)) s).
  { unfold fetch_key. destruct Hk as (_ & _ & Hk & _). assert ((KVCMD_INLINE_KEY_MAX <? key_length cmd) = false) as ->; [apply Z.ltb_ge, Hk|done]. }
  rewrite (bind_done _ _ _ _ _ Hfetch). cbv zeta.
  assert (Hhit : forall hit s1, Sim g s1 V -> hit_ok cmd V (Some hit) ->
    exists out s', ra_hit hit s1 = Done out s' /\ Sim g s' (apply_cmd cmd V) /\ answered_with cmd V out).
  { intros hit s1 HS1 Hh. destruct (ra_hit_eq s1 cmd V hit (inv_fails _ _ _ (proj1 HS1)) Hh) as (out & Hrun & Hst).
    exists out, s1. rewrite apply_read by apply Hst. split; [done|]. split; [done|by left]. }
  destruct (do_readahead_ok g s V cmd HS Hc) as (hit & s1 & Hrun & HS1 & _ & Hret & _ & Hra1). rewrite (bind_done _ _ _ _ _ Hrun).
  destruct hit as [hit|]; [by apply Hhit|].
  destruct (find_and_lock_ok n g s1 V (key cmd) (key_length cmd) HS1 Hg Ho Hk) as (x & s2 & Hfind & Hfound).
  rewrite (bind_done _ _ _ _ _ Hfind). destruct Hfound as [w s2 HS2 Ha _ Hnr|i r s2 HS2 Hp Hf Hb _]; [|by apply take_and_send_ok].
  destruct w.
  - destruct (do_readahead_ok g s2 V cmd HS2 Hc) as (hit & s3 & Hrun3 & HS3 & _ & Hret3 & Ha3 & Hra3). rewrite (bind_done _ _ _ _ _ Hrun3).
    destruct hit as [hit|]; [by apply Hhit|]. apply send_own_ok with (s0 := s3); [|done|done|intros _; apply HS3].
    apply cleared_same; [done|by apply Ha3|]. intros _ j. apply (not_reading_absent nr_cpus g s3 j _ (proj1 HS3) (proj1 Hg) Hra3). by apply Ha3.
  - apply send_own_ok with (s0 := s2); [apply cleared_same; auto|done|done|intros _; apply HS2].
Qed.
End Sync.
