(* ===== verification/KvBatch.v ===== *)
(** * Batches of asynchronous commands

    [nvme_kv_multi_iosched_cmd] of kv_core.c for a batch with the all-zero
    blocking key: every command is buffered in the batch's own queue, or merged
    with the buffered request of its key, and the queue goes to a batch daemon. *)

From Stdlib Require Import ZArith Lia Bool.
From stdpp Require Import base list gmap.
From S2P Require Import Prelude KvFifo KvCmd KvState KvHash KvIosched KvCore KvInv KvExec KvHashSpec KvTrans KvView KvDaemons KvSubmit KvAsync.

Section Batch.
  Context `{KernelHash} `{KvDevice} `{Fifo Q cap} `{ReadLen} {R : Raced}.
  Variable nr_cpus : Z.
  Local Abbreviation Inv := (Inv nr_cpus).
  Local Abbreviation Sim := (Sim nr_cpus).
  Implicit Types s : driver Q.
  Implicit Types g : ghost.
  Implicit Types V : kvmap.

(** The map after the commands of a batch, in their order. *)
Definition apply_cmds (cmds : list nvme_passthru_kv_cmd) (V : kvmap) : kvmap := foldl (fun V cmd => apply_cmd cmd V) V cmds.

(** The daemon a batch is for: that of its first command. *)
Definition batch_type (cmds : list nvme_passthru_kv_cmd) (t : Z) : Z :=
  match cmds with
  | cmd :: _ => if t =? 0 then if is_kv_retrieve_cmd (opcode cmd) then BATCH_READ_DAEMON else BATCH_WRITE_DAEMON else t
  | [] => t
  end.

Lemma multi_async_one_ok g s V m cmd n : Sim g s V -> settled_ghost g -> m ∈ g_memqs g -> cmd_ok cmd -> quiet s (cmd_key cmd) = true ->
  exists s', multi_async_one (S n) m cmd s = Done (inr tt) s' /\ Sim g s' (apply_cmd cmd V) /\ gets_kept s s'.
Proof.
  intros HS Hg Hm Hc Hquiet. pose proof HS as [HI HV]. pose proof (inv_fails _ _ _ HI) as Hf. unfold multi_async_one.
  rewrite (bind_done _ _ _ _ _ (fetch_key_eq s cmd Hc)). cbv zeta.
  change (if is_kv_retrieve_cmd (opcode cmd) then kv_hash_find _ _ _ _ _ _ else ret None) with (ra_check (Q := Q) (S n) cmd).
  destruct (ra_check_ok nr_cpus g s V cmd n HS Hc) as [[Hop (i & Hrun)]|[Hrun Habs]]; rewrite (bind_done _ _ _ _ _ Hrun).
  { exists s. by rewrite apply_read. }
  rewrite (bind_done _ _ _ _ _ (alloc_eq s Hf)), (bind_done _ _ _ _ _ (init_eq s cmd (s_next_rq s) Hf Hc)).
  cbn [negb Z.eqb KVS_SUCCESS fst]. rewrite (bind_done _ _ _ _ _ (lock_eq s cmd)).
  destruct (qi_located _ _ _ _ _ _ (sim_queues _ g s V HS) m LCarried Hm) as [q Hq].
  destruct (store_ok nr_cpus g s V cmd m q n HS Hg Hc Hq Hquiet Habs) as [(b & s1 & s2 & Hins & Hmrg & HS2 & Hk)|(s1 & s2 & s3 & Hins & _ & Henq & Hrun3 & HS3 & _ & Hk)];
    rewrite (bind_done _ _ _ _ _ Hins).
  - rewrite (bind_done _ _ _ _ _ Hmrg). by exists s2.
  - rewrite (bind_done _ _ _ _ _ Henq), (bind_done _ _ _ _ _ Hrun3). by exists s3.
Qed.

Lemma multi_async_loop_ok g m cmds n : settled_ghost g -> m ∈ g_memqs g -> Forall cmd_ok cmds -> forall s V t, Sim g s V ->
  Forall (fun cmd => quiet s (cmd_key cmd) = true) cmds ->
  exists s', multi_async_loop (S n) m cmds t s = Done (inr (batch_type cmds t)) s' /\ Sim g s' (apply_cmds cmds V).
Proof.
  intros Hg Hm Hcs. induction Hcs as [|cmd cmds Hc Hcs IH]; intros s V t HS Hquiet; [by exists s|]. apply Forall_cons in Hquiet as [Hq Hqs].
  cbn [multi_async_loop]. rewrite (bind_done _ _ _ _ _ (fails_eq s (inv_fails _ _ _ (proj1 HS)))).
  assert (Hio : is_kv_io_cmd (opcode cmd) = true) by (destruct (cmd_opcode _ Hc) as [->|[->| ->]]; done).
  rewrite Hio. cbn [negb]. cbv zeta. destruct (multi_async_one_ok g s V m cmd n HS Hg Hm Hc Hq) as (s1 & Hrun & HS1 & Hk1).
  rewrite (bind_done _ _ _ _ _ Hrun). destruct (IH s1 (apply_cmd cmd V) (batch_type (cmd :: cmds) t) HS1) as (s' & Hrun' & HS').
  { apply (Forall_impl _ _ _ Hqs). intros c. apply (quiet_kept nr_cpus g s s1 _ (proj1 HS1) Hk1). }
 
  exists s'. split; [|exact HS']. unfold batch_type at 1 in Hrun'. etransitivity; [exact Hrun'|]. do 2 f_equal.
  unfold batch_type. destruct cmds; [done|]. destruct (Z.eqb_spec t 0) as [->|Hne]; [by destruct (is_kv_retrieve_cmd (opcode cmd))|].
  by apply Z.eqb_neq in Hne as ->.
Qed.

(** The key of a queue that waits for no request. *)
Definition no_blocking_key : list Z := mq_key zero_memq.

Lemma nvme_kv_multi_iosched_cmd_ok g s V cmds n : Sim g s V -> settled_ghost g -> Forall cmd_ok cmds ->
  Forall (fun cmd => quiet s (cmd_key cmd) = true) cmds ->
  exists s', nvme_kv_multi_iosched_cmd (S n) no_blocking_key cmds s = Done KVS_SUCCESS s' /\ Sim g s' (apply_cmds cmds V).
Proof.
  intros HS Hg Hcs Hqs. pose proof (inv_fails _ _ _ (proj1 HS)) as Hf. unfold nvme_kv_multi_iosched_cmd.
  rewrite (bind_done _ _ _ _ _ (kv_memq_alloc_eq s (inv_fails _ _ _ (proj1 HS)) (inv_slab _ _ _ (proj1 HS)))). set (m := s_next_memq s).
  assert (Hf1 : s_fails (new_memq s) = []) by exact Hf. do 2 rewrite (bind_done _ _ _ _ _ (fails_eq _ Hf1)).
  assert (Hm : s_memqs (new_memq s) !! m = Some zero_memq) by apply lookup_insert_eq.
  rewrite (bind_done _ _ (new_memq s) tt (new_memq s)).
  2:{ rewrite (upd_memq_eq _ m _ _ Hm). f_equal. unfold put_memq, new_memq, upd. simpl. by rewrite insert_insert_eq. }
  pose proof (sim_new_carried _ g s V HS) as HN. set (g1 := g <| g_memqs ::= cons m |>) in HN.
  destruct (multi_async_loop_ok g1 m cmds n Hg ltac:(left) Hcs _ V 0 HN Hqs) as (s1 & Hrun & HS1).
  rewrite (bind_done _ _ _ _ _ Hrun). set (t := batch_type cmds 0).
  assert (Hsplit : forall A (k : unit -> M (driver Q) A), (q <- get_memq m ;;
      match mq_rq q with
      | _ :: _ =>
          upd_submitd t (fun d => d <| sd_mumemq_list ::= fun l => l ++ [m] |>) ;; queue_submit_work t
      | [] => kv_memq_free m
      end ;; k tt) s1 = bind (dispatch t m) k s1).
  { intros A k. unfold dispatch, bind. by destruct (get_memq m s1) as [q sq|]; [destruct (match mq_rq q with _ => _ end sq) as [[]|]|]. }
  rewrite (Hsplit _ (fun _ => bad <- fails ;; ret (if bad : bool then EFAULT else KVS_SUCCESS))).
  assert (Ht : 0 <= t < NR_DAEMON).
  { unfold t, batch_type. destruct cmds as [|cmd ?]; [done|]. simpl. by destruct (is_kv_retrieve_cmd (opcode cmd)). }
  destruct (dispatch_ok nr_cpus g s1 _ t m HS1) as (s2 & Hrun2 & HS2 & _); [|by eapply fresh_not_lag|done|].
  - intros Hin. destruct (qi_located _ _ _ _ _ _ (sim_queues _ g s V HS) m LCarried Hin). pose proof (fresh_memq _ g s (proj1 HS)). subst m. congruence.
  - rewrite (bind_done _ _ _ _ _ Hrun2), (bind_done _ _ _ _ _ (fails_eq s2 (inv_fails _ _ _ (proj1 HS2)))). by exists s2.
Qed.
End Batch.
