(* ===== verification/KvFlush.v ===== *)
(** * Flush and read-ahead commands

    [nvme_kv_flush_cmd] without a key, [nvme_kv_discard_readahead_cmd] without a
    key and [nvme_kv_read_from_readahead_cmd] of kv_core.c: they keep the
    invariant and the map of the clients. *)

From Stdlib Require Import ZArith Lia Bool.
From stdpp Require Import base list gmap.
From S2P Require Import Prelude KvFifo KvCmd KvState KvHash KvIosched KvCore KvInv KvExec KvHashSpec KvTrans KvView KvDaemons KvSubmit KvAsync KvSync.

Section Flush.
  Context `{KernelHash} `{KvDevice} `{Fifo Q cap} `{ReadLen} {R : Raced}.
  Variable nr_cpus : Z.
  Context (sleep : driver Q -> driver Q) `{!QuietSleep nr_cpus sleep}.
  Local Abbreviation Inv := (Inv nr_cpus).
  Local Abbreviation Sim := (Sim nr_cpus).
  Implicit Types s : driver Q.
  Implicit Types g : ghost.
  Implicit Types V : kvmap.

(** A loop whose body keeps a property ends. *)
Lemma for_each_ok {A} (P : driver Q -> Prop) (l : list A) body :
  (forall x s, x ∈ l -> P s -> exists s', body x s = Done tt s' /\ P s') ->
  forall s, P s -> exists s', for_each l body s = Done tt s' /\ P s'.
Proof.
  induction l as [|x l IH]; intros Hb s Hs; [by exists s|]. cbn [for_each].
  destruct (Hb x s ltac:(left) Hs) as (s1 & Hrun & Hs1). rewrite (bind_done _ _ _ _ _ Hrun). apply IH; [|done].
  intros y sy Hy. apply Hb. by right.
Qed.

(** ** Flush *)

Lemma in_cpus c : c ∈ cpus nr_cpus -> 0 <= c < nr_cpus.
Proof.
  unfold cpus. intros (x & -> & Hx)%list_elem_of_fmap. apply elem_of_seq in Hx. lia.
Qed.

Lemma flush_delayed_work_ok g s V t cpu : Sim g s V -> t = ACTIVE_READ \/ t = ACTIVE_WRITE -> 0 <= cpu < nr_cpus ->
  exists s', flush_delayed_work t cpu s = Done tt s' /\ Sim g s' V.
Proof.
  intros HS Ht Hcpu. unfold flush_delayed_work.
  rewrite (bind_done _ _ s (bool_decide ((t, cpu) ∈ s_schedd s)) s) by reflexivity.
  destruct (bool_decide ((t, cpu) ∈ s_schedd s)); cbn [when]; [|by exists s].
  set (s1 := s <| s_schedd ::= fun w => w ∖ {[(t, cpu)]} |>). rewrite (bind_done _ _ s tt s1) by reflexivity.
  assert (HS1 : Sim g s1 V) by (eapply sim_core; [..|exact HS]; by repeat split).
  destruct (kv_scheduling_workfn_ok nr_cpus g s1 V t cpu HS1 Ht Hcpu) as (s' & Hrun & HS' & _). by exists s'.
Qed.

Lemma wake_and_flush_ok g s V t : Sim g s V -> t = ACTIVE_READ \/ t = ACTIVE_WRITE ->
  exists s', wake_and_flush nr_cpus t s = Done tt s' /\ Sim g s' V.
Proof.
  intros HS Ht. unfold wake_and_flush.
  edestruct (for_each_ok (fun s => Sim g s V) (cpus nr_cpus)) as (s1 & Hrun & HS1); [|exact HS|].
  2:{ rewrite (bind_done _ _ _ _ _ Hrun). apply (for_each_ok (fun s => Sim g s V)); [|done].
      intros cpu s2 Hcpu HS2. apply flush_delayed_work_ok; [done|done|by apply in_cpus]. }
  intros cpu s2 Hcpu%in_cpus HS2. destruct (qi_active _ _ _ _ _ _ (sim_queues _ g s2 V HS2) t cpu Ht Hcpu) as [m Hm].
  destruct (qi_located _ _ _ _ _ _ (sim_queues _ g s2 V HS2) m (LPercpu t cpu) Hm) as [q Hq].
  rewrite (bind_done _ _ s2 (Some m) s2) by (unfold get_percpu, gets; by rewrite Hm).
  rewrite (bind_done _ _ _ _ _ (get_memq_eq s2 m q Hq)).
  destruct (negb (mq_nr_rq q =? 0)); cbn [when]; [by apply wakeup_immediately_ok|by exists s2].
Qed.

(** The request the flush waits for gets the mark. *)
Lemma sim_mark g s V i r : Sim g s V -> s_heap s !! i = Some r ->
  Sim g (put_rq i (r <| rq_state ::= set_bit KV_async_flush_wakeup |>) s) V.
Proof.
  intros [HI HV] Hi. set (r' := r <| rq_state ::= set_bit KV_async_flush_wakeup |>).
  assert (Hbits : invalid r' = invalid r /\ flying r' = flying r /\ in_ra r' = in_ra r /\ completed r' = completed r /\ blocking r' = blocking r).
  { unfold r', blocking, flying, in_ra, completed, invalid, bit. simpl. by autorewrite with flags. }
  destruct Hbits as (B1 & B2 & B3 & B4 & B5). split.
  - eapply inv_same_shape; [done|done| | |].
    + unfold shape, mview. by rewrite B2, B3, B5.
    + destruct (inv_base _ _ _ HI i r Hi). by split.
    + pose proof (inv_place _ _ _ HI i r Hi) as Hp. unfold place_ok in *. rewrite B2, B3.
      destruct (in_ra r); [|destruct (flying r)]; destruct Hp as [[] ?]; (split; [|done]); split; rewrite ?B1, ?B2, ?B4, ?B5; done.
  - eapply view_put; [done| |left|done]; [unfold lw, buffered|unfold lr]; by rewrite B1, B2, B3.
Qed.

Lemma flush_all_ok g s V t : Sim g s V -> settled_ghost g -> t = ACTIVE_READ \/ t = ACTIVE_WRITE ->
  exists s', flush_all sleep nr_cpus t s = Done tt s' /\ Sim g s' V.
Proof.
  intros HS Hg Ht. unfold flush_all, set_rq_bit. destruct (wake_and_flush_ok g s V t HS Ht) as (s1 & Hrun & HS1).
  rewrite (bind_done _ _ _ _ _ Hrun). pose proof (sim_queues _ g s1 V HS1) as Hqi.
  destruct (qi_daemons _ _ _ _ _ _ Hqi WRITE_DAEMON ltac:(done)) as [d Hd].
  rewrite (bind_done _ _ _ _ _ (get_submitd_eq s1 _ d Hd)).
  destruct (last (sd_mumemq_list d)) as [m|] eqn:Hl; [|by exists s1].
  assert (Hat : at_loc (g_memqs g) (s_percpu_memq s1) (s_submit s1) m (LDaemon WRITE_DAEMON)).
  { exists d. split; [done|]. apply last_Some in Hl as [l' ->]. apply elem_of_app. right. left. }
  destruct (qi_located _ _ _ _ _ _ Hqi m _ Hat) as [q Hq]. rewrite (bind_done _ _ _ _ _ (get_memq_eq s1 m q Hq)).
  destruct (last (mq_rq q)) as [i|] eqn:Hlast; [|by exists s1].
  destruct (mo_members _ _ _ _ (inv_memq _ _ _ (proj1 HS1) m q Hq) i) as (r & Hi & _).
  { apply last_Some in Hlast as [l' ->]. apply elem_of_app. right. left. }
  pose proof (rb_lock _ (inv_base _ _ _ (proj1 HS1) i r Hi)) as Hlk.
  rewrite (bind_done _ _ _ _ _ (spin_lock_eq _ i r Hi Hlk)). set (r1 := r <| rq_lock := true |>).
  destruct (t =? ACTIVE_WRITE); cbn [when].
  - set (r2 := r <| rq_state ::= set_bit KV_async_flush_wakeup |>).
    rewrite (bind_done _ _ _ _ _ (upd_rq_eq _ i r1 _ (put_rq_lookup i r1 s1))), put_rq_twice.
    set (r3 := r1 <| rq_state ::= set_bit KV_async_flush_wakeup |>).
    rewrite (bind_done _ _ _ _ _ (spin_unlock_eq _ i r3 (put_rq_lookup i r3 s1) eq_refl)), put_rq_twice.
    assert (Hr : r3 <| rq_lock := false |> = r2) by (unfold r3, r2, r1, upd; destruct r; simpl in *; by subst). rewrite Hr.
    assert (HS2 : Sim g (put_rq i r2 s1) V) by by apply sim_mark.
    rewrite (wait_on_bit_eq sleep _ i r2 _ (put_rq_lookup i r2 s1)).
    + eexists. split; [done|]. by apply sim_after_wait, sleep_sim.
    + unfold bit, r2. simpl. by apply test_set_bit.
  - rewrite (bind_done _ _ _ tt (put_rq i r1 s1)) by reflexivity.
    rewrite (bind_done _ _ _ _ _ (spin_unlock_eq _ i r1 (put_rq_lookup i r1 s1) eq_refl)), put_rq_twice.
    assert (Hr : r1 <| rq_lock := false |> = r) by (unfold r1, upd; destruct r; simpl in *; by subst).
    rewrite Hr, put_rq_id by done. by exists s1.
Qed.

(** A flush command without a key. *)
Lemma nvme_kv_flush_cmd_ok g s V cmd : Sim g s V -> settled_ghost g -> flags cmd = 0 -> key_length cmd = 0 ->
  exists s', nvme_kv_flush_cmd sleep nr_cpus cmd s = Done (reply 0 (Some KVS_SUCCESS)) s' /\ Sim g s' V.
Proof.
  intros HS Hg Hfl Hk. unfold nvme_kv_flush_cmd. rewrite (bind_done _ _ _ _ _ (fails_eq s (inv_fails _ _ _ (proj1 HS)))), Hfl.
  cbn [negb Z.eqb]. cbv zeta. unfold optional_key. rewrite Hk. cbn [Z.ltb Z.compare KVCMD_INLINE_KEY_MAX Z.eqb].
  set (t := if is_kv_retrieve_cmd (opcode cmd) then ACTIVE_READ else ACTIVE_WRITE).
  rewrite (bind_done _ _ s (inr None) s) by reflexivity. rewrite (bind_done _ _ s (h_nr_rq (s_rq_hash s)) s) by reflexivity.
  assert (Hw : exists s', when (negb (h_nr_rq (s_rq_hash s) =? 0)) (flush_all sleep nr_cpus t) s = Done tt s' /\ Sim g s' V).
  { destruct (negb _); cbn [when]; [|by exists s]. apply flush_all_ok; [done|done|]. unfold t. destruct (is_kv_retrieve_cmd _); auto. }
  destruct Hw as (s1 & Hrun & HS1). rewrite (bind_done _ _ _ _ _ Hrun).
  rewrite (bind_done _ _ _ _ _ (fails_eq s1 (inv_fails _ _ _ (proj1 HS1)))). by exists s1.
Qed.

(** ** Discarding all the read-ahead data *)

(** [nvme_kv_discard_readahead_cmd] has taken the whole list away; the entries
    [l] are still to be freed. *)
Definition discarding g V (l : list positive) s : Prop := s_ra_list s = [] /\ Sim g (s <| s_ra_list := l |>) V.

Lemma discard_one_ok g V i l s : discarding g V (i :: l) s ->
  exists s', discard_one i s = Done tt s' /\ discarding g V l s'.
Proof.
  intros [Hnil HS]. pose proof HS as [HI HV]. destruct (inv_ra _ _ _ HI) as [Hnd Hra]. simpl in Hnd, Hra.
  destruct (Hra i ltac:(left)) as (r & Hi & Hir). destruct (in_ra_ok _ _ _ i r HI Hi Hir) as [[_ Hh _ _] _].
  pose proof (inv_base _ _ _ HI i r Hi) as Hb. unfold discard_one.
  assert (Hu : unlocked s) by (intros h; by pose proof (inv_locks _ _ _ HI h) as Hl; destruct h).
  rewrite (bind_done _ _ _ _ _ (kv_hash_delete_readahead_spec s _ i r _ Hu Hi Hh eq_refl)). cbn [Z.eqb when].
  set (r1 := r <| rq_hash := None |>). change (nr_add _ _ _) with (put_rq i r1 (unhash_ra i r s)).
  rewrite (bind_done _ _ _ _ _ (spin_lock_eq _ i r1 (put_rq_lookup i r1 _) (rb_lock _ Hb))), put_rq_twice.
  set (r2 := r1 <| rq_lock := true |>).
  rewrite (put_locked_free _ i r2 (put_rq_lookup i r2 _) eq_refl (rb_refcount _ Hb)), drop_put_rq.
  eexists. split; [done|]. split; [simpl; by rewrite Hnil|].
  eapply sim_core; [..|exact (sim_drop_ra nr_cpus g _ V i r HS Hi Hir)]; [|done].
  repeat split; try done. simpl. rewrite filter_cons_False by tauto. apply NoDup_cons in Hnd as [Hn _]. by rewrite filter_notin.
Qed.

Lemma discard_list_ok g V l : forall s, discarding g V l s -> exists s', for_each l discard_one s = Done tt s' /\ discarding g V [] s'.
Proof.
  induction l as [|i l IH]; intros s HD; [by exists s|]. cbn [for_each].
  destruct (discard_one_ok g V i l s HD) as (s1 & Hrun & HD1). rewrite (bind_done _ _ _ _ _ Hrun). by apply IH.
Qed.

Lemma nvme_kv_discard_readahead_cmd_ok n g s V cmd : Sim g s V -> flags cmd = 0 -> key_length cmd = 0 ->
  exists s', nvme_kv_discard_readahead_cmd sleep n cmd s = Done (reply 0 (Some KVS_SUCCESS)) s' /\ Sim g s' V /\ s_ra_list s' = [].
Proof.
  intros HS Hfl Hk. unfold nvme_kv_discard_readahead_cmd.
  rewrite (bind_done _ _ _ _ _ (fails_eq s (inv_fails _ _ _ (proj1 HS)))), Hfl.
  cbn [negb Z.eqb]. unfold optional_key. rewrite Hk. cbn [Z.ltb Z.compare KVCMD_INLINE_KEY_MAX Z.eqb].
  rewrite (bind_done _ _ s (inr None) s) by reflexivity. set (s0 := s <| s_ra_list := [] |>).
  destruct (discard_list_ok g V (s_ra_list s) s0) as (s1 & Hrun & Hnil & HS1).
  { split; [done|]. eapply sim_core; [..|exact HS]; by repeat split. }
  assert (HS1' : Sim g s1 V) by (eapply sim_core; [..|exact HS1]; by repeat split).
  rewrite (bind_done _ _ s tt s1).
  2:{ rewrite (bind_done _ _ s (s_ra_list s) s) by reflexivity. rewrite (bind_done _ _ s tt s0) by reflexivity. exact Hrun. }
  rewrite (bind_done _ _ _ _ _ (fails_eq s1 (inv_fails _ _ _ (proj1 HS1')))). by exists s1.
Qed.

(** ** Reading the read-ahead data *)

Lemma nvme_kv_read_from_readahead_cmd_ok g s V cmd : Sim g s V -> cmd_ok cmd -> is_kv_retrieve_cmd (opcode cmd) = true ->
  exists out s', nvme_kv_read_from_readahead_cmd cmd s = Done out s' /\ Sim g s' V /\
    (ra_replied cmd V out \/ out = reply 0 (Some 0)).
Proof.
  intros HS Hc Hop. unfold nvme_kv_read_from_readahead_cmd.
  rewrite (bind_done _ _ _ _ _ (fails_eq s (inv_fails _ _ _ (proj1 HS)))), (co_flags _ Hc), Hop. cbn [negb Z.eqb].
  rewrite (bind_done _ _ _ _ _ (fetch_key_eq s cmd Hc)).
  destruct (do_readahead_ok nr_cpus g s V cmd HS Hc) as (hit & s1 & Hrun & HS1 & _ & Hhit & _). rewrite (bind_done _ _ _ _ _ Hrun).
  pose proof (inv_fails _ _ _ (proj1 HS1)) as Hf. destruct hit as [hit|].
  - destruct (ra_hit_eq s1 cmd V hit Hf Hhit) as (out & Hrun1 & Hst). exists out, s1. split; [done|]. split; [done|by left].
  - rewrite (bind_done _ _ _ _ _ (fails_eq s1 Hf)). do 2 eexists. split; [done|]. split; [done|by right].
Qed.
End Flush.
