(* ===== verification/KvSleep.v ===== *)
(** * What happens while a thread sleeps

    [drain] is what the rest of the driver does while a thread waits on a bit:
    the device completes the requests it was given one after the other and the
    completion daemon handles each of them.  It satisfies [WakingSleep], the
    interface the handlers and the submission daemon are proved against. *)

From Stdlib Require Import ZArith Lia Bool.
From stdpp Require Import base list gmap.
From S2P Require Import Prelude KvFifo KvCmd KvState KvHash KvIosched KvCore KvInv KvExec KvHashSpec KvTrans KvView KvDaemons KvSubmit KvFrame KvAsync KvSync.

(** ** The drain *)

Section Drain.
  Context `{KernelHash} `{KvDevice} `{Fifo Q cap} `{ReadLen} {R : Raced}.
  Variable nr_cpus : Z.
  Local Abbreviation Inv := (Inv nr_cpus).
  Local Abbreviation Sim := (Sim nr_cpus).
  Implicit Types s : driver Q.
  Implicit Types g : ghost.
  Implicit Types V : kvmap.

(** The completion daemon runs until the ring is empty. *)
Definition settle : M (driver Q) unit :=
  n <- gets (fun s => length (fifo_contents (s_fifo s))) ;; kv_completion_workfn (S n).

(** Interrupt and completion for each request of [l]. *)
Definition drain_list (l : list positive) : M (driver Q) unit :=
  settle ;; for_each l (fun i => device_complete i ;; settle).

Definition drain s : driver Q :=
  match drain_list (s_dev_queue s) s with Done _ s' => s' | Fault _ => s end.

(** The drain moves no queue and makes no request pending. *)
Lemma framed_settle T : framed T settle.
Proof. unfold settle. frame_tac. apply framed_completion. Qed.
Lemma framed_drain_list T l : framed T (drain_list l).
Proof.
  unfold drain_list. apply framed_bind; [apply framed_settle|intros _]. induction l as [|i l IH]; cbn [for_each]; frame_tac;
    auto using framed_device_complete, framed_settle.
Qed.

#[export] Instance drain_passive : PassiveSleep drain.
Proof.
  intros s Hc. unfold drain. destruct (drain_list (s_dev_queue s) s) as [[] s'|] eqn:Hrun; [|split; [done|reflexivity]].
  by apply (framed_drain_list (fun _ => False) (s_dev_queue s) s tt).
Qed.

Lemma sim_calm g s V : Sim g s V -> calm s.
Proof. intros [HI _]. split; [apply (inv_fails _ _ _ HI)|]. intros m q Hm. apply (mo_key _ _ _ _ (inv_memq _ _ _ HI m q Hm)). Qed.

Lemma passive_lists s s' : frame (fun _ => False) s s' -> same_lists s s'.
Proof. intros Hf t. apply (fr_lists _ _ _ Hf). tauto. Qed.

(** What a run of the environment guarantees. *)
Definition env_ok g V (p : M (driver Q) unit) s (Post : driver Q -> Prop) : Prop :=
  exists s', p s = Done tt s' /\ Sim g s' V /\ undisturbed (g_memqs g) s s' /\ frame (fun _ => False) s s' /\ Post s'.

Lemma settle_ok g s V : Sim g s V -> settled_ghost g ->
  env_ok g V settle s (fun s' => fifo_contents (s_fifo s') = [] /\ s_dev_queue s' = s_dev_queue s).
Proof.
  intros HS Hg. unfold settle, env_ok. rewrite (bind_done _ _ s (length (fifo_contents (s_fifo s))) s) by reflexivity.
  destruct (kv_completion_workfn_ok nr_cpus (g_memqs g) (S (length (fifo_contents (s_fifo s)))) g s V HS Hg ltac:(lia)) as (s' & Hrun & HS' & Hk & Hpost).
  exists s'. split; [done|]. split; [done|]. split; [done|]. split; [by eapply framed_completion; [eapply sim_calm|]|done].
Qed.

Lemma env_bind g V p k s P S : env_ok g V p s P ->
  (forall s1, Sim g s1 V -> P s1 -> env_ok g V (k tt) s1 S) -> env_ok g V (bind p k) s S.
Proof.
  intros (s1 & Hrun & HS1 & Hk1 & Hl1 & HP) Hk. destruct (Hk s1 HS1 HP) as (s2 & Hrun2 & HS2 & Hk2 & Hl2 & HR).
  exists s2. rewrite (bind_done _ _ _ _ _ Hrun). split; [done|]. split; [done|]. split; [by transitivity s1|]. split; [by transitivity s1|done].
Qed.

Lemma interrupt_ok g s V i : Sim g s V -> settled_ghost g -> i ∈ s_dev_queue s -> fifo_contents (s_fifo s) = [] -> 0 < cap ->
  env_ok g V (device_complete i) s (fun s' => s_dev_queue s' = filter (fun j => j <> i) (s_dev_queue s)).
Proof.
  intros HS Hg Hi Hempty Hcap.
  destruct (device_complete_ok nr_cpus (g_memqs g) g s V i HS Hg Hi) as (s' & Hrun & HS' & Hk & _ & Hq); [by rewrite Hempty|].
  exists s'. split; [done|]. split; [done|]. split; [done|]. split; [by eapply framed_device_complete; [eapply sim_calm|]|done].
Qed.

Lemma drain_each_ok g V l : settled_ghost g -> 0 < cap -> forall s, Sim g s V -> s_dev_queue s = l -> fifo_contents (s_fifo s) = [] ->
  env_ok g V (for_each l (fun i => device_complete i ;; settle)) s (fun s' => s_dev_queue s' = [] /\ fifo_contents (s_fifo s') = []).
Proof.
  intros Hg Hcap. induction l as [|i l IH]; intros s HS Hl Hempty.
  - exists s. split; [done|]. split; [done|]. split; [reflexivity|]. split; [reflexivity|done].
  - cbn [for_each]. apply (env_bind _ _ _ _ _ (fun s' => fifo_contents (s_fifo s') = [] /\ s_dev_queue s' = l)).
    { eapply env_bind; [apply interrupt_ok; [done|done|rewrite Hl; left|done|done]|]. intros s1 HS1 Hq1.
      assert (Hq : s_dev_queue s1 = l); [|rewrite <- Hq; by apply settle_ok].
      rewrite Hq1, Hl, filter_cons_False by tauto. apply filter_notin.
      destruct (inv_flying _ _ _ (proj1 HS)) as [Hnd _]. unfold flying_list in Hnd. rewrite Hl in Hnd.
      apply NoDup_app in Hnd as (_ & _ & Hnd). apply NoDup_app in Hnd as (Hnd & _). by apply NoDup_cons in Hnd as [? _]. }
    intros s2 HS2 [He Hq]. by apply IH.
Qed.

Lemma drain_list_ok g s V : Sim g s V -> settled_ghost g -> 0 < cap ->
  env_ok g V (drain_list (s_dev_queue s)) s (fun s' => s_dev_queue s' = [] /\ fifo_contents (s_fifo s') = []).
Proof.
  intros HS Hg Hcap. eapply env_bind; [by apply settle_ok|]. intros s1 HS1 [He Hq]. rewrite <- Hq. by apply drain_each_ok.
Qed.

Lemma drain_ok g s V : Sim g s V -> settled_ghost g -> 0 < cap ->
  Sim g (drain s) V /\ undisturbed (g_memqs g) s (drain s) /\ frame (fun _ => False) s (drain s) /\
  s_dev_queue (drain s) = [] /\ fifo_contents (s_fifo (drain s)) = [].
Proof.
  intros HS Hg Hcap. destruct (drain_list_ok g s V HS Hg Hcap) as (s' & Hrun & ?). unfold drain. by rewrite Hrun.
Qed.

End Drain.

(** The drain is a sleep the driver may rely on. *)
Lemma drain_waking `{KernelHash} `{KvDevice} `{Fifo Q cap} `{ReadLen} nr_cpus : 0 < cap -> WakingSleep nr_cpus (drain (Q := Q)).
Proof.
  intros Hcap. split; [split|].
  - intros R g s V Hg HS. by apply drain_ok.
  - intros R g s V Hg HS. by apply (drain_ok nr_cpus g s V).
  - intros R g s V Hg HS. by apply passive_lists, (drain_ok nr_cpus g s V).
  - intros R g s V i r Hg Ho HS Hi. destruct (drain_ok nr_cpus g s V HS Hg Hcap) as (HS' & _ & _ & Hd & He).
    destruct (flying r) eqn:Hf; [|done]. destruct (flying_ok _ g _ i r (proj1 HS') Hi Hf) as (_ & _ & Hin).
    unfold flying_list in Hin. rewrite Ho, Hd, He in Hin. by apply elem_of_nil in Hin.
Qed.
