(* ===== verification/KvSystem.v ===== *)
(** * The driver as a whole

    The initial state, the events of the system (client commands, the work
    functions of the daemons, device interrupts), and the refinement: every run
    of the driver is a run of the key-value map its clients see. *)

From Stdlib Require Import ZArith Lia Bool.
From stdpp Require Import base list gmap.
From S2P Require Import Prelude KvFifo KvCmd KvState KvHash KvIosched KvCore KvInv KvExec KvHashSpec KvTrans KvView KvDaemons KvSubmit KvAsync KvSync KvBatch KvFlush.

Section System.
  Context `{KernelHash} `{KvDevice} `{Fifo Q cap} `{ReadLen} {R : Raced}.
  Variable nr_cpus : Z.
  Local Abbreviation Inv := (Inv nr_cpus).
  Local Abbreviation Sim := (Sim nr_cpus).
  Implicit Types s : driver Q.
  Implicit Types g : ghost.
  Implicit Types V : kvmap.

(** ** Initialisation *)

(** The zeroed [struct kv_iosched_struct] of a namespace whose device is [d];
    [fifo0] is the ring [init_kv_fifo] sets up. *)
Definition blank (d : dev_state) (fifo0 : Q) : driver Q :=
  {| s_heap := ∅; s_next_rq := 1; s_memqs := ∅; s_next_memq := 1; s_memq_slab := []; s_rq_hash := kv_hash_init; s_ra_hash := kv_hash_init;
     s_ra_list := []; s_percpu_memq := ∅; s_schedd := ∅; s_submit := ∅; s_fifo := fifo0; s_complete_queued := false;
     s_in_flight := ∅; s_state := 0; s_nr_interrupt := 0; s_nr_complete := 0; s_nr_retry := 0; s_dev_queue := [];
     s_dev := d; s_fails := []; stale_reads := [] |}.

(** The values the device holds. *)
Definition holds (d : dev_state) V : Prop :=
  forall kk, key_wf kk.1 kk.2 -> V !! kk = dev_get d kk.1 (u8 (kk.2 - 1)).

(** A driver without requests and queues satisfies the invariant for no CPU. *)
Lemma sim_blank s V : s_heap s = ∅ -> s_memqs s = ∅ -> s_percpu_memq s = ∅ -> s_rq_hash s = kv_hash_init -> s_ra_hash s = kv_hash_init ->
  s_ra_list s = [] -> s_memq_slab s = [] -> s_dev_queue s = [] -> s_nr_interrupt s = 0 -> s_nr_complete s = 0 -> s_fails s = [] ->
  fifo_ok (s_fifo s) -> fifo_contents (s_fifo s) = [] -> holds (s_dev s) V ->
  (forall t d, s_submit s !! t = Some d -> sd_mumemq_list d = []) -> (forall t, 0 <= t < NR_DAEMON -> is_Some (s_submit s !! t)) ->
  (forall t d, s_submit s !! t = Some d -> 0 <= t < NR_DAEMON) -> KvDaemons.Sim 0 idle s V.
Proof.
  intros Hh Hm Hp Hrq Hra Hrl Hslab Hdq Hni Hnc Hf Hfifo Hfc Hd Hsub Hdm Hty.
  assert (Htab : forall h, get_hash h s = kv_hash_init) by by intros [].
  assert (Hnone : forall i r, s_heap s !! i <> Some r) by (intros i r; by rewrite Hh, lookup_empty).
  assert (Hlive : forall i x, ~ live s i x) by (intros i x (r & Hi & _); by apply Hnone in Hi).
  assert (Hseen : forall i x, ~ seen s i x) by (intros i x (r & Hi & _); by apply Hnone in Hi).
  split; [split|split];
    try (intros i r Hi; by apply Hnone in Hi); try (intros i r b Hi; by apply Hnone in Hi);
    try (intros i kk v Hl; by apply Hlive in Hl); try (intros i kk v _ Hl; by apply Hlive in Hl);
    try (intros i kk [x Hl]; by apply Hseen in Hl); try (intros i kk ra a Hl; by apply Hseen in Hl).
  - split.
    + intros h k. unfold tables. rewrite Htab. simpl. rewrite lookup_empty. constructor.
    + intros h k i. unfold tables. rewrite Htab. simpl. rewrite lookup_empty. split; [intros Hi; by apply elem_of_nil in Hi|].
      intros (r & Hi & _). by apply Hnone in Hi.
    + intros h k1 k2 i j ri rj Hi. by apply Hnone in Hi.
  - intros h. by rewrite Htab.
  - intros h. rewrite Htab, Hh. unfold count_hashed. by rewrite map_filter_empty, map_size_empty.
  - intros m q. by rewrite Hm, lookup_empty.
  - unfold flying_list. simpl. rewrite Hdq, Hfc. split; [constructor|]. intros i Hi. by apply elem_of_nil in Hi.
  - rewrite Hrl. split; [constructor|]. intros i Hi. by apply elem_of_nil in Hi.
  - split; rewrite ?Hp, ?Hm.
    + intros m [t cpu|t|]; simpl; [by rewrite lookup_empty|intros (d & Hd' & Hin); rewrite (Hsub t d Hd') in Hin|intros Hin]; by apply elem_of_nil in Hin.
    + intros m [t cpu|t|] l2; simpl; [by rewrite lookup_empty|intros (d & Hd' & Hin); rewrite (Hsub t d Hd') in Hin|intros Hin]; by apply elem_of_nil in Hin.
    + intros t d Hd'. rewrite (Hsub t d Hd'). constructor.
    + constructor.
    + intros t cpu _ Hc. lia.
    + done.
    + intros m. rewrite lookup_empty. by intros [].
    + intros m. rewrite lookup_empty. by intros [].
    + intros k m. by rewrite lookup_empty.
    + done.
  - intros i [r Hr]. by apply Hnone in Hr.
  - split; [done|]. rewrite Hni, Hnc, Hfc. done.
  - done.
  - intros m Hl. by apply elem_of_nil in Hl.
  - intros q. rewrite Hslab. by intros Hq%elem_of_nil.
  - intros kk Hwf _. by apply Hd.
Qed.

(** Allocating the queues of the types and CPUs. *)
Definition alloc_percpu (t cpu : Z) : M (driver Q) bool :=
  m <- kv_memq_alloc ;; set_percpu t cpu m ;; ret (match m with Some _ => true | None => false end).

Lemma alloc_percpu_ok s V t cpu : KvDaemons.Sim 0 idle s V -> s_percpu_memq s !! (t, cpu) = None -> 0 <= t < NR_DAEMON ->
  exists s', alloc_percpu t cpu s = Done true s' /\ KvDaemons.Sim 0 idle s' V /\
    s_percpu_memq s' = <[(t, cpu) := s_next_memq s]> (s_percpu_memq s).
Proof.
  intros HS Hn Ht. unfold alloc_percpu. rewrite (bind_done _ _ _ _ _ (kv_memq_alloc_eq s (inv_fails _ _ _ (proj1 HS)) (inv_slab _ _ _ (proj1 HS)))).
  eexists. split; [reflexivity|]. split; [|done].
  apply (sim_give_percpu 0 idle []); [|done|split; [done|lia]|intros Hl; by apply elem_of_nil in Hl].
  eapply sim_core; [..|exact (sim_new_carried 0 idle s V HS)]; by repeat split.
Qed.

Lemma try_each_ok {A} (P : list A -> driver Q -> Prop) (l : list A) body : forall l0 s, NoDup (l0 ++ l) -> P l0 s ->
  (forall x l1 s, x ∈ l -> x ∉ l1 -> P l1 s -> exists s', body x s = Done true s' /\ P (l1 ++ [x]) s') ->
  exists s', try_each l body s = Done true s' /\ P (l0 ++ l) s'.
Proof.
  induction l as [|x l IH]; intros l0 s Hnd HP Hb; cbn [try_each]; [exists s; by rewrite app_nil_r|].
  assert (Hx : x ∉ l0) by (intros Hin; apply NoDup_app in Hnd as (_ & Hd & _); apply (Hd x Hin); left).
  destruct (Hb x l0 s ltac:(left) Hx HP) as (s1 & Hrun & HP1). rewrite (bind_done _ _ _ _ _ Hrun).
  rewrite cons_middle, app_assoc in Hnd |- *. apply IH; [done|done|]. intros y l1 s2 Hy. apply Hb. by right.
Qed.

(** What initialisation leaves alone after the daemons are set up. *)
Definition pristine s : Prop :=
  s_rq_hash s = kv_hash_init /\ s_ra_hash s = kv_hash_init /\ s_ra_list s = [] /\ s_nr_interrupt s = 0 /\ s_nr_complete s = 0.

(** The slots of the types [ts], and of the type [t] for the CPUs [cs], have a queue. *)
Definition allocated V (ts : list Z) (t : Z) (cs : list Z) s : Prop :=
  KvDaemons.Sim 0 idle s V /\ pristine s /\
  forall t' cpu, is_Some (s_percpu_memq s !! (t', cpu)) <-> (t' ∈ ts /\ cpu ∈ cpus nr_cpus) \/ (t' = t /\ cpu ∈ cs).

Lemma alloc_type_ok V ts t s : NoDup (cpus nr_cpus) -> t ∉ ts -> 0 <= t < NR_DAEMON -> allocated V ts t [] s ->
  exists s', try_each (cpus nr_cpus) (alloc_percpu t) s = Done true s' /\ allocated V ts t (cpus nr_cpus) s'.
Proof.
  intros Hnd Ht Htr HA. apply (try_each_ok (fun cs s => allocated V ts t cs s) _ _ []); [done|done|].
  intros cpu cs s1 _ Hcpu (HS & Hpr & Hslots).
  assert (Hn : s_percpu_memq s1 !! (t, cpu) = None).
  { destruct (s_percpu_memq s1 !! (t, cpu)) eqn:Hm; [|done]. destruct (proj1 (Hslots t cpu) ltac:(eauto)) as [[? _]|[_ ?]]; done. }
  destruct (alloc_percpu_ok s1 V t cpu HS Hn Htr) as (s2 & Hrun & HS2 & Hp2). exists s2. split; [done|]. split; [done|].
  split; [unfold alloc_percpu in Hrun; rewrite (bind_done _ _ _ _ _ (kv_memq_alloc_eq s1 (inv_fails _ _ _ (proj1 HS)) (inv_slab _ _ _ (proj1 HS)))) in Hrun;
    by injection Hrun as <-|].
  intros t' c. rewrite Hp2. destruct (decide ((t, cpu) = (t', c))) as [[= <- <-]|Hne].
  - rewrite lookup_insert_eq. split; [|eauto]. intros _. right. split; [done|]. apply elem_of_app. right. left.
  - rewrite lookup_insert_ne by done. rewrite Hslots. rewrite elem_of_app, list_elem_of_singleton. naive_solver.
Qed.

Lemma nodup_cpus : NoDup (cpus nr_cpus).
Proof. unfold cpus. apply NoDup_fmap_2; [intros x y; lia|apply NoDup_seq]. Qed.

Lemma alloc_types_ok V s : (forall k, s_percpu_memq s !! k = None) -> KvDaemons.Sim 0 idle s V -> pristine s ->
  exists s', try_each memq_types (fun t =>
      b <- fails ;; if b : bool then ret false else try_each (cpus nr_cpus) (alloc_percpu t)) s = Done true s' /\
    allocated V memq_types 0 [] s'.
Proof.
  intros Hnone HS Hpr.
  edestruct (try_each_ok (fun ts s => forall t, allocated V ts t [] s) memq_types) with (l0 := @nil Z) as (s' & Hrun & HA); cycle 3.
  - exists s'. split; [exact Hrun|apply HA].
  - simpl. unfold memq_types, ACTIVE_READ, ACTIVE_WRITE. repeat constructor; set_solver.
  - intros t. split; [done|]. split; [done|]. intros t' cpu. rewrite Hnone. split; [by intros []|set_solver].
  - intros t ts s1 Hin Ht HA. assert (Htr : 0 <= t < NR_DAEMON).
    { unfold memq_types in Hin. rewrite !elem_of_cons, elem_of_nil in Hin. destruct Hin as [->|[->|[->|[->|[]]]]]; done. }
    pose proof (HA t) as (HS1 & _). rewrite (bind_done _ _ _ _ _ (fails_eq s1 (inv_fails _ _ _ (proj1 HS1)))).
    destruct (alloc_type_ok V ts t s1 nodup_cpus Ht Htr (HA t)) as (s2 & Hrun & HS2 & Hpr2 & Hslots).
    exists s2. split; [done|]. intros u. split; [done|]. split; [done|]. intros t' cpu. rewrite Hslots, elem_of_app, list_elem_of_singleton.
    set_solver.
Qed.

(** The invariant for the CPUs there are. *)
Lemma sim_cpus s V : KvDaemons.Sim 0 idle s V ->
  (forall t cpu, t = ACTIVE_READ \/ t = ACTIVE_WRITE -> 0 <= cpu < nr_cpus -> is_Some (s_percpu_memq s !! (t, cpu))) ->
  (forall t cpu m, s_percpu_memq s !! (t, cpu) = Some m -> 0 <= cpu < nr_cpus) -> Sim idle s V.
Proof.
  intros [[Ibase Iplace Ihash Ilocks Inr Imemq Ifl Ira Ipend Iblk Iq Ifresh Ififo Ifails Ilag] HV] Hact Hcpu.
  split; [|done]. split; try done. destruct Iq as [? ? ? ? _ ? ? ? Hsl]. split; try done.
  intros [t cpu] m Hm. split; [by eapply (Hsl (t, cpu))|intros _; by eapply Hcpu].
Qed.

(** Creating the work queues, and the ring. *)
Definition with_daemons (d : dev_state) (fifo0 : Q) : driver Q :=
  let w := {| sd_mumemq_list := []; sd_last_cpu := 0; sd_queued := false |} in
  (blank d fifo0) <| s_submit := <[BATCH_WRITE_DAEMON := w]> (<[BATCH_READ_DAEMON := w]> (<[WRITE_DAEMON := w]> (<[READ_DAEMON := w]> ∅))) |>.

Lemma init_kv_workqueue_eq d fifo0 : init_kv_workqueue nr_cpus (blank d fifo0) = Done 0 (with_daemons d fifo0).
Proof.
  unfold init_kv_workqueue. rewrite (bind_done _ _ _ true (blank d fifo0)); [reflexivity|].
  assert (Hin : forall l, try_each l (fun _ : Z => b <- fails ;; ret (negb b)) (blank d fifo0) = Done true (blank d fifo0)).
  { induction l as [|x l IH]; [done|]. cbn [try_each]. by rewrite (bind_done _ _ _ true (blank d fifo0)) by reflexivity. }
  cbn [try_each]. rewrite (bind_done _ _ _ _ _ (Hin _)), (bind_done _ _ _ _ _ (Hin _)). done.
Qed.

Lemma sim_with_daemons d fifo0 V : fifo_ok fifo0 -> fifo_contents fifo0 = [] -> holds d V -> KvDaemons.Sim 0 idle (with_daemons d fifo0) V.
Proof.
  intros Hq Hc Hd. apply sim_blank; try done.
  - intros t w. unfold with_daemons. simpl. rewrite !lookup_insert_Some, lookup_empty. naive_solver.
  - intros t Ht. assert (t = 0 \/ t = 1 \/ t = 2 \/ t = 3) as Hcase by (change NR_DAEMON with 4 in Ht; lia).
    destruct Hcase as [->|[->|[->| ->]]]; eexists; reflexivity.
  - intros t w. unfold with_daemons. simpl. rewrite !lookup_insert_Some, lookup_empty.
    intros [[<- _]|[_ [[<- _]|[_ [[<- _]|[_ [[<- _]|[_ ?]]]]]]]]; done.
Qed.

Lemma kv_iosched_init_ok d fifo0 V : fifo_ok fifo0 -> fifo_contents fifo0 = [] -> holds d V ->
  exists s, kv_iosched_init nr_cpus fifo0 (blank d fifo0) = Done 0 s /\ Sim idle s V.
Proof.
  intros Hq Hc Hd. unfold kv_iosched_init. rewrite (bind_done _ _ _ _ _ (init_kv_workqueue_eq d fifo0)). cbn [negb Z.eqb].
  rewrite (bind_done _ _ _ tt (with_daemons d fifo0)) by reflexivity.
  destruct (alloc_types_ok V (with_daemons d fifo0)) as (s & Hrun & HS & Hpr & Hslots);
    [done|by apply sim_with_daemons|done|].
  fold alloc_percpu. rewrite (bind_done _ _ _ _ _ Hrun). cbn [negb]. eexists. split; [reflexivity|].
  destruct Hpr as (Hrq & Hra & Hrl & Hni & Hnc). apply sim_cpus.
  - eapply sim_core; [..|exact HS]; [|done]. by repeat split.
  - intros t cpu Ht Hcpu. apply (proj2 (Hslots t cpu)). left. split.
    + destruct Ht as [-> | ->]; unfold memq_types; set_solver.
    + unfold cpus. apply list_elem_of_fmap. exists (Z.to_nat cpu). split; [lia|]. apply elem_of_seq. lia.
  - intros t cpu m Hm. destruct (proj1 (Hslots t cpu) ltac:(eauto)) as [[_ Hin]|[_ Hin]]; [|by apply elem_of_nil in Hin].
    unfold cpus in Hin. apply list_elem_of_fmap in Hin as (n & -> & Hn%elem_of_seq). lia.
Qed.
End System.

(** ** Events *)

(** A client command, a run of one of the daemons, or an interrupt of the
    device for the request it has finished. *)
Inductive kv_event : Type :=
  | EvAsync (cpu : Z) (cmd : nvme_passthru_kv_cmd)
  | EvBatch (cmds : list nvme_passthru_kv_cmd)
  | EvSync (cmd : nvme_passthru_kv_cmd)
  | EvFlush (cmd : nvme_passthru_kv_cmd)
  | EvDiscard (cmd : nvme_passthru_kv_cmd)
  | EvReadAhead (cmd : nvme_passthru_kv_cmd)
  | EvSched (t cpu : Z)
  | EvSubmit (t cpu : Z)
  | EvComplete
  | EvInterrupt (i : positive).

Section Run.
  Context `{KernelHash} `{KvDevice} `{Fifo Q cap} `{ReadLen} {R : Raced}.
  Variable nr_cpus : Z.
  Context (sleep : driver Q -> driver Q) `{!WakingSleep nr_cpus sleep}.
  Local Abbreviation Inv := (Inv nr_cpus).
  Local Abbreviation Sim := (Sim nr_cpus).
  Implicit Types s : driver Q.
  Implicit Types g : ghost.
  Implicit Types V : kvmap.

(** What runs; [Some] is what the client gets back.  The device interrupts only
    for a request it has, and the handler spins while the ring is full. *)
Definition exec (e : kv_event) : M (driver Q) (option uout) :=
  match e with
  | EvAsync cpu cmd => o <- nvme_kv_iosched_cmd sleep 1 cpu cmd ;; ret (Some o)
  | EvBatch cmds => z <- nvme_kv_multi_iosched_cmd 1 no_blocking_key cmds ;; ret (Some (reply z None))
  | EvSync cmd => o <- nvme_kv_cmd sleep 2 cmd ;; ret (Some o)
  | EvFlush cmd => o <- nvme_kv_flush_cmd sleep nr_cpus cmd ;; ret (Some o)
  | EvDiscard cmd => o <- nvme_kv_discard_readahead_cmd sleep 1 cmd ;; ret (Some o)
  | EvReadAhead cmd => o <- nvme_kv_read_from_readahead_cmd cmd ;; ret (Some o)
  | EvSched t cpu => kv_scheduling_workfn cpu t ;; ret None
  | EvSubmit t cpu =>
      d <- get_submitd t ;; kv_submission_workfn sleep nr_cpus (S (length (sd_mumemq_list d))) t cpu ;; ret None
  | EvComplete =>
      n <- gets (fun s => length (fifo_contents (s_fifo s))) ;; kv_completion_workfn (S n) ;; ret None
  | EvInterrupt i =>
      possible <- gets (fun s => bool_decide (i ∈ s_dev_queue s) && (Z.of_nat (length (fifo_contents (s_fifo s))) <? cap)) ;;
      when possible (device_complete i) ;; ret None
  end.

(** Events the clients and the kernel produce. *)
Definition event_ok (e : kv_event) : Prop :=
  match e with
  | EvAsync cpu cmd => cmd_ok cmd /\ 0 <= cpu < nr_cpus
  | EvBatch cmds => Forall cmd_ok cmds
  | EvSync cmd => sync_cmd_ok cmd
  | EvFlush cmd | EvDiscard cmd => flags cmd = 0 /\ key_length cmd = 0
  | EvReadAhead cmd => cmd_ok cmd /\ is_kv_retrieve_cmd (opcode cmd) = true
  | EvSched t cpu => (t = ACTIVE_READ \/ t = ACTIVE_WRITE) /\ 0 <= cpu < nr_cpus
  | EvSubmit t cpu => 0 <= t < NR_DAEMON
  | EvComplete | EvInterrupt _ => True
  end.

(** ** The specification: a map *)

Definition apply_event (e : kv_event) V : kvmap :=
  match e with
  | EvAsync _ cmd | EvSync cmd => apply_cmd cmd V
  | EvBatch cmds => apply_cmds cmds V
  | _ => V
  end.

(** What the client may get back when the map is [V]. *)
Definition event_reply (e : kv_event) V (o : option uout) : Prop :=
  match e with
  | EvAsync _ cmd => exists out, o = Some out /\ accepted cmd out
  | EvBatch _ => o = Some (reply KVS_SUCCESS None)
  | EvSync cmd => exists out, o = Some out /\ answered_with cmd V out
  | EvFlush _ | EvDiscard _ => o = Some (reply 0 (Some KVS_SUCCESS))
  | EvReadAhead cmd => exists out, o = Some out /\ (ra_replied cmd V out \/ out = reply 0 (Some 0))
  | _ => o = None
  end.

(** An asynchronous command of a key that is not raced is sent while no get of
    the key is in flight. *)
Definition event_quiet s (e : kv_event) : bool :=
  match e with
  | EvAsync _ cmd => quiet s (cmd_key cmd)
  | EvBatch cmds => forallb (fun cmd => quiet s (cmd_key cmd)) cmds
  | _ => true
  end.

Lemma exec_ok e s V : Sim idle s V -> event_ok e -> event_quiet s e = true ->
  exists o s', exec e s = Done o s' /\ Sim idle s' (apply_event e V) /\ event_reply e V o.
Proof.
  intros HS He Hqt. assert (Hg : settled_ghost idle) by by split. pose proof (sim_queues _ _ s V HS) as Hqi.
  destruct e as [cpu cmd|cmds|cmd|cmd|cmd|cmd|t cpu|t cpu| |i]; simpl in *.
  - destruct He as [Hc Hcpu]. destruct (nvme_kv_iosched_cmd_ok nr_cpus sleep idle s V cmd 0 cpu HS Hg Hc Hqt Hcpu) as (out & s' & Hrun & HS' & Ha).
    rewrite (bind_done _ _ _ _ _ Hrun). do 2 eexists; (split; [reflexivity|]); split; eauto.
  - rewrite forallb_forall, <- List.Forall_forall in Hqt. destruct (nvme_kv_multi_iosched_cmd_ok nr_cpus idle s V cmds 0 HS Hg He Hqt) as (s' & Hrun & HS').
    rewrite (bind_done _ _ _ _ _ Hrun). do 2 eexists; (split; [reflexivity|]); split; eauto.
  - destruct (nvme_kv_cmd_ok nr_cpus sleep 0 idle s V cmd HS Hg eq_refl He) as (out & s' & Hrun & HS' & Ha).
    rewrite (bind_done _ _ _ _ _ Hrun). do 2 eexists; (split; [reflexivity|]); split; eauto.
  - destruct He as [Hf Hk]. destruct (nvme_kv_flush_cmd_ok nr_cpus sleep idle s V cmd HS Hg Hf Hk) as (s' & Hrun & HS').
    rewrite (bind_done _ _ _ _ _ Hrun). do 2 eexists; (split; [reflexivity|]); split; eauto.
  - destruct He as [Hf Hk]. destruct (nvme_kv_discard_readahead_cmd_ok nr_cpus sleep 1 idle s V cmd HS Hf Hk) as (s' & Hrun & HS' & _).
    rewrite (bind_done _ _ _ _ _ Hrun). do 2 eexists; (split; [reflexivity|]); split; eauto.
  - destruct He as [Hc Hop]. destruct (nvme_kv_read_from_readahead_cmd_ok nr_cpus idle s V cmd HS Hc Hop) as (out & s' & Hrun & HS' & Ho).
    rewrite (bind_done _ _ _ _ _ Hrun). do 2 eexists; (split; [reflexivity|]); split; eauto.
  - destruct He as [Ht Hcpu]. destruct (kv_scheduling_workfn_ok nr_cpus idle s V t cpu HS Ht Hcpu) as (s' & Hrun & HS' & _).
    rewrite (bind_done _ _ _ _ _ Hrun). do 2 eexists; (split; [reflexivity|]); split; eauto.
  - destruct (qi_daemons _ _ _ _ _ _ Hqi t He) as [d Hd]. rewrite (bind_done _ _ _ _ _ (get_submitd_eq s t d Hd)).
    destruct (kv_submission_workfn_ok nr_cpus sleep (S (length (sd_mumemq_list d))) idle s V t cpu (sd_mumemq_list d) HS Hg He) as (s' & Hrun & HS' & _);
      [unfold daemon_list; by rewrite Hd|lia|]. rewrite (bind_done _ _ _ _ _ Hrun). do 2 eexists; (split; [reflexivity|]); split; eauto.
  - rewrite (bind_done _ _ s (length (fifo_contents (s_fifo s))) s) by reflexivity.
    destruct (kv_completion_workfn_ok nr_cpus [] (S (length (fifo_contents (s_fifo s)))) idle s V HS Hg ltac:(lia)) as (s' & Hrun & HS' & _).
    rewrite (bind_done _ _ _ _ _ Hrun). do 2 eexists; (split; [reflexivity|]); split; eauto.
  - set (p := bool_decide (i ∈ s_dev_queue s) && (Z.of_nat (length (fifo_contents (s_fifo s))) <? cap)). rewrite (bind_done _ _ s p s) by reflexivity. destruct p eqn:Hp; cbn [when].
    + apply andb_true_iff in Hp as [Hi%bool_decide_eq_true Hroom%Z.ltb_lt].
      destruct (device_complete_ok nr_cpus [] idle s V i HS Hg Hi Hroom) as (s' & Hrun & HS' & _). rewrite (bind_done _ _ _ _ _ Hrun). do 2 eexists; (split; [reflexivity|]); split; eauto.
    + rewrite (bind_done _ _ s tt s) by reflexivity. do 2 eexists; (split; [reflexivity|]); split; eauto.
Qed.

(** ** Runs *)

Fixpoint run_events (es : list kv_event) : M (driver Q) (list (option uout)) :=
  match es with
  | [] => ret []
  | e :: es' => o <- exec e ;; os <- run_events es' ;; ret (o :: os)
  end.

(** A run of the specification. *)
Inductive spec_run : kvmap -> list kv_event -> list (option uout) -> kvmap -> Prop :=
  | SpecNil V : spec_run V [] [] V
  | SpecCons V e es o os V' : event_reply e V o -> spec_run (apply_event e V) es os V' -> spec_run V (e :: es) (o :: os) V'.

(** Every event of a run from [s] is quiet in the state it meets. *)
Fixpoint run_quiet (es : list kv_event) s : bool :=
  match es with
  | [] => true
  | e :: es' => event_quiet s e && match exec e s with Done _ s' => run_quiet es' s' | Fault _ => true end
  end.

Lemma run_events_ok es : Forall event_ok es -> forall s V, Sim idle s V -> run_quiet es s = true ->
  exists os s' V', run_events es s = Done os s' /\ spec_run V es os V' /\ Sim idle s' V'.
Proof.
  induction 1 as [|e es He Hes IH]; intros s V HS Hqt; cbn [run_events].
  - exists [], s, V. split; [done|]. split; [constructor|done].
  - cbn [run_quiet] in Hqt. apply andb_true_iff in Hqt as [Hqe Hqt].
    destruct (exec_ok e s V HS He Hqe) as (o & s1 & Hrun & HS1 & Ho). rewrite (bind_done _ _ _ _ _ Hrun). rewrite Hrun in Hqt.
    destruct (IH s1 _ HS1 Hqt) as (os & s' & V' & Hrun' & Hspec & HS'). rewrite (bind_done _ _ _ _ _ Hrun').
    exists (o :: os), s', V'. split; [done|]. split; [by constructor|done].
Qed.

(** Setting up the driver and running the events. *)
Definition boot (d : dev_state) (fifo0 : Q) (es : list kv_event) : outcome (driver Q) (list (option uout)) :=
  (e <- kv_iosched_init nr_cpus fifo0 ;; if negb (e =? 0) then fail NullDeref else run_events es) (blank d fifo0).

(** The same for the run that starts with the set-up. *)
Definition boot_quiet (d : dev_state) (fifo0 : Q) (es : list kv_event) : bool :=
  match kv_iosched_init nr_cpus fifo0 (blank d fifo0) with Done _ s => run_quiet es s | Fault _ => true end.

Lemma boot_ok d fifo0 V es : fifo_ok fifo0 -> fifo_contents fifo0 = [] -> holds d V -> Forall event_ok es ->
  boot_quiet d fifo0 es = true ->
  exists os s' V', boot d fifo0 es = Done os s' /\ spec_run V es os V' /\ Sim idle s' V'.
Proof.
  intros Hq Hc Hd Hes. unfold boot, boot_quiet. destruct (kv_iosched_init_ok nr_cpus d fifo0 V Hq Hc Hd) as (s & Hrun & HS).
  rewrite (bind_done _ _ _ _ _ Hrun), Hrun. by apply run_events_ok.
Qed.
End Run.

(** ** Where the requests are *)

(** Every place a request can be in. *)
Definition places `{Device} `{FifoOps Q} (s : driver Q) : list positive :=
  s_ra_list s ++ s_dev_queue s ++ fifo_contents (s_fifo s) ++ concat (map (fun p => mq_rq p.2) (map_to_list (s_memqs s))).

Section Places.
  Context `{KernelHash} `{KvDevice} `{Fifo Q cap} `{ReadLen}.
  Variable nr_cpus : Z.
  Context (sleep : driver Q -> driver Q) `{!WakingSleep nr_cpus sleep}.
  Implicit Types s : driver Q.
  Implicit Types V : kvmap.

(** Nothing is asked of the clients when every key counts as raced. *)
Definition all_raced : Raced := fun _ => true.

Lemma run_quiet_raced es s : run_quiet (cap := cap) (R := all_raced) nr_cpus sleep es s = true.
Proof.
  revert s. induction es as [|e es IH]; intros s; [done|]. cbn [run_quiet]. apply andb_true_iff. split.
  - destruct e; try done. simpl. apply forallb_forall. by intros c _.
  - by destruct (exec nr_cpus sleep e s).
Qed.

Lemma reached_inv d fifo0 V es os s : fifo_ok fifo0 -> fifo_contents fifo0 = [] -> holds d V -> Forall (event_ok nr_cpus) es ->
  boot (cap := cap) nr_cpus sleep d fifo0 es = Done os s -> exists V', Sim nr_cpus (R := all_raced) idle s V'.
Proof.
  intros Hq Hc Hd Hes Hrun. destruct (boot_ok (R := all_raced) (cap := cap) nr_cpus sleep d fifo0 V es Hq Hc Hd Hes) as (os' & s' & V' & Hrun' & _ & HS).
  - unfold boot_quiet. destruct (kv_iosched_init nr_cpus fifo0 (blank d fifo0)); [apply run_quiet_raced|done].
  - rewrite Hrun in Hrun'. injection Hrun' as _ <-. eauto.
Qed.

Lemma flights_distinct {R : Raced} s V : Sim nr_cpus idle s V ->
  exists rs, mapM (fun i => s_heap s !! i) (s_dev_queue s ++ fifo_contents (s_fifo s)) = Some rs /\ NoDup (map kid rs).
Proof.
  intros [HI _]. destruct (inv_flying _ _ _ HI) as [Hnd Hfl]. unfold flying_list in Hnd, Hfl. simpl in Hnd, Hfl.
  induction (s_dev_queue s ++ fifo_contents (s_fifo s)) as [|i l IH]; [exists []; split; [done|constructor]|].
  apply NoDup_cons in Hnd as [Hi Hnd]. destruct IH as (rs & Hrs & Hk); [done|intros j Hj; apply Hfl; by right|].
  destruct (Hfl i ltac:(left)) as (r & Hr & _ & Hf). exists (r :: rs). split; [simpl; by rewrite Hr, Hrs|].
  simpl. constructor; [|done]. rewrite list_elem_of_fmap. intros (x & Hkx & Hx).
  apply mapM_Some in Hrs. apply list_elem_of_lookup in Hx as [n Hn].
  destruct (Forall2_lookup_r _ _ _ _ _ Hrs Hn) as (j & Hj%list_elem_of_lookup_2 & Hxj).
  destruct (Hfl j ltac:(by right)) as (rj & Hrj & _ & Hfj). assert (rj = x) as -> by congruence.
  apply Hi. by rewrite (one_flying _ idle s i j r x HI eq_refl Hr Hrj Hf Hfj Hkx).
Qed.

(** A request is in the place its state bits say. *)
Lemma buffered_queue {R : Raced} s V i : Sim nr_cpus idle s V ->
  i ∈ concat (map (fun p => mq_rq p.2) (map_to_list (s_memqs s))) <->
  exists r, s_heap s !! i = Some r /\ in_ra r = false /\ flying r = false.
Proof.
  intros [HI _]. rewrite list_elem_of_In, in_concat. split.
  - intros (l & Hl & Hi). apply in_map_iff in Hl as ((m & q) & <- & Hq). apply list_elem_of_In, elem_of_map_to_list in Hq. apply list_elem_of_In in Hi.
    destruct (mo_members _ _ _ _ (inv_memq _ _ _ HI m q Hq) i Hi) as (r & Hr & ? & ? & _). eauto.
  - intros (r & Hr & Hra & Hf). pose proof (inv_place _ _ _ HI i r Hr) as Hp. unfold place_ok in Hp. rewrite Hra, Hf in Hp.
    destruct Hp as (_ & m & q & _ & Hm & Hi). exists (mq_rq q). split; [|by apply list_elem_of_In].
    apply in_map_iff. exists (m, q). split; [done|]. by apply list_elem_of_In, elem_of_map_to_list.
Qed.

(** The requests of different queues are different. *)
Lemma nodup_queues {R : Raced} s V : Sim nr_cpus idle s V -> NoDup (concat (map (fun p => mq_rq p.2) (map_to_list (s_memqs s)))).
Proof.
  intros [HI _]. assert (Hin : forall m q, (m, q) ∈ map_to_list (s_memqs s) -> s_memqs s !! m = Some q) by (intros m q; by rewrite elem_of_map_to_list).
  pose proof (NoDup_fst_map_to_list (s_memqs s)) as Hnd. induction (map_to_list (s_memqs s)) as [|[m q] l IH]; [constructor|].
  apply NoDup_cons in Hnd as [Hm Hnd]. simpl. apply NoDup_app. pose proof (inv_memq _ _ _ HI m q (Hin m q ltac:(left))) as Hok.
  split; [apply Hok|]. split; [|apply IH; [intros; apply Hin; by right|done]].
  intros i Hi Hc. apply list_elem_of_In, in_concat in Hc as (k & Hk & Hik). apply in_map_iff in Hk as ((m' & q') & <- & Hq').
  apply list_elem_of_In in Hq', Hik. pose proof (inv_memq _ _ _ HI m' q' (Hin m' q' ltac:(by right))) as Hok'.
  destruct (mo_members _ _ _ _ Hok i Hi) as (r & Hr & _ & _ & Hrm), (mo_members _ _ _ _ Hok' i Hik) as (r' & Hr' & _ & _ & Hrm').
  apply Hm. apply list_elem_of_fmap. exists (m', q'). split; [simpl; congruence|done].
Qed.

Lemma places_exact {R : Raced} s V : Sim nr_cpus idle s V ->
  NoDup (places s) /\ (forall i, i ∈ places s <-> is_Some (s_heap s !! i)) /\
  (forall m, is_Some (s_memqs s !! m) -> exists l, at_loc [] (s_percpu_memq s) (s_submit s) m l /\
     forall l', at_loc [] (s_percpu_memq s) (s_submit s) m l' -> l' = l).
Proof.
  intros HS. pose proof HS as [HI _]. destruct (inv_flying _ _ _ HI) as [Hnd Hfl]. destruct (inv_ra _ _ _ HI) as [Hra Hra'].
  unfold flying_list in Hnd, Hfl. simpl in Hnd, Hfl. unfold places. rewrite (app_assoc (s_dev_queue s)). split; [|split].
  - apply NoDup_app. split; [done|]. split; [|apply NoDup_app; split; [done|]; split; [|by eapply nodup_queues]].
    + intros i (r & Hi & Hr)%Hra' [(x & Hx & Hxr & _)%Hfl|(x & Hx & Hxr & _)%(buffered_queue s V)]%elem_of_app; [congruence|congruence|done].
    + intros i (r & Hi & _ & Hr)%Hfl (x & Hx & _ & Hxr)%(buffered_queue s V); [congruence|done].
  - intros i. rewrite !elem_of_app. rewrite (buffered_queue s V i HS). split.
    + intros [(r & Hi & _)%Hra'|[Hi|(r & Hi & _)]]; [eauto| |eauto]. rewrite <- elem_of_app in Hi. apply Hfl in Hi as (r & Hi & _). eauto.
    + intros [r Hi]. pose proof (inv_place _ _ _ HI i r Hi) as Hp. unfold place_ok in Hp. destruct (in_ra r) eqn:Hr; [left; apply Hp|].
      right. destruct (flying r) eqn:Hf; [left|right; eauto]. destruct Hp as [_ Hin]. unfold flying_list in Hin. simpl in Hin. by apply elem_of_app in Hin.
  - intros m Hm. pose proof (inv_queues _ _ _ HI) as Hq. destruct (qi_reach _ _ _ _ _ _ Hq m Hm) as [l Hl]. exists l. split; [done|].
    intros l' Hl'. by eapply (qi_uniq _ _ _ _ _ _ Hq).
Qed.
End Places.
