(* ===== verification/KvDurable.v ===== *)
(** * From the queues to the device

    [quiesce] is a round of all the daemons: what is in flight lands, every
    active and reserved queue is scheduled, every submission daemon runs, and
    what it submitted lands.  After a round nothing is buffered or in flight and
    the device holds every value the clients have written: no write is starved
    in a queue, and a queue that waits for a request in flight waits for at most
    one landing. *)

From Stdlib Require Import ZArith Lia Bool.
From stdpp Require Import base list gmap.
From S2P Require Import Prelude KvFifo KvCmd KvState KvHash KvIosched KvCore KvInv KvExec KvHashSpec KvTrans KvView KvDaemons KvSubmit KvFrame KvAsync KvSync KvBatch KvFlush KvSleep KvSystem.

Section Quiesce.
  Context `{KernelHash} `{KvDevice} `{Fifo Q cap} `{ReadLen} {R : Raced}.
  Variable nr_cpus : Z.
  Context (sleep : driver Q -> driver Q) `{!WakingSleep nr_cpus sleep} `{!PassiveSleep sleep}.
  Local Abbreviation Sim := (Sim nr_cpus).
  Local Abbreviation M := (M (driver Q)).
  Implicit Types s : driver Q.
  Implicit Types V : kvmap.

(** Everything the device has completes, and the completion daemon runs. *)
Definition land : M unit := l <- gets s_dev_queue ;; drain_list l.

(** The scheduling daemon twice, for the active and for the reserved queue. *)
Definition schedule_both (k : Z * Z) : M unit := kv_scheduling_workfn k.2 k.1 ;; kv_scheduling_workfn k.2 k.1.

Definition run_submission (t : Z) : M unit :=
  d <- get_submitd t ;; kv_submission_workfn sleep nr_cpus (S (length (sd_mumemq_list d))) t 0.

Definition active_slots : list (Z * Z) := list_prod [ACTIVE_READ; ACTIVE_WRITE] (cpus nr_cpus).

Definition quiesce : M unit :=
  land ;; for_each active_slots schedule_both ;; for_each daemon_types run_submission ;; land.

(** ** Landing *)

Lemma land_ok s V : Sim idle s V -> 0 < cap ->
  exists s', land s = Done tt s' /\ Sim idle s' V /\ frame (fun _ => False) s s' /\ s_dev_queue s' = [] /\ fifo_contents (s_fifo s') = [].
Proof.
  intros HS Hcap. destruct (drain_list_ok nr_cpus idle s V HS ltac:(by split) Hcap) as (s' & Hrun & HS' & _ & Hf & Hd & He).
  exists s'. split; [exact Hrun|done].
Qed.

Lemma landed_no_pending s V : Sim idle s V -> s_dev_queue s = [] -> fifo_contents (s_fifo s) = [] -> no_pending s.
Proof.
  intros [HI _] Hd Hf i r Hi. destruct (rq_blocking_rq r) as [b|] eqn:Hb; [|done].
  destruct (inv_pending _ _ _ HI i r b Hi Hb) as (rb & Hrb & Hfl & _). destruct (flying_ok _ idle s b rb HI Hrb Hfl) as (_ & _ & Hin).
  unfold flying_list in Hin. rewrite Hd, Hf in Hin. by apply elem_of_nil in Hin.
Qed.

(** ** Scheduling *)

(** The slots of the same CPU and of the types the daemon [k] rotates. *)
Definition covers (k k' : Z * Z) : Prop := k' = k \/ k' = (k.1 + GET_RESERVED, k.2).

Lemma schedule_both_ok s V k : Sim idle s V -> k ∈ active_slots ->
  exists s', schedule_both k s = Done tt s' /\ Sim idle s' V /\ s_heap s' = s_heap s /\
    (forall k', empty_slot s k' \/ covers k k' -> empty_slot s' k').
Proof.
  intros HS Hk. destruct k as [t cpu]. unfold active_slots in Hk. apply list_elem_of_In, in_prod_iff in Hk as [Ht Hc].
  assert (Ht' : t = ACTIVE_READ \/ t = ACTIVE_WRITE) by (simpl in Ht; intuition congruence).
  assert (Hc' : 0 <= cpu < nr_cpus).
  { apply list_elem_of_In in Hc. unfold cpus in Hc. apply list_elem_of_fmap in Hc as (n & -> & Hn%elem_of_seq). lia. }
  destruct (kv_scheduling_workfn_ok nr_cpus idle s V t cpu HS Ht' Hc') as (s1 & R1 & HS1 & _ & (Hh1 & _) & Eu1 & _ & Ek1).
  destruct (kv_scheduling_workfn_ok nr_cpus idle s1 V t cpu HS1 Ht' Hc') as (s2 & R2 & HS2 & _ & (Hh2 & _) & Eu2 & Et2 & Ek2).
  exists s2. unfold schedule_both. simpl. rewrite (bind_done _ _ _ _ _ R1). split; [done|]. split; [done|]. split; [congruence|].
  intros k' Hk'. destruct (decide (k' = (t, cpu))) as [->|H1']; [by apply Et2|].
  destruct (decide (k' = (t + GET_RESERVED, cpu))) as [->|H2']; [done|].
  destruct Hk' as [He|[?|?]]; [|done|done]. apply Ek2; [done|done|]. by apply Ek1.
Qed.

Lemma schedule_all_ok V l : forall s, Sim idle s V -> (forall k, k ∈ l -> k ∈ active_slots) ->
  exists s', for_each l schedule_both s = Done tt s' /\ Sim idle s' V /\ s_heap s' = s_heap s /\
    (forall k', empty_slot s k' \/ (exists k, k ∈ l /\ covers k k') -> empty_slot s' k').
Proof.
  induction l as [|k l IH]; intros s HS Hl; cbn [for_each].
  - exists s. split; [done|]. split; [done|]. split; [done|]. intros k' [?|(k & Hk & _)]; [done|by apply elem_of_nil in Hk].
  - destruct (schedule_both_ok s V k HS) as (s1 & R1 & HS1 & Hh1 & E1); [apply Hl; left|].
    destruct (IH s1 HS1) as (s2 & R2 & HS2 & Hh2 & E2); [intros x Hx; apply Hl; by right|].
    exists s2. rewrite (bind_done _ _ _ _ _ R1). split; [done|]. split; [done|]. split; [congruence|].
    intros k' [He|(x & [->|Hx]%elem_of_cons & Hcv)]; apply E2; eauto.
Qed.

(** Every slot there is is covered. *)
Lemma slots_covered k : 0 < nr_cpus -> slot_ok nr_cpus k -> exists k0, k0 ∈ active_slots /\ covers k0 k.
Proof.
  intros Hn [Ht Hc]. specialize (Hc Hn). destruct k as [t cpu]. simpl in *.
  assert (Hin : forall u, u = ACTIVE_READ \/ u = ACTIVE_WRITE -> (u, cpu) ∈ active_slots).
  { intros u Hu. apply list_elem_of_In, in_prod_iff. split; [simpl; intuition congruence|]. apply list_elem_of_In. unfold cpus.
    apply list_elem_of_fmap. exists (Z.to_nat cpu). split; [lia|]. apply elem_of_seq. lia. }
  change NR_DAEMON with 4 in Ht. unfold covers, GET_RESERVED. simpl.
  assert (t = 0 \/ t = 1 \/ t = 2 \/ t = 3) as [->|[->|[->| ->]]] by lia.
  - exists (ACTIVE_READ, cpu). auto.
  - exists (ACTIVE_WRITE, cpu). auto.
  - exists (ACTIVE_READ, cpu). auto.
  - exists (ACTIVE_WRITE, cpu). auto.
Qed.

(** ** Submission *)

Lemma frame_empty_slot T s s' k : frame T s s' -> empty_slot s k -> empty_slot s' k.
Proof.
  intros [Hp _ _ Hq] He m q Hm Hmq. rewrite Hp in Hm. destruct (Hq m q Hmq) as (q0 & Hq0 & Hnil). apply Hnil. by apply (He m).
Qed.

Lemma count_no_pending s l : no_pending s -> count_pending (s_heap s) l = 0.
Proof.
  intros Hn. induction l as [|i l IH]; simpl; [done|]. rewrite IH. destruct (s_heap s !! i) as [r|] eqn:Hi; [|done].
  unfold pending. by rewrite (Hn i r Hi).
Qed.

Lemma run_submission_ok s V t : Sim idle s V -> no_pending s -> 0 <= t < NR_DAEMON ->
  exists s', run_submission t s = Done tt s' /\ Sim idle s' V /\ frame (eq t) s s' /\ daemon_list s' t = Some [].
Proof.
  intros HS Hn Ht. destruct (qi_daemons _ _ _ _ _ _ (sim_queues _ _ s V HS) t Ht) as [d Hd].
  unfold run_submission. rewrite (bind_done _ _ _ _ _ (get_submitd_eq s t d Hd)).
  destruct (kv_submission_workfn_ok nr_cpus sleep (S (length (sd_mumemq_list d))) idle s V t 0 (sd_mumemq_list d) HS) as (s' & Hrun & HS' & _ & Hst);
    [by split|done|unfold daemon_list; by rewrite Hd|lia|].
  destruct (framed_submission sleep nr_cpus (eq t) (S (length (sd_mumemq_list d))) t 0 eq_refl s tt s' (sim_calm _ _ s V HS) Hrun) as [_ Hf].
  exists s'. split; [done|]. split; [done|]. split; [done|]. destruct Hst as [Hst|(l & m & q & _ & Hm & Hp)]; [done|].
  destruct Hp. rewrite (mo_nr_pending _ _ _ _ (inv_memq _ _ _ (proj1 HS') m q Hm)). apply count_no_pending, (fr_pending _ _ _ Hf), Hn.
Qed.

Lemma submit_all_ok V l : (forall t, t ∈ l -> 0 <= t < NR_DAEMON) -> NoDup l -> forall s, Sim idle s V -> no_pending s ->
  exists s', for_each l run_submission s = Done tt s' /\ Sim idle s' V /\ frame (fun t => t ∈ l) s s' /\
    (forall t, t ∈ l -> daemon_list s' t = Some []).
Proof.
  intros Ht Hnd. induction l as [|t l IH]; intros s HS Hn; cbn [for_each].
  - exists s. split; [done|]. split; [done|]. split; [reflexivity|]. intros t Hin. by apply elem_of_nil in Hin.
  - apply NoDup_cons in Hnd as [Hni Hnd].
    destruct (run_submission_ok s V t HS Hn) as (s1 & R1 & HS1 & F1 & E1); [apply Ht; left|].
    destruct (IH ltac:(intros x Hx; apply Ht; by right) Hnd s1 HS1 (fr_pending _ _ _ F1 Hn)) as (s2 & R2 & HS2 & F2 & E2).
    exists s2. rewrite (bind_done _ _ _ _ _ R1). split; [done|]. split; [done|]. split.
    + destruct F1 as [P1 L1 N1 Q1], F2 as [P2 L2 N2 Q2]. split; [congruence| |auto|].
      * intros u Hu. rewrite L2, L1; [done|intros ->; apply Hu; left|intros Hin; apply Hu; by right].
      * intros m q (q2 & Hq2 & He2)%Q2. destruct (Q1 m q2 Hq2) as (q1 & ? & ?). eauto.
    + intros u [->|Hu]%elem_of_cons; [|by apply E2]. by rewrite (fr_lists _ _ _ F2).
Qed.

(** ** The round *)

(** Without queued requests and requests in flight only read-ahead data is left,
    and the device holds the map. *)
Lemma settled_durable s V : 0 < nr_cpus -> Sim idle s V -> s_dev_queue s = [] -> fifo_contents (s_fifo s) = [] ->
  (forall k, slot_ok nr_cpus k -> empty_slot s k) -> (forall t, 0 <= t < NR_DAEMON -> daemon_list s t = Some []) ->
  (forall i r, s_heap s !! i = Some r -> in_ra r = true) /\ holds (s_dev s) V.
Proof.
  intros Hn [HI HV] Hd Hf Hslots Hlists. pose proof (inv_queues _ _ _ HI) as Hqi.
  assert (Hra : forall i r, s_heap s !! i = Some r -> in_ra r = true).
  { intros i r Hi. pose proof (inv_place _ _ _ HI i r Hi) as Hp. unfold place_ok, flying_list in Hp. destruct (in_ra r); [done|].
    rewrite Hd, Hf in Hp. destruct (flying r); [destruct Hp as [_ Hp]; by apply elem_of_nil in Hp|].
    destruct Hp as (_ & m & q & _ & Hm & Hin). destruct (qi_reach _ _ _ _ _ _ Hqi m ltac:(eauto)) as [[t cpu|t|] Hl]; simpl in Hl.
    - pose proof (Hslots _ (qi_slots _ _ _ _ _ _ Hqi _ _ Hl) m q Hl Hm) as He. rewrite He in Hin. by apply elem_of_nil in Hin.
    - destruct Hl as (d & Hd' & Hin'). specialize (Hlists t (qi_types _ _ _ _ _ _ Hqi t d Hd')). unfold daemon_list in Hlists.
      rewrite Hd' in Hlists. injection Hlists as Hl. rewrite Hl in Hin'. by apply elem_of_nil in Hin'.
    - by apply elem_of_nil in Hl. }
  split; [done|]. intros kk Hwf. apply (v_dev _ _ HV); [done|]. intros j f w (r & Hj & Hlw).
  destruct (lw_kid _ _ _ _ Hlw) as (_ & _ & _ & _ & Hb). pose proof (Hra j r Hj) as Hr.
  destruct (in_ra_ok _ idle s j r HI Hj Hr) as [[(_ & Hfl & _) _ _ _] _]. unfold buffered in Hb. by rewrite Hr, Hfl in Hb.
Qed.

Lemma quiesce_ok s V : 0 < nr_cpus -> 0 < cap -> Sim idle s V ->
  exists s', quiesce s = Done tt s' /\ Sim idle s' V /\ (forall i r, s_heap s' !! i = Some r -> in_ra r = true) /\ holds (s_dev s') V.
Proof.
  intros Hn Hcap HS. unfold quiesce. destruct (land_ok s V HS Hcap) as (s1 & R1 & HS1 & _ & Hd1 & Hf1).
  rewrite (bind_done _ _ _ _ _ R1). pose proof (landed_no_pending s1 V HS1 Hd1 Hf1) as Hnp1.
  destruct (schedule_all_ok V active_slots s1 HS1) as (s2 & R2 & HS2 & Hh2 & E2); [done|]. rewrite (bind_done _ _ _ _ _ R2).
  assert (Hnp2 : no_pending s2) by (unfold no_pending; by rewrite Hh2).
  destruct (submit_all_ok V daemon_types) with (s := s2) as (s3 & R3 & HS3 & F3 & E3); [| |done|done|].
  { intros t Ht. unfold daemon_types in Ht. rewrite !elem_of_cons, elem_of_nil in Ht. destruct Ht as [->|[->|[->|[->|[]]]]]; done. }
  { unfold daemon_types. repeat constructor; rewrite ?elem_of_cons, ?elem_of_nil; vm_compute; intuition congruence. }
  rewrite (bind_done _ _ _ _ _ R3). destruct (land_ok s3 V HS3 Hcap) as (s4 & R4 & HS4 & F4 & Hd4 & Hf4).
  exists s4. split; [done|]. split; [done|]. apply settled_durable; try done.
  - intros k Hk. eapply frame_empty_slot, frame_empty_slot, E2; [done|done|]. right. by apply slots_covered.
  - intros t Ht. rewrite (fr_lists _ _ _ F4) by tauto. apply E3. unfold daemon_types. change NR_DAEMON with 4 in Ht.
    assert (t = 0 \/ t = 1 \/ t = 2 \/ t = 3) as [->|[->|[->| ->]]] by lia; vm_compute; repeat constructor.
Qed.
End Quiesce.
