(* ===== verification/KvDemo.v ===== *)
(** * A platform to run the driver on

    Concrete instances of what the driver is parametric in: the kernel's hash
    functions, a device that keeps its pairs in a map, and the drain as the
    sleep.  The theorems are applied to it, and the driver is run on it. *)

From Stdlib Require Import ZArith Lia Bool.
From stdpp Require Import base list gmap.
From S2P Require Import Prelude Coding KvFifo KvCmd KvState KvHash KvIosched KvCore KvInv KvExec KvHashSpec KvTrans KvView KvDaemons KvSubmit KvAsync KvSync KvBatch KvFlush KvSleep KvSystem.

(** [hash_64] multiplies and keeps the high bits; any function of the name does
    for [full_name_hash]. *)
#[export, program] Instance demo_hash : KernelHash := {|
  GOLDEN_RATIO_64 := 0x61C8864680B583EB;
  hash_64 v bits := (v * 0x61C8864680B583EB) mod 2 ^ 64 / 2 ^ (64 - bits) mod 2 ^ bits;
  full_name_hash := le_value |}.
Next Obligation. intros v bits Hb. apply Z.mod_pos_bound. lia. Qed.

(** The device: a key is the 16 bytes and the length field of the command. *)
Definition demo_answer (e n : Z) (l : list Z) : dev_answer := {| ans_errors := e; ans_result := n; ans_data := l |}.

Definition demo_exec (d : kvmap) (c : nvme_command) (k data : list Z) : kvmap * dev_answer :=
  let kk := (k, c_key_len c) in
  if is_kv_store_cmd (c_opcode c) then (<[kk := data]> d, demo_answer 0 0 data)
  else if is_kv_delete_cmd (c_opcode c) then (delete kk d, demo_answer 0 0 data)
  else if is_kv_retrieve_cmd (c_opcode c) then
    match d !! kk with
    | Some v => (d, demo_answer 0 (Z.of_nat (length v)) (take (length data) v ++ drop (length v) data))
    | None => (d, demo_answer 0x310 0 data)
    end
  else (d, demo_answer 0 0 data).

#[export] Instance demo_device : Device := {| dev_state := kvmap; dev_exec := demo_exec |}.

Lemma opcode_cases op : is_kv_store_cmd op = true \/ is_kv_delete_cmd op = true \/ is_kv_retrieve_cmd op = true ->
  (is_kv_store_cmd op = true /\ is_kv_delete_cmd op = false /\ is_kv_retrieve_cmd op = false) \/
  (is_kv_store_cmd op = false /\ is_kv_delete_cmd op = true /\ is_kv_retrieve_cmd op = false) \/
  (is_kv_store_cmd op = false /\ is_kv_delete_cmd op = false /\ is_kv_retrieve_cmd op = true).
Proof. unfold is_kv_store_cmd, is_kv_delete_cmd, is_kv_retrieve_cmd. intros [->%Z.eqb_eq|[->%Z.eqb_eq| ->%Z.eqb_eq]]; auto. Qed.

Lemma demo_retrieve_spec (d : kvmap) c buf : is_kv_retrieve_cmd (c_opcode c) = true ->
  (forall k l, (demo_exec d c (c_key c) buf).1 !! (k, l) = d !! (k, l)) /\
  length (ans_data (demo_exec d c (c_key c) buf).2) = length buf /\
  match d !! (c_key c, c_key_len c) with
  | Some v => ans_errors (demo_exec d c (c_key c) buf).2 = 0 /\
              ans_result (demo_exec d c (c_key c) buf).2 = Z.of_nat (length v) /\
              ans_data (demo_exec d c (c_key c) buf).2 = take (length buf) v ++ drop (length v) buf
  | None => ans_errors (demo_exec d c (c_key c) buf).2 = 0x310
  end.
Proof.
  intros Hs. unfold demo_exec.
  assert (is_kv_store_cmd (c_opcode c) = false /\ is_kv_delete_cmd (c_opcode c) = false) as [-> ->].
  { destruct (opcode_cases (c_opcode c)) as [(? & ? & ?)|[(? & ? & ?)|(? & ? & ?)]]; auto; congruence. }
  rewrite Hs. destruct (d !! (c_key c, c_key_len c)) as [v|]; simpl; [|done]. split; [done|]. split; [|done].
  rewrite length_app, length_take, length_drop. lia.
Qed.

#[export, refine] Instance demo_kvdevice : KvDevice := {| dev_get d k l := (d : kvmap) !! (k, l) |}.
Proof.
  - intros d c data Hs _. simpl. unfold demo_exec. rewrite Hs. split; [done|]. intros k l. simpl.
    destruct (decide ((k, l) = (c_key c, c_key_len c))) as [Heq|Hne];
      [rewrite Heq; apply (lookup_insert_eq (M := gmap _))|by apply (lookup_insert_ne (M := gmap _))].
  - intros d c data Hs _. simpl. unfold demo_exec.
    assert (is_kv_store_cmd (c_opcode c) = false) as ->.
    { destruct (opcode_cases (c_opcode c)) as [(? & ? & ?)|[(? & ? & ?)|(? & ? & ?)]]; auto; congruence. }
    rewrite Hs. split; [done|]. intros k l. simpl.
    destruct (decide ((k, l) = (c_key c, c_key_len c))) as [Heq|Hne];
      [rewrite Heq; apply (lookup_delete_eq (M := gmap _))|by apply (lookup_delete_ne (M := gmap _))].
  - intros d c buf Hs _. exact (demo_retrieve_spec d c buf Hs).
Defined.

(** Every value is read with a buffer of four bytes. *)
#[export] Instance demo_read_len : ReadLen := fun _ => 4.

(** No key is raced. *)
#[export] Instance demo_raced : Raced := fun _ => false.

Definition demo_cpus : Z := 2.
Abbreviation demo_driver := (driver kv_fifo).
Definition demo_sleep : demo_driver -> demo_driver := drain.

#[export] Instance demo_waking : WakingSleep demo_cpus demo_sleep.
Proof. by apply drain_waking. Qed.

Definition demo_disk : dev_state := (∅ : kvmap).
Definition demo_blank : demo_driver := blank demo_disk init_kv_fifo.

Lemma demo_holds : holds demo_disk ∅.
Proof. intros kk _. exact (lookup_empty (M := gmap (list Z * Z)) (A := list Z) kk). Qed.

(** The key with first byte [b], and the commands on it. *)
Definition demo_key (b : Z) : list Z := b :: replicate 15 0.
Definition demo_cmd (op : Z) (k d : list Z) : nvme_passthru_kv_cmd :=
  {| opcode := op; flags := 0; nsid := 1; cdw4 := 0; cdw5 := 0; udata := Some d; data_length := Z.of_nat (length d);
     key_length := 4; key := k; ukey := []; cmd_result := 0 |}.
Definition demo_put (b : Z) (d : list Z) := demo_cmd nvme_cmd_kv_store (demo_key b) d.
Definition demo_get (b : Z) := demo_cmd nvme_cmd_kv_retrieve (demo_key b) [0; 0; 0; 0].
Definition demo_del (b : Z) := demo_cmd nvme_cmd_kv_delete (demo_key b) [].
Definition demo_noop : nvme_passthru_kv_cmd :=
  {| opcode := nvme_cmd_kv_store; flags := 0; nsid := 1; cdw4 := 0; cdw5 := 0; udata := None; data_length := 0;
     key_length := 0; key := replicate 16 0; ukey := []; cmd_result := 0 |}.

Lemma demo_key_wf b : 0 <= b < 256 -> key_wf (demo_key b) 4.
Proof.
  intros Hb. split; [done|]. split; [|split; [lia|done]]. repeat constructor; unfold byte_ok; lia.
Qed.

(** A state between initialisation and the first command. *)
Definition demo_start : demo_driver :=
  match kv_iosched_init demo_cpus init_kv_fifo demo_blank with Done _ s => s | Fault _ => demo_blank end.

Lemma demo_start_sim : Sim demo_cpus idle demo_start ∅.
Proof.
  destruct (kv_iosched_init_ok demo_cpus demo_disk init_kv_fifo ∅) as (s & Hrun & HS); [apply init_fifo_ok|apply init_fifo_ok|apply demo_holds|].
  unfold demo_start, demo_blank. by rewrite Hrun.
Qed.

Lemma demo_cmd_ok op b d : 0 <= b < 256 -> is_write op || is_kv_retrieve_cmd op = true ->
  4 * (Z.of_nat (length d) / 4) = Z.of_nat (length d) -> (is_kv_delete_cmd op = true -> d = []) ->
  (is_kv_retrieve_cmd op = true -> length d = 4%nat) -> sync_cmd_ok (demo_cmd op (demo_key b) d).
Proof.
  intros Hb Hop Hd Hdel Hret. split; [split|done|by eexists]; try done.
  - by apply demo_key_wf.
  - simpl. lia.
  - intros Hop'. simpl. by rewrite (Hdel Hop').
  - intros Hop'. simpl. by rewrite (Hret Hop').
Qed.

Lemma demo_put_ok b d : 0 <= b < 256 -> 4 * (Z.of_nat (length d) / 4) = Z.of_nat (length d) -> sync_cmd_ok (demo_put b d).
Proof. intros. by apply demo_cmd_ok. Qed.
Lemma demo_get_ok b : 0 <= b < 256 -> sync_cmd_ok (demo_get b).
Proof. intros. by apply demo_cmd_ok. Qed.
Lemma demo_del_ok b : 0 <= b < 256 -> sync_cmd_ok (demo_del b).
Proof. intros. by apply demo_cmd_ok. Qed.

(** Two puts of a key with a flight of the first between them, a batch, gets and
    the work of the daemons; then a key that is read ahead, overwritten, read,
    read ahead again and read from the read-ahead data. *)
Definition demo_trace : list kv_event :=
  [EvAsync 0 (demo_put 7 [1; 2; 3; 4]); EvSched ACTIVE_WRITE 0; EvSubmit WRITE_DAEMON 0;
   EvAsync 1 (demo_put 7 [5; 6; 7; 8]); EvSync (demo_get 7); EvSched ACTIVE_WRITE 1; EvInterrupt 1; EvComplete;
   EvSubmit WRITE_DAEMON 1; EvBatch [demo_put 8 [9; 9; 9; 9]; demo_get 7]; EvSubmit BATCH_WRITE_DAEMON 0;
   EvFlush demo_noop; EvSync (demo_del 7); EvReadAhead (demo_get 7); EvDiscard demo_noop;
   EvSync (demo_put 9 [1; 1; 1; 1]);
   EvAsync 0 (demo_get 9); EvSched ACTIVE_READ 0; EvSubmit READ_DAEMON 0; EvInterrupt 5; EvComplete;
   EvAsync 0 (demo_put 9 [2; 2; 2; 2]); EvSync (demo_get 9);
   EvAsync 0 (demo_get 9); EvSched ACTIVE_READ 0; EvSubmit READ_DAEMON 0; EvInterrupt 7; EvComplete; EvSync (demo_get 9)].

Lemma demo_trace_ok : Forall (event_ok demo_cpus) demo_trace.
Proof.
  unfold demo_trace. repeat (apply Forall_cons; split); try done; simpl; try (split; [|lia || done]);
    try (apply demo_put_ok; [lia|done]); try (apply demo_get_ok; lia); try (apply demo_del_ok; lia); auto.
Qed.

Abbreviation dsim := (Sim (Q := kv_fifo) demo_cpus idle).

(** A put that waits in the daemon's list, the same put with the device, and
    its completion in the ring. *)
Definition demo_after (es : list kv_event) : demo_driver :=
  match run_events (cap := NVME_CQ_MASK) demo_cpus demo_sleep es demo_start with Done _ s => s | Fault _ => demo_blank end.
Definition demo_map (es : list kv_event) : kvmap := foldl (fun V e => apply_event e V) ∅ es.

Lemma spec_run_map V es os V' : spec_run V es os V' -> V' = foldl (fun V e => apply_event e V) V es.
Proof. by induction 1. Qed.

Lemma demo_after_sim es : Forall (event_ok demo_cpus) es -> run_quiet (cap := NVME_CQ_MASK) demo_cpus demo_sleep es demo_start = true ->
  dsim (demo_after es) (demo_map es).
Proof.
  intros Hes Hqt. destruct (run_events_ok (cap := NVME_CQ_MASK) demo_cpus demo_sleep es Hes demo_start ∅ demo_start_sim Hqt) as (os & s' & V' & Hrun & Hspec & HS).
  unfold demo_after, demo_map. rewrite Hrun. by rewrite <- (spec_run_map _ _ _ _ Hspec).
Qed.

Definition demo_listed : list kv_event := [EvAsync 0 (demo_put 7 [1; 2; 3; 4]); EvSched ACTIVE_WRITE 0].
Definition demo_given : list kv_event := demo_listed ++ [EvSubmit WRITE_DAEMON 0].
Definition demo_done : list kv_event := demo_given ++ [EvInterrupt 1].

Lemma demo_listed_ok : Forall (event_ok demo_cpus) demo_listed.
Proof.
  repeat (apply Forall_cons; split); [split; [apply demo_put_ok; [lia|done]|done]|split; [by right|done]|constructor].
Qed.
Lemma demo_given_ok : Forall (event_ok demo_cpus) demo_given.
Proof. apply Forall_app. split; [apply demo_listed_ok|by repeat constructor]. Qed.
Lemma demo_done_ok : Forall (event_ok demo_cpus) demo_done.
Proof. apply Forall_app. split; [apply demo_given_ok|by repeat constructor]. Qed.
