(* ===== verification/KvTheorems.v ===== *)
(** * What the scheduling driver guarantees

    The properties of the key-value scheduler and its request handlers, for any
    device that keeps [KvDevice], any kernel hash functions and any sleep that
    keeps [WakingSleep]; each is then applied to the demonstration platform. *)

From Stdlib Require Import ZArith Lia Bool.
From stdpp Require Import base list gmap.
From S2P Require Import Prelude KvFifo KvCmd KvState KvHash KvIosched KvCore KvInv KvExec KvHashSpec KvTrans KvView KvDaemons KvSubmit KvFrame KvAsync KvSync KvBatch KvFlush KvSleep KvSystem KvDurable KvDemo.

Section Theorems.
  Context `{KernelHash} `{KvDevice} `{Fifo Q cap} `{ReadLen} {R : Raced}.
  Variable nr_cpus : Z.
  Context (sleep : driver Q -> driver Q) `{!WakingSleep nr_cpus sleep}.
  Implicit Types s : driver Q.
  Implicit Types V : kvmap.


(** One event from any state of the invariant: it does not fault, answers
    as the map prescribes, changes the map as the command says, and keeps the
    invariant. *)
Theorem event_simulates (e : kv_event) s V : Sim nr_cpus idle s V -> event_ok nr_cpus e -> event_quiet s e = true ->
  exists o s', exec (cap := cap) nr_cpus sleep e s = Done o s' /\ Sim nr_cpus idle s' (apply_event e V) /\ event_reply e V o.
Proof. intros HS He Hqt. by apply exec_ok. Qed.


(** C8: [nvme_kv_iosched_cmd], the asynchronous handler: the command is queued,
    queued behind the request of its key that is in flight, or merged with the
    buffered request of its key, and in each case is accepted and changes the
    map as a put, a delete or a get does.  A key that is not [raced] has no get
    in flight when the command is sent ([quiet]); with every key [raced] the
    condition is void. *)
Theorem async_command_correct (cmd : nvme_passthru_kv_cmd) (cpu : Z) s V n :
  Sim nr_cpus idle s V -> cmd_ok cmd -> quiet s (cmd_key cmd) = true -> 0 <= cpu < nr_cpus ->
  exists out s', nvme_kv_iosched_cmd sleep (S n) cpu cmd s = Done out s' /\ Sim nr_cpus idle s' (apply_cmd cmd V) /\ accepted cmd out.
Proof. intros HS Hc Hqt Hcpu. by apply (nvme_kv_iosched_cmd_ok nr_cpus sleep). Qed.

(** C11: [nvme_kv_multi_iosched_cmd]: a batch without blocking key, of commands as
    in [event_ok] and with keys that are [quiet], has the effect of its commands in
    their order. *)
Theorem batch_correct (cmds : list nvme_passthru_kv_cmd) s V n : Sim nr_cpus idle s V -> Forall cmd_ok cmds ->
  Forall (fun cmd => quiet s (cmd_key cmd) = true) cmds ->
  exists s', nvme_kv_multi_iosched_cmd (S n) no_blocking_key cmds s = Done KVS_SUCCESS s' /\ Sim nr_cpus idle s' (apply_cmds cmds V).
Proof. intros HS Hcs Hqs. by apply (nvme_kv_multi_iosched_cmd_ok nr_cpus). Qed.

(** C9: [kv_submission_workfn] ends after at most one round per queue of its
    list, without a fault and without changing what the clients see.  When it
    ends its list is empty, or its last queue waits for a request in flight. *)
Theorem submission_daemon_correct (t cpu : Z) (l : list positive) s V : Sim nr_cpus idle s V -> 0 <= t < NR_DAEMON ->
  daemon_list s t = Some l ->
  exists s', kv_submission_workfn sleep nr_cpus (S (length l)) t cpu s = Done tt s' /\ Sim nr_cpus idle s' V /\ stopped s' t.
Proof.
  intros HS Ht Hl. destruct (kv_submission_workfn_ok nr_cpus sleep (S (length l)) idle s V t cpu l HS) as (s' & ? & ? & _ & ?);
    [done|done|done|lia|]. by exists s'.
Qed.

(** C10: [kv_completion_workfn] handles every completion of the ring and ends
    with the ring empty, without a fault and without changing what the clients
    see. *)
Theorem completion_daemon_correct s V : Sim nr_cpus idle s V ->
  exists s', kv_completion_workfn (S (length (fifo_contents (s_fifo s)))) s = Done tt s' /\ Sim nr_cpus idle s' V /\
    fifo_contents (s_fifo s') = [] /\ s_dev_queue s' = s_dev_queue s.
Proof.
  intros HS. destruct (kv_completion_workfn_ok nr_cpus [] (S (length (fifo_contents (s_fifo s)))) idle s V HS) as (s' & ? & ? & _ & ? & ?);
    [done|lia|]. by exists s'.
Qed.

(** [kv_scheduling_workfn] hands the active queue of a CPU to the submission
    daemon and puts the reserved one in its place, without a fault and without
    changing what the clients see. *)
Theorem scheduling_daemon_correct (t cpu : Z) s V : Sim nr_cpus idle s V -> t = ACTIVE_READ \/ t = ACTIVE_WRITE -> 0 <= cpu < nr_cpus ->
  exists s', kv_scheduling_workfn cpu t s = Done tt s' /\ Sim nr_cpus idle s' V.
Proof. intros HS Ht Hcpu. destruct (kv_scheduling_workfn_ok nr_cpus idle s V t cpu HS Ht Hcpu) as (s' & ? & ? & _). by exists s'. Qed.

(** A completion interrupt ([kv_end_io_async_rq]) puts the request at the end
    of the ring. *)
Theorem interrupt_correct (i : positive) s V : Sim nr_cpus idle s V -> i ∈ s_dev_queue s ->
  Z.of_nat (length (fifo_contents (s_fifo s))) < cap ->
  exists s', device_complete i s = Done tt s' /\ Sim nr_cpus idle s' V /\
    fifo_contents (s_fifo s') = fifo_contents (s_fifo s) ++ [i] /\ s_dev_queue s' = filter (fun j => j <> i) (s_dev_queue s).
Proof.
  intros HS Hi Hroom. destruct (device_complete_ok nr_cpus [] idle s V i HS) as (s' & ? & ? & _ & ? & ?); [done|done|done|]. by exists s'.
Qed.



(** C2: every write reaches the device.  From any state of the invariant a round
    of the daemons ([quiesce]) ends, after it no request is buffered or in
    flight, and the device holds the value of every key the clients have
    written: no request is starved behind another one or left in a queue. *)
Theorem writes_reach_device `{!PassiveSleep sleep} s V : 0 < nr_cpus -> 0 < cap -> Sim nr_cpus idle s V ->
  exists s', quiesce nr_cpus sleep s = Done tt s' /\ Sim nr_cpus idle s' V /\
    (forall i r, s_heap s' !! i = Some r -> in_ra r = true) /\ holds (s_dev s') V.
Proof. intros Hn Hcap HS. exact (quiesce_ok nr_cpus sleep s V Hn Hcap HS). Qed.

(** [nvme_kv_flush_cmd] without a key and [nvme_kv_discard_readahead_cmd]
    without a key succeed, and change nothing the clients see; after the second
    no read-ahead data is left. *)
Theorem flush_and_discard_correct (cmd : nvme_passthru_kv_cmd) s V n : Sim nr_cpus idle s V -> flags cmd = 0 -> key_length cmd = 0 ->
  (exists s', nvme_kv_flush_cmd sleep nr_cpus cmd s = Done (reply 0 (Some KVS_SUCCESS)) s' /\ Sim nr_cpus idle s' V) /\
  (exists s', nvme_kv_discard_readahead_cmd sleep n cmd s = Done (reply 0 (Some KVS_SUCCESS)) s' /\ Sim nr_cpus idle s' V /\
     s_ra_list s' = [] /\ forall i r, s_heap s' !! i = Some r -> in_ra r = false).
Proof.
  intros HS Hf Hk. split; [exact (nvme_kv_flush_cmd_ok nr_cpus sleep idle s V cmd HS (conj eq_refl eq_refl) Hf Hk)|].
  destruct (nvme_kv_discard_readahead_cmd_ok nr_cpus sleep n idle s V cmd HS Hf Hk) as (s' & Hrun & HS' & Hnil).
  exists s'. split; [done|]. split; [done|]. split; [done|]. intros i r Hi. destruct (in_ra r) eqn:Hr; [|done].
  destruct (in_ra_ok _ idle s' i r (proj1 HS') Hi Hr) as [_ Hin]. rewrite Hnil in Hin. by apply elem_of_nil in Hin.
Qed.

(** C30: a command with flags or with an opcode the handler does not know is
    refused with [-EINVAL] and the KVS code that says why, and changes nothing. *)
Theorem invalid_commands_rejected (cmd : nvme_passthru_kv_cmd) (cpu : Z) s n : s_fails s = [] ->
  (flags cmd <> 0 ->
    nvme_kv_cmd sleep n cmd s = Done (reply EINVAL (Some KVS_ERR_INVALID_FLAGS)) s /\
    nvme_kv_iosched_cmd sleep n cpu cmd s = Done (reply EINVAL (Some KVS_ERR_INVALID_FLAGS)) s /\
    nvme_kv_flush_cmd sleep nr_cpus cmd s = Done (reply EINVAL (Some KVS_ERR_INVALID_FLAGS)) s /\
    nvme_kv_discard_readahead_cmd sleep n cmd s = Done (reply EINVAL (Some KVS_ERR_INVALID_FLAGS)) s /\
    nvme_kv_read_from_readahead_cmd cmd s = Done (reply EINVAL (Some KVS_ERR_INVALID_FLAGS)) s) /\
  (flags cmd = 0 -> is_kv_cmd (opcode cmd) = false \/ is_kv_exist_cmd (opcode cmd) = true ->
    nvme_kv_cmd sleep n cmd s = Done (reply EINVAL (Some KVS_ERR_INVALID_OPCODE)) s) /\
  (flags cmd = 0 -> is_kv_io_cmd (opcode cmd) = false ->
    nvme_kv_iosched_cmd sleep n cpu cmd s = Done (reply EINVAL (Some KVS_ERR_INVALID_OPCODE)) s) /\
  (flags cmd = 0 -> is_kv_retrieve_cmd (opcode cmd) = false ->
    nvme_kv_read_from_readahead_cmd cmd s = Done (reply EINVAL (Some KVS_ERR_INVALID_OPCODE)) s).
Proof.
  intros Hf. unfold nvme_kv_cmd, nvme_kv_iosched_cmd, nvme_kv_flush_cmd, nvme_kv_discard_readahead_cmd, nvme_kv_read_from_readahead_cmd.
  repeat rewrite (bind_done _ _ _ _ _ (fails_eq s Hf)). split; [|split; [|split]].
  - intros ->%Z.eqb_neq. done.
  - intros -> [Hop|Hop]; cbn [negb Z.eqb]; rewrite Hop; [done|]. by destruct (is_kv_cmd (opcode cmd)).
  - intros -> ->. done.
  - intros -> ->. done.
Qed.

(** When the copy of the command from user memory fails, every handler
    returns [-EFAULT] without a result and changes nothing. *)
Theorem failed_copy_changes_nothing (cmd : nvme_passthru_kv_cmd) (cpu : Z) s n l : s_fails s = true :: l ->
  nvme_kv_cmd sleep n cmd s = Done (reply EFAULT None) (s <| s_fails := l |>) /\
  nvme_kv_iosched_cmd sleep n cpu cmd s = Done (reply EFAULT None) (s <| s_fails := l |>) /\
  nvme_kv_flush_cmd sleep nr_cpus cmd s = Done (reply EFAULT None) (s <| s_fails := l |>) /\
  nvme_kv_discard_readahead_cmd sleep n cmd s = Done (reply EFAULT None) (s <| s_fails := l |>) /\
  nvme_kv_read_from_readahead_cmd cmd s = Done (reply EFAULT None) (s <| s_fails := l |>).
Proof.
  intros Hf. assert (Hb : fails s = Done true (s <| s_fails := l |>)) by (unfold fails; by rewrite Hf).
  unfold nvme_kv_cmd, nvme_kv_iosched_cmd, nvme_kv_flush_cmd, nvme_kv_discard_readahead_cmd, nvme_kv_read_from_readahead_cmd.
  by repeat rewrite (bind_done _ _ _ _ _ Hb).
Qed.

(** Comparing keys by whole words and then by the remaining bytes
    ([longcmp] and [memcmp] in [kv_hash_search]) is comparing their first [klen]
    bytes. *)
Theorem key_comparison_correct (k1 k2 : list Z) (klen : Z) : bytes_ok k1 -> bytes_ok k2 ->
  0 <= klen <= Z.of_nat (length k1) -> klen <= Z.of_nat (length k2) ->
  key_match k1 k2 klen = true <-> take (Z.to_nat klen) k1 = take (Z.to_nat klen) k2.
Proof. intros. apply key_match_spec; done || lia. Qed.
End Theorems.

(** ** On the demonstration platform *)



Lemma async_command_correct_witness :
  exists out s', nvme_kv_iosched_cmd demo_sleep 1 0 (demo_put 7 [1; 2; 3; 4]) demo_start = Done out s' /\
    dsim s' (apply_cmd (demo_put 7 [1; 2; 3; 4]) ∅) /\ accepted (demo_put 7 [1; 2; 3; 4]) out.
Proof.
  apply (async_command_correct demo_cpus demo_sleep (demo_put 7 [1; 2; 3; 4]) 0 demo_start ∅ 0);
    [apply demo_start_sim|apply demo_put_ok; [lia|done]|vm_compute; reflexivity|done].
Defined.

Definition demo_batch : list nvme_passthru_kv_cmd := [demo_put 7 [1; 2; 3; 4]; demo_put 8 [5; 6; 7; 8]; demo_del 7].

Lemma batch_correct_witness :
  exists s', nvme_kv_multi_iosched_cmd 1 no_blocking_key demo_batch demo_start = Done KVS_SUCCESS s' /\ dsim s' (apply_cmds demo_batch ∅).
Proof.
  apply (batch_correct demo_cpus demo_batch demo_start ∅ 0); [apply demo_start_sim| |repeat constructor; vm_compute; reflexivity].
  repeat constructor; try apply demo_put_ok; try apply demo_del_ok; done || lia.
Defined.

Lemma submission_daemon_correct_witness :
  exists l : list positive, length l = 1%nat /\ exists s', kv_submission_workfn demo_sleep demo_cpus (S (length l)) WRITE_DAEMON 0 (demo_after demo_listed) = Done tt s' /\
    dsim s' (demo_map demo_listed) /\ stopped s' WRITE_DAEMON.
Proof.
  exists (default [] (daemon_list (demo_after demo_listed) WRITE_DAEMON)). split; [vm_compute; reflexivity|].
  apply (submission_daemon_correct demo_cpus demo_sleep WRITE_DAEMON 0 _ (demo_after demo_listed) (demo_map demo_listed));
    [apply demo_after_sim; [apply demo_listed_ok|vm_compute; reflexivity]|done|vm_compute; reflexivity].
Defined.

Lemma completion_daemon_correct_witness :
  length (fifo_contents (s_fifo (demo_after demo_done))) = 1%nat /\
  exists s', kv_completion_workfn (S (length (fifo_contents (s_fifo (demo_after demo_done))))) (demo_after demo_done) = Done tt s' /\
    dsim s' (demo_map demo_done) /\ fifo_contents (s_fifo s') = [] /\ s_dev_queue s' = s_dev_queue (demo_after demo_done).
Proof.
  split; [vm_compute; reflexivity|].
  apply (completion_daemon_correct demo_cpus (demo_after demo_done) (demo_map demo_done)). apply demo_after_sim; [apply demo_done_ok|vm_compute; reflexivity].
Defined.






(** A put in flight and a second one that waits for it. *)
Definition demo_waiting : list kv_event := demo_given ++ [EvAsync 1 (demo_put 7 [5; 6; 7; 8])].

Lemma demo_waiting_ok : Forall (event_ok demo_cpus) demo_waiting.
Proof.
  apply Forall_app. split; [apply demo_given_ok|]. repeat constructor; simpl; try lia; apply demo_put_ok; lia || done.
Qed.

Lemma writes_reach_device_witness :
  exists s', quiesce demo_cpus demo_sleep (demo_after demo_waiting) = Done tt s' /\ dsim s' (demo_map demo_waiting) /\
    (forall i r, s_heap s' !! i = Some r -> in_ra r = true) /\ holds (s_dev s') (demo_map demo_waiting).
Proof.
  apply (writes_reach_device (cap := NVME_CQ_MASK) demo_cpus demo_sleep (demo_after demo_waiting) (demo_map demo_waiting));
    [reflexivity|reflexivity|apply demo_after_sim; [apply demo_waiting_ok|vm_compute; reflexivity]].
Defined.

Lemma invalid_commands_rejected_witness :
  nvme_kv_iosched_cmd demo_sleep 1 0 (demo_cmd 0x99 (demo_key 7) []) demo_start =
    Done (reply EINVAL (Some KVS_ERR_INVALID_OPCODE)) demo_start.
Proof.
  destruct (invalid_commands_rejected demo_cpus demo_sleep (demo_cmd 0x99 (demo_key 7) []) 0 demo_start 1 eq_refl) as (_ & _ & Hop & _).
  exact (Hop eq_refl eq_refl).
Defined.

