(* ===== verification/KvFindings.v ===== *)
(** * Runs that go wrong

    Concrete runs of the driver on the demonstration platform, outside the
    conditions of the theorems or about what they leave open (the read-ahead
    data of raced keys), in which the code does not do what it means to. *)

From Stdlib Require Import ZArith Lia Bool.
From stdpp Require Import base list gmap.
From S2P Require Import Prelude KvFifo KvCmd KvState KvHash KvIosched KvCore KvInv KvExec KvHashSpec KvTrans KvView KvDaemons KvSubmit KvFrame KvAsync KvSync KvBatch KvFlush KvSleep KvSystem KvDemo.

(** The fault a run ends with, and what a handler answers. *)
Definition fault_of {S A} (o : outcome S A) : option fault :=
  match o with Done _ _ => None | Fault f => Some f end.
Definition answer_of {S A} (o : outcome S A) : option A :=
  match o with Done a _ => Some a | Fault _ => None end.

(** ** Read-ahead data that a later put has overwritten *)

(** A key holds 1,1,1,1 on the device.  An asynchronous get of it is in flight
    when an asynchronous put of 2,2,2,2 arrives; then the get completes. *)
Definition stale_trace : list kv_event :=
  [EvSync (demo_put 7 [1; 1; 1; 1]); EvAsync 0 (demo_get 7); EvSched ACTIVE_READ 0; EvSubmit READ_DAEMON 0;
   EvAsync 0 (demo_put 7 [2; 2; 2; 2]); EvInterrupt 1; EvComplete].

(** A synchronous get after an accepted put can return the old value.  The
    put drops the read-ahead entry of its key when it is queued, but the get
    that is in flight creates the entry afterwards, when it completes; the entry
    then answers the next get although the map holds the new value. *)
Lemma stale_readahead_answer :
  demo_map stale_trace !! (demo_key 7, 4) = Some [2; 2; 2; 2] /\
  answer_of (nvme_kv_cmd demo_sleep 2 (demo_get 7) (demo_after stale_trace)) =
    Some {| o_ret := 0; o_result := Some 4; o_status := Some KVS_ERR_EXIST_IN_RA_HASH; o_data := Some [1; 1; 1; 1] |}.
Proof. split; vm_compute; reflexivity. Qed.

(** ** Requests that crash the driver *)

(** A put with a key of twenty bytes. *)
Definition long_put (d : list Z) : nvme_passthru_kv_cmd :=
  {| opcode := nvme_cmd_kv_store; flags := 0; nsid := 1; cdw4 := 0; cdw5 := 0; udata := Some d; data_length := Z.of_nat (length d);
     key_length := 20; key := replicate 16 0; ukey := replicate 20 5; cmd_result := 0 |}.

(** Three requests of a client that the driver does not survive.
    Discarding a key that has a buffered get releases the lock of the bucket
    twice: the branch for a retrieve unlocks it, and the code after it again.
    Two asynchronous puts with one key longer than 16 bytes dereference NULL:
    [init_kv_async_request] sets [key_addr] for inline keys only, and the search
    for the second put compares with the key of the first.
    A synchronous get that meets a buffered delete with a non-zero data length
    ends in [BUG]: the delete's buffer is compared with a length of 0. *)
Lemma requests_that_crash :
  fault_of (nvme_kv_discard_readahead_cmd demo_sleep 1 (demo_get 7) (demo_after [EvAsync 0 (demo_get 7)])) = Some BadUnlock /\
  fault_of (nvme_kv_iosched_cmd demo_sleep 1 0 (long_put [3; 3; 3; 3]) (demo_after [EvAsync 0 (long_put [1; 2; 3; 4])])) = Some NullDeref /\
  fault_of (nvme_kv_cmd demo_sleep 2 (demo_get 7)
    (demo_after [EvAsync 0 (demo_cmd nvme_cmd_kv_delete (demo_key 7) [0; 0; 0; 0])])) = Some BugOn.
Proof. split; [|split]; vm_compute; reflexivity. Qed.

(** A batch whose second command has a long key that cannot be copied frees its
    memory queue with the first request still in it; the next batch gets the
    queue with that request, whose [memq] pointer is to the freed queue. *)
Definition after {S A} (s0 : S) (o : outcome S A) : S := match o with Done _ s => s | Fault _ => s0 end.
Definition failed_batch : demo_driver :=
  after demo_start (nvme_kv_multi_iosched_cmd 1 no_blocking_key [demo_put 7 [1; 2; 3; 4]; long_put [1; 2; 3; 4]]
    (demo_start <| s_fails := [false; false; false; false; false; false; false; false; true] |>)).

Lemma dirty_queue_is_reused :
  map mq_rq (s_memq_slab failed_batch) = [[1%positive]] /\
  (let s := after demo_start (nvme_kv_multi_iosched_cmd 1 no_blocking_key [demo_put 8 [1; 2; 3; 4]] (failed_batch <| s_fails := [] |>)) in
   map (fun m => mq_rq (default zero_memq (s_memqs s !! m))) (default [] (daemon_list s BATCH_WRITE_DAEMON)) = [[2%positive; 1%positive]] /\
   match s_heap s !! 1%positive with Some r => match rq_memq r with Some m => s_memqs s !! m = None | None => False end | None => False end).
Proof. split; [|split]; vm_compute; reflexivity. Qed.

(** ** Buffer lengths *)

(** A get with a buffer of [n] bytes. *)
Definition get_n (b : Z) (n : nat) : nvme_passthru_kv_cmd := demo_cmd nvme_cmd_kv_retrieve (demo_key b) (replicate n 0).

(** Answers that do not respect the lengths of the buffers.  A get that is
    answered from read-ahead data of a shorter read copies past the end of the
    kernel's buffer; a get that meets a buffered put writes the whole value of
    the put to the user, whatever the size of the user's buffer. *)
Lemma answers_overrun_buffers :
  fault_of (nvme_kv_cmd demo_sleep 2 (get_n 7 8)
    (demo_after [EvSync (demo_put 7 [1; 1; 1; 1]); EvAsync 0 (get_n 7 4); EvSched ACTIVE_READ 0; EvSubmit READ_DAEMON 0; EvInterrupt 1; EvComplete])) = Some OutOfBounds /\
  data_length (get_n 7 4) = 4 /\
  (answer_of (nvme_kv_cmd demo_sleep 2 (get_n 7 4) (demo_after [EvAsync 0 (demo_put 7 [1; 2; 3; 4; 5; 6; 7; 8])])) ≫= o_data) =
    Some [1; 2; 3; 4; 5; 6; 7; 8].
Proof. split; [|split]; vm_compute; reflexivity. Qed.

(** ** Wrong answers *)

(** What the driver answers wrongly.  A synchronous get after an accepted put
    can return the old value, from read-ahead data that a get in flight left
    behind.  Answers do not respect the lengths of the buffers: a get that is
    answered from a shorter read copies past the end of the kernel's buffer, and
    one that meets a buffered put gets the whole value, whatever the size of its
    buffer.  An append is accepted by the asynchronous handlers, but [set_kv_cmd]
    has no case for it: the command that reaches the device carries no key, no
    length and no offset. *)
Lemma wrong_answers :
  (demo_map stale_trace !! (demo_key 7, 4) = Some [2; 2; 2; 2] /\
   answer_of (nvme_kv_cmd demo_sleep 2 (demo_get 7) (demo_after stale_trace)) =
     Some {| o_ret := 0; o_result := Some 4; o_status := Some KVS_ERR_EXIST_IN_RA_HASH; o_data := Some [1; 1; 1; 1] |}) /\
  (fault_of (nvme_kv_cmd demo_sleep 2 (get_n 7 8)
     (demo_after [EvSync (demo_put 7 [1; 1; 1; 1]); EvAsync 0 (get_n 7 4); EvSched ACTIVE_READ 0; EvSubmit READ_DAEMON 0; EvInterrupt 1; EvComplete])) = Some OutOfBounds /\
   data_length (get_n 7 4) = 4 /\
   (answer_of (nvme_kv_cmd demo_sleep 2 (get_n 7 4) (demo_after [EvAsync 0 (demo_put 7 [1; 2; 3; 4; 5; 6; 7; 8])])) ≫= o_data) =
     Some [1; 2; 3; 4; 5; 6; 7; 8]) /\
  (forall cmd, opcode cmd = nvme_cmd_kv_append ->
     is_kv_io_cmd (opcode cmd) = true /\ c_key (set_kv_cmd zero_command cmd) = replicate 16 0 /\
     c_key_len (set_kv_cmd zero_command cmd) = 0 /\ c_value_len (set_kv_cmd zero_command cmd) = 0 /\ c_offset (set_kv_cmd zero_command cmd) = 0).
Proof.
  split; [exact stale_readahead_answer|]. split; [exact answers_overrun_buffers|]. unfold set_kv_cmd. by intros cmd ->.
Qed.
